(* ===== verification/_CoqProject ===== *)
-Q . S2P
Prelude.v
WireInt.v
Extern.v
Toy.v
Crypto.v
Transcript.v
Keystore.v
Pending.v
Handshake.v
HandshakeProps.v
HandshakeRun.v
HandshakeDemo.v
Session.v
SessionProps.v
SessionDemo.v
NetIo.v
Frame.v
ProxyV2.v
RateLimit.v
RateLimitProps.v
RateLimitRate.v
AuthMsg.v
Ws.v
WsProps.v
WsRoundtrip.v
WsSink.v
Sha1.v
WsUpgrade.v
WsUpgradeDemo.v
ConnIo.v
ConnIoProps.v
ConnIoRun.v
ConnIoWs.v
ConnIoLines.v
ConnIoDemo.v
Base32.v
StoreDb.v
StoreTx.v
Store.v
StoreAuth.v
StoreLogic.v
StoreHistory.v
StoreAtomic.v
StoreCalm.v
StoreAudit.v
StoreKeys.v
StoreOnce.v
StoreTokens.v
StoreRecovery.v
StoreOpen.v
Tokens.v
Recovery.v
StoreDemo.v
AccountDemo.v
AuthdLog.v
Slot.v
AuthdConn.v
HandshakePin.v
AuthdDecoy.v
AuthdGate.v
AuthdDemo.v
EvLoop.v
EvLoopProps.v
EvLoopTotal.v
LocalReq.v
LocalApi.v
LocalApiLoop.v
Daemon.v
DaemonLinks.v
LoopDemo.v
