(* ===== verification/Prelude.v ===== *)
(** * mldsa-auth: a verification development

    The repository is a post-quantum authentication system in C: a handshake
    (X25519 and ML-KEM for the keys, ML-DSA for the identities), a record layer
    on top of it, and a daemon, [authd], that logs devices in, keeps their
    accounts and serves a local API to a web site and to its operator.  This
    development translates the code under [src/] into executable functions and
    proves what makes it correct.  Paths below are relative to [src/].

    ** The program and the files that model it

    A caller's buffer is the list of its bytes, a NULL-able pointer an [option],
    a [uint64_t] an integer whose wrap-around is written out ([u64]), an enum an
    inductive type with the source's constructors, a struct a record.  libsodium,
    liboqs, SQLite and the operating system are not in the repository: they are
    parameters (type classes), with what their documentation promises as
    separate classes of laws.

    - [Prelude] (this file): bytes, widths, buffers, shared lemmas and tactics.
      [WireInt]: [src/util/wire_int.c].
    - [Extern]: the parameters [Env] (libsodium, liboqs, clock, allocation), their
      laws [EnvSizes], [EnvCrypto], [EnvUp], and the monad [M] of calls that
      thread the world.  [Toy]: a concrete instance for evaluated examples.
    - [Crypto]: [src/crypto/*.c] and [src/util/secure_mem.c].  [Transcript]:
      [src/protocol/transcript.c], the wire messages and the transcript hashes.
      [Keystore]: [src/protocol/keystore.c].
    - [Pending] and [Handshake]: [src/protocol/handshake.c], the single-use ledger
      and the state machine of both roles; [HandshakeProps], [HandshakeRun],
      [HandshakePin] their theorems, [HandshakeDemo] a concrete run.
    - [Session]: [src/protocol/session.c]; [SessionProps], [SessionDemo].
    - [NetIo], [Frame]: [apps/net_io.c], [apps/frame.c].
    - [ProxyV2], [RateLimit], [AuthMsg], [Base32], [Sha1]: the files of
      [apps/authd] with these names; [RateLimitProps], [RateLimitRate] the
      theorems of the limiter.
    - [Ws], [WsUpgrade]: [apps/authd/ws.c], frames and HTTP upgrade; [WsProps],
      [WsRoundtrip], [WsSink], [WsUpgradeDemo].
    - [ConnIo]: [apps/authd/conn_io.c], the buffers of a connection, which use
      [ProxyV2] and [Ws]; [ConnIoProps], [ConnIoRun], [ConnIoWs], [ConnIoLines],
      [ConnIoDemo].
    - [StoreDb], [StoreTx], [Store], [StoreAuth], [StoreOpen]:
      [apps/authd/store/store.c] over [schema.sql.h].  A table is the list of its
      rows, a statement a function on the database, a function of [store.c] a
      computation of the monad [T] over a connection with a committed database,
      the working copy of an open transaction and a schedule of engine failures.
      [StoreLogic], [StoreHistory], [StoreAtomic], [StoreCalm], [StoreAudit],
      [StoreKeys], [StoreOnce], [StoreTokens], [StoreRecovery] are the theorems,
      [StoreDemo] and [AccountDemo] the concrete stores.  [Tokens], [Recovery]:
      [apps/authd/tokens.c], [recovery.c].
    - [AuthdLog]: [apps/authd/authd_log.c].  [Slot]: the slots of [evloop.h].
      [AuthdConn]: [apps/authd/authd_conn.c], the protocol handlers, in the monad
      [D] over the application, the slot, the connection record, the store, the
      world and the journal; [AuthdDecoy], [AuthdGate], [AuthdDemo].
    - [EvLoop]: [apps/authd/evloop.c] and the accepting part of [listener.c], in
      the monad [V] over the loop and the application behind its callbacks.
      [EvLoopProps], [EvLoopTotal] prove the loop against classes that state what
      it asks of its callbacks ([OnCloseLaw], [OnInputLaw], [LinesEnd]).
    - [LocalReq], [LocalApi]: [apps/authd/localapi.c], requests and replies, then
      the handlers and the dispatch, with [store_backup] and [close_matching],
      which only they use.  [LocalApiLoop]: a line, seen from the loop.
    - [Daemon]: the handlers of [AuthdConn] and [LocalApi] as the callbacks of the
      loop, discharging [OnCloseLaw], [OnInputLaw] and [LinesEnd], so the theorems
      on the loop hold of the daemon, and what can hold an iteration; [DaemonLinks]: connection records and slots; [LoopDemo]
      a concrete run with two peers.

    ** What the theorems show

    - Handshake: which secrets exist in which state of every reachable context;
      that each side accepts only what the pinned key of the other signed over
      the transcript; that two honest parties agree on the keys; what every
      rejection leaves behind.  The ledger refines a finite map of single-use
      entries.  Transcripts bind the fields of the encoded messages; decoders accept exactly the images of
      the encoders.
    - Session: over a network that replays, reorders and damages records the
      delivered contents are a prefix of the sent ones, nonces are never used
      twice, terminal states stay terminal.
    - Transport: the parsers are independent of how the bytes are cut into reads,
      WebSocket connections deliver what raw ones deliver, buffers keep no byte of
      a consumed frame.  Admission rates and connection counts are bounded, and a
      drained address recovers.
    - Store: after any operations under any engine failures the schema holds, rows
      only evolve as they may, operations are all or nothing, credentials serve
      once, revocation is final, and the audit chain verifies and binds.
    - Daemon: a login code is written only for the pinned device whose key signed;
      an identity that is not active cannot be told from one that is; the journal
      keeps to its privacy modes; the pools stay well formed in every state that
      is reached, deadlines hold, the poll set is complete and within its arrays,
      only a listener that keeps handing out connections, or a call that signals
      keep interrupting, can hold an iteration, every line of the local API is
      answered, and a confirmed revocation leaves no live connection of the
      device.
    - Findings are stated as well: a run of a rotation that fails and leaves its
      audit entry ([StoreDemo.rotate_orphan_entry]); closing a local-API connection
      resets the protocol connection with the same index
      ([DaemonLinks.local_close_resets_record]).

    ** Bounds and fuel

    Loops over arrays are structural.  Loops that only the system or a peer can
    end take fuel and answer [None] when it runs out.  [NetIo] and [Frame]: a
    system that eventually delivers or fails gives enough fuel
    ([Frame.frame_io_terminates]).  [EvLoop]: the fuel bounds restarts of an
    interrupted call, accepted connections and frames served from one buffer;
    more than the interruptions of one call in a row and the size of the input
    buffer is enough for all but the loop that accepts, which the code does not
    bound ([Daemon.iteration_returns]).  [AuthdConn]: [spins] bounds the
    clock reads of the wait in [authd_conn_resolve_pin], which may end the wait
    early but never changes its result; the theorems hold for every [spins].  A
    revocation of all devices is bounded by 1024 in the code itself.

    ** Not modelled

    - Processes, terminals, files and option parsing: [authd_main.c] (its start-up;
      the loop around [evloop_run_once] is covered by [EvLoopProps.reached], which
      lets the main program act between iterations), [authd_admin.c], the command
      line files, [authd_config.c], [keyfile.c], [passphrase*.c], [authd_secret.c],
      [memlock.c], the demo programs.  They sequence system calls around the
      modelled operations, and what they compute is mostly the system's.
    - Creating and closing listening sockets in [listener.c], and connecting and
      listening in [net_io.c]: system calls with nothing between them.
    - [client_core.c] and the browser bindings: drivers of the initiator's calls,
      whose handshake and session are modelled.
    - Time is what the sources pass or read; timing side channels, page protection
      and the erasure of stack buffers that are not read again are not
      represented.  SQLite's behaviour is the one documented for the statements
      used, with any of them allowed to fail. *)

From stdpp Require Export base list numbers strings gmap.
From Stdlib Require Export ZArith Lia.
From Stdlib Require Export Strings.Byte.

Global Open Scope Z_scope.

(** ** Machine integers and bytes *)

Abbreviation byte := Byte.byte.

(** [blen l] is the [size_t] length of a buffer. *)
Abbreviation blen l := (Z.of_nat (length l)).
Abbreviation ztake n l := (take (Z.to_nat n) l).
Abbreviation zdrop n l := (drop (Z.to_nat n) l).

(** The value of a [uint8_t]. *)
Definition bz (b : byte) : Z := Z.of_N (Byte.to_N b).

(** The C conversion [(uint8_t)z]: reduction modulo 2^8. *)
Definition u8 (z : Z) : byte :=
  match Byte.of_N (Z.to_N (z mod 256)) with Some b => b | None => x00 end.

(** The C conversions to the wider unsigned types. *)
Definition u16 (z : Z) : Z := z mod 2 ^ 16.
Definition u32 (z : Z) : Z := z mod 2 ^ 32.
Definition u64 (z : Z) : Z := z mod 2 ^ 64.
Definition UINT64_MAX : Z := 2 ^ 64 - 1.

Lemma u64_range (z : Z) : 0 <= u64 z < 2 ^ 64.
Proof. by apply Z.mod_pos_bound. Qed.
Lemma u64_small (z : Z) : 0 <= z <= UINT64_MAX -> u64 z = z.
Proof. intros. apply Z.mod_small. unfold UINT64_MAX in *. lia. Qed.

#[global] Instance byte_eq_dec : EqDecision byte := Byte.byte_eq_dec.
#[global] Program Instance byte_countable : Countable byte :=
  inj_countable Byte.to_N Byte.of_N _.
Next Obligation. intros b. apply Byte.of_to_N. Qed.

Lemma bz_range (b : byte) : 0 <= bz b < 256.
Proof. unfold bz. pose proof (Byte.to_N_bounded b). lia. Qed.

Lemma bz_u8 (z : Z) : bz (u8 z) = z mod 256.
Proof.
  unfold bz, u8. pose proof (Z.mod_pos_bound z 256 eq_refl) as Hr.
  destruct (Byte.of_N (Z.to_N (z mod 256))) as [b|] eqn:E.
  - apply Byte.to_of_N in E. rewrite E. lia.
  - apply Byte.of_N_None_iff in E. lia.
Qed.

Lemma bz_inj (a b : byte) : bz a = bz b -> a = b.
Proof.
  unfold bz. intros H%N2Z.inj.
  pose proof (Byte.of_to_N a). pose proof (Byte.of_to_N b). congruence.
Qed.

Lemma u8_bz (b : byte) : u8 (bz b) = b.
Proof.
  apply bz_inj. rewrite bz_u8. apply Z.mod_small, bz_range.
Qed.

Lemma u8_of_bz (b : byte) (z : Z) : bz b = z -> u8 z = b.
Proof. intros <-. apply u8_bz. Qed.

Lemma bz_u8_small (z : Z) : 0 <= z < 256 -> bz (u8 z) = z.
Proof. intros. rewrite bz_u8. by apply Z.mod_small. Qed.

Lemma u8_mod (z : Z) : u8 (z mod 256) = u8 z.
Proof. unfold u8. by rewrite Z.mod_mod. Qed.

Lemma u8_inj (a b : Z) : 0 <= a < 256 -> 0 <= b < 256 -> u8 a = u8 b -> a = b.
Proof. intros Ha Hb E. apply (f_equal bz) in E. by rewrite !bz_u8_small in E. Qed.

(** ** Buffers *)

(** A run of zero bytes: the effect of [memset(p, 0, n)] and of
    [sodium_memzero(p, n)]. *)
Definition zeros (n : Z) : list byte := replicate (Z.to_nat n) x00.

(** [memcpy(l + off, bs, blen bs)]: the bytes of [l] from [off] on are
    overwritten by [bs], every other byte of the buffer is kept. *)
Definition poke (off : Z) (bs l : list byte) : list byte :=
  ztake off l ++ bs ++ zdrop (off + blen bs) l.

(** The [n] bytes of [l] at offset [off]. *)
Definition peek (off n : Z) (l : list byte) : list byte := ztake n (zdrop off l).

(** [sodium_memcmp(a, b, n) == 0], and [memcmp(a, b, n) == 0]. *)
Definition memeq (a b : list byte) (n : Z) : bool :=
  bool_decide (ztake n a = ztake n b).

(** The bytes of a C string literal without its terminating NUL. *)
Definition label (s : string) : list byte := String.list_byte_of_string s.

Lemma length_zeros n : 0 <= n -> blen (zeros n) = n.
Proof. unfold zeros. rewrite length_replicate. lia. Qed.

Lemma length_poke off bs l :
  0 <= off -> off + blen bs <= blen l -> length (poke off bs l) = length l.
Proof. intros. unfold poke. rewrite !length_app, length_take, length_drop. lia. Qed.

Lemma length_peek off n l : 0 <= off -> 0 <= n -> off + n <= blen l -> blen (peek off n l) = n.
Proof. intros. unfold peek. rewrite length_take, length_drop. lia. Qed.

Lemma poke_0_full bs l : length bs = length l -> poke 0 bs l = bs.
Proof.
  intros H. unfold poke. rewrite Z.add_0_l, Nat2Z.id, H, drop_all. simpl. by rewrite app_nil_r.
Qed.

Lemma poke_0 bs l : poke 0 bs l = bs ++ drop (length bs) l.
Proof. unfold poke. by rewrite Z.add_0_l, Nat2Z.id. Qed.

(** ** Sequential writers

    The encoders write field after field at a running offset.  [put] is one
    [memcpy(out + off, bs, n); off += n] on the pair (buffer, offset). *)
Definition put (bs : list byte) (st : list byte * Z) : list byte * Z :=
  (poke st.2 bs st.1, st.2 + blen bs).

(** The state of a writer that has written exactly [pre] so far. *)
Definition wrote (pre buf : list byte) : list byte * Z :=
  (pre ++ drop (length pre) buf, blen pre).

Lemma wrote_nil buf : (buf, 0) = wrote [] buf.
Proof. done. Qed.

Lemma put_wrote bs pre buf : put bs (wrote pre buf) = wrote (pre ++ bs) buf.
Proof.
  unfold put, wrote, poke; simpl. f_equal; [|rewrite length_app; lia].
  rewrite Nat2Z.id, take_app_length, <-app_assoc. do 2 f_equal.
  replace (Z.to_nat (blen pre + blen bs)) with (length pre + length bs)%nat by lia.
  rewrite <-drop_drop, drop_app_length, drop_drop, length_app. done.
Qed.

Lemma take_poke_0 bs o : ztake (blen bs) (poke 0 bs o) = bs.
Proof. rewrite poke_0, Nat2Z.id. apply take_app_length. Qed.

Lemma poke_append a b off o : off = blen a -> poke off b (poke 0 a o) = poke 0 (a ++ b) o.
Proof.
  intros ->. rewrite !poke_0. pose proof (put_wrote b a o) as E.
  apply (f_equal fst) in E. exact E.
Qed.

Create Rewrite HintDb wire.
#[export] Hint Rewrite wrote_nil put_wrote : wire.

(** ** Big-endian integers *)

(** The big-endian encoding of [v] on [n] bytes: byte [i] is
    [(uint8_t)(v >> (8*(n-1-i)))]. *)
Fixpoint be_enc (n : nat) (v : Z) : list byte :=
  match n with
  | O => []
  | S m => u8 (Z.shiftr v (8 * Z.of_nat m)) :: be_enc m v
  end.

(** The loop [v = (v << 8) | in[i]] from an accumulator. *)
Definition be_step (v : Z) (b : byte) : Z := Z.lor (Z.shiftl v 8) (bz b).
Definition be_dec (l : list byte) : Z := fold_left be_step l 0.

Lemma be_step_arith v b : be_step v b = v * 256 + bz b.
Proof.
  unfold be_step. pose proof (bz_range b) as Hb.
  assert (Z.land (Z.shiftl v 8) (bz b) = 0) as Hand.
  { apply Z.bits_inj'; intros i Hi. rewrite Z.land_spec, Z.bits_0.
    destruct (decide (i < 8)); [by rewrite Z.shiftl_spec_low by lia|].
    rewrite <-(Z.mod_small (bz b) (2 ^ 8)) by lia.
    rewrite Z.mod_pow2_bits_high by lia. apply andb_false_r. }
  rewrite <-Z.lxor_lor, <-Z.add_nocarry_lxor, Z.shiftl_mul_pow2 by (done || lia). lia.
Qed.

Lemma be_dec_acc l a : fold_left be_step l a = a * 256 ^ blen l + be_dec l.
Proof.
  unfold be_dec. revert a. induction l as [|b l IH]; intros a; simpl fold_left.
  - simpl. lia.
  - rewrite IH, (IH (be_step 0 b)), !be_step_arith.
    rewrite length_cons, Nat2Z.inj_succ, Z.pow_succ_r by lia. lia.
Qed.

Lemma be_dec_cons b l : be_dec (b :: l) = bz b * 256 ^ blen l + be_dec l.
Proof.
  unfold be_dec at 1. simpl. by rewrite be_dec_acc, be_step_arith.
Qed.

Lemma be_dec_app l k : be_dec (l ++ k) = be_dec l * 256 ^ blen k + be_dec k.
Proof. unfold be_dec at 1. rewrite fold_left_app. by rewrite be_dec_acc. Qed.

Lemma be_dec_range l : 0 <= be_dec l < 256 ^ blen l.
Proof.
  induction l as [|b l IH]; [by vm_compute|].
  rewrite be_dec_cons, length_cons, Nat2Z.inj_succ, Z.pow_succ_r by lia.
  pose proof (bz_range b). nia.
Qed.

Lemma length_be_enc n v : length (be_enc n v) = n.
Proof. induction n; simpl; congruence. Qed.

Lemma be_dec_enc n v : be_dec (be_enc n v) = v mod 256 ^ Z.of_nat n.
Proof.
  induction n as [|n IH]; [by rewrite Z.mod_1_r|]. cbn [be_enc].
  rewrite be_dec_cons, IH, length_be_enc, bz_u8.
  rewrite Nat2Z.inj_succ, Z.pow_succ_r, (Z.mul_comm 256) by lia.
  rewrite Z.shiftr_div_pow2 by lia. replace (2 ^ (8 * Z.of_nat n)) with (256 ^ Z.of_nat n)
    by (rewrite Z.pow_mul_r by lia; done).
  rewrite Z.rem_mul_r by lia. lia.
Qed.

Lemma be_dec_enc_small n v : 0 <= v < 256 ^ Z.of_nat n -> be_dec (be_enc n v) = v.
Proof. intros. rewrite be_dec_enc. by apply Z.mod_small. Qed.

Lemma be_dec_inj l k : length l = length k -> be_dec l = be_dec k -> l = k.
Proof.
  revert k. induction l as [|b l IH]; intros [|c k] Hl E; try done.
  injection Hl as Hl. rewrite !be_dec_cons, Hl in E.
  pose proof (be_dec_range l) as Rl. rewrite Hl in Rl. pose proof (be_dec_range k).
  assert (bz b = bz c) as Hb by nia.
  f_equal; [by apply bz_inj|]. apply IH; [done|]. rewrite Hb in E. lia.
Qed.

Lemma be_enc_dec n l : length l = n -> be_enc n (be_dec l) = l.
Proof.
  intros <-. apply be_dec_inj; [by rewrite length_be_enc|].
  apply be_dec_enc_small, be_dec_range.
Qed.

Lemma be_enc_inj n v w :
  0 <= v < 256 ^ Z.of_nat n -> 0 <= w < 256 ^ Z.of_nat n -> be_enc n v = be_enc n w -> v = w.
Proof. intros Hv Hw E. apply (f_equal be_dec) in E. by rewrite !be_dec_enc_small in E. Qed.

(** ** Slicing

    [l[i]] of a C array, and the laws that cut a buffer into the fields the
    decoders read at consecutive offsets. *)
Definition byte_at (l : list byte) (i : Z) : byte := nth (Z.to_nat i) l x00.

Lemma zdrop_peek off n l :
  0 <= off -> 0 <= n -> zdrop off l = peek off n l ++ zdrop (off + n) l.
Proof.
  intros. unfold peek. rewrite Z2Nat.inj_add, <-drop_drop by lia. by rewrite take_drop.
Qed.

(** The two steps that rebuild a buffer from the reads of a decoder. *)
Lemma zdrop_cut off n l rest :
  0 <= off -> 0 <= n -> zdrop (off + n) l = rest -> zdrop off l = peek off n l ++ rest.
Proof. intros ? ? <-. by apply zdrop_peek. Qed.

Lemma zdrop_end off n l :
  0 <= off -> 0 <= n -> off + n = blen l -> zdrop off l = peek off n l.
Proof.
  intros. rewrite (zdrop_peek off n) by lia. rewrite (drop_ge l) by lia. apply app_nil_r.
Qed.

Lemma peek_skip off n a b :
  blen a <= off -> peek off n (a ++ b) = peek (off - blen a) n b.
Proof.
  intros. unfold peek. rewrite drop_app_ge by lia. do 2 f_equal. lia.
Qed.

Lemma peek_hit off n a b : off = 0 -> n = blen a -> peek off n (a ++ b) = a.
Proof. intros -> ->. unfold peek. rewrite Z2Nat.inj_0, drop_0, Nat2Z.id. apply take_app_length. Qed.

Lemma peek_all off n a : off = 0 -> n = blen a -> peek off n a = a.
Proof. intros -> ->. rewrite <-(app_nil_r a) at 2. by apply peek_hit. Qed.

Lemma peek_prefix off n k l :
  0 <= off -> 0 <= n -> off + n <= k -> peek off n (ztake k l) = peek off n l.
Proof.
  intros. unfold peek. rewrite skipn_firstn_comm, take_take. f_equal. lia.
Qed.

Lemma byte_at_0 b l : byte_at (b :: l) 0 = b.
Proof. done. Qed.

Lemma byte_at_skip i a b : blen a <= i -> byte_at (a ++ b) i = byte_at b (i - blen a).
Proof. intros. unfold byte_at. rewrite app_nth2 by lia. f_equal. lia. Qed.

Lemma peek_1 i l : 0 <= i < blen l -> peek i 1 l = [byte_at l i].
Proof.
  intros. unfold peek, byte_at. destruct (nth_split l x00 (n:=Z.to_nat i)) as (a & b & E & Ha); [lia|].
  rewrite E at 1. rewrite drop_app_ge by lia.
  rewrite Ha, Nat.sub_diag. done.
Qed.

Lemma zdrop_app_ge n (a b : list byte) : blen a <= n -> zdrop n (a ++ b) = zdrop (n - blen a) b.
Proof. intros. rewrite drop_app_ge by lia. f_equal. lia. Qed.

Lemma length_zdrop n (l : list byte) : 0 <= n <= blen l -> blen (zdrop n l) = blen l - n.
Proof. intros. rewrite length_drop. lia. Qed.

Lemma take_all_z n (l : list byte) : n = blen l -> ztake n l = l.
Proof. intros ->. rewrite Nat2Z.id. by apply take_ge. Qed.

Lemma memeq_true a b n :
  blen a = n -> blen b = n -> memeq a b n = true <-> a = b.
Proof.
  intros Ha Hb. unfold memeq. rewrite bool_decide_eq_true.
  by rewrite !take_all_z by lia.
Qed.

(** Writes over writes. *)
(** Overwriting the tail of a written prefix by something at least as long. *)
Lemma poke_over a b c off o : off = blen a -> blen c <= blen b -> poke off b (poke 0 (a ++ c) o) = poke 0 (a ++ b) o.
Proof.
  intros -> Hc. rewrite !poke_0. unfold poke. rewrite Nat2Z.id, <-!app_assoc, take_app_length. do 2 f_equal.
  replace (Z.to_nat (blen a + blen b)) with (length a + length b)%nat by lia.
  rewrite <-drop_drop, drop_app_length, drop_app_ge, drop_drop by lia. rewrite !length_app. f_equal. lia.
Qed.


Lemma peek_in_poke a b off n o : off = blen a -> n = blen b -> peek off n (poke 0 (a ++ b) o) = b.
Proof. intros -> ->. rewrite poke_0, <-app_assoc, peek_skip, Z.sub_diag by lia. by apply peek_hit. Qed.


Lemma poke_poke a b o : blen b = blen a -> poke 0 a (poke 0 b o) = poke 0 a o.
Proof. intros H. pose proof (poke_over [] a b 0 o eq_refl). simpl in *. apply H0. lia. Qed.


Lemma peek_poke_0 off n m o : 0 <= off -> 0 <= n -> off + n <= blen m -> peek off n (poke 0 m o) = peek off n m.
Proof.
  intros. rewrite poke_0. unfold peek. rewrite drop_app_le by lia. rewrite take_app_le; [done|].
  rewrite length_drop. lia.
Qed.


Lemma lookup_prefix {A} (l k : list A) : (forall i x, l !! i = Some x -> k !! i = Some x) -> l `prefix_of` k.
Proof.
  revert k. induction l as [|x l IH]; intros k H; [apply prefix_nil|].
  pose proof (H 0%nat x eq_refl) as H0. destruct k as [|y k]; [done|]. injection H0 as <-.
  apply prefix_cons, IH. intros i z Hi. apply (H (S i)), Hi.
Qed.


Lemma poke_nil off l : 0 <= off -> poke off [] l = l.
Proof. intros. unfold poke. rewrite Z.add_0_r. apply take_drop. Qed.


Lemma poke_extend off a b l :
  0 <= off -> off + blen a + blen b <= blen l -> poke (off + blen a) b (poke off a l) = poke off (a ++ b) l.
Proof.
  intros H1 H2. unfold poke. rewrite (take_app_ge (take _ l)) by (rewrite length_take; lia).
  rewrite length_take, take_app_ge by lia.
  replace (Z.to_nat (off + blen a) - Z.to_nat off `min` length l - length a)%nat with 0%nat by lia.
  rewrite take_0, app_nil_r, <-!app_assoc. do 3 f_equal.
  rewrite drop_app_ge, drop_app_ge, drop_drop by (rewrite ?length_take; lia). f_equal. rewrite length_app, length_take. lia.
Qed.


Lemma memeq_false a b n :
  blen a = n -> blen b = n -> memeq a b n = false <-> a <> b.
Proof.
  intros Ha Hb. unfold memeq. rewrite bool_decide_eq_false.
  by rewrite !take_all_z by lia.
Qed.

(** ** Slot tables

    A fixed array of slots, each free or holding a key and a value, seen as a
    finite map: [slot e] is the binding of slot [e], [None] when it is free. *)
Section slot_table.
Context {A K V : Type} `{Countable K} (slot : A -> option (K * V)).

Definition bindings (l : list A) : list (K * V) := omap slot l.
Definition table (l : list A) : gmap K V := list_to_map (bindings l).
Definition distinct (l : list A) : Prop := NoDup (bindings l).*1.

Lemma bindings_insert (l : list A) i e e' :
  l !! i = Some e ->
  exists l1 l2, l = l1 ++ e :: l2 /\ <[i := e']> l = l1 ++ e' :: l2.
Proof.
  intros Hi. exists (take i l), (drop (S i) l). split.
  - symmetry. by apply take_drop_middle.
  - apply insert_take_drop. by eapply lookup_lt_Some.
Qed.

Lemma table_lookup l k v :
  distinct l -> table l !! k = Some v <-> exists i e, l !! i = Some e /\ slot e = Some (k, v).
Proof.
  intros Hd. unfold table. rewrite <-elem_of_list_to_map by done.
  unfold bindings. rewrite list_elem_of_omap. split.
  - intros (e & He & Hp). apply list_elem_of_lookup in He as [i Hi]. by exists i, e.
  - intros (i & e & Hi & Hp). exists e. split; [by eapply list_elem_of_lookup_2|done].
Qed.

Lemma table_find l k i e v :
  distinct l -> l !! i = Some e -> slot e = Some (k, v) -> table l !! k = Some v.
Proof. intros. apply table_lookup; eauto. Qed.

Lemma table_none l k :
  Forall (fun e => forall v, slot e <> Some (k, v)) l -> table l !! k = None.
Proof.
  intros Hl. apply not_elem_of_list_to_map_1. intros ([k' v] & Hk & Hin)%list_elem_of_fmap.
  simpl in Hk. subst. apply list_elem_of_omap in Hin as (e & He & Hs).
  rewrite Forall_forall in Hl. by eapply Hl.
Qed.

Lemma table_size l : distinct l -> size (table l) = length (bindings l).
Proof.
  intros Hd. unfold table. rewrite <-(length_map_to_list (list_to_map _)).
  by rewrite map_to_list_to_map.
Qed.

Lemma bindings_full l : Forall (fun e => is_Some (slot e)) l -> length (bindings l) = length l.
Proof. unfold bindings. induction 1 as [|x l [y Hy] _ IH]; simpl; [done|]. rewrite Hy. simpl. by f_equal. Qed.

Lemma bindings_le l : (length (bindings l) <= length l)%nat.
Proof.
  unfold bindings. induction l as [|x l IH]; [done|]. cbn [omap list_omap length].
  destruct (slot x); cbn [length]; change (list_omap _ _ slot l) with (omap slot l); lia.
Qed.

(** Filling a free slot inserts, rewriting a slot under its key updates, and
    freeing a slot deletes. *)
Lemma bindings_fill l i e e' p :
  l !! i = Some e -> slot e = None -> slot e' = Some p ->
  bindings (<[i := e']> l) ≡ₚ p :: bindings l.
Proof.
  intros Hi He He'. destruct (bindings_insert l i e e' Hi) as (l1 & l2 & -> & ->).
  unfold bindings. rewrite !omap_app. simpl. rewrite He, He'. by rewrite Permutation_middle.
Qed.

(** A table has a free slot exactly when it has fewer bindings than slots. *)
Lemma bindings_room l i e p :
  l !! i = Some e -> slot e = None -> (exists e', slot e' = Some p) -> (length (bindings l) < length l)%nat.
Proof.
  intros Hi He [e' He']. pose proof (bindings_le (<[i := e']> l)) as Hle.
  rewrite length_insert, (bindings_fill _ _ _ _ _ Hi He He') in Hle. simpl in Hle. lia.
Qed.

Lemma table_fill l i e e' k v :
  distinct l -> l !! i = Some e -> slot e = None -> slot e' = Some (k, v) -> table l !! k = None ->
  distinct (<[i := e']> l) /\ table (<[i := e']> l) = <[k := v]> (table l).
Proof.
  intros Hd Hi He He' Hk. pose proof (bindings_fill l i e e' _ Hi He He') as Hp.
  assert (Hnd : NoDup ((k, v) :: bindings l).*1).
  { simpl. apply NoDup_cons. split; [|done]. by apply not_elem_of_list_to_map. }
  split; [unfold distinct; by rewrite Hp|].
  unfold table. by rewrite <-(list_to_map_proper _ _ Hnd (symmetry Hp)).
Qed.

Lemma table_update l i e e' k v v' :
  distinct l -> l !! i = Some e -> slot e = Some (k, v) -> slot e' = Some (k, v') ->
  distinct (<[i := e']> l) /\ table (<[i := e']> l) = <[k := v']> (table l).
Proof.
  intros Hd Hi He He'. unfold distinct, table in *.
  destruct (bindings_insert l i e e' Hi) as (l1 & l2 & -> & ->).
  unfold bindings in *. rewrite omap_app in Hd. rewrite !omap_app. simpl in *. rewrite He, ?He' in *.
  rewrite fmap_app in *. split; [done|]. simpl in *.
  apply NoDup_app in Hd as (_ & Hd1 & Hd2). apply NoDup_cons in Hd2 as [Hd2 _].
  assert (Hk : list_to_map (M := gmap K V) (omap slot l1) !! k = None).
  { apply not_elem_of_list_to_map_1. intros Hin. by apply (Hd1 _ Hin); left. }
  rewrite !list_to_map_app. simpl. rewrite <-!insert_union_r by done. by rewrite insert_insert_eq.
Qed.

Lemma table_clear l i e e' k v :
  distinct l -> l !! i = Some e -> slot e = Some (k, v) -> slot e' = None ->
  distinct (<[i := e']> l) /\ table (<[i := e']> l) = delete k (table l).
Proof.
  intros Hd Hi He He'.
  assert (Hi' : <[i := e']> l !! i = Some e') by (apply list_lookup_insert_eq; by eapply lookup_lt_Some).
  pose proof (bindings_fill _ i e' e _ Hi' He' He) as Hp.
  rewrite list_insert_insert_eq, list_insert_id in Hp by done.
  unfold distinct in *. rewrite Hp in Hd. simpl in Hd. apply NoDup_cons in Hd as [Hk Hd].
  split; [done|]. unfold table.
  rewrite (list_to_map_proper (bindings l) _ ltac:(rewrite Hp; simpl; by apply NoDup_cons) Hp). simpl.
  rewrite delete_insert_id; [done|]. by apply not_elem_of_list_to_map_1.
Qed.

End slot_table.

(** Two-byte fields, as the sources compute them. *)
Lemma be16_word l :
  2 <= blen l -> u16 (Z.lor (Z.shiftl (bz (byte_at l 0)) 8) (bz (byte_at l 1))) = be_dec (ztake 2 l).
Proof.
  destruct l as [|a [|b l]]; cbn [length]; [lia..|]. intros _. change (ztake 2 (a :: b :: l)) with [a; b].
  change (u16 (be_step (bz a) b) = be_dec [a; b]). rewrite be_step_arith, be_dec_cons.
  pose proof (bz_range a). pose proof (bz_range b). change (be_dec [b]) with (bz b).
  change (256 ^ blen [b]) with 256. apply Z.mod_small. lia.
Qed.

Lemma be16_bytes v : [u8 (Z.shiftr v 8); u8 v] = be_enc 2 v.
Proof. cbn. by rewrite Z.shiftr_0_r. Qed.

(** Reading eight bytes into a [uint64_t] by shifts does not wrap. *)
Lemma be64_loop l : blen l <= 8 -> fold_left (fun v b => u64 (Z.lor (Z.shiftl v 8) (bz b))) l 0 = be_dec l.
Proof.
  intros Hl. enough (H : forall a, 0 <= a -> (a + 1) * 256 ^ blen l <= 2 ^ 64 ->
    fold_left (fun v b => u64 (be_step v b)) l a = fold_left be_step l a).
  { apply H; [lia|]. pose proof (Z.pow_le_mono_r 256 (blen l) 8). lia. }
  clear Hl. induction l as [|b l IH]; intros a Ha Hm; [done|]. cbn [fold_left].
  rewrite length_cons, Nat2Z.inj_succ, Z.pow_succ_r in Hm by lia. pose proof (bz_range b).
  pose proof (Z.pow_pos_nonneg 256 (blen l)). rewrite be_step_arith.
  rewrite u64_small by (unfold UINT64_MAX; nia). apply IH; nia.
Qed.

(** Cuts the reads of a decoder at the boundaries of a concatenation. *)
Ltac slice_side := rewrite ?length_app, ?length_take, ?length_be_enc; simpl length; lia.
Ltac slices :=
  repeat first
    [ rewrite peek_hit by slice_side
    | rewrite peek_all by slice_side
    | rewrite peek_skip by slice_side
    | rewrite zdrop_app_ge by slice_side
    | rewrite byte_at_0 ].

(** Inverts the guards and binds of a decoder that returned [Some]. *)
Ltac inv_guards H :=
  repeat match type of H with
  | mbind _ _ = Some _ =>
      let x := fresh "v" in let Hx := fresh "Hread" in apply bind_Some in H as (x & Hx & H)
  | (if ?b then None else _) = Some _ => destruct b eqn:?; [discriminate H|]
  end.

(** Discharges the early returns of a decoder: every guard is refuted by
    arithmetic over the context. *)
Ltac pass_guards tac :=
  repeat match goal with
  | |- context [if ?b then None else _] => destruct b eqn:?; [exfalso; tac|]
  end.
