(* ===== verification/WireInt.v ===== *)
(** * Fixed-width wire integers ([src/util/wire_int.c])

    The big-endian u8/u16 helpers of the wire format.  A writer is modelled by
    the bytes it stores at [out]; a reader returns [None] where the C function
    returns nonzero and leaves its output untouched. *)

From S2P Require Import Prelude.

Definition wire_int_write_u8 (value : Z) : list byte := [u8 value].

Definition wire_int_write_u16 (value : Z) : list byte :=
  [u8 (Z.land (Z.shiftr value 8) 255); u8 (Z.land value 255)].

Definition wire_int_read_u8 (buf : list byte) (len : Z) : option Z :=
  if len <? 1 then None else Some (bz (byte_at buf 0)).

Definition wire_int_read_u16 (buf : list byte) (len : Z) : option Z :=
  if len <? 2 then None
  else Some (u16 (Z.lor (Z.shiftl (bz (byte_at buf 0)) 8) (bz (byte_at buf 1)))).

Lemma write_u16_be (v : Z) : wire_int_write_u16 v = be_enc 2 v.
Proof.
  unfold wire_int_write_u16. simpl. rewrite Z.shiftr_0_r.
  rewrite !(Z.land_ones _ 8) by lia. by rewrite !u8_mod.
Qed.

Lemma read_u8_spec (buf : list byte) :
  wire_int_read_u8 buf (blen buf) = bz <$> head buf.
Proof.
  unfold wire_int_read_u8. destruct buf as [|b l]; [done|].
  destruct (Z.ltb_spec (blen (b :: l)) 1); [simpl in *; lia|done].
Qed.

Lemma read_u16_be (buf : list byte) :
  2 <= blen buf -> wire_int_read_u16 buf (blen buf) = Some (be_dec (peek 0 2 buf)).
Proof.
  intros H. destruct buf as [|a [|b l]]; simpl in H; try lia.
  unfold wire_int_read_u16. destruct (Z.ltb_spec (blen (a :: b :: l)) 2); [simpl in *; lia|].
  change (Some (u16 (be_step (bz a) b)) = Some (be_step (be_step 0 a) b)).
  rewrite !be_step_arith. unfold u16. pose proof (bz_range a). pose proof (bz_range b).
  rewrite Z.mod_small by lia. f_equal.
Qed.

(** Reads at an offset of a buffer. *)
Lemma read_u8_at (buf : list byte) (off : Z) :
  0 <= off -> wire_int_read_u8 (zdrop off buf) (blen buf - off) =
  if blen buf <=? off then None else Some (bz (byte_at buf off)).
Proof.
  intros. unfold wire_int_read_u8.
  destruct (Z.ltb_spec (blen buf - off) 1), (Z.leb_spec (blen buf) off); try lia; [done|].
  unfold byte_at. rewrite <-(take_drop (Z.to_nat off) buf) at 2.
  rewrite app_nth2; rewrite length_take; [|lia]. repeat f_equal. lia.
Qed.

Lemma read_u16_at (buf : list byte) (off : Z) :
  0 <= off -> wire_int_read_u16 (zdrop off buf) (blen buf - off) =
  if blen buf - off <? 2 then None else Some (be_dec (peek off 2 buf)).
Proof.
  intros. destruct (Z.ltb_spec (blen buf - off) 2) as [Hlt|Hge].
  - unfold wire_int_read_u16. by rewrite (proj2 (Z.ltb_lt _ _) Hlt).
  - rewrite <-length_zdrop by lia. rewrite read_u16_be by (rewrite length_zdrop; lia). done.
Qed.

Lemma read_u8_Some (buf : list byte) (off v : Z) :
  0 <= off -> wire_int_read_u8 (zdrop off buf) (blen buf - off) = Some v ->
  off < blen buf /\ v = bz (byte_at buf off).
Proof. intros ?. rewrite read_u8_at by done. case_match; [done|]. intros [= <-]. lia. Qed.

Lemma read_u16_Some (buf : list byte) (off v : Z) :
  0 <= off -> wire_int_read_u16 (zdrop off buf) (blen buf - off) = Some v ->
  off + 2 <= blen buf /\ be_enc 2 v = peek off 2 buf.
Proof.
  intros ?. rewrite read_u16_at by done. case_match; [done|]. intros [= <-].
  split; [lia|]. apply be_enc_dec. apply Nat2Z.inj. rewrite length_peek; lia.
Qed.
