(* ===== verification/Extern.v ===== *)
(** * The code outside the repository

    libsodium, liboqs and the operating system are parameters of the model:
    the class [Env] lists the entry points the sources call, the classes
    [EnvSizes], [EnvCrypto] and [EnvUp] the documented behaviour the theorems rely on.  Calls that draw
    randomness, allocate or read a clock thread an abstract [world]; calls that
    are functions of their arguments are plain functions.  A nonzero return
    code is [None]. *)

From S2P Require Import Prelude.

(** What [OQS_SIG_new] and [OQS_KEM_new] report about an algorithm. *)
Record oqs_sig := OqsSig {
  sig_length_public_key : Z; sig_length_secret_key : Z; sig_length_signature : Z }.
Record oqs_kem := OqsKem {
  kem_length_public_key : Z; kem_length_secret_key : Z;
  kem_length_ciphertext : Z; kem_length_shared_secret : Z }.

Class Env := {
  world : Type;
  (** libsodium: memory and randomness *)
  sodium_malloc : Z -> world -> option (list byte) * world;
  randombytes_buf : Z -> world -> list byte * world;
  (** libsodium: SHA-256, incremental *)
  sha_state : Type;
  crypto_hash_sha256_init : option sha_state;
  crypto_hash_sha256_update : sha_state -> list byte -> option sha_state;
  crypto_hash_sha256_final : sha_state -> option (list byte);
  (** libsodium: X25519, HKDF-SHA256, ChaCha20-Poly1305 (IETF), SipHash-2-4 *)
  crypto_scalarmult_base : list byte -> option (list byte);
  crypto_scalarmult : list byte -> list byte -> option (list byte);
  crypto_kdf_hkdf_sha256_extract : list byte -> list byte -> option (list byte);
  crypto_kdf_hkdf_sha256_expand : Z -> list byte -> list byte -> option (list byte);
  crypto_aead_encrypt : list byte -> list byte -> list byte -> list byte -> option (list byte);
  crypto_aead_decrypt : list byte -> list byte -> list byte -> list byte -> option (list byte);
  crypto_shorthash : list byte -> list byte -> list byte;
  (** liboqs: ML-DSA-65 *)
  OQS_SIG_new : world -> option oqs_sig * world;
  OQS_SIG_keypair : world -> option (list byte * list byte) * world;
  OQS_SIG_sign : list byte -> list byte -> world -> option (list byte) * world;
  OQS_SIG_verify : list byte -> list byte -> list byte -> bool;
  (** liboqs: ML-KEM-768 *)
  OQS_KEM_new : world -> option oqs_kem * world;
  OQS_KEM_keypair : world -> option (list byte * list byte) * world;
  OQS_KEM_encaps : list byte -> world -> option (list byte * list byte) * world;
  OQS_KEM_decaps : list byte -> list byte -> option (list byte);
  (** [clock_gettime(CLOCK_MONOTONIC, ..)]: seconds and nanoseconds *)
  clock_gettime : world -> option (Z * Z) * world }.

(** ** The effect monad: computations that thread the world *)

Definition M `{Env} (A : Type) : Type := world -> A * world.

#[global] Instance M_ret `{Env} : MRet M := fun A a w => (a, w).
#[global] Instance M_bind `{Env} : MBind M := fun A B f m w => let '(a, w') := m w in f a w'.

Lemma M_bind_unfold `{Env} {A B} (f : A -> M B) (m : M A) w :
  (m ≫= f) w = f (m w).1 (m w).2.
Proof. unfold mbind, M_bind. by destruct (m w). Qed.

Lemma M_ret_unfold `{Env} {A} (a : A) w : mret (M := M) a w = (a, w).
Proof. done. Qed.

(** Opens the outermost bind or effectful call of a computation applied to a
    world, naming the intermediate value and world. *)
Ltac mstep a w E :=
  match goal with
  | |- context [(?m ≫= _) ?v] => rewrite (M_bind_unfold _ m v); destruct (m v) as [a w] eqn:E; cbn [fst snd]
  end.

(** ** Documented behaviour *)

Definition sha256_reps `{Env} (rep : sha_state -> list byte -> Prop)
    (sha256 : list byte -> list byte) : Prop :=
  (exists st, crypto_hash_sha256_init = Some st /\ rep st []) /\
  (forall st m d, rep st m ->
     exists st', crypto_hash_sha256_update st d = Some st' /\ rep st' (m ++ d)) /\
  (forall st m, rep st m -> crypto_hash_sha256_final st = Some (sha256 m)).

(** libsodium and liboqs documentation: output sizes, the streaming SHA-256
    interface computes one function of the concatenated input, and the
    incremental state does not fail. *)
Class EnvSizes (E : Env) := {
  sha256 : list byte -> list byte;
  sha256_rep : sha_state -> list byte -> Prop;
  sha256_stream : sha256_reps sha256_rep sha256;
  sha256_len : forall m, blen (sha256 m) = 32;
  sodium_malloc_len : forall n w l w', 0 <= n -> sodium_malloc n w = (Some l, w') -> blen l = n;
  randombytes_len : forall n w, 0 <= n -> blen (randombytes_buf n w).1 = n;
  scalarmult_base_len : forall sk p, crypto_scalarmult_base sk = Some p -> blen p = 32;
  scalarmult_len : forall sk p s, crypto_scalarmult sk p = Some s -> blen s = 32;
  hkdf_expand_len : forall n info prk o,
    0 <= n -> crypto_kdf_hkdf_sha256_expand n info prk = Some o -> blen o = n;
  aead_encrypt_len : forall m ad n k c,
    crypto_aead_encrypt m ad n k = Some c -> blen c = blen m + 16;
  aead_decrypt_len : forall c ad n k m,
    crypto_aead_decrypt c ad n k = Some m -> blen c = blen m + 16;
  shorthash_len : forall d k, blen (crypto_shorthash d k) = 8;
  sig_keypair_len : forall w pk sk w',
    OQS_SIG_keypair w = (Some (pk, sk), w') -> blen pk = 1952 /\ blen sk = 4032;
  kem_keypair_len : forall w pk sk w',
    OQS_KEM_keypair w = (Some (pk, sk), w') -> blen pk = 1184 /\ blen sk = 2400;
  kem_encaps_len : forall ek w ct ss w',
    OQS_KEM_encaps ek w = (Some (ct, ss), w') -> blen ct = 1088 /\ blen ss = 32;
  kem_decaps_len : forall ct dk ss, OQS_KEM_decaps ct dk = Some ss -> blen ss = 32 }.

(** Functional correctness of the primitives: X25519 agreement, ML-KEM
    decapsulation of an encapsulation (the 2^-164 failure rate of ML-KEM-768 is
    disregarded), ML-DSA verification of a signature, and AEAD decryption of an
    encryption.  None of these says anything about secrecy or unforgeability. *)
Class EnvCrypto (E : Env) := {
  scalarmult_agree : forall a b pa pb,
    crypto_scalarmult_base a = Some pa -> crypto_scalarmult_base b = Some pb ->
    crypto_scalarmult a pb = crypto_scalarmult b pa;
  kem_correct : forall w pk sk w0 w1 ct ss w2,
    OQS_KEM_keypair w = (Some (pk, sk), w0) -> OQS_KEM_encaps pk w1 = (Some (ct, ss), w2) ->
    OQS_KEM_decaps ct sk = Some ss;
  sig_correct : forall w pk sk w0 msg w1 s w2,
    OQS_SIG_keypair w = (Some (pk, sk), w0) -> OQS_SIG_sign msg sk w1 = (Some s, w2) ->
    OQS_SIG_verify msg s pk = true;
  sig_len : forall msg sk w s w', OQS_SIG_sign msg sk w = (Some s, w') -> 1 <= blen s <= 3309;
  aead_correct : forall m ad n k c,
    crypto_aead_encrypt m ad n k = Some c -> crypto_aead_decrypt c ad n k = Some m }.

(** The environment has memory, and the libraries are present and behave as
    documented on well-formed inputs. *)
Class EnvUp (E : Env) := {
  up_malloc : forall n w, 0 < n -> exists l w', sodium_malloc n w = (Some l, w');
  up_base : forall sk, blen sk = 32 -> is_Some (crypto_scalarmult_base sk);
  up_dh : forall a b pa pb, crypto_scalarmult_base a = Some pa -> crypto_scalarmult_base b = Some pb ->
    is_Some (crypto_scalarmult a pb);
  up_extract : forall salt ikm, is_Some (crypto_kdf_hkdf_sha256_extract salt ikm);
  up_expand : forall n info prk, 0 <= n <= 255 * 32 ->
    is_Some (crypto_kdf_hkdf_sha256_expand n info prk);
  up_sig_new : forall w, exists w', OQS_SIG_new w = (Some (OqsSig 1952 4032 3309), w');
  up_sign : forall msg sk w, exists s w', OQS_SIG_sign msg sk w = (Some s, w');
  up_kem_new : forall w, exists w', OQS_KEM_new w = (Some (OqsKem 1184 2400 1088 32), w');
  up_kem_keypair : forall w, exists pk sk w', OQS_KEM_keypair w = (Some (pk, sk), w');
  up_encaps : forall w pk sk w0 w1, OQS_KEM_keypair w = (Some (pk, sk), w0) ->
    exists ct ss w', OQS_KEM_encaps pk w1 = (Some (ct, ss), w');
  up_aead : forall m ad n k, blen n = 12 -> blen k = 32 -> is_Some (crypto_aead_encrypt m ad n k) }.

Section hashing.
Context `{ES : EnvSizes}.

(** Feeding chunks one after another and finishing. *)
Definition sha256_chunks (chunks : list (list byte)) : option (list byte) :=
  st ← crypto_hash_sha256_init;
  st ← foldl (fun o d => st ← o; crypto_hash_sha256_update st d) (Some st) chunks;
  crypto_hash_sha256_final st.

Lemma sha256_fold chunks st m :
  sha256_rep st m ->
  exists st', foldl (fun o d => st ← o; crypto_hash_sha256_update st d) (Some st) chunks = Some st'
    /\ sha256_rep st' (m ++ concat chunks).
Proof.
  destruct sha256_stream as (_ & Hup & _).
  revert st m. induction chunks as [|d ds IH]; intros st m Hr; simpl.
  - exists st. by rewrite app_nil_r.
  - destruct (Hup st m d Hr) as (st' & -> & Hr'). rewrite app_assoc. by apply IH.
Qed.

Lemma sha256_chunks_spec chunks : sha256_chunks chunks = Some (sha256 (concat chunks)).
Proof.
  destruct sha256_stream as ((st & Hi & Hr) & _ & Hf).
  unfold sha256_chunks. rewrite Hi. simpl.
  destruct (sha256_fold chunks st [] Hr) as (st' & -> & Hr'). simpl. by apply Hf.
Qed.

End hashing.
