(* ===== verification/Toy.v ===== *)
(** * A concrete environment

    [toy_env] instantiates the external parameters with small executable
    functions that satisfy the documented laws, so that the theorems stated over
    [Env] can be evaluated on concrete runs.  It has no cryptographic strength. *)

From S2P Require Import Prelude Extern.

(** A 32-bit polynomial fold standing in for SHA-256. *)
Definition toy_hash (m : list byte) : list byte :=
  be_enc 32 (foldl (fun h b => Z.land (h * 257 + bz b + 1) (Z.ones 32)) 7 m).

Definition toy_xor (a b : list byte) : list byte :=
  zip_with (fun x y => u8 (Z.lxor (bz x) (bz y))) a b.

Definition toy_seal (m ad n k : list byte) : list byte :=
  m ++ ztake 16 (toy_hash (k ++ n ++ ad ++ m)).

Definition toy_open (c ad n k : list byte) : option (list byte) :=
  if blen c <? 16 then None else
  let m := ztake (blen c - 16) c in
  if bool_decide (toy_seal m ad n k = c) then Some m else None.

Definition toy_sign (sk msg : list byte) : list byte :=
  toy_hash (ztake 32 sk ++ msg) ++ zeros (3309 - 32).

(** [n] copies of the byte [w]. *)
Definition toy_fill (n w : Z) : list byte := replicate (Z.to_nat n) (u8 w).

#[export] Instance toy_env : Env := {|
  world := Z;
  sodium_malloc n w := (Some (toy_fill n 219), w);
  randombytes_buf n w := (toy_fill n w, w + 1);
  sha_state := list byte;
  crypto_hash_sha256_init := Some [];
  crypto_hash_sha256_update st d := Some (st ++ d);
  crypto_hash_sha256_final st := Some (toy_hash st);
  crypto_scalarmult_base sk := if blen sk =? 32 then Some sk else None;
  crypto_scalarmult sk p :=
    if (blen sk =? 32) && (blen p =? 32) then Some (toy_xor sk p) else None;
  crypto_kdf_hkdf_sha256_extract salt ikm := Some (toy_hash (salt ++ ikm));
  crypto_kdf_hkdf_sha256_expand n info prk :=
    Some (be_enc (Z.to_nat n) (be_dec (toy_hash (prk ++ info))));
  crypto_aead_encrypt m ad n k := Some (toy_seal m ad n k);
  crypto_aead_decrypt := toy_open;
  crypto_shorthash d k := be_enc 8 (be_dec (toy_hash (k ++ d)));
  OQS_SIG_new w := (Some (OqsSig 1952 4032 3309), w);
  OQS_SIG_keypair w := (Some (toy_fill 1952 w, toy_fill 4032 w), w + 1);
  OQS_SIG_sign msg sk w := (Some (toy_sign sk msg), w);
  OQS_SIG_verify msg sig pk := bool_decide (sig = toy_sign pk msg);
  OQS_KEM_new w := (Some (OqsKem 1184 2400 1088 32), w);
  OQS_KEM_keypair w := (Some (toy_fill 1184 w, toy_fill 2400 w), w + 1);
  OQS_KEM_encaps ek w :=
    (Some (poke 0 [u8 w] (zeros 1088), toy_hash (ztake 32 ek ++ [u8 w])), w + 1);
  OQS_KEM_decaps ct dk := Some (toy_hash (ztake 32 dk ++ [byte_at ct 0]));
  clock_gettime w := (Some (0, w * 1000000), w) |}.

Lemma length_toy_hash m : blen (toy_hash m) = 32.
Proof. unfold toy_hash. by rewrite length_be_enc. Qed.

Lemma length_toy_seal m ad n k : blen (toy_seal m ad n k) = blen m + 16.
Proof.
  unfold toy_seal. rewrite length_app, length_take. pose proof (length_toy_hash (k ++ n ++ ad ++ m)).
  lia.
Qed.

Lemma length_toy_fill n w : 0 <= n -> blen (toy_fill n w) = n.
Proof. intros. unfold toy_fill. rewrite length_replicate. lia. Qed.

#[local] Arguments toy_hash : simpl never.
#[local] Arguments toy_fill : simpl never.
#[local] Arguments zeros : simpl never.

#[export] Instance toy_sizes : EnvSizes toy_env.
Proof.
  refine {| sha256 := toy_hash; sha256_rep := fun st m => st = m |}; simpl; intros;
    simplify_eq; rewrite ?length_toy_hash, ?length_toy_seal, ?length_toy_fill, ?length_be_enc by lia;
    try lia.
  - split; [by eexists|]. split; [by intros st m d ->; eexists|by intros st m ->].
  - case_match; simplify_eq. lia.
  - case_match; simplify_eq. unfold toy_xor. rewrite length_zip_with. lia.
  - unfold toy_open in *. repeat case_match; simplify_eq. rewrite length_take. lia.
  - rewrite length_poke; rewrite ?length_zeros; simpl; lia.
Defined.

Lemma toy_xor_comm a b : toy_xor a b = toy_xor b a.
Proof.
  revert b. induction a as [|x a IH]; intros [|y b]; [done..|].
  unfold toy_xor in *. simpl. by rewrite Z.lxor_comm, IH.
Qed.

Lemma toy_fill_take n k w : 0 <= k <= n -> ztake k (toy_fill n w) = toy_fill k w.
Proof. intros. unfold toy_fill. rewrite take_replicate. f_equal. lia. Qed.

Lemma toy_open_seal m ad n k : toy_open (toy_seal m ad n k) ad n k = Some m.
Proof.
  unfold toy_open. rewrite length_toy_seal. rewrite (proj2 (Z.ltb_ge _ _)) by lia.
  replace (blen m + 16 - 16) with (blen m) by lia.
  assert (ztake (blen m) (toy_seal m ad n k) = m) as ->.
  { unfold toy_seal. rewrite Nat2Z.id. apply take_app_length. }
  by rewrite bool_decide_eq_true_2.
Qed.

Lemma toy_hash_eq a b : a = b -> toy_hash a = toy_hash b.
Proof. by intros ->. Qed.

Lemma toy_ct_byte w : byte_at (poke 0 [u8 w] (zeros 1088)) 0 = u8 w.
Proof. rewrite poke_0. apply byte_at_0. Qed.

#[export] Instance toy_crypto : EnvCrypto toy_env.
Proof.
  split; simpl.
  - intros a b pa pb H1 H2. repeat case_match; simplify_eq; try done; [|lia..]. by rewrite toy_xor_comm.
  - intros w pk sk w0 w1 ct ss w2 H1 H2. injection H1 as <- <- <-. injection H2 as <- <- <-.
    apply (f_equal Some), toy_hash_eq. rewrite toy_ct_byte, !toy_fill_take by lia. reflexivity.
  - intros w pk sk w0 msg w1 s w2 H1 H2. injection H1 as <- <- <-. injection H2 as <- <-.
    apply bool_decide_eq_true_2. unfold toy_sign.
    apply (f_equal (fun h => h ++ _)), toy_hash_eq. by rewrite !toy_fill_take by lia.
  - intros msg sk w s w' H. injection H as <- <-. unfold toy_sign. rewrite length_app.
    pose proof (length_toy_hash (ztake 32 sk ++ msg)).
    rewrite Nat2Z.inj_add, length_zeros by lia. lia.
  - intros m ad n k c H. injection H as <-. apply toy_open_seal.
Defined.

#[export] Instance toy_up : EnvUp toy_env.
Proof.
  split; simpl; intros; eauto.
  - by rewrite (proj2 (Z.eqb_eq _ _)).
  - repeat case_match; simplify_eq; [by eexists|lia..].
Defined.
