(* ===== verification/Crypto.v ===== *)
(** * Crypto wrappers ([src/crypto], [src/util/secure_mem.c])

    The wrappers around libsodium and liboqs: keypair lifecycles, X25519,
    HKDF-SHA256, the hybrid key schedule, ML-KEM, ML-DSA and the AEAD.  Secret
    memory obtained from [secure_mem_alloc] is an [option (list byte)], [None]
    being the NULL pointer.  An output buffer that the callers read only after
    success is the [Some] of an option result; one that a failing call zeroes
    is returned.  Arguments that are addresses of arrays or (pointer, length)
    pairs are byte lists, so the NULL guards on them have no counterpart. *)

From S2P Require Import Prelude Extern Toy.

(** ** Constants *)
Definition KEX_PUBLIC_KEY_BYTES : Z := 32.
Definition KEX_PRIVATE_KEY_BYTES : Z := 32.
Definition KEX_SHARED_SECRET_BYTES : Z := 32.
Definition KEX_SESSION_KEY_BYTES : Z := 32.
Definition KEX_DIR_C2S : Z := 0x43.
Definition KEX_DIR_S2C : Z := 0x53.
Definition KEX_ID_MIN_LEN : Z := 1.
Definition KEX_ID_MAX_LEN : Z := 64.
Definition KEX_SESSION_ID_LEN : Z := 16.
Definition KEX_TRANSCRIPT_HASH_BYTES : Z := 32.
Definition KEX_KDF_V2_LABEL : list byte := label "mldsa-auth/v2/kdf".
Definition KEX_KDF_V2_INFO_MIN_LEN : Z := 55.
Definition KEX_KDF_V2_INFO_MAX_LEN : Z := 181.
Definition crypto_kdf_hkdf_sha256_BYTES_MAX : Z := 255 * 32.
Definition MLDSA_PUBLIC_KEY_BYTES : Z := 1952.
Definition MLDSA_SECRET_KEY_BYTES : Z := 4032.
Definition MLDSA_SIGNATURE_MAX_BYTES : Z := 3309.
Definition MLKEM_PUBLIC_KEY_BYTES : Z := 1184.
Definition MLKEM_SECRET_KEY_BYTES : Z := 2400.
Definition MLKEM_CIPHERTEXT_BYTES : Z := 1088.
Definition MLKEM_SHARED_SECRET_BYTES : Z := 32.
Definition AEAD_KEY_BYTES : Z := 32.
Definition AEAD_NONCE_BYTES : Z := 12.
Definition AEAD_TAG_BYTES : Z := 16.

(** ** Keypairs: a public array and an owned secret pointer *)
Record kex_keypair_t := KexKeypair { kex_pub : list byte; kex_priv : option (list byte) }.
Record mlkem_keypair_t := MlkemKeypair { kem_pub : list byte; kem_sec : option (list byte) }.
Record mldsa_keypair_t := MldsaKeypair { dsa_pub : list byte; dsa_sec : option (list byte) }.

Section wrappers.
Context `{E : Env}.

(** ** [secure_mem.c] *)
Definition secure_mem_alloc (len : Z) : M (option (list byte)) :=
  if len =? 0 then mret None else sodium_malloc len.

Definition secure_mem_wipe (ptr : option (list byte)) (len : Z) : option (list byte) :=
  match ptr with
  | None => None
  | Some l => if len =? 0 then ptr else Some (poke 0 (zeros len) l)
  end.

(** ** [kex.c]: X25519 *)
Definition kex_keypair_generate (kp : option kex_keypair_t) : M (Z * option kex_keypair_t) :=
  match kp with
  | None => mret (-1, None)
  | Some _ =>
    let none := KexKeypair (zeros KEX_PUBLIC_KEY_BYTES) None in
    sk ← secure_mem_alloc KEX_PRIVATE_KEY_BYTES;
    match sk with
    | None => mret (-1, Some none)
    | Some _ =>
      sk ← randombytes_buf KEX_PRIVATE_KEY_BYTES;
      match crypto_scalarmult_base sk with
      | None => mret (-1, Some none)
      | Some pk => mret (0, Some (KexKeypair pk (Some sk)))
      end
    end
  end.

Definition kex_keypair_free (kp : kex_keypair_t) : kex_keypair_t :=
  KexKeypair (zeros KEX_PUBLIC_KEY_BYTES) None.

Definition kex_shared_secret (kp : kex_keypair_t) (peer_public_key : list byte)
    : option (list byte) :=
  match kex_priv kp with
  | None => None
  | Some sk => crypto_scalarmult sk peer_public_key
  end.

(** ** [kex.c]: HKDF and the hybrid key schedule *)
Definition kex_hkdf_sha256 (okm_len : Z) (ikm salt info : list byte) : option (list byte) :=
  if crypto_kdf_hkdf_sha256_BYTES_MAX <? okm_len then None else
  prk ← crypto_kdf_hkdf_sha256_extract salt ikm;
  crypto_kdf_hkdf_sha256_expand okm_len info prk.

Definition kex_build_kdf_info_v2 (out : list byte) (out_cap : Z) (a_id b_id th_client_auth : list byte)
    (direction : Z) : option (list byte * Z) :=
  let label_len := blen KEX_KDF_V2_LABEL in
  if (blen a_id <? KEX_ID_MIN_LEN) || (KEX_ID_MAX_LEN <? blen a_id) then None else
  if (blen b_id <? KEX_ID_MIN_LEN) || (KEX_ID_MAX_LEN <? blen b_id) then None else
  if negb (direction =? KEX_DIR_C2S) && negb (direction =? KEX_DIR_S2C) then None else
  let needed := label_len + 1 + 1 + blen a_id + 1 + blen b_id + KEX_TRANSCRIPT_HASH_BYTES + 1 in
  if out_cap <? needed then None else
  let st := (out, 0) in
  let st := put KEX_KDF_V2_LABEL st in
  let st := put [x00] st in
  let st := put [u8 (blen a_id)] st in
  let st := put a_id st in
  let st := put [u8 (blen b_id)] st in
  let st := put b_id st in
  let st := put (ztake KEX_TRANSCRIPT_HASH_BYTES th_client_auth) st in
  let st := put [u8 direction] st in
  Some st.

Definition kex_derive_session_key_v2 (ss_x ss_k session_id a_id b_id th_client_auth : list byte)
    (direction : Z) : option (list byte) :=
  if negb (blen session_id =? KEX_SESSION_ID_LEN) then None else
  let info := zeros KEX_KDF_V2_INFO_MAX_LEN in
  '(info, info_len) ← kex_build_kdf_info_v2 info (blen info) a_id b_id th_client_auth direction;
  let ikm := ztake KEX_SHARED_SECRET_BYTES ss_x ++ ztake KEX_SHARED_SECRET_BYTES ss_k in
  kex_hkdf_sha256 KEX_SESSION_KEY_BYTES ikm session_id (ztake info_len info).

(** ** [mldsa_wrap.c] *)
Definition mldsa_keypair_generate (kp : option mldsa_keypair_t) : M (Z * option mldsa_keypair_t) :=
  match kp with
  | None => mret (-1, None)
  | Some _ =>
    let none := MldsaKeypair (zeros MLDSA_PUBLIC_KEY_BYTES) None in
    sig ← OQS_SIG_new;
    match sig with
    | None => mret (-1, Some none)
    | Some s =>
      if negb (sig_length_public_key s =? MLDSA_PUBLIC_KEY_BYTES)
         || negb (sig_length_secret_key s =? MLDSA_SECRET_KEY_BYTES)
      then mret (-1, Some none) else
      secret_key ← secure_mem_alloc MLDSA_SECRET_KEY_BYTES;
      match secret_key with
      | None => mret (-1, Some none)
      | Some _ =>
        rc ← OQS_SIG_keypair;
        match rc with
        | None => mret (-1, Some none)
        | Some (pk, sk) => mret (0, Some (MldsaKeypair pk (Some sk)))
        end
      end
    end
  end.

Definition mldsa_keypair_free (kp : mldsa_keypair_t) : mldsa_keypair_t :=
  MldsaKeypair (zeros MLDSA_PUBLIC_KEY_BYTES) None.

Definition mldsa_sign (msg : list byte) (kp : option mldsa_keypair_t) : M (option (list byte)) :=
  match kp with
  | Some (MldsaKeypair _ (Some sk)) =>
    sig ← OQS_SIG_new;
    match sig with
    | None => mret None
    | Some s =>
      if negb (sig_length_signature s =? MLDSA_SIGNATURE_MAX_BYTES) then mret None
      else OQS_SIG_sign msg sk
    end
  | _ => mret None
  end.

Definition mldsa_verify (msg sig_bytes : list byte) (public_key : option (list byte)) : M Z :=
  match public_key with
  | None => mret (-1)
  | Some pk =>
    sig ← OQS_SIG_new;
    match sig with
    | None => mret (-1)
    | Some _ => mret (if OQS_SIG_verify msg sig_bytes pk then 0 else -1)
    end
  end.

(** ** [mlkem_wrap.c] *)
Definition kem_new_checked : M (option oqs_kem) :=
  kem ← OQS_KEM_new;
  match kem with
  | None => mret None
  | Some k =>
    if negb (kem_length_public_key k =? MLKEM_PUBLIC_KEY_BYTES)
       || negb (kem_length_secret_key k =? MLKEM_SECRET_KEY_BYTES)
       || negb (kem_length_ciphertext k =? MLKEM_CIPHERTEXT_BYTES)
       || negb (kem_length_shared_secret k =? MLKEM_SHARED_SECRET_BYTES)
    then mret None else mret (Some k)
  end.

Definition mlkem_keypair_generate (kp : option mlkem_keypair_t) : M (Z * option mlkem_keypair_t) :=
  match kp with
  | None => mret (-1, None)
  | Some _ =>
    let none := MlkemKeypair (zeros MLKEM_PUBLIC_KEY_BYTES) None in
    kem ← kem_new_checked;
    match kem with
    | None => mret (-1, Some none)
    | Some _ =>
      secret_key ← secure_mem_alloc MLKEM_SECRET_KEY_BYTES;
      match secret_key with
      | None => mret (-1, Some none)
      | Some _ =>
        rc ← OQS_KEM_keypair;
        match rc with
        | None => mret (-1, Some none)
        | Some (pk, sk) => mret (0, Some (MlkemKeypair pk (Some sk)))
        end
      end
    end
  end.

Definition mlkem_keypair_free (kp : mlkem_keypair_t) : mlkem_keypair_t :=
  MlkemKeypair (zeros MLKEM_PUBLIC_KEY_BYTES) None.

(** Result: (return code, ct, ss); both outputs are zeroed on failure. *)
Definition mlkem_encaps (ek : list byte) : M (Z * list byte * list byte) :=
  let failed := (-1, zeros MLKEM_CIPHERTEXT_BYTES, zeros MLKEM_SHARED_SECRET_BYTES) in
  kem ← kem_new_checked;
  match kem with
  | None => mret failed
  | Some _ =>
    rc ← OQS_KEM_encaps ek;
    match rc with
    | None => mret failed
    | Some (ct, ss) => mret (0, ct, ss)
    end
  end.

Definition mlkem_decaps (ct : list byte) (kp : mlkem_keypair_t) : M (Z * list byte) :=
  let failed := (-1, zeros MLKEM_SHARED_SECRET_BYTES) in
  match kem_sec kp with
  | None => mret failed
  | Some sk =>
    kem ← kem_new_checked;
    match kem with
    | None => mret failed
    | Some _ =>
      match OQS_KEM_decaps ct sk with
      | None => mret failed
      | Some ss => mret (0, ss)
      end
    end
  end.

(** ** [aead.c] *)
Definition aead_encrypt (msg ad nonce key : list byte) : option (list byte) :=
  crypto_aead_encrypt msg ad nonce key.

Definition aead_decrypt (ciphertext ad nonce key : list byte) : option (list byte) :=
  if blen ciphertext <? AEAD_TAG_BYTES then None
  else crypto_aead_decrypt ciphertext ad nonce key.

(** ** The key-schedule context string *)
Definition kdf_info_v2 (a_id b_id th : list byte) (direction : Z) : list byte :=
  KEX_KDF_V2_LABEL ++ [x00] ++ [u8 (blen a_id)] ++ a_id ++ [u8 (blen b_id)] ++ b_id ++ th ++
  [u8 direction].

Definition kex_id_ok (id : list byte) : Prop := KEX_ID_MIN_LEN <= blen id <= KEX_ID_MAX_LEN.
Definition kex_dir_ok (d : Z) : Prop := d = KEX_DIR_C2S \/ d = KEX_DIR_S2C.

Lemma length_kdf_info_v2 a b th d :
  blen th = 32 -> blen (kdf_info_v2 a b th d) = 53 + blen a + blen b.
Proof.
  intros. unfold kdf_info_v2. rewrite !length_app.
  change (length KEX_KDF_V2_LABEL) with 17%nat. simpl length. lia.
Qed.

Lemma build_kdf_info_ok out a b th d :
  kex_id_ok a -> kex_id_ok b -> kex_dir_ok d -> blen th = 32 ->
  blen (kdf_info_v2 a b th d) <= blen out ->
  kex_build_kdf_info_v2 out (blen out) a b th d =
    Some (poke 0 (kdf_info_v2 a b th d) out, blen (kdf_info_v2 a b th d)).
Proof.
  unfold kex_id_ok, KEX_ID_MIN_LEN, KEX_ID_MAX_LEN. intros Ha Hb Hd Hth Hfit.
  rewrite length_kdf_info_v2 in Hfit by done. unfold kex_build_kdf_info_v2.
  change (blen KEX_KDF_V2_LABEL) with 17. unfold KEX_ID_MIN_LEN, KEX_ID_MAX_LEN, KEX_TRANSCRIPT_HASH_BYTES.
  pass_guards ltac:(unfold kex_dir_ok in Hd; lia).
  rewrite (take_all_z 32 th) by done.
  rewrite wrote_nil, !put_wrote. unfold wrote, kdf_info_v2. rewrite poke_0, <-!app_assoc. done.
Qed.

Lemma build_kdf_info_args out cap a b th d r :
  kex_build_kdf_info_v2 out cap a b th d = Some r -> kex_id_ok a /\ kex_id_ok b /\ kex_dir_ok d.
Proof.
  unfold kex_build_kdf_info_v2, kex_id_ok, kex_dir_ok. intros H. cbv zeta in H. inv_guards H. lia.
Qed.

Lemma kdf_info_inj a1 b1 th1 d1 a2 b2 th2 d2 :
  kex_id_ok a1 -> kex_id_ok b1 -> kex_id_ok a2 -> kex_id_ok b2 ->
  kex_dir_ok d1 -> kex_dir_ok d2 -> blen th1 = 32 -> blen th2 = 32 ->
  kdf_info_v2 a1 b1 th1 d1 = kdf_info_v2 a2 b2 th2 d2 ->
  a1 = a2 /\ b1 = b2 /\ th1 = th2 /\ d1 = d2.
Proof.
  unfold kex_id_ok, KEX_ID_MIN_LEN, KEX_ID_MAX_LEN, kdf_info_v2.
  intros Ha1 Hb1 Ha2 Hb2 Hd1 Hd2 Ht1 Ht2 Heq.
  apply app_inv_head in Heq. apply (app_inv_head [x00]) in Heq.
  apply app_inj_1 in Heq as [Hla Heq]; [|done]. injection Hla as Hla. apply u8_inj in Hla; [|lia..].
  apply app_inj_1 in Heq as [-> Heq]; [|lia].
  apply app_inj_1 in Heq as [Hlb Heq]; [|done]. injection Hlb as Hlb. apply u8_inj in Hlb; [|lia..].
  apply app_inj_1 in Heq as [-> Heq]; [|lia].
  apply app_inj_1 in Heq as [-> Heq]; [|lia]. injection Heq as Heq.
  apply u8_inj in Heq; [done|destruct Hd1, Hd2; subst; cbv; split; congruence..].
Qed.

Lemma derive_session_key_ok ssx ssk sid a b th d :
  kex_id_ok a -> kex_id_ok b -> kex_dir_ok d -> blen th = 32 -> blen sid = 16 ->
  kex_derive_session_key_v2 ssx ssk sid a b th d =
    kex_hkdf_sha256 KEX_SESSION_KEY_BYTES
      (ztake KEX_SHARED_SECRET_BYTES ssx ++ ztake KEX_SHARED_SECRET_BYTES ssk) sid (kdf_info_v2 a b th d).
Proof.
  intros Ha Hb Hd Hth Hsid. unfold kex_derive_session_key_v2, KEX_SESSION_ID_LEN.
  rewrite Hsid. simpl negb. cbv iota. cbv zeta. rewrite build_kdf_info_ok; [|done..|].
  - unfold mbind, option_bind. by rewrite take_poke_0.
  - rewrite length_zeros by done. rewrite length_kdf_info_v2 by done.
    unfold kex_id_ok, KEX_ID_MIN_LEN, KEX_ID_MAX_LEN, KEX_KDF_V2_INFO_MAX_LEN in *. lia.
Qed.

End wrappers.

(** ** Properties *)

(** The key-schedule context.  For identities of 1 to 64 bytes, a 32-byte
    transcript hash and one of the two directions, building the context string
    into the 181-byte buffer succeeds and writes 55 to 181 bytes; any other
    identity length or direction is refused; and the strings of two valid
    contexts coincide only if identities, transcript hash and direction all
    coincide, so the two directions of a session, and any two sessions that
    differ in an identity or in the transcript, never share a context. *)
Theorem kdf_info_v2_binding a1 b1 th1 d1 a2 b2 th2 d2 out :
  blen th1 = 32 -> blen th2 = 32 -> blen out = KEX_KDF_V2_INFO_MAX_LEN ->
  ((exists r, kex_build_kdf_info_v2 out (blen out) a1 b1 th1 d1 = Some r) <->
    kex_id_ok a1 /\ kex_id_ok b1 /\ kex_dir_ok d1) /\
  (forall o1 n1 o2 n2,
     kex_build_kdf_info_v2 out (blen out) a1 b1 th1 d1 = Some (o1, n1) ->
     kex_build_kdf_info_v2 out (blen out) a2 b2 th2 d2 = Some (o2, n2) ->
     KEX_KDF_V2_INFO_MIN_LEN <= n1 <= KEX_KDF_V2_INFO_MAX_LEN /\
     (ztake n1 o1 = ztake n2 o2 -> a1 = a2 /\ b1 = b2 /\ th1 = th2 /\ d1 = d2)).
Proof.
  intros Ht1 Ht2 Ho.
  assert (Hfit : forall a b th d, blen th = 32 -> kex_id_ok a -> kex_id_ok b ->
    KEX_KDF_V2_INFO_MIN_LEN <= blen (kdf_info_v2 a b th d) <= blen out).
  { unfold kex_id_ok, KEX_ID_MIN_LEN, KEX_ID_MAX_LEN, KEX_KDF_V2_INFO_MIN_LEN.
    intros a b th d Hth Ha Hb. rewrite length_kdf_info_v2, Ho by done. unfold KEX_KDF_V2_INFO_MAX_LEN. lia. }
  split; [split|].
  - intros [r Hr]. by eapply build_kdf_info_args.
  - intros (Ha & Hb & Hd). eexists. apply build_kdf_info_ok; try done. by apply Hfit.
  - intros o1 n1 o2 n2 H1 H2.
    pose proof (build_kdf_info_args _ _ _ _ _ _ _ H1) as (Ha1 & Hb1 & Hd1).
    pose proof (build_kdf_info_args _ _ _ _ _ _ _ H2) as (Ha2 & Hb2 & Hd2).
    rewrite build_kdf_info_ok in H1 by (try done; by apply Hfit). apply (inj Some), pair_equal_spec in H1 as [<- <-].
    rewrite build_kdf_info_ok in H2 by (try done; by apply Hfit). apply (inj Some), pair_equal_spec in H2 as [<- <-].
    rewrite <-Ho at 1. split; [by apply Hfit|].
    rewrite !take_poke_0. by apply kdf_info_inj.
Qed.

Lemma kdf_info_v2_binding_witness :
  KEX_KDF_V2_INFO_MIN_LEN <= 61 /\
  exists r, kex_build_kdf_info_v2 (zeros 181) (blen (zeros 181)) (label "alice") (label "bob")
    (zeros 32) KEX_DIR_C2S = Some r.
Proof.
  split; [vm_compute; discriminate|].
  apply (kdf_info_v2_binding (label "alice") (label "bob") (zeros 32) KEX_DIR_C2S
    (label "alice") (label "bob") (zeros 32) KEX_DIR_S2C (zeros 181)); [reflexivity..|].
  split; [|split]; [vm_compute; split; discriminate..|by left].
Defined.
