(* ===== verification/Transcript.v ===== *)
(** * Handshake wire format and transcript hashes ([src/protocol/transcript.c])

    [client_hello_t], [server_hello_t] and [client_auth_t] are the C structs:
    fixed arrays are byte lists (of the declared length, see the [_sized]
    predicates), scalars are [Z].  An encoder takes the contents of the output
    buffer and returns the new contents, so that what it leaves untouched can
    be stated; a NULL argument is [None].  Results are
    (return code, out buffer or struct, out length or consumed). *)

From S2P Require Import Prelude WireInt Extern Toy Crypto.

(** ** Constants ([transcript.h]) *)
Definition WIRE_ID_MIN_LEN : Z := 1.
Definition WIRE_ID_MAX_LEN : Z := 64.
Definition WIRE_X25519_PUB_LEN : Z := 32.
Definition WIRE_MLKEM_EK_LEN : Z := 1184.
Definition WIRE_MLKEM_CT_LEN : Z := 1088.
Definition WIRE_SESSION_ID_LEN : Z := 16.
Definition WIRE_NONCE_LEN : Z := 32.
Definition WIRE_HANDSHAKE_ID_LEN : Z := 16.
Definition MSG_TYPE_CLIENT_HELLO : Z := 1.
Definition MSG_TYPE_SERVER_HELLO : Z := 2.
Definition MSG_TYPE_CLIENT_AUTH : Z := 3.
Definition TRANSCRIPT_LABEL_SERVER_AUTH : list byte := label "mldsa-auth/v2/server-auth".
Definition TRANSCRIPT_LABEL_CLIENT_AUTH : list byte := label "mldsa-auth/v2/client-auth".
Definition TRANSCRIPT_LABEL_HANDSHAKE_ID : list byte := label "mldsa-auth/v2/handshake-id".
Definition CLIENT_HELLO_MAX_ENCODED_LEN : Z :=
  1 + 1 + WIRE_ID_MAX_LEN + WIRE_X25519_PUB_LEN + WIRE_MLKEM_EK_LEN + WIRE_SESSION_ID_LEN +
  WIRE_NONCE_LEN.
Definition SERVER_HELLO_UNSIGNED_MAX_ENCODED_LEN : Z :=
  1 + 1 + WIRE_ID_MAX_LEN + WIRE_X25519_PUB_LEN + WIRE_MLKEM_CT_LEN + WIRE_NONCE_LEN +
  WIRE_SESSION_ID_LEN.
Definition SERVER_HELLO_MAX_ENCODED_LEN : Z :=
  SERVER_HELLO_UNSIGNED_MAX_ENCODED_LEN + 2 + MLDSA_SIGNATURE_MAX_BYTES.
Definition CLIENT_AUTH_MAX_ENCODED_LEN : Z :=
  1 + WIRE_HANDSHAKE_ID_LEN + 2 + MLDSA_SIGNATURE_MAX_BYTES.

(** ** Messages *)
Record client_hello_t := ClientHello {
  ch_id : list byte; ch_id_len : Z; ch_ephemeral_pub : list byte; ch_mlkem_ek : list byte;
  ch_session_id : list byte; ch_nonce : list byte }.

Record server_hello_t := ServerHello {
  sh_id : list byte; sh_id_len : Z; sh_ephemeral_pub : list byte; sh_mlkem_ct : list byte;
  sh_nonce : list byte; sh_session_id_echo : list byte; sh_sig : list byte; sh_sig_len : Z }.

Record client_auth_t := ClientAuth {
  ca_handshake_id : list byte; ca_sig : list byte; ca_sig_len : Z }.

(** [memset(out, 0, sizeof( *out))]. *)
Definition client_hello_zero : client_hello_t :=
  ClientHello (zeros WIRE_ID_MAX_LEN) 0 (zeros WIRE_X25519_PUB_LEN) (zeros WIRE_MLKEM_EK_LEN)
    (zeros WIRE_SESSION_ID_LEN) (zeros WIRE_NONCE_LEN).
Definition server_hello_zero : server_hello_t :=
  ServerHello (zeros WIRE_ID_MAX_LEN) 0 (zeros WIRE_X25519_PUB_LEN) (zeros WIRE_MLKEM_CT_LEN)
    (zeros WIRE_NONCE_LEN) (zeros WIRE_SESSION_ID_LEN) (zeros MLDSA_SIGNATURE_MAX_BYTES) 0.
Definition client_auth_zero : client_auth_t :=
  ClientAuth (zeros WIRE_HANDSHAKE_ID_LEN) (zeros MLDSA_SIGNATURE_MAX_BYTES) 0.

(** ** Internal helpers *)
Definition client_hello_encoded_len (id_len : Z) : Z :=
  1 + 1 + id_len + WIRE_X25519_PUB_LEN + WIRE_MLKEM_EK_LEN + WIRE_SESSION_ID_LEN + WIRE_NONCE_LEN.

Definition server_hello_unsigned_encoded_len (id_len : Z) : Z :=
  1 + 1 + id_len + WIRE_X25519_PUB_LEN + WIRE_MLKEM_CT_LEN + WIRE_NONCE_LEN + WIRE_SESSION_ID_LEN.

Definition write_server_hello_unsigned_unchecked (msg : server_hello_t) (out : list byte)
    : list byte :=
  let st := (out, 0) in
  let st := put (wire_int_write_u8 MSG_TYPE_SERVER_HELLO) st in
  let st := put (wire_int_write_u8 (sh_id_len msg)) st in
  let st := put (ztake (sh_id_len msg) (sh_id msg)) st in
  let st := put (ztake WIRE_X25519_PUB_LEN (sh_ephemeral_pub msg)) st in
  let st := put (ztake WIRE_MLKEM_CT_LEN (sh_mlkem_ct msg)) st in
  let st := put (ztake WIRE_NONCE_LEN (sh_nonce msg)) st in
  let st := put (ztake WIRE_SESSION_ID_LEN (sh_session_id_echo msg)) st in
  st.1.

Definition hash_label_and_two_buffers `{Env} (lbl a b : list byte) : option (list byte) :=
  st ← crypto_hash_sha256_init;
  st ← crypto_hash_sha256_update st lbl;
  st ← crypto_hash_sha256_update st [x00];
  st ← crypto_hash_sha256_update st a;
  st ← crypto_hash_sha256_update st b;
  crypto_hash_sha256_final st.

Definition id_out_of_range (id_len : Z) : bool :=
  (id_len <? WIRE_ID_MIN_LEN) || (WIRE_ID_MAX_LEN <? id_len).
Definition sig_out_of_range (sig_len : Z) : bool :=
  (sig_len <? 1) || (MLDSA_SIGNATURE_MAX_BYTES <? sig_len).

Definition transcript_server_hello_unsigned_len (id_len : Z) : Z :=
  if id_out_of_range id_len then 0 else server_hello_unsigned_encoded_len id_len.

(** ** Encoders *)
Definition encode_client_hello (msg : option client_hello_t) (out : option (list byte))
    (out_cap : Z) (out_len : option Z) : Z * option (list byte) * option Z :=
  match msg, out, out_len with
  | Some m, Some o, Some _ =>
    if id_out_of_range (ch_id_len m) then (-1, out, out_len) else
    let needed := client_hello_encoded_len (ch_id_len m) in
    if out_cap <? needed then (-1, out, out_len) else
    let st := (o, 0) in
    let st := put (wire_int_write_u8 MSG_TYPE_CLIENT_HELLO) st in
    let st := put (wire_int_write_u8 (ch_id_len m)) st in
    let st := put (ztake (ch_id_len m) (ch_id m)) st in
    let st := put (ztake WIRE_X25519_PUB_LEN (ch_ephemeral_pub m)) st in
    let st := put (ztake WIRE_MLKEM_EK_LEN (ch_mlkem_ek m)) st in
    let st := put (ztake WIRE_SESSION_ID_LEN (ch_session_id m)) st in
    let st := put (ztake WIRE_NONCE_LEN (ch_nonce m)) st in
    (0, Some st.1, Some st.2)
  | _, _, _ => (-1, out, out_len)
  end.

Definition encode_server_hello_unsigned (msg : option server_hello_t) (out : option (list byte))
    (out_cap : Z) (out_len : option Z) : Z * option (list byte) * option Z :=
  match msg, out, out_len with
  | Some m, Some o, Some _ =>
    if id_out_of_range (sh_id_len m) then (-1, out, out_len) else
    let needed := server_hello_unsigned_encoded_len (sh_id_len m) in
    if out_cap <? needed then (-1, out, out_len) else
    (0, Some (write_server_hello_unsigned_unchecked m o), Some needed)
  | _, _, _ => (-1, out, out_len)
  end.

Definition encode_server_hello (msg : option server_hello_t) (out : option (list byte))
    (out_cap : Z) (out_len : option Z) : Z * option (list byte) * option Z :=
  match msg, out, out_len with
  | Some m, Some o, Some _ =>
    if id_out_of_range (sh_id_len m) then (-1, out, out_len) else
    if sig_out_of_range (sh_sig_len m) then (-1, out, out_len) else
    let unsigned_len := server_hello_unsigned_encoded_len (sh_id_len m) in
    let needed := unsigned_len + 2 + sh_sig_len m in
    if out_cap <? needed then (-1, out, out_len) else
    let o := write_server_hello_unsigned_unchecked m o in
    let o := poke unsigned_len (wire_int_write_u16 (sh_sig_len m)) o in
    let o := poke (unsigned_len + 2) (ztake (sh_sig_len m) (sh_sig m)) o in
    (0, Some o, Some needed)
  | _, _, _ => (-1, out, out_len)
  end.

Definition encode_client_auth (msg : option client_auth_t) (out : option (list byte))
    (out_cap : Z) (out_len : option Z) : Z * option (list byte) * option Z :=
  match msg, out, out_len with
  | Some m, Some o, Some _ =>
    if sig_out_of_range (ca_sig_len m) then (-1, out, out_len) else
    let needed := 1 + WIRE_HANDSHAKE_ID_LEN + 2 + ca_sig_len m in
    if out_cap <? needed then (-1, out, out_len) else
    let st := (o, 0) in
    let st := put (wire_int_write_u8 MSG_TYPE_CLIENT_AUTH) st in
    let st := put (ztake WIRE_HANDSHAKE_ID_LEN (ca_handshake_id m)) st in
    let st := put (wire_int_write_u16 (ca_sig_len m)) st in
    let st := put (ztake (ca_sig_len m) (ca_sig m)) st in
    (0, Some st.1, Some st.2)
  | _, _, _ => (-1, out, out_len)
  end.

(** ** Decoders

    The [_fields] functions are the bodies up to [goto fail] ([None]); the
    public decoders add the NULL checks, the zeroing of [*out] on failure and
    the rule that [*consumed] is written on success only. *)
Definition decode_client_hello_fields (buf : list byte) : option (client_hello_t * Z) :=
  let len := blen buf in
  let off := 0 in
  msg_type ← wire_int_read_u8 (zdrop off buf) (len - off);
  let off := off + 1 in
  if negb (msg_type =? MSG_TYPE_CLIENT_HELLO) then None else
  id_len ← wire_int_read_u8 (zdrop off buf) (len - off);
  let off := off + 1 in
  if id_out_of_range id_len then None else
  if len - off <? id_len then None else
  let id := poke 0 (peek off id_len buf) (zeros WIRE_ID_MAX_LEN) in
  let off := off + id_len in
  if len - off <? WIRE_X25519_PUB_LEN + WIRE_MLKEM_EK_LEN + WIRE_SESSION_ID_LEN + WIRE_NONCE_LEN
  then None else
  let ephemeral_pub := peek off WIRE_X25519_PUB_LEN buf in
  let off := off + WIRE_X25519_PUB_LEN in
  let mlkem_ek := peek off WIRE_MLKEM_EK_LEN buf in
  let off := off + WIRE_MLKEM_EK_LEN in
  let session_id := peek off WIRE_SESSION_ID_LEN buf in
  let off := off + WIRE_SESSION_ID_LEN in
  let nonce := peek off WIRE_NONCE_LEN buf in
  let off := off + WIRE_NONCE_LEN in
  if negb (off =? len) then None else
  Some (ClientHello id id_len ephemeral_pub mlkem_ek session_id nonce, off).

Definition decode_server_hello_fields (buf : list byte) : option (server_hello_t * Z) :=
  let len := blen buf in
  let off := 0 in
  msg_type ← wire_int_read_u8 (zdrop off buf) (len - off);
  let off := off + 1 in
  if negb (msg_type =? MSG_TYPE_SERVER_HELLO) then None else
  id_len ← wire_int_read_u8 (zdrop off buf) (len - off);
  let off := off + 1 in
  if id_out_of_range id_len then None else
  if len - off <? id_len then None else
  let id := poke 0 (peek off id_len buf) (zeros WIRE_ID_MAX_LEN) in
  let off := off + id_len in
  if len - off <? WIRE_X25519_PUB_LEN + WIRE_MLKEM_CT_LEN + WIRE_NONCE_LEN + WIRE_SESSION_ID_LEN
  then None else
  let ephemeral_pub := peek off WIRE_X25519_PUB_LEN buf in
  let off := off + WIRE_X25519_PUB_LEN in
  let mlkem_ct := peek off WIRE_MLKEM_CT_LEN buf in
  let off := off + WIRE_MLKEM_CT_LEN in
  let nonce := peek off WIRE_NONCE_LEN buf in
  let off := off + WIRE_NONCE_LEN in
  let session_id_echo := peek off WIRE_SESSION_ID_LEN buf in
  let off := off + WIRE_SESSION_ID_LEN in
  sig_len ← wire_int_read_u16 (zdrop off buf) (len - off);
  let off := off + 2 in
  if sig_out_of_range sig_len then None else
  if len - off <? sig_len then None else
  let sig := poke 0 (peek off sig_len buf) (zeros MLDSA_SIGNATURE_MAX_BYTES) in
  let off := off + sig_len in
  if negb (off =? len) then None else
  Some (ServerHello id id_len ephemeral_pub mlkem_ct nonce session_id_echo sig sig_len, off).

Definition decode_client_auth_fields (buf : list byte) : option (client_auth_t * Z) :=
  let len := blen buf in
  let off := 0 in
  msg_type ← wire_int_read_u8 (zdrop off buf) (len - off);
  let off := off + 1 in
  if negb (msg_type =? MSG_TYPE_CLIENT_AUTH) then None else
  if len - off <? WIRE_HANDSHAKE_ID_LEN then None else
  let handshake_id := peek off WIRE_HANDSHAKE_ID_LEN buf in
  let off := off + WIRE_HANDSHAKE_ID_LEN in
  sig_len ← wire_int_read_u16 (zdrop off buf) (len - off);
  let off := off + 2 in
  if sig_out_of_range sig_len then None else
  if len - off <? sig_len then None else
  let sig := poke 0 (peek off sig_len buf) (zeros MLDSA_SIGNATURE_MAX_BYTES) in
  let off := off + sig_len in
  if negb (off =? len) then None else
  Some (ClientAuth handshake_id sig sig_len, off).

Definition decode_client_hello (buf : option (list byte)) (out : option client_hello_t)
    (consumed : option Z) : Z * option client_hello_t * option Z :=
  match buf, out, consumed with
  | Some b, Some _, Some _ =>
    match decode_client_hello_fields b with
    | Some (m, off) => (0, Some m, Some off)
    | None => (-1, Some client_hello_zero, consumed)
    end
  | _, _, _ => (-1, out, consumed)
  end.

Definition decode_server_hello (buf : option (list byte)) (out : option server_hello_t)
    (consumed : option Z) : Z * option server_hello_t * option Z :=
  match buf, out, consumed with
  | Some b, Some _, Some _ =>
    match decode_server_hello_fields b with
    | Some (m, off) => (0, Some m, Some off)
    | None => (-1, Some server_hello_zero, consumed)
    end
  | _, _, _ => (-1, out, consumed)
  end.

Definition decode_client_auth (buf : option (list byte)) (out : option client_auth_t)
    (consumed : option Z) : Z * option client_auth_t * option Z :=
  match buf, out, consumed with
  | Some b, Some _, Some _ =>
    match decode_client_auth_fields b with
    | Some (m, off) => (0, Some m, Some off)
    | None => (-1, Some client_auth_zero, consumed)
    end
  | _, _, _ => (-1, out, consumed)
  end.

(** ** Transcript hashes *)
Definition transcript_hash_server_auth `{Env} (client_hello_bytes sh_unsigned_bytes : list byte)
    : option (list byte) :=
  hash_label_and_two_buffers TRANSCRIPT_LABEL_SERVER_AUTH client_hello_bytes sh_unsigned_bytes.

Definition transcript_hash_client_auth `{Env} (client_hello_bytes server_hello_bytes : list byte)
    : option (list byte) :=
  hash_label_and_two_buffers TRANSCRIPT_LABEL_CLIENT_AUTH client_hello_bytes server_hello_bytes.

Definition transcript_handshake_id `{Env} (client_hello_bytes server_hello_bytes : list byte)
    : option (list byte) :=
  digest ← hash_label_and_two_buffers TRANSCRIPT_LABEL_HANDSHAKE_ID
             client_hello_bytes server_hello_bytes;
  Some (ztake 16 digest).

(** ** The wire images and the validity of a message *)

Definition client_hello_wire (m : client_hello_t) : list byte :=
  [u8 MSG_TYPE_CLIENT_HELLO] ++ [u8 (ch_id_len m)] ++ ztake (ch_id_len m) (ch_id m) ++
  ch_ephemeral_pub m ++ ch_mlkem_ek m ++ ch_session_id m ++ ch_nonce m.

Definition server_hello_unsigned_wire (m : server_hello_t) : list byte :=
  [u8 MSG_TYPE_SERVER_HELLO] ++ [u8 (sh_id_len m)] ++ ztake (sh_id_len m) (sh_id m) ++
  sh_ephemeral_pub m ++ sh_mlkem_ct m ++ sh_nonce m ++ sh_session_id_echo m.

Definition server_hello_wire (m : server_hello_t) : list byte :=
  server_hello_unsigned_wire m ++ be_enc 2 (sh_sig_len m) ++ ztake (sh_sig_len m) (sh_sig m).

Definition client_auth_wire (m : client_auth_t) : list byte :=
  [u8 MSG_TYPE_CLIENT_AUTH] ++ ca_handshake_id m ++ be_enc 2 (ca_sig_len m) ++
  ztake (ca_sig_len m) (ca_sig m).

(** The field has the size of its C array. *)
Record client_hello_sized (m : client_hello_t) : Prop := {
  chs_id : blen (ch_id m) = WIRE_ID_MAX_LEN;
  chs_eph : blen (ch_ephemeral_pub m) = WIRE_X25519_PUB_LEN;
  chs_ek : blen (ch_mlkem_ek m) = WIRE_MLKEM_EK_LEN;
  chs_sid : blen (ch_session_id m) = WIRE_SESSION_ID_LEN;
  chs_nonce : blen (ch_nonce m) = WIRE_NONCE_LEN }.
Record server_hello_sized (m : server_hello_t) : Prop := {
  shs_id : blen (sh_id m) = WIRE_ID_MAX_LEN;
  shs_eph : blen (sh_ephemeral_pub m) = WIRE_X25519_PUB_LEN;
  shs_ct : blen (sh_mlkem_ct m) = WIRE_MLKEM_CT_LEN;
  shs_nonce : blen (sh_nonce m) = WIRE_NONCE_LEN;
  shs_sid : blen (sh_session_id_echo m) = WIRE_SESSION_ID_LEN;
  shs_sig : blen (sh_sig m) = MLDSA_SIGNATURE_MAX_BYTES }.
Record client_auth_sized (m : client_auth_t) : Prop := {
  cas_hid : blen (ca_handshake_id m) = WIRE_HANDSHAKE_ID_LEN;
  cas_sig : blen (ca_sig m) = MLDSA_SIGNATURE_MAX_BYTES }.

(** A variable-length field holds its value and nothing behind it. *)
Definition padded (n cap : Z) (l : list byte) : Prop := l = ztake n l ++ zeros (cap - n).

Definition id_ok (n : Z) : Prop := WIRE_ID_MIN_LEN <= n <= WIRE_ID_MAX_LEN.
Definition sig_ok (n : Z) : Prop := 1 <= n <= MLDSA_SIGNATURE_MAX_BYTES.

Definition client_hello_valid (m : client_hello_t) : Prop :=
  client_hello_sized m /\ id_ok (ch_id_len m).
Definition server_hello_valid (m : server_hello_t) : Prop :=
  server_hello_sized m /\ id_ok (sh_id_len m) /\ sig_ok (sh_sig_len m).
Definition client_auth_valid (m : client_auth_t) : Prop :=
  client_auth_sized m /\ sig_ok (ca_sig_len m).

(** What a decoder stores: the bytes behind a variable-length field are zero. *)
Definition client_hello_padded (m : client_hello_t) : Prop :=
  padded (ch_id_len m) WIRE_ID_MAX_LEN (ch_id m).
Definition server_hello_padded (m : server_hello_t) : Prop :=
  padded (sh_id_len m) WIRE_ID_MAX_LEN (sh_id m) /\
  padded (sh_sig_len m) MLDSA_SIGNATURE_MAX_BYTES (sh_sig m).
Definition client_auth_padded (m : client_auth_t) : Prop :=
  padded (ca_sig_len m) MLDSA_SIGNATURE_MAX_BYTES (ca_sig m).

(** ** Arithmetic over the wire constants *)
Ltac unfold_wire :=
  unfold id_ok, sig_ok, id_out_of_range, sig_out_of_range, client_hello_encoded_len,
    server_hello_unsigned_encoded_len, CLIENT_HELLO_MAX_ENCODED_LEN,
    SERVER_HELLO_MAX_ENCODED_LEN, SERVER_HELLO_UNSIGNED_MAX_ENCODED_LEN,
    CLIENT_AUTH_MAX_ENCODED_LEN, WIRE_ID_MIN_LEN,
    WIRE_ID_MAX_LEN, WIRE_X25519_PUB_LEN, WIRE_MLKEM_EK_LEN, WIRE_MLKEM_CT_LEN,
    WIRE_SESSION_ID_LEN, WIRE_NONCE_LEN, WIRE_HANDSHAKE_ID_LEN, MLDSA_SIGNATURE_MAX_BYTES,
    MSG_TYPE_CLIENT_HELLO, MSG_TYPE_SERVER_HELLO, MSG_TYPE_CLIENT_AUTH in *.
Ltac wirelia := unfold_wire; lia.

Lemma id_in_range n : id_out_of_range n = false <-> id_ok n.
Proof. wirelia. Qed.
Lemma sig_in_range n : sig_out_of_range n = false <-> sig_ok n.
Proof. wirelia. Qed.

Lemma length_client_hello_wire m :
  client_hello_valid m -> blen (client_hello_wire m) = client_hello_encoded_len (ch_id_len m).
Proof.
  intros [[] ?]. unfold client_hello_wire. rewrite !length_app, length_take. simpl. wirelia.
Qed.
Lemma length_server_hello_unsigned_wire m :
  server_hello_sized m -> id_ok (sh_id_len m) ->
  blen (server_hello_unsigned_wire m) = server_hello_unsigned_encoded_len (sh_id_len m).
Proof.
  intros [] ?. unfold server_hello_unsigned_wire. rewrite !length_app, length_take. simpl. wirelia.
Qed.
Lemma length_server_hello_wire m :
  server_hello_valid m -> blen (server_hello_wire m) =
    server_hello_unsigned_encoded_len (sh_id_len m) + 2 + sh_sig_len m.
Proof.
  intros (Hs & Hi & Hg). unfold server_hello_wire.
  rewrite !length_app, !Nat2Z.inj_add, length_server_hello_unsigned_wire, length_be_enc,
    length_take by done. destruct Hs. wirelia.
Qed.
Lemma length_client_auth_wire m :
  client_auth_valid m -> blen (client_auth_wire m) = 1 + WIRE_HANDSHAKE_ID_LEN + 2 + ca_sig_len m.
Proof.
  intros [[] ?]. unfold client_auth_wire.
  rewrite !length_app, length_take, length_be_enc. simpl. wirelia.
Qed.

Lemma padded_poke n cap bs : blen bs = n -> n <= cap -> padded n cap (poke 0 bs (zeros cap)).
Proof.
  intros Hn Hc. unfold padded. rewrite poke_0, <-Hn, Nat2Z.id, take_app_length.
  f_equal. unfold zeros. rewrite drop_replicate. f_equal. lia.
Qed.
Lemma poke_padded n cap l :
  0 <= n <= cap -> blen l = cap -> padded n cap l -> poke 0 (ztake n l) (zeros cap) = l.
Proof.
  intros Hn Hc Hp. rewrite poke_0, length_take. unfold zeros. rewrite drop_replicate.
  etransitivity; [|symmetry; exact Hp]. unfold zeros. f_equal. f_equal. lia.
Qed.
Lemma take_poke n cap bs : blen bs = n -> ztake n (poke 0 bs (zeros cap)) = bs.
Proof. intros <-. rewrite poke_0, Nat2Z.id. apply take_app_length. Qed.
Lemma length_poke_zeros n cap bs :
  blen bs = n -> n <= cap -> blen (poke 0 bs (zeros cap)) = cap.
Proof. intros. rewrite length_poke; rewrite ?length_zeros; lia. Qed.

(** ** The decoders accept exactly the wire images *)
Ltac inv_reads :=
  repeat match goal with
  | H : wire_int_read_u8 _ _ = Some _ |- _ => apply read_u8_Some in H as [? ->]; [|wirelia]
  | H : wire_int_read_u16 _ _ = Some _ |- _ => apply read_u16_Some in H as [? ?]; [|wirelia]
  | H : negb (_ =? _) = false |- _ => apply negb_false_iff, Z.eqb_eq in H
  | H : id_out_of_range _ = false |- _ => apply id_in_range in H
  | H : sig_out_of_range _ = false |- _ => apply sig_in_range in H
  end.

Lemma decode_client_hello_fields_sound buf m c :
  decode_client_hello_fields buf = Some (m, c) ->
  client_hello_valid m /\ client_hello_padded m /\ buf = client_hello_wire m /\ c = blen buf.
Proof.
  intros H. unfold decode_client_hello_fields in H. inv_guards H. inv_reads.
  injection H as <- <-. change (0 + 1 + 1) with 2 in *. set (n := bz (byte_at buf (0 + 1))) in *.
  assert (blen (peek 2 n buf) = n) as Hid by (apply length_peek; wirelia).
  split; [|split; [|split]].
  - split; [split; simpl; try (apply (length_poke_zeros n); wirelia); apply length_peek; wirelia|done].
  - apply padded_poke; simpl; wirelia.
  - unfold client_hello_wire;
      cbn [ch_id ch_id_len ch_ephemeral_pub ch_mlkem_ek ch_session_id ch_nonce]. rewrite take_poke by done.
    rewrite (u8_of_bz (byte_at buf 0)) by done. rewrite (u8_of_bz (byte_at buf 1) n) by done.
    rewrite <-(peek_1 0) by lia. rewrite <-(peek_1 1 buf) by lia.
    change buf with (zdrop 0 buf) at 1.
    do 6 (apply zdrop_cut; [wirelia..|]). apply zdrop_end; wirelia.
  - wirelia.
Qed.

Lemma decode_server_hello_fields_sound buf m c :
  decode_server_hello_fields buf = Some (m, c) ->
  server_hello_valid m /\ server_hello_padded m /\ buf = server_hello_wire m /\ c = blen buf.
Proof.
  intros H. unfold decode_server_hello_fields in H. inv_guards H. inv_reads.
  injection H as <- <-. change (0 + 1 + 1) with 2 in *. set (n := bz (byte_at buf (0 + 1))) in *.
  match goal with H : be_enc 2 ?v = _ |- _ => rename v into k, H into Hk end.
  assert (blen (peek 2 n buf) = n) as Hid by (apply length_peek; wirelia).
  split; [|split; [|split]].
  - split; [split; simpl|split; done].
    all: try (apply (length_poke_zeros n); wirelia); try (apply length_peek; wirelia).
    apply (length_poke_zeros k); [apply length_peek|]; wirelia.
  - split; apply padded_poke; simpl; try apply length_peek; wirelia.
  - unfold server_hello_wire, server_hello_unsigned_wire; 
      cbn [sh_id sh_id_len sh_sig sh_sig_len sh_ephemeral_pub sh_mlkem_ct sh_nonce sh_session_id_echo].
    rewrite !take_poke by (apply length_peek; wirelia). rewrite Hk, <-!app_assoc.
    rewrite (u8_of_bz (byte_at buf 0)) by done. rewrite (u8_of_bz (byte_at buf 1) n) by done.
    rewrite <-(peek_1 0) by lia. rewrite <-(peek_1 1 buf) by lia.
    change buf with (zdrop 0 buf) at 1.
    do 8 (apply zdrop_cut; [wirelia..|]). apply zdrop_end; wirelia.
  - wirelia.
Qed.

Lemma decode_client_auth_fields_sound buf m c :
  decode_client_auth_fields buf = Some (m, c) ->
  client_auth_valid m /\ client_auth_padded m /\ buf = client_auth_wire m /\ c = blen buf.
Proof.
  intros H. unfold decode_client_auth_fields in H. inv_guards H. inv_reads.
  injection H as <- <-.
  match goal with H : be_enc 2 ?v = _ |- _ => rename v into k, H into Hk end.
  split; [|split; [|split]].
  - split; [split; simpl|done]; [apply length_peek; wirelia|].
    apply (length_poke_zeros k); [apply length_peek|]; wirelia.
  - apply padded_poke; simpl; [apply length_peek|]; wirelia.
  - unfold client_auth_wire; cbn [ca_handshake_id ca_sig ca_sig_len].
    rewrite take_poke by (apply length_peek; wirelia). rewrite Hk.
    rewrite (u8_of_bz (byte_at buf 0)) by done. rewrite <-(peek_1 0) by lia.
    change buf with (zdrop 0 buf) at 1.
    do 3 (apply zdrop_cut; [wirelia..|]). apply zdrop_end; wirelia.
  - wirelia.
Qed.

Definition client_hello_norm (m : client_hello_t) : client_hello_t :=
  ClientHello (poke 0 (ztake (ch_id_len m) (ch_id m)) (zeros WIRE_ID_MAX_LEN)) (ch_id_len m)
    (ch_ephemeral_pub m) (ch_mlkem_ek m) (ch_session_id m) (ch_nonce m).
Definition server_hello_norm (m : server_hello_t) : server_hello_t :=
  ServerHello (poke 0 (ztake (sh_id_len m) (sh_id m)) (zeros WIRE_ID_MAX_LEN)) (sh_id_len m)
    (sh_ephemeral_pub m) (sh_mlkem_ct m) (sh_nonce m) (sh_session_id_echo m)
    (poke 0 (ztake (sh_sig_len m) (sh_sig m)) (zeros MLDSA_SIGNATURE_MAX_BYTES)) (sh_sig_len m).
Definition client_auth_norm (m : client_auth_t) : client_auth_t :=
  ClientAuth (ca_handshake_id m)
    (poke 0 (ztake (ca_sig_len m) (ca_sig m)) (zeros MLDSA_SIGNATURE_MAX_BYTES)) (ca_sig_len m).

Lemma decode_client_hello_fields_complete m :
  client_hello_valid m ->
  decode_client_hello_fields (client_hello_wire m) =
    Some (client_hello_norm m, client_hello_encoded_len (ch_id_len m)).
Proof.
  intros Hv. pose proof (length_client_hello_wire m Hv) as HL. destruct Hv as [[] Hid].
  unfold decode_client_hello_fields, client_hello_norm. rewrite !HL.
  rewrite <-HL at 1. rewrite read_u8_at by lia. pass_guards wirelia. cbn [mbind option_bind].
  change (byte_at (client_hello_wire m) 0) with (u8 MSG_TYPE_CLIENT_HELLO).
  rewrite bz_u8_small by wirelia. pass_guards wirelia.
  rewrite <-HL at 1. rewrite read_u8_at by lia. pass_guards wirelia. cbn [mbind option_bind].
  change (byte_at (client_hello_wire m) (0 + 1)) with (u8 (ch_id_len m)).
  rewrite bz_u8_small by wirelia. pass_guards wirelia.
  unfold client_hello_wire. unfold_wire. slices. f_equal; f_equal; lia.
Qed.

Lemma decode_server_hello_fields_complete m :
  server_hello_valid m ->
  decode_server_hello_fields (server_hello_wire m) =
    Some (server_hello_norm m, server_hello_unsigned_encoded_len (sh_id_len m) + 2 + sh_sig_len m).
Proof.
  intros Hv. pose proof (length_server_hello_wire m Hv) as HL. destruct Hv as ([] & Hid & Hsig).
  unfold decode_server_hello_fields, server_hello_norm. rewrite !HL.
  rewrite <-HL at 1. rewrite read_u8_at by lia. pass_guards wirelia. cbn [mbind option_bind].
  change (byte_at (server_hello_wire m) 0) with (u8 MSG_TYPE_SERVER_HELLO).
  rewrite bz_u8_small by wirelia. pass_guards wirelia.
  rewrite <-HL at 1. rewrite read_u8_at by lia. pass_guards wirelia. cbn [mbind option_bind].
  change (byte_at (server_hello_wire m) (0 + 1)) with (u8 (sh_id_len m)).
  rewrite bz_u8_small by wirelia. pass_guards wirelia.
  rewrite <-HL at 1. rewrite read_u16_at by wirelia. pass_guards wirelia. cbn [mbind option_bind].
  unfold server_hello_wire, server_hello_unsigned_wire. rewrite <-!app_assoc. unfold_wire. slices.
  rewrite be_dec_enc_small by lia. pass_guards wirelia. slices. f_equal; f_equal; lia.
Qed.

Lemma decode_client_auth_fields_complete m :
  client_auth_valid m ->
  decode_client_auth_fields (client_auth_wire m) =
    Some (client_auth_norm m, 1 + WIRE_HANDSHAKE_ID_LEN + 2 + ca_sig_len m).
Proof.
  intros Hv. pose proof (length_client_auth_wire m Hv) as HL. destruct Hv as [[] Hsig].
  unfold decode_client_auth_fields, client_auth_norm. rewrite !HL.
  rewrite <-HL at 1. rewrite read_u8_at by lia. pass_guards wirelia. cbn [mbind option_bind].
  change (byte_at (client_auth_wire m) 0) with (u8 MSG_TYPE_CLIENT_AUTH).
  rewrite bz_u8_small by wirelia. pass_guards wirelia.
  rewrite <-HL at 1. rewrite read_u16_at by wirelia. pass_guards wirelia. cbn [mbind option_bind].
  unfold client_auth_wire. unfold_wire. slices.
  rewrite be_dec_enc_small by lia. pass_guards wirelia. slices. f_equal; f_equal; lia.
Qed.

(** ** The encoders write exactly the wire image *)
Lemma encode_client_hello_ok m o cap l0 :
  client_hello_valid m -> client_hello_encoded_len (ch_id_len m) <= cap ->
  encode_client_hello (Some m) (Some o) cap (Some l0) =
    (0, Some (poke 0 (client_hello_wire m) o), Some (blen (client_hello_wire m))).
Proof.
  intros [[] Hid] Hc. unfold encode_client_hello.
  rewrite (proj2 (id_in_range _) Hid), (proj2 (Z.ltb_ge _ _) Hc).
  rewrite wrote_nil, !put_wrote.
  rewrite (take_all_z _ (ch_ephemeral_pub m)), (take_all_z _ (ch_mlkem_ek m)),
    (take_all_z _ (ch_session_id m)), (take_all_z _ (ch_nonce m)) by done.
  unfold wrote, client_hello_wire, wire_int_write_u8. rewrite poke_0, <-!app_assoc. done.
Qed.

Lemma write_server_hello_unsigned_ok m o :
  server_hello_sized m ->
  write_server_hello_unsigned_unchecked m o = poke 0 (server_hello_unsigned_wire m) o.
Proof.
  intros []. unfold write_server_hello_unsigned_unchecked.
  rewrite wrote_nil, !put_wrote.
  rewrite (take_all_z _ (sh_ephemeral_pub m)), (take_all_z _ (sh_mlkem_ct m)),
    (take_all_z _ (sh_nonce m)), (take_all_z _ (sh_session_id_echo m)) by done.
  unfold wrote, server_hello_unsigned_wire, wire_int_write_u8. rewrite poke_0, <-!app_assoc. done.
Qed.

Lemma encode_server_hello_unsigned_ok m o cap l0 :
  server_hello_sized m -> id_ok (sh_id_len m) ->
  server_hello_unsigned_encoded_len (sh_id_len m) <= cap ->
  encode_server_hello_unsigned (Some m) (Some o) cap (Some l0) =
    (0, Some (poke 0 (server_hello_unsigned_wire m) o), Some (blen (server_hello_unsigned_wire m))).
Proof.
  intros Hs Hid Hc. unfold encode_server_hello_unsigned.
  rewrite (proj2 (id_in_range _) Hid), (proj2 (Z.ltb_ge _ _) Hc).
  rewrite write_server_hello_unsigned_ok by done. by rewrite length_server_hello_unsigned_wire.
Qed.

Lemma encode_server_hello_ok m o cap l0 :
  server_hello_valid m ->
  server_hello_unsigned_encoded_len (sh_id_len m) + 2 + sh_sig_len m <= cap ->
  encode_server_hello (Some m) (Some o) cap (Some l0) =
    (0, Some (poke 0 (server_hello_wire m) o), Some (blen (server_hello_wire m))).
Proof.
  intros Hv Hc. pose proof Hv as (Hs & Hid & Hsig). unfold encode_server_hello.
  rewrite (proj2 (id_in_range _) Hid), (proj2 (sig_in_range _) Hsig), (proj2 (Z.ltb_ge _ _) Hc).
  rewrite length_server_hello_wire by done. f_equal. f_equal. f_equal.
  rewrite write_server_hello_unsigned_ok, write_u16_be by done.
  pose proof (length_server_hello_unsigned_wire m Hs Hid) as HL.
  rewrite (poke_append (server_hello_unsigned_wire m)) by done.
  rewrite poke_append by (rewrite length_app, length_be_enc, Nat2Z.inj_add, HL; done).
  unfold server_hello_wire. by rewrite <-app_assoc.
Qed.

Lemma encode_client_auth_ok m o cap l0 :
  client_auth_valid m -> 1 + WIRE_HANDSHAKE_ID_LEN + 2 + ca_sig_len m <= cap ->
  encode_client_auth (Some m) (Some o) cap (Some l0) =
    (0, Some (poke 0 (client_auth_wire m) o), Some (blen (client_auth_wire m))).
Proof.
  intros [[] Hsig] Hc. unfold encode_client_auth.
  rewrite (proj2 (sig_in_range _) Hsig), (proj2 (Z.ltb_ge _ _) Hc).
  rewrite wrote_nil, !put_wrote. rewrite (take_all_z _ (ca_handshake_id m)) by done.
  rewrite write_u16_be. unfold wrote, client_auth_wire, wire_int_write_u8.
  rewrite poke_0, <-!app_assoc. done.
Qed.

(** ** Transcript preimages *)
Definition transcript_preimage (lbl a b : list byte) : list byte := lbl ++ [x00] ++ a ++ b.

Definition transcript_labels : list (list byte) :=
  [TRANSCRIPT_LABEL_SERVER_AUTH; TRANSCRIPT_LABEL_CLIENT_AUTH; TRANSCRIPT_LABEL_HANDSHAKE_ID].

Lemma hash_label_spec `{ES : EnvSizes} lbl a b :
  hash_label_and_two_buffers lbl a b = Some (sha256 (transcript_preimage lbl a b)).
Proof.
  pose proof (sha256_chunks_spec [lbl; [x00]; a; b]) as H. simpl concat in H.
  rewrite app_nil_r in H. unfold transcript_preimage. simpl. rewrite <-H.
  unfold hash_label_and_two_buffers, sha256_chunks. destruct crypto_hash_sha256_init; simpl; [|done].
  do 4 (destruct (crypto_hash_sha256_update _ _); simpl; [|done]). done.
Qed.

(** Distinct labels give distinct preimages, whatever follows them. *)
Lemma server_auth_spec `{ES : EnvSizes} a b :
  transcript_hash_server_auth a b = Some (sha256 (transcript_preimage TRANSCRIPT_LABEL_SERVER_AUTH a b)).
Proof. apply hash_label_spec. Qed.
Lemma client_auth_spec `{ES : EnvSizes} a b :
  transcript_hash_client_auth a b = Some (sha256 (transcript_preimage TRANSCRIPT_LABEL_CLIENT_AUTH a b)).
Proof. apply hash_label_spec. Qed.
Lemma handshake_id_spec `{ES : EnvSizes} a b :
  transcript_handshake_id a b =
    Some (ztake 16 (sha256 (transcript_preimage TRANSCRIPT_LABEL_HANDSHAKE_ID a b))).
Proof. unfold transcript_handshake_id. by rewrite hash_label_spec. Qed.

Lemma preimage_label_inj l1 l2 x y :
  l1 ∈ transcript_labels -> l2 ∈ transcript_labels -> l1 ++ x = l2 ++ y -> l1 = l2 /\ x = y.
Proof.
  unfold transcript_labels. rewrite !elem_of_cons, !elem_of_nil.
  intros [->|[->|[->|[]]]] [->|[->|[->|[]]]] E; try discriminate E; by apply app_inv_head in E.
Qed.

(** A ClientHello is self-delimiting: its second byte fixes its length. *)
Lemma client_hello_prefix_free m1 m2 x y :
  client_hello_valid m1 -> client_hello_valid m2 ->
  client_hello_wire m1 ++ x = client_hello_wire m2 ++ y ->
  client_hello_wire m1 = client_hello_wire m2 /\ x = y.
Proof.
  intros H1 H2 E. apply app_inj_1; [|done]. apply Nat2Z.inj.
  rewrite !length_client_hello_wire by done. f_equal.
  destruct H1 as [_ H1], H2 as [_ H2].
  apply u8_inj; [wirelia..|]. by injection E.
Qed.

Lemma client_hello_wire_inj m1 m2 :
  client_hello_valid m1 -> client_hello_valid m2 ->
  client_hello_wire m1 = client_hello_wire m2 -> client_hello_norm m1 = client_hello_norm m2.
Proof.
  intros H1 H2 E. apply (f_equal decode_client_hello_fields) in E.
  rewrite !decode_client_hello_fields_complete in E by done. congruence.
Qed.

Lemma server_hello_wire_inj m1 m2 :
  server_hello_valid m1 -> server_hello_valid m2 ->
  server_hello_wire m1 = server_hello_wire m2 -> server_hello_norm m1 = server_hello_norm m2.
Proof.
  intros H1 H2 E. apply (f_equal decode_server_hello_fields) in E.
  rewrite !decode_server_hello_fields_complete in E by done. congruence.
Qed.

Lemma length_id_field n (l : list byte) : 0 <= n <= blen l -> blen (ztake n l) = n.
Proof. intros. rewrite length_take. lia. Qed.

Lemma client_hello_wire_norm m : client_hello_valid m -> client_hello_wire (client_hello_norm m) = client_hello_wire m.
Proof.
  intros [[] ?]. unfold client_hello_wire, client_hello_norm. cbn [ch_id ch_id_len ch_ephemeral_pub ch_mlkem_ek ch_session_id ch_nonce].
  rewrite take_poke; [done|]. rewrite length_id_field; wirelia.
Qed.

Lemma server_hello_wire_norm m : server_hello_valid m -> server_hello_wire (server_hello_norm m) = server_hello_wire m.
Proof.
  intros ([] & ? & ?). unfold server_hello_wire, server_hello_unsigned_wire, server_hello_norm.
  cbn [sh_id sh_id_len sh_ephemeral_pub sh_mlkem_ct sh_nonce sh_session_id_echo sh_sig sh_sig_len].
  rewrite !take_poke; [done|..]; rewrite length_id_field; wirelia.
Qed.

(** The fields of a ServerHello its signature covers. *)
Definition unsigned_fields (m : server_hello_t) :=
  (ztake (sh_id_len m) (sh_id m), sh_ephemeral_pub m, sh_mlkem_ct m, sh_nonce m, sh_session_id_echo m).

Lemma unsigned_wire_fields m : server_hello_sized m -> id_ok (sh_id_len m) ->
  server_hello_unsigned_wire m =
    let '(i, e, k, n, sid) := unsigned_fields m in [u8 MSG_TYPE_SERVER_HELLO] ++ [u8 (blen i)] ++ i ++ e ++ k ++ n ++ sid.
Proof. intros [] ?. unfold server_hello_unsigned_wire, unsigned_fields. rewrite length_id_field; [done|wirelia]. Qed.

Lemma unsigned_wire_inj m1 m2 : server_hello_valid m1 -> server_hello_valid m2 ->
  server_hello_unsigned_wire m1 = server_hello_unsigned_wire m2 -> unsigned_fields m1 = unsigned_fields m2.
Proof.
  intros ([] & I1 & _) ([] & I2 & _) E. unfold unsigned_fields.
  set (with_sig m := ServerHello (sh_id m) (sh_id_len m) (sh_ephemeral_pub m) (sh_mlkem_ct m) (sh_nonce m) (sh_session_id_echo m) (sh_sig m1) 1).
  assert (server_hello_norm (with_sig m1) = server_hello_norm (with_sig m2)) as Hn.
  { apply server_hello_wire_inj; [split; [by split|by split]..|]. unfold server_hello_wire. f_equal. exact E. }
  unfold server_hello_norm, with_sig in Hn. simpl in Hn. injection Hn as Hi Hl -> -> -> ->. rewrite Hl in Hi |- *.
  apply (f_equal (fun l => ztake (sh_id_len m2) l)) in Hi. rewrite !take_poke in Hi by (rewrite length_id_field; wirelia). by rewrite Hi.
Qed.

Lemma unsigned_wire_iff m1 m2 : server_hello_valid m1 -> server_hello_valid m2 ->
  server_hello_unsigned_wire m1 = server_hello_unsigned_wire m2 <-> unsigned_fields m1 = unsigned_fields m2.
Proof.
  intros V1 V2. split; [by apply unsigned_wire_inj|]. intros E. destruct V1 as (? & ? & _), V2 as (? & ? & _).
  by rewrite !unsigned_wire_fields, E.
Qed.

Lemma server_hello_wire_iff m1 m2 : server_hello_valid m1 -> server_hello_valid m2 ->
  server_hello_wire m1 = server_hello_wire m2 <-> server_hello_norm m1 = server_hello_norm m2.
Proof.
  intros V1 V2. split; [by apply server_hello_wire_inj|]. intros E.
  by rewrite <- (server_hello_wire_norm m1), <- (server_hello_wire_norm m2), E.
Qed.

(** The bytes an encoder call wrote, when it succeeded. *)
Definition written (r : Z * option (list byte) * option Z) : option (list byte) :=
  match r with (0, Some o, Some n) => Some (ztake n o) | _ => None end.

Lemma written_wire wire o : written (0, Some (poke 0 wire o), Some (blen wire)) = Some wire.
Proof. simpl. by rewrite poke_0, Nat2Z.id, take_app_length. Qed.

(** [c], [u] and [s] are what the encoders wrote for the two messages: the
    ClientHello, the unsigned part of the ServerHello and the ServerHello. *)
Definition encoded (ch : client_hello_t) (sh : server_hello_t) (c u s : list byte) : Prop :=
  client_hello_sized ch /\ server_hello_sized sh /\
  (exists o cap n, written (encode_client_hello (Some ch) (Some o) cap (Some n)) = Some c) /\
  (exists o cap n, written (encode_server_hello_unsigned (Some sh) (Some o) cap (Some n)) = Some u) /\
  (exists o cap n, written (encode_server_hello (Some sh) (Some o) cap (Some n)) = Some s).

Lemma encoded_wire ch sh c u s : encoded ch sh c u s ->
  client_hello_valid ch /\ server_hello_valid sh /\
  c = client_hello_wire ch /\ u = server_hello_unsigned_wire sh /\ s = server_hello_wire sh.
Proof.
  intros (Hc & Hs & (o1 & k1 & n1 & E1) & (o2 & k2 & n2 & E2) & (o3 & k3 & n3 & E3)).
  destruct (id_out_of_range (ch_id_len ch)) eqn:Ei; [unfold encode_client_hello in E1; by rewrite Ei in E1|].
  destruct (Z.ltb_spec k1 (client_hello_encoded_len (ch_id_len ch))) as [Hk1|Hk1].
  { unfold encode_client_hello in E1. by rewrite Ei, (proj2 (Z.ltb_lt _ _) Hk1) in E1. }
  destruct (id_out_of_range (sh_id_len sh)) eqn:Ej; [unfold encode_server_hello in E3; by rewrite Ej in E3|].
  destruct (sig_out_of_range (sh_sig_len sh)) eqn:Eg; [unfold encode_server_hello in E3; by rewrite Ej, Eg in E3|].
  destruct (Z.ltb_spec k2 (server_hello_unsigned_encoded_len (sh_id_len sh))) as [Hk2|Hk2].
  { unfold encode_server_hello_unsigned in E2. by rewrite Ej, (proj2 (Z.ltb_lt _ _) Hk2) in E2. }
  destruct (Z.ltb_spec k3 (server_hello_unsigned_encoded_len (sh_id_len sh) + 2 + sh_sig_len sh)) as [Hk3|Hk3].
  { unfold encode_server_hello in E3. by rewrite Ej, Eg, (proj2 (Z.ltb_lt _ _) Hk3) in E3. }
  apply id_in_range in Ei, Ej. apply sig_in_range in Eg.
  rewrite encode_client_hello_ok, written_wire in E1 by done.
  rewrite encode_server_hello_unsigned_ok, written_wire in E2 by done.
  rewrite encode_server_hello_ok, written_wire in E3 by done. simplify_eq. by split_and!.
Qed.

(** Two different inputs on which [f] agrees. *)
Definition collision (f : list byte -> list byte) (x y : list byte) : Prop := x <> y /\ f x = f y.

Lemma equal_or_collision f x y : f x = f y <-> x = y \/ collision f x y.
Proof. unfold collision. destruct (decide (x = y)) as [->|]; tauto. Qed.

(** Within a label the preimage of encoded messages determines them. *)
Lemma preimage_inj lbl m1 m2 x y : client_hello_valid m1 -> client_hello_valid m2 ->
  transcript_preimage lbl (client_hello_wire m1) x = transcript_preimage lbl (client_hello_wire m2) y <->
  client_hello_norm m1 = client_hello_norm m2 /\ x = y.
Proof.
  intros V1 V2. unfold transcript_preimage. split.
  - intros E%app_inv_head%(app_inv_head [x00]). apply client_hello_prefix_free in E as [E ->]; [|done..].
    split; [by apply client_hello_wire_inj|done].
  - intros [E ->]. by rewrite <- (client_hello_wire_norm m1), <- (client_hello_wire_norm m2), E.
Qed.

(** ** Properties *)

(** Round trip.  Encoding a valid message into a large enough buffer
    succeeds, and decoding the bytes it produced gives the message back, its
    variable-length arrays zero-padded as a decoder leaves them, with every
    byte consumed.  For each of ClientHello, ServerHello and ClientAuth. *)
Theorem wire_roundtrip ch sh ca o :
  client_hello_valid ch -> server_hello_valid sh -> client_auth_valid ca ->
  SERVER_HELLO_MAX_ENCODED_LEN <= blen o ->
  (exists o' n, encode_client_hello (Some ch) (Some o) (blen o) (Some 0) = (0, Some o', Some n) /\
     decode_client_hello (Some (ztake n o')) (Some client_hello_zero) (Some 0)
       = (0, Some (client_hello_norm ch), Some n)) /\
  (exists o' n, encode_server_hello (Some sh) (Some o) (blen o) (Some 0) = (0, Some o', Some n) /\
     decode_server_hello (Some (ztake n o')) (Some server_hello_zero) (Some 0)
       = (0, Some (server_hello_norm sh), Some n)) /\
  (exists o' n, encode_client_auth (Some ca) (Some o) (blen o) (Some 0) = (0, Some o', Some n) /\
     decode_client_auth (Some (ztake n o')) (Some client_auth_zero) (Some 0)
       = (0, Some (client_auth_norm ca), Some n)).
Proof.
  intros Hc Hs Ha Ho. pose proof Hc as [_ ?]. pose proof Hs as (_ & ? & ?). pose proof Ha as [_ ?].
  split; [|split]; eexists _, _; (split;
    [first [apply encode_client_hello_ok | apply encode_server_hello_ok | apply encode_client_auth_ok];
     [done|wirelia]|]); rewrite take_poke_0;
    unfold decode_client_hello, decode_server_hello, decode_client_auth.
  - rewrite decode_client_hello_fields_complete, length_client_hello_wire; done.
  - rewrite decode_server_hello_fields_complete, length_server_hello_wire; done.
  - rewrite decode_client_auth_fields_complete, length_client_auth_wire; done.
Qed.

(** Strict decoding.  A decoder succeeds on a buffer exactly when the buffer
    is the wire image of a valid message (field bounds respected, arrays
    zero-padded) and then consumes all of it; no other byte string, in
    particular no truncation, extension or second encoding of a message, is
    accepted. *)
Theorem decode_accepts_only_wire_images buf c :
  (forall m, decode_client_hello (Some buf) (Some client_hello_zero) (Some 0) = (0, Some m, Some c) <->
     client_hello_valid m /\ client_hello_padded m /\ buf = client_hello_wire m /\ c = blen buf) /\
  (forall m, decode_server_hello (Some buf) (Some server_hello_zero) (Some 0) = (0, Some m, Some c) <->
     server_hello_valid m /\ server_hello_padded m /\ buf = server_hello_wire m /\ c = blen buf) /\
  (forall m, decode_client_auth (Some buf) (Some client_auth_zero) (Some 0) = (0, Some m, Some c) <->
     client_auth_valid m /\ client_auth_padded m /\ buf = client_auth_wire m /\ c = blen buf).
Proof.
  split; [|split]; intros m; (split; [unfold decode_client_hello, decode_server_hello, decode_client_auth;
    destruct (_ buf) as [[m' c']|] eqn:E; [intros [= -> ->]|done]|]).
  - by apply decode_client_hello_fields_sound.
  - intros (Hv & Hp & -> & ->). unfold decode_client_hello. rewrite decode_client_hello_fields_complete by done.
    rewrite length_client_hello_wire by done. unfold client_hello_norm. destruct Hv as [[] ?].
    rewrite poke_padded by (done || wirelia). by destruct m.
  - by apply decode_server_hello_fields_sound.
  - intros (Hv & [Hp Hq] & -> & ->). unfold decode_server_hello. rewrite decode_server_hello_fields_complete by done.
    rewrite length_server_hello_wire by done. unfold server_hello_norm. destruct Hv as ([] & ? & ?).
    rewrite !poke_padded by (done || wirelia). by destruct m.
  - by apply decode_client_auth_fields_sound.
  - intros (Hv & Hp & -> & ->). unfold decode_client_auth. rewrite decode_client_auth_fields_complete by done.
    rewrite length_client_auth_wire by done. unfold client_auth_norm. destruct Hv as [[] ?].
    rewrite poke_padded by (done || wirelia). by destruct m.
Qed.

(** The contract of an encoder on non-NULL arguments: all or nothing. *)
Definition enc_result (ok : bool) (wire o : list byte) (cap n : Z)
    : Z * option (list byte) * option Z :=
  if ok && (blen wire <=? cap)
  then (0, Some (wire ++ drop (length wire) o), Some (blen wire))
  else (-1, Some o, Some n).

(** All or nothing.  An encoder succeeds exactly when the variable-length
    fields are within their bounds and the wire image fits the capacity; it then
    overwrites precisely the first bytes of the buffer with the wire image,
    keeps every byte behind them and reports the length.  Otherwise it returns
    -1 and leaves the buffer and the length as they were. *)
Theorem encode_all_or_nothing ch sh ca o cap n :
  client_hello_sized ch -> server_hello_sized sh -> client_auth_sized ca ->
  encode_client_hello (Some ch) (Some o) cap (Some n) =
    enc_result (negb (id_out_of_range (ch_id_len ch))) (client_hello_wire ch) o cap n /\
  encode_server_hello_unsigned (Some sh) (Some o) cap (Some n) =
    enc_result (negb (id_out_of_range (sh_id_len sh))) (server_hello_unsigned_wire sh) o cap n /\
  encode_server_hello (Some sh) (Some o) cap (Some n) =
    enc_result (negb (id_out_of_range (sh_id_len sh)) && negb (sig_out_of_range (sh_sig_len sh)))
      (server_hello_wire sh) o cap n /\
  encode_client_auth (Some ca) (Some o) cap (Some n) =
    enc_result (negb (sig_out_of_range (ca_sig_len ca))) (client_auth_wire ca) o cap n.
Proof.
  intros Hc Hs Ha. unfold enc_result. split; [|split; [|split]].
  - destruct (id_out_of_range (ch_id_len ch)) eqn:E; [unfold encode_client_hello; by rewrite E|].
    pose proof (proj1 (id_in_range _) E) as Hi. rewrite length_client_hello_wire by done.
    simpl andb. destruct (Z.leb_spec (client_hello_encoded_len (ch_id_len ch)) cap) as [Hle|Hgt].
    + rewrite encode_client_hello_ok, poke_0, length_client_hello_wire by done. done.
    + unfold encode_client_hello. rewrite E. by rewrite (proj2 (Z.ltb_lt _ _) Hgt).
  - destruct (id_out_of_range (sh_id_len sh)) eqn:E; [unfold encode_server_hello_unsigned; by rewrite E|].
    pose proof (proj1 (id_in_range _) E) as Hi. rewrite length_server_hello_unsigned_wire by done.
    simpl andb. destruct (Z.leb_spec (server_hello_unsigned_encoded_len (sh_id_len sh)) cap) as [Hle|Hgt].
    + rewrite encode_server_hello_unsigned_ok, poke_0, length_server_hello_unsigned_wire by done. done.
    + unfold encode_server_hello_unsigned. rewrite E. by rewrite (proj2 (Z.ltb_lt _ _) Hgt).
  - destruct (id_out_of_range (sh_id_len sh)) eqn:E; [unfold encode_server_hello; by rewrite E|].
    destruct (sig_out_of_range (sh_sig_len sh)) eqn:E'; [unfold encode_server_hello; by rewrite E, E'|].
    pose proof (proj1 (id_in_range _) E) as Hi. pose proof (proj1 (sig_in_range _) E') as Hg.
    rewrite length_server_hello_wire by done. simpl andb. case_match eqn:Hle.
    + apply Z.leb_le in Hle. rewrite encode_server_hello_ok, poke_0, length_server_hello_wire by done. done.
    + unfold encode_server_hello. rewrite E, E'. by rewrite (proj2 (Z.ltb_lt _ _)) by lia.
  - destruct (sig_out_of_range (ca_sig_len ca)) eqn:E; [unfold encode_client_auth; by rewrite E|].
    pose proof (proj1 (sig_in_range _) E) as Hi. rewrite length_client_auth_wire by done.
    simpl andb. case_match eqn:Hle.
    + apply Z.leb_le in Hle. rewrite encode_client_auth_ok, poke_0, length_client_auth_wire by done. done.
    + unfold encode_client_auth. rewrite E. by rewrite (proj2 (Z.ltb_lt _ _)) by lia.
Qed.

(** C34: Transcript binding and domain separation, for the bytes the encoders
    write.  Take two pairs of a ClientHello and a ServerHello the encoders
    accept.  The server-auth digests of their encodings are equal exactly when
    the ClientHellos have equal fields and the ServerHellos equal fields up to
    the signature, or the two preimages are a collision of SHA-256; the
    client-auth digests exactly when all fields of both messages are equal, or
    again the two preimages collide; the handshake ids likewise, for SHA-256 cut
    to 16 bytes.  A server-auth digest equals a client-auth digest only when
    their preimages collide.  (Fields are compared without the bytes of the
    arrays behind their length.) *)
Theorem transcript_binding `{ES : EnvSizes} ch1 sh1 c1 u1 s1 ch2 sh2 c2 u2 s2 :
  encoded ch1 sh1 c1 u1 s1 -> encoded ch2 sh2 c2 u2 s2 ->
  (transcript_hash_server_auth c1 u1 = transcript_hash_server_auth c2 u2 <->
     (client_hello_norm ch1 = client_hello_norm ch2 /\ unsigned_fields sh1 = unsigned_fields sh2) \/
     collision sha256 (transcript_preimage TRANSCRIPT_LABEL_SERVER_AUTH c1 u1) (transcript_preimage TRANSCRIPT_LABEL_SERVER_AUTH c2 u2)) /\
  (transcript_hash_client_auth c1 s1 = transcript_hash_client_auth c2 s2 <->
     (client_hello_norm ch1 = client_hello_norm ch2 /\ server_hello_norm sh1 = server_hello_norm sh2) \/
     collision sha256 (transcript_preimage TRANSCRIPT_LABEL_CLIENT_AUTH c1 s1) (transcript_preimage TRANSCRIPT_LABEL_CLIENT_AUTH c2 s2)) /\
  (transcript_handshake_id c1 s1 = transcript_handshake_id c2 s2 <->
     (client_hello_norm ch1 = client_hello_norm ch2 /\ server_hello_norm sh1 = server_hello_norm sh2) \/
     collision (fun x => ztake 16 (sha256 x)) (transcript_preimage TRANSCRIPT_LABEL_HANDSHAKE_ID c1 s1)
       (transcript_preimage TRANSCRIPT_LABEL_HANDSHAKE_ID c2 s2)) /\
  (transcript_hash_server_auth c1 u1 = transcript_hash_client_auth c2 s2 <->
     collision sha256 (transcript_preimage TRANSCRIPT_LABEL_SERVER_AUTH c1 u1) (transcript_preimage TRANSCRIPT_LABEL_CLIENT_AUTH c2 s2)).
Proof.
  intros (V1 & W1 & -> & -> & ->)%encoded_wire (V2 & W2 & -> & -> & ->)%encoded_wire.
  assert (forall a b : list byte, Some a = Some b <-> a = b) as Some_iff by (split; congruence).
  rewrite !server_auth_spec, !client_auth_spec, !handshake_id_spec, !Some_iff.
  pose proof (equal_or_collision (fun x => ztake 16 (sha256 x))) as Hid. cbv beta in Hid.
  rewrite !(equal_or_collision sha256), Hid, !preimage_inj, unsigned_wire_iff, server_hello_wire_iff by done.
  split_and!; [tauto..|]. split; [intros [Heq|Hcol]; [|done]|tauto].
  apply preimage_label_inj in Heq as [Heq _]; [discriminate Heq|unfold transcript_labels; rewrite !elem_of_cons; tauto..].
Qed.

(** The signed prefix.  The ServerHello prefix covered by the responder's
    signature is what [encode_server_hello_unsigned] writes, it is the first
    [transcript_server_hello_unsigned_len] bytes of the full encoding, and that
    length never collides with the sentinel 0. *)
Theorem server_hello_unsigned_prefix m :
  server_hello_valid m ->
  let u := transcript_server_hello_unsigned_len (sh_id_len m) in
  1171 <= u <= SERVER_HELLO_UNSIGNED_MAX_ENCODED_LEN /\
  ztake u (server_hello_wire m) = server_hello_unsigned_wire m /\
  blen (server_hello_unsigned_wire m) = u /\ u < blen (server_hello_wire m).
Proof.
  intros Hv u. pose proof Hv as (Hs & Hi & Hg).
  assert (u = server_hello_unsigned_encoded_len (sh_id_len m)) as ->.
  { unfold u, transcript_server_hello_unsigned_len. by rewrite (proj2 (id_in_range _) Hi). }
  rewrite length_server_hello_unsigned_wire, length_server_hello_wire by done.
  split; [wirelia|]. split; [|wirelia].
  rewrite <-length_server_hello_unsigned_wire by done.
  rewrite Nat2Z.id. apply take_app_length.
Qed.

(** ** Witnesses *)
Definition sample_client_hello : client_hello_t :=
  ClientHello (poke 0 (label "alice") (zeros 64)) 5 (replicate 32 x01) (replicate 1184 x02)
    (replicate 16 x03) (replicate 32 x04).
Definition sample_server_hello : server_hello_t :=
  ServerHello (poke 0 (label "bob") (zeros 64)) 3 (replicate 32 x05) (replicate 1088 x06)
    (replicate 32 x07) (replicate 16 x03) (poke 0 (replicate 700 x08) (zeros 3309)) 700.
Definition sample_client_auth : client_auth_t :=
  ClientAuth (replicate 16 x09) (poke 0 (replicate 300 x0a) (zeros 3309)) 300.

Lemma sample_client_hello_valid : client_hello_valid sample_client_hello.
Proof. split; [by split|by vm_compute]. Qed.
Lemma sample_server_hello_valid : server_hello_valid sample_server_hello.
Proof. split; [by split|by vm_compute]. Qed.
Lemma sample_client_auth_valid : client_auth_valid sample_client_auth.
Proof. split; [by split|by vm_compute]. Qed.

Lemma wire_roundtrip_witness :
  exists o' n, encode_server_hello (Some sample_server_hello) (Some (zeros 4545)) 4545 (Some 0)
    = (0, Some o', Some n) /\
  decode_server_hello (Some (ztake n o')) (Some server_hello_zero) (Some 0)
    = (0, Some sample_server_hello, Some n).
Proof.
  destruct (wire_roundtrip sample_client_hello sample_server_hello sample_client_auth (zeros 4545)
    sample_client_hello_valid sample_server_hello_valid sample_client_auth_valid) as (_ & H & _).
  - vm_compute. discriminate.
  - change (blen (zeros 4545)) with 4545 in H.
    replace (server_hello_norm sample_server_hello) with sample_server_hello in H
      by (vm_compute; reflexivity).
    exact H.
Defined.

Lemma encode_all_or_nothing_witness :
  encode_client_hello (Some sample_client_hello) (Some (zeros 1270)) 1270 (Some 7) =
    (-1, Some (zeros 1270), Some 7).
Proof.
  destruct (encode_all_or_nothing sample_client_hello sample_server_hello sample_client_auth
    (zeros 1270) 1270 7 (proj1 sample_client_hello_valid) (proj1 sample_server_hello_valid)
    (proj1 sample_client_auth_valid)) as (H & _).
  rewrite H. vm_compute. reflexivity.
Defined.

(** The same ClientHello with other bytes behind its identity, and one with
    another nonce. *)
Definition unpadded_client_hello : client_hello_t :=
  ClientHello (poke 0 (label "alice") (replicate 64 xff)) 5 (replicate 32 x01) (replicate 1184 x02)
    (replicate 16 x03) (replicate 32 x04).
Definition other_client_hello : client_hello_t :=
  ClientHello (poke 0 (label "alice") (zeros 64)) 5 (replicate 32 x01) (replicate 1184 x02)
    (replicate 16 x03) (replicate 32 x0b).

Lemma sample_encoded ch : client_hello_valid ch ->
  encoded ch sample_server_hello (client_hello_wire ch) (server_hello_unsigned_wire sample_server_hello) (server_hello_wire sample_server_hello).
Proof.
  intros [Hs Hi]. pose proof sample_server_hello_valid as Hv. pose proof Hv as (Hss & Hid & _). split_and!; [done..| | |].
  - exists (zeros 4545), 4545, 0. rewrite encode_client_hello_ok; [apply written_wire|done|wirelia].
  - exists (zeros 4545), 4545, 0. rewrite encode_server_hello_unsigned_ok; [apply written_wire|done..].
  - exists (zeros 4545), 4545, 0. rewrite encode_server_hello_ok; [apply written_wire|done..].
Qed.

Lemma transcript_binding_witness :
  let u := server_hello_unsigned_wire sample_server_hello in
  transcript_hash_server_auth (client_hello_wire unpadded_client_hello) u = transcript_hash_server_auth (client_hello_wire sample_client_hello) u /\
  transcript_hash_server_auth (client_hello_wire other_client_hello) u <> transcript_hash_server_auth (client_hello_wire sample_client_hello) u.
Proof.
  assert (client_hello_valid unpadded_client_hello) as V1 by (split; [by split|by vm_compute]).
  assert (client_hello_valid other_client_hello) as V2 by (split; [by split|by vm_compute]).
  pose proof (sample_encoded _ sample_client_hello_valid) as E0.
  split.
  - destruct (transcript_binding (ES := toy_sizes) _ _ _ _ _ _ _ _ _ _ (sample_encoded _ V1) E0) as [[_ H] _].
    apply H. left. split; [vm_compute; reflexivity|reflexivity].
  - destruct (transcript_binding (ES := toy_sizes) _ _ _ _ _ _ _ _ _ _ (sample_encoded _ V2) E0) as [[H _] _].
    intros E. destruct (H E) as [[Hn _]|[_ Hc]]; [|vm_compute in Hc; discriminate Hc].
    apply (f_equal ch_nonce) in Hn. vm_compute in Hn. discriminate Hn.
Defined.

Lemma server_hello_unsigned_prefix_witness :
  transcript_server_hello_unsigned_len (sh_id_len sample_server_hello) = 1173 /\
  ztake 1173 (server_hello_wire sample_server_hello) = server_hello_unsigned_wire sample_server_hello.
Proof.
  split; [reflexivity|].
  exact (proj1 (proj2 (server_hello_unsigned_prefix sample_server_hello sample_server_hello_valid))).
Defined.
