(* ===== verification/Keystore.v ===== *)
(** * Pinned identity keys ([src/protocol/keystore.c])

    The keystore is a fixed array of 32 entries scanned linearly; an entry with
    [id_len = 0] is free.  The abstract view [pins] is a finite map from
    identities to public keys, and the operations refine the map operations. *)

From S2P Require Import Prelude Extern Toy Crypto Transcript.

Definition KEYSTORE_MAX_ENTRIES : Z := 32.

Inductive keystore_status_t :=
  | KEYSTORE_OK
  | KEYSTORE_OK_ALREADY_PRESENT
  | KEYSTORE_ERR_INVALID_ARG
  | KEYSTORE_ERR_NOT_FOUND
  | KEYSTORE_ERR_KEY_MISMATCH
  | KEYSTORE_ERR_FULL.

Record keystore_entry_t := KeystoreEntry {
  ke_id : list byte; ke_id_len : Z; ke_public_key : list byte }.

Record keystore_t := Keystore { ks_entries : list keystore_entry_t; ks_count : Z }.

#[export] Instance keystore_status_eq_dec : EqDecision keystore_status_t.
Proof. solve_decision. Defined.

(** ** Operations *)
Definition ks_id_len_valid (id_len : Z) : bool :=
  (WIRE_ID_MIN_LEN <=? id_len) && (id_len <=? WIRE_ID_MAX_LEN).

Definition entry_matches (e : keystore_entry_t) (id : list byte) : bool :=
  if (ke_id_len e =? 0) || negb (ke_id_len e =? blen id) then false
  else memeq (ke_id e) id (blen id).

(** The scan; the returned pointer is the entry and its index. *)
Definition find_entry (ks : keystore_t) (id : list byte) : option (nat * keystore_entry_t) :=
  list_find (fun e => entry_matches e id = true) (ks_entries ks).

Definition keystore_entry_zero : keystore_entry_t :=
  KeystoreEntry (zeros WIRE_ID_MAX_LEN) 0 (zeros MLDSA_PUBLIC_KEY_BYTES).

Definition keystore_init (ks : option keystore_t) : option keystore_t :=
  match ks with
  | None => None
  | Some _ => Some (Keystore (replicate (Z.to_nat KEYSTORE_MAX_ENTRIES) keystore_entry_zero) 0)
  end.

Definition keystore_wipe (ks : option keystore_t) : option keystore_t :=
  match ks with
  | None => None
  | Some _ => Some (Keystore (replicate (Z.to_nat KEYSTORE_MAX_ENTRIES) keystore_entry_zero) 0)
  end.

Definition keystore_add (ks : option keystore_t) (id : option (list byte))
    (public_key : option (list byte)) : keystore_status_t * option keystore_t :=
  match ks, id, public_key with
  | Some s, Some i, Some pk =>
    if negb (ks_id_len_valid (blen i)) then (KEYSTORE_ERR_INVALID_ARG, ks) else
    match find_entry s i with
    | Some (_, existing) =>
      if memeq (ke_public_key existing) pk MLDSA_PUBLIC_KEY_BYTES
      then (KEYSTORE_OK_ALREADY_PRESENT, ks)
      else (KEYSTORE_ERR_KEY_MISMATCH, ks)
    | None =>
      if KEYSTORE_MAX_ENTRIES <=? ks_count s then (KEYSTORE_ERR_FULL, ks) else
      match list_find (fun e => ke_id_len e = 0) (ks_entries s) with
      | Some (n, e) =>
        let e' := KeystoreEntry (poke 0 i (ke_id e)) (blen i)
                    (poke 0 (ztake MLDSA_PUBLIC_KEY_BYTES pk) (ke_public_key e)) in
        (KEYSTORE_OK, Some (Keystore (<[n := e']> (ks_entries s)) (ks_count s + 1)))
      | None => (KEYSTORE_ERR_FULL, ks)
      end
    end
  | _, _, _ => (KEYSTORE_ERR_INVALID_ARG, ks)
  end.

(** [public_key_out] as on entry ([None] for a NULL out-pointer, else the
    pointer it holds); the result is the pointer after the call. *)
Definition keystore_lookup (ks : option keystore_t) (id : option (list byte))
    (public_key_out : option (option (list byte)))
    : keystore_status_t * option (option (list byte)) :=
  match public_key_out with
  | None => (KEYSTORE_ERR_INVALID_ARG, None)
  | Some _ =>
    match ks, id with
    | Some s, Some i =>
      if negb (ks_id_len_valid (blen i)) then (KEYSTORE_ERR_INVALID_ARG, Some None) else
      match find_entry s i with
      | Some (_, e) => (KEYSTORE_OK, Some (Some (ke_public_key e)))
      | None => (KEYSTORE_ERR_NOT_FOUND, Some None)
      end
    | _, _ => (KEYSTORE_ERR_INVALID_ARG, Some None)
    end
  end.

Definition keystore_count (ks : option keystore_t) : Z :=
  match ks with Some s => ks_count s | None => 0 end.

(** ** Invariant and abstraction *)
Definition entry_pin (e : keystore_entry_t) : option (list byte * list byte) :=
  if ke_id_len e =? 0 then None else Some (ztake (ke_id_len e) (ke_id e), ke_public_key e).

Definition pins (ks : keystore_t) : gmap (list byte) (list byte) := table entry_pin (ks_entries ks).

Definition entry_ok (e : keystore_entry_t) : Prop :=
  blen (ke_id e) = WIRE_ID_MAX_LEN /\ blen (ke_public_key e) = MLDSA_PUBLIC_KEY_BYTES /\
  0 <= ke_id_len e <= WIRE_ID_MAX_LEN.

Record keystore_ok (ks : keystore_t) : Prop := {
  ksok_length : blen (ks_entries ks) = KEYSTORE_MAX_ENTRIES;
  ksok_entries : Forall entry_ok (ks_entries ks);
  ksok_unique : distinct entry_pin (ks_entries ks);
  ksok_count : ks_count ks = blen (bindings entry_pin (ks_entries ks)) }.

(** The map the keystore promises to be. *)
Definition pin_add (m : gmap (list byte) (list byte)) (id pk : list byte)
    : keystore_status_t * gmap (list byte) (list byte) :=
  if negb (ks_id_len_valid (blen id)) then (KEYSTORE_ERR_INVALID_ARG, m) else
  match m !! id with
  | Some pk' => if decide (pk' = pk) then (KEYSTORE_OK_ALREADY_PRESENT, m)
                else (KEYSTORE_ERR_KEY_MISMATCH, m)
  | None => if decide (KEYSTORE_MAX_ENTRIES <= Z.of_nat (size m)) then (KEYSTORE_ERR_FULL, m)
            else (KEYSTORE_OK, <[id := pk]> m)
  end.

(** ** Lemmas *)
Lemma entry_matches_pin e id :
  entry_ok e -> entry_matches e id = true <-> entry_pin e = Some (id, ke_public_key e).
Proof.
  intros (Hi & _ & Hl). unfold entry_matches, entry_pin, WIRE_ID_MAX_LEN in *.
  destruct (Z.eqb_spec (ke_id_len e) 0) as [|Hnz]; simpl; [done|].
  destruct (Z.eqb_spec (ke_id_len e) (blen id)) as [->|Hne]; simpl.
  - unfold memeq. rewrite bool_decide_eq_true, (take_all_z (blen id) id) by done.
    split; [by intros ->|by intros [= ->]].
  - split; [done|]. intros [= <-]. rewrite length_take in Hne. lia.
Qed.

Lemma pins_lookup ks id pk :
  keystore_ok ks ->
  pins ks !! id = Some pk <-> exists i e, ks_entries ks !! i = Some e /\ entry_pin e = Some (id, pk).
Proof. intros Hok. apply table_lookup, Hok. Qed.

Lemma entry_pin_key e id pk : entry_pin e = Some (id, pk) -> pk = ke_public_key e.
Proof. unfold entry_pin. case_match; [done|]. by intros [= _ ->]. Qed.

(** The scan computes the map lookup. *)
Lemma find_entry_pins ks id :
  keystore_ok ks -> (fun p => ke_public_key p.2) <$> find_entry ks id = pins ks !! id.
Proof.
  intros Hok. unfold find_entry. destruct (list_find _ _) as [[i e]|] eqn:Hf; simpl; symmetry.
  - apply list_find_Some in Hf as (Hi & Hm & _). apply pins_lookup; [done|].
    exists i, e. split; [done|]. apply entry_matches_pin; [|done].
    by eapply Forall_lookup_1, Hi; apply Hok.
  - apply list_find_None in Hf. apply eq_None_not_Some. intros [pk Hpk].
    apply pins_lookup in Hpk as (i & e & Hi & Hp); [|done].
    pose proof (Forall_lookup_1 _ _ _ _ (ksok_entries _ Hok) Hi) as He.
    rewrite (entry_pin_key _ _ _ Hp) in Hp.
    eapply Forall_lookup_1 in Hf; [|exact Hi]. apply Hf. by apply entry_matches_pin.
Qed.

Lemma pins_size ks : keystore_ok ks -> Z.of_nat (size (pins ks)) = ks_count ks.
Proof. intros Hok. rewrite (ksok_count _ Hok). f_equal. apply table_size, Hok. Qed.

(** A keystore with room has a free slot. *)
Lemma free_slot_exists ks :
  keystore_ok ks -> ks_count ks < KEYSTORE_MAX_ENTRIES ->
  exists n e, list_find (fun e => ke_id_len e = 0) (ks_entries ks) = Some (n, e).
Proof.
  intros Hok Hlt. destruct (list_find _ _) as [[n e]|] eqn:Hf; [by eauto|].
  apply list_find_None in Hf. exfalso.
  rewrite (ksok_count _ Hok), <-(ksok_length _ Hok) in Hlt. rewrite bindings_full in Hlt; [lia|]. eapply Forall_impl; [exact Hf|]. intros x Hx. simpl in Hx.
  unfold entry_pin. rewrite (proj2 (Z.eqb_neq _ _) Hx). by eexists.
Qed.

Lemma keystore_fresh_ok ks0 ks : keystore_init (Some ks0) = Some ks -> keystore_ok ks /\ pins ks = ∅.
Proof.
  intros H. apply (inj Some) in H as <-. split; [|done].
  split; [done| |by apply NoDup_nil_2|done]. by apply Forall_replicate.
Qed.

Lemma pin_id_valid ks id pk : keystore_ok ks -> pins ks !! id = Some pk -> ks_id_len_valid (blen id) = true.
Proof.
  intros Hok Hpin. apply pins_lookup in Hpin as (i & e & Hi & Hp); [|done].
  destruct (Forall_lookup_1 _ _ _ _ (ksok_entries _ Hok) Hi) as (Hl & _ & Hb).
  unfold entry_pin in Hp. destruct (Z.eqb_spec (ke_id_len e) 0); [done|]. injection Hp as <- _.
  unfold ks_id_len_valid, WIRE_ID_MIN_LEN, WIRE_ID_MAX_LEN in *. rewrite length_take. apply andb_true_iff; rewrite !Z.leb_le; lia.
Qed.

Lemma keystore_add_fresh ks id pk n e :
  keystore_ok ks -> ks_id_len_valid (blen id) = true -> blen pk = MLDSA_PUBLIC_KEY_BYTES ->
  pins ks !! id = None -> list_find (fun e => ke_id_len e = 0) (ks_entries ks) = Some (n, e) ->
  let e' := KeystoreEntry (poke 0 id (ke_id e)) (blen id)
              (poke 0 (ztake MLDSA_PUBLIC_KEY_BYTES pk) (ke_public_key e)) in
  let ks' := Keystore (<[n := e']> (ks_entries ks)) (ks_count ks + 1) in
  keystore_ok ks' /\ pins ks' = <[id := pk]> (pins ks).
Proof.
  intros Hok Hid Hpk Hnone Hf e' ks'. apply list_find_Some in Hf as (Hn & He0 & _).
  unfold ks_id_len_valid, WIRE_ID_MIN_LEN, WIRE_ID_MAX_LEN in Hid.
  destruct (Forall_lookup_1 _ _ _ _ (ksok_entries _ Hok) Hn) as (Hi & Hp & _).
  assert (Hpin : entry_pin e' = Some (id, pk)).
  { unfold entry_pin, e'. simpl. rewrite (proj2 (Z.eqb_neq _ _)) by lia. rewrite take_poke_0.
    rewrite take_all_z, poke_0_full by lia. done. }
  destruct (table_fill entry_pin (ks_entries ks) n e e' id pk) as [Hd Ht];
    [apply Hok|done|unfold entry_pin; by rewrite He0|done|done|].
  split; [split|].
  - simpl. rewrite length_insert. apply Hok.
  - simpl. apply Forall_insert; [apply Hok|]. unfold entry_ok, e', WIRE_ID_MAX_LEN in *. simpl.
    rewrite !length_poke by (rewrite ?length_take; lia). lia.
  - done.
  - simpl. rewrite (bindings_fill _ _ _ e _ _ Hn) by (try done; unfold entry_pin; by rewrite He0).
    rewrite (ksok_count _ Hok). simpl. lia.
  - done.
Qed.

Lemma keystore_add_refines ks id pk :
  keystore_ok ks -> blen pk = MLDSA_PUBLIC_KEY_BYTES ->
  exists ks', keystore_add (Some ks) (Some id) (Some pk) = ((pin_add (pins ks) id pk).1, Some ks') /\
     keystore_ok ks' /\ pins ks' = (pin_add (pins ks) id pk).2.
Proof.
  intros Hok Hpk. unfold keystore_add, pin_add.
  destruct (ks_id_len_valid (blen id)) eqn:Hid; cbn [negb]; cbv iota; [|by eexists].
  pose proof (find_entry_pins ks id Hok) as Hfind.
  destruct (find_entry ks id) as [[i e]|] eqn:Hf; simpl in Hfind; rewrite <-Hfind.
  - apply list_find_Some in Hf as (Hi & _ & _).
    destruct (Forall_lookup_1 _ _ _ _ (ksok_entries _ Hok) Hi) as (_ & Hp & _).
    destruct (decide (ke_public_key e = pk)) as [Heq|Hne].
    + rewrite (proj2 (memeq_true _ _ _ Hp Hpk) Heq). by eexists.
    + rewrite (proj2 (memeq_false _ _ _ Hp Hpk) Hne). by eexists.
  - rewrite <-(pins_size _ Hok). case_decide as Hfull.
    + rewrite (proj2 (Z.leb_le _ _) Hfull). by eexists.
    + rewrite (proj2 (Z.leb_gt _ _)) by lia.
      destruct (free_slot_exists ks Hok) as (n & e & Hn); [rewrite <-(pins_size _ Hok); lia|].
      rewrite Hn. eexists. split; [done|]. rewrite (pins_size _ Hok). by apply keystore_add_fresh.
Qed.

Lemma pin_add_mono m id pk i k : m !! id = Some pk -> (pin_add m i k).2 !! id = Some pk.
Proof.
  intros H. unfold pin_add. repeat case_match; simpl; try done.
  rewrite lookup_insert_ne; [done|congruence].
Qed.

Lemma keystore_lookup_pinned ks id pk :
  keystore_ok ks -> pins ks !! id = Some pk ->
  keystore_lookup (Some ks) (Some id) (Some None) = (KEYSTORE_OK, Some (Some pk)).
Proof.
  intros Hok Hpin. unfold keystore_lookup. rewrite (pin_id_valid _ _ _ Hok Hpin). simpl.
  rewrite <-find_entry_pins in Hpin by done. destruct (find_entry ks id) as [[]|]; [|done].
  by injection Hpin as ->.
Qed.

(** A sequence of additions, result codes dropped. *)
Definition keystore_adds (ks : option keystore_t) (adds : list (list byte * list byte))
    : option keystore_t :=
  foldl (fun s a => (keystore_add s (Some a.1) (Some a.2)).2) ks adds.

(** ** Properties *)

(** The keystore is a finite map.  From any well-formed keystore, adding a
    pin with a 1952-byte key keeps the keystore well-formed and does exactly
    what adding to the map of pins does, result code included: a new identity is
    recorded while fewer than 32 are present, the same key again is reported as
    already present, a different key is a mismatch that changes nothing.
    Looking an identity up returns the map's key, and the count is the map's
    size; a freshly initialised keystore is the empty map. *)
Theorem keystore_refines_map ks id pk p :
  keystore_ok ks -> blen pk = MLDSA_PUBLIC_KEY_BYTES ->
  (exists ks', keystore_add (Some ks) (Some id) (Some pk) = ((pin_add (pins ks) id pk).1, Some ks') /\
     keystore_ok ks' /\ pins ks' = (pin_add (pins ks) id pk).2) /\
  keystore_lookup (Some ks) (Some id) (Some p) =
    (if ks_id_len_valid (blen id) then
       match pins ks !! id with
       | Some k => (KEYSTORE_OK, Some (Some k))
       | None => (KEYSTORE_ERR_NOT_FOUND, Some None)
       end
     else (KEYSTORE_ERR_INVALID_ARG, Some None)) /\
  keystore_count (Some ks) = Z.of_nat (size (pins ks)) /\
  (exists ks0, keystore_init (Some ks) = Some ks0 /\ keystore_ok ks0 /\ pins ks0 = ∅).
Proof.
  intros Hok Hpk. split; [|split; [|split]].
  - by apply keystore_add_refines.
  - unfold keystore_lookup. destruct (ks_id_len_valid _); simpl; [|done].
    rewrite <-find_entry_pins by done. by destruct (find_entry ks id) as [[]|].
  - symmetry. by apply pins_size.
  - eexists. split; [done|]. by apply (keystore_fresh_ok ks).
Qed.

(** A pin is never replaced.  Whatever sequence of additions is attempted on
    a well-formed keystore, an identity that is pinned keeps its key. *)
Theorem keystore_pins_never_replaced ks adds id pk :
  keystore_ok ks -> Forall (fun a => blen a.2 = MLDSA_PUBLIC_KEY_BYTES) adds ->
  pins ks !! id = Some pk ->
  exists ks', keystore_adds (Some ks) adds = Some ks' /\ keystore_ok ks' /\
    keystore_lookup (Some ks') (Some id) (Some None) = (KEYSTORE_OK, Some (Some pk)).
Proof.
  intros Hok Hadds Hpin. revert ks Hok Hpin. induction Hadds as [|[i k] adds Hk _ IH]; intros ks Hok Hpin.
  - exists ks. split; [done|]. split; [done|]. by apply keystore_lookup_pinned.
  - destruct (keystore_add_refines ks i k Hok Hk) as (ks1 & Hadd & Hok1 & Hp1).
    destruct (IH ks1 Hok1) as (ks' & Hks' & Hrest).
    + rewrite Hp1. by apply pin_add_mono.
    + exists ks'. split; [|done]. unfold keystore_adds. cbn [foldl fst snd]. by rewrite Hadd.
Qed.

(** ** Witnesses *)
Definition sample_pk (b : byte) : list byte := replicate 1952 b.
Definition sample_keystore : keystore_t :=
  default (Keystore [] 0) (keystore_adds (keystore_init (Some (Keystore [] 0)))
    [(label "alice", sample_pk x01); (label "bob", sample_pk x02)]).

Lemma sample_keystore_ok : keystore_ok sample_keystore.
Proof.
  split; [by vm_compute| |by apply (bool_decide_unpack _); vm_compute|by vm_compute].
  apply (bool_decide_unpack _). by vm_compute.
Qed.

Lemma keystore_refines_map_witness :
  exists ks', keystore_add (Some sample_keystore) (Some (label "bob")) (Some (sample_pk x07)) =
    (KEYSTORE_ERR_KEY_MISMATCH, Some ks') /\ keystore_ok ks'.
Proof.
  destruct (keystore_refines_map sample_keystore (label "bob") (sample_pk x07) None sample_keystore_ok)
    as ((ks' & H & Hok & _) & _); [reflexivity|].
  exists ks'. split; [|exact Hok]. rewrite H. vm_compute. reflexivity.
Defined.

Lemma keystore_pins_never_replaced_witness :
  exists ks', keystore_adds (Some sample_keystore) [(label "bob", sample_pk x07)] = Some ks' /\
    keystore_ok ks' /\
    keystore_lookup (Some ks') (Some (label "bob")) (Some None) = (KEYSTORE_OK, Some (Some (sample_pk x02))).
Proof.
  apply (keystore_pins_never_replaced sample_keystore [(label "bob", sample_pk x07)]
    (label "bob") (sample_pk x02) sample_keystore_ok).
  - constructor; [reflexivity|constructor].
  - vm_compute. reflexivity.
Defined.
