(* ===== verification/Pending.v ===== *)
(** * The pending-handshake ledger ([src/protocol/handshake.c], first part)

    A bounded, expiring, single-use table of handshake ids.  The slots live in
    the store's inline array or in an array the caller lends; [ps_slots] records
    which ([slots_ref] is the C pointer, [SlotsNull] its NULL) and [ps_ext] is
    the contents of the lent array.  A clock callback with its context is a
    computation [M Z].  The abstract view [ledger] is a finite map from ids to
    entries; the operations refine the [led_*] map operations. *)

From S2P Require Import Prelude Extern Toy Crypto Transcript.

Definition HANDSHAKE_PENDING_MAX : Z := 256.
Definition HANDSHAKE_PENDING_EXT_MAX : Z := 2048.
Definition HANDSHAKE_AUTH_FAILURE_LIMIT : Z := 3.
Definition HANDSHAKE_TRANSCRIPT_HASH_BYTES : Z := 32.

Inductive pending_slot_state_t :=
  | PENDING_SLOT_FREE | PENDING_SLOT_ACTIVE | PENDING_SLOT_CONSUMED | PENDING_SLOT_AUTH_LIMITED
  | PENDING_SLOT_EXPIRED.

Inductive pending_status_t :=
  | PENDING_OK | PENDING_ERR_INVALID_ARG | PENDING_ERR_NOT_FOUND | PENDING_ERR_EXPIRED
  | PENDING_ERR_CONSUMED | PENDING_ERR_AUTH_LIMIT | PENDING_ERR_FULL.

#[export] Instance pending_slot_state_eq_dec : EqDecision pending_slot_state_t.
Proof. solve_decision. Defined.
#[export] Instance pending_status_eq_dec : EqDecision pending_status_t.
Proof. solve_decision. Defined.

Record handshake_pending_entry_t := PendingEntry {
  pe_state : pending_slot_state_t; pe_handshake_id : list byte; pe_th_client_auth : list byte;
  pe_deadline_ms : Z; pe_failure_count : Z }.

#[export] Instance pending_entry_eq_dec : EqDecision handshake_pending_entry_t.
Proof. solve_decision. Defined.

Inductive slots_ref := SlotsNull | SlotsInline | SlotsExt.

Record handshake_pending_store_t `{Env} := PendingStore {
  ps_entries : list handshake_pending_entry_t; ps_slots : slots_ref;
  ps_ext : list handshake_pending_entry_t; ps_capacity : Z; ps_ttl_ms : Z;
  ps_clock_fn : option (M Z) }.

Definition pending_entry_zero : handshake_pending_entry_t :=
  PendingEntry PENDING_SLOT_FREE (zeros WIRE_HANDSHAKE_ID_LEN) (zeros HANDSHAKE_TRANSCRIPT_HASH_BYTES) 0 0.

Section pending.
Context `{E : Env}.
Implicit Types (s : handshake_pending_store_t) (e : handshake_pending_entry_t).

(** ** Helpers *)
Definition default_monotonic_ms : M Z :=
  ts ← clock_gettime;
  match ts with
  | None => mret UINT64_MAX
  | Some (tv_sec, tv_nsec) => mret (u64 (u64 (u64 tv_sec * 1000) + u64 tv_nsec `div` 1000000))
  end.

Definition handshake_default_clock_ms : M Z := default_monotonic_ms.

Definition cap_limit_for (slots : slots_ref) : Z :=
  match slots with SlotsInline => HANDSHAKE_PENDING_MAX | _ => HANDSHAKE_PENDING_EXT_MAX end.

Definition store_usable (s : option handshake_pending_store_t) : bool :=
  match s with
  | None => false
  | Some s =>
    match ps_slots s with SlotsNull => false | _ => true end &&
    match ps_clock_fn s with None => false | Some _ => true end &&
    (1 <=? ps_capacity s) && (ps_capacity s <=? cap_limit_for (ps_slots s)) && (0 <? ps_ttl_ms s)
  end.

Definition store_now s : M Z :=
  match ps_clock_fn s with Some f => f | None => mret 0 end.

Definition entry_expired e (now : Z) : bool := pe_deadline_ms e <=? now.

Definition free_slot (e : handshake_pending_entry_t) : handshake_pending_entry_t := pending_entry_zero.

Definition tombstone e (state : pending_slot_state_t) : handshake_pending_entry_t :=
  PendingEntry state (pe_handshake_id e) (zeros HANDSHAKE_TRANSCRIPT_HASH_BYTES)
    (pe_deadline_ms e) (pe_failure_count e).

(** The array [s->slots] points to, its first [s->capacity] elements (the only
    ones accessed), and a store with one slot or all of them rewritten. *)
Definition slot_array s : list handshake_pending_entry_t :=
  match ps_slots s with SlotsNull => [] | SlotsInline => ps_entries s | SlotsExt => ps_ext s end.

Definition active_slots s : list handshake_pending_entry_t := ztake (ps_capacity s) (slot_array s).

Definition set_slots s (l : list handshake_pending_entry_t) : handshake_pending_store_t :=
  let l' := l ++ zdrop (ps_capacity s) (slot_array s) in
  match ps_slots s with
  | SlotsNull => s
  | SlotsInline => PendingStore _ l' SlotsInline (ps_ext s) (ps_capacity s) (ps_ttl_ms s) (ps_clock_fn s)
  | SlotsExt => PendingStore _ (ps_entries s) SlotsExt l' (ps_capacity s) (ps_ttl_ms s) (ps_clock_fn s)
  end.

Definition set_slot s (i : nat) e : handshake_pending_store_t := set_slots s (<[i := e]> (active_slots s)).

Definition in_use e : bool := negb (bool_decide (pe_state e = PENDING_SLOT_FREE)).

(** One iteration of the scan: (found, index, i). *)
Definition find_step (id : list byte) (acc : bool * nat * nat) e : bool * nat * nat :=
  let '(found, index, i) := acc in
  let equal := memeq (pe_handshake_id e) id WIRE_HANDSHAKE_ID_LEN in
  if in_use e && equal && negb found then (true, i, S i) else (found, index, S i).

Definition find_slot s (id : list byte) : option nat :=
  let '(found, index, _) := foldl (find_step id) (false, 0%nat, 0%nat) (active_slots s) in
  if found then Some index else None.

(** ** Initialisation and wiping *)
Definition pending_store_zero (ext : list handshake_pending_entry_t) : handshake_pending_store_t :=
  PendingStore _ (replicate (Z.to_nat HANDSHAKE_PENDING_MAX) pending_entry_zero) SlotsNull ext 0 0 None.

(** [memset(l, 0, n * sizeof( *l))]. *)
Definition zero_slots (n : Z) (l : list handshake_pending_entry_t) : list handshake_pending_entry_t :=
  replicate (Z.to_nat n) pending_entry_zero ++ zdrop n l.

Definition store_init_common (s : option handshake_pending_store_t) (slots : slots_ref)
    (ext : list handshake_pending_entry_t) (capacity ttl_ms : Z) (clock_fn : option (M Z))
    : pending_status_t * option handshake_pending_store_t :=
  match s with
  | None => (PENDING_ERR_INVALID_ARG, None)
  | Some _ =>
    let z := pending_store_zero ext in
    if match slots with SlotsNull => true | _ => false end || (capacity <? 1)
       || (cap_limit_for slots <? capacity) || (ttl_ms =? 0)
    then (PENDING_ERR_INVALID_ARG, Some z) else
    let clock := match clock_fn with Some f => f | None => default_monotonic_ms end in
    let inline := match slots with SlotsInline => zero_slots capacity (ps_entries z) | _ => ps_entries z end in
    let ext' := match slots with SlotsExt => zero_slots capacity ext | _ => ext end in
    (PENDING_OK, Some (PendingStore _ inline slots ext' capacity ttl_ms (Some clock)))
  end.

Definition handshake_pending_store_init (s : option handshake_pending_store_t) (capacity ttl_ms : Z)
    (clock_fn : option (M Z)) : pending_status_t * option handshake_pending_store_t :=
  match s with
  | None => (PENDING_ERR_INVALID_ARG, None)
  | Some st => store_init_common s SlotsInline (ps_ext st) capacity ttl_ms clock_fn
  end.

(** [slots] is the caller's array, [None] for NULL. *)
Definition handshake_pending_store_init_ext (s : option handshake_pending_store_t)
    (slots : option (list handshake_pending_entry_t)) (capacity ttl_ms : Z) (clock_fn : option (M Z))
    : pending_status_t * option handshake_pending_store_t :=
  match slots with
  | None => store_init_common s SlotsNull (default [] (ps_ext <$> s)) capacity ttl_ms clock_fn
  | Some ext => store_init_common s SlotsExt ext capacity ttl_ms clock_fn
  end.

Definition handshake_pending_store_wipe (s : option handshake_pending_store_t)
    : option handshake_pending_store_t :=
  match s with
  | None => None
  | Some s =>
    let ext := match ps_slots s with SlotsExt => zero_slots (ps_capacity s) (ps_ext s) | _ => ps_ext s end in
    Some (pending_store_zero ext)
  end.

(** ** Ledger operations *)
Definition sweep_slots (now : Z) (l : list handshake_pending_entry_t) : list handshake_pending_entry_t :=
  (fun e => if in_use e && entry_expired e now then free_slot e else e) <$> l.

Definition handshake_pending_sweep (s : option handshake_pending_store_t)
    : M (option handshake_pending_store_t) :=
  match s with
  | Some st =>
    if negb (store_usable s) then mret s else
    now ← store_now st;
    mret (Some (set_slots st (sweep_slots now (active_slots st))))
  | None => mret s
  end.

Definition saturating_deadline (now ttl_ms : Z) : Z :=
  if UINT64_MAX - ttl_ms <? now then UINT64_MAX else now + ttl_ms.

Definition handshake_pending_insert (s : option handshake_pending_store_t)
    (handshake_id th_client_auth : list byte) : M (pending_status_t * option handshake_pending_store_t) :=
  if negb (store_usable s) then mret (PENDING_ERR_INVALID_ARG, s) else
  s ← handshake_pending_sweep s;
  match s with
  | None => mret (PENDING_ERR_INVALID_ARG, s)
  | Some st =>
    match find_slot st handshake_id with
    | Some _ => mret (PENDING_ERR_INVALID_ARG, s)
    | None =>
      now ← store_now st;
      let deadline := saturating_deadline now (ps_ttl_ms st) in
      match list_find (fun e => pe_state e = PENDING_SLOT_FREE) (active_slots st) with
      | Some (i, e) =>
        let e' := PendingEntry PENDING_SLOT_ACTIVE
          (poke 0 (ztake WIRE_HANDSHAKE_ID_LEN handshake_id) (pe_handshake_id e))
          (poke 0 (ztake HANDSHAKE_TRANSCRIPT_HASH_BYTES th_client_auth) (pe_th_client_auth e)) deadline 0 in
        mret (PENDING_OK, Some (set_slot st i e'))
      | None => mret (PENDING_ERR_FULL, s)
      end
    end
  end.

Definition nth_slot s (i : nat) : handshake_pending_entry_t := nth i (active_slots s) pending_entry_zero.

(** The digest buffer the caller passes is zeroed first; result: status, store,
    buffer. *)
Definition handshake_pending_get_digest (s : option handshake_pending_store_t) (handshake_id : list byte)
    : M (pending_status_t * option handshake_pending_store_t * list byte) :=
  let th_out := zeros HANDSHAKE_TRANSCRIPT_HASH_BYTES in
  match s with
  | Some st =>
    if negb (store_usable s) then mret (PENDING_ERR_INVALID_ARG, s, th_out) else
    match find_slot st handshake_id with
    | None => mret (PENDING_ERR_NOT_FOUND, s, th_out)
    | Some index =>
      let e := nth_slot st index in
      now ← store_now st;
      if entry_expired e now then
        mret (PENDING_ERR_EXPIRED, Some (set_slot st index (free_slot e)), th_out) else
      if decide (pe_state e = PENDING_SLOT_CONSUMED) then mret (PENDING_ERR_CONSUMED, s, th_out) else
      if decide (pe_state e = PENDING_SLOT_AUTH_LIMITED) then mret (PENDING_ERR_AUTH_LIMIT, s, th_out) else
      mret (PENDING_OK, s, pe_th_client_auth e)
    end
  | None => mret (PENDING_ERR_INVALID_ARG, s, th_out)
  end.

(** Result: status, [*state_out], [*failure_count_out]; the store is const. *)
Definition handshake_pending_inspect (s : option handshake_pending_store_t) (handshake_id : list byte)
    : M (pending_status_t * pending_slot_state_t * Z) :=
  match s with
  | Some st =>
    if negb (store_usable s) then mret (PENDING_ERR_INVALID_ARG, PENDING_SLOT_FREE, 0) else
    match find_slot st handshake_id with
    | None => mret (PENDING_ERR_NOT_FOUND, PENDING_SLOT_FREE, 0)
    | Some index =>
      let e := nth_slot st index in
      now ← store_now st;
      if entry_expired e now then mret (PENDING_ERR_EXPIRED, PENDING_SLOT_EXPIRED, pe_failure_count e) else
      if decide (pe_state e = PENDING_SLOT_CONSUMED)
      then mret (PENDING_ERR_CONSUMED, pe_state e, pe_failure_count e) else
      if decide (pe_state e = PENDING_SLOT_AUTH_LIMITED)
      then mret (PENDING_ERR_AUTH_LIMIT, pe_state e, pe_failure_count e) else
      mret (PENDING_OK, pe_state e, pe_failure_count e)
    end
  | None => mret (PENDING_ERR_INVALID_ARG, PENDING_SLOT_FREE, 0)
  end.

Definition handshake_pending_record_failure (s : option handshake_pending_store_t)
    (handshake_id : list byte) : M (pending_status_t * option handshake_pending_store_t) :=
  match s with
  | Some st =>
    if negb (store_usable s) then mret (PENDING_ERR_INVALID_ARG, s) else
    match find_slot st handshake_id with
    | None => mret (PENDING_ERR_NOT_FOUND, s)
    | Some index =>
      let e := nth_slot st index in
      now ← store_now st;
      if entry_expired e now then mret (PENDING_ERR_EXPIRED, Some (set_slot st index (free_slot e))) else
      if decide (pe_state e = PENDING_SLOT_CONSUMED) then mret (PENDING_ERR_CONSUMED, s) else
      if decide (pe_state e = PENDING_SLOT_AUTH_LIMITED) then mret (PENDING_ERR_AUTH_LIMIT, s) else
      let e := PendingEntry (pe_state e) (pe_handshake_id e) (pe_th_client_auth e) (pe_deadline_ms e)
                 ((pe_failure_count e + 1) mod 2 ^ 8) in
      if HANDSHAKE_AUTH_FAILURE_LIMIT <=? pe_failure_count e
      then mret (PENDING_ERR_AUTH_LIMIT, Some (set_slot st index (tombstone e PENDING_SLOT_AUTH_LIMITED)))
      else mret (PENDING_OK, Some (set_slot st index e))
    end
  | None => mret (PENDING_ERR_INVALID_ARG, s)
  end.

Definition handshake_pending_consume_success (s : option handshake_pending_store_t)
    (handshake_id : list byte) : M (pending_status_t * option handshake_pending_store_t) :=
  match s with
  | Some st =>
    if negb (store_usable s) then mret (PENDING_ERR_INVALID_ARG, s) else
    match find_slot st handshake_id with
    | None => mret (PENDING_ERR_NOT_FOUND, s)
    | Some index =>
      let e := nth_slot st index in
      now ← store_now st;
      if entry_expired e now then mret (PENDING_ERR_EXPIRED, Some (set_slot st index (free_slot e))) else
      if decide (pe_state e = PENDING_SLOT_CONSUMED) then mret (PENDING_ERR_CONSUMED, s) else
      if decide (pe_state e = PENDING_SLOT_AUTH_LIMITED) then mret (PENDING_ERR_AUTH_LIMIT, s) else
      mret (PENDING_OK, Some (set_slot st index (tombstone e PENDING_SLOT_CONSUMED)))
    end
  | None => mret (PENDING_ERR_INVALID_ARG, s)
  end.

Definition handshake_pending_cancel (s : option handshake_pending_store_t)
    (handshake_id : list byte) : M (pending_status_t * option handshake_pending_store_t) :=
  match s with
  | Some st =>
    if negb (store_usable s) then mret (PENDING_ERR_INVALID_ARG, s) else
    match find_slot st handshake_id with
    | None => mret (PENDING_ERR_NOT_FOUND, s)
    | Some index =>
      let e := nth_slot st index in
      now ← store_now st;
      if entry_expired e now then mret (PENDING_ERR_EXPIRED, Some (set_slot st index (free_slot e))) else
      if decide (pe_state e = PENDING_SLOT_CONSUMED) then mret (PENDING_ERR_CONSUMED, s) else
      if decide (pe_state e = PENDING_SLOT_AUTH_LIMITED) then mret (PENDING_ERR_AUTH_LIMIT, s) else
      mret (PENDING_OK, Some (set_slot st index (free_slot e)))
    end
  | None => mret (PENDING_ERR_INVALID_ARG, s)
  end.

Definition handshake_pending_active_count (s : option handshake_pending_store_t) : M Z :=
  match s with
  | Some st =>
    if negb (store_usable s) then mret 0 else
    now ← store_now st;
    mret (blen (filter (fun e => pe_state e = PENDING_SLOT_ACTIVE /\ entry_expired e now = false)
            (active_slots st)))
  | None => mret 0
  end.

(** ** Invariant and abstraction *)
Definition entry_slot e : option (list byte * handshake_pending_entry_t) :=
  if in_use e then Some (pe_handshake_id e, e) else None.

Definition ledger s : gmap (list byte) handshake_pending_entry_t := table entry_slot (active_slots s).

Record entry_wf e : Prop := {
  ewf_id : blen (pe_handshake_id e) = WIRE_HANDSHAKE_ID_LEN;
  ewf_th : blen (pe_th_client_auth e) = HANDSHAKE_TRANSCRIPT_HASH_BYTES;
  ewf_deadline : 0 <= pe_deadline_ms e <= UINT64_MAX;
  ewf_state : match pe_state e with
    | PENDING_SLOT_FREE => True
    | PENDING_SLOT_ACTIVE => 0 <= pe_failure_count e < HANDSHAKE_AUTH_FAILURE_LIMIT
    | PENDING_SLOT_CONSUMED =>
        0 <= pe_failure_count e < HANDSHAKE_AUTH_FAILURE_LIMIT /\
        pe_th_client_auth e = zeros HANDSHAKE_TRANSCRIPT_HASH_BYTES
    | PENDING_SLOT_AUTH_LIMITED =>
        pe_failure_count e = HANDSHAKE_AUTH_FAILURE_LIMIT /\
        pe_th_client_auth e = zeros HANDSHAKE_TRANSCRIPT_HASH_BYTES
    | PENDING_SLOT_EXPIRED => False
    end }.

(** A clock returns a [uint64_t]. *)
Definition clock_u64 (f : M Z) : Prop := forall w, 0 <= (f w).1 <= UINT64_MAX.

Record store_ok s : Prop := {
  sok_usable : store_usable (Some s) = true;
  sok_room : ps_capacity s <= blen (slot_array s);
  sok_ttl : ps_ttl_ms s <= UINT64_MAX;
  sok_clock : clock_u64 (store_now s);
  sok_entries : Forall entry_wf (active_slots s);
  sok_distinct : distinct entry_slot (active_slots s) }.

(** What no ledger operation changes. *)
Definition same_frame s s' : Prop :=
  ps_slots s' = ps_slots s /\ ps_capacity s' = ps_capacity s /\ ps_ttl_ms s' = ps_ttl_ms s /\
  ps_clock_fn s' = ps_clock_fn s.

(** ** The abstract ledger: operations on the map *)
Section abstract.
Context (clock : M Z) (capacity ttl_ms : Z).
Implicit Types m : gmap (list byte) handshake_pending_entry_t.

(** What an operation does to a live entry: a status, and the new entry or
    [None] to drop it. *)
Definition led_touch (act : handshake_pending_entry_t -> pending_status_t * option handshake_pending_entry_t)
    m (id : list byte) : M (pending_status_t * gmap (list byte) handshake_pending_entry_t) :=
  match m !! id with
  | None => mret (PENDING_ERR_NOT_FOUND, m)
  | Some e =>
    now ← clock;
    if decide (pe_deadline_ms e <= now) then mret (PENDING_ERR_EXPIRED, delete id m) else
    match pe_state e with
    | PENDING_SLOT_CONSUMED => mret (PENDING_ERR_CONSUMED, m)
    | PENDING_SLOT_AUTH_LIMITED => mret (PENDING_ERR_AUTH_LIMIT, m)
    | _ => mret ((act e).1, match (act e).2 with Some e' => <[id := e']> m | None => delete id m end)
    end
  end.

Definition act_digest e : pending_status_t * option handshake_pending_entry_t := (PENDING_OK, Some e).
Definition act_cancel e : pending_status_t * option handshake_pending_entry_t := (PENDING_OK, None).
Definition act_consume e : pending_status_t * option handshake_pending_entry_t :=
  (PENDING_OK, Some (tombstone e PENDING_SLOT_CONSUMED)).
Definition bump e : handshake_pending_entry_t :=
  PendingEntry (pe_state e) (pe_handshake_id e) (pe_th_client_auth e) (pe_deadline_ms e)
    (pe_failure_count e + 1).
Definition act_failure e : pending_status_t * option handshake_pending_entry_t :=
  if decide (pe_failure_count e + 1 < HANDSHAKE_AUTH_FAILURE_LIMIT) then (PENDING_OK, Some (bump e))
  else (PENDING_ERR_AUTH_LIMIT, Some (tombstone (bump e) PENDING_SLOT_AUTH_LIMITED)).

Definition led_live (now : Z) m : gmap (list byte) handshake_pending_entry_t :=
  filter (fun p => now < pe_deadline_ms p.2) m.

Definition led_sweep m : M (pending_status_t * gmap (list byte) handshake_pending_entry_t) :=
  now ← clock; mret (PENDING_OK, led_live now m).

Definition led_insert m (id th : list byte)
    : M (pending_status_t * gmap (list byte) handshake_pending_entry_t) :=
  now ← clock;
  let m := led_live now m in
  match m !! id with
  | Some _ => mret (PENDING_ERR_INVALID_ARG, m)
  | None =>
    now ← clock;
    if decide (capacity <= Z.of_nat (size m)) then mret (PENDING_ERR_FULL, m)
    else mret (PENDING_OK,
      <[id := PendingEntry PENDING_SLOT_ACTIVE id th (Z.min UINT64_MAX (now + ttl_ms)) 0]> m)
  end.

End abstract.

(** ** Operation sequences *)
Inductive ledger_op :=
  | OpInsert (id th : list byte) | OpDigest (id : list byte) | OpFailure (id : list byte)
  | OpConsume (id : list byte) | OpCancel (id : list byte) | OpSweep.

Definition exec_op (op : ledger_op) (s : option handshake_pending_store_t)
    : M (pending_status_t * option handshake_pending_store_t) :=
  match op with
  | OpInsert id th => handshake_pending_insert s id th
  | OpDigest id => r ← handshake_pending_get_digest s id; mret r.1
  | OpFailure id => handshake_pending_record_failure s id
  | OpConsume id => handshake_pending_consume_success s id
  | OpCancel id => handshake_pending_cancel s id
  | OpSweep => s ← handshake_pending_sweep s; mret (PENDING_OK, s)
  end.

Definition spec_op (clock : M Z) (capacity ttl_ms : Z) (op : ledger_op)
    (m : gmap (list byte) handshake_pending_entry_t)
    : M (pending_status_t * gmap (list byte) handshake_pending_entry_t) :=
  match op with
  | OpInsert id th => led_insert clock capacity ttl_ms m id th
  | OpDigest id => led_touch clock act_digest m id
  | OpFailure id => led_touch clock act_failure m id
  | OpConsume id => led_touch clock act_consume m id
  | OpCancel id => led_touch clock act_cancel m id
  | OpSweep => led_sweep clock m
  end.

Definition op_sized (op : ledger_op) : Prop :=
  match op with
  | OpInsert id th => blen id = WIRE_HANDSHAKE_ID_LEN /\ blen th = HANDSHAKE_TRANSCRIPT_HASH_BYTES
  | OpDigest id | OpFailure id | OpConsume id | OpCancel id => blen id = WIRE_HANDSHAKE_ID_LEN
  | OpSweep => True
  end.

(** ** Lemmas: slots *)
Lemma length_active_slots s : store_ok s -> blen (active_slots s) = ps_capacity s.
Proof.
  intros [Hu Hr _ _ _]. unfold active_slots, store_usable in *. rewrite length_take. lia.
Qed.

Lemma usable_frame s s' : same_frame s s' -> store_usable (Some s') = store_usable (Some s).
Proof. intros (H1 & H2 & H3 & H4). unfold store_usable. by rewrite H1, H2, H3, H4. Qed.

Lemma set_slots_frame s l : same_frame s (set_slots s l).
Proof. unfold same_frame, set_slots. by destruct (ps_slots s) eqn:?. Qed.

Lemma usable_slots s : store_usable (Some s) = true -> ps_slots s <> SlotsNull.
Proof. unfold store_usable. by destruct (ps_slots s). Qed.

Lemma set_slots_array s l :
  ps_slots s <> SlotsNull -> slot_array (set_slots s l) = l ++ zdrop (ps_capacity s) (slot_array s).
Proof. intros H. unfold set_slots, slot_array. by destruct (ps_slots s). Qed.

(** Rewriting the slots with well-formed, distinct ones keeps the store in order. *)
Lemma set_slots_ok s l :
  store_ok s -> length l = length (active_slots s) -> Forall entry_wf l -> distinct entry_slot l ->
  store_ok (set_slots s l) /\ active_slots (set_slots s l) = l /\ same_frame s (set_slots s l).
Proof.
  intros Hok Hl Hwf Hd. pose proof (set_slots_frame s l) as Hf. pose proof Hf as (H1 & H2 & H3 & H4).
  pose proof (length_active_slots s Hok) as Hc.
  assert (Ha : active_slots (set_slots s l) = l).
  { unfold active_slots at 1. rewrite H2, set_slots_array by apply usable_slots, Hok.
    rewrite take_app_length'; [done|lia]. }
  split; [|done]. split; rewrite ?Ha; try done.
  - by rewrite (usable_frame _ _ Hf); apply Hok.
  - rewrite H2, set_slots_array by apply usable_slots, Hok. rewrite length_app. lia.
  - rewrite H3. apply Hok.
  - unfold store_now. rewrite H4. apply Hok.
Qed.

Lemma find_fold id l found idx i :
  foldl (find_step id) (found, idx, i) l =
    (if found then (true, idx, (i + length l)%nat)
     else match list_find (fun e => in_use e && memeq (pe_handshake_id e) id WIRE_HANDSHAKE_ID_LEN = true) l with
          | Some (j, _) => (true, (i + j)%nat, (i + length l)%nat)
          | None => (false, idx, (i + length l)%nat)
          end).
Proof.
  revert found idx i. induction l as [|e l IH]; intros found idx i.
  - simpl. rewrite Nat.add_0_r. by destruct found.
  - cbn [foldl]. cbn [list_find]. unfold find_step at 2.
    destruct (in_use e && memeq _ _ _) eqn:He, found; cbv beta iota zeta; cbn [andb negb];
      rewrite IH; simpl length.
    all: rewrite <-Nat.add_succ_comm.
    1,3: done.
    + rewrite decide_True by done. by rewrite Nat.add_0_r.
    + rewrite decide_False by done. destruct (list_find _ l) as [[j e']|]; simpl; [|done].
      by rewrite Nat.add_succ_r.
Qed.

Lemma nth_slot_lookup s i e : active_slots s !! i = Some e -> nth_slot s i = e.
Proof. apply nth_lookup_Some. Qed.

Lemma find_slot_ledger s id :
  store_ok s -> blen id = WIRE_HANDSHAKE_ID_LEN ->
  match find_slot s id with
  | Some i => active_slots s !! i = Some (nth_slot s i) /\
      entry_slot (nth_slot s i) = Some (id, nth_slot s i) /\ ledger s !! id = Some (nth_slot s i)
  | None => ledger s !! id = None
  end.
Proof.
  intros Hok Hid. unfold find_slot. rewrite find_fold.
  destruct (list_find _ _) as [[i e]|] eqn:Hf; cbv beta iota zeta.
  - apply list_find_Some in Hf as (Hi & Hm & _). simpl Nat.add.
    rewrite (nth_slot_lookup _ _ _ Hi).
    apply andb_true_iff in Hm as [Hu Hm].
    pose proof (Forall_lookup_1 _ _ _ _ (sok_entries _ Hok) Hi) as Hwf.
    apply memeq_true in Hm; [|apply Hwf|done]. subst id.
    assert (Hs : entry_slot e = Some (pe_handshake_id e, e)) by (unfold entry_slot; by rewrite Hu).
    split_and!; [done..|]. eapply table_find; [apply Hok|done..].
  - apply list_find_None in Hf. apply table_none.
    apply Forall_lookup_2. intros i e Hi v. pose proof (Forall_lookup_1 _ _ _ _ Hf Hi) as Hn. simpl in Hn.
    pose proof (Forall_lookup_1 _ _ _ _ (sok_entries _ Hok) Hi) as Hwf.
    unfold entry_slot. destruct (in_use e) eqn:Hu; [|done]. intros [= <- _]. apply Hn. simpl.
    apply memeq_true; [apply Hwf..|done].
Qed.

Lemma set_slot_update s i e e' id :
  store_ok s -> active_slots s !! i = Some e -> entry_slot e = Some (id, e) ->
  entry_slot e' = Some (id, e') -> entry_wf e' ->
  store_ok (set_slot s i e') /\ ledger (set_slot s i e') = <[id := e']> (ledger s) /\
  same_frame s (set_slot s i e').
Proof.
  intros Hok Hi He He' Hwf. destruct (table_update entry_slot (active_slots s) i e e' id e e') as [Hd Ht];
    [apply Hok|done..|].
  destruct (set_slots_ok s (<[i := e']> (active_slots s))) as (H1 & H2 & H3);
    [done|by rewrite length_insert|apply Forall_insert; [apply Hok|done]|done|].
  unfold set_slot. split; [done|]. split; [|done]. unfold ledger. by rewrite H2.
Qed.

Lemma set_slot_clear s i e id :
  store_ok s -> active_slots s !! i = Some e -> entry_slot e = Some (id, e) ->
  store_ok (set_slot s i (free_slot e)) /\ ledger (set_slot s i (free_slot e)) = delete id (ledger s) /\
  same_frame s (set_slot s i (free_slot e)).
Proof.
  intros Hok Hi He.
  destruct (table_clear entry_slot (active_slots s) i e (free_slot e) id e) as [Hd Ht]; [apply Hok|done..|].
  destruct (set_slots_ok s (<[i := free_slot e]> (active_slots s))) as (H1 & H2 & H3);
    [done|by rewrite length_insert|apply Forall_insert; [apply Hok|by split]|done|].
  unfold set_slot. split; [done|]. split; [|done]. unfold ledger. by rewrite H2.
Qed.

(** ** Lemmas: refinement of the map operations *)
Definition refines s (op : M (pending_status_t * option handshake_pending_store_t))
    (spec : M (pending_status_t * gmap (list byte) handshake_pending_entry_t)) : Prop :=
  forall w, exists r s' w', op w = ((r, Some s'), w') /\ spec w = ((r, ledger s'), w') /\
    store_ok s' /\ same_frame s s'.

Lemma same_frame_refl s : same_frame s s.
Proof. done. Qed.
Lemma same_frame_trans s1 s2 s3 : same_frame s1 s2 -> same_frame s2 s3 -> same_frame s1 s3.
Proof. intros (?&?&?&?) (?&?&?&?). split_and!; congruence. Qed.

(** The common shape of the operations on one id: absent, expired (slot freed),
    tombstoned, or [k] on a live entry. *)
Definition touch s (id : list byte)
    (k : handshake_pending_entry_t -> nat -> M (pending_status_t * option handshake_pending_store_t))
    : M (pending_status_t * option handshake_pending_store_t) :=
  match find_slot s id with
  | None => mret (PENDING_ERR_NOT_FOUND, Some s)
  | Some index =>
    let e := nth_slot s index in
    now ← store_now s;
    if entry_expired e now then mret (PENDING_ERR_EXPIRED, Some (set_slot s index (free_slot e))) else
    if decide (pe_state e = PENDING_SLOT_CONSUMED) then mret (PENDING_ERR_CONSUMED, Some s) else
    if decide (pe_state e = PENDING_SLOT_AUTH_LIMITED) then mret (PENDING_ERR_AUTH_LIMIT, Some s) else
    k e index
  end.

Lemma touch_refines s id k act :
  store_ok s -> blen id = WIRE_HANDSHAKE_ID_LEN ->
  (forall i e, active_slots s !! i = Some e -> entry_slot e = Some (id, e) ->
     pe_state e = PENDING_SLOT_ACTIVE -> entry_wf e ->
     exists s', k e i = mret ((act e).1, Some s') /\ store_ok s' /\
       ledger s' = match (act e).2 with Some e' => <[id := e']> (ledger s) | None => delete id (ledger s) end /\
       same_frame s s') ->
  refines s (touch s id k) (led_touch (store_now s) act (ledger s) id).
Proof.
  intros Hok Hid Hk w. unfold touch, led_touch. pose proof (find_slot_ledger s id Hok Hid) as Hf.
  destruct (find_slot s id) as [i|]; [destruct Hf as (Hi & Hs & ->)|rewrite Hf]; cycle 1.
  { exists PENDING_ERR_NOT_FOUND, s, w. by split_and!. }
  set (e := nth_slot s i) in *. cbv zeta. rewrite !M_bind_unfold.
  destruct (store_now s w) as [now w']. cbn [fst snd].
  unfold entry_expired. destruct (decide (pe_deadline_ms e <= now)) as [Hx|Hx].
  { rewrite (proj2 (Z.leb_le _ _) Hx). destruct (set_slot_clear s i e id Hok Hi Hs) as (H1 & H2 & H3).
    eexists _, _, _. rewrite H2. by split_and!. }
  rewrite (proj2 (Z.leb_gt _ _)) by lia.
  pose proof (Forall_lookup_1 _ _ _ _ (sok_entries _ Hok) Hi) as Hwf. pose proof (ewf_state _ Hwf) as Hst.
  destruct (pe_state e) eqn:He; try done.
  - unfold entry_slot, in_use in Hs. by rewrite He in Hs.
  - destruct (Hk i e Hi Hs He Hwf) as (s' & Heq & H1 & H2 & H3).
    rewrite !decide_False by done. rewrite Heq. eexists _, _, _. rewrite H2. by split_and!.
  - eexists _, _, _. by split_and!.
  - eexists _, _, _. by split_and!.
Qed.

Lemma in_use_active e : pe_state e = PENDING_SLOT_ACTIVE -> in_use e = true.
Proof. unfold in_use. by intros ->. Qed.

Lemma entry_slot_id e id : entry_slot e = Some (id, e) -> pe_handshake_id e = id.
Proof. unfold entry_slot. case_match; by intros [= ->]. Qed.

Lemma wf_tombstone e st :
  entry_wf e ->
  (st = PENDING_SLOT_CONSUMED /\ 0 <= pe_failure_count e < HANDSHAKE_AUTH_FAILURE_LIMIT) \/
  (st = PENDING_SLOT_AUTH_LIMITED /\ pe_failure_count e = HANDSHAKE_AUTH_FAILURE_LIMIT) ->
  entry_wf (tombstone e st).
Proof. intros [H1 H2 H3 _] [[-> ?]|[-> ?]]; by split. Qed.

Lemma set_slot_tombstone s i e id e0 st :
  store_ok s -> active_slots s !! i = Some e0 -> entry_slot e0 = Some (id, e0) ->
  pe_handshake_id e = id -> st <> PENDING_SLOT_FREE -> entry_wf (tombstone e st) ->
  store_ok (set_slot s i (tombstone e st)) /\
  ledger (set_slot s i (tombstone e st)) = <[id := tombstone e st]> (ledger s) /\
  same_frame s (set_slot s i (tombstone e st)).
Proof.
  intros Hok Hi Hs He Hst Hwf. eapply set_slot_update; try done.
  unfold entry_slot, in_use. simpl. rewrite bool_decide_eq_false_2 by done. simpl. by rewrite He.
Qed.

Lemma consume_refines s id :
  store_ok s -> blen id = WIRE_HANDSHAKE_ID_LEN ->
  refines s (handshake_pending_consume_success (Some s) id) (led_touch (store_now s) act_consume (ledger s) id).
Proof.
  intros Hok Hid. unfold handshake_pending_consume_success. rewrite (sok_usable _ Hok).
  apply (touch_refines s id (fun e i =>
    mret (PENDING_OK, Some (set_slot s i (tombstone e PENDING_SLOT_CONSUMED))))); [done..|].
  intros i e Hi Hs Ha Hwf. eexists. split; [done|].
  pose proof (ewf_state _ Hwf) as Hst. rewrite Ha in Hst.
  eapply set_slot_tombstone; [done..|by apply entry_slot_id|done|]. apply wf_tombstone; [done|by left].
Qed.

Lemma cancel_refines s id :
  store_ok s -> blen id = WIRE_HANDSHAKE_ID_LEN ->
  refines s (handshake_pending_cancel (Some s) id) (led_touch (store_now s) act_cancel (ledger s) id).
Proof.
  intros Hok Hid. unfold handshake_pending_cancel. rewrite (sok_usable _ Hok).
  apply (touch_refines s id (fun e i => mret (PENDING_OK, Some (set_slot s i (free_slot e))))); [done..|].
  intros i e Hi Hs Ha Hwf. eexists. split; [done|]. by apply set_slot_clear.
Qed.

Lemma failure_refines s id :
  store_ok s -> blen id = WIRE_HANDSHAKE_ID_LEN ->
  refines s (handshake_pending_record_failure (Some s) id) (led_touch (store_now s) act_failure (ledger s) id).
Proof.
  intros Hok Hid. unfold handshake_pending_record_failure. rewrite (sok_usable _ Hok).
  refine (touch_refines s id (fun e i => _) act_failure Hok Hid _).
  intros i e Hi Hs Ha Hwf. pose proof (ewf_state _ Hwf) as Hst. rewrite Ha in Hst.
  unfold HANDSHAKE_AUTH_FAILURE_LIMIT in Hst. rewrite (nth_slot_lookup _ _ _ Hi). cbv zeta. cbn [pe_failure_count].
  rewrite (Z.mod_small (pe_failure_count e + 1)) by lia. fold (bump e). unfold act_failure.
  assert (Hbs : entry_slot (bump e) = Some (id, bump e)).
  { unfold entry_slot. rewrite in_use_active by done. simpl. by rewrite (entry_slot_id _ _ Hs). }
  case_decide as Hlim; unfold HANDSHAKE_AUTH_FAILURE_LIMIT in *.
  - rewrite (proj2 (Z.leb_gt _ _)) by lia. eexists. split; [done|]. eapply set_slot_update; try done.
    destruct Hwf. split; simpl; try done. rewrite Ha. unfold HANDSHAKE_AUTH_FAILURE_LIMIT. lia.
  - rewrite (proj2 (Z.leb_le _ _)) by lia. eexists. split; [done|].
    eapply set_slot_tombstone; [done..|by apply (entry_slot_id _ _ Hbs)|done|].
    destruct Hwf. split; simpl; try done. unfold HANDSHAKE_AUTH_FAILURE_LIMIT. split; [lia|done].
Qed.

(** The digest is only read: the store changes when the entry has expired. *)
Lemma digest_touch s id w :
  store_ok s -> blen id = WIRE_HANDSHAKE_ID_LEN ->
  let r := handshake_pending_get_digest (Some s) id w in
  let t := touch s id (fun e i => mret (PENDING_OK, Some s)) w in
  r.1.1 = t.1 /\ r.2 = t.2 /\
  r.1.2 = match t.1.1, ledger s !! id with
          | PENDING_OK, Some e => pe_th_client_auth e
          | _, _ => zeros HANDSHAKE_TRANSCRIPT_HASH_BYTES
          end.
Proof.
  intros Hok Hid. cbv zeta. unfold handshake_pending_get_digest, touch. rewrite (sok_usable _ Hok). change (negb true) with false.
  pose proof (find_slot_ledger s id Hok Hid) as Hf. cbv iota.
  destruct (find_slot s id) as [i|]; [destruct Hf as (_ & _ & ->)|by rewrite Hf].
  cbv zeta. rewrite !M_bind_unfold. destruct (store_now s w) as [now w']. cbn [fst snd].
  by repeat case_match.
Qed.

Lemma digest_refines s id :
  store_ok s -> blen id = WIRE_HANDSHAKE_ID_LEN ->
  refines s (exec_op (OpDigest id) (Some s)) (led_touch (store_now s) act_digest (ledger s) id).
Proof.
  intros Hok Hid w.
  destruct (touch_refines s id (fun e i => mret (PENDING_OK, Some s)) act_digest Hok Hid) with (w := w)
    as (r & s' & w' & H1 & H2 & H3 & H4).
  - intros i e Hi Hs Ha Hwf. exists s. split_and!; try done. simpl. symmetry. apply insert_id.
    eapply table_find; [apply Hok|done..].
  - exists r, s', w'. split_and!; try done. cbn [exec_op]. rewrite M_bind_unfold.
    destruct (digest_touch s id w Hok Hid) as (Ha & Hb & _). unfold mret, M_ret.
    by rewrite Ha, Hb, H1.
Qed.

(** Sweeping keeps exactly the bindings that have not expired. *)
Lemma sweep_entry_slot now e :
  entry_slot (if in_use e && entry_expired e now then free_slot e else e) =
    (p ← entry_slot e; if decide (now < pe_deadline_ms p.2) then Some p else None).
Proof.
  unfold entry_slot at 2. destruct (in_use e) eqn:Hu; simpl.
  - unfold entry_expired. case_decide; simpl.
    + rewrite (proj2 (Z.leb_gt _ _)) by lia. unfold entry_slot. by rewrite Hu.
    + by rewrite (proj2 (Z.leb_le _ _)) by lia.
  - unfold entry_slot. by rewrite Hu.
Qed.

Lemma sweep_bindings now l :
  bindings entry_slot (sweep_slots now l) =
    filter (fun p => now < pe_deadline_ms p.2) (bindings entry_slot l).
Proof.
  induction l as [|e l IH]; [done|]. unfold sweep_slots in *. rewrite fmap_cons.
  unfold bindings in *. cbn [omap list_omap]. rewrite sweep_entry_slot.
  destruct (entry_slot e) as [p|]; simpl; [|apply IH]. rewrite filter_cons. case_decide; [f_equal|]; apply IH.
Qed.

Lemma table_sweep now l :
  distinct entry_slot l ->
  distinct entry_slot (sweep_slots now l) /\
  table entry_slot (sweep_slots now l) = led_live now (table entry_slot l).
Proof.
  intros Hd. assert (Hd' : distinct entry_slot (sweep_slots now l)).
  { unfold distinct. rewrite sweep_bindings. eapply sublist_NoDup; [exact Hd|].
    apply fmap_sublist, sublist_filter. }
  split; [done|]. apply map_eq. intros k. apply option_eq. intros e. unfold led_live.
  rewrite map_lookup_filter_Some. unfold table. rewrite <-!elem_of_list_to_map by done.
  rewrite sweep_bindings, list_elem_of_filter. simpl. tauto.
Qed.

Lemma sweep_store s now :
  store_ok s ->
  let s' := set_slots s (sweep_slots now (active_slots s)) in
  store_ok s' /\ ledger s' = led_live now (ledger s) /\ same_frame s s'.
Proof.
  intros Hok. destruct (table_sweep now (active_slots s) (sok_distinct _ Hok)) as [Hd Ht].
  destruct (set_slots_ok s (sweep_slots now (active_slots s))) as (H1 & H2 & H3); try done.
  - unfold sweep_slots. apply length_fmap.
  - apply Forall_fmap. eapply Forall_impl; [apply Hok|]. intros e He. simpl. case_match; [by split|done].
  - split_and!; try done. unfold ledger. by rewrite H2.
Qed.

Lemma sweep_refines s :
  store_ok s -> refines s (exec_op OpSweep (Some s)) (led_sweep (store_now s) (ledger s)).
Proof.
  intros Hok w. cbn [exec_op]. unfold handshake_pending_sweep, led_sweep. rewrite (sok_usable _ Hok).
  change (negb true) with false. cbv iota. rewrite !M_bind_unfold. destruct (store_now s w) as [now w']. cbn [fst snd].
  destruct (sweep_store s now Hok) as (H1 & H2 & H3).
  eexists _, _, _. rewrite M_ret_unfold. cbn [fst snd]. rewrite H2 in *. by split_and!.
Qed.

Lemma free_slot_room s :
  store_ok s ->
  match list_find (fun e => pe_state e = PENDING_SLOT_FREE) (active_slots s) with
  | Some (i, e) => active_slots s !! i = Some e /\ entry_slot e = None /\
      Z.of_nat (size (ledger s)) < ps_capacity s
  | None => ps_capacity s <= Z.of_nat (size (ledger s))
  end.
Proof.
  intros Hok. pose proof (length_active_slots s Hok) as Hc. unfold ledger.
  rewrite table_size by apply Hok. destruct (list_find _ _) as [[i e]|] eqn:Hf.
  - apply list_find_Some in Hf as (Hi & He & _).
    assert (Hs : entry_slot e = None) by (unfold entry_slot, in_use; by rewrite He).
    split_and!; [done..|]. rewrite <-Hc. apply Nat2Z.inj_lt.
    eapply (bindings_room entry_slot _ _ _ _ Hi Hs). by eexists (tombstone e PENDING_SLOT_CONSUMED).
  - apply list_find_None in Hf. rewrite bindings_full; [lia|].
    eapply Forall_impl; [exact Hf|]. intros e He. simpl in He. unfold entry_slot, in_use.
    rewrite bool_decide_eq_false_2 by done. by eexists.
Qed.

Lemma saturating_deadline_spec now ttl :
  saturating_deadline now ttl = Z.min UINT64_MAX (now + ttl).
Proof. unfold saturating_deadline. case_match; lia. Qed.

Lemma place_entry s i e id th now :
  store_ok s -> blen id = WIRE_HANDSHAKE_ID_LEN -> blen th = HANDSHAKE_TRANSCRIPT_HASH_BYTES ->
  0 <= now -> ledger s !! id = None -> active_slots s !! i = Some e -> entry_slot e = None ->
  let e' := PendingEntry PENDING_SLOT_ACTIVE id th (Z.min UINT64_MAX (now + ps_ttl_ms s)) 0 in
  store_ok (set_slot s i e') /\ ledger (set_slot s i e') = <[id := e']> (ledger s) /\
  same_frame s (set_slot s i e').
Proof.
  intros Hok Hid Hth Hnow Hnone Hi He e'.
  assert (Httl : 0 < ps_ttl_ms s) by (pose proof (sok_usable _ Hok) as H; unfold store_usable in H; lia).
  destruct (table_fill entry_slot (active_slots s) i e e' id e') as [Hd Ht]; [apply Hok|done..|].
  destruct (set_slots_ok s (<[i := e']> (active_slots s))) as (H1 & H2 & H3); try done.
  - by rewrite length_insert.
  - apply Forall_insert; [apply Hok|]. split; simpl; try done. unfold UINT64_MAX. lia.
  - unfold set_slot. split_and!; try done. unfold ledger. by rewrite H2.
Qed.

Lemma insert_refines s id th :
  store_ok s -> blen id = WIRE_HANDSHAKE_ID_LEN -> blen th = HANDSHAKE_TRANSCRIPT_HASH_BYTES ->
  refines s (handshake_pending_insert (Some s) id th)
    (led_insert (store_now s) (ps_capacity s) (ps_ttl_ms s) (ledger s) id th).
Proof.
  intros Hok Hid Hth w. unfold handshake_pending_insert, handshake_pending_sweep, led_insert.
  rewrite (sok_usable _ Hok). change (negb true) with false. cbv iota.
  rewrite !M_bind_unfold. destruct (store_now s w) as [now1 w1]. rewrite M_ret_unfold. cbn [fst snd].
  destruct (sweep_store s now1 Hok) as (Hok1 & Hl1 & Hf1). cbv zeta in *. rewrite <-Hl1.
  set (s1 := set_slots s _) in *. pose proof Hf1 as (_ & Hc & Ht & Hk).
  pose proof (find_slot_ledger s1 id Hok1 Hid) as Hfind.
  destruct (find_slot s1 id) as [j|]; [destruct Hfind as (_ & _ & ->)|rewrite Hfind].
  { eexists _, _, _. by split_and!. }
  assert (store_now s1 = store_now s) as Hn by (unfold store_now; by rewrite Hk).
  rewrite Hn, !M_bind_unfold. pose proof (sok_clock _ Hok w1) as Hclk.
  destruct (store_now s w1) as [now2 w2]. cbn [fst snd] in *.
  pose proof (free_slot_room s1 Hok1) as Hroom. rewrite Hc in Hroom.
  destruct (list_find _ _) as [[i e]|].
  - destruct Hroom as (Hi & He & Hlt). rewrite decide_False by lia.
    pose proof (Forall_lookup_1 _ _ _ _ (sok_entries _ Hok1) Hi) as [Hei Het _ _].
    rewrite !take_all_z, !poke_0_full, saturating_deadline_spec by lia.
    destruct (place_entry s1 i e id th now2 Hok1 Hid Hth (proj1 Hclk) Hfind Hi He) as (H1 & H2 & H3).
    rewrite Ht in *. eexists _, _, _. rewrite H2. split_and!; try done. by eapply same_frame_trans.
  - rewrite decide_True by done. eexists _, _, _. by split_and!.
Qed.

(** Every operation refines its abstract counterpart. *)
Lemma exec_refines op s :
  store_ok s -> op_sized op ->
  refines s (exec_op op (Some s)) (spec_op (store_now s) (ps_capacity s) (ps_ttl_ms s) op (ledger s)).
Proof.
  intros Hok Hop. destruct op; simpl in Hop.
  - apply insert_refines; tauto.
  - by apply digest_refines.
  - by apply failure_refines.
  - by apply consume_refines.
  - by apply cancel_refines.
  - by apply sweep_refines.
Qed.

(** ** Lemmas: initialisation *)
Lemma clock_u64_default : clock_u64 default_monotonic_ms.
Proof.
  intros w. unfold default_monotonic_ms. rewrite M_bind_unfold.
  destruct (clock_gettime w) as [[[sec ns]|] w']; cbn [fst snd]; rewrite M_ret_unfold; cbn [fst]; [|by vm_compute].
  pose proof (u64_range (u64 (u64 sec * 1000) + u64 ns `div` 1000000)). unfold UINT64_MAX. lia.
Qed.

Definition clock_of (clock_fn : option (M Z)) : M Z :=
  match clock_fn with Some f => f | None => default_monotonic_ms end.

Lemma zeroed_slots_ok s :
  store_usable (Some s) = true -> ps_capacity s <= blen (slot_array s) -> ps_ttl_ms s <= UINT64_MAX ->
  clock_u64 (store_now s) ->
  active_slots s = replicate (Z.to_nat (ps_capacity s)) pending_entry_zero ->
  store_ok s /\ ledger s = ∅.
Proof.
  intros Hu Hr Ht Hc Ha.
  assert (Hb : forall n, bindings entry_slot (replicate n pending_entry_zero) = []) by (by induction n).
  split; [split; try done|]; rewrite ?Ha.
  - by apply Forall_replicate.
  - unfold distinct. rewrite Hb. apply NoDup_nil_2.
  - unfold ledger, table. by rewrite Ha, Hb.
Qed.

Lemma take_zero_slots n l : ztake n (zero_slots n l) = replicate (Z.to_nat n) pending_entry_zero.
Proof. unfold zero_slots. apply take_app_length'. by rewrite length_replicate. Qed.

Lemma init_common_ok s0 slots ext capacity ttl clock_fn :
  slots <> SlotsNull -> 1 <= capacity <= cap_limit_for slots -> 0 < ttl <= UINT64_MAX ->
  clock_u64 (clock_of clock_fn) -> (slots = SlotsExt -> capacity <= blen ext) ->
  exists s, store_init_common (Some s0) slots ext capacity ttl clock_fn = (PENDING_OK, Some s) /\
    store_ok s /\ ledger s = ∅ /\ store_now s = clock_of clock_fn /\ ps_capacity s = capacity /\
    ps_ttl_ms s = ttl /\ ps_slots s = slots.
Proof.
  intros Hs Hcap Httl Hclk Hext. unfold store_init_common.
  replace (match slots with SlotsNull => true | _ => false end) with false by (by destruct slots).
  rewrite (proj2 (Z.ltb_ge capacity 1)), (proj2 (Z.ltb_ge _ capacity)), (proj2 (Z.eqb_neq ttl 0)) by lia.
  cbn [orb]. cbv iota zeta. eexists. split; [done|]. fold (clock_of clock_fn).
  match goal with |- store_ok ?s /\ _ => assert (store_ok s /\ ledger s = ∅) as [? ?]; [|by split_and!] end.
  apply zeroed_slots_ok; cbn [ps_capacity ps_ttl_ms ps_slots ps_clock_fn store_now slot_array]; try done.
  - unfold store_usable. cbn [ps_slots ps_clock_fn ps_capacity ps_ttl_ms].
    destruct slots; [done|..]; cbn [andb]; lia.
  - unfold slot_array. cbn [ps_slots ps_entries ps_ext]. destruct slots; [done| |]; unfold zero_slots;
      rewrite length_app, length_replicate, length_drop; [|specialize (Hext eq_refl)]; lia.
  - lia.
  - unfold active_slots, slot_array. cbn [ps_slots ps_entries ps_ext ps_capacity].
    destruct slots; [done|apply take_zero_slots..].
Qed.

(** ** Lemmas: runs *)
Fixpoint run_ops (ops : list ledger_op) (s : option handshake_pending_store_t)
    : M (list (ledger_op * pending_status_t) * option handshake_pending_store_t) :=
  match ops with
  | [] => mret ([], s)
  | op :: ops =>
    r ← exec_op op s;
    rest ← run_ops ops r.2;
    mret ((op, r.1) :: rest.1, rest.2)
  end.

Definition op_target (op : ledger_op) : option (list byte) :=
  match op with
  | OpInsert id _ | OpDigest id | OpFailure id | OpConsume id | OpCancel id => Some id
  | OpSweep => None
  end.

Definition not_insert (id : list byte) (op : ledger_op) : Prop :=
  match op with OpInsert id' _ => id' <> id | _ => True end.

(** The id is no longer live after this outcome: it was absent, expired,
    tombstoned, cancelled or consumed. *)
Definition retires (op : ledger_op) (r : pending_status_t) : Prop :=
  match op, r with
  | OpInsert _ _, _ | OpSweep, _ | OpDigest _, PENDING_OK | OpFailure _, PENDING_OK => False
  | _, _ => True
  end.

Definition spent (id : list byte) (m : gmap (list byte) handshake_pending_entry_t) : Prop :=
  match m !! id with Some e => pe_state e <> PENDING_SLOT_ACTIVE | None => True end.

(** The failures an id can still report without being locked out. *)
Definition budget (id : list byte) (m : gmap (list byte) handshake_pending_entry_t) : Z :=
  match m !! id with
  | Some e => if decide (pe_state e = PENDING_SLOT_ACTIVE)
              then HANDSHAKE_AUTH_FAILURE_LIMIT - 1 - pe_failure_count e else 0
  | None => 0
  end.

Definition entries_wf (m : gmap (list byte) handshake_pending_entry_t) : Prop :=
  forall id e, m !! id = Some e -> entry_wf e /\ in_use e = true.

Lemma ledger_wf s : store_ok s -> entries_wf (ledger s).
Proof.
  intros Hok id e He. apply table_lookup in He as (i & e' & Hi & Hs); [|apply Hok].
  unfold entry_slot in Hs. destruct (in_use e') eqn:Hu; [|done]. injection Hs as _ ->.
  split; [|done]. by eapply Forall_lookup_1, Hi; apply Hok.
Qed.

(** What one operation on the map can do to the entry of [id]. *)
Lemma touch_effect clock act m id0 id w r m' w' :
  entries_wf m -> led_touch clock act m id0 w = ((r, m'), w') ->
  (id0 <> id /\ m' !! id = m !! id) \/
  (id0 = id /\ ((r = PENDING_ERR_NOT_FOUND /\ m !! id = None /\ m' !! id = None) \/
     exists e, m !! id = Some e /\
       ((r = PENDING_ERR_EXPIRED /\ pe_deadline_ms e <= (clock w).1 /\ m' !! id = None) \/
        (r = PENDING_ERR_CONSUMED /\ m' !! id = Some e /\ pe_state e = PENDING_SLOT_CONSUMED) \/
        (r = PENDING_ERR_AUTH_LIMIT /\ m' !! id = Some e /\ pe_state e = PENDING_SLOT_AUTH_LIMITED) \/
        (r = (act e).1 /\ m' !! id = (act e).2 /\ pe_state e = PENDING_SLOT_ACTIVE)))).
Proof.
  intros Hwf. unfold led_touch. destruct (decide (id0 = id)) as [->|Hne].
  - destruct (m !! id) as [e|] eqn:He; [|intros [= <- <- <-]; right; split; [done|left; done]].
    rewrite M_bind_unfold. destruct (Hwf _ _ He) as [[_ _ _ Hst] Hu]. unfold in_use in Hu.
    destruct (clock w) as [now w1]. cbn [fst snd]. intros Hr. right. split; [done|]. right. exists e. split; [done|].
    case_decide; [injection Hr as <- <- <-; left; split_and!; [done..|apply lookup_delete_eq]|].
    destruct (pe_state e) eqn:Hs; try done; injection Hr as <- <- <-; right.
    + right. right. split_and!; [done| |done]. destruct (act e).2; [apply lookup_insert_eq|apply lookup_delete_eq].
    + by left.
    + by right; left.
  - intros Hr. left. split; [done|].
    destruct (m !! id0) as [e|]; [|by injection Hr as <- <- <-].
    rewrite M_bind_unfold in Hr. destruct (clock w) as [now w1]. cbn [fst snd] in Hr.
    case_decide; [injection Hr as <- <- <-; by apply lookup_delete_ne|].
    destruct (pe_state e); injection Hr as <- <- <-; try done;
      (destruct (act e).2; [by apply lookup_insert_ne|by apply lookup_delete_ne]).
Qed.

(** A successful operation found a live entry and did its action. *)
Lemma touch_success clock act m id w m' w' :
  entries_wf m -> led_touch clock act m id w = ((PENDING_OK, m'), w') ->
  exists e, m !! id = Some e /\ pe_state e = PENDING_SLOT_ACTIVE /\ (clock w).1 < pe_deadline_ms e /\
    (act e).1 = PENDING_OK /\
    m' = match (act e).2 with Some e' => <[id := e']> m | None => delete id m end.
Proof.
  intros Hwf. unfold led_touch. destruct (m !! id) as [e|] eqn:He; [|done].
  destruct (Hwf _ _ He) as [[_ _ _ Hst] Hu]. unfold in_use in Hu.
  rewrite M_bind_unfold. destruct (clock w) as [now w1]. cbn [fst snd].
  destruct (decide (pe_deadline_ms e <= now)) as [|Hlt]; [done|]. destruct (pe_state e) eqn:Hs; try done.
  intros Hr. rewrite M_ret_unfold in Hr. apply pair_equal_spec in Hr as [[Ha <-]%pair_equal_spec <-]. exists e. split_and!; try done. lia.
Qed.

Lemma live_lookup now m id :
  led_live now m !! id =
    (e ← m !! id; if decide (now < pe_deadline_ms e) then Some e else None).
Proof. unfold led_live. rewrite map_lookup_filter. by destruct (m !! id); simpl; repeat case_guard || case_decide. Qed.

(** Insertion of another id, or a sweep, at most drops the entry of [id], and
    only when it has expired. *)
Lemma insert_effect clock cap ttl m id0 th id w r m' w' :
  led_insert clock cap ttl m id0 th w = ((r, m'), w') ->
  id0 <> id \/ is_Some (led_live (clock w).1 m !! id) ->
  m' !! id = led_live (clock w).1 m !! id /\ (id0 = id -> r = PENDING_ERR_INVALID_ARG).
Proof.
  unfold led_insert. rewrite M_bind_unfold. destruct (clock w) as [now w1]. cbn [fst snd]. cbv zeta.
  intros Hr Hor. destruct (led_live now m !! id0) eqn:H0; [by injection Hr as <- <- <-|].
  rewrite M_bind_unfold in Hr. destruct (clock w1) as [now2 w2]. cbn [fst snd] in Hr.
  assert (id0 <> id) by (intros ->; destruct Hor as [|[]]; congruence).
  case_decide; injection Hr as <- <- <-; (split; [|done]); [done|by apply lookup_insert_ne].
Qed.

Lemma spent_drop now m m' id : m' !! id = led_live now m !! id -> spent id m -> spent id m'.
Proof. intros Hm. unfold spent. rewrite Hm, live_lookup. destruct (m !! id); simpl; [|done]. by case_decide. Qed.

Lemma budget_drop now m m' id :
  entries_wf m -> m' !! id = led_live now m !! id -> 0 <= budget id m' <= budget id m.
Proof.
  intros Hwf Hm. unfold budget. rewrite Hm, live_lookup. destruct (m !! id) as [e|] eqn:He; simpl; [|done].
  destruct (Hwf _ _ He) as [[_ _ _ Hst] _].
  destruct (decide (pe_state e = PENDING_SLOT_ACTIVE)) as [Ha|];
    [rewrite Ha in Hst; unfold HANDSHAKE_AUTH_FAILURE_LIMIT in *|]; case_decide; simpl; try lia;
    [rewrite decide_True by done|rewrite decide_False by done]; lia.
Qed.

Definition spends_budget (id : list byte) (p : ledger_op * pending_status_t) : Prop :=
  p = (OpFailure id, PENDING_OK).
#[global] Instance ledger_op_eq_dec : EqDecision ledger_op.
Proof. solve_decision. Defined.
#[global] Instance spends_budget_dec id p : Decision (spends_budget id p).
Proof. unfold spends_budget. apply _. Defined.

(** The action of each operation on one id. *)
Definition op_act (op : ledger_op)
    : handshake_pending_entry_t -> pending_status_t * option handshake_pending_entry_t :=
  match op with
  | OpFailure _ => act_failure | OpConsume _ => act_consume | OpCancel _ => act_cancel | _ => act_digest
  end.

(** What one operation does to the entry of [id]: nothing, except that other
    operations may drop it after expiry, unless the operation addresses [id]. *)
Definition id_effect (op : ledger_op) (id : list byte) (r : pending_status_t)
    (m m' : gmap (list byte) handshake_pending_entry_t) : Prop :=
  (op_target op <> Some id /\ exists now, m' !! id = m !! id \/ m' !! id = led_live now m !! id) \/
  (op_target op = Some id /\ ((m !! id = None /\ m' !! id = None /\ r = PENDING_ERR_NOT_FOUND) \/
     exists e, m !! id = Some e /\
      ((r = PENDING_ERR_EXPIRED /\ m' !! id = None) \/
       ((r = PENDING_ERR_CONSUMED \/ r = PENDING_ERR_AUTH_LIMIT) /\ m' !! id = Some e /\
          pe_state e <> PENDING_SLOT_ACTIVE) \/
       (r = (op_act op e).1 /\ m' !! id = (op_act op e).2 /\ pe_state e = PENDING_SLOT_ACTIVE)))).

Lemma touch_id_effect clock op m id0 id w r m' w' :
  entries_wf m -> op_target op = Some id0 -> led_touch clock (op_act op) m id0 w = ((r, m'), w') ->
  id_effect op id r m m'.
Proof.
  intros Hwf Htgt Ht. apply (touch_effect _ _ _ _ id) in Ht; [|done]. unfold id_effect. rewrite Htgt.
  destruct Ht as [[Hne Hm]|[-> [(-> & H1 & H2)|(e & He & Hc)]]].
  - left. split; [congruence|]. exists 0. by left.
  - right. split; [done|]. by left.
  - right. split; [done|]. right. exists e. split; [done|].
    destruct Hc as [(-> & _ & Hm)|[(-> & Hm & Hs)|[(-> & Hm & Hs)|(-> & Hm & Hs)]]]; rewrite ?Hs; intuition congruence.
Qed.

Lemma spec_op_effect clock cap ttl op m id w r m' w' :
  entries_wf m -> not_insert id op -> spec_op clock cap ttl op m w = ((r, m'), w') ->
  id_effect op id r m m'.
Proof.
  intros Hwf Hni Hop. destruct op as [id0 th|id0|id0|id0|id0|]; cbn [spec_op] in Hop;
    try (by eapply touch_id_effect); left.
  - apply (insert_effect _ _ _ _ _ _ id) in Hop as [Hm _]; [|by left]. split; [simpl; congruence|by eauto].
  - split; [done|]. unfold led_sweep in Hop. rewrite M_bind_unfold in Hop.
    destruct (clock w) as [now w1]. injection Hop as <- <- <-. eauto.
Qed.

Lemma effect_spent op m id r m' :
  id_effect op id r m m' ->
  (spent id m -> spent id m' /\ (op_target op = Some id -> r <> PENDING_OK)) /\
  (op_target op = Some id -> retires op r -> spent id m').
Proof.
  intros [[Hne (now & Hm)]|[Ht [(H1 & H2 & ->)|(e & He & Hc)]]]; unfold spent.
  - split; [|done]. intros Hs. split; [|done].
    destruct Hm as [Hm|Hm]; [by rewrite Hm|by eapply spent_drop].
  - by rewrite H1, H2.
  - rewrite He. destruct Hc as [(-> & ->)|[(Hr & -> & Hs)|(-> & -> & Hs)]]; [done| |].
    + split; [|done]. intros _. split; [done|]. intros _ ->. by destruct Hr.
    + split; [by intros []|]. intros _ Hret. destruct op; try done. simpl in *.
      unfold act_failure in *. by case_decide.
Qed.

Lemma effect_budget op m id r m' :
  entries_wf m -> id_effect op id r m m' ->
  0 <= budget id m' <= budget id m - (if decide (spends_budget id (op, r)) then 1 else 0).
Proof.
  intros Hwf [[Hne (now & Hm)]|[Ht [(H1 & H2 & ->)|(e & He & Hc)]]].
  - rewrite decide_False by (by intros [= -> ->]). rewrite Z.sub_0_r.
    destruct Hm as [Hm|Hm]; [|by eapply budget_drop].
    eapply (budget_drop (-1)); [done|]. rewrite Hm, live_lookup. destruct (m !! id) as [e|] eqn:He; [|done].
    destruct (Hwf _ _ He) as [[_ _ Hd _] _]. simpl. by rewrite decide_True by lia.
  - unfold budget. rewrite H1, H2, decide_False by (by intros [= -> ]). done.
  - unfold budget. rewrite He. destruct (Hwf _ _ He) as [[_ _ _ Hst] _].
    unfold HANDSHAKE_AUTH_FAILURE_LIMIT in *.
    destruct Hc as [(-> & ->)|[(Hr & -> & Hs)|(-> & -> & Hs)]].
    + rewrite (decide_False (P := spends_budget _ _)) by (by intros [= ->]).
      case_decide as Ha; rewrite ?Ha in Hst; lia.
    + rewrite !(decide_False (P := pe_state e = _)) by done.
      rewrite decide_False by (intros [= -> ->]; by destruct Hr). lia.
    + rewrite Hs in Hst. rewrite (decide_True (P := pe_state e = _)) by done.
      destruct op; simpl in Ht; simplify_eq; cbn [op_act act_digest act_consume act_cancel fst snd].
      * rewrite (decide_True (P := pe_state e = _)), decide_False by done. lia.
      * rewrite (decide_True (P := pe_state e = _)), decide_False by done. lia.
      * unfold act_failure, HANDSHAKE_AUTH_FAILURE_LIMIT.
        destruct (decide (pe_failure_count e + 1 < 3)); cbn [fst snd bump tombstone pe_state pe_failure_count].
        -- rewrite !decide_True by done. lia.
        -- rewrite !decide_False by done. lia.
      * rewrite !decide_False by done. lia.
      * rewrite decide_False by done. lia.
Qed.

(** One step of a run, seen on the map. *)
Lemma exec_effect op s w r o w' id :
  store_ok s -> op_sized op -> not_insert id op -> exec_op op (Some s) w = ((r, o), w') ->
  exists s1, o = Some s1 /\ store_ok s1 /\ id_effect op id r (ledger s) (ledger s1).
Proof.
  intros Hok Hop Hni Hex.
  destruct (exec_refines op s Hok Hop w) as (r1 & s1 & w1 & H1 & H2 & H3 & _).
  rewrite H1 in Hex. injection Hex as <- <- <-. exists s1. split_and!; [done..|].
  eapply spec_op_effect; [by apply ledger_wf|done..].
Qed.

Lemma run_cons op ops o w :
  run_ops (op :: ops) o w =
    let '(r, o1, w1) := exec_op op o w in
    let '(log, o2, w2) := run_ops ops o1 w1 in (((op, r) :: log, o2), w2).
Proof.
  cbn [run_ops]. rewrite M_bind_unfold. destruct (exec_op op o w) as [[r o1] w1]. cbn [fst snd].
  rewrite M_bind_unfold. by destruct (run_ops ops o1 w1) as [[log o2] w2].
Qed.

Lemma run_spent ops s id w :
  store_ok s -> Forall op_sized ops -> Forall (not_insert id) ops -> spent id (ledger s) ->
  Forall (fun p => op_target p.1 = Some id -> p.2 <> PENDING_OK) (run_ops ops (Some s) w).1.1.
Proof.
  intros Hok Hsz Hni. revert s w Hok Hni.
  induction Hsz as [|op ops Hop _ IH]; intros s w Hok Hni Hsp; [constructor|].
  apply Forall_cons in Hni as [Hn Hni]. rewrite run_cons.
  destruct (exec_op op (Some s) w) as [[r s'] w1] eqn:Hex.
  apply (exec_effect _ _ _ _ _ _ id) in Hex as (s1 & -> & Hok1 & Heff); [|done..].
  destruct (effect_spent _ _ _ _ _ Heff) as [Hs1 _]. destruct (Hs1 Hsp) as [Hsp1 Hr].
  specialize (IH s1 w1 Hok1 Hni Hsp1).
  destruct (run_ops ops (Some s1) w1) as [[log s2] w2]. by constructor.
Qed.

Lemma run_budget ops s id w :
  store_ok s -> Forall op_sized ops -> Forall (not_insert id) ops ->
  blen (filter (spends_budget id) (run_ops ops (Some s) w).1.1) <= budget id (ledger s).
Proof.
  intros Hok Hsz Hni. revert s w Hok Hni.
  induction Hsz as [|op ops Hop _ IH]; intros s w Hok Hni.
  - simpl. eapply (budget_drop (-1)); [by apply ledger_wf|]. rewrite live_lookup.
    destruct (ledger s !! id) as [e|] eqn:He; [|done]. destruct (ledger_wf s Hok _ _ He) as [[_ _ Hd _] _].
    simpl. by rewrite decide_True by lia.
  - apply Forall_cons in Hni as [Hn Hni]. rewrite run_cons.
    destruct (exec_op op (Some s) w) as [[r s'] w1] eqn:Hex.
    apply (exec_effect _ _ _ _ _ _ id) in Hex as (s1 & -> & Hok1 & Heff); [|done..].
    apply effect_budget in Heff; [|by apply ledger_wf]. specialize (IH s1 w1 Hok1 Hni).
    destruct (run_ops ops (Some s1) w1) as [[log s2] w2]. cbn [fst snd] in *.
    rewrite filter_cons. destruct (decide (spends_budget id (op, r))) as [Hs|Hs]; cbn [length]; lia.
Qed.

Lemma run_retired l1 ops s id w op r l2 :
  store_ok s -> Forall op_sized ops -> Forall (not_insert id) ops ->
  (run_ops ops (Some s) w).1.1 = l1 ++ (op, r) :: l2 ->
  op_target op = Some id -> retires op r ->
  Forall (fun p => op_target p.1 = Some id -> p.2 <> PENDING_OK) l2.
Proof.
  intros Hok Hsz Hni. revert l1 s w Hok Hni.
  induction Hsz as [|o ops Ho Hsz IH]; intros l1 s w Hok Hni Hlog Ht Hr; [by destruct l1|].
  apply Forall_cons in Hni as [Hn Hni]. rewrite run_cons in Hlog.
  destruct (exec_op o (Some s) w) as [[r0 s'] w1] eqn:Hex.
  apply (exec_effect _ _ _ _ _ _ id) in Hex as (s1 & -> & Hok1 & Heff); [|done..].
  pose proof (run_spent ops s1 id w1 Hok1 Hsz Hni) as Hsp.
  destruct (run_ops ops (Some s1) w1) as [[log s2] w2] eqn:Hrun. cbn [fst snd] in *.
  destruct l1 as [|p l1]; simpl in Hlog; simplify_eq.
  - apply Hsp. by apply (effect_spent _ _ _ _ _ Heff).
  - eapply (IH l1 s1 w1); try done. by rewrite Hrun.
Qed.

Lemma touch_live clock op m id0 id e w r m' w' :
  entries_wf m -> op_target op = Some id0 -> led_touch clock (op_act op) m id0 w = ((r, m'), w') ->
  m !! id = Some e -> (clock w).1 < pe_deadline_ms e -> op <> OpCancel id ->
  exists e', m' !! id = Some e' /\ pe_deadline_ms e' = pe_deadline_ms e /\
    (op_target op <> Some id -> e' = e).
Proof.
  intros Hwf Ht Hr He Hlive Hnc. apply (touch_effect _ _ _ _ id) in Hr; [|done]. rewrite Ht.
  destruct Hr as [[Hne Hm]|[-> [(_ & Hn & _)|(e0 & He0 & Hc)]]]; [|congruence|].
  - exists e. rewrite Hm. split_and!; [done..|congruence].
  - assert (e0 = e) as -> by congruence.
    destruct Hc as [(_ & Hx & _)|[(_ & Hm & _)|[(_ & Hm & _)|(_ & Hm & _)]]]; [lia|by exists e..|].
    destruct op; simpl in *; simplify_eq; try (by eexists; split_and!).
    unfold act_failure in Hm. case_decide; by eexists.
Qed.

Lemma spec_live clock cap ttl op m id e w r m' w' :
  entries_wf m -> spec_op clock cap ttl op m w = ((r, m'), w') ->
  m !! id = Some e -> (clock w).1 < pe_deadline_ms e -> op <> OpCancel id ->
  exists e', m' !! id = Some e' /\ pe_deadline_ms e' = pe_deadline_ms e /\
    (op_target op <> Some id -> e' = e) /\ (forall th, op = OpInsert id th -> r = PENDING_ERR_INVALID_ARG).
Proof.
  intros Hwf Hop He Hlive Hnc.
  assert (Hll : led_live (clock w).1 m !! id = Some e) by (rewrite live_lookup, He; simpl; by rewrite decide_True).
  assert (Htl : forall id0, op_target op = Some id0 -> led_touch clock (op_act op) m id0 w = ((r, m'), w') -> _)
    by (intros id0 Ht Hr; exact (touch_live _ _ _ _ id e _ _ _ _ Hwf Ht Hr He Hlive Hnc)).
  destruct op as [id0 th|id0|id0|id0|id0|]; cbn [spec_op] in Hop;
    try (destruct (Htl id0 eq_refl Hop) as (e' & H1 & H2 & H3); by exists e').
  - apply (insert_effect _ _ _ _ _ _ id) in Hop as [Hm Hi]; [|by right; eexists].
    exists e. rewrite Hm. split_and!; try done. intros th' [= -> _]. by apply Hi.
  - exists e. unfold led_sweep in Hop. rewrite M_bind_unfold in Hop.
    destruct (clock w) as [now w1]. injection Hop as <- <- <-. by split_and!.
Qed.

(** ** Properties *)

(** C33: the ledger is an expiring map.  On a well-formed store every operation,
    with every outcome, does what the abstract operation does to the map of
    pending ids under the same clock readings and reports the same status; the
    store stays well-formed with the same slots, capacity and lifetime.
    [get_digest] moreover returns the stored digest when it reports success and
    zeros otherwise, and initialisation yields the empty map. *)
Theorem pending_refines_map op s id w s0 capacity ttl clock_fn :
  store_ok s -> op_sized op -> blen id = WIRE_HANDSHAKE_ID_LEN ->
  1 <= capacity <= HANDSHAKE_PENDING_MAX -> 0 < ttl <= UINT64_MAX -> clock_u64 (clock_of clock_fn) ->
  refines s (exec_op op (Some s)) (spec_op (store_now s) (ps_capacity s) (ps_ttl_ms s) op (ledger s)) /\
  (let '(r, _, th, _) := handshake_pending_get_digest (Some s) id w in
   th = match r, ledger s !! id with
        | PENDING_OK, Some e => pe_th_client_auth e
        | _, _ => zeros HANDSHAKE_TRANSCRIPT_HASH_BYTES
        end) /\
  (exists s1, handshake_pending_store_init (Some s0) capacity ttl clock_fn = (PENDING_OK, Some s1) /\
     store_ok s1 /\ ledger s1 = ∅ /\ ps_capacity s1 = capacity /\ ps_ttl_ms s1 = ttl).
Proof.
  intros Hok Hop Hid Hcap Httl Hclk. split; [by apply exec_refines|]. split.
  - destruct (digest_touch s id w Hok Hid) as (Ha & _ & Hc).
    destruct (handshake_pending_get_digest (Some s) id w) as [[[r s1] th] w1]. cbn [fst snd] in *.
    rewrite <-Ha in Hc. done.
  - destruct (init_common_ok s0 SlotsInline (ps_ext s0) capacity ttl clock_fn)
      as (s1 & H1 & H2 & H3 & _ & H4 & H5 & _); try done. exists s1. by split_and!.
Qed.

(** A handshake id is single-use and tolerates few failures.  In any
    sequence of ledger operations that does not insert [id] again, whatever the
    clock does: once an operation on [id] has consumed or cancelled it, locked
    it out, or found it absent, expired or tombstoned, no later operation on
    [id] succeeds, so in particular it is consumed at most once; and at most two
    authentication failures are reported as tolerated. *)
Theorem pending_single_use s ops id w l1 op r l2 :
  store_ok s -> Forall op_sized ops -> Forall (not_insert id) ops ->
  let log := (run_ops ops (Some s) w).1.1 in
  (log = l1 ++ (op, r) :: l2 -> op_target op = Some id -> retires op r ->
   Forall (fun p => op_target p.1 = Some id -> p.2 <> PENDING_OK) l2) /\
  blen (filter (spends_budget id) log) <= HANDSHAKE_AUTH_FAILURE_LIMIT - 1.
Proof.
  intros Hok Hsz Hni log. split; [by apply run_retired|].
  etransitivity; [by apply run_budget|]. unfold budget.
  destruct (ledger s !! id) as [e|] eqn:He; [|by vm_compute].
  destruct (ledger_wf s Hok _ _ He) as [[_ _ _ Hst] _].
  case_decide as Ha; [rewrite Ha in Hst; lia|by vm_compute].
Qed.

(** Live entries are never evicted and deadlines never move.  While the
    clock has not reached the deadline of an entry, every operation other than
    cancelling that very id keeps the entry with its deadline, leaves it
    untouched unless it addresses the id, and refuses to insert the id again;
    the ledger never holds more entries than its capacity. *)
Theorem pending_live_kept op s id e w :
  store_ok s -> op_sized op -> ledger s !! id = Some e -> (store_now s w).1 < pe_deadline_ms e ->
  op <> OpCancel id ->
  exists r s' w' e', exec_op op (Some s) w = ((r, Some s'), w') /\ ledger s' !! id = Some e' /\
    pe_deadline_ms e' = pe_deadline_ms e /\ (op_target op <> Some id -> e' = e) /\
    (forall th, op = OpInsert id th -> r = PENDING_ERR_INVALID_ARG) /\
    Z.of_nat (size (ledger s')) <= ps_capacity s.
Proof.
  intros Hok Hop He Hlive Hnc.
  destruct (exec_refines op s Hok Hop w) as (r & s' & w' & H1 & H2 & H3 & H4).
  exists r, s', w'.
  assert (Hsize : Z.of_nat (size (ledger s')) <= ps_capacity s).
  { destruct H4 as (_ & <- & _). rewrite <-(length_active_slots _ H3). unfold ledger.
    rewrite table_size by apply H3. pose proof (bindings_le entry_slot (active_slots s')). lia. }
  assert (Hll : led_live (store_now s w).1 (ledger s) !! id = Some e).
  { rewrite live_lookup, He. simpl. by rewrite decide_True. }
  destruct (spec_live _ _ _ _ _ _ _ _ _ _ _ (ledger_wf _ Hok) H2 He Hlive Hnc) as (e' & Ha & Hb & Hc & Hd).
  exists e'. by split_and!.
Qed.

End pending.

(** ** Witnesses *)
Definition sample_clock : M (H := toy_env) Z := fun w => (u64 w, w + 1).
Definition sample_id : list byte := replicate 16 x11.
Definition sample_th : list byte := replicate 32 x22.

Definition sample_store0 : handshake_pending_store_t :=
  default (pending_store_zero [])
    (handshake_pending_store_init (Some (pending_store_zero [])) 4 1000 (Some sample_clock)).2.
Definition sample_store : handshake_pending_store_t :=
  default (pending_store_zero [])
    (exec_op (OpInsert sample_id sample_th) (Some sample_store0) 5).1.2.

Lemma sample_clock_u64 : clock_u64 sample_clock.
Proof. intros w. cbn. pose proof (u64_range w). unfold UINT64_MAX. lia. Qed.

Lemma sample_store0_ok : store_ok sample_store0.
Proof.
  destruct (init_common_ok (pending_store_zero []) SlotsInline [] 4 1000 (Some sample_clock))
    as (s & H & Hok & _); [done|by vm_compute|by vm_compute|apply sample_clock_u64|done|].
  unfold sample_store0, handshake_pending_store_init. cbn [ps_ext pending_store_zero]. by rewrite H.
Qed.

Lemma sample_store_ok : store_ok sample_store.
Proof.
  destruct (exec_refines (OpInsert sample_id sample_th) sample_store0 sample_store0_ok) with (w := 5)
    as (r & s & w & H & _ & Hok & _); [done|].
  unfold sample_store. by rewrite H.
Qed.

Lemma pending_refines_map_witness :
  refines sample_store (exec_op (OpConsume sample_id) (Some sample_store))
    (led_touch (store_now sample_store) act_consume (ledger sample_store) sample_id) /\
  (exec_op (OpConsume sample_id) (Some sample_store) 9).1.1 = PENDING_OK.
Proof.
  split; [|vm_compute; reflexivity].
  destruct (pending_refines_map (OpConsume sample_id) sample_store sample_id 9 sample_store0 4 1000
    (Some sample_clock) sample_store_ok) as (H & _);
    [reflexivity|reflexivity|split; discriminate|split; [reflexivity|discriminate]|exact sample_clock_u64|].
  exact H.
Defined.

Lemma pending_single_use_witness :
  (run_ops [OpConsume sample_id; OpConsume sample_id; OpFailure sample_id] (Some sample_store) 9).1.1 =
    [(OpConsume sample_id, PENDING_OK); (OpConsume sample_id, PENDING_ERR_CONSUMED);
     (OpFailure sample_id, PENDING_ERR_CONSUMED)] /\
  blen (filter (spends_budget sample_id)
    (run_ops [OpFailure sample_id; OpFailure sample_id; OpFailure sample_id; OpFailure sample_id]
      (Some sample_store) 9).1.1) <= 2.
Proof.
  split; [vm_compute; reflexivity|].
  apply (pending_single_use sample_store
    [OpFailure sample_id; OpFailure sample_id; OpFailure sample_id; OpFailure sample_id] sample_id 9
    [] OpSweep PENDING_OK [] sample_store_ok);
    repeat constructor.
Defined.

Lemma pending_live_kept_witness :
  exists r s' w' e', exec_op OpSweep (Some sample_store) 900 = ((r, Some s'), w') /\
    ledger s' !! sample_id = Some e' /\ pe_deadline_ms e' = 1006.
Proof.
  destruct (pending_live_kept OpSweep sample_store sample_id
    (PendingEntry PENDING_SLOT_ACTIVE sample_id sample_th 1006 0) 900 sample_store_ok)
    as (r & s' & w' & e' & H1 & H2 & H3 & _);
    [exact I|vm_compute; reflexivity|vm_compute; reflexivity|discriminate|].
  exists r, s', w', e'. split; [exact H1|]. split; [exact H2|exact H3].
Defined.
