(* ===== verification/Handshake.v ===== *)
(** * The handshake state machine ([src/protocol/handshake.c], second part)

    [handshake_ctx_t] is the C struct.  The identity keypair, the keystore and
    the key-lookup callback (with its context) are borrowed and never written by
    this module, so the context carries their values; the pending ledger is
    shared between contexts and written, so it is passed explicitly and
    [hc_pending] only says whether the pointer is set.  [hc_role] has a third
    value for a zeroed context.  Output parameters are passed in and returned. *)

From S2P Require Import Prelude WireInt Extern Toy Crypto Transcript Keystore Pending.

Definition SESSION_KEYS_LEN : Z := 2 * KEX_SESSION_KEY_BYTES.
Definition C2S_OFFSET : Z := 0.
Definition S2C_OFFSET : Z := KEX_SESSION_KEY_BYTES.
Definition HANDSHAKE_DIR_C2S : Z := KEX_DIR_C2S.
Definition HANDSHAKE_DIR_S2C : Z := KEX_DIR_S2C.

Inductive handshake_role_t := HANDSHAKE_ROLE_NONE | HANDSHAKE_ROLE_INITIATOR | HANDSHAKE_ROLE_RESPONDER.

Inductive handshake_state_t :=
  | HANDSHAKE_STATE_NEW
  | HANDSHAKE_STATE_CLIENT_HELLO_CREATED
  | HANDSHAKE_STATE_SERVER_HELLO_VERIFIED
  | HANDSHAKE_STATE_CLIENT_AUTH_CREATED
  | HANDSHAKE_STATE_CLIENT_HELLO_ACCEPTED
  | HANDSHAKE_STATE_SERVER_HELLO_CREATED
  | HANDSHAKE_STATE_CLIENT_AUTH_VERIFIED
  | HANDSHAKE_STATE_ESTABLISHED
  | HANDSHAKE_STATE_FAILED.

Inductive handshake_status_t :=
  | HANDSHAKE_OK
  | HANDSHAKE_ERR_INVALID_ARG
  | HANDSHAKE_ERR_UNEXPECTED_STATE
  | HANDSHAKE_ERR_MALFORMED
  | HANDSHAKE_ERR_UNKNOWN_IDENTITY
  | HANDSHAKE_ERR_IDENTITY_KEY_MISMATCH
  | HANDSHAKE_ERR_PEER_IDENTITY_MISMATCH
  | HANDSHAKE_ERR_SESSION_ID_MISMATCH
  | HANDSHAKE_ERR_HANDSHAKE_ID_MISMATCH
  | HANDSHAKE_ERR_REPLAY
  | HANDSHAKE_ERR_EXPIRED
  | HANDSHAKE_ERR_SIGNATURE
  | HANDSHAKE_ERR_AUTH_FAILURE_LIMIT
  | HANDSHAKE_ERR_KEX
  | HANDSHAKE_ERR_RESOURCE_EXHAUSTED
  | HANDSHAKE_ERR_INTERNAL.

#[export] Instance handshake_role_eq_dec : EqDecision handshake_role_t.
Proof. solve_decision. Defined.
#[export] Instance handshake_state_eq_dec : EqDecision handshake_state_t.
Proof. solve_decision. Defined.
#[export] Instance handshake_status_eq_dec : EqDecision handshake_status_t.
Proof. solve_decision. Defined.

Record handshake_ctx_t `{Env} := HandshakeCtx {
  hc_role : handshake_role_t;
  hc_state : handshake_state_t;
  hc_local_id : list byte;
  hc_local_id_len : Z;
  hc_local_keypair : option mldsa_keypair_t;
  hc_keystore : option keystore_t;
  hc_lookup_fn : option (list byte -> M (option (list byte)));
  hc_pending : bool;
  hc_peer_id : list byte;
  hc_peer_id_len : Z;
  hc_peer_pk : option (list byte);
  hc_session_id : list byte;
  hc_ch_bytes : list byte;
  hc_ch_len : Z;
  hc_peer_eph_pub : list byte;
  hc_handshake_id : list byte;
  hc_th_client_auth : list byte;
  hc_eph : kex_keypair_t;
  hc_kem : mlkem_keypair_t;
  hc_peer_mlkem_ct : list byte;
  hc_ss_kem : option (list byte);
  hc_session_keys : option (list byte);
  hc_keys_committed : bool }.

Section handshake.
Context `{E : Env}.
Implicit Types (c : handshake_ctx_t) (ps : option handshake_pending_store_t).

(** ** Field updates *)
Definition set_state c (state : handshake_state_t) : handshake_ctx_t :=
  HandshakeCtx _ (hc_role c) state (hc_local_id c) (hc_local_id_len c) (hc_local_keypair c)
    (hc_keystore c) (hc_lookup_fn c) (hc_pending c) (hc_peer_id c) (hc_peer_id_len c) (hc_peer_pk c)
    (hc_session_id c) (hc_ch_bytes c) (hc_ch_len c) (hc_peer_eph_pub c) (hc_handshake_id c)
    (hc_th_client_auth c) (hc_eph c) (hc_kem c) (hc_peer_mlkem_ct c) (hc_ss_kem c) (hc_session_keys c)
    (hc_keys_committed c).
Definition set_pending c (pending : bool) : handshake_ctx_t :=
  HandshakeCtx _ (hc_role c) (hc_state c) (hc_local_id c) (hc_local_id_len c) (hc_local_keypair c)
    (hc_keystore c) (hc_lookup_fn c) pending (hc_peer_id c) (hc_peer_id_len c) (hc_peer_pk c)
    (hc_session_id c) (hc_ch_bytes c) (hc_ch_len c) (hc_peer_eph_pub c) (hc_handshake_id c)
    (hc_th_client_auth c) (hc_eph c) (hc_kem c) (hc_peer_mlkem_ct c) (hc_ss_kem c) (hc_session_keys c)
    (hc_keys_committed c).
Definition set_peer c (peer_id : list byte) (peer_id_len : Z) : handshake_ctx_t :=
  HandshakeCtx _ (hc_role c) (hc_state c) (hc_local_id c) (hc_local_id_len c) (hc_local_keypair c)
    (hc_keystore c) (hc_lookup_fn c) (hc_pending c) peer_id peer_id_len (hc_peer_pk c) (hc_session_id c)
    (hc_ch_bytes c) (hc_ch_len c) (hc_peer_eph_pub c) (hc_handshake_id c) (hc_th_client_auth c)
    (hc_eph c) (hc_kem c) (hc_peer_mlkem_ct c) (hc_ss_kem c) (hc_session_keys c) (hc_keys_committed c).
Definition set_peer_pk c (peer_pk : option (list byte)) : handshake_ctx_t :=
  HandshakeCtx _ (hc_role c) (hc_state c) (hc_local_id c) (hc_local_id_len c) (hc_local_keypair c)
    (hc_keystore c) (hc_lookup_fn c) (hc_pending c) (hc_peer_id c) (hc_peer_id_len c) peer_pk
    (hc_session_id c) (hc_ch_bytes c) (hc_ch_len c) (hc_peer_eph_pub c) (hc_handshake_id c)
    (hc_th_client_auth c) (hc_eph c) (hc_kem c) (hc_peer_mlkem_ct c) (hc_ss_kem c) (hc_session_keys c)
    (hc_keys_committed c).
Definition set_session_id c (session_id : list byte) : handshake_ctx_t :=
  HandshakeCtx _ (hc_role c) (hc_state c) (hc_local_id c) (hc_local_id_len c) (hc_local_keypair c)
    (hc_keystore c) (hc_lookup_fn c) (hc_pending c) (hc_peer_id c) (hc_peer_id_len c)
    (hc_peer_pk c) session_id (hc_ch_bytes c) (hc_ch_len c) (hc_peer_eph_pub c) (hc_handshake_id c)
    (hc_th_client_auth c) (hc_eph c) (hc_kem c) (hc_peer_mlkem_ct c) (hc_ss_kem c) (hc_session_keys c)
    (hc_keys_committed c).
Definition set_ch c (ch_bytes : list byte) (ch_len : Z) : handshake_ctx_t :=
  HandshakeCtx _ (hc_role c) (hc_state c) (hc_local_id c) (hc_local_id_len c) (hc_local_keypair c)
    (hc_keystore c) (hc_lookup_fn c) (hc_pending c) (hc_peer_id c) (hc_peer_id_len c) (hc_peer_pk c)
    (hc_session_id c) ch_bytes ch_len (hc_peer_eph_pub c) (hc_handshake_id c) (hc_th_client_auth c)
    (hc_eph c) (hc_kem c) (hc_peer_mlkem_ct c) (hc_ss_kem c) (hc_session_keys c) (hc_keys_committed c).
Definition set_peer_eph_pub c (peer_eph_pub : list byte) : handshake_ctx_t :=
  HandshakeCtx _ (hc_role c) (hc_state c) (hc_local_id c) (hc_local_id_len c) (hc_local_keypair c)
    (hc_keystore c) (hc_lookup_fn c) (hc_pending c) (hc_peer_id c) (hc_peer_id_len c) (hc_peer_pk c)
    (hc_session_id c) (hc_ch_bytes c) (hc_ch_len c) peer_eph_pub (hc_handshake_id c)
    (hc_th_client_auth c) (hc_eph c) (hc_kem c) (hc_peer_mlkem_ct c) (hc_ss_kem c) (hc_session_keys c)
    (hc_keys_committed c).
Definition set_handshake_id c (handshake_id : list byte) : handshake_ctx_t :=
  HandshakeCtx _ (hc_role c) (hc_state c) (hc_local_id c) (hc_local_id_len c) (hc_local_keypair c)
    (hc_keystore c) (hc_lookup_fn c) (hc_pending c) (hc_peer_id c) (hc_peer_id_len c) (hc_peer_pk c)
    (hc_session_id c) (hc_ch_bytes c) (hc_ch_len c) (hc_peer_eph_pub c) handshake_id
    (hc_th_client_auth c) (hc_eph c) (hc_kem c) (hc_peer_mlkem_ct c) (hc_ss_kem c) (hc_session_keys c)
    (hc_keys_committed c).
Definition set_th_client_auth c (th_client_auth : list byte) : handshake_ctx_t :=
  HandshakeCtx _ (hc_role c) (hc_state c) (hc_local_id c) (hc_local_id_len c) (hc_local_keypair c)
    (hc_keystore c) (hc_lookup_fn c) (hc_pending c) (hc_peer_id c) (hc_peer_id_len c) (hc_peer_pk c)
    (hc_session_id c) (hc_ch_bytes c) (hc_ch_len c) (hc_peer_eph_pub c)
    (hc_handshake_id c) th_client_auth (hc_eph c) (hc_kem c) (hc_peer_mlkem_ct c) (hc_ss_kem c)
    (hc_session_keys c) (hc_keys_committed c).
Definition set_eph c (eph : kex_keypair_t) : handshake_ctx_t :=
  HandshakeCtx _ (hc_role c) (hc_state c) (hc_local_id c) (hc_local_id_len c) (hc_local_keypair c)
    (hc_keystore c) (hc_lookup_fn c) (hc_pending c) (hc_peer_id c) (hc_peer_id_len c) (hc_peer_pk c)
    (hc_session_id c) (hc_ch_bytes c) (hc_ch_len c) (hc_peer_eph_pub c) (hc_handshake_id c)
    (hc_th_client_auth c) eph (hc_kem c) (hc_peer_mlkem_ct c) (hc_ss_kem c) (hc_session_keys c)
    (hc_keys_committed c).
Definition set_kem c (kem : mlkem_keypair_t) : handshake_ctx_t :=
  HandshakeCtx _ (hc_role c) (hc_state c) (hc_local_id c) (hc_local_id_len c) (hc_local_keypair c)
    (hc_keystore c) (hc_lookup_fn c) (hc_pending c) (hc_peer_id c) (hc_peer_id_len c) (hc_peer_pk c)
    (hc_session_id c) (hc_ch_bytes c) (hc_ch_len c) (hc_peer_eph_pub c) (hc_handshake_id c)
    (hc_th_client_auth c) (hc_eph c) kem (hc_peer_mlkem_ct c) (hc_ss_kem c) (hc_session_keys c)
    (hc_keys_committed c).
Definition set_peer_mlkem_ct c (peer_mlkem_ct : list byte) : handshake_ctx_t :=
  HandshakeCtx _ (hc_role c) (hc_state c) (hc_local_id c) (hc_local_id_len c) (hc_local_keypair c)
    (hc_keystore c) (hc_lookup_fn c) (hc_pending c) (hc_peer_id c) (hc_peer_id_len c) (hc_peer_pk c)
    (hc_session_id c) (hc_ch_bytes c) (hc_ch_len c) (hc_peer_eph_pub c) (hc_handshake_id c)
    (hc_th_client_auth c) (hc_eph c) (hc_kem c) peer_mlkem_ct (hc_ss_kem c) (hc_session_keys c)
    (hc_keys_committed c).
Definition set_ss_kem c (ss_kem : option (list byte)) : handshake_ctx_t :=
  HandshakeCtx _ (hc_role c) (hc_state c) (hc_local_id c) (hc_local_id_len c) (hc_local_keypair c)
    (hc_keystore c) (hc_lookup_fn c) (hc_pending c) (hc_peer_id c) (hc_peer_id_len c) (hc_peer_pk c)
    (hc_session_id c) (hc_ch_bytes c) (hc_ch_len c) (hc_peer_eph_pub c) (hc_handshake_id c)
    (hc_th_client_auth c) (hc_eph c) (hc_kem c) (hc_peer_mlkem_ct c) ss_kem (hc_session_keys c)
    (hc_keys_committed c).
Definition set_keys c (session_keys : option (list byte)) (keys_committed : bool) : handshake_ctx_t :=
  HandshakeCtx _ (hc_role c) (hc_state c) (hc_local_id c) (hc_local_id_len c) (hc_local_keypair c)
    (hc_keystore c) (hc_lookup_fn c) (hc_pending c) (hc_peer_id c) (hc_peer_id_len c) (hc_peer_pk c)
    (hc_session_id c) (hc_ch_bytes c) (hc_ch_len c) (hc_peer_eph_pub c) (hc_handshake_id c)
    (hc_th_client_auth c) (hc_eph c) (hc_kem c) (hc_peer_mlkem_ct c)
    (hc_ss_kem c) session_keys keys_committed.

(** [memset(ctx, 0, sizeof( *ctx)); ctx->state = HANDSHAKE_STATE_FAILED]. *)
Definition ctx_failed_zero : handshake_ctx_t :=
  HandshakeCtx _ HANDSHAKE_ROLE_NONE HANDSHAKE_STATE_FAILED (zeros WIRE_ID_MAX_LEN) 0 None None None false
    (zeros WIRE_ID_MAX_LEN) 0 None (zeros WIRE_SESSION_ID_LEN) (zeros CLIENT_HELLO_MAX_ENCODED_LEN) 0
    (zeros KEX_PUBLIC_KEY_BYTES) (zeros WIRE_HANDSHAKE_ID_LEN) (zeros HANDSHAKE_TRANSCRIPT_HASH_BYTES)
    (KexKeypair (zeros KEX_PUBLIC_KEY_BYTES) None) (MlkemKeypair (zeros MLKEM_PUBLIC_KEY_BYTES) None)
    (zeros WIRE_MLKEM_CT_LEN) None None false.

(** ** Helpers *)
Definition id_len_valid (id_len : Z) : bool := (WIRE_ID_MIN_LEN <=? id_len) && (id_len <=? WIRE_ID_MAX_LEN).

Definition check_call (ctx : option handshake_ctx_t) (role : handshake_role_t) (state : handshake_state_t)
    : handshake_status_t :=
  match ctx with
  | None => HANDSHAKE_ERR_INVALID_ARG
  | Some c =>
    if negb (bool_decide (hc_role c = role)) || negb (bool_decide (hc_state c = state))
    then HANDSHAKE_ERR_UNEXPECTED_STATE else HANDSHAKE_OK
  end.

Definition fail_ctx c (why : handshake_status_t) : handshake_status_t * handshake_ctx_t :=
  let c := set_eph c (kex_keypair_free (hc_eph c)) in
  let c := set_kem c (mlkem_keypair_free (hc_kem c)) in
  let c := set_ss_kem c None in
  let c := set_keys c (secure_mem_wipe (hc_session_keys c) SESSION_KEYS_LEN) false in
  let c := set_ch c (zeros CLIENT_HELLO_MAX_ENCODED_LEN) 0 in
  let c := set_th_client_auth c (zeros HANDSHAKE_TRANSCRIPT_HASH_BYTES) in
  let c := set_handshake_id c (zeros WIRE_HANDSHAKE_ID_LEN) in
  let c := set_peer_eph_pub c (zeros KEX_PUBLIC_KEY_BYTES) in
  let c := set_peer_mlkem_ct c (zeros WIRE_MLKEM_CT_LEN) in
  (why, set_state c HANDSHAKE_STATE_FAILED).

Definition map_pending_failure (p : pending_status_t) : handshake_status_t :=
  match p with
  | PENDING_ERR_EXPIRED | PENDING_ERR_NOT_FOUND => HANDSHAKE_ERR_EXPIRED
  | PENDING_ERR_CONSUMED => HANDSHAKE_ERR_REPLAY
  | PENDING_ERR_AUTH_LIMIT => HANDSHAKE_ERR_AUTH_FAILURE_LIMIT
  | _ => HANDSHAKE_ERR_INTERNAL
  end.

Definition derive_traffic_keys (ss_x ss_k session_id initiator_id responder_id th_client_auth : list byte)
    : option (list byte) :=
  c2s ← kex_derive_session_key_v2 ss_x ss_k (ztake WIRE_SESSION_ID_LEN session_id) initiator_id responder_id
          th_client_auth HANDSHAKE_DIR_C2S;
  s2c ← kex_derive_session_key_v2 ss_x ss_k (ztake WIRE_SESSION_ID_LEN session_id) initiator_id responder_id
          th_client_auth HANDSHAKE_DIR_S2C;
  Some (c2s ++ s2c).

Definition resolve_peer_pk c (id : list byte) : M (option (list byte)) :=
  match hc_lookup_fn c with
  | Some f => f id
  | None =>
    match hc_keystore c with
    | None => mret None
    | Some _ =>
      match keystore_lookup (hc_keystore c) (Some id) (Some None) with
      | (KEYSTORE_OK, Some pk) => mret pk
      | _ => mret None
      end
    end
  end.

(** ** Initialisation and teardown *)
Definition init_common (role : handshake_role_t) (local_id : list byte)
    (local_keypair : option mldsa_keypair_t) (keystore : option keystore_t)
    (lookup_fn : option (list byte -> M (option (list byte)))) : M (handshake_status_t * handshake_ctx_t) :=
  let c := ctx_failed_zero in
  keys ← secure_mem_alloc SESSION_KEYS_LEN;
  match keys with
  | None => mret (HANDSHAKE_ERR_RESOURCE_EXHAUSTED, c)
  | Some _ =>
    let keys := secure_mem_wipe keys SESSION_KEYS_LEN in
    mret (HANDSHAKE_OK,
      HandshakeCtx _ role HANDSHAKE_STATE_NEW (poke 0 local_id (hc_local_id c)) (bz (u8 (blen local_id)))
        local_keypair keystore lookup_fn (hc_pending c) (hc_peer_id c) (hc_peer_id_len c) (hc_peer_pk c)
        (hc_session_id c) (hc_ch_bytes c) (hc_ch_len c) (hc_peer_eph_pub c) (hc_handshake_id c)
        (hc_th_client_auth c) (hc_eph c) (hc_kem c) (hc_peer_mlkem_ct c) (hc_ss_kem c) keys
        (hc_keys_committed c))
  end.

Definition has_secret_key (kp : option mldsa_keypair_t) : bool :=
  match kp with Some (MldsaKeypair _ (Some _)) => true | _ => false end.

Definition is_some {A} (o : option A) : bool := match o with Some _ => true | None => false end.

Definition handshake_initiator_init (ctx : option handshake_ctx_t) (local_id : option (list byte))
    (local_keypair : option mldsa_keypair_t) (keystore : option keystore_t) (peer_id : option (list byte))
    : M (handshake_status_t * option handshake_ctx_t) :=
  match ctx with
  | None => mret (HANDSHAKE_ERR_INVALID_ARG, None)
  | Some _ =>
    match local_id, peer_id with
    | Some lid, Some pid =>
      if negb (id_len_valid (blen lid)) || negb (has_secret_key local_keypair) || negb (is_some keystore)
         || negb (id_len_valid (blen pid))
      then mret (HANDSHAKE_ERR_INVALID_ARG, Some ctx_failed_zero) else
      r ← init_common HANDSHAKE_ROLE_INITIATOR lid local_keypair keystore None;
      let '(st, c) := r in
      if negb (bool_decide (st = HANDSHAKE_OK)) then mret (st, Some c) else
      mret (HANDSHAKE_OK, Some (set_peer c (poke 0 pid (hc_peer_id c)) (bz (u8 (blen pid)))))
    | _, _ => mret (HANDSHAKE_ERR_INVALID_ARG, Some ctx_failed_zero)
    end
  end.

Definition responder_init_impl (ctx : option handshake_ctx_t) (local_id : option (list byte))
    (local_keypair : option mldsa_keypair_t) (keystore : option keystore_t)
    (lookup_fn : option (list byte -> M (option (list byte)))) ps
    : M (handshake_status_t * option handshake_ctx_t) :=
  match ctx with
  | None => mret (HANDSHAKE_ERR_INVALID_ARG, None)
  | Some _ =>
    let one_resolver := xorb (is_some keystore) (is_some lookup_fn) in
    match local_id with
    | Some lid =>
      if negb (id_len_valid (blen lid)) || negb (has_secret_key local_keypair) || negb one_resolver
         || negb (store_usable ps)
      then mret (HANDSHAKE_ERR_INVALID_ARG, Some ctx_failed_zero) else
      r ← init_common HANDSHAKE_ROLE_RESPONDER lid local_keypair keystore lookup_fn;
      let '(st, c) := r in
      if negb (bool_decide (st = HANDSHAKE_OK)) then mret (st, Some c) else
      mret (HANDSHAKE_OK, Some (set_pending c true))
    | None => mret (HANDSHAKE_ERR_INVALID_ARG, Some ctx_failed_zero)
    end
  end.

Definition handshake_responder_init (ctx : option handshake_ctx_t) (local_id : option (list byte))
    (local_keypair : option mldsa_keypair_t) (keystore : option keystore_t) ps
    : M (handshake_status_t * option handshake_ctx_t) :=
  responder_init_impl ctx local_id local_keypair keystore None ps.

Definition handshake_responder_init_ext (ctx : option handshake_ctx_t) (local_id : option (list byte))
    (local_keypair : option mldsa_keypair_t) (lookup_fn : option (list byte -> M (option (list byte)))) ps
    : M (handshake_status_t * option handshake_ctx_t) :=
  responder_init_impl ctx local_id local_keypair None lookup_fn ps.

Definition handshake_ctx_wipe (ctx : option handshake_ctx_t) ps
    : M (option handshake_ctx_t * option handshake_pending_store_t) :=
  match ctx with
  | None => mret (None, ps)
  | Some c =>
    if bool_decide (hc_role c = HANDSHAKE_ROLE_RESPONDER)
       && bool_decide (hc_state c = HANDSHAKE_STATE_SERVER_HELLO_CREATED) && hc_pending c
    then r ← handshake_pending_cancel ps (hc_handshake_id c); mret (Some ctx_failed_zero, r.2)
    else mret (Some ctx_failed_zero, ps)
  end.

(** ** Queries *)
Definition handshake_get_state (ctx : option handshake_ctx_t) : handshake_state_t :=
  match ctx with Some c => hc_state c | None => HANDSHAKE_STATE_FAILED end.

Definition handshake_get_role (ctx : option handshake_ctx_t) (role_out : option handshake_role_t)
    : handshake_status_t * option handshake_role_t :=
  match ctx, role_out with
  | Some c, Some _ =>
    if negb (bool_decide (hc_role c = HANDSHAKE_ROLE_INITIATOR))
       && negb (bool_decide (hc_role c = HANDSHAKE_ROLE_RESPONDER))
    then (HANDSHAKE_ERR_UNEXPECTED_STATE, role_out) else (HANDSHAKE_OK, Some (hc_role c))
  | _, _ => (HANDSHAKE_ERR_INVALID_ARG, role_out)
  end.

(** Result: status and the caller's 16-byte buffer. *)
Definition handshake_get_handshake_id (ctx : option handshake_ctx_t) : handshake_status_t * list byte :=
  let out := zeros WIRE_HANDSHAKE_ID_LEN in
  match ctx with
  | None => (HANDSHAKE_ERR_INVALID_ARG, out)
  | Some c =>
    if negb (bool_decide (hc_state c = HANDSHAKE_STATE_ESTABLISHED)) || negb (hc_keys_committed c)
    then (HANDSHAKE_ERR_UNEXPECTED_STATE, out) else (HANDSHAKE_OK, hc_handshake_id c)
  end.

(** Result: status and [*key_out], the 32 bytes the returned pointer addresses. *)
Definition key_at (ctx : option handshake_ctx_t) (offset : Z) : handshake_status_t * option (list byte) :=
  match ctx with
  | None => (HANDSHAKE_ERR_INVALID_ARG, None)
  | Some c =>
    match hc_session_keys c with
    | Some keys =>
      if negb (bool_decide (hc_state c = HANDSHAKE_STATE_ESTABLISHED)) || negb (hc_keys_committed c)
      then (HANDSHAKE_ERR_UNEXPECTED_STATE, None)
      else (HANDSHAKE_OK, Some (peek offset KEX_SESSION_KEY_BYTES keys))
    | None => (HANDSHAKE_ERR_UNEXPECTED_STATE, None)
    end
  end.

Definition handshake_session_key_c2s (ctx : option handshake_ctx_t) : handshake_status_t * option (list byte) :=
  key_at ctx C2S_OFFSET.
Definition handshake_session_key_s2c (ctx : option handshake_ctx_t) : handshake_status_t * option (list byte) :=
  key_at ctx S2C_OFFSET.

Definition handshake_is_peer_confirmed (ctx : option handshake_ctx_t) : bool :=
  match ctx with
  | None => false
  | Some c => bool_decide (hc_role c = HANDSHAKE_ROLE_RESPONDER)
              && bool_decide (hc_state c = HANDSHAKE_STATE_ESTABLISHED) && hc_keys_committed c
  end.

(** ** Initiator *)

(** A terminal failure of a call with output parameters: they are untouched. *)
Definition fail_out c (why : handshake_status_t) (out : option (list byte)) (out_len : option Z)
    : M (handshake_status_t * option handshake_ctx_t * option (list byte) * option Z) :=
  let '(st, c) := fail_ctx c why in mret (st, Some c, out, out_len).

Definition handshake_initiator_create_client_hello (ctx : option handshake_ctx_t)
    (out : option (list byte)) (out_cap : Z) (out_len : option Z)
    : M (handshake_status_t * option handshake_ctx_t * option (list byte) * option Z) :=
  match check_call ctx HANDSHAKE_ROLE_INITIATOR HANDSHAKE_STATE_NEW, ctx with
  | HANDSHAKE_OK, Some c =>
    match out, out_len with
    | Some o, Some _ =>
      r ← kex_keypair_generate (Some (hc_eph c));
      let c := set_eph c (default (hc_eph c) r.2) in
      if negb (r.1 =? 0) then fail_out c HANDSHAKE_ERR_INTERNAL out out_len else
      r ← mlkem_keypair_generate (Some (hc_kem c));
      let c := set_kem c (default (hc_kem c) r.2) in
      if negb (r.1 =? 0) then fail_out c HANDSHAKE_ERR_INTERNAL out out_len else
      session_id ← randombytes_buf WIRE_SESSION_ID_LEN;
      nonce ← randombytes_buf WIRE_NONCE_LEN;
      let ch := ClientHello (poke 0 (ztake (hc_local_id_len c) (hc_local_id c)) (zeros WIRE_ID_MAX_LEN))
                  (hc_local_id_len c) (kex_pub (hc_eph c)) (kem_pub (hc_kem c)) session_id nonce in
      let '(rc, bytes, len) := encode_client_hello (Some ch) (Some (hc_ch_bytes c))
                                 CLIENT_HELLO_MAX_ENCODED_LEN (Some 0) in
      let c := set_ch c (default [] bytes) (hc_ch_len c) in
      let ch_len := default 0 len in
      if negb (rc =? 0) then fail_out c HANDSHAKE_ERR_INTERNAL out out_len else
      if out_cap <? ch_len then
        let c := set_eph c (kex_keypair_free (hc_eph c)) in
        let c := set_kem c (mlkem_keypair_free (hc_kem c)) in
        let c := set_ch c (zeros CLIENT_HELLO_MAX_ENCODED_LEN) (hc_ch_len c) in
        mret (HANDSHAKE_ERR_INVALID_ARG, Some c, out, out_len)
      else
        let c := set_session_id c (ch_session_id ch) in
        let c := set_ch c (hc_ch_bytes c) ch_len in
        mret (HANDSHAKE_OK, Some (set_state c HANDSHAKE_STATE_CLIENT_HELLO_CREATED),
              Some (poke 0 (ztake ch_len (hc_ch_bytes c)) o), Some ch_len)
    | _, _ => mret (HANDSHAKE_ERR_INVALID_ARG, ctx, out, out_len)
    end
  | st, _ => mret (st, ctx, out, out_len)
  end.

Definition fail_call c (why : handshake_status_t) : M (handshake_status_t * option handshake_ctx_t) :=
  let '(st, c) := fail_ctx c why in mret (st, Some c).

Definition handshake_initiator_verify_server_hello (ctx : option handshake_ctx_t) (sh : option (list byte))
    : M (handshake_status_t * option handshake_ctx_t) :=
  match check_call ctx HANDSHAKE_ROLE_INITIATOR HANDSHAKE_STATE_CLIENT_HELLO_CREATED, ctx with
  | HANDSHAKE_OK, Some c =>
    match sh with
    | None => mret (HANDSHAKE_ERR_INVALID_ARG, ctx)
    | Some b =>
      let '(rc, msg, _) := decode_server_hello sh (Some server_hello_zero) (Some 0) in
      let msg := default server_hello_zero msg in
      (* 2 *) if negb (rc =? 0) then fail_call c HANDSHAKE_ERR_MALFORMED else
      (* 3 *) if negb (sh_id_len msg =? hc_peer_id_len c)
                 || negb (memeq (sh_id msg) (hc_peer_id c) (hc_peer_id_len c))
              then fail_call c HANDSHAKE_ERR_PEER_IDENTITY_MISMATCH else
      (* 4 *) pk ← resolve_peer_pk c (ztake (sh_id_len msg) (sh_id msg));
      let c := set_peer_pk c pk in
      match pk with
      | None => fail_call c HANDSHAKE_ERR_UNKNOWN_IDENTITY
      | Some _ =>
        (* 5 *) if negb (memeq (sh_session_id_echo msg) (hc_session_id c) WIRE_SESSION_ID_LEN)
                then fail_call c HANDSHAKE_ERR_SESSION_ID_MISMATCH else
        (* 6 *) let unsigned_len := transcript_server_hello_unsigned_len (sh_id_len msg) in
        if (unsigned_len =? 0) || (blen b <=? unsigned_len) then fail_call c HANDSHAKE_ERR_INTERNAL else
        let ch := ztake (hc_ch_len c) (hc_ch_bytes c) in
        match transcript_hash_server_auth ch (ztake unsigned_len b) with
        | None => fail_call c HANDSHAKE_ERR_INTERNAL
        | Some th_server_auth =>
          (* 7 *) rc ← mldsa_verify th_server_auth (ztake (sh_sig_len msg) (sh_sig msg)) (hc_peer_pk c);
          if negb (rc =? 0) then fail_call c HANDSHAKE_ERR_SIGNATURE else
          (* 8 *) probe ← secure_mem_alloc KEX_SHARED_SECRET_BYTES;
          match probe with
          | None => fail_call c HANDSHAKE_ERR_RESOURCE_EXHAUSTED
          | Some _ =>
            match kex_shared_secret (hc_eph c) (sh_ephemeral_pub msg) with
            | None => fail_call c HANDSHAKE_ERR_KEX
            | Some _ =>
              (* 9 *) let c := set_peer_eph_pub c (sh_ephemeral_pub msg) in
              let c := set_peer_mlkem_ct c (sh_mlkem_ct msg) in
              match transcript_hash_client_auth ch b, transcript_handshake_id ch b with
              | Some th, Some hid =>
                let c := set_handshake_id (set_th_client_auth c th) hid in
                (* 10 *) let c := set_ch c (zeros CLIENT_HELLO_MAX_ENCODED_LEN) 0 in
                mret (HANDSHAKE_OK, Some (set_state c HANDSHAKE_STATE_SERVER_HELLO_VERIFIED))
              | _, _ => fail_call c HANDSHAKE_ERR_INTERNAL
              end
            end
          end
        end
      end
    end
  | st, _ => mret (st, ctx)
  end.

Definition handshake_initiator_create_client_auth (ctx : option handshake_ctx_t)
    (out : option (list byte)) (out_cap : Z) (out_len : option Z)
    : M (handshake_status_t * option handshake_ctx_t * option (list byte) * option Z) :=
  match check_call ctx HANDSHAKE_ROLE_INITIATOR HANDSHAKE_STATE_SERVER_HELLO_VERIFIED, ctx with
  | HANDSHAKE_OK, Some c =>
    match out, out_len with
    | Some o, Some _ =>
      sig ← mldsa_sign (hc_th_client_auth c) (hc_local_keypair c);
      match sig with
      | None => fail_out c HANDSHAKE_ERR_INTERNAL out out_len
      | Some sig =>
        if (blen sig =? 0) || (MLDSA_SIGNATURE_MAX_BYTES <? blen sig)
        then fail_out c HANDSHAKE_ERR_INTERNAL out out_len else
        let ca := ClientAuth (hc_handshake_id c) (poke 0 sig (zeros MLDSA_SIGNATURE_MAX_BYTES)) (blen sig) in
        let '(rc, buf, len) := encode_client_auth (Some ca) (Some (zeros CLIENT_AUTH_MAX_ENCODED_LEN))
                                 CLIENT_AUTH_MAX_ENCODED_LEN (Some 0) in
        let len := default 0 len in
        if negb (rc =? 0) then fail_out c HANDSHAKE_ERR_INTERNAL out out_len else
        if out_cap <? len then mret (HANDSHAKE_ERR_INVALID_ARG, ctx, out, out_len) else
        mret (HANDSHAKE_OK, Some (set_state c HANDSHAKE_STATE_CLIENT_AUTH_CREATED),
              Some (poke 0 (ztake len (default [] buf)) o), Some len)
      end
    | _, _ => mret (HANDSHAKE_ERR_INVALID_ARG, ctx, out, out_len)
    end
  | st, _ => mret (st, ctx, out, out_len)
  end.

Definition handshake_initiator_finish (ctx : option handshake_ctx_t)
    : M (handshake_status_t * option handshake_ctx_t) :=
  match check_call ctx HANDSHAKE_ROLE_INITIATOR HANDSHAKE_STATE_CLIENT_AUTH_CREATED, ctx with
  | HANDSHAKE_OK, Some c =>
    (* 1 *) shared ← secure_mem_alloc KEX_SHARED_SECRET_BYTES;
    match shared with
    | None => fail_call c HANDSHAKE_ERR_RESOURCE_EXHAUSTED
    | Some _ =>
      match kex_shared_secret (hc_eph c) (hc_peer_eph_pub c) with
      | None => fail_call c HANDSHAKE_ERR_KEX
      | Some shared =>
        (* 2 *) ss_kem ← secure_mem_alloc MLKEM_SHARED_SECRET_BYTES;
        match ss_kem with
        | None => fail_call c HANDSHAKE_ERR_RESOURCE_EXHAUSTED
        | Some _ =>
          r ← mlkem_decaps (hc_peer_mlkem_ct c) (hc_kem c);
          let '(rc, ss_kem) := r in
          if negb (rc =? 0) then fail_call c HANDSHAKE_ERR_INTERNAL else
          (* 3 *) keys ← secure_mem_alloc SESSION_KEYS_LEN;
          match keys with
          | None => fail_call c HANDSHAKE_ERR_RESOURCE_EXHAUSTED
          | Some _ =>
            match derive_traffic_keys shared ss_kem (hc_session_id c)
                    (ztake (hc_local_id_len c) (hc_local_id c)) (ztake (hc_peer_id_len c) (hc_peer_id c))
                    (hc_th_client_auth c) with
            | None => fail_call c HANDSHAKE_ERR_INTERNAL
            | Some keys =>
              let c := set_keys c (poke 0 keys <$> hc_session_keys c) true in
              (* 4 *) let c := set_eph c (kex_keypair_free (hc_eph c)) in
              let c := set_kem c (mlkem_keypair_free (hc_kem c)) in
              let c := set_th_client_auth c (zeros HANDSHAKE_TRANSCRIPT_HASH_BYTES) in
              let c := set_peer_eph_pub c (zeros KEX_PUBLIC_KEY_BYTES) in
              let c := set_peer_mlkem_ct c (zeros WIRE_MLKEM_CT_LEN) in
              mret (HANDSHAKE_OK, Some (set_state c HANDSHAKE_STATE_ESTABLISHED))
            end
          end
        end
      end
    end
  | st, _ => mret (st, ctx)
  end.

(** ** Responder *)
Definition handshake_responder_accept_client_hello (ctx : option handshake_ctx_t) (ch : option (list byte))
    : M (handshake_status_t * option handshake_ctx_t) :=
  match check_call ctx HANDSHAKE_ROLE_RESPONDER HANDSHAKE_STATE_NEW, ctx with
  | HANDSHAKE_OK, Some c =>
    match ch with
    | None => mret (HANDSHAKE_ERR_INVALID_ARG, ctx)
    | Some b =>
      let '(rc, msg, _) := decode_client_hello ch (Some client_hello_zero) (Some 0) in
      let msg := default client_hello_zero msg in
      if negb (rc =? 0) || (CLIENT_HELLO_MAX_ENCODED_LEN <? blen b)
      then fail_call c HANDSHAKE_ERR_MALFORMED else
      pk ← resolve_peer_pk c (ztake (ch_id_len msg) (ch_id msg));
      let c := set_peer_pk c pk in
      match pk with
      | None => fail_call c HANDSHAKE_ERR_UNKNOWN_IDENTITY
      | Some _ =>
        let c := set_peer c (poke 0 (ztake (ch_id_len msg) (ch_id msg)) (hc_peer_id c)) (ch_id_len msg) in
        let c := set_session_id c (ch_session_id msg) in
        let c := set_peer_eph_pub c (ch_ephemeral_pub msg) in
        let c := set_ch c (poke 0 b (hc_ch_bytes c)) (blen b) in
        mret (HANDSHAKE_OK, Some (set_state c HANDSHAKE_STATE_CLIENT_HELLO_ACCEPTED))
      end
    end
  | st, _ => mret (st, ctx)
  end.

(** Results of the calls that also use the ledger. *)
Definition fail_out_ps c (why : handshake_status_t) ps (out : option (list byte)) (out_len : option Z)
    : M (handshake_status_t * option handshake_ctx_t * option handshake_pending_store_t *
         option (list byte) * option Z) :=
  let '(st, c) := fail_ctx c why in mret (st, Some c, ps, out, out_len).

Definition handshake_responder_create_server_hello (ctx : option handshake_ctx_t) ps
    (out : option (list byte)) (out_cap : Z) (out_len : option Z)
    : M (handshake_status_t * option handshake_ctx_t * option handshake_pending_store_t *
         option (list byte) * option Z) :=
  match check_call ctx HANDSHAKE_ROLE_RESPONDER HANDSHAKE_STATE_CLIENT_HELLO_ACCEPTED, ctx with
  | HANDSHAKE_OK, Some c =>
    match out, out_len with
    | Some o, Some _ =>
      r ← kex_keypair_generate (Some (hc_eph c));
      let c := set_eph c (default (hc_eph c) r.2) in
      if negb (r.1 =? 0) then fail_out_ps c HANDSHAKE_ERR_INTERNAL ps out out_len else
      nonce ← randombytes_buf WIRE_NONCE_LEN;
      let ch_bytes := ztake (hc_ch_len c) (hc_ch_bytes c) in
      let '(rc, ch, _) := decode_client_hello (Some ch_bytes) (Some client_hello_zero) (Some 0) in
      let ch := default client_hello_zero ch in
      if negb (rc =? 0) then fail_out_ps c HANDSHAKE_ERR_INTERNAL ps out out_len else
      ss_kem ← secure_mem_alloc MLKEM_SHARED_SECRET_BYTES;
      let c := set_ss_kem c ss_kem in
      match ss_kem with
      | None => fail_out_ps c HANDSHAKE_ERR_RESOURCE_EXHAUSTED ps out out_len
      | Some _ =>
        r ← mlkem_encaps (ch_mlkem_ek ch);
        let '(rc, ct, ss) := r in
        let c := set_ss_kem c (Some ss) in
        if negb (rc =? 0) then fail_out_ps c HANDSHAKE_ERR_KEX ps out out_len else
        let sh := ServerHello (poke 0 (ztake (hc_local_id_len c) (hc_local_id c)) (zeros WIRE_ID_MAX_LEN))
                    (hc_local_id_len c) (kex_pub (hc_eph c)) ct nonce (hc_session_id c)
                    (zeros MLDSA_SIGNATURE_MAX_BYTES) 0 in
        let '(rc, sh_unsigned, unsigned_len) :=
          encode_server_hello_unsigned (Some sh) (Some (zeros SERVER_HELLO_UNSIGNED_MAX_ENCODED_LEN))
            SERVER_HELLO_UNSIGNED_MAX_ENCODED_LEN (Some 0) in
        let sh_unsigned := default [] sh_unsigned in
        let unsigned_len := default 0 unsigned_len in
        if negb (rc =? 0) then fail_out_ps c HANDSHAKE_ERR_INTERNAL ps out out_len else
        match transcript_hash_server_auth ch_bytes (ztake unsigned_len sh_unsigned) with
        | None => fail_out_ps c HANDSHAKE_ERR_INTERNAL ps out out_len
        | Some th_server_auth =>
          sig ← mldsa_sign th_server_auth (hc_local_keypair c);
          match sig with
          | None => fail_out_ps c HANDSHAKE_ERR_INTERNAL ps out out_len
          | Some sig =>
            if (blen sig =? 0) || (MLDSA_SIGNATURE_MAX_BYTES <? blen sig)
            then fail_out_ps c HANDSHAKE_ERR_INTERNAL ps out out_len else
            let sh := ServerHello (sh_id sh) (sh_id_len sh) (sh_ephemeral_pub sh) (sh_mlkem_ct sh)
                        (sh_nonce sh) (sh_session_id_echo sh)
                        (poke 0 sig (zeros MLDSA_SIGNATURE_MAX_BYTES)) (blen sig) in
            let '(rc, sh_full, full_len) :=
              encode_server_hello (Some sh) (Some (zeros SERVER_HELLO_MAX_ENCODED_LEN))
                SERVER_HELLO_MAX_ENCODED_LEN (Some 0) in
            let sh_full := default [] sh_full in
            let full_len := default 0 full_len in
            if negb (rc =? 0) then fail_out_ps c HANDSHAKE_ERR_INTERNAL ps out out_len else
            if (full_len <=? unsigned_len) || negb (memeq sh_full sh_unsigned unsigned_len)
            then fail_out_ps c HANDSHAKE_ERR_INTERNAL ps out out_len else
            if out_cap <? full_len then
              let c := set_ss_kem (set_eph c (kex_keypair_free (hc_eph c))) None in
              mret (HANDSHAKE_ERR_INVALID_ARG, Some c, ps, out, out_len)
            else
            let sh_bytes := ztake full_len sh_full in
            match transcript_hash_client_auth ch_bytes sh_bytes, transcript_handshake_id ch_bytes sh_bytes with
            | Some th_client_auth, Some handshake_id =>
              r ← handshake_pending_insert ps handshake_id th_client_auth;
              let '(pst, ps) := r in
              match pst with
              | PENDING_OK =>
                let c := set_handshake_id c handshake_id in
                let c := set_ch c (zeros CLIENT_HELLO_MAX_ENCODED_LEN) 0 in
                mret (HANDSHAKE_OK, Some (set_state c HANDSHAKE_STATE_SERVER_HELLO_CREATED), ps,
                      Some (poke 0 sh_bytes o), Some full_len)
              | PENDING_ERR_FULL => fail_out_ps c HANDSHAKE_ERR_RESOURCE_EXHAUSTED ps out out_len
              | _ => fail_out_ps c HANDSHAKE_ERR_INTERNAL ps out out_len
              end
            | _, _ => fail_out_ps c HANDSHAKE_ERR_INTERNAL ps out out_len
            end
          end
        end
      end
    | _, _ => mret (HANDSHAKE_ERR_INVALID_ARG, ctx, ps, out, out_len)
    end
  | st, _ => mret (st, ctx, ps, out, out_len)
  end.

Definition fail_ps c (why : handshake_status_t) ps
    : M (handshake_status_t * option handshake_ctx_t * option handshake_pending_store_t) :=
  let '(st, c) := fail_ctx c why in mret (st, Some c, ps).

(** The [cancel_and_fail] label: reclaim the ledger entry, then fail. *)
Definition cancel_and_fail c (why : handshake_status_t) ps
    : M (handshake_status_t * option handshake_ctx_t * option handshake_pending_store_t) :=
  r ← handshake_pending_cancel ps (hc_handshake_id c);
  fail_ps c why r.2.

Definition handshake_responder_verify_client_auth (ctx : option handshake_ctx_t) ps (ca : option (list byte))
    : M (handshake_status_t * option handshake_ctx_t * option handshake_pending_store_t) :=
  match check_call ctx HANDSHAKE_ROLE_RESPONDER HANDSHAKE_STATE_SERVER_HELLO_CREATED, ctx with
  | HANDSHAKE_OK, Some c =>
    match ca with
    | None => mret (HANDSHAKE_ERR_INVALID_ARG, ctx, ps)
    | Some _ =>
      (* 2 *) let '(rc, msg, _) := decode_client_auth ca (Some client_auth_zero) (Some 0) in
      let msg := default client_auth_zero msg in
      if negb (rc =? 0) then mret (HANDSHAKE_ERR_MALFORMED, ctx, ps) else
      (* 3 *) if negb (memeq (ca_handshake_id msg) (hc_handshake_id c) WIRE_HANDSHAKE_ID_LEN)
      then mret (HANDSHAKE_ERR_HANDSHAKE_ID_MISMATCH, ctx, ps) else
      (* 4 *) r ← handshake_pending_get_digest ps (hc_handshake_id c);
      let '(pst, ps, digest) := r in
      if negb (bool_decide (pst = PENDING_OK)) then fail_ps c (map_pending_failure pst) ps else
      (* 5 *) rc ← mldsa_verify digest (ztake (ca_sig_len msg) (ca_sig msg)) (hc_peer_pk c);
      if negb (rc =? 0) then
        r ← handshake_pending_record_failure ps (hc_handshake_id c);
        let '(pst, ps) := r in
        if bool_decide (pst = PENDING_OK) then mret (HANDSHAKE_ERR_SIGNATURE, ctx, ps)
        else fail_ps c (map_pending_failure pst) ps
      else
      (* 6 *) shared ← secure_mem_alloc KEX_SHARED_SECRET_BYTES;
      match shared with
      | None => cancel_and_fail c HANDSHAKE_ERR_RESOURCE_EXHAUSTED ps
      | Some _ =>
        match kex_shared_secret (hc_eph c) (hc_peer_eph_pub c) with
        | None => cancel_and_fail c HANDSHAKE_ERR_KEX ps
        | Some shared =>
          (* 7 *) match hc_ss_kem c with
          | None => cancel_and_fail c HANDSHAKE_ERR_INTERNAL ps
          | Some ss_kem =>
            keys ← secure_mem_alloc SESSION_KEYS_LEN;
            match keys with
            | None => cancel_and_fail c HANDSHAKE_ERR_RESOURCE_EXHAUSTED ps
            | Some _ =>
              match derive_traffic_keys shared ss_kem (hc_session_id c)
                      (ztake (hc_peer_id_len c) (hc_peer_id c)) (ztake (hc_local_id_len c) (hc_local_id c))
                      digest with
              | None => cancel_and_fail c HANDSHAKE_ERR_INTERNAL ps
              | Some keys =>
                (* 8 *) r ← handshake_pending_consume_success ps (hc_handshake_id c);
                let '(pst, ps) := r in
                if negb (bool_decide (pst = PENDING_OK)) then fail_ps c (map_pending_failure pst) ps else
                (* 9 *) let c := set_keys c (poke 0 keys <$> hc_session_keys c) true in
                (* 10 *) let c := set_ss_kem c None in
                mret (HANDSHAKE_OK, Some (set_state c HANDSHAKE_STATE_CLIENT_AUTH_VERIFIED), ps)
              end
            end
          end
        end
      end
    end
  | st, _ => mret (st, ctx, ps)
  end.

Definition handshake_responder_finish (ctx : option handshake_ctx_t)
    : handshake_status_t * option handshake_ctx_t :=
  match check_call ctx HANDSHAKE_ROLE_RESPONDER HANDSHAKE_STATE_CLIENT_AUTH_VERIFIED, ctx with
  | HANDSHAKE_OK, Some c =>
    let c := set_eph c (kex_keypair_free (hc_eph c)) in
    let c := set_peer_eph_pub c (zeros KEX_PUBLIC_KEY_BYTES) in
    (HANDSHAKE_OK, Some (set_state c HANDSHAKE_STATE_ESTABLISHED))
  | st, _ => (st, ctx)
  end.

End handshake.
