(* ===== verification/HandshakeProps.v ===== *)
(** * Theorems about the handshake state machine

    One type of API calls with the state each needs and leads to; an invariant
    of every reachable context (which secrets exist in which state); what a
    successful verification on either side implies; what each failure does to
    the context and to the ledger; and the completeness of an honest run. *)

From S2P Require Import Prelude WireInt Extern Toy Crypto Transcript Keystore Pending Handshake.

(** ** API calls *)
Inductive hs_call :=
  | CallCreateClientHello (out : option (list byte)) (out_cap : Z) (out_len : option Z)
  | CallVerifyServerHello (sh : option (list byte))
  | CallCreateClientAuth (out : option (list byte)) (out_cap : Z) (out_len : option Z)
  | CallInitiatorFinish
  | CallAcceptClientHello (ch : option (list byte))
  | CallCreateServerHello (out : option (list byte)) (out_cap : Z) (out_len : option Z)
  | CallVerifyClientAuth (ca : option (list byte))
  | CallResponderFinish.

Definition call_role (k : hs_call) : handshake_role_t :=
  match k with
  | CallCreateClientHello _ _ _ | CallVerifyServerHello _ | CallCreateClientAuth _ _ _ | CallInitiatorFinish =>
      HANDSHAKE_ROLE_INITIATOR
  | _ => HANDSHAKE_ROLE_RESPONDER
  end.

Definition call_state (k : hs_call) : handshake_state_t :=
  match k with
  | CallCreateClientHello _ _ _ | CallAcceptClientHello _ => HANDSHAKE_STATE_NEW
  | CallVerifyServerHello _ => HANDSHAKE_STATE_CLIENT_HELLO_CREATED
  | CallCreateClientAuth _ _ _ => HANDSHAKE_STATE_SERVER_HELLO_VERIFIED
  | CallInitiatorFinish => HANDSHAKE_STATE_CLIENT_AUTH_CREATED
  | CallCreateServerHello _ _ _ => HANDSHAKE_STATE_CLIENT_HELLO_ACCEPTED
  | CallVerifyClientAuth _ => HANDSHAKE_STATE_SERVER_HELLO_CREATED
  | CallResponderFinish => HANDSHAKE_STATE_CLIENT_AUTH_VERIFIED
  end.

Definition call_next (k : hs_call) : handshake_state_t :=
  match k with
  | CallCreateClientHello _ _ _ => HANDSHAKE_STATE_CLIENT_HELLO_CREATED
  | CallVerifyServerHello _ => HANDSHAKE_STATE_SERVER_HELLO_VERIFIED
  | CallCreateClientAuth _ _ _ => HANDSHAKE_STATE_CLIENT_AUTH_CREATED
  | CallAcceptClientHello _ => HANDSHAKE_STATE_CLIENT_HELLO_ACCEPTED
  | CallCreateServerHello _ _ _ => HANDSHAKE_STATE_SERVER_HELLO_CREATED
  | CallVerifyClientAuth _ => HANDSHAKE_STATE_CLIENT_AUTH_VERIFIED
  | CallInitiatorFinish | CallResponderFinish => HANDSHAKE_STATE_ESTABLISHED
  end.

Definition call_out (k : hs_call) : option (list byte) * option Z :=
  match k with
  | CallCreateClientHello out _ len | CallCreateClientAuth out _ len | CallCreateServerHello out _ len =>
      (out, len)
  | _ => (None, None)
  end.

(** Contexts carry their array sizes as invariants. *)
Record ctx_sized `{Env} (c : handshake_ctx_t) : Prop := {
  cs_role : hc_role c <> HANDSHAKE_ROLE_NONE;
  cs_local_id : blen (hc_local_id c) = WIRE_ID_MAX_LEN;
  cs_local_len : id_ok (hc_local_id_len c);
  cs_peer_id : blen (hc_peer_id c) = WIRE_ID_MAX_LEN;
  cs_session_id : blen (hc_session_id c) = WIRE_SESSION_ID_LEN;
  cs_ch : blen (hc_ch_bytes c) = CLIENT_HELLO_MAX_ENCODED_LEN;
  cs_eph_pub : blen (hc_peer_eph_pub c) = KEX_PUBLIC_KEY_BYTES;
  cs_hid : blen (hc_handshake_id c) = WIRE_HANDSHAKE_ID_LEN;
  cs_th : blen (hc_th_client_auth c) = HANDSHAKE_TRANSCRIPT_HASH_BYTES;
  cs_ct : blen (hc_peer_mlkem_ct c) = WIRE_MLKEM_CT_LEN;
  cs_keys : exists l, hc_session_keys c = Some l /\ blen l = SESSION_KEYS_LEN }.

(** ** Tactics *)

(** Reduces field accesses of updated contexts. *)
Ltac hc :=
  cbn [hc_role hc_state hc_local_id hc_local_id_len hc_local_keypair hc_keystore hc_lookup_fn hc_pending
       hc_peer_id hc_peer_id_len hc_peer_pk hc_session_id hc_ch_bytes hc_ch_len hc_peer_eph_pub
       hc_handshake_id hc_th_client_auth hc_eph hc_kem hc_peer_mlkem_ct hc_ss_kem hc_session_keys
       hc_keys_committed set_state set_pending set_peer set_peer_pk set_session_id set_ch set_peer_eph_pub
       set_handshake_id set_th_client_auth set_eph set_kem set_peer_mlkem_ct set_ss_kem set_keys
       kex_pub kex_priv kem_pub kem_sec default id fst snd] in *.

(** Opens the next call, test or match of a computation that returned. *)
Ltac mopen H :=
  match type of H with
  | mret _ _ = _ => rewrite M_ret_unfold in H
  | (_ ≫= _) ?w = _ =>
      rewrite M_bind_unfold in H;
      match type of H with
      | context [fst (?m w)] =>
          let r := fresh "x" in let w' := fresh "wz" in let Hr := fresh "Hcall" in
          destruct (m w) as [r w'] eqn:Hr; cbn [fst snd] in H
      end
  | (let '(_, _) := ?x in _) _ = _ => destruct x as [? ?] eqn:?; cbn [fst snd] in H
  | (if ?b then _ else _) _ = _ => destruct b eqn:?
  | (match ?x with _ => _ end) _ = _ => destruct x eqn:?
  end; cbv beta zeta in H.
Ltac mopens H := cbv beta zeta in H; repeat mopen H.

Section props.
Context `{ES : EnvSizes}.
Implicit Types (c : handshake_ctx_t) (ps : option handshake_pending_store_t).

Definition exec_call (k : hs_call) (ctx : option handshake_ctx_t) ps
    : M (handshake_status_t * option handshake_ctx_t * option handshake_pending_store_t *
         option (list byte) * option Z) :=
  match k with
  | CallCreateClientHello out cap len =>
      r ← handshake_initiator_create_client_hello ctx out cap len;
      let '(st, c, o, n) := r in mret (st, c, ps, o, n)
  | CallVerifyServerHello sh =>
      r ← handshake_initiator_verify_server_hello ctx sh; mret (r.1, r.2, ps, None, None)
  | CallCreateClientAuth out cap len =>
      r ← handshake_initiator_create_client_auth ctx out cap len;
      let '(st, c, o, n) := r in mret (st, c, ps, o, n)
  | CallInitiatorFinish => r ← handshake_initiator_finish ctx; mret (r.1, r.2, ps, None, None)
  | CallAcceptClientHello ch =>
      r ← handshake_responder_accept_client_hello ctx ch; mret (r.1, r.2, ps, None, None)
  | CallCreateServerHello out cap len => handshake_responder_create_server_hello ctx ps out cap len
  | CallVerifyClientAuth ca =>
      r ← handshake_responder_verify_client_auth ctx ps ca;
      let '(st, c, ps) := r in mret (st, c, ps, None, None)
  | CallResponderFinish => let '(st, c) := handshake_responder_finish ctx in mret (st, c, ps, None, None)
  end.

(** ** The invariant: which secrets a context holds in which state *)
Definition role_state_ok (r : handshake_role_t) (s : handshake_state_t) : bool :=
  match r, s with
  | HANDSHAKE_ROLE_NONE, HANDSHAKE_STATE_FAILED => true
  | HANDSHAKE_ROLE_NONE, _ => false
  | _, (HANDSHAKE_STATE_NEW | HANDSHAKE_STATE_ESTABLISHED | HANDSHAKE_STATE_FAILED) => true
  | HANDSHAKE_ROLE_INITIATOR, (HANDSHAKE_STATE_CLIENT_HELLO_CREATED
      | HANDSHAKE_STATE_SERVER_HELLO_VERIFIED | HANDSHAKE_STATE_CLIENT_AUTH_CREATED) => true
  | HANDSHAKE_ROLE_RESPONDER, (HANDSHAKE_STATE_CLIENT_HELLO_ACCEPTED
      | HANDSHAKE_STATE_SERVER_HELLO_CREATED | HANDSHAKE_STATE_CLIENT_AUTH_VERIFIED) => true
  | _, _ => false
  end.

Definition needs_eph (s : handshake_state_t) : bool :=
  match s with
  | HANDSHAKE_STATE_CLIENT_HELLO_CREATED | HANDSHAKE_STATE_SERVER_HELLO_VERIFIED
  | HANDSHAKE_STATE_CLIENT_AUTH_CREATED | HANDSHAKE_STATE_SERVER_HELLO_CREATED
  | HANDSHAKE_STATE_CLIENT_AUTH_VERIFIED => true
  | _ => false
  end.

Definition needs_kem (s : handshake_state_t) : bool :=
  match s with
  | HANDSHAKE_STATE_CLIENT_HELLO_CREATED | HANDSHAKE_STATE_SERVER_HELLO_VERIFIED
  | HANDSHAKE_STATE_CLIENT_AUTH_CREATED => true
  | _ => false
  end.

Definition needs_ss_kem (s : handshake_state_t) : bool :=
  match s with HANDSHAKE_STATE_SERVER_HELLO_CREATED => true | _ => false end.

Definition has_keys (s : handshake_state_t) : bool :=
  match s with
  | HANDSHAKE_STATE_CLIENT_AUTH_VERIFIED | HANDSHAKE_STATE_ESTABLISHED => true
  | _ => false
  end.

Record ctx_live c : Prop := {
  cl_sized : ctx_sized c;
  cl_role_state : role_state_ok (hc_role c) (hc_state c) = true;
  cl_eph : is_some (kex_priv (hc_eph c)) = needs_eph (hc_state c);
  cl_kem : is_some (kem_sec (hc_kem c)) = needs_kem (hc_state c);
  cl_ss : is_some (hc_ss_kem c) = needs_ss_kem (hc_state c);
  cl_committed : hc_keys_committed c = has_keys (hc_state c);
  cl_keys : hc_keys_committed c = false -> hc_session_keys c = Some (zeros SESSION_KEYS_LEN);
  cl_new : hc_state c = HANDSHAKE_STATE_NEW ->
    hc_eph c = KexKeypair (zeros KEX_PUBLIC_KEY_BYTES) None /\
    hc_kem c = MlkemKeypair (zeros MLKEM_PUBLIC_KEY_BYTES) None /\
    hc_ch_bytes c = zeros CLIENT_HELLO_MAX_ENCODED_LEN;
  cl_accepted : hc_state c = HANDSHAKE_STATE_CLIENT_HELLO_ACCEPTED ->
    hc_eph c = KexKeypair (zeros KEX_PUBLIC_KEY_BYTES) None;
  cl_failed : hc_state c = HANDSHAKE_STATE_FAILED ->
    hc_ch_bytes c = zeros CLIENT_HELLO_MAX_ENCODED_LEN /\ hc_ch_len c = 0 /\
    hc_th_client_auth c = zeros HANDSHAKE_TRANSCRIPT_HASH_BYTES /\
    hc_handshake_id c = zeros WIRE_HANDSHAKE_ID_LEN /\
    hc_peer_eph_pub c = zeros KEX_PUBLIC_KEY_BYTES /\ hc_peer_mlkem_ct c = zeros WIRE_MLKEM_CT_LEN }.

Definition ctx_inv c : Prop := c = ctx_failed_zero \/ ctx_live c.

Lemma check_call_ok c r s : hc_role c = r -> hc_state c = s -> check_call (Some c) r s = HANDSHAKE_OK.
Proof. intros Hr Hs. unfold check_call. by rewrite !bool_decide_eq_true_2 by done. Qed.

Lemma check_call_bad c r s :
  hc_role c <> r \/ hc_state c <> s -> check_call (Some c) r s = HANDSHAKE_ERR_UNEXPECTED_STATE.
Proof.
  intros H. unfold check_call.
  destruct H; [rewrite (bool_decide_eq_false_2 (hc_role c = r)) by done; done|].
  rewrite (bool_decide_eq_false_2 (hc_state c = s)) by done. by rewrite orb_true_r.
Qed.

(** ** Terminal failure *)
Lemma wipe_keys l : blen l = SESSION_KEYS_LEN -> secure_mem_wipe (Some l) SESSION_KEYS_LEN = Some (zeros SESSION_KEYS_LEN).
Proof.
  intros Hl. unfold secure_mem_wipe. change (SESSION_KEYS_LEN =? 0) with false. cbv iota.
  rewrite poke_0_full; [done|]. pose proof (length_zeros SESSION_KEYS_LEN ltac:(done)). lia.
Qed.

Lemma fail_ctx_live c why : ctx_sized c -> ctx_live (fail_ctx c why).2 /\ hc_state (fail_ctx c why).2 = HANDSHAKE_STATE_FAILED.
Proof.
  intros [Hrole ????????? (l & Hl & Hlen)]. unfold fail_ctx. hc. split; [|done].
  split; hc; try done.
  - split; hc; try done. exists (zeros SESSION_KEYS_LEN). rewrite Hl, wipe_keys by done. done.
  - by destruct (hc_role c).
  - intros _. rewrite Hl. by apply wipe_keys.
Qed.

(** ** Outcome of one call *)
Definition trans (k : hs_call) c (st : handshake_status_t) c' : Prop :=
  hc_role c' = hc_role c /\
  match st with
  | HANDSHAKE_OK => hc_role c = call_role k /\ hc_state c = call_state k /\ hc_state c' = call_next k
  | HANDSHAKE_ERR_INVALID_ARG | HANDSHAKE_ERR_UNEXPECTED_STATE => c' = c
  | _ => hc_state c' = HANDSHAKE_STATE_FAILED \/ c' = c
  end.

Definition outcome (k : hs_call) c (st : handshake_status_t) (o : option handshake_ctx_t) : Prop :=
  exists c', o = Some c' /\ ctx_live c' /\ trans k c st c'.

(** Statuses other than success and API misuse. *)
Definition terminal_status (st : handshake_status_t) : bool :=
  match st with
  | HANDSHAKE_OK | HANDSHAKE_ERR_INVALID_ARG | HANDSHAKE_ERR_UNEXPECTED_STATE => false
  | _ => true
  end.

(** The call ended in [fail_ctx]. *)
Definition failed c (st : handshake_status_t) (o : option handshake_ctx_t) : Prop :=
  exists c1, ctx_sized c1 /\ hc_role c1 = hc_role c /\ terminal_status st = true /\ o = Some (fail_ctx c1 st).2.

Lemma outcome_fail k c st o : failed c st o -> outcome k c st o.
Proof.
  intros (c1 & Hs & Hr & Hw & ->). destruct (fail_ctx_live c1 st Hs) as [Hl Hst].
  exists (fail_ctx c1 st).2. split_and!; [done..|]. split; [done|]. by destruct st; try done; left.
Qed.

Lemma outcome_same k c st :
  ctx_live c -> st <> HANDSHAKE_OK -> outcome k c st (Some c).
Proof. intros Hl Hst. exists c. split_and!; [done..|]. split; [done|]. destruct st; try done; by right. Qed.

Lemma outcome_next k c c' :
  ctx_live c' -> hc_role c = call_role k -> hc_state c = call_state k -> hc_role c' = hc_role c ->
  hc_state c' = call_next k -> outcome k c HANDSHAKE_OK (Some c').
Proof. intros. exists c'. by split_and!. Qed.

(** ** The wrapped primitives *)
Lemma kex_generate_cases kp w rc o w' :
  kex_keypair_generate (Some kp) w = ((rc, o), w') ->
  (rc = -1 /\ o = Some (KexKeypair (zeros KEX_PUBLIC_KEY_BYTES) None)) \/
  (exists sk pk, rc = 0 /\ o = Some (KexKeypair pk (Some sk)) /\ crypto_scalarmult_base sk = Some pk /\
     blen pk = KEX_PUBLIC_KEY_BYTES).
Proof.
  unfold kex_keypair_generate. intros H. mopens H; simplify_eq; [|by left..].
  right. eexists _, _. split_and!; [done..|]. by eapply scalarmult_base_len.
Qed.

Lemma mlkem_generate_cases kp w rc o w' :
  mlkem_keypair_generate (Some kp) w = ((rc, o), w') ->
  (rc = -1 /\ o = Some (MlkemKeypair (zeros MLKEM_PUBLIC_KEY_BYTES) None)) \/
  (exists pk sk w0 w1, rc = 0 /\ o = Some (MlkemKeypair pk (Some sk)) /\
     OQS_KEM_keypair w0 = (Some (pk, sk), w1) /\ blen pk = MLKEM_PUBLIC_KEY_BYTES).
Proof.
  unfold mlkem_keypair_generate. intros H. mopens H; simplify_eq; try (by left).
  right. eexists _, _, _, _. split_and!; [done..|]. by eapply kem_keypair_len.
Qed.

(** A context updated field by field keeps its sizes. *)
Ltac sized := let H := fresh in
  match goal with Hs : ctx_sized ?c |- ctx_sized _ => destruct Hs; split; hc; try done; eauto with lia end.

Lemma run_out_fail c c1 why out len w r w' :
  fail_out c1 why out len w = (r, w') -> ctx_sized c1 -> hc_role c1 = hc_role c -> terminal_status why = true ->
  exists o, failed c why o /\ r = (why, o, out, len).
Proof.
  unfold fail_out. intros H Hs Hr Hw. eexists. split; [by exists c1|].
  change (fail_ctx c1 why) with (why, (fail_ctx c1 why).2) in H. cbv beta iota in H.
  rewrite M_ret_unfold in H. by apply pair_equal_spec in H as [<- _].
Qed.

Lemma run_fail c c1 why w r w' :
  fail_call c1 why w = (r, w') -> ctx_sized c1 -> hc_role c1 = hc_role c -> terminal_status why = true ->
  failed c why r.2 /\ r.1 = why.
Proof.
  unfold fail_call. intros H Hs Hr Hw.
  change (fail_ctx c1 why) with (why, (fail_ctx c1 why).2) in H. cbv beta iota in H.
  rewrite M_ret_unfold in H. apply pair_equal_spec in H as [<- _]. split; [by exists c1|done].
Qed.

Lemma id_sized l n : blen l = WIRE_ID_MAX_LEN -> id_ok n -> blen (poke 0 (ztake n l) (zeros WIRE_ID_MAX_LEN)) = WIRE_ID_MAX_LEN.
Proof.
  intros Hl [H1 H2]. unfold WIRE_ID_MIN_LEN, WIRE_ID_MAX_LEN in *.
  rewrite length_poke, length_zeros; rewrite ?length_take, ?length_zeros; lia.
Qed.

(** Valid messages fit the buffers of their maximal size. *)
Lemma client_hello_fits m :
  client_hello_valid m -> client_hello_encoded_len (ch_id_len m) <= CLIENT_HELLO_MAX_ENCODED_LEN.
Proof. intros [_ ?]. wirelia. Qed.
Lemma server_hello_fits m :
  server_hello_valid m ->
  server_hello_unsigned_encoded_len (sh_id_len m) + 2 + sh_sig_len m <= SERVER_HELLO_MAX_ENCODED_LEN.
Proof. intros (_ & ? & ?). wirelia. Qed.
Lemma client_auth_fits m :
  client_auth_valid m -> 1 + WIRE_HANDSHAKE_ID_LEN + 2 + ca_sig_len m <= CLIENT_AUTH_MAX_ENCODED_LEN.
Proof. intros (_ & ?). wirelia. Qed.

(** The ClientHello built from a context and the drawn values. *)
Definition hello_of c (pk ek sid nonce : list byte) : client_hello_t :=
  ClientHello (poke 0 (ztake (hc_local_id_len c) (hc_local_id c)) (zeros WIRE_ID_MAX_LEN))
    (hc_local_id_len c) pk ek sid nonce.

Lemma hello_of_valid c pk ek sid nonce :
  ctx_sized c -> blen pk = KEX_PUBLIC_KEY_BYTES -> blen ek = MLKEM_PUBLIC_KEY_BYTES ->
  blen sid = WIRE_SESSION_ID_LEN -> blen nonce = WIRE_NONCE_LEN -> client_hello_valid (hello_of c pk ek sid nonce).
Proof. intros []. split; [split; simpl; try done; by apply id_sized|done]. Qed.

Lemma random_len n w r w' : 0 <= n -> randombytes_buf n w = (r, w') -> blen r = n.
Proof. intros Hn H. pose proof (randombytes_len n w Hn). by rewrite H in *. Qed.

(** Creating a ClientHello: a terminal failure, a rollback, or the new state with
    the exact wire bytes kept. *)
Lemma create_client_hello_cases c o cap len w r w' :
  ctx_live c -> hc_role c = HANDSHAKE_ROLE_INITIATOR -> hc_state c = HANDSHAKE_STATE_NEW ->
  handshake_initiator_create_client_hello (Some c) (Some o) cap (Some len) w = (r, w') ->
  (exists st oc, failed c st oc /\ r = (st, oc, Some o, Some len)) \/
  r = (HANDSHAKE_ERR_INVALID_ARG, Some c, Some o, Some len) \/
  (exists sk pk ek dk w1 w2 sid nonce,
     crypto_scalarmult_base sk = Some pk /\ OQS_KEM_keypair w1 = (Some (ek, dk), w2) /\
     let ch := hello_of c pk ek sid nonce in
     let wire := client_hello_wire ch in
     let c1 := set_kem (set_eph c (KexKeypair pk (Some sk))) (MlkemKeypair ek (Some dk)) in
     let c2 := set_session_id (set_ch c1 (poke 0 wire (hc_ch_bytes c)) (blen wire)) sid in
     client_hello_valid ch /\ blen wire <= cap /\
     r = (HANDSHAKE_OK, Some (set_state c2 HANDSHAKE_STATE_CLIENT_HELLO_CREATED),
          Some (poke 0 wire o), Some (blen wire))).
Proof.
  intros Hl Hr Hs. unfold handshake_initiator_create_client_hello. rewrite check_call_ok by done.
  destruct Hl as [Hsz _ _ _ _ _ _ Hnew _ _]. destruct (Hnew Hs) as (Heph & Hkem & Hchb).
  intros H. mopen H. destruct x as [rc o1]. apply kex_generate_cases in Hcall
    as [[-> ->]|(sk & pk & -> & -> & Hpk & Hpkl)]; cbn [fst snd default id negb Z.eqb] in H.
  { left. eexists. eapply run_out_fail; [exact H|sized|done..]. }
  mopen H. destruct x as [rc o1]. apply mlkem_generate_cases in Hcall
    as [[-> ->]|(ek & dk & w1 & w2 & -> & -> & Hek & Hekl)]; cbn [fst snd default id negb Z.eqb] in H.
  { left. eexists. eapply run_out_fail; [exact H|sized|done..]. }
  mopen H. apply random_len in Hcall; [|done]. mopen H. apply random_len in Hcall0; [|done].
  hc. fold (hello_of c pk ek x x0) in H.
  pose proof (hello_of_valid c pk ek x x0 Hsz Hpkl Hekl Hcall Hcall0) as Hv.
  set (ch := hello_of c pk ek x x0) in *.
  rewrite encode_client_hello_ok in H by (try done; by apply client_hello_fits).
  cbn [negb Z.eqb default id] in H. destruct (cap <? blen (client_hello_wire ch)) eqn:Hcap.
  - right. left. rewrite M_ret_unfold in H. apply pair_equal_spec in H as [<- _]. do 3 f_equal.
    unfold kex_keypair_free, mlkem_keypair_free. destruct c; hc. by subst.
  - right. right. exists sk, pk, ek, dk, w1, w2, x, x0. split; [done|]. split; [done|]. cbv zeta.
    split; [done|]. split; [by apply Z.ltb_ge|]. rewrite M_ret_unfold in H. apply pair_equal_spec in H as [<- _]. hc.
    by rewrite take_poke_0.
Qed.

Lemma verify_ok msg sig pk w w' :
  mldsa_verify msg sig pk w = (0, w') -> exists k, pk = Some k /\ OQS_SIG_verify msg sig k = true.
Proof.
  unfold mldsa_verify. intros H. mopens H; simplify_eq. case_match; [|done]. by eexists.
Qed.

(** What the initiator has checked when it accepts a ServerHello. *)
Record server_hello_accepted c (b : list byte) (msg : server_hello_t) (pk : list byte) : Prop := {
  sa_valid : server_hello_valid msg;
  sa_wire : b = server_hello_wire msg;
  sa_id_len : sh_id_len msg = hc_peer_id_len c;
  sa_id : ztake (sh_id_len msg) (sh_id msg) = ztake (hc_peer_id_len c) (hc_peer_id c);
  sa_echo : sh_session_id_echo msg = hc_session_id c;
  sa_sig : OQS_SIG_verify
    (sha256 (transcript_preimage TRANSCRIPT_LABEL_SERVER_AUTH (ztake (hc_ch_len c) (hc_ch_bytes c))
               (server_hello_unsigned_wire msg)))
    (ztake (sh_sig_len msg) (sh_sig msg)) pk = true;
  sa_kex : is_Some (kex_shared_secret (hc_eph c) (sh_ephemeral_pub msg)) }.

(** The context after a ServerHello has been accepted. *)
Definition after_server_hello c (b : list byte) (msg : server_hello_t) (pk : list byte) : handshake_ctx_t :=
  let ch := ztake (hc_ch_len c) (hc_ch_bytes c) in
  let c := set_peer_mlkem_ct (set_peer_eph_pub (set_peer_pk c (Some pk)) (sh_ephemeral_pub msg)) (sh_mlkem_ct msg) in
  let c := set_th_client_auth c (sha256 (transcript_preimage TRANSCRIPT_LABEL_CLIENT_AUTH ch b)) in
  let c := set_handshake_id c
             (ztake 16 (sha256 (transcript_preimage TRANSCRIPT_LABEL_HANDSHAKE_ID ch b))) in
  set_state (set_ch c (zeros CLIENT_HELLO_MAX_ENCODED_LEN) 0) HANDSHAKE_STATE_SERVER_HELLO_VERIFIED.

Lemma decode_server_hello_cases b :
  (exists m, decode_server_hello (Some b) (Some server_hello_zero) (Some 0) = (0, Some m, Some (blen b)) /\
     server_hello_valid m /\ b = server_hello_wire m) \/
  decode_server_hello (Some b) (Some server_hello_zero) (Some 0) = (-1, Some server_hello_zero, Some 0).
Proof.
  unfold decode_server_hello. destruct (decode_server_hello_fields b) as [[m n]|] eqn:Hd; [left|by right].
  apply decode_server_hello_fields_sound in Hd as (? & ? & ? & ->). by exists m.
Qed.

Lemma server_hello_slice m :
  server_hello_valid m ->
  let u := transcript_server_hello_unsigned_len (sh_id_len m) in
  (u =? 0) || (blen (server_hello_wire m) <=? u) = false /\
  ztake u (server_hello_wire m) = server_hello_unsigned_wire m.
Proof.
  intros Hv u. pose proof Hv as (Hs & Hi & Hg).
  assert (u = server_hello_unsigned_encoded_len (sh_id_len m)) as ->.
  { unfold u, transcript_server_hello_unsigned_len. by rewrite (proj2 (id_in_range _) Hi). }
  rewrite length_server_hello_wire by done. split; [wirelia|].
  rewrite <-length_server_hello_unsigned_wire, Nat2Z.id by done. apply take_app_length.
Qed.

Lemma verify_server_hello_cases c b w r w' :
  ctx_live c -> hc_role c = HANDSHAKE_ROLE_INITIATOR -> hc_state c = HANDSHAKE_STATE_CLIENT_HELLO_CREATED ->
  handshake_initiator_verify_server_hello (Some c) (Some b) w = (r, w') ->
  failed c r.1 r.2 \/
  (exists msg pk w1, server_hello_accepted c b msg pk /\
     resolve_peer_pk c (ztake (hc_peer_id_len c) (hc_peer_id c)) w = (Some pk, w1) /\
     r = (HANDSHAKE_OK, Some (after_server_hello c b msg pk))).
Proof.
  intros Hl Hr Hs. unfold handshake_initiator_verify_server_hello. rewrite check_call_ok by done.
  pose proof (cl_sized _ Hl) as Hsz. intros H.
  assert (Hfail : forall c1 why wa, fail_call c1 why wa = (r, w') -> ctx_sized c1 -> hc_role c1 = hc_role c ->
    terminal_status why = true -> failed c r.1 r.2).
  { intros c1 why wa Hf ???. apply (run_fail c) in Hf as [Hf ->]; done. }
  destruct (decode_server_hello_cases b) as [(m & Hd & Hv & ->)|Hd]; rewrite Hd in H;
    cbv beta iota zeta in H; cbn [default id negb Z.eqb] in H; [|left; by eapply Hfail].
  mopen H; [left; by eapply Hfail|]. apply orb_false_iff in Heqb as [Hil Hid].
  apply negb_false_iff, Z.eqb_eq in Hil. apply negb_false_iff in Hid.
  unfold memeq in Hid. apply bool_decide_eq_true in Hid. rewrite <-Hil in Hid at 1.
  mopen H. mopen H; [|left; eapply Hfail; [exact H|sized|done..]].
  mopen H; [left; eapply Hfail; [exact H|sized|done..]|]. apply negb_false_iff in Heqb.
  hc. apply memeq_true in Heqb; [|apply Hv|apply Hsz].
  destruct (server_hello_slice m Hv) as [Hu Hpre]. cbv zeta in Hu, Hpre. rewrite Hu, Hpre in H.
  rewrite server_auth_spec, client_auth_spec, handshake_id_spec in H. cbv beta iota zeta in H.
  mopen H. mopen H; [left; eapply Hfail; [exact H|sized|done..]|].
  apply negb_false_iff, Z.eqb_eq in Heqb0. subst. apply verify_ok in Hcall0 as (k & [= <-] & Hver).
  mopen H. mopen H; [|left; eapply Hfail; [exact H|sized|done..]].
  mopen H; [|left; eapply Hfail; [exact H|sized|done..]].
  right. eexists m, _, _. split; [|split; [rewrite <-Hid; exact Hcall|]].
  - by split.
  - rewrite M_ret_unfold in H. by apply pair_equal_spec in H as [<- _].
Qed.

(** Signing: the secret key of the local identity over the given digest. *)
Lemma sign_ok msg kp w s w' :
  mldsa_sign msg kp w = (Some s, w') ->
  exists pk sk w1, kp = Some (MldsaKeypair pk (Some sk)) /\ OQS_SIG_sign msg sk w1 = (Some s, w').
Proof. unfold mldsa_sign. intros H. mopens H; simplify_eq. by eexists _, _, _. Qed.

Definition auth_of c (sig : list byte) : client_auth_t :=
  ClientAuth (hc_handshake_id c) (poke 0 sig (zeros MLDSA_SIGNATURE_MAX_BYTES)) (blen sig).

Lemma sig_padded_len sig :
  sig_ok (blen sig) -> blen (poke 0 sig (zeros MLDSA_SIGNATURE_MAX_BYTES)) = MLDSA_SIGNATURE_MAX_BYTES.
Proof. intros Hs. rewrite length_poke, length_zeros; rewrite ?length_zeros; wirelia. Qed.

Lemma auth_of_valid c sig : ctx_sized c -> sig_ok (blen sig) -> client_auth_valid (auth_of c sig).
Proof. intros [] Hs. split; [split; simpl; [done|by apply sig_padded_len]|done]. Qed.

Lemma create_client_auth_cases c o cap len w r w' :
  ctx_live c -> hc_role c = HANDSHAKE_ROLE_INITIATOR -> hc_state c = HANDSHAKE_STATE_SERVER_HELLO_VERIFIED ->
  handshake_initiator_create_client_auth (Some c) (Some o) cap (Some len) w = (r, w') ->
  (exists st oc, failed c st oc /\ r = (st, oc, Some o, Some len)) \/
  r = (HANDSHAKE_ERR_INVALID_ARG, Some c, Some o, Some len) \/
  (exists pk sk sig w1, hc_local_keypair c = Some (MldsaKeypair pk (Some sk)) /\
     OQS_SIG_sign (hc_th_client_auth c) sk w1 = (Some sig, w') /\ sig_ok (blen sig) /\
     let wire := client_auth_wire (auth_of c sig) in
     blen wire <= cap /\
     r = (HANDSHAKE_OK, Some (set_state c HANDSHAKE_STATE_CLIENT_AUTH_CREATED),
          Some (poke 0 wire o), Some (blen wire))).
Proof.
  intros Hl Hr Hs. unfold handshake_initiator_create_client_auth. rewrite check_call_ok by done.
  pose proof (cl_sized _ Hl) as Hsz. intros H. mopen H.
  mopen H; [|left; eexists; by eapply run_out_fail].
  mopen H; [left; eexists; by eapply run_out_fail|].
  assert (Hsig : sig_ok (blen l)).
  { apply orb_false_iff in Heqb as [H1%Z.eqb_neq H2%Z.ltb_ge]. unfold sig_ok. lia. }
  fold (auth_of c l) in H. pose proof (auth_of_valid c l Hsz Hsig) as Hv.
  rewrite encode_client_auth_ok in H by (try done; by apply client_auth_fits).
  cbn [negb Z.eqb default id] in H. mopen H; rewrite M_ret_unfold in H; apply pair_equal_spec in H as [<- <-].
  - right. by left.
  - right. right. apply sign_ok in Hcall as (pk & sk & w1 & Hkp & Hsg).
    exists pk, sk, l, w1. split; [done|]. split; [done|]. split; [done|]. cbv zeta.
    split; [by apply Z.ltb_ge|]. by rewrite take_poke_0.
Qed.

Definition after_finish c (keys : list byte) : handshake_ctx_t :=
  let c := set_keys c (poke 0 keys <$> hc_session_keys c) true in
  let c := set_eph c (KexKeypair (zeros KEX_PUBLIC_KEY_BYTES) None) in
  let c := set_kem c (MlkemKeypair (zeros MLKEM_PUBLIC_KEY_BYTES) None) in
  let c := set_th_client_auth c (zeros HANDSHAKE_TRANSCRIPT_HASH_BYTES) in
  let c := set_peer_mlkem_ct (set_peer_eph_pub c (zeros KEX_PUBLIC_KEY_BYTES)) (zeros WIRE_MLKEM_CT_LEN) in
  set_state c HANDSHAKE_STATE_ESTABLISHED.

Lemma decaps_ok ct kp w ss w' :
  mlkem_decaps ct kp w = ((0, ss), w') -> exists dk, kem_sec kp = Some dk /\ OQS_KEM_decaps ct dk = Some ss.
Proof. unfold mlkem_decaps. intros H. mopens H; simplify_eq. by eexists. Qed.

Lemma initiator_finish_cases c w r w' :
  ctx_live c -> hc_role c = HANDSHAKE_ROLE_INITIATOR -> hc_state c = HANDSHAKE_STATE_CLIENT_AUTH_CREATED ->
  handshake_initiator_finish (Some c) w = (r, w') ->
  failed c r.1 r.2 \/
  (exists ssx dk ssk keys, kex_shared_secret (hc_eph c) (hc_peer_eph_pub c) = Some ssx /\
     kem_sec (hc_kem c) = Some dk /\ OQS_KEM_decaps (hc_peer_mlkem_ct c) dk = Some ssk /\
     derive_traffic_keys ssx ssk (hc_session_id c) (ztake (hc_local_id_len c) (hc_local_id c))
       (ztake (hc_peer_id_len c) (hc_peer_id c)) (hc_th_client_auth c) = Some keys /\
     r = (HANDSHAKE_OK, Some (after_finish c keys))).
Proof.
  intros Hl Hr Hs. unfold handshake_initiator_finish. rewrite check_call_ok by done.
  pose proof (cl_sized _ Hl) as Hsz. intros H.
  assert (Hfail : forall why wa, fail_call c why wa = (r, w') -> terminal_status why = true -> failed c r.1 r.2).
  { intros why wa Hf ?. apply (run_fail c) in Hf as [Hf ->]; done. }
  mopen H. mopen H; [|left; by eapply Hfail]. mopen H; [|left; by eapply Hfail].
  mopen H. mopen H; [|left; by eapply Hfail]. mopen H. mopen H. mopen H; [left; by eapply Hfail|].
  apply negb_false_iff, Z.eqb_eq in Heqb as ->. apply decaps_ok in Hcall1 as (dk & Hdk & Hss).
  mopen H. mopen H; [|left; by eapply Hfail]. mopen H; [|left; by eapply Hfail].
  right. eexists _, _, _, _. split_and!; try done.
  rewrite M_ret_unfold in H. by apply pair_equal_spec in H as [<- _].
Qed.

Lemma decode_client_hello_cases b :
  (exists m, decode_client_hello (Some b) (Some client_hello_zero) (Some 0) = (0, Some m, Some (blen b)) /\
     client_hello_valid m /\ client_hello_padded m /\ b = client_hello_wire m) \/
  decode_client_hello (Some b) (Some client_hello_zero) (Some 0) = (-1, Some client_hello_zero, Some 0).
Proof.
  unfold decode_client_hello. destruct (decode_client_hello_fields b) as [[m n]|] eqn:Hd; [left|by right].
  apply decode_client_hello_fields_sound in Hd as (? & ? & ? & ->). by exists m.
Qed.

Definition after_client_hello c (b : list byte) (msg : client_hello_t) (pk : list byte) : handshake_ctx_t :=
  let c := set_peer_pk c (Some pk) in
  let c := set_peer c (poke 0 (ztake (ch_id_len msg) (ch_id msg)) (hc_peer_id c)) (ch_id_len msg) in
  let c := set_peer_eph_pub (set_session_id c (ch_session_id msg)) (ch_ephemeral_pub msg) in
  set_state (set_ch c (poke 0 b (hc_ch_bytes c)) (blen b)) HANDSHAKE_STATE_CLIENT_HELLO_ACCEPTED.

Lemma accept_client_hello_cases c b w r w' :
  ctx_live c -> hc_role c = HANDSHAKE_ROLE_RESPONDER -> hc_state c = HANDSHAKE_STATE_NEW ->
  handshake_responder_accept_client_hello (Some c) (Some b) w = (r, w') ->
  failed c r.1 r.2 \/
  (exists msg pk, client_hello_valid msg /\ client_hello_padded msg /\ b = client_hello_wire msg /\
     resolve_peer_pk c (ztake (ch_id_len msg) (ch_id msg)) w = (Some pk, w') /\
     r = (HANDSHAKE_OK, Some (after_client_hello c b msg pk))).
Proof.
  intros Hl Hr Hs. unfold handshake_responder_accept_client_hello. rewrite check_call_ok by done.
  pose proof (cl_sized _ Hl) as Hsz. intros H.
  destruct (decode_client_hello_cases b) as [(m & Hd & Hv & Hp & ->)|Hd]; rewrite Hd in H;
    cbv beta iota zeta in H; cbn [default id negb Z.eqb orb] in H;
    [|left; apply (run_fail c) in H as [Hf ->]; done].
  rewrite (proj2 (Z.ltb_ge _ _)) in H
    by (rewrite length_client_hello_wire by done; by apply client_hello_fits).
  mopen H. mopen H; [|left; apply (run_fail c) in H as [Hf ->]; [done|sized|done..]].
  rewrite M_ret_unfold in H. apply pair_equal_spec in H as [<- <-]. right. by exists m, l.
Qed.

(** The ServerHello of a context: unsigned part, then with the signature. *)
Definition server_hello_of c (pk ct nonce sig : list byte) (sig_len : Z) : server_hello_t :=
  ServerHello (poke 0 (ztake (hc_local_id_len c) (hc_local_id c)) (zeros WIRE_ID_MAX_LEN))
    (hc_local_id_len c) pk ct nonce (hc_session_id c) sig sig_len.

Lemma server_hello_of_sized c pk ct nonce sig n :
  ctx_sized c -> blen pk = KEX_PUBLIC_KEY_BYTES -> blen ct = MLKEM_CIPHERTEXT_BYTES ->
  blen nonce = WIRE_NONCE_LEN -> blen sig = MLDSA_SIGNATURE_MAX_BYTES ->
  server_hello_sized (server_hello_of c pk ct nonce sig n).
Proof. intros []. split; simpl; try done. by apply id_sized. Qed.

Lemma encaps_cases ek w rc ct ss w' :
  mlkem_encaps ek w = ((rc, ct, ss), w') ->
  rc = -1 \/ (rc = 0 /\ blen ct = MLKEM_CIPHERTEXT_BYTES /\ exists w1, OQS_KEM_encaps ek w1 = (Some (ct, ss), w')).
Proof.
  unfold mlkem_encaps. intros H. mopens H; simplify_eq; try (by left).
  right. split_and!; [done|by eapply kem_encaps_len|by eexists].
Qed.

(** What a responder sends and records when it creates a ServerHello. *)
Record server_hello_made c ps (ch : client_hello_t) (sh : server_hello_t) (sk ss : list byte) ps' w' : Prop := {
  sm_valid : server_hello_valid sh;
  sm_kex : crypto_scalarmult_base sk = Some (sh_ephemeral_pub sh);
  sm_kem : exists w1 w2, OQS_KEM_encaps (ch_mlkem_ek ch) w1 = (Some (sh_mlkem_ct sh, ss), w2);
  sm_id : sh_id sh = poke 0 (ztake (hc_local_id_len c) (hc_local_id c)) (zeros WIRE_ID_MAX_LEN);
  sm_id_len : sh_id_len sh = hc_local_id_len c;
  sm_echo : sh_session_id_echo sh = hc_session_id c;
  sm_sig : exists pk dsk w1 w2, hc_local_keypair c = Some (MldsaKeypair pk (Some dsk)) /\
    OQS_SIG_sign (sha256 (transcript_preimage TRANSCRIPT_LABEL_SERVER_AUTH (client_hello_wire ch)
                            (server_hello_unsigned_wire sh))) dsk w1
      = (Some (ztake (sh_sig_len sh) (sh_sig sh)), w2);
  sm_ledger : exists w1, handshake_pending_insert ps
      (ztake 16 (sha256 (transcript_preimage TRANSCRIPT_LABEL_HANDSHAKE_ID (client_hello_wire ch) (server_hello_wire sh))))
      (sha256 (transcript_preimage TRANSCRIPT_LABEL_CLIENT_AUTH (client_hello_wire ch) (server_hello_wire sh))) w1
      = ((PENDING_OK, ps'), w') }.

Definition after_server_hello_sent c (ch : client_hello_t) (sh : server_hello_t) (sk ss : list byte) : handshake_ctx_t :=
  let c := set_ss_kem (set_eph c (KexKeypair (sh_ephemeral_pub sh) (Some sk))) (Some ss) in
  let c := set_handshake_id c (ztake 16 (sha256
    (transcript_preimage TRANSCRIPT_LABEL_HANDSHAKE_ID (client_hello_wire ch) (server_hello_wire sh)))) in
  set_state (set_ch c (zeros CLIENT_HELLO_MAX_ENCODED_LEN) 0) HANDSHAKE_STATE_SERVER_HELLO_CREATED.

(** How a failing call can leave the ledger: untouched, or after a refused
    insertion. *)
Definition ledger_refused ps ps' : Prop :=
  ps' = ps \/ exists hid th pst w w', handshake_pending_insert ps hid th w = ((pst, ps'), w') /\ pst <> PENDING_OK /\
    blen hid = WIRE_HANDSHAKE_ID_LEN /\ blen th = HANDSHAKE_TRANSCRIPT_HASH_BYTES.

Lemma run_out_ps_fail c c1 why ps out len w r w' :
  fail_out_ps c1 why ps out len w = (r, w') -> ctx_sized c1 -> hc_role c1 = hc_role c -> terminal_status why = true ->
  exists o, failed c why o /\ r = (why, o, ps, out, len).
Proof.
  unfold fail_out_ps. intros H Hs Hr Hw. eexists. split; [by exists c1|].
  change (fail_ctx c1 why) with (why, (fail_ctx c1 why).2) in H. cbv beta iota in H.
  rewrite M_ret_unfold in H. by apply pair_equal_spec in H as [<- _].
Qed.

Lemma hash_len_16 m : blen (ztake 16 (sha256 m)) = 16.
Proof. rewrite length_take. pose proof (sha256_len m). lia. Qed.

(** The length and prefix checks on the encodings hold. *)
Lemma server_hello_prefix_check sh bufu buff :
  server_hello_valid sh ->
  let u := server_hello_unsigned_wire sh in let f := server_hello_wire sh in
  (blen f <=? blen u) || negb (memeq (poke 0 f buff) (poke 0 u bufu) (blen u)) = false.
Proof.
  intros Hv u f. pose proof Hv as (Hs & Hi & Hg).
  rewrite (proj2 (Z.leb_gt _ _)).
  - unfold memeq. rewrite take_poke_0, Nat2Z.id, poke_0. unfold f, server_hello_wire. fold u.
    rewrite <-app_assoc, take_app_length. by rewrite bool_decide_eq_true_2.
  - unfold f, u. rewrite length_server_hello_wire, length_server_hello_unsigned_wire by done. wirelia.
Qed.

Lemma create_server_hello_cases c ps o cap len w r w' :
  ctx_live c -> hc_role c = HANDSHAKE_ROLE_RESPONDER -> hc_state c = HANDSHAKE_STATE_CLIENT_HELLO_ACCEPTED ->
  handshake_responder_create_server_hello (Some c) ps (Some o) cap (Some len) w = (r, w') ->
  (exists st oc ps', failed c st oc /\ ledger_refused ps ps' /\ r = (st, oc, ps', Some o, Some len)) \/
  r = (HANDSHAKE_ERR_INVALID_ARG, Some c, ps, Some o, Some len) \/
  (exists ch sh sk ss ps',
     client_hello_valid ch /\ ztake (hc_ch_len c) (hc_ch_bytes c) = client_hello_wire ch /\
     server_hello_made c ps ch sh sk ss ps' w' /\ blen (server_hello_wire sh) <= cap /\
     r = (HANDSHAKE_OK, Some (after_server_hello_sent c ch sh sk ss), ps',
          Some (poke 0 (server_hello_wire sh) o), Some (blen (server_hello_wire sh)))).
Proof.
  intros Hl Hr Hs. unfold handshake_responder_create_server_hello. rewrite check_call_ok by done.
  pose proof (cl_sized _ Hl) as Hsz. intros H.
  assert (Hfail : forall c1 why ps1 wa, fail_out_ps c1 why ps1 (Some o) (Some len) wa = (r, w') ->
    ctx_sized c1 -> hc_role c1 = hc_role c -> terminal_status why = true -> ledger_refused ps ps1 ->
    exists st oc ps', failed c st oc /\ ledger_refused ps ps' /\ r = (st, oc, ps', Some o, Some len)).
  { intros c1 why ps1 wa Hf ??? Hp. destruct (run_out_ps_fail c _ _ _ _ _ _ _ _ Hf) as (oc & ? & ->); [done..|].
    by exists why, oc, ps1. }
  mopen H. destruct x as [rc o1]. apply kex_generate_cases in Hcall
    as [[-> ->]|(sk & pk & -> & -> & Hpk & Hpkl)]; cbn [fst snd default id negb Z.eqb] in H;
    [left; eapply Hfail; [exact H|sized|done|done|by left]|].
  mopen H. apply random_len in Hcall; [|done]. hc.
  destruct (decode_client_hello_cases (ztake (hc_ch_len c) (hc_ch_bytes c))) as [(ch & Hd & Hv & Hp & Hch)|Hd];
    rewrite Hd in H; cbv beta iota zeta in H; cbn [default id negb Z.eqb] in H;
    [|left; eapply Hfail; [exact H|sized|done|done|by left]].
  rewrite Hch in H. mopen H. mopen H; [|left; eapply Hfail; [exact H|sized|done|done|by left]].
  mopen H. mopen H. mopen H. apply encaps_cases in Hcall1 as [->|(-> & Hctl & w1 & Hkem)];
    cbn [negb Z.eqb] in H; [left; eapply Hfail; [exact H|sized|done|done|by left]|]. hc.
  fold (server_hello_of c pk l1 x (zeros MLDSA_SIGNATURE_MAX_BYTES) 0) in H.
  set (sh0 := server_hello_of c pk l1 x _ 0) in H.
  assert (Hs0 : server_hello_sized sh0) by (by apply server_hello_of_sized).
  rewrite (encode_server_hello_unsigned_ok sh0) in H by (try done; by destruct Hsz; unfold sh0, id_ok in *; simpl; wirelia).
  cbn [default id negb Z.eqb] in H. rewrite take_poke_0, server_auth_spec in H.
  mopen H. mopen H; [|left; eapply Hfail; [exact H|sized|done|done|by left]].
  mopen H; [left; eapply Hfail; [exact H|sized|done|done|by left]|].
  assert (Hsig : sig_ok (blen l2)).
  { apply orb_false_iff in Heqb as [H1%Z.eqb_neq H2%Z.ltb_ge]. unfold sig_ok. lia. }
  set (sh := ServerHello _ _ _ _ _ _ (poke 0 l2 _) _) in H.
  assert (Hv1 : server_hello_valid sh).
  { split; [|split; [apply Hsz|done]]. by apply server_hello_of_sized; try apply sig_padded_len. }
  rewrite (encode_server_hello_ok sh) in H by (try done; by apply server_hello_fits).
  cbn [default id negb Z.eqb] in H.
  change (server_hello_unsigned_wire sh0) with (server_hello_unsigned_wire sh) in *.
  rewrite (server_hello_prefix_check sh) in H by done.
  rewrite take_poke_0 in H. mopen H.
  { right. left. rewrite M_ret_unfold in H. apply pair_equal_spec in H as [<- _]. do 3 f_equal.
    pose proof (cl_accepted _ Hl Hs) as He. pose proof (cl_ss _ Hl) as Hk. rewrite Hs in Hk. simpl in Hk.
    destruct c; hc. subst. by destruct hc_ss_kem. }
  rewrite client_auth_spec, handshake_id_spec in H. cbv beta iota zeta in H. mopen H. mopen H.
  apply sign_ok in Hcall1 as (dpk & dsk & w2 & Hkp & Hsg).
  destruct (decide (p0 = PENDING_OK)) as [->|Hne]; cycle 1.
  { left. assert (Hrf : ledger_refused ps o0).
    { right. subst. eexists _, _, _, _, _. split; [exact Hcall2|].
      split; [done|split; [apply hash_len_16|apply sha256_len]]. }
    destruct p0; try done; (eapply Hfail; [exact H|sized|done|done|exact Hrf]). }
  right. right. exists ch, sh, sk, l0, o0. split; [done|]. split; [done|]. subst.
  rewrite M_ret_unfold in H. apply pair_equal_spec in H as [<- <-].
  split; [|split; [by apply Z.ltb_ge|done]].
  split; try done; [by eexists _, _| |by eexists].
  exists dpk, dsk, w2, wz3. split; [done|]. unfold sh. cbn [sh_sig sh_sig_len]. by rewrite take_poke_0.
Qed.

(** The ledger operations a call performs, with their results. *)
Inductive lsteps : option handshake_pending_store_t -> list (ledger_op * pending_status_t) ->
    option handshake_pending_store_t -> Prop :=
  | lsteps_nil ps : lsteps ps [] ps
  | lsteps_cons ps op r ps1 w w' log ps2 :
      exec_op op ps w = ((r, ps1), w') -> lsteps ps1 log ps2 -> lsteps ps ((op, r) :: log) ps2.

Lemma lsteps_one ps op r ps1 w w' : exec_op op ps w = ((r, ps1), w') -> lsteps ps [(op, r)] ps1.
Proof. intros H. by econstructor; [|constructor]. Qed.

(** What the responder has checked when it accepts a ClientAuth. *)
Record client_auth_accepted c ps (b : list byte) (msg : client_auth_t) (digest pk ssx ssk keys : list byte) w : Prop := {
  aa_valid : client_auth_valid msg;
  aa_wire : b = client_auth_wire msg;
  aa_hid : ca_handshake_id msg = hc_handshake_id c;
  aa_digest : exists ps1 w1, handshake_pending_get_digest ps (hc_handshake_id c) w = ((PENDING_OK, ps1, digest), w1);
  aa_pk : hc_peer_pk c = Some pk;
  aa_sig : OQS_SIG_verify digest (ztake (ca_sig_len msg) (ca_sig msg)) pk = true;
  aa_kex : kex_shared_secret (hc_eph c) (hc_peer_eph_pub c) = Some ssx;
  aa_kem : hc_ss_kem c = Some ssk;
  aa_keys : derive_traffic_keys ssx ssk (hc_session_id c) (ztake (hc_peer_id_len c) (hc_peer_id c))
              (ztake (hc_local_id_len c) (hc_local_id c)) digest = Some keys }.

Definition after_client_auth c (keys : list byte) : handshake_ctx_t :=
  set_state (set_ss_kem (set_keys c (poke 0 keys <$> hc_session_keys c) true) None)
    HANDSHAKE_STATE_CLIENT_AUTH_VERIFIED.

Lemma decode_client_auth_cases b :
  (exists m, decode_client_auth (Some b) (Some client_auth_zero) (Some 0) = (0, Some m, Some (blen b)) /\
     client_auth_valid m /\ b = client_auth_wire m) \/
  decode_client_auth (Some b) (Some client_auth_zero) (Some 0) = (-1, Some client_auth_zero, Some 0).
Proof.
  unfold decode_client_auth. destruct (decode_client_auth_fields b) as [[m n]|] eqn:Hd; [left|by right].
  apply decode_client_auth_fields_sound in Hd as (? & ? & ? & ->). by exists m.
Qed.

Lemma run_ps_fail c why ps w r w' :
  fail_ps c why ps w = (r, w') -> ctx_sized c -> terminal_status why = true -> exists o, failed c why o /\ r = (why, o, ps).
Proof.
  unfold fail_ps. intros H Hs Hw. eexists. split; [by exists c|].
  change (fail_ctx c why) with (why, (fail_ctx c why).2) in H. cbv beta iota in H.
  rewrite M_ret_unfold in H. by apply pair_equal_spec in H as [<- _].
Qed.

(** The errors that end a ClientAuth verification for good. *)
Definition auth_terminal_status (st : handshake_status_t) : bool :=
  match st with
  | HANDSHAKE_ERR_EXPIRED | HANDSHAKE_ERR_REPLAY | HANDSHAKE_ERR_AUTH_FAILURE_LIMIT | HANDSHAKE_ERR_KEX
  | HANDSHAKE_ERR_RESOURCE_EXHAUSTED | HANDSHAKE_ERR_INTERNAL => true
  | _ => false
  end.

Lemma auth_terminal_status_terminal st : auth_terminal_status st = true -> terminal_status st = true.
Proof. by destruct st. Qed.

Lemma map_pending_failure_err p : auth_terminal_status (map_pending_failure p) = true.
Proof. by destruct p. Qed.

(** A terminal outcome of ClientAuth verification: the context failed and the
    last ledger operation retired the handshake id. *)
Definition auth_terminal c ps (r : handshake_status_t * option handshake_ctx_t * option handshake_pending_store_t) : Prop :=
  failed c r.1.1 r.1.2 /\ auth_terminal_status r.1.1 = true /\
  exists log op pr, lsteps ps (log ++ [(op, pr)]) r.2 /\ op_target op = Some (hc_handshake_id c) /\ retires op pr /\
    Forall (fun p => p = (OpDigest (hc_handshake_id c), PENDING_OK)) log.

Lemma terminal_one c ps op pr ps1 w w1 why w2 r w3 :
  ctx_sized c -> exec_op op ps w = ((pr, ps1), w1) -> op_target op = Some (hc_handshake_id c) -> retires op pr ->
  fail_ps c why ps1 w2 = (r, w3) -> auth_terminal_status why = true -> auth_terminal c ps r.
Proof.
  intros Hsz Hex Ht Hr Hf Hw. apply run_ps_fail in Hf as (oc & Hfl & ->); [|done|by apply auth_terminal_status_terminal].
  split; [done|]. split; [done|]. exists [], op, pr. split_and!; [by eapply lsteps_one|done..].
Qed.

Lemma terminal_after c ps ps1 w w1 r :
  exec_op (OpDigest (hc_handshake_id c)) ps w = ((PENDING_OK, ps1), w1) -> auth_terminal c ps1 r -> auth_terminal c ps r.
Proof.
  intros Hex (Hf & Hst & log & op & pr & Hl & Ht & Hr & Hall). split; [done|]. split; [done|].
  exists ((OpDigest (hc_handshake_id c), PENDING_OK) :: log), op, pr.
  split_and!; [by eapply lsteps_cons|done..|by constructor].
Qed.

Lemma terminal_cancel c ps why w r w' :
  ctx_sized c -> cancel_and_fail c why ps w = (r, w') -> auth_terminal_status why = true -> auth_terminal c ps r.
Proof.
  intros Hsz H Hw. unfold cancel_and_fail in H. mopen H. destruct x as [pr ps1].
  by eapply (terminal_one c ps (OpCancel (hc_handshake_id c))).
Qed.

Lemma verify_client_auth_cases c ps b w r w' :
  ctx_live c -> hc_role c = HANDSHAKE_ROLE_RESPONDER -> hc_state c = HANDSHAKE_STATE_SERVER_HELLO_CREATED ->
  handshake_responder_verify_client_auth (Some c) ps (Some b) w = (r, w') ->
  (r = (HANDSHAKE_ERR_MALFORMED, Some c, ps) \/ r = (HANDSHAKE_ERR_HANDSHAKE_ID_MISMATCH, Some c, ps)) \/
  (r.1 = (HANDSHAKE_ERR_SIGNATURE, Some c) /\
     lsteps ps [(OpDigest (hc_handshake_id c), PENDING_OK); (OpFailure (hc_handshake_id c), PENDING_OK)] r.2) \/
  auth_terminal c ps r \/
  (exists msg digest pk ssx ssk keys, client_auth_accepted c ps b msg digest pk ssx ssk keys w /\
     r.1 = (HANDSHAKE_OK, Some (after_client_auth c keys)) /\
     lsteps ps [(OpDigest (hc_handshake_id c), PENDING_OK); (OpConsume (hc_handshake_id c), PENDING_OK)] r.2).
Proof.
  intros Hl Hr Hs. unfold handshake_responder_verify_client_auth. rewrite check_call_ok by done.
  pose proof (cl_sized _ Hl) as Hsz. intros H.
  destruct (decode_client_auth_cases b) as [(m & Hd & Hv & ->)|Hd]; rewrite Hd in H;
    cbv beta iota zeta in H; cbn [default id negb Z.eqb] in H;
    [|left; left; rewrite M_ret_unfold in H; by apply pair_equal_spec in H as [<- _]].
  mopen H; [left; right; rewrite M_ret_unfold in H; by apply pair_equal_spec in H as [<- _]|].
  apply negb_false_iff, memeq_true in Heqb; [|apply Hv|apply Hsz].
  mopen H. destruct x as [[pst ps1] digest]. cbv beta iota zeta in H.
  assert (Hdig : exec_op (OpDigest (hc_handshake_id c)) ps w = ((pst, ps1), wz)).
  { cbn [exec_op]. rewrite M_bind_unfold, Hcall. done. }
  destruct (decide (pst = PENDING_OK)) as [->|Hne]; cycle 1.
  { rewrite bool_decide_eq_false_2 in H by done. right. right. left.
    eapply terminal_one; [done|exact Hdig|done|by destruct pst|exact H|apply map_pending_failure_err]. }
  rewrite bool_decide_eq_true_2 in H by done. cbn [negb] in H. mopen H. mopen H.
  { mopen H. destruct x0 as [pst2 ps2]. cbv beta iota zeta in H.
    destruct (decide (pst2 = PENDING_OK)) as [->|Hne].
    - rewrite bool_decide_eq_true_2 in H by done. right. left. rewrite M_ret_unfold in H.
      apply pair_equal_spec in H as [<- _]. split; [done|]. eapply lsteps_cons; [exact Hdig|]. by eapply lsteps_one.
    - rewrite bool_decide_eq_false_2 in H by done. right. right. left. eapply terminal_after; [exact Hdig|].
      eapply (terminal_one c ps1 (OpFailure _)); [done|exact Hcall1|done|by destruct pst2|exact H|apply map_pending_failure_err]. }
  apply negb_false_iff, Z.eqb_eq in Heqb0 as ->. apply verify_ok in Hcall0 as (pk & Hpk & Hver).
  assert (Hcan : forall why wa, cancel_and_fail c why ps1 wa = (r, w') -> auth_terminal_status why = true -> auth_terminal c ps r).
  { intros why wa Hc Hw. eapply terminal_after; [exact Hdig|by eapply terminal_cancel]. }
  mopen H. mopen H; [|right; right; left; by eapply Hcan]. mopen H; [|right; right; left; by eapply Hcan].
  mopen H; [|right; right; left; by eapply Hcan].
  mopen H. mopen H; [|right; right; left; by eapply Hcan]. mopen H; [|right; right; left; by eapply Hcan].
  mopen H. destruct x1 as [pst2 ps2]. cbv beta iota zeta in H.
  destruct (decide (pst2 = PENDING_OK)) as [->|Hne]; cycle 1.
  { rewrite bool_decide_eq_false_2 in H by done. right. right. left. eapply terminal_after; [exact Hdig|].
    eapply (terminal_one c ps1 (OpConsume _)); [done|exact Hcall2|done|by destruct pst2|exact H|apply map_pending_failure_err]. }
  rewrite bool_decide_eq_true_2 in H by done. cbn [negb] in H. rewrite M_ret_unfold in H.
  apply pair_equal_spec in H as [<- _]. right. right. right. eexists m, digest, pk, _, _, _.
  split; [split; try done; by eexists _, _|]. split; [done|].
  eapply lsteps_cons; [exact Hdig|]. by eapply lsteps_one.
Qed.

(** ** Calls in the wrong role or state *)
Lemma exec_call_misuse k c ps w :
  hc_role c <> call_role k \/ hc_state c <> call_state k ->
  exec_call k (Some c) ps w =
    ((HANDSHAKE_ERR_UNEXPECTED_STATE, Some c, ps, (call_out k).1, (call_out k).2), w).
Proof.
  intros Hbad. apply check_call_bad in Hbad.
  destruct k; cbn [exec_call call_out call_role call_state fst snd] in *; rewrite ?M_bind_unfold;
  unfold handshake_initiator_create_client_hello, handshake_initiator_verify_server_hello,
    handshake_initiator_create_client_auth, handshake_initiator_finish, handshake_responder_accept_client_hello,
    handshake_responder_create_server_hello, handshake_responder_verify_client_auth, handshake_responder_finish;
  by rewrite Hbad.
Qed.

(** ** Success contexts satisfy the invariant *)
Lemma poke_keys_sized c keys :
  ctx_sized c -> blen keys = SESSION_KEYS_LEN -> poke 0 keys <$> hc_session_keys c = Some keys.
Proof. intros [??????????(l & -> & Hl)] Hk. simpl. by rewrite poke_0_full by lia. Qed.

Lemma derive_keys_len ssx ssk sid a b th keys :
  derive_traffic_keys ssx ssk sid a b th = Some keys -> blen keys = SESSION_KEYS_LEN.
Proof.
  assert (Hd : forall d k, kex_derive_session_key_v2 ssx ssk (ztake WIRE_SESSION_ID_LEN sid) a b th d = Some k ->
    blen k = KEX_SESSION_KEY_BYTES).
  { intros d k. unfold kex_derive_session_key_v2, kex_hkdf_sha256. intros H. inv_guards H.
    destruct v as [info n]. inv_guards H. by eapply hkdf_expand_len in H. }
  unfold derive_traffic_keys. intros (k1 & H1 & (k2 & H2 & [= <-])%bind_Some)%bind_Some.
  rewrite length_app. apply Hd in H1, H2. unfold SESSION_KEYS_LEN. lia.
Qed.

Lemma set_poke_ch c wire :
  ctx_sized c -> blen wire <= CLIENT_HELLO_MAX_ENCODED_LEN -> blen (poke 0 wire (hc_ch_bytes c)) = CLIENT_HELLO_MAX_ENCODED_LEN.
Proof. intros Hs Hw. pose proof (cs_ch _ Hs). rewrite length_poke; lia. Qed.

Ltac live_from Hl := destruct Hl; split; hc; try done.

Lemma after_hello_created_live c sk pk ek dk sid wire :
  ctx_live c -> hc_role c = HANDSHAKE_ROLE_INITIATOR -> hc_state c = HANDSHAKE_STATE_NEW ->
  blen sid = WIRE_SESSION_ID_LEN -> blen wire <= CLIENT_HELLO_MAX_ENCODED_LEN ->
  let c1 := set_kem (set_eph c (KexKeypair pk (Some sk))) (MlkemKeypair ek (Some dk)) in
  let c2 := set_session_id (set_ch c1 (poke 0 wire (hc_ch_bytes c)) (blen wire)) sid in
  ctx_live (set_state c2 HANDSHAKE_STATE_CLIENT_HELLO_CREATED).
Proof.
  intros Hl Hr Hs Hsid Hw. cbv zeta. pose proof (set_poke_ch c wire (cl_sized _ Hl) Hw) as Hch.
  pose proof (cl_ss _ Hl) as Hss. pose proof (cl_committed _ Hl) as Hco. rewrite Hs in Hss, Hco.
  live_from Hl; [sized|by rewrite Hr].
Qed.

Lemma after_server_hello_live c b msg pk :
  ctx_live c -> hc_role c = HANDSHAKE_ROLE_INITIATOR -> hc_state c = HANDSHAKE_STATE_CLIENT_HELLO_CREATED ->
  server_hello_valid msg -> ctx_live (after_server_hello c b msg pk).
Proof.
  intros Hl Hr Hs [[] _]. unfold after_server_hello.
  pose proof (cl_eph _ Hl) as Heph. pose proof (cl_kem _ Hl) as Hkem.
  pose proof (cl_ss _ Hl) as Hss. pose proof (cl_committed _ Hl) as Hco. rewrite Hs in *.
  live_from Hl; [|by rewrite Hr].
  sized; [apply hash_len_16|apply sha256_len].
Qed.

Lemma after_auth_created_live c :
  ctx_live c -> hc_role c = HANDSHAKE_ROLE_INITIATOR -> hc_state c = HANDSHAKE_STATE_SERVER_HELLO_VERIFIED ->
  ctx_live (set_state c HANDSHAKE_STATE_CLIENT_AUTH_CREATED).
Proof.
  intros Hl Hr Hs. pose proof (cl_eph _ Hl) as Heph. pose proof (cl_kem _ Hl) as Hkem.
  pose proof (cl_ss _ Hl) as Hss. pose proof (cl_committed _ Hl) as Hco. rewrite Hs in *.
  live_from Hl; [sized|by rewrite Hr].
Qed.

Lemma after_finish_live c keys :
  ctx_live c -> hc_role c = HANDSHAKE_ROLE_INITIATOR -> hc_state c = HANDSHAKE_STATE_CLIENT_AUTH_CREATED ->
  blen keys = SESSION_KEYS_LEN -> ctx_live (after_finish c keys).
Proof.
  intros Hl Hr Hs Hk. unfold after_finish. pose proof (poke_keys_sized c keys (cl_sized _ Hl) Hk) as Hpk.
  pose proof (cl_ss _ Hl) as Hss. rewrite Hs in *. rewrite Hpk.
  live_from Hl; [sized|by rewrite Hr].
Qed.

Lemma after_client_hello_live c b msg pk :
  ctx_live c -> hc_role c = HANDSHAKE_ROLE_RESPONDER -> hc_state c = HANDSHAKE_STATE_NEW ->
  client_hello_valid msg -> blen b <= CLIENT_HELLO_MAX_ENCODED_LEN -> ctx_live (after_client_hello c b msg pk).
Proof.
  intros Hl Hr Hs [[Hid] Hidl] Hb. unfold after_client_hello.
  pose proof (set_poke_ch c b (cl_sized _ Hl) Hb) as Hch. pose proof (cs_peer_id _ (cl_sized _ Hl)) as Hpid.
  pose proof (cl_eph _ Hl) as Heph. pose proof (cl_kem _ Hl) as Hkem.
  pose proof (cl_ss _ Hl) as Hss. pose proof (cl_committed _ Hl) as Hco.
  pose proof (cl_new _ Hl Hs) as (Heph0 & _). rewrite Hs in *.
  live_from Hl; [|by rewrite Hr].
  sized. rewrite length_poke; rewrite ?length_take; unfold WIRE_ID_MAX_LEN, id_ok, WIRE_ID_MIN_LEN in *; lia.
Qed.

Lemma after_server_hello_sent_live c ch sh sk ss :
  ctx_live c -> hc_role c = HANDSHAKE_ROLE_RESPONDER -> hc_state c = HANDSHAKE_STATE_CLIENT_HELLO_ACCEPTED ->
  ctx_live (after_server_hello_sent c ch sh sk ss).
Proof.
  intros Hl Hr Hs. unfold after_server_hello_sent. pose proof (cl_kem _ Hl) as Hkem.
  pose proof (cl_committed _ Hl) as Hco. rewrite Hs in *.
  live_from Hl; [|by rewrite Hr]. sized. apply hash_len_16.
Qed.

Lemma after_client_auth_live c keys :
  ctx_live c -> hc_role c = HANDSHAKE_ROLE_RESPONDER -> hc_state c = HANDSHAKE_STATE_SERVER_HELLO_CREATED ->
  blen keys = SESSION_KEYS_LEN -> ctx_live (after_client_auth c keys).
Proof.
  intros Hl Hr Hs Hk. unfold after_client_auth. pose proof (poke_keys_sized c keys (cl_sized _ Hl) Hk) as Hpk.
  pose proof (cl_eph _ Hl) as Heph. pose proof (cl_kem _ Hl) as Hkem. rewrite Hs in *. rewrite Hpk.
  live_from Hl; [sized|by rewrite Hr].
Qed.

Lemma responder_finish_live c st oc :
  ctx_live c -> hc_role c = HANDSHAKE_ROLE_RESPONDER -> hc_state c = HANDSHAKE_STATE_CLIENT_AUTH_VERIFIED ->
  handshake_responder_finish (Some c) = (st, oc) -> outcome CallResponderFinish c st oc.
Proof.
  intros Hl Hr Hs. unfold handshake_responder_finish. rewrite check_call_ok by done. intros [= <- <-].
  apply outcome_next; try done. pose proof (cl_kem _ Hl) as Hkem. pose proof (cl_ss _ Hl) as Hss.
  pose proof (cl_committed _ Hl) as Hco. rewrite Hs in *. unfold kex_keypair_free.
  live_from Hl; [sized|by rewrite Hr].
Qed.

(** ** Every call keeps the invariant *)
Lemma right_call k c : {hc_role c = call_role k /\ hc_state c = call_state k} +
  {hc_role c <> call_role k \/ hc_state c <> call_state k}.
Proof.
  destruct (decide (hc_role c = call_role k)); [|by right; left].
  destruct (decide (hc_state c = call_state k)); [by left|by right; right].
Defined.

Ltac null_call H := rewrite check_call_ok in H by done;
  cbv beta iota zeta in H; rewrite M_ret_unfold in H; cbn [fst snd] in H; simplify_eq.
Ltac null_arg H := null_call H; apply outcome_same; done.

Lemma initiator_call_outcome k c ps w st oc ps' o n w' :
  ctx_live c -> call_role k = HANDSHAKE_ROLE_INITIATOR -> hc_role c = call_role k -> hc_state c = call_state k ->
  exec_call k (Some c) ps w = ((st, oc, ps', o, n), w') -> outcome k c st oc.
Proof.
  intros Hl Hk Hr Hs H. destruct k as [out cap len|sh|out cap len| |ch|out cap len|ca|];
    try done; clear Hk; cbn [call_role call_state exec_call] in *.
  - mopen H. destruct x as [[[st1 oc1] o1] n1]. rewrite M_ret_unfold in H. injection H as -> -> _ -> -> _.
    destruct out as [out|], len as [len|];
      try (unfold handshake_initiator_create_client_hello in Hcall; null_arg Hcall).
    apply create_client_hello_cases in Hcall
      as [(? & ? & Hf & [= -> -> -> ->])|[[= -> -> -> ->]|(sk & pk & ek & dk & w1 & w2 & sid & nonce & _ & _ & Hv & _ & [= -> -> -> ->])]];
      [by apply outcome_fail|by apply outcome_same| |done..].
    apply outcome_next; [|done..]. apply after_hello_created_live; [done..|apply Hv|].
    rewrite length_client_hello_wire by done. by apply client_hello_fits.
  - mopen H. rewrite M_ret_unfold in H. injection H as <- <- _ _ _ _.
    destruct sh as [b|]; [|unfold handshake_initiator_verify_server_hello in Hcall; null_arg Hcall].
    apply verify_server_hello_cases in Hcall as [Hf|(msg & pk & w1 & Ha & _ & ->)];
      [by apply outcome_fail| |done..].
    apply outcome_next; [|done..]. apply after_server_hello_live; [done..|apply Ha].
  - mopen H. destruct x as [[[st1 oc1] o1] n1]. rewrite M_ret_unfold in H. injection H as -> -> _ -> -> _.
    destruct out as [out|], len as [len|];
      try (unfold handshake_initiator_create_client_auth in Hcall; null_arg Hcall).
    apply create_client_auth_cases in Hcall
      as [(? & ? & Hf & [= -> -> -> ->])|[[= -> -> -> ->]|(? & ? & ? & ? & _ & _ & _ & _ & [= -> -> -> ->])]];
      [by apply outcome_fail|by apply outcome_same| |done..].
    apply outcome_next; [|done..]. by apply after_auth_created_live.
  - mopen H. rewrite M_ret_unfold in H. injection H as <- <- _ _ _ _.
    apply initiator_finish_cases in Hcall as [Hf|(? & ? & ? & keys & _ & _ & _ & Hk & ->)];
      [by apply outcome_fail| |done..].
    apply outcome_next; [|done..]. apply after_finish_live; [done..|by eapply derive_keys_len].
Qed.

Lemma responder_call_outcome k c ps w st oc ps' o n w' :
  ctx_live c -> call_role k = HANDSHAKE_ROLE_RESPONDER -> hc_role c = call_role k -> hc_state c = call_state k ->
  exec_call k (Some c) ps w = ((st, oc, ps', o, n), w') -> outcome k c st oc.
Proof.
  intros Hl Hk Hr Hs H. destruct k as [out cap len|sh|out cap len| |ch|out cap len|ca|];
    try done; clear Hk; cbn [call_role call_state exec_call] in *.
  - mopen H. rewrite M_ret_unfold in H. injection H as <- <- _ _ _ _.
    destruct ch as [b|]; [|unfold handshake_responder_accept_client_hello in Hcall; null_arg Hcall].
    apply accept_client_hello_cases in Hcall as [Hf|(msg & pk & Hv & _ & -> & _ & ->)];
      [by apply outcome_fail| |done..].
    apply outcome_next; [|done..]. apply after_client_hello_live; [done..|].
    rewrite length_client_hello_wire by done. by apply client_hello_fits.
  - destruct out as [out|], len as [len|];
      try (unfold handshake_responder_create_server_hello in H; null_arg H).
    apply create_server_hello_cases in H
      as [(? & ? & ? & Hf & _ & [= -> -> -> -> ->])|[[= -> -> -> -> ->]|(? & ? & ? & ? & ? & _ & _ & _ & _ & [= -> -> -> -> ->])]];
      [by apply outcome_fail|by apply outcome_same| |done..].
    apply outcome_next; [|done..]. by apply after_server_hello_sent_live.
  - mopen H. destruct x as [[st1 oc1] ps1]. rewrite M_ret_unfold in H. injection H as -> -> _ _ _ _.
    destruct ca as [b|]; [|unfold handshake_responder_verify_client_auth in Hcall; null_arg Hcall].
    apply verify_client_auth_cases in Hcall
      as [[[= -> -> ->]|[= -> -> ->]]|[[[= -> ->] _]|[[Hf _]|(? & ? & ? & ? & ? & keys & Ha & [= -> ->] & _)]]];
      [by apply outcome_same|by apply outcome_same|by apply outcome_same|by apply outcome_fail| |done..].
    apply outcome_next; [|done..]. apply after_client_auth_live; [done..|]. eapply derive_keys_len, Ha.
  - destruct (handshake_responder_finish (Some c)) as [st1 oc1] eqn:Hf. rewrite M_ret_unfold in H.
    injection H as -> -> _ _ _ _. by apply responder_finish_live.
Qed.

Lemma exec_call_outcome k c ps w st oc ps' o n w' :
  ctx_live c -> exec_call k (Some c) ps w = ((st, oc, ps', o, n), w') -> outcome k c st oc.
Proof.
  intros Hl. destruct (right_call k c) as [[Hr Hs]|Hbad]; cycle 1.
  { rewrite exec_call_misuse by done. intros [= <- <- _ _ _ _]. by apply outcome_same. }
  destruct (call_role k) eqn:Hk; [by destruct k| |]; intros H.
  - by eapply initiator_call_outcome; [done|done|rewrite Hk|done|].
  - by eapply responder_call_outcome; [done|done|rewrite Hk|done|].
Qed.

Lemma exec_call_frame k c ps w st oc ps' o n w' :
  ctx_live c -> exec_call k (Some c) ps w = ((st, oc, ps', o, n), w') ->
  (st <> HANDSHAKE_OK -> (o, n) = call_out k) /\ (st <> HANDSHAKE_OK -> terminal_status st = false -> ps' = ps).
Proof.
  intros Hl. destruct (right_call k c) as [[Hr Hs]|Hbad]; cycle 1.
  { rewrite exec_call_misuse by done. intros [= <- <- <- <- <- _]. by destruct (call_out k). }
  destruct k as [out cap len|sh|out cap len| |ch|out cap len|ca|]; cbn [call_role call_state exec_call] in *; intros H.
  - mopen H. destruct x as [[[st1 oc1] o1] n1]. rewrite M_ret_unfold in H. injection H as -> -> <- -> -> _.
    split; [|done]. intros Hne. destruct out as [out|], len as [len|];
      try (unfold handshake_initiator_create_client_hello in Hcall; by null_call Hcall).
    by apply create_client_hello_cases in Hcall
      as [(? & ? & _ & [= -> -> -> ->])|[[= -> -> -> ->]|(? & ? & ? & ? & ? & ? & ? & ? & _ & _ & _ & _ & [= -> -> -> ->])]].
  - mopen H. rewrite M_ret_unfold in H. by injection H as <- <- <- <- <- _.
  - mopen H. destruct x as [[[st1 oc1] o1] n1]. rewrite M_ret_unfold in H. injection H as -> -> <- -> -> _.
    split; [|done]. intros Hne. destruct out as [out|], len as [len|];
      try (unfold handshake_initiator_create_client_auth in Hcall; by null_call Hcall).
    by apply create_client_auth_cases in Hcall
      as [(? & ? & _ & [= -> -> -> ->])|[[= -> -> -> ->]|(? & ? & ? & ? & _ & _ & _ & _ & [= -> -> -> ->])]].
  - mopen H. rewrite M_ret_unfold in H. by injection H as <- <- <- <- <- _.
  - mopen H. rewrite M_ret_unfold in H. by injection H as <- <- <- <- <- _.
  - destruct out as [out|], len as [len|];
      try (unfold handshake_responder_create_server_hello in H; by null_call H).
    apply create_server_hello_cases in H
      as [(? & ? & ? & (? & _ & _ & Ht & _) & _ & [= -> -> -> -> ->])|[[= -> -> -> -> ->]|(? & ? & ? & ? & ? & _ & _ & _ & _ & [= -> -> -> -> ->])]];
      [|done..]. split; [done|]. intros _ ?. congruence.
  - mopen H. destruct x as [[st1 oc1] ps1]. rewrite M_ret_unfold in H. injection H as -> -> <- <- <- _.
    split; [done|]. intros Hne Hst.
    destruct ca as [b|]; [|unfold handshake_responder_verify_client_auth in Hcall; by null_call Hcall].
    apply verify_client_auth_cases in Hcall
      as [[[= -> -> ->]|[= -> -> ->]]|[[[= -> ->] _]|[[(? & _ & _ & Ht & _) _]|(? & ? & ? & ? & ? & keys & Ha & [= -> ->] & _)]]];
      try done. cbn in *. congruence.
  - destruct (handshake_responder_finish (Some c)) as [st1 oc1]. rewrite M_ret_unfold in H.
    by injection H as -> -> <- <- <- _.
Qed.

(** ** Reachable contexts *)
Inductive reachable : handshake_ctx_t -> Prop :=
  | reach_initiator c0 lid kp ks pid w st c w' :
      handshake_initiator_init (Some c0) lid kp ks pid w = ((st, Some c), w') -> reachable c
  | reach_responder c0 lid kp ks lookup ps w st c w' :
      responder_init_impl (Some c0) lid kp ks lookup ps w = ((st, Some c), w') -> reachable c
  | reach_call k c ps w st c' ps' o n w' :
      reachable c -> exec_call k (Some c) ps w = ((st, Some c', ps', o, n), w') -> reachable c'
  | reach_wipe c ps w c' ps' w' :
      reachable c -> handshake_ctx_wipe (Some c) ps w = ((Some c', ps'), w') -> reachable c'.

Lemma id_len_valid_ok n : id_len_valid n = true <-> id_ok n.
Proof. unfold id_len_valid, id_ok. rewrite andb_true_iff, !Z.leb_le. done. Qed.

Lemma init_common_live role lid kp ks lookup w st c w' :
  role <> HANDSHAKE_ROLE_NONE -> id_ok (blen lid) ->
  init_common role lid kp ks lookup w = ((st, c), w') ->
  (st = HANDSHAKE_ERR_RESOURCE_EXHAUSTED /\ c = ctx_failed_zero) \/
  (st = HANDSHAKE_OK /\ ctx_live c /\ hc_state c = HANDSHAKE_STATE_NEW /\ hc_role c = role /\
   hc_local_id c = poke 0 lid (zeros WIRE_ID_MAX_LEN) /\ hc_local_id_len c = blen lid /\
   hc_local_keypair c = kp /\ hc_keystore c = ks /\ hc_lookup_fn c = lookup /\
   hc_peer_id c = zeros WIRE_ID_MAX_LEN).
Proof.
  intros Hrole Hid. unfold init_common. intros H. mopen H. mopen H; rewrite M_ret_unfold in H.
  - apply pair_equal_spec in H as [[<- <-]%pair_equal_spec _]. right. unfold secure_mem_alloc in Hcall. simpl in Hcall.
    subst. apply sodium_malloc_len in Hcall; [|done]. rewrite wipe_keys by done.
    rewrite (bz_u8_small (blen lid)) by (unfold id_ok in Hid; wirelia). split_and!; try done.
    split; hc; try done; [split; hc; try done|].
    + change (hc_local_id ctx_failed_zero) with (zeros WIRE_ID_MAX_LEN). rewrite length_poke; rewrite ?length_zeros; unfold id_ok in Hid; wirelia.
    + eexists. split; [done|]. by apply length_zeros.
    + by destruct role.
  - left. by apply pair_equal_spec in H as [[= <- <-] _].
Qed.

Lemma reachable_inv c : reachable c -> ctx_inv c.
Proof.
  induction 1 as [c0 lid kp ks pid w st c w' H|c0 lid kp ks lookup ps w st c w' H|k c ps w st c' ps' o n w' _ IH H
    |c ps w c' ps' w' _ IH H].
  - unfold handshake_initiator_init in H. destruct lid as [lid|], pid as [pid|];
      try (rewrite M_ret_unfold in H; simplify_eq; by left).
    mopen H; [rewrite M_ret_unfold in H; simplify_eq; by left|].
    rewrite !orb_false_iff, !negb_false_iff, !id_len_valid_ok in Heqb. destruct Heqb as [[[Hid _] _] Hpid].
    mopen H. destruct x as [st1 c1]. cbv beta iota zeta in H.
    apply init_common_live in Hcall as [[-> ->]|(-> & Hl & Hs & Hr & _ & _ & _ & _ & _ & Hp)];
      [rewrite bool_decide_eq_false_2 in H by done|rewrite bool_decide_eq_true_2 in H by done|done..];
      cbn [negb] in H; rewrite M_ret_unfold in H; simplify_eq; [by left|]. right.
    assert (Hpl : blen (poke 0 pid (hc_peer_id c1)) = WIRE_ID_MAX_LEN)
      by (rewrite Hp, length_poke; rewrite ?length_zeros; unfold id_ok in Hpid; wirelia).
    destruct Hl; split; hc; try done. sized.
  - unfold responder_init_impl in H. destruct lid as [lid|]; [|rewrite M_ret_unfold in H; simplify_eq; by left].
    mopen H; [rewrite M_ret_unfold in H; simplify_eq; by left|].
    rewrite !orb_false_iff, !negb_false_iff, !id_len_valid_ok in Heqb. destruct Heqb as [[[Hid _] _] _].
    mopen H. destruct x as [st1 c1]. cbv beta iota zeta in H.
    apply init_common_live in Hcall as [[-> ->]|(-> & Hl & _)];
      [rewrite bool_decide_eq_false_2 in H by done|rewrite bool_decide_eq_true_2 in H by done|done..];
      cbn [negb] in H; rewrite M_ret_unfold in H; simplify_eq; [by left|]. right.
    destruct Hl; split; hc; try done. sized.
  - destruct IH as [->|Hl].
    + rewrite exec_call_misuse in H by (left; by destruct k). simplify_eq. by left.
    + apply exec_call_outcome in H as (c1 & [= <-] & Hl1 & _); [by right|done].
  - left. unfold handshake_ctx_wipe in H. mopens H; rewrite ?M_ret_unfold in H; by simplify_eq.
Qed.

Lemma session_keys_split c :
  ctx_live c ->
  match handshake_session_key_c2s (Some c), handshake_session_key_s2c (Some c) with
  | (HANDSHAKE_OK, Some k1), (HANDSHAKE_OK, Some k2) =>
      hc_state c = HANDSHAKE_STATE_ESTABLISHED /\ blen k1 = 32 /\ blen k2 = 32 /\
      hc_session_keys c = Some (k1 ++ k2)
  | (HANDSHAKE_ERR_UNEXPECTED_STATE, None), (HANDSHAKE_ERR_UNEXPECTED_STATE, None) =>
      hc_state c <> HANDSHAKE_STATE_ESTABLISHED
  | _, _ => False
  end.
Proof.
  intros Hl. destruct (cs_keys _ (cl_sized _ Hl)) as (l & Hk & Hlen).
  unfold handshake_session_key_c2s, handshake_session_key_s2c, key_at. rewrite Hk, (cl_committed _ Hl).
  case_bool_decide as Hs; [rewrite Hs|done]. cbn [negb orb has_keys].
  unfold SESSION_KEYS_LEN, C2S_OFFSET, S2C_OFFSET, KEX_SESSION_KEY_BYTES in *.
  split; [done|]. rewrite !length_peek by lia. split; [done|]. split; [done|]. f_equal.
  unfold peek. rewrite drop_0. rewrite (take_all_z 32 (zdrop 32 l)); [by rewrite take_drop|].
  rewrite length_zdrop; lia.
Qed.

(** ** What the ledger steps of a call amount to *)
Lemma lsteps_snoc_inv ps log op r ps2 :
  lsteps ps (log ++ [(op, r)]) ps2 ->
  exists ps1 w w', lsteps ps log ps1 /\ exec_op op ps1 w = ((r, ps2), w').
Proof.
  revert ps. induction log as [|[o q] log IH]; intros ps H; inversion H; subst.
  - match goal with H : lsteps _ [] _ |- _ => inversion H; subst end. eexists _, _, _. split; [constructor|done].
  - match goal with H : lsteps _ (log ++ _) _ |- _ => apply IH in H as (ps1' & w1 & w1' & Hl & He) end.
    eexists _, _, _. split; [by econstructor|done].
Qed.

Lemma digest_step s id w ps1 w' :
  store_ok s -> blen id = WIRE_HANDSHAKE_ID_LEN ->
  exec_op (OpDigest id) (Some s) w = ((PENDING_OK, ps1), w') ->
  exists s1 e, ps1 = Some s1 /\ store_ok s1 /\ ledger s1 = ledger s /\ ledger s !! id = Some e /\
    pe_state e = PENDING_SLOT_ACTIVE /\ (store_now s w).1 < pe_deadline_ms e.
Proof.
  intros Hok Hid Hex. destruct (exec_refines (OpDigest id) s Hok Hid w) as (r & s1 & w1 & H1 & H2 & H3 & _).
  rewrite H1 in Hex. injection Hex as -> <- ->. apply touch_success in H2 as (e & He & Ha & Hd & _ & Hm);
    [|by apply ledger_wf]. exists s1, e. split_and!; try done. rewrite Hm. simpl. by rewrite insert_id.
Qed.

Lemma digests_step s id log ps1 :
  store_ok s -> blen id = WIRE_HANDSHAKE_ID_LEN -> Forall (fun p => p = (OpDigest id, PENDING_OK)) log ->
  lsteps (Some s) log ps1 -> exists s1, ps1 = Some s1 /\ store_ok s1 /\ ledger s1 = ledger s.
Proof.
  intros Hok Hid Hlog. revert s Hok. induction Hlog as [|p log -> _ IH]; intros s Hok H; inversion H; subst.
  - by exists s.
  - match goal with H : exec_op _ _ _ = _ |- _ => apply digest_step in H as (s1 & e & -> & Hok1 & Hl1 & _); [|done..] end.
    match goal with H : lsteps (Some s1) _ _ |- _ => apply IH in H as (s2 & -> & Hok2 & Hl2); [|done] end.
    exists s2. split_and!; [done..|congruence].
Qed.

Lemma retired_spent s id op pr w ps2 w' :
  store_ok s -> blen id = WIRE_HANDSHAKE_ID_LEN -> op_target op = Some id -> retires op pr ->
  exec_op op (Some s) w = ((pr, ps2), w') ->
  exists s2, ps2 = Some s2 /\ store_ok s2 /\ spent id (ledger s2).
Proof.
  intros Hok Hid Ht Hr Hex.
  apply (exec_effect _ _ _ _ _ _ id) in Hex as (s2 & -> & Hok2 & Heff); [|done|by destruct op; simplify_eq/=|by destruct op].
  exists s2. split_and!; [done..|]. by apply (effect_spent _ _ _ _ _ Heff).
Qed.

Lemma two_steps s id op s' act :
  store_ok s -> blen id = WIRE_HANDSHAKE_ID_LEN -> op_target op = Some id ->
  (op = OpConsume id /\ act = act_consume) \/ (op = OpFailure id /\ act = act_failure) ->
  lsteps (Some s) [(OpDigest id, PENDING_OK); (op, PENDING_OK)] s' ->
  exists s2 e, s' = Some s2 /\ store_ok s2 /\ ledger s !! id = Some e /\ pe_state e = PENDING_SLOT_ACTIVE /\
    (act e).1 = PENDING_OK /\
    ledger s2 = match (act e).2 with Some e' => <[id := e']> (ledger s) | None => delete id (ledger s) end.
Proof.
  intros Hok Hid Ht Hop H. apply (lsteps_snoc_inv _ [_]) in H as (ps1 & w & w' & H1 & H2).
  apply (lsteps_snoc_inv _ []) in H1 as (ps0 & w0 & w0' & H0 & H1). inversion H0; subst ps0.
  apply digest_step in H1 as (s1 & e & -> & Hok1 & Hl1 & He & _); [|done..].
  assert (Hsz : op_sized op) by (by destruct Hop as [[-> _]|[-> _]]).
  destruct (exec_refines op s1 Hok1 Hsz w) as (r & s2 & w1 & E1 & E2 & E3 & _).
  rewrite E1 in H2. injection H2 as -> <- ->. rewrite Hl1 in E2.
  assert (E2' : led_touch (store_now s1) act (ledger s) id w = ((PENDING_OK, ledger s2), w'))
    by (by destruct Hop as [[-> ->]|[-> ->]]).
  apply touch_success in E2' as (e' & He' & Ha & _ & Hact & Hm); [|by apply ledger_wf].
  exists s2, e'. by split_and!.
Qed.

(** With a keystore, the resolver returns the pin. *)
Lemma resolve_keystore c id w w1 pk :
  resolve_peer_pk c id w = (Some pk, w1) -> hc_lookup_fn c = None ->
  exists ks, hc_keystore c = Some ks /\ (keystore_ok ks -> pins ks !! id = Some pk).
Proof.
  unfold resolve_peer_pk. intros H Hn. rewrite Hn in H. destruct (hc_keystore c) as [ks|]; [|done]. exists ks. split; [done|].
  intros Hok. unfold keystore_lookup in H. rewrite <-find_entry_pins by done.
  destruct (ks_id_len_valid _); [|done]. destruct (find_entry ks id) as [[i e]|]; [|done].
  simpl in *. by injection H as -> _.
Qed.

(** ** Properties *)

(** C1: secret lifetimes.  In every context reachable through the API, whatever
    the arguments, the peer's messages and the external failures: the state fits
    the role; the ephemeral X25519 key, the ML-KEM decapsulation key and the
    retained KEM secret exist exactly in the states that still need them; the
    traffic keys are zero until the handshake commits; a failed context holds no
    secret and no transcript data; and the key accessors succeed exactly in
    ESTABLISHED, returning the two 32-byte halves of the committed keys. *)
Theorem handshake_secret_lifetime c :
  reachable c ->
  role_state_ok (hc_role c) (hc_state c) = true /\
  is_some (kex_priv (hc_eph c)) = needs_eph (hc_state c) /\
  is_some (kem_sec (hc_kem c)) = needs_kem (hc_state c) /\
  is_some (hc_ss_kem c) = needs_ss_kem (hc_state c) /\
  (has_keys (hc_state c) = false ->
     hc_session_keys c = None \/ hc_session_keys c = Some (zeros SESSION_KEYS_LEN)) /\
  (hc_state c = HANDSHAKE_STATE_FAILED ->
     hc_ch_bytes c = zeros CLIENT_HELLO_MAX_ENCODED_LEN /\ hc_ch_len c = 0 /\
     hc_th_client_auth c = zeros HANDSHAKE_TRANSCRIPT_HASH_BYTES /\
     hc_handshake_id c = zeros WIRE_HANDSHAKE_ID_LEN) /\
  (match handshake_session_key_c2s (Some c), handshake_session_key_s2c (Some c) with
   | (HANDSHAKE_OK, Some k1), (HANDSHAKE_OK, Some k2) =>
       hc_state c = HANDSHAKE_STATE_ESTABLISHED /\ blen k1 = 32 /\ blen k2 = 32 /\
       hc_session_keys c = Some (k1 ++ k2)
   | (HANDSHAKE_ERR_UNEXPECTED_STATE, None), (HANDSHAKE_ERR_UNEXPECTED_STATE, None) =>
       hc_state c <> HANDSHAKE_STATE_ESTABLISHED
   | _, _ => False
   end).
Proof.
  intros [->|Hl]%reachable_inv; [split_and!; try done; by left|].
  pose proof (session_keys_split c Hl). destruct Hl. split_and!; try done.
  - intros Hk. right. apply cl_keys0. by rewrite cl_committed0.
  - intros Hf. destruct (cl_failed0 Hf) as (? & ? & ? & ? & _). done.
Qed.

(** The state machine is closed under misuse.  For every reachable context
    and every call: a call in the wrong role or state is refused; success moves
    to the call's next state and only from its required one; a refused argument
    (including an output buffer that is too small) leaves context, ledger and
    outputs exactly as they were; any other error either leaves the context as
    it was or ends in FAILED, and never touches the outputs. *)
Theorem handshake_state_machine k c ps w st oc ps' o n w' :
  reachable c -> exec_call k (Some c) ps w = ((st, oc, ps', o, n), w') ->
  (hc_role c <> call_role k \/ hc_state c <> call_state k -> st = HANDSHAKE_ERR_UNEXPECTED_STATE) /\
  exists c', oc = Some c' /\ hc_role c' = hc_role c /\
  match st with
  | HANDSHAKE_OK => hc_role c = call_role k /\ hc_state c = call_state k /\ hc_state c' = call_next k
  | HANDSHAKE_ERR_INVALID_ARG | HANDSHAKE_ERR_UNEXPECTED_STATE => c' = c /\ ps' = ps /\ (o, n) = call_out k
  | _ => (hc_state c' = HANDSHAKE_STATE_FAILED \/ c' = c) /\ (o, n) = call_out k
  end.
Proof.
  intros [->|Hl]%reachable_inv Hex.
  - rewrite exec_call_misuse in Hex by (left; by destruct k). injection Hex as <- <- <- <- <- _.
    split; [done|]. eexists. split_and!; try done. by destruct (call_out k).
  - split; [intros Hbad; rewrite exec_call_misuse in Hex by done; by injection Hex as <- _|].
    pose proof (exec_call_frame _ _ _ _ _ _ _ _ _ _ Hl Hex) as [Hout Hps].
    apply exec_call_outcome in Hex as (c' & -> & _ & Hr & Ht); [|done].
    exists c'. split; [done|]. split; [done|].
    destruct st; try done; split_and!; try done; first [by apply Hout|by apply Hps].
Qed.

(** C2: the initiator authenticates the responder.  When a reachable initiator
    accepts a ServerHello, the bytes are the encoding of a valid message whose
    identity is the one dialled and whose session id is the one sent; the
    signature verifies, under the key the resolver returned for the dialled
    identity, over the transcript hash of exactly the ClientHello sent and the
    signed part of exactly these bytes; X25519 accepts the ephemeral key; and the
    context then holds that key and ciphertext and the hashes of the full
    transcript, with no traffic keys.  With a keystore, the verification key is
    the pin of the dialled identity. *)
Theorem initiator_authenticates_responder c b w c' w' :
  reachable c ->
  handshake_initiator_verify_server_hello (Some c) (Some b) w = ((HANDSHAKE_OK, Some c'), w') ->
  hc_role c = HANDSHAKE_ROLE_INITIATOR /\ hc_state c = HANDSHAKE_STATE_CLIENT_HELLO_CREATED /\
  exists msg pk w1,
    server_hello_accepted c b msg pk /\
    resolve_peer_pk c (ztake (hc_peer_id_len c) (hc_peer_id c)) w = (Some pk, w1) /\
    (hc_lookup_fn c = None -> exists ks, hc_keystore c = Some ks /\
       (keystore_ok ks -> pins ks !! ztake (hc_peer_id_len c) (hc_peer_id c) = Some pk)) /\
    c' = after_server_hello c b msg pk /\
    hc_keys_committed c' = false /\ hc_session_keys c' = Some (zeros SESSION_KEYS_LEN).
Proof.
  intros [->|Hl]%reachable_inv Hv; [by vm_compute in Hv|].
  destruct (right_call (CallVerifyServerHello (Some b)) c) as [[Hr Hs]|Hbad]; cycle 1.
  { unfold handshake_initiator_verify_server_hello in Hv.
    rewrite (check_call_bad c HANDSHAKE_ROLE_INITIATOR HANDSHAKE_STATE_CLIENT_HELLO_CREATED Hbad) in Hv. done. }
  split; [done|]. split; [done|].
  apply verify_server_hello_cases in Hv as [(? & _ & _ & Ht & _)|(msg & pk & w1 & Ha & Hres & [= ->])]; [done| |done..].
  exists msg, pk, w1. split_and!; try done.
  - by apply (resolve_keystore c _ w w1).
  - pose proof (cl_committed _ Hl) as Hc. by rewrite Hs in Hc.
  - apply Hl. rewrite (cl_committed _ Hl). by rewrite Hs.
Qed.

(** C3: the responder authenticates the initiator, once.  When a reachable
    responder accepts a ClientAuth over a well-formed ledger, the bytes encode a
    valid message carrying this context's handshake id; the ledger held a live
    entry for the id; the signature verifies, under the peer's key, over the
    digest of that entry; the committed traffic keys are derived from the X25519
    secret, the retained KEM secret and that digest; and the entry is now
    consumed, everything else in the ledger being untouched. *)
Theorem responder_authenticates_initiator c s b w c' ps' w' :
  reachable c -> store_ok s ->
  handshake_responder_verify_client_auth (Some c) (Some s) (Some b) w = ((HANDSHAKE_OK, Some c', ps'), w') ->
  exists msg e pk ssx ssk keys s',
    client_auth_accepted c (Some s) b msg (pe_th_client_auth e) pk ssx ssk keys w /\
    ledger s !! hc_handshake_id c = Some e /\ pe_state e = PENDING_SLOT_ACTIVE /\
    ps' = Some s' /\ store_ok s' /\
    ledger s' = <[hc_handshake_id c := tombstone e PENDING_SLOT_CONSUMED]> (ledger s) /\
    c' = after_client_auth c keys /\ hc_session_keys c' = Some keys /\ hc_keys_committed c' = true /\
    hc_ss_kem c' = None.
Proof.
  intros [->|Hl]%reachable_inv Hok Hv; [by vm_compute in Hv|].
  destruct (right_call (CallVerifyClientAuth (Some b)) c) as [[Hr Hs]|Hbad]; cycle 1.
  { unfold handshake_responder_verify_client_auth in Hv.
    rewrite (check_call_bad c HANDSHAKE_ROLE_RESPONDER HANDSHAKE_STATE_SERVER_HELLO_CREATED Hbad) in Hv. done. }
  apply verify_client_auth_cases in Hv
    as [[|]|[[? _]|[(_ & ? & _)|(msg & digest & pk & ssx & ssk & keys & Ha & [= ->] & Hst)]]]; try done.
  pose proof (cs_hid _ (cl_sized _ Hl)) as Hid.
  cbn [fst snd] in Hst. apply (two_steps s _ _ _ act_consume) in Hst as (s' & e & -> & Hok' & He & Hae & _ & Hl'); [|done|done|done|by left].
  assert (digest = pe_th_client_auth e) as ->.
  { destruct (aa_digest _ _ _ _ _ _ _ _ _ _ Ha) as (ps1 & w1 & Hd).
    destruct (digest_touch s (hc_handshake_id c) w Hok Hid) as (H1 & _ & H2). rewrite Hd in H1, H2.
    cbn [fst snd] in H1, H2. rewrite <-H1 in H2. cbn [fst] in H2. by rewrite He in H2. }
  exists msg, e, pk, ssx, ssk, keys, s'. split_and!; try done.
  unfold after_client_auth. hc. apply poke_keys_sized; [apply Hl|]. eapply derive_keys_len, Ha.
Qed.

(** C21: How a rejected ClientAuth affects context and ledger.  Malformed bytes
    and a foreign handshake id change neither the context nor the ledger; a bad
    signature below the limit keeps the context and only counts a failure on
    this entry; every other rejection ends the context in FAILED and leaves the
    handshake id retired, so no later ClientAuth can complete it. *)
Theorem rejected_client_auth c s b w st c' ps' w' :
  reachable c -> store_ok s -> hc_role c = HANDSHAKE_ROLE_RESPONDER ->
  hc_state c = HANDSHAKE_STATE_SERVER_HELLO_CREATED ->
  handshake_responder_verify_client_auth (Some c) (Some s) (Some b) w = ((st, Some c', ps'), w') ->
  st <> HANDSHAKE_OK ->
  exists s', ps' = Some s' /\ store_ok s' /\
  match st with
  | HANDSHAKE_ERR_MALFORMED | HANDSHAKE_ERR_HANDSHAKE_ID_MISMATCH => c' = c /\ s' = s
  | HANDSHAKE_ERR_SIGNATURE => c' = c /\ exists e, ledger s !! hc_handshake_id c = Some e /\
      pe_failure_count e + 1 < HANDSHAKE_AUTH_FAILURE_LIMIT /\
      ledger s' = <[hc_handshake_id c := bump e]> (ledger s)
  | _ => hc_state c' = HANDSHAKE_STATE_FAILED /\ spent (hc_handshake_id c) (ledger s')
  end.
Proof.
  intros [->|Hl]%reachable_inv Hok Hr Hs Hv Hst; [done|].
  pose proof (cs_hid _ (cl_sized _ Hl)) as Hid.
  apply verify_client_auth_cases in Hv
    as [[[= -> -> ->]|[= -> -> ->]]|[[[= -> ->] Hsteps]|[(Hf & Ht & log & op & pr & Hsteps & Htg & Hret & Hlog)
         |(? & ? & ? & ? & ? & ? & _ & [= -> _] & _)]]]; try done; [by exists s|by exists s| |].
  - cbn [fst snd] in Hsteps. apply (two_steps s _ _ _ act_failure) in Hsteps as (s' & e & -> & Hok' & He & _ & Hact & Hl'); [|done|done|done|by right].
    exists s'. split_and!; [done..|]. exists e. unfold act_failure in *. case_decide; by split_and!.
  - cbn [fst snd] in *. apply lsteps_snoc_inv in Hsteps as (ps1 & w1 & w1' & H1 & H2).
    apply (digests_step s (hc_handshake_id c)) in H1 as (s1 & -> & Hok1 & _); [|done..].
    apply (retired_spent s1 (hc_handshake_id c)) in H2 as (s2 & -> & Hok2 & Hsp); [|done..].
    exists s2. split; [done|]. split; [done|]. destruct Hf as (c1 & Hsz & _ & _ & [= ->]).
    destruct (fail_ctx_live c1 st Hsz) as [_ Hfs]. by destruct st.
Qed.

End props.
