(* ===== verification/HandshakeRun.v ===== *)
(** * Completeness of an honest handshake

    Two contexts whose messages are relayed unmodified both reach ESTABLISHED
    and hold the same traffic keys, provided the external calls succeed
    ([EnvUp]) and the primitives are correct ([EnvCrypto]). *)

From S2P Require Import Prelude WireInt Extern Toy Crypto Transcript Keystore Pending Handshake HandshakeProps.

Section run.
Context `{ES : EnvSizes} {EC : EnvCrypto E} {EU : EnvUp E}.
Implicit Types (c : handshake_ctx_t) (ps : option handshake_pending_store_t).

(** ** The wrapped calls succeed *)
Lemma alloc_up n w : 0 < n -> exists l w', secure_mem_alloc n w = (Some l, w').
Proof. intros Hn. unfold secure_mem_alloc. rewrite (proj2 (Z.eqb_neq _ _)) by lia. by apply up_malloc. Qed.

Lemma kex_generate_up kp w :
  exists sk pk w', kex_keypair_generate (Some kp) w = ((0, Some (KexKeypair pk (Some sk))), w') /\
    crypto_scalarmult_base sk = Some pk /\ blen sk = 32.
Proof.
  unfold kex_keypair_generate. destruct (alloc_up KEX_PRIVATE_KEY_BYTES w) as (l & w1 & Ha); [done|].
  rewrite M_bind_unfold, Ha. cbn [fst snd]. rewrite M_bind_unfold.
  destruct (randombytes_buf _ w1) as [sk w2] eqn:Hr. apply random_len in Hr; [|done]. cbn [fst snd].
  destruct (up_base sk Hr) as [pk Hpk]. rewrite Hpk. by eexists _, _, _.
Qed.

Lemma kem_new_up w : exists k w', kem_new_checked w = (Some k, w').
Proof.
  unfold kem_new_checked. destruct (up_kem_new w) as (w' & H). rewrite M_bind_unfold, H. by eexists _, _.
Qed.

Lemma mlkem_generate_up kp w :
  exists pk dk w0 w1 w', mlkem_keypair_generate (Some kp) w = ((0, Some (MlkemKeypair pk (Some dk))), w') /\
    OQS_KEM_keypair w0 = (Some (pk, dk), w1).
Proof.
  unfold mlkem_keypair_generate. destruct (kem_new_up w) as (k & w1 & Hk). rewrite M_bind_unfold, Hk. cbn [fst snd].
  destruct (alloc_up MLKEM_SECRET_KEY_BYTES w1) as (l & w2 & Ha); [done|]. rewrite M_bind_unfold, Ha. cbn [fst snd].
  destruct (up_kem_keypair w2) as (pk & sk & w3 & Hp). rewrite M_bind_unfold, Hp. by eexists _, _, _, _, _.
Qed.

Lemma sign_up msg pk sk w : exists s w', mldsa_sign msg (Some (MldsaKeypair pk (Some sk))) w = (Some s, w') /\ sig_ok (blen s).
Proof.
  unfold mldsa_sign. destruct (up_sig_new w) as (w1 & H1). rewrite M_bind_unfold, H1. cbn [fst snd].
  destruct (up_sign msg sk w1) as (s & w2 & H2). exists s, w2. split; [done|]. by apply sig_len in H2.
Qed.

Lemma verify_up msg s pk w : OQS_SIG_verify msg s pk = true -> exists w', mldsa_verify msg s (Some pk) w = (0, w').
Proof.
  intros Hv. unfold mldsa_verify. destruct (up_sig_new w) as (w1 & H1). rewrite M_bind_unfold, H1. cbn [fst snd].
  rewrite Hv. by eexists.
Qed.

Lemma encaps_up w0 ek dk w1 w :
  OQS_KEM_keypair w0 = (Some (ek, dk), w1) -> exists ct ss w', mlkem_encaps ek w = ((0, ct, ss), w').
Proof.
  intros Hk. unfold mlkem_encaps. destruct (kem_new_up w) as (k & w2 & H2). rewrite M_bind_unfold, H2. cbn [fst snd].
  destruct (up_encaps w0 ek dk w1 w2 Hk) as (ct & ss & w3 & H3). rewrite M_bind_unfold, H3. by eexists _, _, _.
Qed.

Lemma decaps_up ct pub dk ss w : OQS_KEM_decaps ct dk = Some ss ->
  exists w', mlkem_decaps ct (MlkemKeypair pub (Some dk)) w = ((0, ss), w').
Proof.
  intros Hd. unfold mlkem_decaps. destruct (kem_new_up w) as (k & w2 & H2). cbn [kem_sec].
  rewrite M_bind_unfold, H2. cbn [fst snd]. rewrite Hd. by eexists.
Qed.

Lemma derive_up ssx ssk sid a b th :
  kex_id_ok a -> kex_id_ok b -> blen th = 32 -> blen sid = 16 -> is_Some (derive_traffic_keys ssx ssk sid a b th).
Proof.
  intros Ha Hb Hth Hsid.
  assert (Hone : forall d, kex_dir_ok d ->
    is_Some (kex_derive_session_key_v2 ssx ssk (ztake WIRE_SESSION_ID_LEN sid) a b th d)).
  { intros d Hd. rewrite derive_session_key_ok; [|done..|]; [|rewrite take_all_z; done].
    unfold kex_hkdf_sha256. rewrite (proj2 (Z.ltb_ge _ _)) by done.
    destruct (up_extract (ztake WIRE_SESSION_ID_LEN sid)
      (ztake KEX_SHARED_SECRET_BYTES ssx ++ ztake KEX_SHARED_SECRET_BYTES ssk)) as [prk ->].
    by apply up_expand. }
  unfold derive_traffic_keys.
  destruct (Hone HANDSHAKE_DIR_C2S) as [k1 H1]; [by left|]. destruct (Hone HANDSHAKE_DIR_S2C) as [k2 H2]; [by right|].
  rewrite H1. cbn [mbind option_bind]. rewrite H2. by eexists.
Qed.

Lemma take_poke_field n l cap : 0 <= n <= blen l -> ztake n (poke 0 (ztake n l) (zeros cap)) = ztake n l.
Proof.
  intros Hn. replace n with (blen (ztake n l)) at 1 by (rewrite length_take; lia). apply take_poke_0.
Qed.

(** ** The calls succeed *)

(** Runs the next external call of the computation in the goal with [H]. *)
Ltac mgo H := rewrite M_bind_unfold, H; cbn [fst snd]; cbv beta iota zeta; cbn [default id negb Z.eqb fst snd].

Lemma create_client_hello_up c o cap len w :
  ctx_live c -> hc_role c = HANDSHAKE_ROLE_INITIATOR -> hc_state c = HANDSHAKE_STATE_NEW ->
  CLIENT_HELLO_MAX_ENCODED_LEN <= cap ->
  (handshake_initiator_create_client_hello (Some c) (Some o) cap (Some len) w).1.1.1.1 = HANDSHAKE_OK.
Proof.
  intros Hl Hr Hs Hcap. unfold handshake_initiator_create_client_hello. rewrite check_call_ok by done.
  destruct (kex_generate_up (hc_eph c) w) as (sk & pk & w1 & H1 & Hpk & _). mgo H1.
  destruct (mlkem_generate_up (hc_kem (set_eph c (KexKeypair pk (Some sk)))) w1) as (ek & dk & wa & wb & w2 & H2 & Hek). mgo H2.
  apply scalarmult_base_len in Hpk as Hpkl. apply kem_keypair_len in Hek as Hekl.
  rewrite M_bind_unfold. destruct (randombytes_buf WIRE_SESSION_ID_LEN w2) as [sid w3] eqn:H3. cbn [fst snd].
  rewrite M_bind_unfold. destruct (randombytes_buf WIRE_NONCE_LEN w3) as [nonce w4] eqn:H4. cbn [fst snd].
  apply random_len in H3, H4; [|done..]. hc. fold (hello_of c pk ek sid nonce).
  pose proof (hello_of_valid c pk ek sid nonce (cl_sized _ Hl) Hpkl (proj1 Hekl) H3 H4) as Hv.
  rewrite encode_client_hello_ok by (try done; by apply client_hello_fits).
  cbn [negb Z.eqb default id]. rewrite length_client_hello_wire by done.
  apply client_hello_fits in Hv. rewrite (proj2 (Z.ltb_ge _ _)) by lia. done.
Qed.

Lemma accept_client_hello_up c msg pk w w1 :
  ctx_live c -> hc_role c = HANDSHAKE_ROLE_RESPONDER -> hc_state c = HANDSHAKE_STATE_NEW ->
  client_hello_valid msg -> resolve_peer_pk c (ztake (ch_id_len msg) (ch_id msg)) w = (Some pk, w1) ->
  (handshake_responder_accept_client_hello (Some c) (Some (client_hello_wire msg)) w).1.1 = HANDSHAKE_OK.
Proof.
  intros Hl Hr Hs Hv Hres. unfold handshake_responder_accept_client_hello. rewrite check_call_ok by done.
  unfold decode_client_hello. rewrite decode_client_hello_fields_complete by done. cbv beta iota zeta.
  cbn [default id negb Z.eqb orb client_hello_norm ch_id ch_id_len].
  rewrite (proj2 (Z.ltb_ge _ _)) by (rewrite length_client_hello_wire by done; by apply client_hello_fits).
  rewrite take_poke_field by (destruct Hv as [[Hb] Hi]; rewrite Hb; wirelia). mgo Hres. done.
Qed.

Lemma create_server_hello_up c s o cap len w ch w0 dk w1 dpk dsk :
  ctx_live c -> hc_role c = HANDSHAKE_ROLE_RESPONDER -> hc_state c = HANDSHAKE_STATE_CLIENT_HELLO_ACCEPTED ->
  SERVER_HELLO_MAX_ENCODED_LEN <= cap -> client_hello_valid ch ->
  ztake (hc_ch_len c) (hc_ch_bytes c) = client_hello_wire ch ->
  OQS_KEM_keypair w0 = (Some (ch_mlkem_ek ch, dk), w1) ->
  hc_local_keypair c = Some (MldsaKeypair dpk (Some dsk)) ->
  (forall hid th w, blen hid = 16 -> blen th = 32 ->
     exists s' w', handshake_pending_insert (Some s) hid th w = ((PENDING_OK, Some s'), w')) ->
  (handshake_responder_create_server_hello (Some c) (Some s) (Some o) cap (Some len) w).1.1.1.1.1 = HANDSHAKE_OK.
Proof.
  intros Hl Hr Hs Hcap Hv Hch Hkem Hkp Hins. unfold handshake_responder_create_server_hello.
  rewrite check_call_ok by done. pose proof (cl_sized _ Hl) as Hsz.
  destruct (kex_generate_up (hc_eph c) w) as (sk & pk & w2 & H2 & Hpk & _). mgo H2.
  apply scalarmult_base_len in Hpk as Hpkl. rewrite M_bind_unfold.
  destruct (randombytes_buf WIRE_NONCE_LEN w2) as [nonce w3] eqn:H3. cbn [fst snd]. apply random_len in H3; [|done]. hc.
  rewrite Hch. unfold decode_client_hello. rewrite decode_client_hello_fields_complete by done. cbv beta iota zeta.
  cbn [default id negb Z.eqb].
  destruct (alloc_up MLKEM_SHARED_SECRET_BYTES w3) as (l & w4 & H4); [done|]. mgo H4.
  destruct (encaps_up _ _ _ _ w4 Hkem) as (ct & ss & w5 & H5). cbn [client_hello_norm ch_mlkem_ek]. mgo H5.
  pose proof H5 as H5'. apply encaps_cases in H5' as [?|(_ & Hct & _)]; [done|]. hc.
  fold (server_hello_of c pk ct nonce (zeros MLDSA_SIGNATURE_MAX_BYTES) 0).
  set (sh0 := server_hello_of c pk ct nonce _ 0).
  assert (Hs0 : server_hello_sized sh0) by (by apply server_hello_of_sized).
  rewrite (encode_server_hello_unsigned_ok sh0) by (try done; by destruct Hsz; unfold sh0, id_ok in *; simpl; wirelia).
  cbn [default id negb Z.eqb]. rewrite take_poke_0, server_auth_spec, Hkp.
  match goal with |- context [mldsa_sign ?m _ ≫= _] => destruct (sign_up m dpk dsk w5) as (sig & w6 & H6 & Hsig) end.
  mgo H6. rewrite (proj2 (orb_false_iff _ _)) by (unfold sig_ok, MLDSA_SIGNATURE_MAX_BYTES in *; lia).
  set (sh := ServerHello _ _ _ _ _ _ (poke 0 sig _) _).
  assert (Hv1 : server_hello_valid sh).
  { split; [|split; [apply Hsz|done]]. by apply server_hello_of_sized; try apply sig_padded_len. }
  rewrite (encode_server_hello_ok sh) by (try done; by apply server_hello_fits). cbn [default id negb Z.eqb].
  change (server_hello_unsigned_wire sh0) with (server_hello_unsigned_wire sh).
  rewrite (server_hello_prefix_check sh) by done. rewrite take_poke_0.
  pose proof (server_hello_fits _ Hv1) as Hfit. rewrite (proj2 (Z.ltb_ge _ _)) by (rewrite length_server_hello_wire by done; lia).
  rewrite client_auth_spec, handshake_id_spec. cbv beta iota zeta.
  match goal with |- context [handshake_pending_insert _ ?h ?t ≫= _] =>
    destruct (Hins h t w6) as (s' & w7 & H7); [apply hash_len_16|apply sha256_len|] end.
  mgo H7. done.
Qed.

Lemma verify_server_hello_up c msg pk w w1 :
  ctx_live c -> hc_role c = HANDSHAKE_ROLE_INITIATOR -> hc_state c = HANDSHAKE_STATE_CLIENT_HELLO_CREATED ->
  server_hello_accepted c (server_hello_wire msg) msg pk ->
  resolve_peer_pk c (ztake (hc_peer_id_len c) (hc_peer_id c)) w = (Some pk, w1) ->
  (handshake_initiator_verify_server_hello (Some c) (Some (server_hello_wire msg)) w).1.1 = HANDSHAKE_OK.
Proof.
  intros Hl Hr Hs [Hv _ Hil Hid Hecho Hsig [ss Hkex]] Hres. unfold handshake_initiator_verify_server_hello.
  rewrite check_call_ok by done. pose proof (cl_sized _ Hl) as Hsz. pose proof Hv as ([Hb1 Hb2 Hb3 Hb4 Hb5 Hb6] & Hi & Hg).
  unfold decode_server_hello. rewrite decode_server_hello_fields_complete by done. cbv beta iota zeta.
  cbn [default id negb Z.eqb server_hello_norm sh_id sh_id_len sh_session_id_echo sh_sig sh_sig_len
       sh_ephemeral_pub sh_mlkem_ct].
  rewrite (take_poke_field (sh_id_len msg)) by (rewrite Hb1; wirelia).
  rewrite (take_poke_field (sh_sig_len msg)) by (rewrite Hb6; wirelia).
  assert (memeq (poke 0 (ztake (sh_id_len msg) (sh_id msg)) (zeros WIRE_ID_MAX_LEN)) (hc_peer_id c) (hc_peer_id_len c) = true) as ->.
  { unfold memeq. apply bool_decide_eq_true_2. rewrite <-Hid, <-Hil. apply take_poke_field. rewrite Hb1. wirelia. }
  rewrite (proj2 (Z.eqb_eq _ _) Hil). cbn [negb orb]. rewrite Hid. mgo Hres.
  change (hc_session_id (set_peer_pk c (Some pk))) with (hc_session_id c).
  rewrite (proj2 (memeq_true _ _ _ Hb5 (cs_session_id _ Hsz)) Hecho). cbn [negb].
  destruct (server_hello_slice msg Hv) as [Hu Hpre]. cbv zeta in Hu, Hpre. rewrite Hu, Hpre, server_auth_spec. hc.
  match goal with |- context [mldsa_verify ?m ?sg _ ≫= _] => destruct (verify_up m sg pk w1 Hsig) as (w2 & H2) end.
  mgo H2. destruct (alloc_up KEX_SHARED_SECRET_BYTES w2) as (l & w3 & H3); [done|]. mgo H3.
  rewrite Hkex, client_auth_spec, handshake_id_spec. done.
Qed.

Lemma create_client_auth_up c o cap len w pk sk :
  ctx_live c -> hc_role c = HANDSHAKE_ROLE_INITIATOR -> hc_state c = HANDSHAKE_STATE_SERVER_HELLO_VERIFIED ->
  CLIENT_AUTH_MAX_ENCODED_LEN <= cap -> hc_local_keypair c = Some (MldsaKeypair pk (Some sk)) ->
  (handshake_initiator_create_client_auth (Some c) (Some o) cap (Some len) w).1.1.1.1 = HANDSHAKE_OK.
Proof.
  intros Hl Hr Hs Hcap Hkp. unfold handshake_initiator_create_client_auth. rewrite check_call_ok by done.
  pose proof (cl_sized _ Hl) as Hsz. rewrite Hkp.
  destruct (sign_up (hc_th_client_auth c) pk sk w) as (sig & w1 & H1 & Hsig). mgo H1.
  rewrite (proj2 (orb_false_iff _ _)) by (unfold sig_ok, MLDSA_SIGNATURE_MAX_BYTES in *; lia).
  fold (auth_of c sig). pose proof (auth_of_valid c sig Hsz Hsig) as Hv. pose proof (client_auth_fits _ Hv) as Hfit.
  rewrite encode_client_auth_ok by done. cbn [negb Z.eqb default id].
  rewrite (proj2 (Z.ltb_ge _ _)) by (rewrite length_client_auth_wire by done; lia). done.
Qed.

Lemma initiator_finish_up c w ssx pub dk ssk :
  ctx_live c -> hc_role c = HANDSHAKE_ROLE_INITIATOR -> hc_state c = HANDSHAKE_STATE_CLIENT_AUTH_CREATED ->
  kex_shared_secret (hc_eph c) (hc_peer_eph_pub c) = Some ssx -> hc_kem c = MlkemKeypair pub (Some dk) ->
  OQS_KEM_decaps (hc_peer_mlkem_ct c) dk = Some ssk ->
  kex_id_ok (ztake (hc_local_id_len c) (hc_local_id c)) -> kex_id_ok (ztake (hc_peer_id_len c) (hc_peer_id c)) ->
  (handshake_initiator_finish (Some c) w).1.1 = HANDSHAKE_OK.
Proof.
  intros Hl Hr Hs Hkex Hkem Hdec Ha Hb. unfold handshake_initiator_finish. rewrite check_call_ok by done.
  pose proof (cl_sized _ Hl) as Hsz.
  destruct (alloc_up KEX_SHARED_SECRET_BYTES w) as (l & w1 & H1); [done|]. mgo H1. rewrite Hkex.
  destruct (alloc_up MLKEM_SHARED_SECRET_BYTES w1) as (l2 & w2 & H2); [done|]. mgo H2. rewrite Hkem.
  destruct (decaps_up _ pub _ _ w2 Hdec) as (w3 & H3). mgo H3.
  destruct (alloc_up SESSION_KEYS_LEN w3) as (l3 & w4 & H4); [done|]. mgo H4.
  destruct (derive_up ssx ssk (hc_session_id c) _ _ (hc_th_client_auth c) Ha Hb (cs_th _ Hsz) (cs_session_id _ Hsz)) as [k Hk].
  rewrite Hk. done.
Qed.

Lemma verify_client_auth_up c s msg digest pk ssx ssk w :
  ctx_live c -> hc_role c = HANDSHAKE_ROLE_RESPONDER -> hc_state c = HANDSHAKE_STATE_SERVER_HELLO_CREATED ->
  client_auth_valid msg -> ca_handshake_id msg = hc_handshake_id c ->
  (forall w, exists w', handshake_pending_get_digest (Some s) (hc_handshake_id c) w = ((PENDING_OK, Some s, digest), w')) ->
  (forall w, exists s' w', handshake_pending_consume_success (Some s) (hc_handshake_id c) w = ((PENDING_OK, Some s'), w')) ->
  hc_peer_pk c = Some pk -> OQS_SIG_verify digest (ztake (ca_sig_len msg) (ca_sig msg)) pk = true ->
  blen digest = 32 ->
  kex_shared_secret (hc_eph c) (hc_peer_eph_pub c) = Some ssx -> hc_ss_kem c = Some ssk ->
  kex_id_ok (ztake (hc_local_id_len c) (hc_local_id c)) -> kex_id_ok (ztake (hc_peer_id_len c) (hc_peer_id c)) ->
  (handshake_responder_verify_client_auth (Some c) (Some s) (Some (client_auth_wire msg)) w).1.1.1 = HANDSHAKE_OK.
Proof.
  intros Hl Hr Hs Hv Hhid Hdig Hcons Hpk Hsig Hdl Hkex Hkem Ha Hb. pose proof (cl_sized _ Hl) as Hsz.
  unfold handshake_responder_verify_client_auth. rewrite check_call_ok by done. pose proof Hv as [[Hb1 Hb2] Hg].
  unfold decode_client_auth. rewrite decode_client_auth_fields_complete by done. cbv beta iota zeta.
  cbn [default id negb Z.eqb client_auth_norm ca_handshake_id ca_sig ca_sig_len].
  rewrite (take_poke_field (ca_sig_len msg)) by (rewrite Hb2; wirelia).
  rewrite (proj2 (memeq_true _ _ _ Hb1 (cs_hid _ Hsz)) Hhid). cbn [negb].
  destruct (Hdig w) as (w1 & H1). mgo H1. rewrite bool_decide_eq_true_2 by done. cbn [negb]. rewrite Hpk.
  destruct (verify_up _ _ _ w1 Hsig) as (w2 & H2). mgo H2.
  destruct (alloc_up KEX_SHARED_SECRET_BYTES w2) as (l & w3 & H3); [done|]. mgo H3. rewrite Hkex, Hkem.
  destruct (alloc_up SESSION_KEYS_LEN w3) as (l2 & w4 & H4); [done|]. mgo H4.
  destruct (derive_up ssx ssk (hc_session_id c) _ _ digest Hb Ha Hdl (cs_session_id _ Hsz)) as [k Hk]. rewrite Hk.
  destruct (Hcons w4) as (s' & w5 & H5). mgo H5. by rewrite bool_decide_eq_true_2.
Qed.

(** ** The ledger during a run *)

(** A run that finishes before the entry it inserts expires. *)
Definition clock_steady (s : handshake_pending_store_t) : Prop :=
  forall w w', (store_now s w').1 < Z.min UINT64_MAX ((store_now s w).1 + ps_ttl_ms s).

Lemma insert_up s hid th w :
  store_ok s -> ledger s = ∅ -> blen hid = 16 -> blen th = 32 ->
  exists s' w' now, handshake_pending_insert (Some s) hid th w = ((PENDING_OK, Some s'), w') /\
    store_ok s' /\ store_now s' = store_now s /\ (exists wn, now = (store_now s wn).1) /\
    ledger s' = {[hid := PendingEntry PENDING_SLOT_ACTIVE hid th (Z.min UINT64_MAX (now + ps_ttl_ms s)) 0]}.
Proof.
  intros Hok Hemp Hhid Hth.
  destruct (insert_refines s hid th Hok Hhid Hth w) as (r & s' & w' & H1 & H2 & H3 & (_ & _ & _ & Hk)).
  unfold led_insert in H2. rewrite M_bind_unfold in H2. destruct (store_now s w) as [n1 w1] eqn:E1. cbn [fst snd] in H2.
  cbv zeta in H2. rewrite Hemp in H2. unfold led_live in H2. rewrite map_filter_empty, lookup_empty in H2.
  rewrite M_bind_unfold in H2. destruct (store_now s w1) as [n2 w2] eqn:E2. cbn [fst snd] in H2.
  rewrite map_size_empty, decide_False in H2.
  - injection H2 as <- Hl <-. exists s', w2, n2. split_and!; try done.
    + unfold store_now. by rewrite Hk.
    + exists w1. by rewrite E2.
  - pose proof (sok_usable _ Hok) as Hu. unfold store_usable in Hu. lia.
Qed.

Lemma digest_up s id e w :
  store_ok s -> blen id = 16 -> ledger s !! id = Some e -> pe_state e = PENDING_SLOT_ACTIVE ->
  (store_now s w).1 < pe_deadline_ms e ->
  exists w', handshake_pending_get_digest (Some s) id w = ((PENDING_OK, Some s, pe_th_client_auth e), w').
Proof.
  intros Hok Hid He Ha Hd. unfold handshake_pending_get_digest. rewrite (sok_usable _ Hok).
  change (negb true) with false. cbv iota. pose proof (find_slot_ledger s id Hok Hid) as Hf.
  destruct (find_slot s id) as [i|]; [destruct Hf as (_ & _ & Hf)|congruence].
  assert (nth_slot s i = e) as -> by congruence. cbv zeta. rewrite M_bind_unfold.
  destruct (store_now s w) as [now w1]. cbn [fst snd] in *. unfold entry_expired.
  rewrite (proj2 (Z.leb_gt _ _)) by lia. rewrite !decide_False by congruence. by eexists.
Qed.

Lemma consume_up s id e w :
  store_ok s -> blen id = 16 -> ledger s !! id = Some e -> pe_state e = PENDING_SLOT_ACTIVE ->
  (store_now s w).1 < pe_deadline_ms e ->
  exists s' w', handshake_pending_consume_success (Some s) id w = ((PENDING_OK, Some s'), w').
Proof.
  intros Hok Hid He Ha Hd. destruct (consume_refines s id Hok Hid w) as (r & s' & w' & H1 & H2 & _).
  unfold led_touch in H2. rewrite He, M_bind_unfold in H2. destruct (store_now s w) as [now w1]. cbn [fst snd] in *.
  rewrite decide_False, Ha in H2 by lia. injection H2 as <- _ <-. by exists s', w1.
Qed.

(** ** Initialised contexts *)
Record initiator_ready (a : handshake_ctx_t) (idA idB : list byte) kp ks : Prop := {
  ir_live : ctx_live a;
  ir_role : hc_role a = HANDSHAKE_ROLE_INITIATOR;
  ir_state : hc_state a = HANDSHAKE_STATE_NEW;
  ir_local : ztake (hc_local_id_len a) (hc_local_id a) = idA;
  ir_peer_id : hc_peer_id a = poke 0 idB (zeros WIRE_ID_MAX_LEN);
  ir_peer_len : hc_peer_id_len a = blen idB;
  ir_keypair : hc_local_keypair a = Some kp;
  ir_keystore : hc_keystore a = Some ks;
  ir_lookup : hc_lookup_fn a = None }.

Lemma initiator_init_ready c0 idA idB kp ks w a w' :
  handshake_initiator_init (Some c0) (Some idA) (Some kp) (Some ks) (Some idB) w = ((HANDSHAKE_OK, Some a), w') ->
  initiator_ready a idA idB kp ks /\ id_ok (blen idA) /\ id_ok (blen idB).
Proof.
  intros H. pose proof (reachable_inv a (reach_initiator _ _ _ _ _ _ _ _ _ H)) as Hinv.
  unfold handshake_initiator_init in H. mopen H; [by rewrite M_ret_unfold in H|].
  rewrite !orb_false_iff, !negb_false_iff, !id_len_valid_ok in Heqb. destruct Heqb as [[[Hid _] _] Hpid].
  mopen H. destruct x as [st1 c1]. cbv beta iota zeta in H.
  apply init_common_live in Hcall as [[-> ->]|(-> & Hl & Hs & Hr & Hli & Hll & Hkp & Hks & Hlk & Hp)];
    [by rewrite bool_decide_eq_false_2 in H|rewrite bool_decide_eq_true_2 in H by done|done..].
  cbn [negb] in H. rewrite M_ret_unfold in H. apply pair_equal_spec in H as [[_ [= <-]]%pair_equal_spec _].
  split; [|done]. destruct Hinv as [Habs|Hlive]; [apply (f_equal hc_state) in Habs; simpl in Habs; congruence|].
  split; hc; try done.
  - rewrite Hll, Hli. apply take_poke_0.
  - by rewrite Hp.
  - rewrite bz_u8_small; [done|]. wirelia.
Qed.

Record responder_ready (b : handshake_ctx_t) (idB : list byte) kp ks : Prop := {
  rr_live : ctx_live b;
  rr_role : hc_role b = HANDSHAKE_ROLE_RESPONDER;
  rr_state : hc_state b = HANDSHAKE_STATE_NEW;
  rr_local : ztake (hc_local_id_len b) (hc_local_id b) = idB;
  rr_peer_id : hc_peer_id b = zeros WIRE_ID_MAX_LEN;
  rr_keypair : hc_local_keypair b = Some kp;
  rr_keystore : hc_keystore b = Some ks;
  rr_lookup : hc_lookup_fn b = None }.

Lemma responder_init_ready c0 idB kp ks ps w b w' :
  handshake_responder_init (Some c0) (Some idB) (Some kp) (Some ks) ps w = ((HANDSHAKE_OK, Some b), w') ->
  responder_ready b idB kp ks.
Proof.
  unfold handshake_responder_init. intros H.
  pose proof (reachable_inv b (reach_responder _ _ _ _ _ _ _ _ _ _ H)) as Hinv.
  unfold responder_init_impl in H. mopen H; [by rewrite M_ret_unfold in H|].
  rewrite !orb_false_iff, !negb_false_iff, !id_len_valid_ok in Heqb0. destruct Heqb0 as [[[Hid _] _] _].
  mopen H. destruct x as [st1 c1]. cbv beta iota zeta in H.
  apply init_common_live in Hcall as [[-> ->]|(-> & Hl & Hs & Hr & Hli & Hll & Hkp & Hks & Hlk & Hp)];
    [by rewrite bool_decide_eq_false_2 in H|rewrite bool_decide_eq_true_2 in H by done|done..].
  cbn [negb] in H. rewrite M_ret_unfold in H. apply pair_equal_spec in H as [[_ [= <-]]%pair_equal_spec _].
  destruct Hinv as [Habs|Hlive]; [apply (f_equal hc_state) in Habs; simpl in Habs; congruence|].
  split; hc; try done. rewrite Hll, Hli. apply take_poke_0.
Qed.

(** ** The run *)
Definition relayed (out : option (list byte)) (len : option Z) : option (list byte) :=
  Some (ztake (default 0 len) (default [] out)).

(** ClientHello and ServerHello: statuses, contexts, ledger and ServerHello bytes. *)
Definition run_hello (a b : option handshake_ctx_t) ps
    : M (list handshake_status_t * option handshake_ctx_t * option handshake_ctx_t *
         option handshake_pending_store_t * option (list byte)) :=
  r ← handshake_initiator_create_client_hello a (Some (zeros CLIENT_HELLO_MAX_ENCODED_LEN))
        CLIENT_HELLO_MAX_ENCODED_LEN (Some 0);
  let '(s1, a, o1, n1) := r in
  r ← handshake_responder_accept_client_hello b (relayed o1 n1);
  let '(s2, b) := r in
  r ← handshake_responder_create_server_hello b ps (Some (zeros SERVER_HELLO_MAX_ENCODED_LEN))
        SERVER_HELLO_MAX_ENCODED_LEN (Some 0);
  let '(s3, b, ps, o3, n3) := r in
  mret ([s1; s2; s3], a, b, ps, relayed o3 n3).

(** ServerHello verification, ClientAuth and both finishes. *)
Definition run_auth (a b : option handshake_ctx_t) ps (sh : option (list byte))
    : M (list handshake_status_t * option handshake_ctx_t * option handshake_ctx_t *
         option handshake_pending_store_t) :=
  r ← handshake_initiator_verify_server_hello a sh;
  let '(s4, a) := r in
  r ← handshake_initiator_create_client_auth a (Some (zeros CLIENT_AUTH_MAX_ENCODED_LEN))
        CLIENT_AUTH_MAX_ENCODED_LEN (Some 0);
  let '(s5, a, o5, n5) := r in
  r ← handshake_responder_verify_client_auth b ps (relayed o5 n5);
  let '(s6, b, ps) := r in
  r ← handshake_initiator_finish a;
  let '(s7, a) := r in
  let '(s8, b) := handshake_responder_finish b in
  mret ([s4; s5; s6; s7; s8], a, b, ps).

Definition honest_run (a b : option handshake_ctx_t) ps
    : M (list handshake_status_t * option handshake_ctx_t * option handshake_ctx_t *
         option handshake_pending_store_t) :=
  r ← run_hello a b ps;
  let '(l, a, b, ps, sh) := r in
  r ← run_auth a b ps sh;
  let '(l', a, b, ps) := r in
  mret (l ++ l', a, b, ps).

(** The situation between the two halves. *)
Record auth_ready (idA idB pkA pkB skA : list byte) (a b : handshake_ctx_t) (s : handshake_pending_store_t)
    (sh : server_hello_t) (ch : list byte) : Prop := {
  ar_a_live : ctx_live a;
  ar_a_role : hc_role a = HANDSHAKE_ROLE_INITIATOR;
  ar_a_state : hc_state a = HANDSHAKE_STATE_CLIENT_HELLO_CREATED;
  ar_a_local : ztake (hc_local_id_len a) (hc_local_id a) = idA;
  ar_a_peer : ztake (hc_peer_id_len a) (hc_peer_id a) = idB;
  ar_a_keypair : hc_local_keypair a = Some (MldsaKeypair pkA (Some skA));
  ar_a_resolve : forall w, resolve_peer_pk a idB w = (Some pkB, w);
  ar_b_live : ctx_live b;
  ar_b_role : hc_role b = HANDSHAKE_ROLE_RESPONDER;
  ar_b_state : hc_state b = HANDSHAKE_STATE_SERVER_HELLO_CREATED;
  ar_b_local : ztake (hc_local_id_len b) (hc_local_id b) = idB;
  ar_b_peer : ztake (hc_peer_id_len b) (hc_peer_id b) = idA;
  ar_b_pk : hc_peer_pk b = Some pkA;
  ar_ch : ztake (hc_ch_len a) (hc_ch_bytes a) = ch;
  ar_sh : server_hello_accepted a (server_hello_wire sh) sh pkB;
  ar_hid : hc_handshake_id b =
    ztake 16 (sha256 (transcript_preimage TRANSCRIPT_LABEL_HANDSHAKE_ID ch (server_hello_wire sh)));
  ar_store : store_ok s;
  ar_entry : exists e, ledger s !! hc_handshake_id b = Some e /\ pe_state e = PENDING_SLOT_ACTIVE /\
    pe_th_client_auth e = sha256 (transcript_preimage TRANSCRIPT_LABEL_CLIENT_AUTH ch (server_hello_wire sh)) /\
    forall w, (store_now s w).1 < pe_deadline_ms e;
  ar_sid : hc_session_id b = hc_session_id a;
  ar_kex : exists ssx, kex_shared_secret (hc_eph a) (sh_ephemeral_pub sh) = Some ssx /\
    kex_shared_secret (hc_eph b) (hc_peer_eph_pub b) = Some ssx;
  ar_kem : exists ek dk ss, hc_kem a = MlkemKeypair ek (Some dk) /\
    OQS_KEM_decaps (sh_mlkem_ct sh) dk = Some ss /\ hc_ss_kem b = Some ss }.

Lemma resolve_pinned c ks id pk w :
  hc_lookup_fn c = None -> hc_keystore c = Some ks -> keystore_ok ks -> pins ks !! id = Some pk ->
  resolve_peer_pk c id w = (Some pk, w).
Proof.
  intros Hl Hk Hok Hp. unfold resolve_peer_pk. rewrite Hl, Hk. by rewrite (keystore_lookup_pinned _ _ _ Hok Hp).
Qed.

Lemma server_hello_wire_fields m1 m2 :
  server_hello_valid m1 -> server_hello_valid m2 -> server_hello_wire m1 = server_hello_wire m2 ->
  sh_ephemeral_pub m1 = sh_ephemeral_pub m2 /\ sh_mlkem_ct m1 = sh_mlkem_ct m2.
Proof. intros H1 H2 H. apply server_hello_wire_inj in H; [|done..]. unfold server_hello_norm in H. by injection H. Qed.

(** Each call, with its result spelled out. *)
Lemma verify_server_hello_done c sh pk w w1 :
  ctx_live c -> hc_role c = HANDSHAKE_ROLE_INITIATOR -> hc_state c = HANDSHAKE_STATE_CLIENT_HELLO_CREATED ->
  server_hello_accepted c (server_hello_wire sh) sh pk ->
  resolve_peer_pk c (ztake (hc_peer_id_len c) (hc_peer_id c)) w = (Some pk, w1) ->
  exists msg w', handshake_initiator_verify_server_hello (Some c) (Some (server_hello_wire sh)) w =
      ((HANDSHAKE_OK, Some (after_server_hello c (server_hello_wire sh) msg pk)), w') /\
    server_hello_valid msg /\ sh_ephemeral_pub msg = sh_ephemeral_pub sh /\ sh_mlkem_ct msg = sh_mlkem_ct sh.
Proof.
  intros Hl Hr Hs Hacc Hres. pose proof (verify_server_hello_up c sh pk w w1 Hl Hr Hs Hacc Hres) as S1.
  destruct (handshake_initiator_verify_server_hello _ _ w) as [r w'] eqn:E1. cbn [fst] in S1.
  apply verify_server_hello_cases in E1 as [(? & _ & _ & Ht & _)|(msg & pk' & wx & Hacc' & Hres' & ->)];
    [by rewrite S1 in Ht| |done..].
  destruct (server_hello_wire_fields sh msg) as [Heph Hct]; [apply Hacc|apply Hacc'|apply Hacc'|].
  assert (pk' = pk) as -> by congruence. exists msg, w'. split_and!; try done. apply Hacc'.
Qed.

Lemma create_client_auth_done c w pk sk :
  ctx_live c -> hc_role c = HANDSHAKE_ROLE_INITIATOR -> hc_state c = HANDSHAKE_STATE_SERVER_HELLO_VERIFIED ->
  hc_local_keypair c = Some (MldsaKeypair pk (Some sk)) ->
  exists sig wx w' out n, handshake_initiator_create_client_auth (Some c) (Some (zeros CLIENT_AUTH_MAX_ENCODED_LEN))
      CLIENT_AUTH_MAX_ENCODED_LEN (Some 0) w =
      ((HANDSHAKE_OK, Some (set_state c HANDSHAKE_STATE_CLIENT_AUTH_CREATED), out, n), w') /\
    relayed out n = Some (client_auth_wire (auth_of c sig)) /\
    OQS_SIG_sign (hc_th_client_auth c) sk wx = (Some sig, w') /\ sig_ok (blen sig).
Proof.
  intros Hl Hr Hs Hkp.
  pose proof (create_client_auth_up c (zeros CLIENT_AUTH_MAX_ENCODED_LEN) CLIENT_AUTH_MAX_ENCODED_LEN 0 w pk sk
    Hl Hr Hs ltac:(done) Hkp) as S2.
  destruct (handshake_initiator_create_client_auth _ _ _ _ w) as [r w'] eqn:E2. cbn [fst] in S2.
  apply create_client_auth_cases in E2
    as [(? & ? & (? & _ & _ & Ht & _) & ->)|[->|(pk' & sk' & sig & wy & Hk' & Hsg & Hsig & _ & ->)]];
    [by cbn in S2; rewrite S2 in Ht|done| |done..].
  assert (pk' = pk /\ sk' = sk) as [-> ->] by (by rewrite Hkp in Hk'; simplify_eq).
  eexists sig, wy, w', _, _. split; [done|]. split; [|done]. unfold relayed. cbn [default id]. by rewrite take_poke_0.
Qed.

Lemma verify_client_auth_done c s msg e pk ssx ssk w :
  ctx_live c -> hc_role c = HANDSHAKE_ROLE_RESPONDER -> hc_state c = HANDSHAKE_STATE_SERVER_HELLO_CREATED ->
  client_auth_valid msg -> ca_handshake_id msg = hc_handshake_id c -> store_ok s ->
  ledger s !! hc_handshake_id c = Some e -> pe_state e = PENDING_SLOT_ACTIVE ->
  (forall w, (store_now s w).1 < pe_deadline_ms e) -> blen (pe_th_client_auth e) = 32 ->
  hc_peer_pk c = Some pk -> OQS_SIG_verify (pe_th_client_auth e) (ztake (ca_sig_len msg) (ca_sig msg)) pk = true ->
  kex_shared_secret (hc_eph c) (hc_peer_eph_pub c) = Some ssx -> hc_ss_kem c = Some ssk ->
  kex_id_ok (ztake (hc_local_id_len c) (hc_local_id c)) -> kex_id_ok (ztake (hc_peer_id_len c) (hc_peer_id c)) ->
  exists keys s' w',
    handshake_responder_verify_client_auth (Some c) (Some s) (Some (client_auth_wire msg)) w =
      ((HANDSHAKE_OK, Some (after_client_auth c keys), Some s'), w') /\
    derive_traffic_keys ssx ssk (hc_session_id c) (ztake (hc_peer_id_len c) (hc_peer_id c))
      (ztake (hc_local_id_len c) (hc_local_id c)) (pe_th_client_auth e) = Some keys.
Proof.
  intros Hl Hr Hs Hv Hhid Hok He Ha Hd Hdl Hpk Hsig Hkex Hkem Hia Hib. pose proof (cs_hid _ (cl_sized _ Hl)) as Hhl.
  pose proof (verify_client_auth_up c s msg (pe_th_client_auth e) pk ssx ssk w Hl Hr Hs Hv Hhid
    ltac:(intros; by eapply digest_up) ltac:(intros; by eapply consume_up) Hpk Hsig Hdl Hkex Hkem Hia Hib) as S3.
  destruct (handshake_responder_verify_client_auth _ _ _ w) as [r w'] eqn:E3. cbn [fst] in S3.
  apply verify_client_auth_cases in E3
    as [[->| ->]|[[S4 _]|[(_ & Ht & _)|(msg3 & digest & pk3 & ssx3 & ssk3 & keys & Haa & S4 & Hsteps)]]];
    [done|done|by rewrite S4 in S3|by rewrite S3 in Ht| |done..].
  apply (two_steps s _ _ _ act_consume) in Hsteps as (s' & e' & Hps & _); [|done|done|done|by left].
  destruct r as [r0 ps3]. cbn [fst snd] in *. subst. exists keys, s', w'. split; [done|].
  destruct Haa as [_ _ _ (ps1 & wd & Hdg) _ _ Hkx Hkm Hkeys].
  destruct (digest_up s _ e w Hok Hhl He Ha (Hd w)) as (w2 & Hdg2). rewrite Hdg2 in Hdg. congruence.
Qed.

Lemma initiator_finish_done c w ssx pub dk ssk :
  ctx_live c -> hc_role c = HANDSHAKE_ROLE_INITIATOR -> hc_state c = HANDSHAKE_STATE_CLIENT_AUTH_CREATED ->
  kex_shared_secret (hc_eph c) (hc_peer_eph_pub c) = Some ssx -> hc_kem c = MlkemKeypair pub (Some dk) ->
  OQS_KEM_decaps (hc_peer_mlkem_ct c) dk = Some ssk ->
  kex_id_ok (ztake (hc_local_id_len c) (hc_local_id c)) -> kex_id_ok (ztake (hc_peer_id_len c) (hc_peer_id c)) ->
  exists keys w', handshake_initiator_finish (Some c) w = ((HANDSHAKE_OK, Some (after_finish c keys)), w') /\
    derive_traffic_keys ssx ssk (hc_session_id c) (ztake (hc_local_id_len c) (hc_local_id c))
      (ztake (hc_peer_id_len c) (hc_peer_id c)) (hc_th_client_auth c) = Some keys.
Proof.
  intros Hl Hr Hs Hkex Hkem Hdec Hia Hib.
  pose proof (initiator_finish_up c w ssx pub dk ssk Hl Hr Hs Hkex Hkem Hdec Hia Hib) as S7.
  destruct (handshake_initiator_finish _ w) as [r w'] eqn:E7. cbn [fst] in S7.
  apply initiator_finish_cases in E7 as [(? & _ & _ & Ht & _)|(ssx' & dk' & ssk' & keys & H1 & H2 & H3 & H4 & ->)];
    [by rewrite S7 in Ht| |done..].
  rewrite Hkem in H2. injection H2 as <-. exists keys, w'. split; [done|]. congruence.
Qed.

(** The handshake id survives the last steps. *)
Lemma hid_after_finish c keys : hc_handshake_id (after_finish c keys) = hc_handshake_id c.
Proof. done. Qed.
Lemma hid_after_client_auth c keys : hc_handshake_id (after_client_auth c keys) = hc_handshake_id c.
Proof. done. Qed.
Lemma hid_set_state c st : hc_handshake_id (set_state c st) = hc_handshake_id c.
Proof. done. Qed.
Lemma hid_set_peer_eph c p : hc_handshake_id (set_peer_eph_pub c p) = hc_handshake_id c.
Proof. done. Qed.
Lemma hid_set_eph c k : hc_handshake_id (set_eph c k) = hc_handshake_id c.
Proof. done. Qed.

Lemma run_auth_ok idA idB pkA pkB skA wa wa' a b s sh ch w :
  kex_id_ok idA -> kex_id_ok idB -> OQS_SIG_keypair wa = (Some (pkA, skA), wa') ->
  auth_ready idA idB pkA pkB skA a b s sh ch ->
  exists a' b' s' w' keys,
    run_auth (Some a) (Some b) (Some s) (Some (server_hello_wire sh)) w =
      (([HANDSHAKE_OK; HANDSHAKE_OK; HANDSHAKE_OK; HANDSHAKE_OK; HANDSHAKE_OK], Some a', Some b', Some s'), w') /\
    ctx_live a' /\ ctx_live b' /\ hc_role a' = HANDSHAKE_ROLE_INITIATOR /\ hc_role b' = HANDSHAKE_ROLE_RESPONDER /\
    hc_state a' = HANDSHAKE_STATE_ESTABLISHED /\ hc_state b' = HANDSHAKE_STATE_ESTABLISHED /\
    hc_session_keys a' = Some keys /\ hc_session_keys b' = Some keys /\ hc_handshake_id a' = hc_handshake_id b'.
Proof.
  intros HidA HidB Hkp [Hal Har Has Haloc Hapeer Hakp Hares Hbl Hbr Hbs Hbloc Hbpeer Hbpk Hch Hsh Hhid Hst
    (e & He & Hae & Hte & Hde) Hsid (ssx & Hkxa & Hkxb) (ek & dk & ss & Hkem & Hdec & Hss)].
  unfold run_auth.
  destruct (verify_server_hello_done a sh pkB w w Hal Har Has Hsh) as (msg & w1 & E1 & Hvm & Heph & Hct); [by rewrite Hapeer|].
  mgo E1. set (a1 := after_server_hello a (server_hello_wire sh) msg pkB).
  assert (Hal1 : ctx_live a1) by (by apply after_server_hello_live).
  assert (Hth : hc_th_client_auth a1 = pe_th_client_auth e) by (rewrite Hte; unfold a1, after_server_hello; hc; by rewrite Hch).
  assert (Hh : hc_handshake_id a1 = hc_handshake_id b) by (rewrite Hhid; unfold a1, after_server_hello; hc; by rewrite Hch).
  destruct (create_client_auth_done a1 w1 pkA skA Hal1 Har eq_refl Hakp) as (sig & wx & w2 & out & n & E2 & Hrel & Hsg & Hsig).
  mgo E2. rewrite Hrel. set (a2 := set_state a1 HANDSHAKE_STATE_CLIENT_AUTH_CREATED).
  assert (Hal2 : ctx_live a2) by (by apply after_auth_created_live).
  destruct (verify_client_auth_done b s (auth_of a1 sig) e pkA ssx ss w2) as (keys & s' & w3 & E3 & Hkb); try done.
  { by apply auth_of_valid; [apply Hal1|]. } { rewrite Hte. apply sha256_len. }
  { cbn [auth_of ca_sig ca_sig_len]. rewrite take_poke_0, <-Hth. by eapply sig_correct. }
  { by rewrite Hbloc. } { by rewrite Hbpeer. }
  mgo E3. destruct (initiator_finish_done a2 w3 ssx ek dk ss) as (keys' & w4 & E4 & Hka); try done.
  { unfold a2, a1, after_server_hello. hc. by rewrite Heph. } { unfold a2, a1, after_server_hello. hc. by rewrite Hct. }
  { unfold a2, a1, after_server_hello. hc. by rewrite Haloc. } { unfold a2, a1, after_server_hello. hc. by rewrite Hapeer. }
  mgo E4. pose proof (after_client_auth_live b keys Hbl Hbr Hbs (derive_keys_len _ _ _ _ _ _ _ Hkb)) as Hbl1.
  destruct (handshake_responder_finish (Some (after_client_auth b keys))) as [st8 ob] eqn:E5.
  pose proof (responder_finish_live _ _ _ Hbl1 Hbr eq_refl E5) as (b' & -> & Hbl2 & _).
  assert (keys' = keys) as ->.
  { unfold a2 in Hka. hc. rewrite Hth in Hka. unfold a1, after_server_hello in Hka. hc.
    rewrite Haloc, Hapeer, <-Hsid in Hka. rewrite Hbloc, Hbpeer in Hkb. congruence. }
  unfold handshake_responder_finish in E5. rewrite check_call_ok in E5 by done. injection E5 as <- <-.
  eexists _, _, _, _, keys. split; [done|]. pose proof (derive_keys_len _ _ _ _ _ _ _ Hkb) as Hkl.
  split; [by apply after_finish_live|]. split; [exact Hbl2|]. split; [exact Har|]. split; [exact Hbr|].
  split; [reflexivity|]. split; [reflexivity|].
  split; [unfold after_finish; hc; by apply poke_keys_sized; [apply Hal2|]|].
  split; [unfold after_client_auth; hc; by apply poke_keys_sized; [apply Hbl|]|].
  rewrite hid_after_finish, hid_set_state, hid_set_peer_eph, hid_set_eph, hid_after_client_auth. subst a2.
  rewrite hid_set_state. exact Hh.
Qed.

(** The initiator's context once the ClientHello is out. *)
Definition after_hello_created c (sk pk ek dk sid wire : list byte) : handshake_ctx_t :=
  let c1 := set_kem (set_eph c (KexKeypair pk (Some sk))) (MlkemKeypair ek (Some dk)) in
  set_state (set_session_id (set_ch c1 (poke 0 wire (hc_ch_bytes c)) (blen wire)) sid)
    HANDSHAKE_STATE_CLIENT_HELLO_CREATED.

Lemma create_client_hello_done c w :
  ctx_live c -> hc_role c = HANDSHAKE_ROLE_INITIATOR -> hc_state c = HANDSHAKE_STATE_NEW ->
  exists sk pk ek dk wx wy sid nonce w' out n,
    let ch := hello_of c pk ek sid nonce in
    handshake_initiator_create_client_hello (Some c) (Some (zeros CLIENT_HELLO_MAX_ENCODED_LEN))
      CLIENT_HELLO_MAX_ENCODED_LEN (Some 0) w =
      ((HANDSHAKE_OK, Some (after_hello_created c sk pk ek dk sid (client_hello_wire ch)), out, n), w') /\
    relayed out n = Some (client_hello_wire ch) /\ client_hello_valid ch /\
    crypto_scalarmult_base sk = Some pk /\ OQS_KEM_keypair wx = (Some (ek, dk), wy) /\
    ctx_live (after_hello_created c sk pk ek dk sid (client_hello_wire ch)).
Proof.
  intros Hl Hr Hs.
  pose proof (create_client_hello_up c (zeros CLIENT_HELLO_MAX_ENCODED_LEN) CLIENT_HELLO_MAX_ENCODED_LEN 0 w
    Hl Hr Hs ltac:(done)) as S1.
  destruct (handshake_initiator_create_client_hello _ _ _ _ w) as [r w'] eqn:E1. cbn [fst] in S1.
  apply create_client_hello_cases in E1
    as [(? & ? & (? & _ & _ & Ht & _) & ->)|[->|(sk & pk & ek & dk & wx & wy & sid & nonce & Hb & Hk & Hv & Hcap & ->)]];
    [by cbn in S1; rewrite S1 in Ht|done| |done..].
  eexists sk, pk, ek, dk, wx, wy, sid, nonce, w', _, _. cbv zeta. split; [reflexivity|].
  split; [unfold relayed; cbn [default id]; by rewrite take_poke_0|].
  split; [done|]. split; [done|]. split; [done|]. by apply after_hello_created_live; [| | |apply Hv|].
Qed.

Lemma client_hello_wire_fields m1 m2 :
  client_hello_valid m1 -> client_hello_valid m2 -> client_hello_wire m1 = client_hello_wire m2 ->
  ch_id_len m1 = ch_id_len m2 /\ ztake (ch_id_len m1) (ch_id m1) = ztake (ch_id_len m2) (ch_id m2) /\
  ch_ephemeral_pub m1 = ch_ephemeral_pub m2 /\ ch_mlkem_ek m1 = ch_mlkem_ek m2 /\
  ch_session_id m1 = ch_session_id m2.
Proof.
  intros H1 H2 H. apply client_hello_wire_inj in H; [|done..]. unfold client_hello_norm in H.
  destruct H1 as [[Hb1] Hi1], H2 as [[Hb2] Hi2].
  pose proof (f_equal ch_id H) as Hid. pose proof (f_equal ch_id_len H) as Hlen. simpl in Hid, Hlen.
  split; [done|]. split; [|by injection H].
  rewrite <-(take_poke_field (ch_id_len m1) (ch_id m1) WIRE_ID_MAX_LEN) by (rewrite Hb1; wirelia).
  rewrite <-(take_poke_field (ch_id_len m2) (ch_id m2) WIRE_ID_MAX_LEN) by (rewrite Hb2; wirelia).
  by rewrite Hid, Hlen.
Qed.

Lemma accept_client_hello_done c ch pk w :
  ctx_live c -> hc_role c = HANDSHAKE_ROLE_RESPONDER -> hc_state c = HANDSHAKE_STATE_NEW ->
  client_hello_valid ch -> resolve_peer_pk c (ztake (ch_id_len ch) (ch_id ch)) w = (Some pk, w) ->
  exists msg, handshake_responder_accept_client_hello (Some c) (Some (client_hello_wire ch)) w =
      ((HANDSHAKE_OK, Some (after_client_hello c (client_hello_wire ch) msg pk)), w) /\
    client_hello_valid msg /\ client_hello_wire msg = client_hello_wire ch /\
    ctx_live (after_client_hello c (client_hello_wire ch) msg pk).
Proof.
  intros Hl Hr Hs Hv Hres. pose proof (accept_client_hello_up c ch pk w w Hl Hr Hs Hv Hres) as S2.
  destruct (handshake_responder_accept_client_hello _ _ w) as [r w'] eqn:E2. cbn [fst] in S2.
  apply accept_client_hello_cases in E2 as [(? & _ & _ & Ht & _)|(msg & pk' & Hvm & _ & Hw & Hres' & ->)];
    [by rewrite S2 in Ht| |done..].
  destruct (client_hello_wire_fields ch msg Hv Hvm Hw) as (_ & Hid & _). rewrite Hid in Hres.
  rewrite Hres in Hres'. injection Hres' as <- <-. exists msg. split_and!; try done.
  apply after_client_hello_live; try done. rewrite length_client_hello_wire by done. by apply client_hello_fits.
Qed.

Lemma create_server_hello_done c s w ch wx dk wy dpk dsk :
  ctx_live c -> hc_role c = HANDSHAKE_ROLE_RESPONDER -> hc_state c = HANDSHAKE_STATE_CLIENT_HELLO_ACCEPTED ->
  client_hello_valid ch -> ztake (hc_ch_len c) (hc_ch_bytes c) = client_hello_wire ch ->
  OQS_KEM_keypair wx = (Some (ch_mlkem_ek ch, dk), wy) -> hc_local_keypair c = Some (MldsaKeypair dpk (Some dsk)) ->
  store_ok s -> ledger s = ∅ ->
  exists ch' sh sk ss s' w' out n,
    handshake_responder_create_server_hello (Some c) (Some s) (Some (zeros SERVER_HELLO_MAX_ENCODED_LEN))
      SERVER_HELLO_MAX_ENCODED_LEN (Some 0) w =
      ((HANDSHAKE_OK, Some (after_server_hello_sent c ch' sh sk ss), Some s', out, n), w') /\
    relayed out n = Some (server_hello_wire sh) /\ client_hello_valid ch' /\
    client_hello_wire ch' = client_hello_wire ch /\ server_hello_made c (Some s) ch' sh sk ss (Some s') w'.
Proof.
  intros Hl Hr Hs Hv Hch Hkem Hkp Hok Hemp.
  pose proof (create_server_hello_up c s (zeros SERVER_HELLO_MAX_ENCODED_LEN) SERVER_HELLO_MAX_ENCODED_LEN 0 w
    ch wx dk wy dpk dsk Hl Hr Hs ltac:(done) Hv Hch Hkem Hkp) as S3.
  specialize (S3 ltac:(intros hid th w0 ??; destruct (insert_up s hid th w0) as (s' & w' & _ & ? & _); eauto)).
  destruct (handshake_responder_create_server_hello _ _ _ _ _ w) as [r w'] eqn:E3. cbn [fst] in S3.
  apply create_server_hello_cases in E3
    as [(? & ? & ? & (? & _ & _ & Ht & _) & _ & ->)|[->|(ch' & sh & sk & ss & ps' & Hv' & Hch' & Hmade & _ & ->)]];
    [by cbn in S3; rewrite S3 in Ht|done| |done..].
  destruct (sm_ledger _ _ _ _ _ _ _ _ Hmade) as (wi & Hins).
  match type of Hins with handshake_pending_insert _ ?h ?t _ = _ =>
    destruct (insert_up s h t wi Hok Hemp) as (s' & wj & _ & Hi & _); [apply hash_len_16|apply sha256_len|] end.
  rewrite Hi in Hins. injection Hins as <- _. eexists ch', sh, sk, ss, s', w', _, _. split; [reflexivity|].
  split; [unfold relayed; cbn [default id]; by rewrite take_poke_0|]. split; [done|]. split; [congruence|done].
Qed.

(** The ServerHello an honest responder makes passes the initiator's checks. *)
Lemma honest_server_hello_accepted a c idB pkB skB wb wb' ps ch sh sk skr ss ps' w :
  server_hello_made c ps ch sh sk ss ps' w -> ctx_live c ->
  ztake (hc_local_id_len c) (hc_local_id c) = idB -> hc_local_keypair c = Some (MldsaKeypair pkB (Some skB)) ->
  OQS_SIG_keypair wb = (Some (pkB, skB), wb') ->
  hc_peer_id a = poke 0 idB (zeros WIRE_ID_MAX_LEN) -> hc_peer_id_len a = blen idB ->
  hc_session_id a = hc_session_id c -> ztake (hc_ch_len a) (hc_ch_bytes a) = client_hello_wire ch ->
  hc_eph a = KexKeypair (ch_ephemeral_pub ch) (Some skr) -> crypto_scalarmult_base skr = Some (ch_ephemeral_pub ch) ->
  server_hello_accepted a (server_hello_wire sh) sh pkB.
Proof.
  intros Hm Hl Hid Hkp Hgen Hpid Hplen Hsid Hch Heph Hbase.
  assert (hc_local_id_len c = blen idB) as Hlen.
  { rewrite <-Hid. destruct (cl_sized _ Hl). rewrite length_take. wirelia. }
  split; try apply Hm; try done.
  - by rewrite (sm_id_len _ _ _ _ _ _ _ _ Hm), Hplen.
  - by rewrite (sm_id _ _ _ _ _ _ _ _ Hm), (sm_id_len _ _ _ _ _ _ _ _ Hm), Hplen, Hpid, Hid, Hlen.
  - by rewrite (sm_echo _ _ _ _ _ _ _ _ Hm), Hsid.
  - destruct (sm_sig _ _ _ _ _ _ _ _ Hm) as (pk & dsk & w1 & w2 & Hk & Hs). rewrite Hch.
    rewrite Hkp in Hk. injection Hk as <- <-. by eapply sig_correct.
  - rewrite Heph. eapply up_dh; [done|apply Hm].
Qed.

(** The ledger after the responder has sent: exactly the new obligation, live. *)
Lemma made_ledger c s ch sh sk ss s' w :
  server_hello_made c (Some s) ch sh sk ss (Some s') w -> store_ok s -> ledger s = ∅ -> clock_steady s ->
  store_ok s' /\
  exists e, ledger s' !! hc_handshake_id (after_server_hello_sent c ch sh sk ss) = Some e /\
    pe_state e = PENDING_SLOT_ACTIVE /\
    pe_th_client_auth e =
      sha256 (transcript_preimage TRANSCRIPT_LABEL_CLIENT_AUTH (client_hello_wire ch) (server_hello_wire sh)) /\
    forall w, (store_now s' w).1 < pe_deadline_ms e.
Proof.
  intros Hm Hst Hemp Hclk. destruct (sm_ledger _ _ _ _ _ _ _ _ Hm) as (wi & Hins).
  match type of Hins with handshake_pending_insert _ ?h ?t _ = _ =>
    destruct (insert_up s h t wi Hst Hemp) as (s1 & wj & now & Hi & Hok & Hnow & (wn & ->) & Hl);
      [apply hash_len_16|apply sha256_len|] end.
  rewrite Hi in Hins. injection Hins as -> _. split; [done|]. rewrite Hl. eexists. split; [apply lookup_singleton_eq|].
  split; [done|]. split; [done|]. intros w0. rewrite Hnow. apply Hclk.
Qed.

Lemma run_hello_ok a b s idA idB pkA skA pkB skB ksA ksB wb wb' w :
  initiator_ready a idA idB (MldsaKeypair pkA (Some skA)) ksA ->
  responder_ready b idB (MldsaKeypair pkB (Some skB)) ksB ->
  OQS_SIG_keypair wb = (Some (pkB, skB), wb') ->
  keystore_ok ksA -> pins ksA !! idB = Some pkB -> keystore_ok ksB -> pins ksB !! idA = Some pkA ->
  store_ok s -> ledger s = ∅ -> clock_steady s ->
  exists a' b' s' sh ch w',
    run_hello (Some a) (Some b) (Some s) w =
      (([HANDSHAKE_OK; HANDSHAKE_OK; HANDSHAKE_OK], Some a', Some b', Some s', Some (server_hello_wire sh)), w') /\
    auth_ready idA idB pkA pkB skA a' b' s' sh ch.
Proof.
  intros [Hal Har Has Haloc Hapid Haplen Hakp Haks Halk] [Hbl Hbr Hbs Hbloc Hbpid Hbkp Hbks Hblk]
    Hgen HokA HpinA HokB HpinB Hst Hemp Hclk.
  destruct (create_client_hello_done a w Hal Har Has) as (ska & pka & ek & dk & wx & wy & sid & nonce & w1 & o1 & n1 & E1 & Hrel1 & Hv & Hbase & Hkem & Hal1).
  unfold run_hello. mgo E1. set (ch := hello_of a pka ek sid nonce) in *. rewrite Hrel1.
  set (a1 := after_hello_created a ska pka ek dk sid (client_hello_wire ch)) in *.
  assert (HidA : ztake (ch_id_len ch) (ch_id ch) = idA).
  { unfold ch, hello_of. cbn [ch_id ch_id_len]. destruct (cl_sized _ Hal). rewrite take_poke_field; [done|wirelia]. }
  destruct (accept_client_hello_done b ch pkA w1 Hbl Hbr Hbs Hv) as (msg & E2 & Hvm & Hwm & Hbl1).
  { rewrite HidA. by eapply resolve_pinned. }
  mgo E2. set (b1 := after_client_hello b (client_hello_wire ch) msg pkA) in *.
  destruct (client_hello_wire_fields msg ch Hvm Hv Hwm) as (Hmlen & Hmid & Hmeph & _ & Hmsid).
  assert (Hch : ztake (hc_ch_len b1) (hc_ch_bytes b1) = client_hello_wire ch) by apply take_poke_0.
  destruct (create_server_hello_done b1 s w1 ch wx dk wy pkB skB Hbl1 Hbr eq_refl Hv Hch Hkem Hbkp Hst Hemp)
    as (ch' & sh & sk & ss & s' & w2 & o3 & n3 & E3 & Hrel3 & Hv' & Hw' & Hm).
  mgo E3. rewrite Hrel3. destruct (client_hello_wire_fields ch' ch Hv' Hv Hw') as (_ & _ & Hceph & Hcek & _).
  eexists a1, _, s', sh, (client_hello_wire ch), w2. split; [reflexivity|].
  destruct (made_ledger b1 s ch' sh sk ss s' w2 Hm Hst Hemp Hclk) as (Hst' & Hent). rewrite <-Hw' in *.
  assert (Hcha : ztake (hc_ch_len a1) (hc_ch_bytes a1) = client_hello_wire ch').
  { unfold a1, after_hello_created. rewrite Hw'. apply take_poke_0. }
  split; try done.
  - change (ztake (hc_peer_id_len a) (hc_peer_id a) = idB). rewrite Hapid, Haplen. apply take_poke_0.
  - intros w0. by eapply resolve_pinned.
  - by apply after_server_hello_sent_live.
  - unfold after_server_hello_sent, b1, after_client_hello. hc. rewrite Hbpid, <-HidA, <-Hmid.
    destruct Hvm as [[Hb] Hi]. apply take_poke_field. rewrite Hb. wirelia.
  - eapply (honest_server_hello_accepted a1 b1); eauto.
    + by rewrite Hceph.
    + by rewrite Hceph.
  - destruct (up_dh ska sk _ _ Hbase (sm_kex _ _ _ _ _ _ _ _ Hm)) as [ssx Hx]. exists ssx. split; [exact Hx|].
    unfold after_server_hello_sent, b1, after_client_hello. hc. rewrite Hmeph. unfold kex_shared_secret. cbn [kex_priv].
    rewrite <-Hx. by apply scalarmult_agree; [apply Hm|].
  - destruct (sm_kem _ _ _ _ _ _ _ _ Hm) as (w3 & w4 & He). exists ek, dk, ss. split; [done|]. split; [|done].
    eapply kem_correct; [done|]. by rewrite Hcek in He.
Qed.

Lemma honest_run_ok a b s idA idB pkA skA pkB skB ksA ksB wa wa' wb wb' w :
  OQS_SIG_keypair wa = (Some (pkA, skA), wa') -> OQS_SIG_keypair wb = (Some (pkB, skB), wb') ->
  initiator_ready a idA idB (MldsaKeypair pkA (Some skA)) ksA -> kex_id_ok idA -> kex_id_ok idB ->
  responder_ready b idB (MldsaKeypair pkB (Some skB)) ksB ->
  keystore_ok ksA -> pins ksA !! idB = Some pkB -> keystore_ok ksB -> pins ksB !! idA = Some pkA ->
  store_ok s -> ledger s = ∅ -> clock_steady s ->
  exists a' b' s' w' keys,
    honest_run (Some a) (Some b) (Some s) w = ((replicate 8 HANDSHAKE_OK, Some a', Some b', Some s'), w') /\
    ctx_live a' /\ ctx_live b' /\ hc_role a' = HANDSHAKE_ROLE_INITIATOR /\ hc_role b' = HANDSHAKE_ROLE_RESPONDER /\
    hc_state a' = HANDSHAKE_STATE_ESTABLISHED /\ hc_state b' = HANDSHAKE_STATE_ESTABLISHED /\
    hc_session_keys a' = Some keys /\ hc_session_keys b' = Some keys /\ hc_handshake_id a' = hc_handshake_id b'.
Proof.
  intros Hga Hgb Ha HA HB Hb HokA HpA HokB HpB Hst Hemp Hclk.
  destruct (run_hello_ok a b s idA idB pkA skA pkB skB ksA ksB wb wb' w Ha Hb Hgb HokA HpA HokB HpB Hst Hemp Hclk)
    as (a1 & b1 & s1 & sh & ch & w1 & E1 & Hready).
  destruct (run_auth_ok idA idB pkA pkB skA wa wa' a1 b1 s1 sh ch w1 HA HB Hga Hready)
    as (a2 & b2 & s2 & w2 & keys & E2 & Hrest).
  unfold honest_run. mgo E1. mgo E2. exists a2, b2, s2, w2, keys. split; [reflexivity|exact Hrest].
Qed.

End run.

(** C4: an honest handshake completes and agrees.  Take any two identities with
    generated ML-DSA key pairs, each pinned under its own id in the other's
    keystore, contexts that [handshake_initiator_init] and
    [handshake_responder_init] accepted, and an empty ledger whose clock does not
    pass the new entry's deadline during the run.  When the three messages are relayed
    unmodified and the external calls succeed, all eight API calls return
    HANDSHAKE_OK, both sides report the same c2s key, the same s2c key and the
    same handshake id, and exactly the responder reports its peer as confirmed. *)
Theorem honest_handshake_agrees `{ES : EnvSizes} {EC : EnvCrypto E} {EU : EnvUp E}
    idA idB pkA skA pkB skB wa wa' wb wb' ksA ksB s c0 d0 a b w0 w1 w2 w3 w :
  OQS_SIG_keypair wa = (Some (pkA, skA), wa') -> OQS_SIG_keypair wb = (Some (pkB, skB), wb') ->
  keystore_ok ksA -> pins ksA !! idB = Some pkB -> keystore_ok ksB -> pins ksB !! idA = Some pkA ->
  store_ok s -> ledger s = ∅ -> clock_steady s ->
  handshake_initiator_init (Some c0) (Some idA) (Some (MldsaKeypair pkA (Some skA))) (Some ksA) (Some idB) w0
    = ((HANDSHAKE_OK, Some a), w1) ->
  handshake_responder_init (Some d0) (Some idB) (Some (MldsaKeypair pkB (Some skB))) (Some ksB) (Some s) w2
    = ((HANDSHAKE_OK, Some b), w3) ->
  exists a' b' s' w' k1 k2 hid,
    honest_run (Some a) (Some b) (Some s) w = ((replicate 8 HANDSHAKE_OK, Some a', Some b', Some s'), w') /\
    handshake_session_key_c2s (Some a') = (HANDSHAKE_OK, Some k1) /\
    handshake_session_key_c2s (Some b') = (HANDSHAKE_OK, Some k1) /\
    handshake_session_key_s2c (Some a') = (HANDSHAKE_OK, Some k2) /\
    handshake_session_key_s2c (Some b') = (HANDSHAKE_OK, Some k2) /\
    handshake_get_handshake_id (Some a') = (HANDSHAKE_OK, hid) /\
    handshake_get_handshake_id (Some b') = (HANDSHAKE_OK, hid) /\
    handshake_is_peer_confirmed (Some a') = false /\ handshake_is_peer_confirmed (Some b') = true.
Proof.
  intros Hga Hgb HokA HpA HokB HpB Hst Hemp Hclk HiA HiB.
  apply initiator_init_ready in HiA as (Ha & HidA & HidB). apply responder_init_ready in HiB.
  destruct (honest_run_ok a b s idA idB pkA skA pkB skB ksA ksB wa wa' wb wb' w Hga Hgb Ha)
    as (a' & b' & s' & w' & keys & E1 & Hla & Hlb & Hra & Hrb & Hsa & Hsb & Hka & Hkb & Hh); try done.
  pose proof (cl_committed _ Hla) as Hca. pose proof (cl_committed _ Hlb) as Hcb. rewrite Hsa in Hca. rewrite Hsb in Hcb.
  eexists a', b', s', w', _, _, _. split; [exact E1|].
  unfold handshake_session_key_c2s, handshake_session_key_s2c, key_at, handshake_get_handshake_id, handshake_is_peer_confirmed.
  by rewrite Hka, Hkb, Hsa, Hsb, Hra, Hrb, Hca, Hcb, Hh.
Qed.
