(* ===== verification/HandshakeDemo.v ===== *)
(** * A concrete handshake

    Alice dials Bob in the toy environment.  The run is evaluated step by step,
    and the theorems of the handshake are applied to the contexts it goes
    through. *)

From S2P Require Import Prelude WireInt Extern Toy Crypto Transcript Keystore Pending Handshake HandshakeProps HandshakeRun.

Definition demo_kp (w : Z) : mldsa_keypair_t := MldsaKeypair (toy_fill 1952 w) (Some (toy_fill 4032 w)).

(** A ledger on a clock that stands still. *)
Definition demo_clock : M (H := toy_env) Z := fun w => (100, w).
Definition demo_store : handshake_pending_store_t :=
  default (pending_store_zero []) (handshake_pending_store_init (Some (pending_store_zero [])) 4 1000 (Some demo_clock)).2.

Lemma demo_store_ok : store_ok demo_store.
Proof.
  destruct (init_common_ok (pending_store_zero []) SlotsInline [] 4 1000 (Some demo_clock))
    as (s & H & Hok & _); [done|by vm_compute|by vm_compute|intros w; by vm_compute|done|].
  unfold demo_store, handshake_pending_store_init. cbn [ps_ext pending_store_zero]. by rewrite H.
Qed.

(** One call of the run: the context it leaves, and what it put on the wire. *)
Definition call_result (k : hs_call) (c : handshake_ctx_t) ps (w : Z) := exec_call k (Some c) ps w.
Definition ctx_of (r : handshake_status_t * option handshake_ctx_t * option handshake_pending_store_t *
    option (list byte) * option Z * Z) : option handshake_ctx_t := r.1.1.1.1.2.
Definition wire_of (r : handshake_status_t * option handshake_ctx_t * option handshake_pending_store_t *
    option (list byte) * option Z * Z) : option (list byte) := relayed r.1.1.2 r.1.2.

Lemma reach_exec k c ps w :
  reachable c -> reachable (default c (ctx_of (call_result k c ps w))).
Proof.
  intros Hr. unfold call_result, ctx_of. destruct (exec_call k (Some c) ps w) as [[[[[st oc] ps'] o] n] w'] eqn:He.
  cbn [fst snd]. destruct oc as [c'|]; [|done]. cbn [default id]. by eapply reach_call.
Qed.

Definition alice0 : handshake_ctx_t :=
  default ctx_failed_zero (handshake_initiator_init (Some ctx_failed_zero) (Some (label "alice")) (Some (demo_kp 1))
    (Some sample_keystore) (Some (label "bob")) 5).1.2.
Definition bob0 : handshake_ctx_t :=
  default ctx_failed_zero (handshake_responder_init (Some ctx_failed_zero) (Some (label "bob")) (Some (demo_kp 2))
    (Some sample_keystore) (Some demo_store) 5).1.2.

Definition hello_call := CallCreateClientHello (Some (zeros CLIENT_HELLO_MAX_ENCODED_LEN)) CLIENT_HELLO_MAX_ENCODED_LEN (Some 0).
Definition reply_call := CallCreateServerHello (Some (zeros SERVER_HELLO_MAX_ENCODED_LEN)) SERVER_HELLO_MAX_ENCODED_LEN (Some 0).
Definition auth_call := CallCreateClientAuth (Some (zeros CLIENT_AUTH_MAX_ENCODED_LEN)) CLIENT_AUTH_MAX_ENCODED_LEN (Some 0).

Definition step1 := call_result hello_call alice0 None 5.
Definition alice1 : handshake_ctx_t := default alice0 (ctx_of step1).
Definition step2 := call_result (CallAcceptClientHello (wire_of step1)) bob0 None 8.
Definition bob1 : handshake_ctx_t := default bob0 (ctx_of step2).
Definition step3 := call_result reply_call bob1 (Some demo_store) 9.
Definition bob2 : handshake_ctx_t := default bob1 (ctx_of step3).
Definition demo_store1 : handshake_pending_store_t := default demo_store step3.1.1.1.2.
Definition demo_sh : list byte := default [] (wire_of step3).
Definition step4 := call_result (CallVerifyServerHello (Some demo_sh)) alice1 None 13.
Definition alice2 : handshake_ctx_t := default alice1 (ctx_of step4).
Definition step5 := call_result auth_call alice2 None 14.
Definition demo_auth : list byte := default [] (wire_of step5).

Lemma alice0_reachable : reachable alice0.
Proof.
  assert (He : is_some (handshake_initiator_init (Some ctx_failed_zero) (Some (label "alice")) (Some (demo_kp 1))
    (Some sample_keystore) (Some (label "bob")) 5).1.2 = true) by (vm_compute; reflexivity).
  unfold alice0. revert He. destruct (handshake_initiator_init _ _ _ _ _ _) as [[st [c|]] w'] eqn:He; [|done].
  intros _. by eapply reach_initiator.
Qed.

Lemma bob0_reachable : reachable bob0.
Proof.
  assert (He : is_some (responder_init_impl (Some ctx_failed_zero) (Some (label "bob")) (Some (demo_kp 2))
    (Some sample_keystore) None (Some demo_store) 5).1.2 = true) by (vm_compute; reflexivity).
  unfold bob0, handshake_responder_init. revert He.
  destruct (responder_init_impl _ _ _ _ _ _ _) as [[st [c|]] w'] eqn:He; [|done].
  intros _. by eapply reach_responder.
Qed.

Lemma alice1_reachable : reachable alice1.
Proof. apply reach_exec, alice0_reachable. Qed.

Lemma bob2_reachable : reachable bob2.
Proof. apply reach_exec, reach_exec, bob0_reachable. Qed.

(** Answering a ClientHello keeps the ledger well formed. *)
Lemma reply_store_ok `{ES : EnvSizes} c s o cap len w oc ps' o' n' w' :
  ctx_live c -> hc_role c = HANDSHAKE_ROLE_RESPONDER -> hc_state c = HANDSHAKE_STATE_CLIENT_HELLO_ACCEPTED ->
  store_ok s ->
  exec_call (CallCreateServerHello (Some o) cap (Some len)) (Some c) (Some s) w = ((HANDSHAKE_OK, oc, ps', o', n'), w') ->
  exists s', ps' = Some s' /\ store_ok s'.
Proof.
  intros Hl Hr Hs Hok H. cbn [exec_call] in H.
  apply create_server_hello_cases in H as [(? & ? & ? & (? & _ & _ & Ht & _) & _ & [= <- _])|[[= ]|H]]; [done| |done..].
  destruct H as (ch & sh & sk & ss & ps1 & _ & _ & Hm & _ & [= _ -> _ _]).
  destruct (sm_ledger _ _ _ _ _ _ _ _ Hm) as (wi & Hins).
  match type of Hins with handshake_pending_insert _ ?h ?t _ = _ =>
    destruct (insert_refines s h t Hok) with (w := wi) as (r & s' & w1 & Hi & _ & Hok' & _);
      [apply hash_len_16|apply sha256_len|] end.
  rewrite Hi in Hins. injection Hins as _ <- _. by exists s'.
Qed.

Lemma demo_store1_ok : store_ok demo_store1.
Proof.
  assert (Hst : step3.1.1.1.1.1 = HANDSHAKE_OK) by (vm_compute; reflexivity).
  assert (Hs : hc_state bob1 = HANDSHAKE_STATE_CLIENT_HELLO_ACCEPTED) by (vm_compute; reflexivity).
  assert (Hr : hc_role bob1 = HANDSHAKE_ROLE_RESPONDER) by (vm_compute; reflexivity).
  unfold demo_store1. revert Hst. unfold step3, call_result, reply_call.
  destruct (exec_call _ _ _ _) as [[[[[st oc] ps'] o'] n'] w'] eqn:He. cbn [fst snd]. intros ->.
  apply reply_store_ok in He as (s' & -> & Hok); [exact Hok| |exact Hr|exact Hs|apply demo_store_ok].
  destruct (reachable_inv bob1) as [Hz|Hl]; [apply reach_exec, bob0_reachable| |done].
  apply (f_equal hc_state) in Hz. rewrite Hs in Hz. discriminate Hz.
Qed.

(** ** The theorems on this run *)

Lemma handshake_secret_lifetime_witness :
  hc_state bob2 = HANDSHAKE_STATE_SERVER_HELLO_CREATED /\
  is_some (kex_priv (hc_eph bob2)) = true /\ is_some (hc_ss_kem bob2) = true /\
  (hc_session_keys bob2 = None \/ hc_session_keys bob2 = Some (zeros SESSION_KEYS_LEN)).
Proof.
  assert (Hs : hc_state bob2 = HANDSHAKE_STATE_SERVER_HELLO_CREATED) by (vm_compute; reflexivity).
  destruct (handshake_secret_lifetime bob2 bob2_reachable) as (_ & He & _ & Hk & Hz & _).
  rewrite Hs in He, Hk, Hz. split; [exact Hs|]. split; [exact He|]. split; [exact Hk|]. apply Hz. reflexivity.
Defined.

(** Bob's step that accepts Alice's ClientAuth, and one that refuses a forgery. *)
Definition step6 := handshake_responder_verify_client_auth (Some bob2) (Some demo_store1) (Some demo_auth) 20.
Definition demo_forged : list byte := poke (blen demo_auth - 1) [x55] demo_auth.
Definition step6' := handshake_responder_verify_client_auth (Some bob2) (Some demo_store1) (Some demo_forged) 20.

Lemma step6_status : let r := handshake_responder_verify_client_auth (Some bob2) (Some demo_store1) (Some demo_auth) 20 in
  (r.1.1.1, is_some r.1.1.2) = (HANDSHAKE_OK, true).
Proof. vm_compute. reflexivity. Qed.
Lemma step6'_status : let r := handshake_responder_verify_client_auth (Some bob2) (Some demo_store1) (Some demo_forged) 20 in
  (r.1.1.1, is_some r.1.1.2) = (HANDSHAKE_ERR_SIGNATURE, true).
Proof. vm_compute. reflexivity. Qed.
Lemma step4_status : let r := exec_call (CallVerifyServerHello (Some demo_sh)) (Some alice1) None 13 in
  (r.1.1.1.1.1, is_some r.1.1.1.1.2) = (HANDSHAKE_OK, true).
Proof. vm_compute. reflexivity. Qed.
Lemma verify_status : let r := handshake_initiator_verify_server_hello (Some alice1) (Some demo_sh) 13 in
  (r.1.1, is_some r.1.2) = (HANDSHAKE_OK, true).
Proof. vm_compute. reflexivity. Qed.

Lemma handshake_state_machine_witness :
  exists c', ctx_of (call_result (CallVerifyServerHello (Some demo_sh)) alice1 None 13) = Some c' /\
    hc_state c' = HANDSHAKE_STATE_SERVER_HELLO_VERIFIED.
Proof.
  pose proof step4_status as H. unfold call_result. cbv zeta in H. revert H.
  destruct (exec_call (CallVerifyServerHello (Some demo_sh)) (Some alice1) None 13)
    as [[[[[st oc] ps'] o] n] w'] eqn:He. cbn [fst snd]. intros [-> _]%pair_equal_spec.
  destruct (handshake_state_machine _ _ _ _ _ _ _ _ _ _ alice1_reachable He) as (_ & c' & Hc & _ & Hst).
  subst oc. exists c'. split; [reflexivity|]. apply Hst.
Defined.

Lemma initiator_authenticates_responder_witness :
  exists msg pk, server_hello_accepted alice1 demo_sh msg pk /\ pins sample_keystore !! label "bob" = Some pk.
Proof.
  pose proof verify_status as H. cbv zeta in H. revert H.
  destruct (handshake_initiator_verify_server_hello (Some alice1) (Some demo_sh) 13) as [[st oc] w'] eqn:He.
  cbn [fst snd]. intros [-> H2]%pair_equal_spec.
  destruct oc as [c'|]; [clear H2|discriminate H2].
  destruct (initiator_authenticates_responder _ _ _ _ _ alice1_reachable He)
    as (_ & _ & msg & pk & w1 & Ha & _ & Hpin & _).
  exists msg, pk. split; [exact Ha|].
  destruct Hpin as (ks & Hks & Hpin); [vm_compute; reflexivity|].
  assert (hc_keystore alice1 = Some sample_keystore) as Hk by (vm_compute; reflexivity).
  rewrite Hk in Hks. apply (inj Some) in Hks. subst ks. specialize (Hpin sample_keystore_ok).
  assert (ztake (hc_peer_id_len alice1) (hc_peer_id alice1) = label "bob") as Hid by (vm_compute; reflexivity).
  rewrite Hid in Hpin. exact Hpin.
Defined.

Lemma responder_authenticates_initiator_witness :
  exists c' s', step6.1 = (HANDSHAKE_OK, Some c', Some s') /\ hc_keys_committed c' = true /\
    exists e, ledger s' !! hc_handshake_id bob2 = Some e /\ pe_state e = PENDING_SLOT_CONSUMED.
Proof.
  pose proof step6_status as H. cbv zeta in H. unfold step6. revert H.
  destruct (handshake_responder_verify_client_auth (Some bob2) (Some demo_store1) (Some demo_auth) 20)
    as [[[st oc] ps'] w'] eqn:He. cbn [fst snd]. intros [-> H2]%pair_equal_spec.
  destruct oc as [c'|]; [clear H2|discriminate H2].
  destruct (responder_authenticates_initiator _ _ _ _ _ _ _ bob2_reachable demo_store1_ok He)
    as (msg & e & pk & ssx & ssk & keys & s' & _ & _ & _ & -> & _ & Hl & _ & _ & Hc & _).
  exists c', s'. split; [reflexivity|]. split; [exact Hc|]. eexists. rewrite Hl. split; [apply lookup_insert_eq|reflexivity].
Defined.

Lemma rejected_client_auth_witness :
  exists s' e, step6'.1 = (HANDSHAKE_ERR_SIGNATURE, Some bob2, Some s') /\
    ledger demo_store1 !! hc_handshake_id bob2 = Some e /\
    ledger s' = <[hc_handshake_id bob2 := bump e]> (ledger demo_store1).
Proof.
  pose proof step6'_status as H. cbv zeta in H. unfold step6'. revert H.
  destruct (handshake_responder_verify_client_auth (Some bob2) (Some demo_store1) (Some demo_forged) 20)
    as [[[st oc] ps'] w'] eqn:He. cbn [fst snd]. intros [-> H2]%pair_equal_spec.
  destruct oc as [c'|]; [clear H2|discriminate H2].
  assert (Hr : hc_role bob2 = HANDSHAKE_ROLE_RESPONDER) by (vm_compute; reflexivity).
  assert (Hs : hc_state bob2 = HANDSHAKE_STATE_SERVER_HELLO_CREATED) by (vm_compute; reflexivity).
  destruct (rejected_client_auth _ _ _ _ _ _ _ _ bob2_reachable demo_store1_ok Hr Hs He ltac:(discriminate))
    as (s' & -> & _ & -> & e & Hl & _ & Hl').
  exists s', e. split; [reflexivity|]. split; [exact Hl|exact Hl'].
Defined.

Lemma init_result (r : handshake_status_t * option handshake_ctx_t * Z) (d : handshake_ctx_t) :
  r.1.1 = HANDSHAKE_OK -> is_some r.1.2 = true -> r = ((HANDSHAKE_OK, Some (default d r.1.2)), r.2).
Proof. destruct r as [[st [c|]] w]; cbn; [by intros -> _|done]. Qed.

Lemma honest_handshake_agrees_witness :
  exists a' b' s' w' k1 k2,
    honest_run (Some alice0) (Some bob0) (Some demo_store) 7 =
      ((replicate 8 HANDSHAKE_OK, Some a', Some b', Some s'), w') /\
    handshake_session_key_c2s (Some a') = (HANDSHAKE_OK, Some k1) /\
    handshake_session_key_c2s (Some b') = (HANDSHAKE_OK, Some k1) /\
    handshake_session_key_s2c (Some a') = (HANDSHAKE_OK, Some k2) /\
    handshake_session_key_s2c (Some b') = (HANDSHAKE_OK, Some k2).
Proof.
  assert (Hst : ledger demo_store = ∅) by (vm_compute; reflexivity).
  assert (HA : pins sample_keystore !! label "bob" = Some (toy_fill 1952 2)) by (vm_compute; reflexivity).
  assert (HB : pins sample_keystore !! label "alice" = Some (toy_fill 1952 1)) by (vm_compute; reflexivity).
  pose proof (init_result (handshake_initiator_init (Some ctx_failed_zero) (Some (label "alice")) (Some (demo_kp 1))
    (Some sample_keystore) (Some (label "bob")) 5) ctx_failed_zero ltac:(vm_compute; reflexivity)
    ltac:(vm_compute; reflexivity)) as HiA.
  pose proof (init_result (handshake_responder_init (Some ctx_failed_zero) (Some (label "bob")) (Some (demo_kp 2))
    (Some sample_keystore) (Some demo_store) 5) ctx_failed_zero ltac:(vm_compute; reflexivity)
    ltac:(vm_compute; reflexivity)) as HiB.
  assert (Hclk : clock_steady demo_store) by (intros w w'; vm_compute; reflexivity).
  destruct (honest_handshake_agrees (E := toy_env) (label "alice") (label "bob") _ _ _ _ 1 2 2 3 _ _ _ _ _ _ _ _ _ _ _ 7
    eq_refl eq_refl sample_keystore_ok HA sample_keystore_ok HB demo_store_ok Hst Hclk HiA HiB)
    as (a' & b' & s' & w' & k1 & k2 & hid & Hrun & H1 & H2 & H3 & H4 & _).
  exists a', b', s', w', k1, k2. split; [exact Hrun|]. split; [exact H1|]. split; [exact H2|]. split; [exact H3|exact H4].
Defined.
