(* ===== verification/Session.v ===== *)
(** * The session record layer ([src/protocol/session.c])

    Limits, the hand-off from an established handshake, sealing, opening and the
    terminal transitions.  Caller buffers carry their address, because the code
    compares address ranges; the clock is the session's [clock_fn].  A session is
    passed as an option (NULL), its key block is [ss_keys]. *)

From S2P Require Import Prelude WireInt Extern Toy Crypto Transcript Keystore Pending Handshake.

(** ** Constants ([session.h]) *)
Definition SESSION_RECORD_TYPE : Z := 4.
Definition SESSION_HEADER_BYTES : Z := 9.
Definition SESSION_OVERHEAD_BYTES : Z := 25.
Definition SESSION_MAX_PLAINTEXT_BYTES : Z := 65536.
Definition SESSION_CONTENT_LEN_BYTES : Z := 2.
Definition SESSION_MAX_CONTENT_BYTES : Z := SESSION_MAX_PLAINTEXT_BYTES - SESSION_CONTENT_LEN_BYTES.
Definition SESSION_MAX_RECORD_BYTES : Z := SESSION_MAX_PLAINTEXT_BYTES + SESSION_OVERHEAD_BYTES.
Definition SESSION_MIN_RECORD_BYTES : Z := SESSION_CONTENT_LEN_BYTES + SESSION_OVERHEAD_BYTES.
Definition SESSION_PAD_BUCKET_DEFAULT : Z := 256.
Definition SESSION_AD_LABEL : list byte := label "mldsa-auth/v2/record".
Definition SESSION_REKEY_AFTER_MESSAGES : Z := 2 ^ 32.
Definition SESSION_REJECT_AFTER_MESSAGES : Z := 2 ^ 33.
Definition SESSION_REKEY_AFTER_MS : Z := 3600000.
Definition SESSION_REJECT_AFTER_MS : Z := 3900000.
Definition KEY_BLOCK_LEN : Z := 2 * AEAD_KEY_BYTES.
Definition SEND_KEY_OFFSET : Z := 0.
Definition RECV_KEY_OFFSET : Z := AEAD_KEY_BYTES.

Inductive session_state_t :=
  | SESSION_STATE_EMPTY | SESSION_STATE_ACTIVE | SESSION_STATE_EXPIRED | SESSION_STATE_FAILED.

Inductive session_status_t :=
  | SESSION_OK | SESSION_ERR_INVALID_ARG | SESSION_ERR_UNEXPECTED_STATE | SESSION_ERR_MALFORMED
  | SESSION_ERR_REPLAY | SESSION_ERR_OUT_OF_ORDER | SESSION_ERR_AUTH | SESSION_ERR_LIMIT
  | SESSION_ERR_EXPIRED | SESSION_ERR_RESOURCE_EXHAUSTED | SESSION_ERR_INTERNAL.

#[global] Instance session_state_eq_dec : EqDecision session_state_t.
Proof. solve_decision. Defined.
#[global] Instance session_status_eq_dec : EqDecision session_status_t.
Proof. solve_decision. Defined.

Record session_limits_t := SessionLimits {
  sl_rekey_after_messages : Z; sl_reject_after_messages : Z;
  sl_rekey_after_ms : Z; sl_reject_after_ms : Z; sl_pad_bucket : Z }.

Record session_t `{Env} := Session {
  ss_state : session_state_t; ss_role : handshake_role_t; ss_peer_confirmed : bool;
  ss_keys : option (list byte); ss_send_dir : byte; ss_recv_dir : byte;
  ss_handshake_id : list byte; ss_send_seq : Z; ss_recv_seq : Z; ss_start_ms : Z;
  ss_limits : session_limits_t; ss_clock_fn : option (M Z) }.

#[global] Arguments Session {_} _ _ _ _ _ _ _ _ _ _ _ _.

(** A caller-provided buffer: its address and its bytes. *)
Record buffer := Buffer { buf_addr : Z; buf_bytes : list byte }.
Definition buf_set (b : buffer) (l : list byte) : buffer := Buffer (buf_addr b) l.

(** ** Limits *)
Definition default_limits : session_limits_t :=
  SessionLimits SESSION_REKEY_AFTER_MESSAGES SESSION_REJECT_AFTER_MESSAGES SESSION_REKEY_AFTER_MS
    SESSION_REJECT_AFTER_MS SESSION_PAD_BUCKET_DEFAULT.

Definition session_default_limits (out : option session_limits_t) : option session_limits_t :=
  match out with None => None | Some _ => Some default_limits end.

Definition pad_bucket_valid (bucket : Z) : bool :=
  (bucket =? 1) || (bucket =? 16) || (bucket =? 64) || (bucket =? 256) || (bucket =? 1024) || (bucket =? 4096).

Definition limits_valid (l : session_limits_t) : bool :=
  (1 <=? sl_rekey_after_messages l) && (sl_rekey_after_messages l <=? sl_reject_after_messages l) &&
  (sl_reject_after_messages l <=? SESSION_REJECT_AFTER_MESSAGES) &&
  (sl_rekey_after_messages l <=? SESSION_REKEY_AFTER_MESSAGES) && (1 <=? sl_rekey_after_ms l) &&
  (sl_rekey_after_ms l <=? sl_reject_after_ms l) && (sl_reject_after_ms l <=? SESSION_REJECT_AFTER_MS) &&
  (sl_rekey_after_ms l <=? SESSION_REKEY_AFTER_MS) && pad_bucket_valid (sl_pad_bucket l).

Definition limits_zero : session_limits_t := SessionLimits 0 0 0 0 0.

(** ** Byte-level helpers *)
Definition store_be64 (v : Z) : list byte := be_enc 8 v.
Definition load_be64 (l : list byte) : Z := be_dec (ztake 8 l).
Definition store_be16 (v : Z) : list byte := [u8 (Z.shiftr v 8); u8 v].
Definition load_be16 (l : list byte) : Z :=
  u16 (Z.lor (Z.shiftl (bz (byte_at l 0)) 8) (bz (byte_at l 1))).

Definition build_nonce (seq : Z) : list byte := zeros 4 ++ store_be64 seq.

Definition build_ad (handshake_id : list byte) (direction : byte) (seq : Z) : list byte :=
  SESSION_AD_LABEL ++ [x00] ++ handshake_id ++ [direction] ++ [u8 SESSION_RECORD_TYPE] ++ store_be64 seq.

Definition inner_len_for (content_len bucket : Z) : Z :=
  (content_len + SESSION_CONTENT_LEN_BYTES + bucket - 1) / bucket * bucket.

(** [uintptr_t] sums wrap. *)
Definition ranges_overlap (a a_len b b_len : Z) : bool :=
  if (a_len =? 0) || (b_len =? 0) then false
  else (a <? u64 (b + b_len)) && (b <? u64 (a + a_len)).

Section ops.
Context `{E : Env}.
Implicit Types (s : session_t) (ps : option handshake_pending_store_t).

Definition session_zero : session_t :=
  Session SESSION_STATE_EMPTY HANDSHAKE_ROLE_NONE false None x00 x00 (zeros WIRE_HANDSHAKE_ID_LEN) 0 0 0
    limits_zero None.

(** Field updates. *)
Definition ss_set_send_seq s (n : Z) : session_t :=
  Session (ss_state s) (ss_role s) (ss_peer_confirmed s) (ss_keys s) (ss_send_dir s) (ss_recv_dir s)
    (ss_handshake_id s) n (ss_recv_seq s) (ss_start_ms s) (ss_limits s) (ss_clock_fn s).
Definition ss_set_recv_seq s (n : Z) : session_t :=
  Session (ss_state s) (ss_role s) (ss_peer_confirmed s) (ss_keys s) (ss_send_dir s) (ss_recv_dir s)
    (ss_handshake_id s) (ss_send_seq s) n (ss_start_ms s) (ss_limits s) (ss_clock_fn s).
Definition ss_set_confirmed s (b : bool) : session_t :=
  Session (ss_state s) (ss_role s) b (ss_keys s) (ss_send_dir s) (ss_recv_dir s)
    (ss_handshake_id s) (ss_send_seq s) (ss_recv_seq s) (ss_start_ms s) (ss_limits s) (ss_clock_fn s).

(** ** Setup and teardown

    The result carries the session, the handshake context and the ledger the
    context points to. *)
Definition session_init_from_handshake (s : option session_t) (hs : option handshake_ctx_t)
    (limits : option session_limits_t) (clock_fn : option (M Z)) ps
    : M (session_status_t * option session_t * option handshake_ctx_t * option handshake_pending_store_t) :=
  match s, hs with
  | Some s0, Some _ =>
    if negb (bool_decide (ss_state s0 = SESSION_STATE_EMPTY)) || is_some (ss_keys s0)
    then mret (SESSION_ERR_UNEXPECTED_STATE, s, hs, ps) else
    if match limits with Some l => negb (limits_valid l) | None => false end
    then mret (SESSION_ERR_INVALID_ARG, s, hs, ps) else
    let eff := match limits with
               | Some l => l
               | None => default limits_zero (session_default_limits (Some limits_zero))
               end in
    match handshake_get_state hs, handshake_get_role hs (Some HANDSHAKE_ROLE_NONE), handshake_session_key_c2s hs,
      handshake_session_key_s2c hs, handshake_get_handshake_id hs with
    | HANDSHAKE_STATE_ESTABLISHED, (HANDSHAKE_OK, Some role), (HANDSHAKE_OK, Some c2s), (HANDSHAKE_OK, Some s2c),
        (HANDSHAKE_OK, handshake_id) =>
      if bool_decide (role = HANDSHAKE_ROLE_RESPONDER) && negb (handshake_is_peer_confirmed hs)
      then mret (SESSION_ERR_UNEXPECTED_STATE, s, hs, ps) else
      let fn := default handshake_default_clock_ms clock_fn in
      now ← fn;
      if now =? UINT64_MAX then mret (SESSION_ERR_EXPIRED, s, hs, ps) else
      keys ← secure_mem_alloc KEY_BLOCK_LEN;
      match keys with
      | None => mret (SESSION_ERR_RESOURCE_EXHAUSTED, s, hs, ps)
      | Some keys =>
        let initiator := bool_decide (role = HANDSHAKE_ROLE_INITIATOR) in
        let keys := poke SEND_KEY_OFFSET (if initiator then c2s else s2c) keys in
        let keys := poke RECV_KEY_OFFSET (if initiator then s2c else c2s) keys in
        let s1 := Session SESSION_STATE_ACTIVE role (negb initiator) (Some keys)
          (u8 (if initiator then KEX_DIR_C2S else KEX_DIR_S2C)) (u8 (if initiator then KEX_DIR_S2C else KEX_DIR_C2S))
          handshake_id 0 0 now eff (Some fn) in
        r ← handshake_ctx_wipe hs ps;
        mret (SESSION_OK, Some s1, r.1, r.2)
      end
    | _, _, _, _, _ => mret (SESSION_ERR_UNEXPECTED_STATE, s, hs, ps)
    end
  | _, _ => mret (SESSION_ERR_INVALID_ARG, s, hs, ps)
  end.

Definition session_wipe (s : option session_t) : option session_t :=
  match s with None => None | Some _ => Some session_zero end.

Definition session_get_state (s : option session_t) : session_state_t :=
  match s with Some s => ss_state s | None => SESSION_STATE_EMPTY end.

(** ** Steady state *)
Definition session_now s : M Z := match ss_clock_fn s with Some f => f | None => mret UINT64_MAX end.

Definition session_age_ms s : M Z :=
  now ← session_now s;
  mret (if (now =? UINT64_MAX) || (now <? ss_start_ms s) then UINT64_MAX else now - ss_start_ms s).

Definition terminate s (state : session_state_t) (why : session_status_t) : session_status_t * session_t :=
  (why, Session state (ss_role s) false (secure_mem_wipe (ss_keys s) KEY_BLOCK_LEN) (ss_send_dir s) (ss_recv_dir s)
    (ss_handshake_id s) (ss_send_seq s) (ss_recv_seq s) (ss_start_ms s) (ss_limits s) (ss_clock_fn s)).

Definition session_sealed_len (s : option session_t) (content_len : Z) : Z :=
  match s with
  | None => 0
  | Some s =>
    if (SESSION_MAX_CONTENT_BYTES <? content_len) || negb (pad_bucket_valid (sl_pad_bucket (ss_limits s))) then 0
    else inner_len_for content_len (sl_pad_bucket (ss_limits s)) + SESSION_OVERHEAD_BYTES
  end.

(** The 32-byte key at an offset of the key block. *)
Definition key_block_at s (off : Z) : list byte := peek off AEAD_KEY_BYTES (default [] (ss_keys s)).

(** Result: status, session, output buffer and [*out_len]. *)
Definition session_seal (s : option session_t) (pt : option buffer) (pt_len : Z) (out : option buffer) (out_cap : Z)
    (out_len : option Z) : M (session_status_t * option session_t * option buffer * option Z) :=
  match s, out, out_len with
  | Some s0, Some o, Some _ =>
    if negb (is_some pt) && negb (pt_len =? 0) || (SESSION_MAX_CONTENT_BYTES <? pt_len)
    then mret (SESSION_ERR_INVALID_ARG, s, out, out_len) else
    if negb (bool_decide (ss_state s0 = SESSION_STATE_ACTIVE))
    then mret (SESSION_ERR_UNEXPECTED_STATE, s, out, out_len) else
    if negb (pad_bucket_valid (sl_pad_bucket (ss_limits s0))) then mret (SESSION_ERR_INTERNAL, s, out, out_len) else
    let inner_len := inner_len_for pt_len (sl_pad_bucket (ss_limits s0)) in
    let need := inner_len + SESSION_OVERHEAD_BYTES in
    if (out_cap <? need) || ranges_overlap (default 0 (buf_addr <$> pt)) pt_len (buf_addr o) need
    then mret (SESSION_ERR_INVALID_ARG, s, out, out_len) else
    age ← session_age_ms s0;
    if (sl_reject_after_ms (ss_limits s0) <=? age) || (sl_reject_after_messages (ss_limits s0) <=? ss_send_seq s0)
    then let '(st, s1) := terminate s0 SESSION_STATE_EXPIRED SESSION_ERR_EXPIRED in mret (st, Some s1, out, out_len)
    else
    let seq := ss_send_seq s0 in
    let s1 := ss_set_send_seq s0 (u64 (seq + 1)) in
    let nonce := build_nonce seq in
    let ad := build_ad (ss_handshake_id s1) (ss_send_dir s1) seq in
    let o1 := poke 0 [u8 SESSION_RECORD_TYPE] (buf_bytes o) in
    let o2 := poke 1 (store_be64 seq) o1 in
    let o3 := poke SESSION_HEADER_BYTES (store_be16 (u16 pt_len)) o2 in
    let o4 := if pt_len =? 0 then o3
              else poke (SESSION_HEADER_BYTES + SESSION_CONTENT_LEN_BYTES) (ztake pt_len (default [] (buf_bytes <$> pt))) o3 in
    let used := SESSION_CONTENT_LEN_BYTES + pt_len in
    let o5 := poke (SESSION_HEADER_BYTES + used) (zeros (inner_len - used)) o4 in
    let failed := let '(st, s2) := terminate s1 SESSION_STATE_FAILED SESSION_ERR_INTERNAL in
                  mret (st, Some s2, Some (buf_set o (poke 0 (zeros need) o5)), out_len) in
    match aead_encrypt (peek SESSION_HEADER_BYTES inner_len o5) ad nonce (key_block_at s1 SEND_KEY_OFFSET) with
    | None => failed
    | Some ct =>
      if negb (blen ct =? inner_len + AEAD_TAG_BYTES) then failed
      else mret (SESSION_OK, Some s1, Some (buf_set o (poke SESSION_HEADER_BYTES ct o5)), Some need)
    end
  | _, _, _ => mret (SESSION_ERR_INVALID_ARG, s, out, out_len)
  end.

(** Result: status, session, plaintext buffer and [*pt_len]. *)
Definition session_open (s : option session_t) (rec : option buffer) (pt_out : option buffer) (pt_cap : Z)
    (pt_len : option Z) : M (session_status_t * option session_t * option buffer * option Z) :=
  match s, rec, pt_out, pt_len with
  | Some s0, Some r, Some p, Some _ =>
    let rec_len := blen (buf_bytes r) in
    let writable := if pt_cap <? SESSION_MAX_PLAINTEXT_BYTES then pt_cap else SESSION_MAX_PLAINTEXT_BYTES in
    if ranges_overlap (buf_addr r) rec_len (buf_addr p) writable
    then mret (SESSION_ERR_INVALID_ARG, s, pt_out, pt_len) else
    if negb (bool_decide (ss_state s0 = SESSION_STATE_ACTIVE))
    then mret (SESSION_ERR_UNEXPECTED_STATE, s, pt_out, pt_len) else
    let stop state why o := let '(st, s1) := terminate s0 state why in mret (st, Some s1, Some (buf_set p o), pt_len) in
    age ← session_age_ms s0;
    if sl_reject_after_ms (ss_limits s0) <=? age then stop SESSION_STATE_EXPIRED SESSION_ERR_EXPIRED (buf_bytes p) else
    if (rec_len <? SESSION_MIN_RECORD_BYTES) || (SESSION_MAX_RECORD_BYTES <? rec_len)
       || negb (bz (byte_at (buf_bytes r) 0) =? SESSION_RECORD_TYPE)
    then stop SESSION_STATE_FAILED SESSION_ERR_MALFORMED (buf_bytes p) else
    let body := rec_len - SESSION_OVERHEAD_BYTES in
    if pt_cap <? body then mret (SESSION_ERR_INVALID_ARG, s, pt_out, pt_len) else
    let seq := load_be64 (zdrop 1 (buf_bytes r)) in
    if seq <? ss_recv_seq s0 then stop SESSION_STATE_FAILED SESSION_ERR_REPLAY (buf_bytes p) else
    if ss_recv_seq s0 <? seq then stop SESSION_STATE_FAILED SESSION_ERR_OUT_OF_ORDER (buf_bytes p) else
    if sl_reject_after_messages (ss_limits s0) <=? seq
    then stop SESSION_STATE_FAILED SESSION_ERR_LIMIT (buf_bytes p) else
    let nonce := build_nonce seq in
    let ad := build_ad (ss_handshake_id s0) (ss_recv_dir s0) seq in
    let wiped l := poke 0 (zeros body) l in
    match aead_decrypt (zdrop SESSION_HEADER_BYTES (buf_bytes r)) ad nonce (key_block_at s0 RECV_KEY_OFFSET) with
    | None => stop SESSION_STATE_FAILED SESSION_ERR_AUTH (wiped (buf_bytes p))
    | Some m =>
      if negb (blen m =? body) then stop SESSION_STATE_FAILED SESSION_ERR_AUTH (wiped (buf_bytes p)) else
      let p1 := poke 0 m (buf_bytes p) in
      let content_len := load_be16 p1 in
      if body - SESSION_CONTENT_LEN_BYTES <? content_len
      then stop SESSION_STATE_FAILED SESSION_ERR_MALFORMED (wiped p1) else
      let pad_len := body - SESSION_CONTENT_LEN_BYTES - content_len in
      if negb (pad_len =? 0)
         && negb (bool_decide (peek (SESSION_CONTENT_LEN_BYTES + content_len) pad_len p1 = zeros pad_len))
      then stop SESSION_STATE_FAILED SESSION_ERR_MALFORMED (wiped p1) else
      let p2 := if content_len =? 0 then p1 else poke 0 (peek SESSION_CONTENT_LEN_BYTES content_len p1) p1 in
      let p3 := poke content_len (zeros (body - content_len)) p2 in
      let s1 := ss_set_recv_seq s0 (u64 (seq + 1)) in
      let s2 := if bool_decide (ss_role s1 = HANDSHAKE_ROLE_INITIATOR) then ss_set_confirmed s1 true else s1 in
      mret (SESSION_OK, Some s2, Some (buf_set p p3), Some content_len)
    end
  | _, _, _, _ => mret (SESSION_ERR_INVALID_ARG, s, pt_out, pt_len)
  end.

Definition session_is_peer_confirmed (s : option session_t) : bool :=
  match s with
  | None => false
  | Some s => bool_decide (ss_state s = SESSION_STATE_ACTIVE) && ss_peer_confirmed s
  end.

Definition session_rekey_due (s : option session_t) : M bool :=
  match s with
  | None => mret true
  | Some s =>
    if negb (bool_decide (ss_state s = SESSION_STATE_ACTIVE)) then mret true else
    if (sl_rekey_after_messages (ss_limits s) <=? ss_send_seq s)
       || (sl_rekey_after_messages (ss_limits s) <=? ss_recv_seq s) then mret true else
    age ← session_age_ms s;
    mret (sl_rekey_after_ms (ss_limits s) <=? age)
  end.

End ops.
