(* ===== verification/SessionProps.v ===== *)
(** * Properties of the session record layer

    The invariant of every reachable session, nonce uniqueness, the round trip
    of seal and open, delivery over a hostile channel, terminal states, limits
    and the hand-off from the handshake. *)

From S2P Require Import Prelude WireInt Extern Toy Crypto Transcript Keystore Pending Handshake HandshakeProps HandshakeRun Session.

(** ** The bytes of a record *)

(** The padded inner plaintext. *)
Definition inner_of (content : list byte) (bucket : Z) : list byte :=
  store_be16 (blen content) ++ content ++ zeros (inner_len_for (blen content) bucket - 2 - blen content).
Definition record_header (seq : Z) : list byte := u8 SESSION_RECORD_TYPE :: store_be64 seq.

Ltac sesslia :=
  unfold SESSION_MAX_RECORD_BYTES, SESSION_MIN_RECORD_BYTES, SESSION_MAX_CONTENT_BYTES, SESSION_MAX_PLAINTEXT_BYTES,
    SESSION_CONTENT_LEN_BYTES, SESSION_HEADER_BYTES, SESSION_OVERHEAD_BYTES, AEAD_TAG_BYTES, KEY_BLOCK_LEN,
    SEND_KEY_OFFSET, RECV_KEY_OFFSET, AEAD_KEY_BYTES in *; lia.

Lemma length_record_header seq : blen (record_header seq) = SESSION_HEADER_BYTES.
Proof. unfold record_header, store_be64. by rewrite length_cons, length_be_enc. Qed.

Lemma pad_bucket_range b : pad_bucket_valid b = true -> 1 <= b <= 4096 /\ 65536 mod b = 0.
Proof.
  unfold pad_bucket_valid. rewrite !orb_true_iff, !Z.eqb_eq. intros H.
  destruct_or?; subst; split; done || lia.
Qed.

(** Rounding up to a multiple of the bucket never exceeds the inner bound. *)
Lemma inner_len_spec n b :
  0 <= n <= SESSION_MAX_CONTENT_BYTES -> pad_bucket_valid b = true ->
  n + 2 <= inner_len_for n b < n + 2 + b /\ inner_len_for n b mod b = 0 /\
  inner_len_for n b <= SESSION_MAX_PLAINTEXT_BYTES.
Proof.
  intros Hn [Hb Hd]%pad_bucket_range. unfold inner_len_for, SESSION_CONTENT_LEN_BYTES.
  pose proof (Z.div_mod (n + 2 + b - 1) b ltac:(lia)). pose proof (Z.mod_pos_bound (n + 2 + b - 1) b ltac:(lia)).
  set (q := (n + 2 + b - 1) / b) in *. split; [nia|]. split; [apply Z.mod_mul; lia|].
  apply Z.div_exact in Hd; [|lia]. unfold SESSION_MAX_CONTENT_BYTES, SESSION_MAX_PLAINTEXT_BYTES, SESSION_CONTENT_LEN_BYTES in *.
  assert (q <= 65536 / b); [|nia]. unfold q. apply Z.le_trans with ((65536 + b - 1) / b); [apply Z.div_le_mono; lia|].
  rewrite Hd at 1. replace (b * (65536 / b) + b - 1) with (b - 1 + 65536 / b * b) by lia.
  rewrite Z.div_add, Z.div_small by lia. lia.
Qed.

Lemma store_be16_be v : store_be16 v = be_enc 2 v.
Proof. apply be16_bytes. Qed.

Lemma load_be16_be l : 2 <= blen l -> load_be16 l = be_dec (ztake 2 l).
Proof.
  apply be16_word.
Qed.

Lemma length_inner_of c b :
  blen c <= SESSION_MAX_CONTENT_BYTES -> pad_bucket_valid b = true -> blen (inner_of c b) = inner_len_for (blen c) b.
Proof.
  intros Hc Hb. destruct (inner_len_spec (blen c) b) as [? _]; [lia|done|]. unfold inner_of.
  rewrite store_be16_be, !length_app, length_be_enc, !Nat2Z.inj_add, length_zeros by lia. lia.
Qed.

(** The five writes of [session_seal] assemble header and inner. *)
Lemma seal_assembles seq c b (o : list byte) :
  blen c <= SESSION_MAX_CONTENT_BYTES -> pad_bucket_valid b = true ->
  let o2 := poke 1 (store_be64 seq) (poke 0 [u8 SESSION_RECORD_TYPE] o) in
  let o3 := poke SESSION_HEADER_BYTES (store_be16 (u16 (blen c))) o2 in
  let o4 := if blen c =? 0 then o3 else poke (SESSION_HEADER_BYTES + SESSION_CONTENT_LEN_BYTES) c o3 in
  poke (SESSION_HEADER_BYTES + (SESSION_CONTENT_LEN_BYTES + blen c))
    (zeros (inner_len_for (blen c) b - (SESSION_CONTENT_LEN_BYTES + blen c))) o4
  = poke 0 (record_header seq ++ inner_of c b) o.
Proof.
  intros Hc Hb. cbv zeta. assert (u16 (blen c) = blen c) as -> by (apply Z.mod_small; sesslia).
  rewrite (poke_append [u8 SESSION_RECORD_TYPE]) by done. change ([u8 SESSION_RECORD_TYPE] ++ store_be64 seq) with (record_header seq).
  rewrite (poke_append (record_header seq)) by (by rewrite length_record_header).
  rewrite (poke_append (record_header seq ++ _))
    by (rewrite length_app, Nat2Z.inj_add, length_record_header, store_be16_be, length_be_enc; done).
  assert (forall x, (if blen c =? 0 then poke 0 x o else poke 0 (x ++ c) o) = poke 0 (x ++ c) o) as ->.
  { intros x. destruct c; [by rewrite app_nil_r|done]. }
  rewrite poke_append.
  - unfold inner_of. rewrite <-!app_assoc. unfold SESSION_CONTENT_LEN_BYTES. by rewrite Z.sub_add_distr.
  - rewrite !length_app, !Nat2Z.inj_add, length_record_header, store_be16_be, length_be_enc. unfold SESSION_CONTENT_LEN_BYTES. lia.
Qed.

Section props.
Context `{ES : EnvSizes}.
Implicit Types (s : session_t) (ps : option handshake_pending_store_t).

(** ** Session invariant *)
Definition send_dir_of (role : handshake_role_t) : byte :=
  u8 (if bool_decide (role = HANDSHAKE_ROLE_INITIATOR) then KEX_DIR_C2S else KEX_DIR_S2C).
Definition recv_dir_of (role : handshake_role_t) : byte :=
  u8 (if bool_decide (role = HANDSHAKE_ROLE_INITIATOR) then KEX_DIR_S2C else KEX_DIR_C2S).

Record session_active s : Prop := {
  sa_state : ss_state s = SESSION_STATE_ACTIVE;
  sa_keys : exists k, ss_keys s = Some k /\ blen k = KEY_BLOCK_LEN;
  sa_role : ss_role s = HANDSHAKE_ROLE_INITIATOR \/ ss_role s = HANDSHAKE_ROLE_RESPONDER;
  sa_send_dir : ss_send_dir s = send_dir_of (ss_role s);
  sa_recv_dir : ss_recv_dir s = recv_dir_of (ss_role s);
  sa_hid : blen (ss_handshake_id s) = WIRE_HANDSHAKE_ID_LEN;
  sa_limits : limits_valid (ss_limits s) = true;
  sa_send : 0 <= ss_send_seq s <= sl_reject_after_messages (ss_limits s);
  sa_recv : 0 <= ss_recv_seq s <= sl_reject_after_messages (ss_limits s);
  sa_clock : is_some (ss_clock_fn s) = true;
  sa_confirmed : ss_role s = HANDSHAKE_ROLE_RESPONDER -> ss_peer_confirmed s = true;
  sa_unconfirmed : ss_role s = HANDSHAKE_ROLE_INITIATOR -> ss_peer_confirmed s = bool_decide (0 < ss_recv_seq s) }.

Definition session_dead s : Prop :=
  (ss_state s = SESSION_STATE_EXPIRED \/ ss_state s = SESSION_STATE_FAILED) /\
  ss_keys s = Some (zeros KEY_BLOCK_LEN) /\ ss_peer_confirmed s = false.

Definition session_inv s : Prop := s = session_zero \/ session_active s \/ session_dead s.

Lemma limits_facts l : limits_valid l = true ->
  1 <= sl_rekey_after_messages l <= sl_reject_after_messages l /\ sl_reject_after_messages l <= 2 ^ 33 /\
  1 <= sl_rekey_after_ms l <= sl_reject_after_ms l /\ sl_reject_after_ms l <= 3900000 /\
  pad_bucket_valid (sl_pad_bucket l) = true.
Proof.
  unfold limits_valid, SESSION_REJECT_AFTER_MESSAGES, SESSION_REJECT_AFTER_MS.
  rewrite !andb_true_iff, !Z.leb_le. intros H. destruct_and!. split_and!; done.
Qed.

Lemma terminate_dead s state why :
  (state = SESSION_STATE_EXPIRED \/ state = SESSION_STATE_FAILED) ->
  (exists k, ss_keys s = Some k /\ blen k = KEY_BLOCK_LEN) -> session_dead (terminate s state why).2.
Proof.
  intros Hs (k & Hk & Hl). split; [done|]. split; [|done]. cbn [terminate snd ss_keys]. rewrite Hk.
  cbn [secure_mem_wipe]. f_equal. apply poke_0_full. pose proof (length_zeros KEY_BLOCK_LEN ltac:(done)). lia.
Qed.

(** The session after one more record sent. *)
Definition after_seal s : session_t := ss_set_send_seq s (ss_send_seq s + 1).

(** The content argument of a call to [session_seal]. *)
Definition content_of (pt : option buffer) : list byte := default [] (buf_bytes <$> pt).

Definition record_len s (c : list byte) : Z :=
  inner_len_for (blen c) (sl_pad_bucket (ss_limits s)) + SESSION_OVERHEAD_BYTES.

Definition encryption s (c : list byte) : option (list byte) :=
  crypto_aead_encrypt (inner_of c (sl_pad_bucket (ss_limits s)))
    (build_ad (ss_handshake_id s) (ss_send_dir s) (ss_send_seq s)) (build_nonce (ss_send_seq s))
    (key_block_at s SEND_KEY_OFFSET).

(** The arguments of a call that is not misuse. *)
Definition seal_fits s (pt : option buffer) (o : buffer) (cap : Z) : bool :=
  (blen (content_of pt) <=? SESSION_MAX_CONTENT_BYTES) && (record_len s (content_of pt) <=? cap) &&
  negb (ranges_overlap (default 0 (buf_addr <$> pt)) (blen (content_of pt)) (buf_addr o) (record_len s (content_of pt))).

(** The four ways a call to [session_seal] can end. *)
Inductive seal_outcome s (fits : bool) c o len w : session_status_t * option session_t * option buffer * option Z -> Prop :=
  | seal_refused : fits = false -> seal_outcome s fits c o len w (SESSION_ERR_INVALID_ARG, Some s, Some o, len)
  | seal_expired :
      sl_reject_after_ms (ss_limits s) <= (session_age_ms s w).1 \/
        sl_reject_after_messages (ss_limits s) <= ss_send_seq s ->
      seal_outcome s fits c o len w
        (SESSION_ERR_EXPIRED, Some (terminate s SESSION_STATE_EXPIRED SESSION_ERR_EXPIRED).2, Some o, len)
  | seal_failed l :
      encryption s c = None ->
      seal_outcome s fits c o len w
        (SESSION_ERR_INTERNAL, Some (terminate (after_seal s) SESSION_STATE_FAILED SESSION_ERR_INTERNAL).2,
         Some (buf_set o (poke 0 (zeros (record_len s c)) l)), len)
  | seal_done ct :
      encryption s c = Some ct -> blen c <= SESSION_MAX_CONTENT_BYTES ->
      (session_age_ms s w).1 < sl_reject_after_ms (ss_limits s) ->
      ss_send_seq s < sl_reject_after_messages (ss_limits s) ->
      blen (record_header (ss_send_seq s) ++ ct) = record_len s c ->
      seal_outcome s fits c o len w
        (SESSION_OK, Some (after_seal s),
         Some (buf_set o (poke 0 (record_header (ss_send_seq s) ++ ct) (buf_bytes o))), Some (record_len s c)).

Lemma seal_cases s pt o cap len w r w' :
  session_active s ->
  session_seal (Some s) pt (blen (content_of pt)) (Some o) cap (Some len) w = (r, w') ->
  seal_outcome s (seal_fits s pt o cap) (content_of pt) o (Some len) w r.
Proof.
  intros Ha H. pose proof (limits_facts _ (sa_limits _ Ha)) as (Hlm & Hlm' & Hms & Hms' & Hb).
  unfold session_seal in H. fold (content_of pt) in H. rewrite take_all_z in H by done.
  rewrite (sa_state _ Ha), bool_decide_eq_true_2, Hb in H by done. change (negb true) with false in H. cbv iota in H.
  destruct (_ || _) eqn:E1 in H.
  { rewrite M_ret_unfold in H. injection H as <- _. constructor. unfold seal_fits. apply orb_true_iff in E1 as [E1|E1].
    - by destruct pt.
    - by rewrite Z.leb_antisym, E1. }
  apply orb_false_iff in E1 as [_ Hmax%Z.ltb_ge]. cbv zeta in H.
  destruct (_ || _) eqn:E2 in H.
  { rewrite M_ret_unfold in H. injection H as <- _. constructor. unfold seal_fits, record_len. apply orb_true_iff in E2 as [E2|E2].
    - by rewrite (Z.leb_antisym cap), E2, andb_false_r.
    - by rewrite E2, andb_false_r. }
  apply orb_false_iff in E2 as [Hcap%Z.ltb_ge _]. rewrite M_bind_unfold in H.
  destruct (_ || _) eqn:E3 in H.
  { unfold terminate in H. rewrite M_ret_unfold in H. injection H as <- <-. constructor. apply orb_true_iff in E3. lia. }
  apply orb_false_iff in E3 as [Hage%Z.leb_gt Hseq%Z.leb_gt]. pose proof (sa_send _ Ha) as Hsend.
  rewrite seal_assembles, (u64_small (ss_send_seq s + 1)) in H by (done || unfold UINT64_MAX; lia).
  fold (after_seal s) in H.
  rewrite peek_in_poke in H by (by rewrite ?length_record_header, ?length_inner_of).
  change (aead_encrypt _ _ _ _) with (encryption s (content_of pt)) in H.
  destruct (encryption s (content_of pt)) as [ct|] eqn:Eenc;
    [|cbn [terminate] in H; rewrite M_ret_unfold in H; injection H as <- _; by apply seal_failed].
  pose proof (aead_encrypt_len _ _ _ _ _ Eenc) as Hct. rewrite length_inner_of in Hct by done.
  rewrite (proj2 (Z.eqb_eq _ _)) in H by (unfold AEAD_TAG_BYTES; lia). cbn [negb] in H. rewrite M_ret_unfold in H.
  apply pair_equal_spec in H as [<- _]. rewrite poke_over by (rewrite ?length_record_header, ?length_inner_of; done || lia).
  apply seal_done; try done. rewrite length_app, Nat2Z.inj_add, length_record_header. unfold record_len. sesslia.
Qed.

(** ** Opening *)
Definition decryption s (ct : list byte) : option (list byte) :=
  crypto_aead_decrypt ct (build_ad (ss_handshake_id s) (ss_recv_dir s) (ss_recv_seq s)) (build_nonce (ss_recv_seq s))
    (key_block_at s RECV_KEY_OFFSET).

(** The session after one more record received. *)
Definition after_open s : session_t :=
  let s1 := ss_set_recv_seq s (ss_recv_seq s + 1) in
  if bool_decide (ss_role s = HANDSHAKE_ROLE_INITIATOR) then ss_set_confirmed s1 true else s1.

(** A well-formed inner plaintext carrying [c]. *)
Definition inner_carries (m c : list byte) : Prop :=
  exists pad, m = store_be16 (blen c) ++ c ++ zeros pad /\ 0 <= pad /\ blen c <= SESSION_MAX_CONTENT_BYTES.

(** A record that carries [c] at the number [s] expects next. *)
Definition openable s (rec c : list byte) : Prop :=
  exists ct m, rec = record_header (ss_recv_seq s) ++ ct /\ blen rec <= SESSION_MAX_RECORD_BYTES /\
    decryption s ct = Some m /\ inner_carries m c.

Definition open_fits (rec p : buffer) (cap : Z) : bool :=
  (blen (buf_bytes rec) - SESSION_OVERHEAD_BYTES <=? cap) &&
  negb (ranges_overlap (buf_addr rec) (blen (buf_bytes rec)) (buf_addr p)
    (if cap <? SESSION_MAX_PLAINTEXT_BYTES then cap else SESSION_MAX_PLAINTEXT_BYTES)).

(** The ways a call to [session_open] can end. *)
Inductive open_outcome s (fits : bool) (rec : list byte) (p : buffer) len w
    : session_status_t * option session_t * option buffer * option Z -> Prop :=
  | open_refused : fits = false -> open_outcome s fits rec p len w (SESSION_ERR_INVALID_ARG, Some s, Some p, len)
  | open_expired :
      sl_reject_after_ms (ss_limits s) <= (session_age_ms s w).1 ->
      open_outcome s fits rec p len w
        (SESSION_ERR_EXPIRED, Some (terminate s SESSION_STATE_EXPIRED SESSION_ERR_EXPIRED).2, Some p, len)
  | open_failed why l :
      match why with
      | SESSION_ERR_MALFORMED | SESSION_ERR_AUTH => forall c, ~ openable s rec c
      | SESSION_ERR_REPLAY => load_be64 (zdrop 1 rec) < ss_recv_seq s /\ l = buf_bytes p
      | SESSION_ERR_OUT_OF_ORDER => ss_recv_seq s < load_be64 (zdrop 1 rec) /\ l = buf_bytes p
      | SESSION_ERR_LIMIT => sl_reject_after_messages (ss_limits s) <= ss_recv_seq s /\ l = buf_bytes p
      | _ => False
      end ->
      l = buf_bytes p \/ (exists l', l = poke 0 (zeros (blen rec - SESSION_OVERHEAD_BYTES)) l') ->
      open_outcome s fits rec p len w
        (why, Some (terminate s SESSION_STATE_FAILED why).2, Some (buf_set p l), len)
  | open_done ct m c :
      fits = true -> rec = record_header (ss_recv_seq s) ++ ct -> blen rec <= SESSION_MAX_RECORD_BYTES ->
      decryption s ct = Some m -> inner_carries m c ->
      (session_age_ms s w).1 < sl_reject_after_ms (ss_limits s) ->
      ss_recv_seq s < sl_reject_after_messages (ss_limits s) ->
      open_outcome s fits rec p len w
        (SESSION_OK, Some (after_open s), Some (buf_set p (poke 0 (c ++ zeros (blen m - blen c)) (buf_bytes p))),
         Some (blen c)).

(** A record whose header passes the checks is the header followed by its body. *)
Lemma record_split rec seq :
  SESSION_MIN_RECORD_BYTES <= blen rec -> bz (byte_at rec 0) = SESSION_RECORD_TYPE -> load_be64 (zdrop 1 rec) = seq ->
  rec = record_header seq ++ zdrop SESSION_HEADER_BYTES rec.
Proof.
  intros Hl Hb <-. destruct rec as [|b rec]; [done|]. cbn in Hb. unfold load_be64, record_header, store_be64.
  change (zdrop 1 (b :: rec)) with rec. change (zdrop SESSION_HEADER_BYTES (b :: rec)) with (drop 8 rec).
  rewrite be_enc_dec; [|rewrite length_take; rewrite length_cons in Hl; sesslia].
  rewrite <-app_comm_cons. change (Z.to_nat 8) with 8%nat. rewrite take_drop. f_equal. symmetry. by apply u8_of_bz.
Qed.

(** The inner plaintext checks of [session_open]. *)
Lemma inner_split m :
  2 <= blen m <= SESSION_MAX_PLAINTEXT_BYTES -> load_be16 m <= blen m - 2 ->
  let n := load_be16 m in let pad := blen m - 2 - n in
  peek (2 + n) pad m = zeros pad -> inner_carries m (peek 2 n m) /\ blen (peek 2 n m) = n.
Proof.
  cbv zeta. intros Hm Hn Hz. rewrite load_be16_be in * by lia. pose proof (be_dec_range (ztake 2 m)) as Hr.
  assert (Hlen : blen (peek 2 (be_dec (ztake 2 m)) m) = be_dec (ztake 2 m)) by (apply length_peek; lia).
  split; [|done]. exists (blen m - 2 - be_dec (ztake 2 m)). rewrite Hlen. split; [|sesslia].
  rewrite store_be16_be, be_enc_dec by (rewrite length_take; lia). rewrite <-Hz.
  rewrite <-(take_drop 2 m) at 1. change (Z.to_nat 2) with 2%nat. f_equal.
  change (drop 2 m) with (zdrop 2 m). rewrite (zdrop_cut 2 (be_dec (take 2 m)) m (zdrop (2 + be_dec (take 2 m)) m));
    [|lia|apply Hr|done]. change (Z.to_nat 2) with 2%nat in *. f_equal. apply zdrop_end; lia.
Qed.

Lemma load_be16_poke m o : 2 <= blen m -> load_be16 (poke 0 m o) = load_be16 m.
Proof. intros H. destruct m as [|a [|b m]]; simpl in H; try lia. by rewrite poke_0. Qed.

(** The moves that leave the content at offset 0 and zeros behind it. *)
Lemma open_delivers m n o :
  2 <= blen m -> 0 <= n <= blen m - 2 ->
  let p1 := poke 0 m o in
  let p2 := if n =? 0 then p1 else poke 0 (peek 2 n p1) p1 in
  poke n (zeros (blen m - n)) p2 = poke 0 (peek 2 n m ++ zeros (blen m - n)) o.
Proof.
  intros Hm Hn. cbv zeta. assert (Hlen : blen (peek 2 n m) = n) by (apply length_peek; lia).
  rewrite peek_poke_0 by lia.
  assert ((if n =? 0 then poke 0 m o else poke 0 (peek 2 n m) (poke 0 m o)) = poke 0 (peek 2 n m) (poke 0 m o)) as ->.
  { destruct (Z.eqb_spec n 0); [subst|done]. by rewrite (nil_length_inv (peek 2 0 m)), poke_0 by lia. }
  rewrite poke_append by done. apply poke_poke. rewrite length_app, Nat2Z.inj_add, Hlen, length_zeros; lia.
Qed.

Lemma buf_set_same p : buf_set p (buf_bytes p) = p.
Proof. by destruct p. Qed.

Lemma inner_carries_checks m c :
  inner_carries m c -> load_be16 m = blen c /\ blen c <= blen m - 2 /\
    peek (2 + blen c) (blen m - 2 - blen c) m = zeros (blen m - 2 - blen c).
Proof.
  intros (pad & -> & Hp & Hc). rewrite store_be16_be, !length_app, !Nat2Z.inj_add, length_be_enc, length_zeros by done.
  rewrite load_be16_be by (rewrite length_app, length_be_enc; lia).
  split; [change (Z.to_nat 2) with (length (be_enc 2 (blen c))) at 1; rewrite take_app_length; apply be_dec_enc_small;
    change (256 ^ Z.of_nat 2) with 65536; sesslia|].
  split; [lia|]. rewrite peek_skip by (rewrite length_be_enc; lia). rewrite peek_skip by (rewrite length_be_enc; lia).
  rewrite length_be_enc. replace (Z.of_nat 2 + (blen c + pad) - 2 - blen c) with pad by lia.
  apply peek_all; [lia|by rewrite length_zeros].
Qed.

(** The same record opens to one plaintext only. *)
Lemma openable_inner s ct c :
  openable s (record_header (ss_recv_seq s) ++ ct) c -> exists m, decryption s ct = Some m /\ inner_carries m c.
Proof.
  intros (ct' & m & Heq & _ & Hd & Hc). apply app_inv_head in Heq as <-. by exists m.
Qed.

Lemma openable_header s rec c :
  openable s rec c -> 0 <= ss_recv_seq s < 2 ^ 64 ->
  SESSION_MIN_RECORD_BYTES <= blen rec <= SESSION_MAX_RECORD_BYTES /\ bz (byte_at rec 0) = SESSION_RECORD_TYPE /\
  load_be64 (zdrop 1 rec) = ss_recv_seq s.
Proof.
  intros (ct & m & -> & Hmax & Hd & (pad & -> & Hp & _)) Hs. apply aead_decrypt_len in Hd.
  rewrite !length_app, store_be16_be, !Nat2Z.inj_add, length_be_enc, length_zeros in Hd by done.
  rewrite length_app, Nat2Z.inj_add, length_record_header in *. split; [sesslia|]. split; [done|].
  unfold load_be64, record_header.
  change (zdrop 1 ((u8 SESSION_RECORD_TYPE :: store_be64 (ss_recv_seq s)) ++ ct)) with (store_be64 (ss_recv_seq s) ++ ct).
  unfold store_be64. change (Z.to_nat 8) with (length (be_enc 8 (ss_recv_seq s))) at 1. rewrite take_app_length.
  by apply be_dec_enc_small.
Qed.

Lemma open_inner s fits ct m p len w :
  let rec := record_header (ss_recv_seq s) ++ ct in
  fits = true -> blen rec <= SESSION_MAX_RECORD_BYTES ->
  2 <= blen m <= SESSION_MAX_PLAINTEXT_BYTES -> decryption s ct = Some m ->
  (session_age_ms s w).1 < sl_reject_after_ms (ss_limits s) ->
  ss_recv_seq s < sl_reject_after_messages (ss_limits s) ->
  load_be16 m <= blen m - 2 -> peek (2 + load_be16 m) (blen m - 2 - load_be16 m) m = zeros (blen m - 2 - load_be16 m) ->
  open_outcome s fits rec p len w
    (SESSION_OK, Some (after_open s),
     Some (buf_set p (poke 0 (peek 2 (load_be16 m) m ++ zeros (blen m - load_be16 m)) (buf_bytes p))),
     Some (load_be16 m)).
Proof.
  cbv zeta. intros Hfit Hmax Hm Hd Ha Hs Hn Hz. destruct (inner_split m Hm Hn Hz) as [Hc Hl].
  pose proof (open_done s fits _ p len w ct m _ Hfit eq_refl Hmax Hd Hc Ha Hs) as H. by rewrite Hl in H.
Qed.

Lemma open_cases s rec p cap len w r w' :
  session_active s -> session_open (Some s) (Some rec) (Some p) cap (Some len) w = (r, w') ->
  open_outcome s (open_fits rec p cap) (buf_bytes rec) p (Some len) w r.
Proof.
  intros Ha H. pose proof (limits_facts _ (sa_limits _ Ha)) as (Hlm & Hlm' & _). pose proof (sa_recv _ Ha) as Hrv.
  unfold session_open in H. cbv zeta in H. rewrite (sa_state _ Ha), (bool_decide_eq_true_2 (SESSION_STATE_ACTIVE = _)) in H by done.
  change (negb true) with false in H. cbv iota in H.
  set (bs := buf_bytes rec) in *.
  assert (H64 : 0 <= ss_recv_seq s < 2 ^ 64) by lia.
  destruct (ranges_overlap _ _ _ _) eqn:E0.
  { rewrite M_ret_unfold in H. apply pair_equal_spec in H as [<- _]. constructor. unfold open_fits. fold bs. by rewrite E0, andb_false_r. }
  rewrite M_bind_unfold in H.
  destruct (Z.leb_spec (sl_reject_after_ms (ss_limits s)) (session_age_ms s w).1) as [Hx|Hage].
  { cbn [terminate] in H. rewrite M_ret_unfold, buf_set_same in H. apply pair_equal_spec in H as [<- _]. by apply open_expired. }
  assert (Hfail : forall why l, ((why, Some (terminate s SESSION_STATE_FAILED why).2, Some (buf_set p l), Some len), (session_age_ms s w).2) = (r, w') ->
    r = (why, Some (terminate s SESSION_STATE_FAILED why).2, Some (buf_set p l), Some len)) by (by intros ?? [<- _]%pair_equal_spec).
  destruct (_ || _) eqn:E1 in H.
  { apply Hfail in H as ->. apply open_failed; [|by left]. intros c ([? ?] & Hty & _)%openable_header; [|done].
    rewrite Hty, Z.eqb_refl, orb_false_r, orb_true_iff, !Z.ltb_lt in E1. lia. }
  rewrite !orb_false_iff, negb_false_iff, Z.eqb_eq, !Z.ltb_ge in E1. destruct E1 as [[Hmin Hmax] Hty].
  destruct (Z.ltb_spec cap (blen bs - SESSION_OVERHEAD_BYTES)).
  { apply pair_equal_spec in H as [<- _]. constructor. unfold open_fits. fold bs. by rewrite (proj2 (Z.leb_gt _ _)). }
  destruct (Z.ltb_spec (load_be64 (zdrop 1 bs)) (ss_recv_seq s)); [apply Hfail in H as ->; apply open_failed; [done|by left]|].
  destruct (Z.ltb_spec (ss_recv_seq s) (load_be64 (zdrop 1 bs))); [apply Hfail in H as ->; apply open_failed; [done|by left]|].
  assert (Hseq : load_be64 (zdrop 1 bs) = ss_recv_seq s) by lia. rewrite Hseq in H.
  destruct (Z.leb_spec (sl_reject_after_messages (ss_limits s)) (ss_recv_seq s));
    [apply Hfail in H as ->; apply open_failed; [done|by left]|].
  pose proof (record_split bs _ Hmin Hty Hseq) as Hbs. set (ct := zdrop SESSION_HEADER_BYTES bs) in *.
  assert (Hct : blen ct = blen bs - 9) by (apply length_zdrop; sesslia).
  unfold aead_decrypt in H. rewrite (proj2 (Z.ltb_ge _ _)) in H by sesslia.
  change (crypto_aead_decrypt _ _ _ _) with (decryption s ct) in H.
  assert (Hin : forall c, openable s bs c -> exists m, decryption s ct = Some m /\ inner_carries m c)
    by (intros c; rewrite Hbs; apply openable_inner).
  destruct (decryption s ct) as [m|] eqn:Hdec;
    [|apply Hfail in H as ->; apply open_failed; [by intros c (? & ? & _)%Hin|right; by eexists]].
  pose proof (aead_decrypt_len _ _ _ _ _ Hdec) as Hml. assert (Hm : blen bs - SESSION_OVERHEAD_BYTES = blen m) by sesslia.
  rewrite Hm, Z.eqb_refl in H. change (negb true) with false in H. cbv iota in H.
  assert (2 <= blen m <= SESSION_MAX_PLAINTEXT_BYTES) as Hmr by sesslia.
  rewrite load_be16_poke in H by lia. change SESSION_CONTENT_LEN_BYTES with 2 in H.
  destruct (Z.ltb_spec (blen m - 2) (load_be16 m)).
  { apply Hfail in H as ->. apply open_failed; [|right; rewrite Hm; by eexists].
    intros c (m' & [= <-] & (? & ? & _)%inner_carries_checks)%Hin. lia. }
  assert (0 <= load_be16 m) by (rewrite load_be16_be by lia; apply be_dec_range).
  rewrite peek_poke_0 in H by lia.
  destruct (_ && _) eqn:E2 in H.
  { apply Hfail in H as ->. apply open_failed; [|right; rewrite Hm; by eexists].
    intros c (m' & [= <-] & (Hn & _ & Hz)%inner_carries_checks)%Hin. rewrite <-Hn in Hz.
    apply andb_true_iff in E2 as [_ E2]. by rewrite Hz, bool_decide_eq_true_2 in E2. }
  rewrite (open_delivers m (load_be16 m) (buf_bytes p)) in H by lia. rewrite u64_small in H by (unfold UINT64_MAX; lia).
  apply pair_equal_spec in H as [<- _]. rewrite Hbs. apply open_inner; try done; [|by rewrite <-Hbs|].
  { unfold open_fits. fold bs. by rewrite E0, (proj2 (Z.leb_le _ _)). }
  apply andb_false_iff in E2 as [E2|E2]; rewrite negb_false_iff in E2; [|by apply bool_decide_eq_true in E2].
  apply Z.eqb_eq in E2. rewrite E2. done.
Qed.

(** ** Operations and runs *)
Inductive session_op :=
  | OpSeal (pt out : option buffer) (cap : Z) (len : option Z)
  | OpOpen (rec out : option buffer) (cap : Z) (len : option Z).

(** The bytes a successful call hands out: the record, or the content. *)
Definition handed_out (st : session_status_t) (out : option buffer) (len : option Z) : option (list byte) :=
  match st, out, len with SESSION_OK, Some o, Some n => Some (ztake n (buf_bytes o)) | _, _, _ => None end.

Definition exec_sop (op : session_op) (s : option session_t)
    : M (session_status_t * option session_t * option (list byte)) :=
  r ← match op with
      | OpSeal pt out cap len => session_seal s pt (blen (content_of pt)) out cap len
      | OpOpen rec out cap len => session_open s rec out cap len
      end;
  let '(st, s', out, len) := r in mret (st, s', handed_out st out len).

Fixpoint run_sops (ops : list session_op) (s : option session_t)
    : M (list (session_op * session_status_t * option (list byte)) * option session_t) :=
  match ops with
  | [] => mret ([], s)
  | op :: ops =>
    r ← exec_sop op s;
    let '(st, s', out) := r in
    rest ← run_sops ops s';
    mret ((op, st, out) :: rest.1, rest.2)
  end.

Definition misuse (st : session_status_t) : Prop :=
  st = SESSION_ERR_INVALID_ARG \/ st = SESSION_ERR_UNEXPECTED_STATE.

(** One operation on an active session. *)
Inductive session_step s w : session_op -> session_status_t -> session_t -> option (list byte) -> Prop :=
  | step_refused op : session_step s w op SESSION_ERR_INVALID_ARG s None
  | step_stopped op st s' :
      st <> SESSION_OK -> ~ misuse st -> session_dead s' ->
      ss_state s' = (if bool_decide (st = SESSION_ERR_EXPIRED) then SESSION_STATE_EXPIRED else SESSION_STATE_FAILED) ->
      session_step s w op st s' None
  | step_sealed pt out cap len ct :
      encryption s (content_of pt) = Some ct -> blen (content_of pt) <= SESSION_MAX_CONTENT_BYTES ->
      (session_age_ms s w).1 < sl_reject_after_ms (ss_limits s) ->
      ss_send_seq s < sl_reject_after_messages (ss_limits s) ->
      blen (record_header (ss_send_seq s) ++ ct) = record_len s (content_of pt) ->
      session_step s w (OpSeal pt out cap len) SESSION_OK (after_seal s) (Some (record_header (ss_send_seq s) ++ ct))
  | step_opened rec out cap len ct m c :
      buf_bytes rec = record_header (ss_recv_seq s) ++ ct -> decryption s ct = Some m -> inner_carries m c ->
      (session_age_ms s w).1 < sl_reject_after_ms (ss_limits s) ->
      ss_recv_seq s < sl_reject_after_messages (ss_limits s) ->
      session_step s w (OpOpen (Some rec) out cap len) SESSION_OK (after_open s) (Some c).

Lemma sop_step op s w st os out w' :
  session_active s -> exec_sop op (Some s) w = ((st, os, out), w') ->
  exists s', os = Some s' /\ session_step s w op st s' out.
Proof.
  intros Ha H. unfold exec_sop in H. rewrite M_bind_unfold in H.
  assert (Hdead : forall s1 state, (exists k, ss_keys s1 = Some k /\ blen k = KEY_BLOCK_LEN) ->
    (state = SESSION_STATE_EXPIRED \/ state = SESSION_STATE_FAILED) -> session_dead (terminate s1 state SESSION_OK).2).
  { intros. by apply terminate_dead. }
  pose proof (sa_keys _ Ha) as Hk. destruct op as [pt o cap len|rec o cap len].
  - destruct o as [o|], len as [len|];
      [|cbn in H; injection H as <- <- <- _; eexists; split; [done|constructor]..].
    destruct (session_seal (Some s) pt _ (Some o) cap (Some len) w) as [r w1] eqn:He. cbn [fst snd] in H.
    apply seal_cases in He; [|done]. destruct He as [Hx|Hx|l Hx|ct Hx Hc Hage Hs Hlen]; cbn [handed_out] in H;
      rewrite M_ret_unfold in H; apply pair_equal_spec in H as [H _]; injection H as <- <- <-; eexists; (split; [done|]).
    + constructor.
    + constructor; [done|by intros [|]| |done]. apply (Hdead s); auto.
    + constructor; [done|by intros [|]| |done]. apply (Hdead (after_seal s)); auto.
    + cbn [buf_bytes buf_set]. rewrite <-Hlen, take_poke_0. by constructor.
  - destruct rec as [rec|], o as [o|], len as [len|];
      [|cbn in H; injection H as <- <- <- _; eexists; split; [done|constructor]..].
    destruct (session_open (Some s) (Some rec) (Some o) cap (Some len) w) as [r w1] eqn:He. cbn [fst snd] in H.
    apply open_cases in He; [|done]. destruct He as [Hx|Hx|why l Hx _|ct m c _ Hr _ Hd Hc Hage Hs]; cbn [handed_out] in H.
    + rewrite M_ret_unfold in H. apply pair_equal_spec in H as [H _]; injection H as <- <- <-. eexists. split; [done|constructor].
    + rewrite M_ret_unfold in H. apply pair_equal_spec in H as [H _]; injection H as <- <- <-. eexists. split; [done|].
      constructor; [done|by intros [|]| |done]. apply (Hdead s); auto.
    + rewrite M_ret_unfold in H. apply pair_equal_spec in H as [H _]; injection H as <- <- <-. eexists. split; [done|].
      assert (handed_out why (Some (buf_set o l)) (Some len) = None) as -> by (by destruct why).
      constructor; [by intros ->|intros [-> | ->]; done| |by destruct why]. apply (Hdead s); auto.
    + rewrite M_ret_unfold in H. apply pair_equal_spec in H as [H _]; injection H as <- <- <-. eexists. split; [done|].
      cbn [buf_bytes buf_set]. rewrite poke_0, <-app_assoc, Nat2Z.id, take_app_length. by eapply step_opened.
Qed.

(** ** The hand-off *)

(** The session a handshake hands its keys to. *)
Definition session_of (role : handshake_role_t) (c2s s2c hid : list byte) (now : Z) (l : session_limits_t) (fn : M Z)
    : session_t :=
  let initiator := bool_decide (role = HANDSHAKE_ROLE_INITIATOR) in
  Session SESSION_STATE_ACTIVE role (negb initiator) (Some (if initiator then c2s ++ s2c else s2c ++ c2s))
    (send_dir_of role) (recv_dir_of role) hid 0 0 now l (Some fn).

Definition effective_limits (limits : option session_limits_t) : session_limits_t := default default_limits limits.

Inductive init_outcome s c limits clock ps
    : session_status_t * option session_t * option handshake_ctx_t * option handshake_pending_store_t -> Prop :=
  | init_refused st : st <> SESSION_OK -> init_outcome s c limits clock ps (st, Some s, Some c, ps)
  | init_done k1 k2 now :
      ss_state s = SESSION_STATE_EMPTY -> ss_keys s = None ->
      ctx_live c -> hc_state c = HANDSHAKE_STATE_ESTABLISHED ->
      handshake_session_key_c2s (Some c) = (HANDSHAKE_OK, Some k1) ->
      handshake_session_key_s2c (Some c) = (HANDSHAKE_OK, Some k2) -> blen k1 = 32 -> blen k2 = 32 ->
      limits_valid (effective_limits limits) = true -> now <> UINT64_MAX ->
      init_outcome s c limits clock ps
        (SESSION_OK, Some (session_of (hc_role c) k1 k2 (hc_handshake_id c) now (effective_limits limits)
           (default handshake_default_clock_ms clock)), Some ctx_failed_zero, ps).

Lemma wipe_established c ps w :
  hc_state c = HANDSHAKE_STATE_ESTABLISHED -> handshake_ctx_wipe (Some c) ps w = ((Some ctx_failed_zero, ps), w).
Proof. intros Hs. unfold handshake_ctx_wipe. rewrite Hs, andb_comm. by destruct (hc_pending c), (bool_decide _). Qed.

Lemma key_block_filled k a b :
  blen k = KEY_BLOCK_LEN -> blen a = 32 -> blen b = 32 -> poke RECV_KEY_OFFSET b (poke SEND_KEY_OFFSET a k) = a ++ b.
Proof.
  intros. unfold SEND_KEY_OFFSET. rewrite poke_append by done. apply poke_0_full. rewrite length_app. sesslia.
Qed.

(** What the accessors say of an established context. *)
Lemma established_reads c :
  ctx_live c -> hc_state c = HANDSHAKE_STATE_ESTABLISHED ->
  exists k1 k2, handshake_get_role (Some c) (Some HANDSHAKE_ROLE_NONE) = (HANDSHAKE_OK, Some (hc_role c)) /\
    handshake_session_key_c2s (Some c) = (HANDSHAKE_OK, Some k1) /\
    handshake_session_key_s2c (Some c) = (HANDSHAKE_OK, Some k2) /\
    handshake_get_handshake_id (Some c) = (HANDSHAKE_OK, hc_handshake_id c) /\ blen k1 = 32 /\ blen k2 = 32 /\
    (bool_decide (hc_role c = HANDSHAKE_ROLE_RESPONDER) && negb (handshake_is_peer_confirmed (Some c))) = false.
Proof.
  intros Hl He. pose proof (session_keys_split c Hl) as Hk. pose proof (cs_role _ (cl_sized _ Hl)) as Hr.
  pose proof (cl_committed _ Hl) as Hc. rewrite He in Hc.
  destruct (handshake_session_key_c2s (Some c)) as [[] [k1|]]; try done;
    destruct (handshake_session_key_s2c (Some c)) as [[] [k2|]]; try done. destruct Hk as (_ & H1 & H2 & _).
  exists k1, k2. unfold handshake_get_role, handshake_get_handshake_id, handshake_is_peer_confirmed. rewrite He, Hc.
  split; [by destruct (hc_role c)|]. split_and!; try done. by destruct (hc_role c).
Qed.

Lemma init_cases s c limits clock ps w r w' :
  ctx_inv c -> session_init_from_handshake (Some s) (Some c) limits clock ps w = (r, w') ->
  init_outcome s c limits clock ps r.
Proof.
  intros Hinv H. unfold session_init_from_handshake in H.
  destruct (_ || _) eqn:E1 in H; [rewrite M_ret_unfold in H; apply pair_equal_spec in H as [<- _]; by constructor|].
  apply orb_false_iff in E1 as [Hst%negb_false_iff%bool_decide_eq_true Hk].
  destruct (match limits with Some l => _ | None => _ end) eqn:E2;
    [rewrite M_ret_unfold in H; apply pair_equal_spec in H as [<- _]; by constructor|].
  assert (Hlim : limits_valid (effective_limits limits) = true) by (destruct limits; [by apply negb_false_iff in E2|done]).
  assert (match limits with Some l => l | None => default limits_zero (session_default_limits (Some limits_zero)) end
    = effective_limits limits) as Heff by (by destruct limits).
  rewrite Heff in H. clear Heff E2. destruct (decide (hc_state c = HANDSHAKE_STATE_ESTABLISHED)) as [He|Hne]; cycle 1.
  { cbn [handshake_get_state] in H.
    destruct (hc_state c); try done; rewrite M_ret_unfold in H; apply pair_equal_spec in H as [<- _]; by constructor. }
  destruct Hinv as [->|Hl]; [done|]. destruct (established_reads c Hl He) as (k1 & k2 & Hr & H1 & H2 & Hh & Hl1 & Hl2 & Hc).
  cbn [handshake_get_state] in H. rewrite He, Hr, H1, H2, Hh, Hc in H. cbv zeta in H.
  rewrite M_bind_unfold in H. set (fn := default handshake_default_clock_ms clock) in *.
  destruct (Z.eqb_spec (fn w).1 UINT64_MAX); [rewrite M_ret_unfold in H; apply pair_equal_spec in H as [<- _]; by constructor|].
  rewrite M_bind_unfold in H. destruct (secure_mem_alloc KEY_BLOCK_LEN (fn w).2) as [[keys|] w1] eqn:Ek; cbn [fst snd] in H;
    [|rewrite M_ret_unfold in H; apply pair_equal_spec in H as [<- _]; by constructor].
  rewrite M_bind_unfold, wipe_established in H by done. cbn [fst snd] in H. rewrite M_ret_unfold in H.
  apply pair_equal_spec in H as [<- _]. apply sodium_malloc_len in Ek; [|done].
  rewrite key_block_filled; [|exact Ek|by destruct (bool_decide (hc_role c = HANDSHAKE_ROLE_INITIATOR))..].
  assert (Hd : init_outcome s c limits clock ps (SESSION_OK, Some (session_of (hc_role c) k1 k2 (hc_handshake_id c) (fn w).1
    (effective_limits limits) fn), Some ctx_failed_zero, ps)).
  { apply init_done; try done. by destruct (ss_keys s). }
  unfold session_of, send_dir_of, recv_dir_of in Hd. by destruct (bool_decide (hc_role c = HANDSHAKE_ROLE_INITIATOR)).
Qed.

(** ** Reachable sessions *)
Inductive session_reachable : session_t -> Prop :=
  | sr_zero : session_reachable session_zero
  | sr_init s c limits clock ps w st s' oc ps' w' :
      session_reachable s -> reachable c ->
      session_init_from_handshake (Some s) (Some c) limits clock ps w = ((st, Some s', oc, ps'), w') ->
      session_reachable s'
  | sr_op s op w st s' out w' :
      session_reachable s -> exec_sop op (Some s) w = ((st, Some s', out), w') -> session_reachable s'
  | sr_wipe s s' : session_reachable s -> session_wipe (Some s) = Some s' -> session_reachable s'.

Lemma after_seal_active s :
  session_active s -> ss_send_seq s < sl_reject_after_messages (ss_limits s) -> session_active (after_seal s).
Proof. intros [] Hlt. split; try done. cbn. lia. Qed.

Lemma after_open_active s :
  session_active s -> ss_recv_seq s < sl_reject_after_messages (ss_limits s) -> session_active (after_open s).
Proof.
  intros Ha Hlt. pose proof (sa_recv _ Ha). unfold after_open. case_bool_decide as Hr; destruct Ha; split; cbn; try done; try lia.
  intros _. by rewrite bool_decide_eq_true_2 by lia.
Qed.

Lemma step_active_or_dead s w op st s' out :
  session_active s -> session_step s w op st s' out -> session_active s' \/ session_dead s'.
Proof.
  intros Ha [| | |]; [by left|by right|left|left]; [by apply after_seal_active|by apply after_open_active].
Qed.

Lemma sop_inactive op s w :
  ss_state s <> SESSION_STATE_ACTIVE -> exists st, misuse st /\ exec_sop op (Some s) w = ((st, Some s, None), w).
Proof.
  intros Hs. unfold exec_sop. rewrite M_bind_unfold. destruct op as [pt [o|] cap [len|]|[rec|] [o|] cap [len|]];
    unfold session_seal, session_open; try (eexists; split; [|reflexivity]; by left).
  - destruct (_ || _); [eexists; split; [|reflexivity]; by left|]. rewrite bool_decide_eq_false_2 by done.
    eexists; split; [|reflexivity]; by right.
  - cbv zeta. destruct (ranges_overlap _ _ _ _); [eexists; split; [|reflexivity]; by left|].
    rewrite bool_decide_eq_false_2 by done. eexists; split; [|reflexivity]; by right.
Qed.

Lemma session_of_active role k1 k2 hid now l fn :
  role = HANDSHAKE_ROLE_INITIATOR \/ role = HANDSHAKE_ROLE_RESPONDER -> blen k1 = 32 -> blen k2 = 32 ->
  blen hid = WIRE_HANDSHAKE_ID_LEN -> limits_valid l = true -> session_active (session_of role k1 k2 hid now l fn).
Proof.
  intros Hr H1 H2 Hh Hl. pose proof (limits_facts _ Hl) as (? & _). unfold session_of. split; cbn; try done; try lia.
  - eexists. split; [done|]. case_bool_decide; rewrite length_app; sesslia.
  - by intros ->.
  - by intros ->.
Qed.

Lemma session_reachable_inv s : session_reachable s -> session_inv s.
Proof.
  induction 1 as [|s c limits clock ps w st s' oc ps' w' _ IH Hc Hi|s op w st s' out w' _ IH He|s s' _ _ Hw].
  - by left.
  - apply reachable_inv in Hc. apply init_cases in Hi; [|done]. inversion Hi; subst; [done|].
    right. left. apply session_of_active; try done.
    + match goal with H : ctx_live c |- _ => pose proof (cs_role _ (cl_sized _ H)) end. destruct (hc_role c); auto; done.
    + match goal with H : ctx_live c |- _ => apply (cs_hid _ (cl_sized _ H)) end.
  - destruct (decide (ss_state s = SESSION_STATE_ACTIVE)) as [Hs|Hs].
    + assert (session_active s) as Ha by (destruct IH as [->|[|[[] _]]]; done || congruence).
      apply sop_step in He as (s1 & [= <-] & Hst); [|done]. right. by eapply step_active_or_dead.
    + destruct (sop_inactive op s w Hs) as (st' & _ & He'). rewrite He' in He. by injection He as <- <- _ _.
  - injection Hw as <-. by left.
Qed.

Lemma reachable_active s : session_reachable s -> ss_state s = SESSION_STATE_ACTIVE -> session_active s.
Proof. intros [->|[|[[] _]]]%session_reachable_inv Hs; done || congruence. Qed.

(** ** What a run sends and receives *)
Definition sent_of (e : session_op * session_status_t * option (list byte)) : option (list byte * list byte) :=
  match e with (OpSeal pt _ _ _, SESSION_OK, Some r) => Some (content_of pt, r) | _ => None end.
Definition got_of (e : session_op * session_status_t * option (list byte)) : option (list byte * list byte) :=
  match e with (OpOpen (Some rec) _ _ _, SESSION_OK, Some c) => Some (c, buf_bytes rec) | _ => None end.

(** The content and record pairs of the successful calls, in order. *)
Definition sent log : list (list byte * list byte) := omap sent_of log.
Definition got log : list (list byte * list byte) := omap got_of log.

(** [r] is the record number [seq] that [s] makes of [c]. *)
Definition sealed_as s (seq : Z) (cr : list byte * list byte) : Prop :=
  exists ct, cr.2 = record_header seq ++ ct /\ blen cr.1 <= SESSION_MAX_CONTENT_BYTES /\
    crypto_aead_encrypt (inner_of cr.1 (sl_pad_bucket (ss_limits s))) (build_ad (ss_handshake_id s) (ss_send_dir s) seq)
      (build_nonce seq) (key_block_at s SEND_KEY_OFFSET) = Some ct.

(** [r] is a record number [seq] that [s] opens to [c]. *)
Definition opened_as s (seq : Z) (cr : list byte * list byte) : Prop :=
  exists ct m, cr.2 = record_header seq ++ ct /\ inner_carries m cr.1 /\
    crypto_aead_decrypt ct (build_ad (ss_handshake_id s) (ss_recv_dir s) seq) (build_nonce seq)
      (key_block_at s RECV_KEY_OFFSET) = Some m.

Lemma session_run_cons op ops s w log os w' :
  run_sops (op :: ops) (Some s) w = ((log, os), w') ->
  exists st os1 out w1 log', exec_sop op (Some s) w = ((st, os1, out), w1) /\
    run_sops ops os1 w1 = ((log', os), w') /\ log = (op, st, out) :: log'.
Proof.
  cbn [run_sops]. rewrite M_bind_unfold. destruct (exec_sop op (Some s) w) as [[[st s1] out] w1]. cbn [fst snd].
  rewrite M_bind_unfold. destruct (run_sops ops s1 w1) as [[log' os'] w2] eqn:E2. cbn [fst snd]. rewrite M_ret_unfold.
  intros [= <- <- <-]. by eexists _, _, _, _, _.
Qed.

(** Once not ACTIVE, a session only refuses. *)
Lemma run_inactive ops s w log os w' :
  ss_state s <> SESSION_STATE_ACTIVE -> run_sops ops (Some s) w = ((log, os), w') ->
  os = Some s /\ w' = w /\ Forall (fun e => misuse e.1.2 /\ e.2 = None) log.
Proof.
  intros Hs. revert log. induction ops as [|op ops IH]; intros log H.
  - cbn in H. injection H as <- <- <-. done.
  - apply session_run_cons in H as (st & s1 & out & w1 & log' & He & Hr & ->).
    destruct (sop_inactive op s w Hs) as (st' & Hm & He'). rewrite He' in He. injection He as <- <- <- <-.
    apply IH in Hr as (-> & -> & Hf). split_and!; try done. by constructor.
Qed.

Lemma refused_log log :
  Forall (fun e : session_op * session_status_t * option (list byte) => misuse e.1.2 /\ e.2 = None) log ->
  sent log = [] /\ got log = [].
Proof.
  induction 1 as [|[[op st] out] log [Hm Ho] _ [IH1 IH2]]; [done|]. simpl in Hm, Ho. subst out.
  unfold sent, got in *. cbn [omap list_omap sent_of got_of]. destruct op as [| [|]], st; done.
Qed.

(** What was accepted had been offered. *)
Lemma got_offered ops os0 w log os w' i cr :
  run_sops ops os0 w = ((log, os), w') -> got log !! i = Some cr ->
  exists rec out cap len, OpOpen (Some rec) out cap len ∈ ops /\ cr.2 = buf_bytes rec.
Proof.
  revert os0 w log i. induction ops as [|op ops IH]; intros os0 w log i H Hi; [by injection H as <- _ _|].
  cbn [run_sops] in H. rewrite M_bind_unfold in H. destruct (exec_sop op os0 w) as [[[st s1] out] w1]. cbn [fst snd] in H.
  rewrite M_bind_unfold in H. destruct (run_sops ops s1 w1) as [[log' os'] w2] eqn:E2. injection H as <- <- <-.
  assert (Hrest : forall j, got log' !! j = Some cr -> exists rec out cap len,
    OpOpen (Some rec) out cap len ∈ op :: ops /\ cr.2 = buf_bytes rec).
  { intros j Hj. destruct (IH _ _ _ _ E2 Hj) as (rec & o & cap & len & Hin & Hcr). exists rec, o, cap, len. by split; [right|]. }
  unfold got in Hi. cbn [omap list_omap fst] in Hi. destruct (got_of _) as [cr'|] eqn:Eg; [|by eapply Hrest].
  destruct i as [|i]; [|by eapply (Hrest i)]. injection Hi as ->.
  destruct op as [|[rec|] o cap len], st, out; try done. injection Eg as <-. exists rec, o, cap, len. by split; [left|].
Qed.

Lemma dead_not_active s : session_dead s -> ss_state s <> SESSION_STATE_ACTIVE.
Proof. intros [[] _]; congruence. Qed.

Lemma run_traffic ops s w log os w' :
  session_active s -> run_sops ops (Some s) w = ((log, os), w') ->
  (forall i cr, sent log !! i = Some cr -> sealed_as s (ss_send_seq s + Z.of_nat i) cr) /\
  (forall i cr, got log !! i = Some cr -> opened_as s (ss_recv_seq s + Z.of_nat i) cr) /\
  ss_send_seq s + blen (sent log) <= sl_reject_after_messages (ss_limits s) /\
  ss_recv_seq s + blen (got log) <= sl_reject_after_messages (ss_limits s).
Proof.
  revert s w log. induction ops as [|op ops IH]; intros s w log Ha H.
  { cbn in H. injection H as <- _ _. pose proof (sa_send _ Ha). pose proof (sa_recv _ Ha). cbn. split_and!; done || lia. }
  apply session_run_cons in H as (st & os1 & out & w1 & log' & He & Hr & ->).
  apply sop_step in He as (s1 & -> & Hstep); [|done].
  destruct Hstep as [op|op st s1 Hst Hm Hd _|pt o cap len ct Henc Hc _ Hseq _|rec o cap len ct m c Hrec Hdec Hin _ Hseq].
  - assert (sent ((op, SESSION_ERR_INVALID_ARG, None) :: log') = sent log') as -> by (by destruct op as [| [|]]).
    assert (got ((op, SESSION_ERR_INVALID_ARG, None) :: log') = got log') as -> by (by destruct op as [| [|]]). by eapply IH.
  - apply run_inactive in Hr as (_ & _ & Hf%refused_log); [|by apply dead_not_active]. destruct Hf as [Hf1 Hf2].
    assert (sent ((op, st, None) :: log') = sent log') as -> by (by destruct op as [| [|]], st).
    assert (got ((op, st, None) :: log') = got log') as -> by (by destruct op as [| [|]], st).
    rewrite Hf1, Hf2. pose proof (sa_send _ Ha). pose proof (sa_recv _ Ha). cbn. split_and!; done || lia.
  - apply IH in Hr as (H1 & H2 & H3 & H4); [|by apply after_seal_active]. cbn in H3, H4.
    change (sent ((OpSeal pt o cap len, _, _) :: log')) with ((content_of pt, record_header (ss_send_seq s) ++ ct) :: sent log').
    change (got ((OpSeal pt o cap len, _, _) :: log')) with (got log'). cbn [length]. split_and!; try done; try lia.
    intros [|i] cr; cbn [lookup list_lookup].
    + intros [= <-]. exists ct. rewrite Z.add_0_r. done.
    + intros Hi. apply H1 in Hi. cbn in Hi. replace (ss_send_seq s + Z.of_nat (S i)) with (ss_send_seq s + 1 + Z.of_nat i) by lia. done.
  - apply IH in Hr as (H1 & H2 & H3 & H4); [|by apply after_open_active].
    assert (ss_recv_seq (after_open s) = ss_recv_seq s + 1 /\ ss_send_seq (after_open s) = ss_send_seq s /\
      ss_limits (after_open s) = ss_limits s) as (Hrs & Hss & Hls) by (unfold after_open; by case_bool_decide).
    assert (forall q cr, opened_as (after_open s) q cr -> opened_as s q cr) as Hmono by (unfold after_open; by case_bool_decide).
    assert (forall q cr, sealed_as (after_open s) q cr -> sealed_as s q cr) as Hmono' by (unfold after_open; by case_bool_decide).
    rewrite Hrs, Hss, Hls in *. change (sent ((OpOpen (Some rec) o cap len, _, _) :: log')) with (sent log').
    change (got ((OpOpen (Some rec) o cap len, _, Some c) :: log')) with ((c, buf_bytes rec) :: got log').
    cbn [length]. split_and!; try lia; [eauto|]. intros [|i] cr; cbn [lookup list_lookup].
    + intros [= <-]. exists ct, m. rewrite Z.add_0_r. done.
    + intros Hi. apply H2, Hmono in Hi. by replace (ss_recv_seq s + Z.of_nat (S i)) with (ss_recv_seq s + 1 + Z.of_nat i) by lia.
Qed.

(** ** Two ends of one direction *)
Record linked (a b : session_t) : Prop := {
  ln_key : key_block_at a SEND_KEY_OFFSET = key_block_at b RECV_KEY_OFFSET;
  ln_hid : ss_handshake_id a = ss_handshake_id b;
  ln_dir : ss_send_dir a = ss_recv_dir b;
  ln_seq : ss_send_seq a = ss_recv_seq b }.

Lemma inner_carries_inj m c1 c2 : inner_carries m c1 -> inner_carries m c2 -> c1 = c2.
Proof.
  intros (p1 & H1 & _ & L1) (p2 & H2 & _ & L2). rewrite H1 in H2. rewrite !store_be16_be in H2.
  apply app_inj_1 in H2 as [Hlen H2]; [|by rewrite !length_be_enc].
  apply be_enc_inj in Hlen; [|change (256 ^ Z.of_nat 2) with 65536; sesslia..].
  by apply app_inj_1 in H2 as [-> _]; [|lia].
Qed.

Lemma inner_of_carries c b :
  blen c <= SESSION_MAX_CONTENT_BYTES -> pad_bucket_valid b = true -> inner_carries (inner_of c b) c.
Proof.
  intros Hc Hb. destruct (inner_len_spec (blen c) b) as [? _]; [lia|done|]. unfold inner_of. eexists. split; [done|]. lia.
Qed.

Lemma record_header_inj q1 q2 (t1 t2 : list byte) :
  0 <= q1 < 2 ^ 64 -> 0 <= q2 < 2 ^ 64 -> record_header q1 ++ t1 = record_header q2 ++ t2 -> q1 = q2 /\ t1 = t2.
Proof.
  intros H1 H2 H. apply app_inj_1 in H as [Hh Ht]; [|pose proof (length_record_header q1); pose proof (length_record_header q2); lia].
  split; [|done]. apply (f_equal tail) in Hh. by apply be_enc_inj in Hh.
Qed.

Lemma build_nonce_inj q1 q2 : 0 <= q1 < 2 ^ 64 -> 0 <= q2 < 2 ^ 64 -> build_nonce q1 = build_nonce q2 -> q1 = q2.
Proof. intros H1 H2 H. apply app_inj_1 in H as [_ H]; [|done]. by apply be_enc_inj in H. Qed.

(** What the sender sealed under a number, the receiver of that number opens to
    the same content. *)
Lemma sealed_opened `{EC : !EnvCrypto E} a b q cr cr' :
  linked a b -> limits_valid (ss_limits a) = true -> 0 <= q < 2 ^ 64 ->
  sealed_as a q cr -> opened_as b q cr' -> cr'.2 = cr.2 -> cr'.1 = cr.1.
Proof.
  intros [Hk Hh Hd _] Hl Hq (ct & Hr & Hc & He) (ct' & m & Hr' & Hm & Hdec) Heq.
  rewrite Hr, Hr' in Heq. apply record_header_inj in Heq as [_ ->]; [|done..].
  rewrite Hk, Hh, Hd in He. apply aead_correct in He. rewrite He in Hdec. injection Hdec as <-.
  eapply inner_carries_inj; [done|]. apply inner_of_carries; [done|]. by apply limits_facts.
Qed.

(** ** Calls that succeed *)
Lemma step_sealed_facts s w op st s' out :
  session_step s w op st s' out ->
  match op, st, out with
  | OpSeal pt _ _ _, SESSION_OK, Some rec =>
      blen rec = record_len s (content_of pt) /\ blen (content_of pt) <= SESSION_MAX_CONTENT_BYTES /\
      (session_age_ms s w).1 < sl_reject_after_ms (ss_limits s) /\
      ss_send_seq s < sl_reject_after_messages (ss_limits s)
  | _, _, _ => True
  end.
Proof. intros [[] |[] []| |]; done. Qed.

Lemma key_block_len s off : session_active s -> off = SEND_KEY_OFFSET \/ off = RECV_KEY_OFFSET -> blen (key_block_at s off) = 32.
Proof.
  intros Ha Ho. destruct (sa_keys _ Ha) as (k & Hk & Hl). unfold key_block_at. rewrite Hk. cbn [default id].
  apply length_peek; destruct Ho; sesslia.
Qed.

Lemma seal_succeeds `{EU : !EnvUp E} s pt o cap n w :
  session_active s -> seal_fits s pt o cap = true -> (session_age_ms s w).1 < sl_reject_after_ms (ss_limits s) ->
  ss_send_seq s < sl_reject_after_messages (ss_limits s) ->
  exists ct w', encryption s (content_of pt) = Some ct /\ blen (record_header (ss_send_seq s) ++ ct) = record_len s (content_of pt) /\
    exec_sop (OpSeal pt (Some o) cap (Some n)) (Some s) w =
      ((SESSION_OK, Some (after_seal s), Some (record_header (ss_send_seq s) ++ ct)), w').
Proof.
  intros Ha Hf Hage Hseq. unfold exec_sop. rewrite M_bind_unfold.
  destruct (session_seal (Some s) pt _ (Some o) cap (Some n) w) as [r w'] eqn:He. cbn [fst snd].
  apply seal_cases in He; [|done]. destruct He as [Hx|Hx|l Hx|ct Hx _ _ _ Hlen]; [congruence|lia| |].
  - destruct (up_aead (inner_of (content_of pt) (sl_pad_bucket (ss_limits s)))
      (build_ad (ss_handshake_id s) (ss_send_dir s) (ss_send_seq s)) (build_nonce (ss_send_seq s))
      (key_block_at s SEND_KEY_OFFSET)) as [ct Hct]; [done|by apply key_block_len; [|left]|].
    unfold encryption in Hx. congruence.
  - exists ct, w'. split; [done|]. split; [done|]. cbn [handed_out buf_bytes buf_set]. by rewrite <-Hlen, take_poke_0.
Qed.

Lemma open_succeeds s rec p cap n c w :
  session_active s -> open_fits rec p cap = true -> (session_age_ms s w).1 < sl_reject_after_ms (ss_limits s) ->
  ss_recv_seq s < sl_reject_after_messages (ss_limits s) -> openable s (buf_bytes rec) c ->
  exists w', exec_sop (OpOpen (Some rec) (Some p) cap (Some n)) (Some s) w = ((SESSION_OK, Some (after_open s), Some c), w').
Proof.
  intros Ha Hf Hage Hseq Ho. pose proof (sa_recv _ Ha). pose proof (limits_facts _ (sa_limits _ Ha)) as (_ & ? & _).
  pose proof (openable_header s _ _ Ho ltac:(lia)) as (_ & _ & Hq).
  unfold exec_sop. rewrite M_bind_unfold.
  destruct (session_open (Some s) (Some rec) (Some p) cap (Some n) w) as [r w'] eqn:He. cbn [fst snd].
  apply open_cases in He; [|done]. destruct He as [Hx|Hx|why l Hx _|ct m c' _ Hr _ Hd Hc _ _]; [congruence|lia| |].
  - destruct why; try done; try lia; by destruct (Hx c).
  - exists w'. cbn [handed_out buf_bytes buf_set]. rewrite poke_0, <-app_assoc, Nat2Z.id, take_app_length.
    rewrite Hr in Ho. apply openable_inner in Ho as (m' & Hm & Hc'). rewrite Hd in Hm. injection Hm as <-.
    by rewrite (inner_carries_inj m c c').
Qed.

Lemma after_open_frame s :
  key_block_at (after_open s) RECV_KEY_OFFSET = key_block_at s RECV_KEY_OFFSET /\
  ss_handshake_id (after_open s) = ss_handshake_id s /\ ss_recv_dir (after_open s) = ss_recv_dir s /\
  ss_recv_seq (after_open s) = ss_recv_seq s + 1.
Proof. unfold after_open. by case_bool_decide. Qed.

(** ** Properties *)

(** The session invariant.  Whatever the operations, their arguments and the
    records received, a session is in one of four situations.  EMPTY: exactly
    the zeroed struct.  ACTIVE: a 64-byte key block, admissible limits, both
    counters within the hard message limit, distinct directions, and the peer
    counts as confirmed exactly for a responder or after the first record was
    received.  EXPIRED or FAILED: the key block is all zero and the peer is not
    confirmed. *)
Theorem session_invariant s :
  session_reachable s ->
  match ss_state s with
  | SESSION_STATE_EMPTY => s = session_zero
  | SESSION_STATE_ACTIVE =>
      (exists k, ss_keys s = Some k /\ blen k = KEY_BLOCK_LEN) /\ limits_valid (ss_limits s) = true /\
      0 <= ss_send_seq s <= sl_reject_after_messages (ss_limits s) /\
      0 <= ss_recv_seq s <= sl_reject_after_messages (ss_limits s) /\ ss_send_dir s <> ss_recv_dir s /\
      session_is_peer_confirmed (Some s) =
        bool_decide (ss_role s = HANDSHAKE_ROLE_RESPONDER) || bool_decide (0 < ss_recv_seq s)
  | SESSION_STATE_EXPIRED | SESSION_STATE_FAILED =>
      ss_keys s = Some (zeros KEY_BLOCK_LEN) /\ session_is_peer_confirmed (Some s) = false
  end.
Proof.
  intros [->|[Ha|Hd]]%session_reachable_inv; [done| |].
  - unfold session_is_peer_confirmed. destruct Ha. rewrite sa_state0. split_and!; try done; try lia.
    + rewrite sa_send_dir0, sa_recv_dir0. by destruct sa_role0 as [-> | ->].
    + destruct sa_role0 as [Hr|Hr]; rewrite ?sa_confirmed0, ?sa_unconfirmed0, Hr by done; done.
  - destruct Hd as ([Hs|Hs] & Hk & Hc); rewrite Hs; unfold session_is_peer_confirmed; by rewrite Hs.
Qed.

(** C6: no nonce is used twice.  In any run of seal and open calls on a reachable
    session the records sent carry consecutive numbers from [send_seq] on, below
    the hard limit of 2^33; record number q is the encryption of its padded
    content under nonce q and the session's send key, and these nonces are
    pairwise distinct. *)
Theorem session_nonces_unique s ops w log os w' :
  session_reachable s -> run_sops ops (Some s) w = ((log, os), w') ->
  let seqs := seqZ (ss_send_seq s) (blen (sent log)) in
  Forall2 (sealed_as s) seqs (sent log) /\ Forall (fun q => 0 <= q < 2 ^ 33) seqs /\ NoDup (build_nonce <$> seqs).
Proof.
  intros Hr Hrun. cbv zeta. destruct (decide (ss_state s = SESSION_STATE_ACTIVE)) as [Hs|Hs]; cycle 1.
  { apply run_inactive in Hrun as (_ & _ & Hf%refused_log); [|done]. destruct Hf as [-> _].
    split_and!; constructor. }
  pose proof (reachable_active s Hr Hs) as Ha. destruct (run_traffic _ _ _ _ _ _ Ha Hrun) as (H1 & _ & H2 & _).
  pose proof (limits_facts _ (sa_limits _ Ha)) as (_ & ? & _). pose proof (sa_send _ Ha).
  assert (Hall : Forall (fun q => 0 <= q < 2 ^ 33) (seqZ (ss_send_seq s) (blen (sent log)))).
  { apply Forall_seqZ. lia. }
  split_and!; [|done|].
  - apply Forall2_same_length_lookup_2; [rewrite length_seqZ; lia|]. intros i q cr Hq Hcr.
    apply lookup_seqZ in Hq as [-> _]. by apply H1.
  - apply NoDup_fmap_2_strong; [|apply NoDup_seqZ]. intros q1 q2 Hq1 Hq2 Heq.
    rewrite Forall_forall in Hall. apply build_nonce_inj in Heq; [done| |]; [apply Hall in Hq1|apply Hall in Hq2]; lia.
Qed.

(** What one end seals, the other end opens.  For two reachable active
    sessions linked in one direction, sealing any content of at most 65534 bytes
    into a large enough disjoint buffer, before either end's limits, succeeds
    with a record of exactly [session_sealed_len] bytes; opening that record into
    a large enough disjoint buffer succeeds and returns exactly the content; and
    the two sessions stay linked for the next record. *)
Theorem seal_open_roundtrip `{EC : !EnvCrypto E} `{EU : !EnvUp E} a b pt o cap n w :
  session_reachable a -> ss_state a = SESSION_STATE_ACTIVE -> session_reachable b -> ss_state b = SESSION_STATE_ACTIVE ->
  linked a b -> seal_fits a pt o cap = true -> (session_age_ms a w).1 < sl_reject_after_ms (ss_limits a) ->
  ss_send_seq a < sl_reject_after_messages (ss_limits a) ->
  exists rec w1,
    exec_sop (OpSeal pt (Some o) cap (Some n)) (Some a) w = ((SESSION_OK, Some (after_seal a), Some rec), w1) /\
    blen rec = session_sealed_len (Some a) (blen (content_of pt)) /\
    forall addr p pcap m w2,
      open_fits (Buffer addr rec) p pcap = true -> (session_age_ms b w2).1 < sl_reject_after_ms (ss_limits b) ->
      ss_recv_seq b < sl_reject_after_messages (ss_limits b) ->
      (exists w3, exec_sop (OpOpen (Some (Buffer addr rec)) (Some p) pcap (Some m)) (Some b) w2 =
        ((SESSION_OK, Some (after_open b), Some (content_of pt)), w3)) /\
      linked (after_seal a) (after_open b).
Proof.
  intros Hra Hsa Hrb Hsb Hln Hf Hage Hseq. pose proof (reachable_active a Hra Hsa) as Ha.
  pose proof (reachable_active b Hrb Hsb) as Hb.
  destruct (seal_succeeds a pt o cap n w Ha Hf Hage Hseq) as (ct & w1 & Hct & Hlen & Hex).
  pose proof (limits_facts _ (sa_limits _ Ha)) as (_ & _ & _ & _ & Hpad).
  unfold seal_fits in Hf. rewrite !andb_true_iff, !Z.leb_le in Hf. destruct Hf as ((Hmax & _) & _).
  eexists _, w1. split; [exact Hex|]. split.
  { unfold session_sealed_len. rewrite Hpad, (proj2 (Z.ltb_ge _ _)) by done. exact Hlen. }
  intros addr p pcap m w2 Hof Hageb Hseqb. destruct Hln as [Hk Hh Hd Hq]. split.
  - apply open_succeeds; try done. cbn [buf_bytes]. exists ct, (inner_of (content_of pt) (sl_pad_bucket (ss_limits a))).
    rewrite <-Hq. split; [done|].
    destruct (inner_len_spec (blen (content_of pt)) (sl_pad_bucket (ss_limits a))) as (_ & _ & ?); [lia|done|].
    split; [rewrite Hlen; unfold record_len; sesslia|]. split; [|by apply inner_of_carries].
    apply aead_correct in Hct. unfold decryption. by rewrite <-Hk, <-Hh, <-Hd, <-Hq.
  - destruct (after_open_frame b) as (H1 & H2 & H3 & H4). split; rewrite ?H1, ?H2, ?H3, ?H4; try done. cbn. by rewrite Hq.
Qed.

(** C5: delivery over a hostile network.  Let [a] send by any calls and let [b],
    linked to it, be offered any records in any order, replays and damaged
    records included, by any calls.  If every record that passes [b]'s AEAD
    check is one that [a] sent, the contents [b] delivers are a prefix of the
    contents [a] sent: nothing is dropped, duplicated, reordered or altered. *)
Theorem hostile_delivery `{EC : !EnvCrypto E} a b opsa opsb wa wb loga logb oa ob wa' wb' :
  session_reachable a -> ss_state a = SESSION_STATE_ACTIVE -> session_reachable b -> ss_state b = SESSION_STATE_ACTIVE ->
  linked a b ->
  run_sops opsa (Some a) wa = ((loga, oa), wa') -> run_sops opsb (Some b) wb = ((logb, ob), wb') ->
  (forall rec out cap len q ct m, OpOpen (Some rec) out cap len ∈ opsb -> buf_bytes rec = record_header q ++ ct ->
     crypto_aead_decrypt ct (build_ad (ss_handshake_id b) (ss_recv_dir b) q) (build_nonce q)
       (key_block_at b RECV_KEY_OFFSET) = Some m -> buf_bytes rec ∈ (sent loga).*2) ->
  (got logb).*1 `prefix_of` (sent loga).*1.
Proof.
  intros Hra Hsa Hrb Hsb Hln Hruna Hrunb Hauth. pose proof (reachable_active a Hra Hsa) as Ha.
  pose proof (reachable_active b Hrb Hsb) as Hb.
  destruct (run_traffic _ _ _ _ _ _ Ha Hruna) as (Hsent & _ & Hbound & _).
  destruct (run_traffic _ _ _ _ _ _ Hb Hrunb) as (_ & Hgot & _ & Hboundb).
  pose proof (limits_facts _ (sa_limits _ Ha)) as (_ & ? & _). pose proof (limits_facts _ (sa_limits _ Hb)) as (_ & ? & _).
  pose proof (sa_send _ Ha). pose proof (sa_recv _ Hb).
  apply lookup_prefix. intros i c Hi. apply list_lookup_fmap_Some in Hi as (cr & -> & Hi).
  pose proof (Hgot _ _ Hi) as Ho. pose proof (lookup_lt_Some _ _ _ Hi).
  assert (Hin : cr.2 ∈ (sent loga).*2).
  { destruct (got_offered _ _ _ _ _ _ _ _ Hrunb Hi) as (rec & out & cap & len & Hop & Hrec).
    destruct Ho as (ct & m & Hr & _ & Hdec). rewrite Hrec in *. by eapply Hauth. }
  apply list_elem_of_fmap in Hin as (cr' & Heq & Hin). apply list_elem_of_lookup in Hin as (j & Hj).
  pose proof (Hsent _ _ Hj) as Hse. pose proof (lookup_lt_Some _ _ _ Hj). rewrite (ln_seq _ _ Hln) in *.
  assert (i = j) as <-.
  { destruct Ho as (ct & m & Hr1 & _), Hse as (ct' & Hr2 & _). rewrite Hr1, Hr2 in Heq.
    apply record_header_inj in Heq as [? _]; lia. }
  rewrite list_lookup_fmap, Hj. cbn. f_equal. symmetry.
  eapply (sealed_opened a b (ss_recv_seq b + Z.of_nat i)); try done; [apply Ha|lia].
Qed.

(** C12: [session_open] accepts exactly the next authentic record.  On a reachable
    active session it returns SESSION_OK with content [c] if and only if the
    buffers are large enough and disjoint, neither the age nor the message limit
    is reached, and the record is the header of exactly the next expected number
    followed by a ciphertext that decrypts, under the receive key and that
    number, to a well-formed zero-padded inner plaintext carrying [c]. *)
Theorem open_accepts_exactly s rec p cap n c w :
  session_reachable s -> ss_state s = SESSION_STATE_ACTIVE ->
  ((exists s' w', exec_sop (OpOpen (Some rec) (Some p) cap (Some n)) (Some s) w = ((SESSION_OK, Some s', Some c), w')) <->
   open_fits rec p cap = true /\ (session_age_ms s w).1 < sl_reject_after_ms (ss_limits s) /\
   ss_recv_seq s < sl_reject_after_messages (ss_limits s) /\ openable s (buf_bytes rec) c).
Proof.
  intros Hr Hs. pose proof (reachable_active s Hr Hs) as Ha. split.
  - intros (s' & w' & H). unfold exec_sop in H. rewrite M_bind_unfold in H.
    destruct (session_open (Some s) (Some rec) (Some p) cap (Some n) w) as [r w1] eqn:He. cbn [fst snd] in H.
    apply open_cases in He; [|done]. destruct He as [Hx|Hx|why l Hx _|ct m c' Hfit Hrec Hmax Hd Hc Hage Hseq].
    + by rewrite M_ret_unfold in H.
    + by rewrite M_ret_unfold in H.
    + rewrite M_ret_unfold in H. apply pair_equal_spec in H as [H _]. injection H as -> _. done.
    + rewrite M_ret_unfold in H. apply pair_equal_spec in H as [H _]. injection H as _ H.
      cbn [buf_bytes buf_set] in H. rewrite poke_0, <-app_assoc, Nat2Z.id, take_app_length in H. subst c'.
      split_and!; try done. by exists ct, m.
  - intros (Hf & Hage & Hseq & Ho). destruct (open_succeeds s rec p cap n c w Ha Hf Hage Hseq Ho) as (w' & He). eauto.
Qed.

(** Every failure that is not misuse is final.  On a reachable active session
    an operation that does not succeed either is refused as misuse and leaves the
    session exactly as it was, or moves it to EXPIRED (exactly for
    SESSION_ERR_EXPIRED) or FAILED with the key block zeroed; from then on every
    sequence of operations is refused, sends nothing, delivers nothing and leaves
    the session as it is. *)
Theorem session_failures_final s op w st s' out w' ops w1 log os w1' :
  session_reachable s -> ss_state s = SESSION_STATE_ACTIVE ->
  exec_sop op (Some s) w = ((st, Some s', out), w') -> st <> SESSION_OK ->
  out = None /\
  (misuse st /\ s' = s \/
   ~ misuse st /\ ss_state s' = (if bool_decide (st = SESSION_ERR_EXPIRED) then SESSION_STATE_EXPIRED else SESSION_STATE_FAILED) /\
   ss_keys s' = Some (zeros KEY_BLOCK_LEN) /\
   (run_sops ops (Some s') w1 = ((log, os), w1') ->
    os = Some s' /\ Forall (fun e => misuse e.1.2) log /\ sent log = [] /\ got log = [])).
Proof.
  intros Hr Hs He Hst. pose proof (reachable_active s Hr Hs) as Ha.
  apply sop_step in He as (s1 & [= <-] & Hstep); [|done]. destruct Hstep as [op|op st s' Hne Hm Hd Hkind| |]; try done.
  - split; [done|]. left. split; [by left|done].
  - split; [done|]. right. split; [done|]. split; [exact Hkind|]. split; [apply Hd|].
    intros Hrun. apply run_inactive in Hrun as (-> & _ & Hf); [|by apply dead_not_active].
    split; [done|]. split; [|by apply refused_log]. eapply Forall_impl; [exact Hf|]. by intros e [].
Qed.

(** Bounds of a sealed record.  A record sealed by a reachable session is
    exactly [session_sealed_len] bytes, between 27 and 65561; its inner part is a
    multiple of the pad bucket and exceeds the content by less than two bytes plus
    the bucket; and it was sealed before the session was 3,900,000 ms old and
    before 2^33 records had been sent, whatever limits the caller chose. *)
Theorem seal_bounds s pt o cap n w os rec w' :
  session_reachable s -> ss_state s = SESSION_STATE_ACTIVE ->
  exec_sop (OpSeal pt o cap n) (Some s) w = ((SESSION_OK, os, Some rec), w') ->
  let c := content_of pt in let bucket := sl_pad_bucket (ss_limits s) in
  blen rec = session_sealed_len (Some s) (blen c) /\
  SESSION_MIN_RECORD_BYTES <= blen rec <= SESSION_MAX_RECORD_BYTES /\
  (blen rec - SESSION_OVERHEAD_BYTES) mod bucket = 0 /\ blen c + 27 <= blen rec < blen c + 27 + bucket /\
  (session_age_ms s w).1 < SESSION_REJECT_AFTER_MS /\ ss_send_seq s < SESSION_REJECT_AFTER_MESSAGES.
Proof.
  intros Hr Hs He. cbv zeta. pose proof (reachable_active s Hr Hs) as Ha.
  apply sop_step in He as (s' & -> & Hstep); [|done]. apply step_sealed_facts in Hstep as (Hlen & Hc & Hage & Hseq).
  pose proof (limits_facts _ (sa_limits _ Ha)) as (_ & ? & _ & ? & Hpad).
  destruct (inner_len_spec (blen (content_of pt)) (sl_pad_bucket (ss_limits s))) as (? & Hmod & ?); [lia|done|].
  rewrite Hlen. unfold record_len, session_sealed_len. rewrite Hpad, (proj2 (Z.ltb_ge _ _)) by done. cbn [negb orb].
  split; [done|]. rewrite Z.add_simpl_r. split; [sesslia|]. split; [done|].
  split; [sesslia|]. unfold SESSION_REJECT_AFTER_MS, SESSION_REJECT_AFTER_MESSAGES. lia.
Qed.

(** The keys of a handshake reach one session, once.  On failure the session,
    the handshake context and the ledger are exactly as they were.  Success is
    possible only from the EMPTY session, an established context and admissible
    limits; the new session holds the context's two traffic keys, send and
    receive by role, its handshake id and both counters at zero; and the context
    is wiped, so that no further call on it can succeed. *)
Theorem handoff_exactly_once s c limits clock ps w st os oc ps' w' :
  session_reachable s -> reachable c ->
  session_init_from_handshake (Some s) (Some c) limits clock ps w = ((st, os, oc, ps'), w') ->
  ps' = ps /\
  (st <> SESSION_OK /\ os = Some s /\ oc = Some c \/
   st = SESSION_OK /\ s = session_zero /\ hc_state c = HANDSHAKE_STATE_ESTABLISHED /\
   limits_valid (default default_limits limits) = true /\
   exists s' k1 k2, os = Some s' /\ ss_state s' = SESSION_STATE_ACTIVE /\ ss_role s' = hc_role c /\
     handshake_session_key_c2s (Some c) = (HANDSHAKE_OK, Some k1) /\
     handshake_session_key_s2c (Some c) = (HANDSHAKE_OK, Some k2) /\
     (key_block_at s' SEND_KEY_OFFSET, key_block_at s' RECV_KEY_OFFSET) =
       (if bool_decide (hc_role c = HANDSHAKE_ROLE_INITIATOR) then (k1, k2) else (k2, k1)) /\
     ss_handshake_id s' = hc_handshake_id c /\ ss_send_seq s' = 0 /\ ss_recv_seq s' = 0 /\ oc = Some ctx_failed_zero /\
     forall os2 limits2 clock2 ps2 w2, (session_init_from_handshake os2 oc limits2 clock2 ps2 w2).1.1.1.1 <> SESSION_OK).
Proof.
  intros Hs Hc H. apply reachable_inv in Hc. apply init_cases in H; [|done].
  inversion H as [st' Hst|k1 k2 now Hst Hk Hl He H1 H2 L1 L2 Hlim Hnow]; subst; [by split; [|left]|]. split; [done|]. right.
  split; [done|]. split; [by apply session_reachable_inv in Hs as [?|[[]|[[] _]]]; [|congruence..]|]. split; [done|]. split; [done|].
  eexists _, k1, k2. split; [done|]. do 4 (split; [done|]). split; [|do 4 (split; [done|])].
  - unfold key_block_at, session_of. cbn [ss_keys default id].
    unfold SEND_KEY_OFFSET, RECV_KEY_OFFSET, AEAD_KEY_BYTES.
    case_bool_decide; (rewrite peek_hit, peek_skip, peek_all; [done|lia..]).
  - intros os2 limits2 clock2 ps2 w2. unfold session_init_from_handshake. destruct os2 as [s2|]; [|done].
    destruct (_ || _); [done|]. by destruct limits2 as [l|]; [destruct (negb (limits_valid l))|].
Qed.

(** Contexts that agree on keys and handshake id, in opposite roles, feed linked
    sessions. *)
Lemma session_of_linked rA rB k1 k2 hid nA nB lA lB fA fB :
  rA = HANDSHAKE_ROLE_INITIATOR -> rB = HANDSHAKE_ROLE_RESPONDER -> blen k1 = 32 -> blen k2 = 32 ->
  let sA := session_of rA k1 k2 hid nA lA fA in let sB := session_of rB k1 k2 hid nB lB fB in
  linked sA sB /\ linked sB sA.
Proof.
  intros -> -> H1 H2. cbv zeta. split; split; try done; unfold key_block_at, session_of; cbn [ss_keys default id];
    unfold SEND_KEY_OFFSET, RECV_KEY_OFFSET, AEAD_KEY_BYTES; rewrite ?bool_decide_eq_true_2, ?bool_decide_eq_false_2 by done.
  - rewrite ?bool_decide_eq_true_2 by done. rewrite (peek_hit 0), (peek_skip 32), peek_all by lia. done.
  - rewrite ?bool_decide_eq_true_2 by done. rewrite (peek_hit 0), (peek_skip 32), peek_all by lia. done.
Qed.

End props.

(** C7: an honest handshake ends in a secure channel.  Under the conditions of an
    honest handshake (identities pinned in each other's keystores, an empty
    ledger on a steady clock, external calls that succeed) every API call
    succeeds, and whenever both ends then create their sessions, with any limits
    and clocks, the two sessions are linked in both directions, the responder's
    peer is confirmed, the initiator's is not, and becomes so with the first
    record it opens. *)
Theorem handshake_then_session `{ES : EnvSizes} {EC : EnvCrypto E} {EU : EnvUp E}
    idA idB pkA skA pkB skB wa wa' wb wb' ksA ksB s c0 d0 a b w0 w1 w2 w3 w :
  OQS_SIG_keypair wa = (Some (pkA, skA), wa') -> OQS_SIG_keypair wb = (Some (pkB, skB), wb') ->
  keystore_ok ksA -> pins ksA !! idB = Some pkB -> keystore_ok ksB -> pins ksB !! idA = Some pkA ->
  store_ok s -> ledger s = ∅ -> clock_steady s ->
  handshake_initiator_init (Some c0) (Some idA) (Some (MldsaKeypair pkA (Some skA))) (Some ksA) (Some idB) w0
    = ((HANDSHAKE_OK, Some a), w1) ->
  handshake_responder_init (Some d0) (Some idB) (Some (MldsaKeypair pkB (Some skB))) (Some ksB) (Some s) w2
    = ((HANDSHAKE_OK, Some b), w3) ->
  exists a' b' s' w',
    honest_run (Some a) (Some b) (Some s) w = ((replicate 8 HANDSHAKE_OK, Some a', Some b', Some s'), w') /\
    forall limA limB clkA clkB psA psB v u sA sB oA oB rA rB v' u',
      session_init_from_handshake (Some session_zero) (Some a') limA clkA psA v = ((SESSION_OK, Some sA, oA, rA), v') ->
      session_init_from_handshake (Some session_zero) (Some b') limB clkB psB u = ((SESSION_OK, Some sB, oB, rB), u') ->
      linked sA sB /\ linked sB sA /\ session_is_peer_confirmed (Some sA) = false /\
      session_is_peer_confirmed (Some sB) = true /\ session_is_peer_confirmed (Some (after_open sA)) = true.
Proof.
  intros Hga Hgb HokA HpA HokB HpB Hst Hemp Hclk HiA HiB.
  apply initiator_init_ready in HiA as (Ha & HidA & HidB). apply responder_init_ready in HiB.
  destruct (honest_run_ok a b s idA idB pkA skA pkB skB ksA ksB wa wa' wb wb' w Hga Hgb Ha)
    as (a' & b' & s' & w' & keys & E1 & Hla & Hlb & Hra & Hrb & Hsa & Hsb & Hka & Hkb & Hh); try done.
  exists a', b', s', w'. split; [exact E1|]. intros limA limB clkA clkB psA psB v u sA sB oA oB rA rB v' u' H1 H2.
  apply init_cases in H1; [|by right]. apply init_cases in H2; [|by right].
  inversion H1 as [|k1 k2 nA _ _ _ _ K1 K2 L1 L2 _ _]; subst; [done|]. inversion H2 as [|k3 k4 nB _ _ _ _ K3 K4 _ _ _ _]; subst; [done|].
  assert (k3 = k1 /\ k4 = k2) as [-> ->].
  { unfold handshake_session_key_c2s, handshake_session_key_s2c, key_at in K1, K2, K3, K4.
    rewrite Hka, Hsa, (cl_committed _ Hla), Hsa in K1, K2. rewrite Hkb, Hsb, (cl_committed _ Hlb), Hsb in K3, K4.
    cbn in K1, K2, K3, K4. split; congruence. }
  rewrite Hra, Hrb, Hh. edestruct session_of_linked as [Hl1 Hl2]; [reflexivity|reflexivity|exact L1|exact L2|].
  split; [exact Hl1|]. split; [exact Hl2|]. done.
Qed.
