(* ===== verification/SessionDemo.v ===== *)
(** * A concrete session

    The two sessions that the handshake of [HandshakeDemo] ends in, and the
    theorems of the record layer on them. *)

From S2P Require Import Prelude WireInt Extern Toy Crypto Transcript Keystore Pending Handshake HandshakeProps HandshakeRun HandshakeDemo Session SessionProps.

(** Both parties finish. *)
Definition alice3 : handshake_ctx_t := default alice2 (ctx_of step5).
Definition alice4 : handshake_ctx_t := default alice3 (ctx_of (call_result CallInitiatorFinish alice3 None 30)).
Definition bob3 : handshake_ctx_t :=
  default bob2 (ctx_of (call_result (CallVerifyClientAuth (Some demo_auth)) bob2 (Some demo_store1) 20)).
Definition bob4 : handshake_ctx_t := default bob3 (ctx_of (call_result CallResponderFinish bob3 None 30)).

Lemma alice4_reachable : reachable alice4.
Proof. apply reach_exec, reach_exec, reach_exec, alice1_reachable. Qed.
Lemma bob4_reachable : reachable bob4.
Proof. apply reach_exec, reach_exec, bob2_reachable. Qed.

(** Limits with a small pad bucket. *)
Definition demo_limits : session_limits_t := SessionLimits 100 200 1000 2000 16.

Definition demo_c2s : list byte := Eval vm_compute in default [] (handshake_session_key_c2s (Some alice4)).2.
Definition demo_s2c : list byte := Eval vm_compute in default [] (handshake_session_key_s2c (Some alice4)).2.
Definition demo_hid : list byte := Eval vm_compute in (handshake_get_handshake_id (Some alice4)).2.

Definition chanA : session_t :=
  session_of HANDSHAKE_ROLE_INITIATOR demo_c2s demo_s2c demo_hid 100 demo_limits demo_clock.
Definition chanB : session_t :=
  session_of HANDSHAKE_ROLE_RESPONDER demo_c2s demo_s2c demo_hid 100 default_limits demo_clock.

Lemma chanA_init :
  (session_init_from_handshake (Some session_zero) (Some alice4) (Some demo_limits) (Some demo_clock) None 40).1.1.1.2 = Some chanA.
Proof. vm_cast_no_check (eq_refl (Some chanA)). Qed.
Lemma chanB_init :
  (session_init_from_handshake (Some session_zero) (Some bob4) None (Some demo_clock) None 40).1.1.1.2 = Some chanB.
Proof. vm_cast_no_check (eq_refl (Some chanB)). Qed.

Lemma reach_init `{ES : EnvSizes} (s s' : session_t) c limits clock ps w :
  session_reachable s -> reachable c ->
  (session_init_from_handshake (Some s) (Some c) limits clock ps w).1.1.1.2 = Some s' -> session_reachable s'.
Proof.
  intros Hs Hc. destruct (session_init_from_handshake _ _ _ _ _ _) as [[[[st os] oc] ps'] w'] eqn:He. cbn [fst snd].
  intros ->. by eapply sr_init.
Qed.

Lemma chanA_reachable : session_reachable chanA.
Proof. exact (reach_init _ _ _ _ _ _ _ sr_zero alice4_reachable chanA_init). Qed.
Lemma chanB_reachable : session_reachable chanB.
Proof. exact (reach_init _ _ _ _ _ _ _ sr_zero bob4_reachable chanB_init). Qed.

Lemma chan_linked : linked chanA chanB.
Proof.
  edestruct session_of_linked as [H _]; [reflexivity|reflexivity| | |exact H]; by vm_compute.
Qed.

(** Alice sends two records. *)
Definition hi : buffer := Buffer 4096 (label "hi").
Definition there : buffer := Buffer 4096 (label "there").
Definition demo_out : buffer := Buffer 8192 (zeros 64).
Definition seal_hi : session_op := OpSeal (Some hi) (Some demo_out) 64 (Some 0).
Definition seal_there : session_op := OpSeal (Some there) (Some demo_out) 64 (Some 0).
Definition demo_sends := run_sops [seal_hi; seal_there] (Some chanA) 50.
Definition rec0 : list byte := Eval vm_compute in nth 0 (sent demo_sends.1.1).*2 [].
Definition rec1 : list byte := Eval vm_compute in nth 1 (sent demo_sends.1.1).*2 [].

(** Bob is offered a record. *)
Definition offer (r : list byte) : session_op := OpOpen (Some (Buffer 4096 r)) (Some demo_out) 64 (Some 0).

Lemma session_invariant_witness :
  ss_state chanA = SESSION_STATE_ACTIVE /\ session_is_peer_confirmed (Some chanA) = false.
Proof.
  pose proof (session_invariant chanA chanA_reachable) as H.
  change (ss_state chanA) with SESSION_STATE_ACTIVE in H. destruct H as (_ & _ & _ & _ & _ & H).
  split; [reflexivity|]. rewrite H. reflexivity.
Defined.

Lemma demo_sends_two : sent demo_sends.1.1 = [(label "hi", rec0); (label "there", rec1)].
Proof. vm_compute. reflexivity. Qed.

Lemma session_nonces_unique_witness :
  Forall2 (sealed_as chanA) [0; 1] [(label "hi", rec0); (label "there", rec1)] /\ NoDup (build_nonce <$> [0; 1]).
Proof.
  pose proof demo_sends_two as Hs. unfold demo_sends in Hs. revert Hs.
  destruct (run_sops [seal_hi; seal_there] (Some chanA) 50) as [[log os] w'] eqn:He. cbn [fst snd]. intros Hs.
  destruct (session_nonces_unique _ _ _ _ _ _ chanA_reachable He) as (H1 & _ & H2).
  rewrite Hs in H1, H2. split; [exact H1|exact H2].
Defined.

Lemma seal_open_roundtrip_witness :
  exists rec w1, exec_sop seal_hi (Some chanA) 50 = ((SESSION_OK, Some (after_seal chanA), Some rec), w1) /\
    blen rec = session_sealed_len (Some chanA) 2 /\ linked (after_seal chanA) (after_open chanB).
Proof.
  destruct (seal_open_roundtrip chanA chanB (Some hi) demo_out 64 0 50 chanA_reachable eq_refl chanB_reachable eq_refl
    chan_linked ltac:(vm_compute; reflexivity) ltac:(vm_compute; reflexivity) ltac:(vm_compute; reflexivity))
    as (rec & w1 & He & Hl & Hrest).
  exists rec, w1. split; [exact He|]. split; [exact Hl|].
  assert (Hfit : open_fits (Buffer 0 rec) demo_out 64 = true).
  { unfold open_fits. cbn [buf_bytes buf_addr]. rewrite Hl. vm_compute. reflexivity. }
  apply (Hrest 0 demo_out 64 0 50); [exact Hfit|vm_compute; reflexivity|vm_compute; reflexivity].
Defined.

(** The first record is delivered, its replay ends the session. *)
Definition demo_recvs := run_sops [offer rec0; offer rec0; offer rec1] (Some chanB) 60.

Lemma demo_recvs_got : got demo_recvs.1.1 = [(label "hi", rec0)].
Proof. vm_compute. reflexivity. Qed.

Definition offered_bytes (op : session_op) : list byte :=
  match op with OpOpen (Some b) _ _ _ => buf_bytes b | _ => [] end.

Lemma hostile_delivery_witness : [label "hi"] `prefix_of` [label "hi"; label "there"].
Proof.
  pose proof demo_sends_two as Hs. pose proof demo_recvs_got as Hg. unfold demo_sends, demo_recvs in *. revert Hs Hg.
  destruct (run_sops [seal_hi; seal_there] (Some chanA) 50) as [[loga oa] wa'] eqn:Hea.
  destruct (run_sops [offer rec0; offer rec0; offer rec1] (Some chanB) 60) as [[logb ob] wb'] eqn:Heb.
  cbn [fst snd]. intros Hs Hg.
  pose proof (hostile_delivery chanA chanB _ _ _ _ _ _ _ _ _ _ chanA_reachable eq_refl chanB_reachable eq_refl
    chan_linked Hea Heb) as H.
  rewrite Hs, Hg in H. apply H. intros rec out cap len q ct m Hin _ _.
  apply (list_elem_of_fmap_2 offered_bytes) in Hin. change (buf_bytes rec ∈ [rec0; rec0; rec1]) in Hin.
  change (buf_bytes rec ∈ [rec0; rec1]). rewrite !elem_of_cons in *. tauto.
Defined.

Lemma demo_opened : (exec_sop (offer rec0) (Some chanB) 60).1 = (SESSION_OK, Some (after_open chanB), Some (label "hi")).
Proof. vm_cast_no_check (eq_refl (SESSION_OK, Some (after_open chanB), Some (label "hi"))). Qed.

Lemma open_accepts_exactly_witness : openable chanB rec0 (label "hi").
Proof.
  destruct (open_accepts_exactly chanB (Buffer 4096 rec0) demo_out 64 0 (label "hi") 60 chanB_reachable eq_refl) as [H _].
  destruct H as (_ & _ & _ & H); [|exact H].
  exists (after_open chanB), (exec_sop (offer rec0) (Some chanB) 60).2.
  pose proof demo_opened as Hd. unfold offer in *. revert Hd. destruct (exec_sop _ _ _) as [r w']. cbn [fst snd]. intros ->.
  reflexivity.
Defined.

(** A gap in the numbers is fatal. *)
Lemma demo_gap : (exec_sop (offer rec1) (Some chanB) 60).1.1.1 = SESSION_ERR_OUT_OF_ORDER /\
  is_some (exec_sop (offer rec1) (Some chanB) 60).1.1.2 = true.
Proof. vm_compute. split; reflexivity. Qed.

Lemma session_failures_final_witness :
  exists s', (exec_sop (offer rec1) (Some chanB) 60).1.1.2 = Some s' /\ ss_state s' = SESSION_STATE_FAILED /\
    ss_keys s' = Some (zeros KEY_BLOCK_LEN).
Proof.
  pose proof demo_gap as [Hg Hk]. revert Hg Hk.
  destruct (exec_sop (offer rec1) (Some chanB) 60) as [[[st os] out] w'] eqn:He. cbn [fst snd]. intros -> Hk.
  destruct os as [s'|]; [|discriminate Hk].
  destruct (session_failures_final chanB (offer rec1) 60 SESSION_ERR_OUT_OF_ORDER s' out w' [] 0 [] None 0
    chanB_reachable eq_refl He ltac:(discriminate)) as [_ [[[H|H] _]|(_ & H1 & H2 & _)]]; [discriminate H..|].
  exists s'. split; [reflexivity|]. split; [exact H1|exact H2].
Defined.

Lemma seal_bounds_witness :
  exists rec, (exec_sop seal_hi (Some chanA) 50).1.2 = Some rec /\ blen rec = 41 /\ (blen rec - 25) mod 16 = 0.
Proof.
  assert (Hd : (exec_sop seal_hi (Some chanA) 50).1 = (SESSION_OK, Some (after_seal chanA), Some rec0))
    by vm_cast_no_check (eq_refl (SESSION_OK, Some (after_seal chanA), Some rec0)).
  destruct (exec_sop seal_hi (Some chanA) 50) as [r w'] eqn:He. cbn [fst snd] in Hd. subst r.
  destruct (seal_bounds chanA _ _ _ _ _ _ _ _ chanA_reachable eq_refl He) as (Hl & _ & Hm & _).
  exists rec0. split; [reflexivity|]. split; [exact Hl|exact Hm].
Defined.

Lemma handoff_exactly_once_witness :
  exists k1 k2, handshake_session_key_c2s (Some alice4) = (HANDSHAKE_OK, Some k1) /\
    handshake_session_key_s2c (Some alice4) = (HANDSHAKE_OK, Some k2) /\
    key_block_at chanA SEND_KEY_OFFSET = k1 /\ key_block_at chanA RECV_KEY_OFFSET = k2.
Proof.
  pose proof chanA_init as Hd. revert Hd.
  destruct (session_init_from_handshake (Some session_zero) (Some alice4) (Some demo_limits) (Some demo_clock) None 40)
    as [[[[st os] oc] ps'] w'] eqn:He. cbn [fst snd]. intros ->.
  destruct (handoff_exactly_once _ _ _ _ _ _ _ _ _ _ _ sr_zero alice4_reachable He)
    as (_ & [(_ & Hz & _)|(_ & _ & _ & _ & s' & k1 & k2 & Hs & _ & Hr & H1 & H2 & Hk & _)]).
  - exfalso. apply (f_equal (fun o => is_some (ss_keys (default session_zero o)))) in Hz. discriminate Hz.
  - exists k1, k2. apply (inj Some) in Hs. subst s'. rewrite <-Hr in Hk. split; [exact H1|]. split; [exact H2|].
    apply pair_equal_spec in Hk as [Ha Hb]. split; [exact Ha|exact Hb].
Defined.

Lemma handshake_then_session_witness :
  exists a' b' s' w', honest_run (Some alice0) (Some bob0) (Some demo_store) 7 =
      ((replicate 8 HANDSHAKE_OK, Some a', Some b', Some s'), w') /\
    forall v u sA sB oA oB rA rB v' u',
      session_init_from_handshake (Some session_zero) (Some a') (Some demo_limits) (Some demo_clock) None v
        = ((SESSION_OK, Some sA, oA, rA), v') ->
      session_init_from_handshake (Some session_zero) (Some b') None (Some demo_clock) None u
        = ((SESSION_OK, Some sB, oB, rB), u') -> linked sA sB /\ linked sB sA.
Proof.
  assert (Hst : ledger demo_store = ∅) by (vm_compute; reflexivity).
  assert (HA : pins sample_keystore !! label "bob" = Some (toy_fill 1952 2)) by (vm_compute; reflexivity).
  assert (HB : pins sample_keystore !! label "alice" = Some (toy_fill 1952 1)) by (vm_compute; reflexivity).
  pose proof (init_result (handshake_initiator_init (Some ctx_failed_zero) (Some (label "alice")) (Some (demo_kp 1))
    (Some sample_keystore) (Some (label "bob")) 5) ctx_failed_zero ltac:(vm_compute; reflexivity)
    ltac:(vm_compute; reflexivity)) as HiA.
  pose proof (init_result (handshake_responder_init (Some ctx_failed_zero) (Some (label "bob")) (Some (demo_kp 2))
    (Some sample_keystore) (Some demo_store) 5) ctx_failed_zero ltac:(vm_compute; reflexivity)
    ltac:(vm_compute; reflexivity)) as HiB.
  assert (Hclk : clock_steady demo_store) by (intros w w'; vm_compute; reflexivity).
  destruct (handshake_then_session (E := toy_env) (label "alice") (label "bob") _ _ _ _ 1 2 2 3 _ _ _ _ _ _ _ _ _ _ _ 7
    eq_refl eq_refl sample_keystore_ok HA sample_keystore_ok HB demo_store_ok Hst Hclk HiA HiB)
    as (a' & b' & s' & w' & Hrun & H).
  exists a', b', s', w'. split; [exact Hrun|]. intros v u sA sB oA oB rA rB v' u' H1 H2.
  destruct (H _ _ _ _ _ _ _ _ _ _ _ _ _ _ _ _ H1 H2) as (Hl1 & Hl2 & _). split; [exact Hl1|exact Hl2].
Defined.
