(* ===== verification/NetIo.v ===== *)
(** * Deadline-bounded socket I/O ([apps/net_io.c])

    The waiting, reading and writing loops.  [poll], [recv] and [send] are
    parameters (class [NetOs]); the class [NetStream] states the documented
    behaviour of a stream socket.  A loop that the peer or the kernel can keep
    going takes fuel and returns [None] when it runs out. *)

From S2P Require Import Prelude Extern Toy Pending.

(** ** System calls *)
Inductive poll_result := PollReady | PollTimeout | PollEintr | PollError.
Inductive recv_result := RecvData (l : list byte) | RecvEof | RecvEintr | RecvAgain | RecvError.
Inductive send_result := SendData (n : Z) | SendEintr | SendAgain | SendError.
Inductive poll_events := POLLIN | POLLOUT.

Class NetOs (E : Env) := {
  os_poll : Z -> poll_events -> Z -> world -> poll_result * world;
  os_recv : Z -> Z -> world -> recv_result * world;
  os_send : Z -> list byte -> world -> send_result * world }.

(** ** Data *)
Record net_stats_t := NetStats {
  ns_recv_calls : Z; ns_send_calls : Z; ns_eintr_retries : Z; ns_bytes_rx : Z; ns_bytes_tx : Z }.
Record net_conn_t := NetConn { nc_fd : Z; nc_stats : net_stats_t }.

Inductive net_status_t := NET_OK | NET_EOF | NET_TIMEOUT | NET_ERR_IO | NET_ERR_INVALID_ARG.
#[global] Instance net_status_eq_dec : EqDecision net_status_t.
Proof. solve_decision. Defined.

Definition NET_NO_DEADLINE : Z := UINT64_MAX.
Definition INT_MAX : Z := 2 ^ 31 - 1.

Definition count_eintr (st : net_stats_t) : net_stats_t :=
  NetStats (ns_recv_calls st) (ns_send_calls st) (u64 (ns_eintr_retries st + 1)) (ns_bytes_rx st) (ns_bytes_tx st).
Definition count_recv (st : net_stats_t) (r : Z) : net_stats_t :=
  NetStats (u64 (ns_recv_calls st + 1)) (ns_send_calls st) (ns_eintr_retries st) (u64 (ns_bytes_rx st + r)) (ns_bytes_tx st).
Definition count_send (st : net_stats_t) (r : Z) : net_stats_t :=
  NetStats (ns_recv_calls st) (u64 (ns_send_calls st + 1)) (ns_eintr_retries st) (ns_bytes_rx st) (u64 (ns_bytes_tx st + r)).
Definition with_stats (c : net_conn_t) (st : net_stats_t) : net_conn_t := NetConn (nc_fd c) st.

Definition net_conn_init (c : option net_conn_t) : option net_conn_t :=
  match c with None => None | Some _ => Some (NetConn (-1) (NetStats 0 0 0 0 0)) end.

Section ops.
Context `{OS : NetOs}.

Definition net_now_ms : M Z := handshake_default_clock_ms.

Definition net_deadline_in (ms : Z) : M Z :=
  now ← net_now_ms;
  mret (if now =? UINT64_MAX then 0
        else if NET_NO_DEADLINE - 1 - now <=? ms then NET_NO_DEADLINE - 1 else now + ms).

(** One round of the loop of [wait_io]: [inl] ends it. *)
Definition wait_round (fd : Z) (events : poll_events) (deadline_ms : Z) (st : net_stats_t)
    : M (net_status_t * net_stats_t + net_stats_t) :=
  let poll timeout : M (net_status_t * net_stats_t + net_stats_t) :=
    r ← (os_poll fd events timeout : M poll_result);
    mret (match r with
          | PollReady => inl (NET_OK, st)
          | PollTimeout => inr st
          | PollEintr => inr (count_eintr st)
          | PollError => inl (NET_ERR_IO, st)
          end) in
  if deadline_ms =? NET_NO_DEADLINE then poll (-1) else
  now ← net_now_ms;
  if (now =? UINT64_MAX) || (deadline_ms <=? now) then mret (inl (NET_TIMEOUT, st))
  else poll (if INT_MAX <? deadline_ms - now then INT_MAX else deadline_ms - now).

Fixpoint wait_io (fuel : nat) (fd : Z) (events : poll_events) (deadline_ms : Z) (st : net_stats_t)
    : M (option (net_status_t * net_stats_t)) :=
  match fuel with
  | O => mret None
  | S fuel =>
    r ← wait_round fd events deadline_ms st;
    match r with inl res => mret (Some res) | inr st => wait_io fuel fd events deadline_ms st end
  end.

(** The loop of [net_read_exact] at offset [off]; the bytes go to [buf + at].
    Result: status, connection, buffer and [*got]. *)
Fixpoint read_loop (fuel : nat) (c : net_conn_t) (buf : list byte) (at_ n deadline_ms off : Z)
    : M (option (net_status_t * net_conn_t * list byte * Z)) :=
  if n <=? off then mret (Some (NET_OK, c, buf, off)) else
  match fuel with
  | O => mret None
  | S fuel =>
    r ← wait_io fuel (nc_fd c) POLLIN deadline_ms (nc_stats c);
    match r with
    | None => mret None
    | Some (w, st) =>
      let c := with_stats c st in
      if negb (bool_decide (w = NET_OK)) then mret (Some (w, c, buf, off)) else
      r ← (os_recv (nc_fd c) (n - off) : M recv_result);
      match r with
      | RecvData l => read_loop fuel (with_stats c (count_recv st (blen l))) (poke (at_ + off) l buf) at_ n deadline_ms (off + blen l)
      | RecvEof => mret (Some (NET_EOF, with_stats c (count_recv st 0), buf, off))
      | RecvEintr => read_loop fuel (with_stats c (count_eintr st)) buf at_ n deadline_ms off
      | RecvAgain => read_loop fuel c buf at_ n deadline_ms off
      | RecvError => mret (Some (NET_ERR_IO, c, buf, off))
      end
    end
  end.

Definition net_read_exact (fuel : nat) (c : option net_conn_t) (buf : option (list byte)) (at_ n deadline_ms : Z)
    (got : option Z) : M (option (net_status_t * option net_conn_t * option (list byte) * option Z)) :=
  match got with
  | None => mret (Some (NET_ERR_INVALID_ARG, c, buf, None))
  | Some _ =>
    match c with
    | None => mret (Some (NET_ERR_INVALID_ARG, c, buf, Some 0))
    | Some c0 =>
      match buf with
      | None => if (nc_fd c0 <? 0) || negb (n =? 0) then mret (Some (NET_ERR_INVALID_ARG, c, buf, Some 0))
                else mret (Some (NET_OK, c, buf, Some 0))
      | Some b =>
        if nc_fd c0 <? 0 then mret (Some (NET_ERR_INVALID_ARG, c, buf, Some 0)) else
        r ← read_loop fuel c0 b at_ n deadline_ms 0;
        mret (match r with
              | None => None
              | Some (st, c, b, off) => Some (st, Some c, Some b, Some off)
              end)
      end
    end
  end.

Fixpoint write_loop (fuel : nat) (c : net_conn_t) (buf : list byte) (deadline_ms off : Z)
    : M (option (net_status_t * net_conn_t)) :=
  if blen buf <=? off then mret (Some (NET_OK, c)) else
  match fuel with
  | O => mret None
  | S fuel =>
    r ← wait_io fuel (nc_fd c) POLLOUT deadline_ms (nc_stats c);
    match r with
    | None => mret None
    | Some (w, st) =>
      let c := with_stats c st in
      if negb (bool_decide (w = NET_OK)) then mret (Some (w, c)) else
      r ← (os_send (nc_fd c) (zdrop off buf) : M send_result);
      match r with
      | SendData k =>
        if 0 <? k then write_loop fuel (with_stats c (count_send st k)) buf deadline_ms (off + k)
        else mret (Some (NET_ERR_IO, c))
      | SendEintr => write_loop fuel (with_stats c (count_eintr st)) buf deadline_ms off
      | SendAgain => write_loop fuel c buf deadline_ms off
      | SendError => mret (Some (NET_ERR_IO, c))
      end
    end
  end.

(** [buf] are the [n] bytes to write; NULL with [n = 0] is the empty list. *)
Definition net_write_all (fuel : nat) (c : option net_conn_t) (buf : list byte) (deadline_ms : Z)
    : M (option (net_status_t * option net_conn_t)) :=
  match c with
  | None => mret (Some (NET_ERR_INVALID_ARG, c))
  | Some c0 =>
    if nc_fd c0 <? 0 then mret (Some (NET_ERR_INVALID_ARG, c)) else
    r ← write_loop fuel c0 buf deadline_ms 0;
    mret (match r with None => None | Some (st, c) => Some (st, Some c) end)
  end.

End ops.

Lemma read_loop_fd `{OS : NetOs} fuel c buf at_ n dl off w st c' buf' got w' :
  read_loop fuel c buf at_ n dl off w = (Some (st, c', buf', got), w') -> nc_fd c' = nc_fd c.
Proof.
  revert c buf off w. induction fuel as [|fuel IH]; intros c buf off w H; cbn [read_loop] in H; destruct (_ <=? _);
    [by injection H as _ <- _ _ _|done|by injection H as _ <- _ _ _|].
  rewrite M_bind_unfold in H. destruct (wait_io _ _ _ _ _ w) as [[[r st1]|] w1]; cbn [fst snd] in H; [|done].
  destruct (negb _); [by injection H as _ <- _ _ _|]. rewrite M_bind_unfold in H.
  destruct (os_recv _ _ _) as [[] w2]; cbn [fst snd] in H; try (by injection H as _ <- _ _ _); by apply IH in H.
Qed.

(** ** Documented behaviour of a connected stream socket

    [incoming] are the bytes the peer has sent and nobody has read, [outgoing]
    those accepted for sending.  [recv] takes from the front of one, [send]
    appends a prefix of its argument to the other, and nothing else touches
    them; end of file is reported only when nothing is left. *)
Class NetStream `{OS : NetOs} := {
  incoming : world -> list byte;
  outgoing : world -> list byte;
  stream_clock : forall w, incoming (clock_gettime w).2 = incoming w /\ outgoing (clock_gettime w).2 = outgoing w;
  stream_poll : forall fd ev t w,
    incoming (os_poll fd ev t w).2 = incoming w /\ outgoing (os_poll fd ev t w).2 = outgoing w;
  stream_recv : forall fd n w r w', 0 < n -> os_recv fd n w = (r, w') ->
    outgoing w' = outgoing w /\
    match r with
    | RecvData l => 1 <= blen l <= n /\ incoming w = l ++ incoming w'
    | RecvEof => incoming w = [] /\ incoming w' = []
    | _ => incoming w' = incoming w
    end;
  stream_send : forall fd d w r w', d <> [] -> os_send fd d w = (r, w') ->
    incoming w' = incoming w /\
    match r with
    | SendData k => 1 <= k <= blen d /\ outgoing w' = outgoing w ++ ztake k d
    | _ => outgoing w' = outgoing w
    end }.

(** Interruptions, spurious wake-ups and poll timeouts are finitely many:
    [patience] bounds those still to come. *)
Class NetPatient `{OS : NetOs} := {
  patience : world -> nat;
  patient_clock : forall w, (patience (clock_gettime w).2 <= patience w)%nat;
  patient_poll : forall fd ev t w,
    match os_poll fd ev t w with
    | (PollTimeout, w') | (PollEintr, w') => (patience w' < patience w)%nat
    | (_, w') => (patience w' <= patience w)%nat
    end;
  patient_recv : forall fd n w,
    match os_recv fd n w with
    | (RecvEintr, w') | (RecvAgain, w') => (patience w' < patience w)%nat
    | (RecvData l, w') => (patience w' <= patience w)%nat /\ 1 <= blen l
    | (_, w') => (patience w' <= patience w)%nat
    end;
  patient_send : forall fd d w,
    match os_send fd d w with
    | (SendEintr, w') | (SendAgain, w') => (patience w' < patience w)%nat
    | (_, w') => (patience w' <= patience w)%nat
    end }.

Section stream.
Context `{NS : NetStream}.

(** Nothing moves on the wire between two worlds. *)
Definition still (w w' : world) : Prop := incoming w' = incoming w /\ outgoing w' = outgoing w.

Lemma still_trans w1 w2 w3 : still w1 w2 -> still w2 w3 -> still w1 w3.
Proof. intros [] []. split; congruence. Qed.

Lemma now_still w : still w (net_now_ms w).2.
Proof.
  unfold net_now_ms, handshake_default_clock_ms, default_monotonic_ms. rewrite M_bind_unfold.
  pose proof (stream_clock w) as H. destruct (clock_gettime w) as [[[s ns]|] w']; exact H.
Qed.

Lemma wait_round_still fd ev dl st w : still w (wait_round fd ev dl st w).2.
Proof.
  unfold wait_round. destruct (_ =? _).
  - rewrite M_bind_unfold, M_ret_unfold. apply stream_poll.
  - rewrite M_bind_unfold. pose proof (now_still w) as H. destruct (net_now_ms w) as [now w1]. cbn [fst snd] in *.
    destruct (_ || _); [done|]. rewrite M_bind_unfold, M_ret_unfold. eapply still_trans; [exact H|apply stream_poll].
Qed.

Lemma wait_io_still fuel fd ev dl st w : still w (wait_io fuel fd ev dl st w).2.
Proof.
  revert st w. induction fuel as [|fuel IH]; intros st w; [done|]. cbn [wait_io]. rewrite M_bind_unfold.
  pose proof (wait_round_still fd ev dl st w) as H. destruct (wait_round fd ev dl st w) as [[res|st'] w1]; cbn [fst snd] in *; [done|].
  eapply still_trans; [exact H|apply IH].
Qed.

Lemma wait_io_not_eof fuel fd ev dl st w r st' w' :
  wait_io fuel fd ev dl st w = (Some (r, st'), w') -> r <> NET_EOF /\ r <> NET_ERR_INVALID_ARG.
Proof.
  revert st w. induction fuel as [|fuel IH]; intros st w; [done|]. cbn [wait_io]. rewrite M_bind_unfold.
  destruct (wait_round fd ev dl st w) as [[[r1 st1]|st1] w1] eqn:Er; cbn [fst snd]; [|apply IH].
  rewrite M_ret_unfold. intros [= <- <- <-]. unfold wait_round in Er. destruct (_ =? _) in Er.
  - rewrite M_bind_unfold, M_ret_unfold in Er. destruct (os_poll _ _ _ _) as [[] ?]; cbn in Er; by simplify_eq.
  - rewrite M_bind_unfold in Er. destruct (_ || _) in Er; [rewrite M_ret_unfold in Er; by simplify_eq|].
    rewrite M_bind_unfold, M_ret_unfold in Er. destruct (os_poll _ _ _ _) as [[] ?]; cbn in Er; by simplify_eq.
Qed.

(** Reading takes the next bytes of the stream, all [n] of them on success. *)
Lemma read_loop_spec fuel c buf at_ n dl off w st c' buf' got w' :
  0 <= at_ -> 0 <= off <= n -> at_ + n <= blen buf ->
  read_loop fuel c buf at_ n dl off w = (Some (st, c', buf', got), w') ->
  exists l, incoming w = l ++ incoming w' /\ outgoing w' = outgoing w /\ buf' = poke (at_ + off) l buf /\
    got = off + blen l /\ got <= n /\ (st = NET_OK <-> got = n) /\ (st = NET_EOF -> incoming w' = []) /\
    st <> NET_ERR_INVALID_ARG.
Proof.
  revert c buf off w. induction fuel as [|fuel IH]; intros c buf off w Hat Hoff Hfit H; cbn [read_loop] in H;
    destruct (Z.leb_spec n off).
  1, 3: injection H as <- <- <- <- <-; exists []; rewrite poke_nil, Z.add_0_r by lia; split_and!; done || lia || (split; done || lia).
  { done. }
  rewrite M_bind_unfold in H. pose proof (wait_io_still fuel (nc_fd c) POLLIN dl (nc_stats c) w) as [Hi Ho].
  destruct (wait_io fuel (nc_fd c) POLLIN dl (nc_stats c) w) as [[[r st1]|] w1] eqn:Ew; cbn [fst snd] in *; [|done].
  apply wait_io_not_eof in Ew as [Hne Hna].
  assert (Hnone : forall st2 c2 w2, st2 <> NET_OK -> st2 <> NET_ERR_INVALID_ARG -> (st2 = NET_EOF -> incoming w2 = []) ->
    incoming w2 = incoming w -> outgoing w2 = outgoing w -> (Some (st2, c2, buf, off), w2) = (Some (st, c', buf', got), w') ->
    exists l, incoming w = l ++ incoming w' /\ outgoing w' = outgoing w /\ buf' = poke (at_ + off) l buf /\
      got = off + blen l /\ got <= n /\ (st = NET_OK <-> got = n) /\ (st = NET_EOF -> incoming w' = []) /\
      st <> NET_ERR_INVALID_ARG).
  { intros st2 c2 w2 ????? [= <- <- <- <- <-]. exists []. rewrite poke_nil, Z.add_0_r by lia. split_and!; done || lia || (split; done || lia). }
  destruct (bool_decide_reflect (r = NET_OK)) as [->|Hr]; cbn [negb] in H; [|by eapply Hnone; [..|exact H]].
  rewrite M_bind_unfold in H. destruct (os_recv (nc_fd (with_stats c st1)) (n - off) w1) as [rr w2] eqn:Er.
  apply stream_recv in Er as [Ho2 Hrr]; [|lia]. cbn [fst snd] in H. destruct rr as [l| | | |].
  - destruct Hrr as [Hl Hin]. apply IH in H as (l' & H1 & H2 & H3 & H4 & H5 & H6 & H7 & H8);
      [|lia|lia|rewrite length_poke; lia].
    exists (l ++ l'). rewrite <-Hi, Hin, H1, app_assoc. rewrite length_app, Nat2Z.inj_add. split_and!; try done; try lia; [congruence|].
    rewrite H3, Z.add_assoc. apply poke_extend; lia.
  - destruct Hrr as [Hin Hin']. eapply Hnone; [..|exact H]; try done; congruence.
  - apply IH in H as (l' & H1 & H2 & H3); [|lia..]. exists l'. split; [congruence|]. split; [congruence|exact H3].
  - apply IH in H as (l' & H1 & H2 & H3); [|lia..]. exists l'. split; [congruence|]. split; [congruence|exact H3].
  - eapply Hnone; [..|exact H]; try done; congruence.
Qed.

(** Writing appends a prefix of the buffer, the whole buffer on success. *)
Lemma write_loop_spec fuel c buf dl off w st c' w' :
  0 <= off <= blen buf -> write_loop fuel c buf dl off w = (Some (st, c'), w') ->
  exists k, off <= k <= blen buf /\ outgoing w' = outgoing w ++ peek off (k - off) buf /\ incoming w' = incoming w /\
    (st = NET_OK -> k = blen buf) /\ st <> NET_EOF /\ st <> NET_ERR_INVALID_ARG.
Proof.
  revert c off w. induction fuel as [|fuel IH]; intros c off w Hoff H; cbn [write_loop] in H;
    destruct (Z.leb_spec (blen buf) off).
  1, 3: injection H as <- <- <-; exists off; rewrite Z.sub_diag; unfold peek; rewrite take_0, app_nil_r; split_and!; done || lia.
  { done. }
  rewrite M_bind_unfold in H. pose proof (wait_io_still fuel (nc_fd c) POLLOUT dl (nc_stats c) w) as [Hi Ho].
  destruct (wait_io fuel (nc_fd c) POLLOUT dl (nc_stats c) w) as [[[r st1]|] w1] eqn:Ew; cbn [fst snd] in *; [|done].
  apply wait_io_not_eof in Ew as [Hne Hna].
  assert (Hnone : forall st2 c2 w2, st2 <> NET_OK -> st2 <> NET_EOF -> st2 <> NET_ERR_INVALID_ARG ->
    incoming w2 = incoming w -> outgoing w2 = outgoing w -> (Some (st2, c2), w2) = (Some (st, c'), w') ->
    exists k, off <= k <= blen buf /\ outgoing w' = outgoing w ++ peek off (k - off) buf /\ incoming w' = incoming w /\
    (st = NET_OK -> k = blen buf) /\ st <> NET_EOF /\ st <> NET_ERR_INVALID_ARG).
  { intros st2 c2 w2 ????? [= <- <- <-]. exists off. rewrite Z.sub_diag. unfold peek. rewrite take_0, app_nil_r. split_and!; done || lia. }
  destruct (bool_decide_reflect (r = NET_OK)) as [->|Hr]; cbn [negb] in H; [|by eapply Hnone; [..|exact H]].
  rewrite M_bind_unfold in H. destruct (os_send (nc_fd (with_stats c st1)) (zdrop off buf) w1) as [rr w2] eqn:Er.
  assert (Hd : blen (zdrop off buf) = blen buf - off) by (rewrite length_drop; lia).
  apply stream_send in Er as [Ho2 Hrr]; [|intros E0; rewrite E0 in Hd; cbn in Hd; lia]. cbn [fst snd] in H.
  destruct rr as [k| | |].
  - destruct Hrr as [Hl Hout]. rewrite (proj2 (Z.ltb_lt _ _)) in H by lia.
    apply IH in H as (k' & H1 & H2 & H3 & H4); [|lia]. exists k'.
    rewrite H2, Hout, Ho. split; [lia|]. split; [|split; [congruence|exact H4]].
    rewrite <-app_assoc. f_equal. unfold peek.
    replace (Z.to_nat (k' - off)) with (Z.to_nat k + Z.to_nat (k' - (off + k)))%nat by lia.
    rewrite <-take_take_drop, drop_drop. do 3 f_equal. lia.
  - apply IH in H as (k' & H1 & H2 & H3 & H4); [|lia..]. exists k'. split; [exact H1|]. split; [congruence|]. split; [congruence|exact H4].
  - apply IH in H as (k' & H1 & H2 & H3 & H4); [|lia..]. exists k'. split; [exact H1|]. split; [congruence|]. split; [congruence|exact H4].
  - eapply Hnone; [..|exact H]; try done; congruence.
Qed.

End stream.

(** ** Termination: enough fuel for the interruptions still to come *)
Section patient.
Context `{NP : NetPatient}.

Lemma now_patient w : (patience (net_now_ms w).2 <= patience w)%nat.
Proof.
  unfold net_now_ms, handshake_default_clock_ms, default_monotonic_ms. rewrite M_bind_unfold.
  pose proof (patient_clock w) as H. destruct (clock_gettime w) as [[[s ns]|] w']; exact H.
Qed.

Lemma wait_round_patient fd ev dl st w :
  match wait_round fd ev dl st w with
  | (inl _, w') => (patience w' <= patience w)%nat
  | (inr _, w') => (patience w' < patience w)%nat
  end.
Proof.
  unfold wait_round. destruct (_ =? _).
  - rewrite M_bind_unfold, M_ret_unfold. pose proof (patient_poll fd ev (-1) w). by destruct (os_poll _ _ _ _) as [[] ?].
  - rewrite M_bind_unfold. pose proof (now_patient w). destruct (net_now_ms w) as [now w1]. cbn [fst snd] in *.
    destruct (_ || _); [done|]. rewrite M_bind_unfold, M_ret_unfold.
    match goal with |- context [os_poll ?a ?b ?c ?d] => pose proof (patient_poll a b c d); destruct (os_poll a b c d) as [[] ?] end;
      cbn [fst snd] in *; lia.
Qed.

Lemma wait_io_ends fuel fd ev dl st w :
  (patience w < fuel)%nat ->
  exists r, (wait_io fuel fd ev dl st w).1 = Some r /\ (patience (wait_io fuel fd ev dl st w).2 <= patience w)%nat.
Proof.
  revert st w. induction fuel as [|fuel IH]; intros st w Hf; [lia|]. cbn [wait_io]. rewrite M_bind_unfold.
  pose proof (wait_round_patient fd ev dl st w) as H. destruct (wait_round fd ev dl st w) as [[res|st'] w1]; cbn [fst snd].
  - rewrite M_ret_unfold. by exists res.
  - destruct (IH st' w1) as (r & H1 & H2); [lia|]. exists r. split; [done|lia].
Qed.

Lemma read_loop_ends fuel c buf at_ n dl off w :
  (patience w + Z.to_nat (n - off) < fuel)%nat ->
  exists r, (read_loop fuel c buf at_ n dl off w).1 = Some r /\
    (patience (read_loop fuel c buf at_ n dl off w).2 <= patience w)%nat.
Proof.
  revert c buf off w. induction fuel as [|fuel IH]; intros c buf off w Hf; [lia|]. cbn [read_loop].
  destruct (Z.leb_spec n off); [by eexists|]. rewrite M_bind_unfold.
  destruct (wait_io_ends fuel (nc_fd c) POLLIN dl (nc_stats c) w) as ([r st1] & Hr & Hp); [lia|].
  destruct (wait_io _ _ _ _ _ w) as [o w1]. cbn [fst snd] in *. subst o.
  destruct (negb _); [by eexists|]. rewrite M_bind_unfold.
  assert (Hnext : forall c2 b2 off2 w2, (patience w2 + Z.to_nat (n - off2) < fuel)%nat -> (patience w2 <= patience w)%nat ->
    exists r, (read_loop fuel c2 b2 at_ n dl off2 w2).1 = Some r /\
      (patience (read_loop fuel c2 b2 at_ n dl off2 w2).2 <= patience w)%nat).
  { intros c2 b2 off2 w2 H2 H3. destruct (IH c2 b2 off2 w2 H2) as (x & ? & ?). exists x. split; [done|lia]. }
  match goal with |- context [os_recv ?a ?b ?d] => pose proof (patient_recv a b d) as Hrv; destruct (os_recv a b d) as [[l| | | |] w2] end;
    cbn [fst snd] in *; try (apply Hnext; lia); rewrite M_ret_unfold; cbn [fst snd]; eexists; (split; [done|]); lia.
Qed.

Lemma write_loop_ends fuel c buf dl off w :
  (patience w + Z.to_nat (blen buf - off) < fuel)%nat -> is_Some (write_loop fuel c buf dl off w).1.
Proof.
  revert c off w. induction fuel as [|fuel IH]; intros c off w Hf; [lia|]. cbn [write_loop].
  destruct (Z.leb_spec (blen buf) off); [by eexists|]. rewrite M_bind_unfold.
  destruct (wait_io_ends fuel (nc_fd c) POLLOUT dl (nc_stats c) w) as ([r st1] & Hr & Hp); [lia|].
  destruct (wait_io _ _ _ _ _ w) as [o w1]. cbn [fst snd] in *. subst o.
  destruct (negb _); [by eexists|]. rewrite M_bind_unfold.
  match goal with |- context [os_send ?a ?b ?d] => pose proof (patient_send a b d) as Hrv; destruct (os_send a b d) as [[k| | |] w2] end;
    cbn [fst snd] in *; try (by eexists); [|apply IH; lia..].
  destruct (Z.ltb_spec 0 k); [apply IH; lia|by eexists].
Qed.

End patient.

(** ** A concrete network

    The toy environment next to a socket: bytes to receive, bytes sent, and a
    number of interruptions still to come.  At most three bytes are transferred
    per call. *)
Record socket := Socket { sk_in : list byte; sk_out : list byte; sk_noise : nat }.

Definition beside {A} (f : Z -> A * Z) (w : Z * socket) : A * (Z * socket) := let '(a, w0) := f w.1 in (a, (w0, w.2)).

Definition toy_net_env : Env := {|
  world := Z * socket;
  sodium_malloc n := beside (sodium_malloc (Env := toy_env) n);
  randombytes_buf n := beside (randombytes_buf (Env := toy_env) n);
  sha_state := sha_state (Env := toy_env);
  crypto_hash_sha256_init := crypto_hash_sha256_init (Env := toy_env);
  crypto_hash_sha256_update := crypto_hash_sha256_update (Env := toy_env);
  crypto_hash_sha256_final := crypto_hash_sha256_final (Env := toy_env);
  crypto_scalarmult_base := crypto_scalarmult_base (Env := toy_env);
  crypto_scalarmult := crypto_scalarmult (Env := toy_env);
  crypto_kdf_hkdf_sha256_extract := crypto_kdf_hkdf_sha256_extract (Env := toy_env);
  crypto_kdf_hkdf_sha256_expand := crypto_kdf_hkdf_sha256_expand (Env := toy_env);
  crypto_aead_encrypt := crypto_aead_encrypt (Env := toy_env);
  crypto_aead_decrypt := crypto_aead_decrypt (Env := toy_env);
  crypto_shorthash := crypto_shorthash (Env := toy_env);
  OQS_SIG_new := beside (OQS_SIG_new (Env := toy_env));
  OQS_SIG_keypair := beside (OQS_SIG_keypair (Env := toy_env));
  OQS_SIG_sign m k := beside (OQS_SIG_sign (Env := toy_env) m k);
  OQS_SIG_verify := OQS_SIG_verify (Env := toy_env);
  OQS_KEM_new := beside (OQS_KEM_new (Env := toy_env));
  OQS_KEM_keypair := beside (OQS_KEM_keypair (Env := toy_env));
  OQS_KEM_encaps ek := beside (OQS_KEM_encaps (Env := toy_env) ek);
  OQS_KEM_decaps := OQS_KEM_decaps (Env := toy_env);
  clock_gettime := beside (clock_gettime (Env := toy_env)) |}.

Definition quieter (s : socket) : socket := Socket (sk_in s) (sk_out s) (pred (sk_noise s)).

Definition toy_poll (w : Z * socket) : poll_result * (Z * socket) :=
  match sk_noise w.2 with O => (PollReady, w) | S _ => (PollEintr, (w.1, quieter w.2)) end.
Definition toy_recv (n : Z) (w : Z * socket) : recv_result * (Z * socket) :=
  match sk_in w.2 with
  | [] => (RecvEof, w)
  | _ => let k := Z.to_nat (Z.max 1 (Z.min n 3)) in
         (RecvData (take k (sk_in w.2)), (w.1, Socket (drop k (sk_in w.2)) (sk_out w.2) (sk_noise w.2)))
  end.
Definition toy_send (d : list byte) (w : Z * socket) : send_result * (Z * socket) :=
  match d with
  | [] => (SendError, w)
  | _ => let k := Z.min (blen d) 3 in (SendData k, (w.1, Socket (sk_in w.2) (sk_out w.2 ++ ztake k d) (sk_noise w.2)))
  end.

Definition toy_net_os : NetOs toy_net_env :=
  Build_NetOs toy_net_env (fun _ _ _ => toy_poll) (fun _ => toy_recv) (fun _ => toy_send).

Definition toy_net_stream : NetStream (OS := toy_net_os).
Proof.
  refine {| incoming := fun w : @world toy_net_env => sk_in (snd (w : Z * socket));
            outgoing := fun w : @world toy_net_env => sk_out (snd (w : Z * socket)) |}.
  - done.
  - intros fd ev t [z [i o k]]. by destruct k.
  - intros fd n [z [i o k]] r w' Hn H. cbn in H. destruct i as [|b i]; injection H as <- <-; [done|].
    split; [done|]. split; [|symmetry; apply (take_drop _ (b :: i))]. rewrite length_take. cbn [length]. lia.
  - intros fd d [z [i o k]] r w' Hd H. cbn in H. destruct d as [|b d]; [done|]. injection H as <- <-.
    split; [done|]. split; [cbn [length]; lia|done].
Defined.

Definition toy_net_patient : NetPatient (OS := toy_net_os).
Proof.
  refine {| patience := fun w : @world toy_net_env => sk_noise (snd (w : Z * socket)) |}.
  - done.
  - intros fd ev t [z [i o k]]. destruct k; cbn; lia.
  - intros fd n [z [i o k]]. cbn. unfold toy_recv. cbn. destruct i as [|b i]; cbn; [lia|]. split; [lia|]. rewrite length_take. cbn [length]. lia.
  - intros fd d [z [i o k]]. cbn. unfold toy_send. destruct d; cbn; lia.
Defined.
