(* ===== verification/Frame.v ===== *)
(** * Length-prefixed frames ([apps/frame.c])

    The 32-bit header, sending and receiving over [NetIo], and what a frame
    exchange does to the byte streams of the two ends. *)

From S2P Require Import Prelude Extern Toy Pending Session NetIo.

Definition FRAME_HEADER_BYTES : Z := 4.
Definition FRAME_MAX_PAYLOAD : Z := SESSION_MAX_RECORD_BYTES.

Inductive frame_status_t :=
  | FRAME_OK | FRAME_EOF | FRAME_TRUNCATED | FRAME_TIMEOUT | FRAME_IO | FRAME_BAD_LENGTH | FRAME_INVALID_ARG.
#[global] Instance frame_status_eq_dec : EqDecision frame_status_t.
Proof. solve_decision. Defined.

(** The four bytes written to [hdr]. *)
Definition frame_put_header (len : Z) : list byte :=
  [u8 (Z.shiftr len 24); u8 (Z.shiftr len 16); u8 (Z.shiftr len 8); u8 len].

Definition frame_get_header (hdr : list byte) : Z :=
  Z.lor (Z.lor (Z.lor (u32 (Z.shiftl (bz (byte_at hdr 0)) 24)) (u32 (Z.shiftl (bz (byte_at hdr 1)) 16)))
    (u32 (Z.shiftl (bz (byte_at hdr 2)) 8))) (bz (byte_at hdr 3)).

Definition from_net (st : net_status_t) : frame_status_t :=
  match st with
  | NET_OK => FRAME_OK
  | NET_TIMEOUT => FRAME_TIMEOUT
  | NET_ERR_INVALID_ARG => FRAME_INVALID_ARG
  | NET_EOF | NET_ERR_IO => FRAME_IO
  end.

Section ops.
Context `{OS : NetOs}.

(** Result: status, connection and the buffer with its header written. *)
Definition frame_send (fuel : nat) (c : option net_conn_t) (buf : option (list byte)) (payload_len deadline_ms : Z)
    : M (option (frame_status_t * option net_conn_t * option (list byte))) :=
  match c, buf with
  | Some _, Some b =>
    if (payload_len =? 0) || (FRAME_MAX_PAYLOAD <? payload_len) then mret (Some (FRAME_INVALID_ARG, c, buf)) else
    let b := poke 0 (frame_put_header (u32 payload_len)) b in
    r ← net_write_all fuel c (ztake (FRAME_HEADER_BYTES + payload_len) b) deadline_ms;
    mret (match r with
          | None => None
          | Some (st, c) => Some (if bool_decide (st = NET_EOF) then FRAME_IO else from_net st, c, Some b)
          end)
  | _, _ => mret (Some (FRAME_INVALID_ARG, c, buf))
  end.

(** Result: status, connection, buffer and [*payload_len]. *)
Definition frame_recv (fuel : nat) (c : option net_conn_t) (buf : option (list byte)) (min_len max_len : Z)
    (payload_len : option Z) (deadline_ms : Z)
    : M (option (frame_status_t * option net_conn_t * option (list byte) * option Z)) :=
  let payload_len := match payload_len with Some _ => Some 0 | None => None end in
  match c, buf, payload_len with
  | Some _, Some _, Some _ =>
    if (min_len =? 0) || (max_len <? min_len) || (FRAME_MAX_PAYLOAD <? max_len)
    then mret (Some (FRAME_INVALID_ARG, c, buf, payload_len)) else
    r ← net_read_exact fuel c buf 0 FRAME_HEADER_BYTES deadline_ms (Some 0);
    match r with
    | None => mret None
    | Some (st, c, buf, got) =>
      if bool_decide (st = NET_EOF)
      then mret (Some (if default 0 got =? 0 then FRAME_EOF else FRAME_TRUNCATED, c, buf, payload_len)) else
      if negb (bool_decide (st = NET_OK)) then mret (Some (from_net st, c, buf, payload_len)) else
      let len := frame_get_header (default [] buf) in
      if (len <? min_len) || (max_len <? len) then mret (Some (FRAME_BAD_LENGTH, c, buf, payload_len)) else
      r ← net_read_exact fuel c buf FRAME_HEADER_BYTES len deadline_ms got;
      match r with
      | None => mret None
      | Some (st, c, buf, got) =>
        if bool_decide (st = NET_EOF) then mret (Some (FRAME_TRUNCATED, c, buf, payload_len)) else
        if negb (bool_decide (st = NET_OK)) then mret (Some (from_net st, c, buf, payload_len)) else
        mret (Some (FRAME_OK, c, buf, Some len))
      end
    end
  | _, _, _ => mret (Some (FRAME_INVALID_ARG, c, buf, payload_len))
  end.

End ops.

Lemma put_header_be len : frame_put_header len = be_enc 4 len.
Proof. unfold frame_put_header. simpl. by rewrite Z.shiftr_0_r. Qed.

Lemma shifted_byte b k : 0 <= k <= 24 -> u32 (Z.shiftl (bz b) k) = Z.shiftl (bz b) k.
Proof.
  intros Hk. apply Z.mod_small. rewrite Z.shiftl_mul_pow2 by lia. pose proof (bz_range b).
  assert (2 ^ k <= 2 ^ 24) by (apply Z.pow_le_mono_r; lia). change (2 ^ 32) with (256 * 2 ^ 24). nia.
Qed.

Lemma get_header_be a b c d rest : frame_get_header (a :: b :: c :: d :: rest) = be_dec [a; b; c; d].
Proof.
  unfold frame_get_header, byte_at. cbn [nth Z.to_nat Pos.to_nat Pos.iter_op Init.Nat.add].
  rewrite !shifted_byte by lia. unfold be_dec, be_step. cbn [fold_left].
  rewrite Z.shiftl_0_l, Z.lor_0_l, !Z.shiftl_lor, !Z.shiftl_shiftl by lia. done.
Qed.

Lemma get_header_poke hdr buf : blen hdr = FRAME_HEADER_BYTES -> frame_get_header (poke 0 hdr buf) = be_dec hdr.
Proof.
  intros H. destruct hdr as [|a [|b [|c [|d [|]]]]]; unfold FRAME_HEADER_BYTES in H; cbn in H; try lia. rewrite poke_0. apply get_header_be.
Qed.

Lemma header_len len : blen (frame_put_header len) = FRAME_HEADER_BYTES.
Proof. done. Qed.

Section stream.
Context `{NS : NetStream}.

Lemma read_exact_spec fuel c buf at_ n dl g w st c' buf' got w' :
  0 <= nc_fd c -> 0 <= at_ -> 0 <= n -> at_ + n <= blen buf ->
  net_read_exact fuel (Some c) (Some buf) at_ n dl (Some g) w = (Some (st, c', buf', got), w') ->
  exists l c1, c' = Some c1 /\ incoming w = l ++ incoming w' /\ outgoing w' = outgoing w /\ buf' = Some (poke at_ l buf) /\
    got = Some (blen l) /\ blen l <= n /\ (st = NET_OK <-> blen l = n) /\ (st = NET_EOF -> incoming w' = []) /\
    st <> NET_ERR_INVALID_ARG /\ nc_fd c1 = nc_fd c.
Proof.
  intros Hfd Hat Hn Hfit H. unfold net_read_exact in H. rewrite (proj2 (Z.ltb_ge _ _)) in H by done. rewrite M_bind_unfold in H.
  destruct (read_loop fuel c buf at_ n dl 0 w) as [[[[[st1 c1] b1] off]|] w1] eqn:Er; cbn [fst snd] in H; [|done].
  rewrite M_ret_unfold in H. injection H as <- <- <- <- <-.
  pose proof (read_loop_fd _ _ _ _ _ _ _ _ _ _ _ _ _ Er) as Hf.
  apply read_loop_spec in Er as (l & H1 & H2 & H3 & H4 & H5 & H6 & H7 & H8); [|lia..].
  rewrite Z.add_0_r in H3. rewrite Z.add_0_l in H4. subst. by eexists l, c1.
Qed.

(** What each status of [frame_recv] says about the stream. *)
Definition recv_meaning (st : frame_status_t) (min_len max_len : Z) (w w' : world) (buf' : list byte) (n : Z) : Prop :=
  match st with
  | FRAME_OK => exists payload, min_len <= blen payload <= max_len /\
      incoming w = frame_put_header (blen payload) ++ payload ++ incoming w' /\ n = blen payload /\
      peek FRAME_HEADER_BYTES n buf' = payload
  | FRAME_BAD_LENGTH => exists hdr, blen hdr = FRAME_HEADER_BYTES /\ incoming w = hdr ++ incoming w' /\
      ~ min_len <= be_dec hdr <= max_len
  | FRAME_EOF => incoming w = [] /\ incoming w' = []
  | FRAME_TRUNCATED => incoming w <> [] /\ incoming w' = [] /\
      (blen (incoming w) < FRAME_HEADER_BYTES \/
       exists hdr part, incoming w = hdr ++ part /\ blen hdr = FRAME_HEADER_BYTES /\ blen part < be_dec hdr)
  | FRAME_TIMEOUT | FRAME_IO => incoming w' `suffix_of` incoming w
  | FRAME_INVALID_ARG => False
  end.

Lemma frame_recv_cases fuel c buf min_len max_len dl g w st c' buf' n w' :
  0 <= nc_fd c -> 1 <= min_len <= max_len -> max_len <= FRAME_MAX_PAYLOAD -> FRAME_HEADER_BYTES + max_len <= blen buf ->
  frame_recv fuel (Some c) (Some buf) min_len max_len (Some g) dl w = (Some (st, c', buf', n), w') ->
  exists b k, buf' = Some b /\ n = Some k /\ recv_meaning st min_len max_len w w' b k /\ outgoing w' = outgoing w /\
    (st <> FRAME_OK -> k = 0).
Proof.
  intros Hfd Hmin Hmax Hfit H. unfold frame_recv in H.
  rewrite (proj2 (Z.eqb_neq _ _)), !(proj2 (Z.ltb_ge _ _)) in H by lia. cbn [orb] in H. rewrite M_bind_unfold in H.
  destruct (net_read_exact fuel (Some c) (Some buf) 0 FRAME_HEADER_BYTES dl (Some 0) w) as [[[[[st1 c1] b1] g1]|] w1] eqn:E1;
    cbn [fst snd] in H; [|done].
  apply read_exact_spec in E1 as (hdr & c2 & -> & Hin & Hout & -> & -> & Hle & Hok & Heof & Hna & Hfd2);
    [|done|done|done|unfold FRAME_HEADER_BYTES in *; lia].
  destruct (bool_decide_reflect (st1 = NET_EOF)) as [->|Hne1].
  { rewrite M_ret_unfold in H. injection H as <- <- <- <- <-. specialize (Heof eq_refl). eexists _, _. split; [done|].
    split; [done|]. cbn [default id]. rewrite Heof, app_nil_r in Hin. split; [|done].
    assert (blen hdr <> FRAME_HEADER_BYTES) by (intros Eq; by apply Hok in Eq).
    destruct (Z.eqb_spec (blen hdr) 0); [destruct hdr; [split; [exact Hin|exact Heof]|done]|].
    split; [rewrite Hin; by destruct hdr|]. split; [done|]. left. rewrite Hin. lia. }
  destruct (bool_decide_reflect (st1 = NET_OK)) as [->|Hne2]; cbn [negb] in H; cycle 1.
  { rewrite M_ret_unfold in H. injection H as <- <- <- <- <-. eexists _, _. split; [done|]. split; [done|].
    split; [|done]. by destruct st1; try done; exists hdr. }
  assert (Hh : blen hdr = FRAME_HEADER_BYTES) by (by apply Hok). cbn [default id] in H. rewrite get_header_poke in H by done.
  destruct (_ || _) eqn:E2 in H.
  { rewrite M_ret_unfold in H. injection H as <- <- <- <- <-. eexists _, _. split; [done|]. split; [done|].
    split; [|done]. exists hdr. split; [done|]. split; [done|]. apply orb_true_iff in E2. lia. }
  apply orb_false_iff in E2 as [Hlo%Z.ltb_ge Hhi%Z.ltb_ge]. rewrite M_bind_unfold in H.
  destruct (net_read_exact fuel (Some c2) _ FRAME_HEADER_BYTES (be_dec hdr) dl _ w1) as [[[[[st3 c3] b3] g3]|] w3] eqn:E3;
    cbn [fst snd] in H; [|done].
  apply read_exact_spec in E3 as (l & c4 & -> & Hin3 & Hout3 & -> & -> & Hle3 & Hok3 & Heof3 & Hna3 & _);
    [|lia|done|lia|rewrite length_poke; unfold FRAME_HEADER_BYTES in *; lia].
  destruct (bool_decide_reflect (st3 = NET_EOF)) as [->|Hne3].
  { rewrite M_ret_unfold in H. injection H as <- <- <- <- <-. specialize (Heof3 eq_refl). eexists _, _. split; [done|].
    split; [done|]. split; [|split; [congruence|done]]. split; [rewrite Hin; by destruct hdr|]. split; [done|]. right.
    exists hdr, l. rewrite Hin, Hin3, Heof3, app_nil_r. split; [done|]. split; [done|].
    assert (blen l <> be_dec hdr) by (intros Eq; by apply Hok3 in Eq). lia. }
  destruct (bool_decide_reflect (st3 = NET_OK)) as [->|Hne4]; cbn [negb] in H; rewrite M_ret_unfold in H;
    injection H as <- <- <- <- <-; eexists _, _; (split; [done|]); (split; [done|]); (split; [|split; [congruence|done]]); cycle 1.
  { destruct st3; try done; exists (hdr ++ l); rewrite Hin, Hin3; by rewrite app_assoc. }
  assert (Hl : blen l = be_dec hdr) by (by apply Hok3). exists l. rewrite Hl. split; [lia|]. split; [|split; [done|]].
  - rewrite put_header_be, be_enc_dec by (unfold FRAME_HEADER_BYTES in Hh; lia). by rewrite Hin, Hin3.
  - rewrite <-Hl, (poke_append hdr l) by done. by apply peek_in_poke.
Qed.

Lemma frame_send_cases fuel c buf n dl w st c' buf' w' :
  1 <= n <= FRAME_MAX_PAYLOAD -> FRAME_HEADER_BYTES + n <= blen buf -> 0 <= nc_fd c ->
  frame_send fuel (Some c) (Some buf) n dl w = (Some (st, c', buf'), w') ->
  incoming w' = incoming w /\
  exists f, outgoing w' = outgoing w ++ f /\
    f `prefix_of` frame_put_header n ++ peek FRAME_HEADER_BYTES n buf /\
    (st = FRAME_OK -> f = frame_put_header n ++ peek FRAME_HEADER_BYTES n buf).
Proof.
  intros Hn Hfit Hfd H. unfold frame_send in H. rewrite (proj2 (Z.eqb_neq _ _)), (proj2 (Z.ltb_ge _ _)) in H by lia. cbn [orb] in H.
  assert (u32 n = n) as Hu by (apply Z.mod_small; unfold FRAME_MAX_PAYLOAD, SESSION_MAX_RECORD_BYTES,
    SESSION_MAX_PLAINTEXT_BYTES, SESSION_OVERHEAD_BYTES in *; lia).
  rewrite Hu in H. rewrite M_bind_unfold in H. unfold net_write_all in H. rewrite (proj2 (Z.ltb_ge _ _)) in H by done.
  rewrite M_bind_unfold in H. set (data := ztake (FRAME_HEADER_BYTES + n) (poke 0 (frame_put_header n) buf)) in *.
  assert (Hdata : data = frame_put_header n ++ peek FRAME_HEADER_BYTES n buf).
  { unfold data, peek, FRAME_HEADER_BYTES. rewrite poke_0, Z2Nat.inj_add by lia.
    change (Z.to_nat 4) with (length (frame_put_header n)) at 1. rewrite take_app_add. done. }
  destruct (write_loop fuel c data dl 0 w) as [[[st1 c1]|] w1] eqn:Ew; cbn [fst snd] in H; [|done].
  rewrite !M_ret_unfold in H. cbn [fst snd] in H. apply write_loop_spec in Ew as (k & Hk & Hout & Hin & Hok & Hne & Hna); [|lia].
  injection H as <- <- <- <-. split; [done|]. exists (peek 0 (k - 0) data). split; [done|].
  rewrite Hdata in *. unfold peek at 1 4. rewrite drop_0. split; [apply prefix_take|].
  intros Hst. rewrite take_ge; [done|]. rewrite Hok; [lia|]. by destruct st1.
Qed.

(** One call of [frame_recv] reads one frame, no more.  On any stream: OK means
    that a frame whose length is within the bounds of the call has been taken from the
    stream and its payload is in the buffer; BAD_LENGTH that exactly the four
    header bytes were taken; EOF that the stream ended at a frame boundary;
    TRUNCATED that it ended inside a frame; nothing is sent in any case, and the
    reported length is zero unless the status is OK. *)
Theorem frame_recv_one_frame fuel c buf min_len max_len dl g w st c' buf' n w' :
  0 <= nc_fd c -> 1 <= min_len <= max_len -> max_len <= FRAME_MAX_PAYLOAD -> FRAME_HEADER_BYTES + max_len <= blen buf ->
  frame_recv fuel (Some c) (Some buf) min_len max_len (Some g) dl w = (Some (st, c', buf', n), w') ->
  exists b k, buf' = Some b /\ n = Some k /\ recv_meaning st min_len max_len w w' b k /\ outgoing w' = outgoing w /\
    (st <> FRAME_OK -> k = 0).
Proof. apply frame_recv_cases. Qed.

(** Frames survive the stream.  If [frame_send] reports OK for a payload, the bytes
    it appended to the sender's stream are such that any receiver whose stream
    begins with them, and whose bounds admit the payload length, either fails
    for I/O reasons or obtains exactly this payload and has exactly the rest of
    the stream left; it never reports a bad length, an end or a truncation. *)
Theorem frame_roundtrip fuel c buf n dl w c' buf' w' fuel2 c2 buf2 min_len max_len dl2 g v rest st c3 buf3 k v' :
  0 <= nc_fd c -> 1 <= n <= FRAME_MAX_PAYLOAD -> FRAME_HEADER_BYTES + n <= blen buf ->
  frame_send fuel (Some c) (Some buf) n dl w = (Some (FRAME_OK, c', buf'), w') ->
  exists f, outgoing w' = outgoing w ++ f /\
    (0 <= nc_fd c2 -> 1 <= min_len <= n -> n <= max_len <= FRAME_MAX_PAYLOAD -> FRAME_HEADER_BYTES + max_len <= blen buf2 ->
     incoming v = f ++ rest ->
     frame_recv fuel2 (Some c2) (Some buf2) min_len max_len (Some g) dl2 v = (Some (st, c3, buf3, k), v') ->
     match st with
     | FRAME_OK => exists b, buf3 = Some b /\ k = Some n /\ incoming v' = rest /\
         peek FRAME_HEADER_BYTES n b = peek FRAME_HEADER_BYTES n buf
     | FRAME_TIMEOUT | FRAME_IO => True
     | _ => False
     end).
Proof.
  intros Hfd Hn Hfit Hsend. apply frame_send_cases in Hsend as (_ & f & Hout & _ & Hf); [|done..]. specialize (Hf eq_refl).
  exists f. split; [done|]. intros Hfd2 Hmin Hmax Hfit2 Hin Hrecv.
  apply frame_recv_cases in Hrecv as (b & k' & -> & -> & Hm & _); [|lia..]. rewrite Hf in Hin.
  set (p := peek FRAME_HEADER_BYTES n buf) in *.
  assert (Hp : blen p = n) by (apply length_peek; unfold FRAME_HEADER_BYTES in *; lia).
  assert (Hn32 : 0 <= n < 256 ^ Z.of_nat 4) by (unfold FRAME_MAX_PAYLOAD, SESSION_MAX_RECORD_BYTES,
    SESSION_MAX_PLAINTEXT_BYTES, SESSION_OVERHEAD_BYTES in *; change (256 ^ Z.of_nat 4) with (2 ^ 32); lia).
  rewrite <-app_assoc in Hin.
  destruct st; cbn [recv_meaning] in Hm; try done.
  - destruct Hm as (q & Hq & Hin' & -> & Hpk). rewrite Hin' in Hin. apply app_inj_1 in Hin as [Hh Hin]; [|done].
    rewrite !put_header_be in Hh. apply be_enc_inj in Hh;
      [|unfold FRAME_MAX_PAYLOAD, SESSION_MAX_RECORD_BYTES, SESSION_MAX_PLAINTEXT_BYTES, SESSION_OVERHEAD_BYTES in *; lia|done].
    apply app_inj_1 in Hin as [-> ->]; [|lia]. exists b. rewrite Hh in *. by split_and!.
  - destruct Hm as [Hz _]. rewrite Hz in Hin. done.
  - destruct Hm as (_ & Hend & [Hshort|(hdr & part & Hpre & Hh & Hlt)]).
    + rewrite Hin, !length_app, !Nat2Z.inj_add, header_len in Hshort. lia.
    + rewrite Hpre in Hin. apply app_inj_1 in Hin as [-> ->]; [|apply Nat2Z.inj; by rewrite Hh].
      rewrite put_header_be, be_dec_enc_small, length_app in Hlt by done. lia.
  - destruct Hm as (hdr & Hh & Hpre & Hbad). rewrite Hpre in Hin. apply app_inj_1 in Hin as [-> _]; [|apply Nat2Z.inj; by rewrite Hh].
    apply Hbad. rewrite put_header_be, be_dec_enc_small by done. lia.
Qed.

End stream.

Lemma read_exact_ends `{NP : NetPatient} fuel c buf at_ n dl g w :
  (patience w + Z.to_nat n < fuel)%nat ->
  exists r, (net_read_exact fuel c buf at_ n dl g w).1 = Some r /\
    (patience (net_read_exact fuel c buf at_ n dl g w).2 <= patience w)%nat.
Proof.
  intros Hf. unfold net_read_exact. destruct g as [g|]; [|by eexists]. destruct c as [c|]; [|by eexists].
  destruct buf as [b|]; [|destruct (_ || _); by eexists]. destruct (_ <? _); [by eexists|]. rewrite M_bind_unfold.
  destruct (read_loop_ends fuel c b at_ n dl 0 w) as ([[[st c1] b1] off] & He & Hp); [lia|].
  destruct (read_loop _ _ _ _ _ _ _ w) as [o w1]. cbn [fst snd] in *. subst o. by eexists.
Qed.

(** Reading and writing end.  While interruptions, spurious wake-ups and poll
    timeouts still to come are finitely many, [frame_send] and [frame_recv] return:
    fuel beyond that number and the bytes to transfer is enough. *)
Theorem frame_io_terminates `{NP : NetPatient} fuel c buf n min_len max_len len dl w :
  1 <= n <= FRAME_MAX_PAYLOAD -> max_len <= FRAME_MAX_PAYLOAD ->
  (patience w + Z.to_nat (FRAME_HEADER_BYTES + FRAME_MAX_PAYLOAD) < fuel)%nat ->
  is_Some (frame_send fuel c buf n dl w).1 /\ is_Some (frame_recv fuel c buf min_len max_len len dl w).1.
Proof.
  intros Hn Hmax Hfuel. assert (FRAME_HEADER_BYTES + FRAME_MAX_PAYLOAD = 65565) as Hc by done. rewrite Hc in Hfuel. split.
  - unfold frame_send. destruct c as [c|]; [|by eexists]. destruct buf as [buf|]; [|by eexists].
    destruct (_ || _); [by eexists|]. rewrite M_bind_unfold. unfold net_write_all. destruct (nc_fd c <? 0); [by eexists|].
    rewrite M_bind_unfold. destruct (write_loop_ends fuel c (ztake (FRAME_HEADER_BYTES + n) (poke 0 (frame_put_header (u32 n)) buf))
      dl 0 w) as [[st c1] He].
    { unfold FRAME_MAX_PAYLOAD, SESSION_MAX_RECORD_BYTES, SESSION_MAX_PLAINTEXT_BYTES, SESSION_OVERHEAD_BYTES, FRAME_HEADER_BYTES in *.
      rewrite length_take. lia. }
    destruct (write_loop _ _ _ _ _ w) as [o w1]. cbn [fst snd] in *. subst o. rewrite !M_ret_unfold. by eexists.
  - unfold frame_recv. destruct c as [c|]; [|by eexists]. destruct buf as [buf|]; [|by eexists].
    destruct len as [g|]; [|by eexists]. destruct (_ || _); [by eexists|]. rewrite M_bind_unfold.
    destruct (read_exact_ends fuel (Some c) (Some buf) 0 FRAME_HEADER_BYTES dl (Some 0) w) as ([[[st c1] b1] g1] & He & Hp);
      [unfold FRAME_HEADER_BYTES; lia|].
    destruct (net_read_exact fuel (Some c) (Some buf) 0 _ dl _ w) as [o w1]. cbn [fst snd] in *. subst o.
    destruct (bool_decide _); [by eexists|]. destruct (negb _); [by eexists|].
    destruct (_ || _) eqn:E1; [by eexists|]. apply orb_false_iff in E1 as [_ Hlen%Z.ltb_ge]. rewrite M_bind_unfold.
    destruct (read_exact_ends fuel c1 b1 FRAME_HEADER_BYTES (frame_get_header (default [] b1)) dl g1 w1)
      as ([[[st3 c3] b3] g3] & He3 & _).
    { unfold FRAME_MAX_PAYLOAD, SESSION_MAX_RECORD_BYTES, SESSION_MAX_PLAINTEXT_BYTES, SESSION_OVERHEAD_BYTES in *. lia. }
    destruct (net_read_exact fuel c1 b1 _ _ dl _ w1) as [o w2]. cbn [fst snd] in *. subst o.
    destruct (bool_decide _); [by eexists|]. destruct (negb _); by eexists.
Qed.

(** ** A concrete exchange *)
Definition demo_conn : net_conn_t := NetConn 3 (NetStats 0 0 0 0 0).
Definition demo_tx : list byte := zeros 4 ++ label "hello" ++ zeros 3.
Definition demo_rx : list byte := frame_put_header 5 ++ label "hello" ++ label "x".
Definition demo_sender : Z * socket := (0, Socket [] [] 2).
Definition demo_receiver : Z * socket := (0, Socket demo_rx [] 2).
Definition demo_send := frame_send (OS := toy_net_os) 50 (Some demo_conn) (Some demo_tx) 5 NET_NO_DEADLINE demo_sender.
Definition demo_recv :=
  frame_recv (OS := toy_net_os) 50 (Some demo_conn) (Some (zeros 20)) 1 10 (Some 0) NET_NO_DEADLINE demo_receiver.

Lemma demo_recv_status : match demo_recv.1 with Some (st, _, _, _) => Some st | None => None end = Some FRAME_OK.
Proof. vm_compute. reflexivity. Qed.
Lemma demo_send_status : match demo_send.1 with Some (st, _, _) => Some st | None => None end = Some FRAME_OK.
Proof. vm_compute. reflexivity. Qed.

Lemma frame_recv_one_frame_witness :
  exists b k, recv_meaning (NS := toy_net_stream) FRAME_OK 1 10 demo_receiver demo_recv.2 b k.
Proof.
  pose proof demo_recv_status as Hs. unfold demo_recv in *. revert Hs.
  destruct (frame_recv (OS := toy_net_os) 50 (Some demo_conn) (Some (zeros 20)) 1 10 (Some 0) NET_NO_DEADLINE demo_receiver)
    as [[[[[st c'] b'] n]|] w'] eqn:He; cbn [fst snd]; [intros [= ->]|discriminate].
  assert (H1 : 0 <= nc_fd demo_conn) by (vm_compute; discriminate).
  assert (H2 : 1 <= 1 <= 10) by lia.
  assert (H3 : 10 <= FRAME_MAX_PAYLOAD) by (vm_compute; discriminate).
  assert (H4 : FRAME_HEADER_BYTES + 10 <= blen (zeros 20)) by (vm_compute; discriminate).
  destruct (frame_recv_one_frame (NS := toy_net_stream) 50 demo_conn (zeros 20) 1 10 _ _ _ _ _ _ _ _ H1 H2 H3 H4 He)
    as (b & k & _ & _ & Hm & _).
  exists b, k. exact Hm.
Defined.

Lemma frame_roundtrip_witness :
  exists f, sk_out (snd (demo_send.2 : Z * socket)) = sk_out (snd demo_sender) ++ f /\ f = frame_put_header 5 ++ label "hello".
Proof.
  pose proof demo_send_status as Hs. unfold demo_send in *. revert Hs.
  destruct (frame_send (OS := toy_net_os) 50 (Some demo_conn) (Some demo_tx) 5 NET_NO_DEADLINE demo_sender)
    as [[[[st c'] b']|] w'] eqn:He; cbn [fst snd]; [intros [= ->]|discriminate].
  assert (H1 : 0 <= nc_fd demo_conn) by (vm_compute; discriminate).
  assert (H2 : 1 <= 5 <= FRAME_MAX_PAYLOAD) by (vm_compute; split; discriminate).
  assert (H3 : FRAME_HEADER_BYTES + 5 <= blen demo_tx) by (vm_compute; discriminate).
  destruct (frame_roundtrip (NS := toy_net_stream) 50 demo_conn demo_tx 5 NET_NO_DEADLINE demo_sender c' b' w'
    50 demo_conn (zeros 20) 1 10 NET_NO_DEADLINE 0 demo_receiver (label "x") FRAME_OK None None None demo_receiver H1 H2 H3 He)
    as (f & Hf & _).
  exists f. split; [exact Hf|]. assert (Hw : sk_out (snd (w' : Z * socket)) = frame_put_header 5 ++ label "hello").
  { apply (f_equal (fun r => sk_out (snd (snd r : Z * socket)))) in He. cbn [snd] in He. rewrite <-He. vm_compute. reflexivity. }
  cbn in Hf. rewrite Hw in Hf. symmetry. exact Hf.
Defined.

Lemma frame_io_terminates_witness :
  is_Some (frame_recv (OS := toy_net_os) (Z.to_nat 65600) (Some demo_conn) (Some (zeros 20)) 1 10 (Some 0) 1000 demo_receiver).1.
Proof.
  apply (frame_io_terminates (NP := toy_net_patient) (Z.to_nat 65600) (Some demo_conn) (Some (zeros 20)) 5 1 10 (Some 0) 1000 demo_receiver).
  - vm_compute. split; discriminate.
  - vm_compute. discriminate.
  - apply Nat.ltb_lt. vm_compute. reflexivity.
Defined.
