(* ===== verification/ProxyV2.v ===== *)
(** * The PROXY protocol v2 preamble ([apps/authd/proxy_v2.c])

    The incremental parser that learns the client address before the client may
    speak, its equivalence with a one-shot reference parser under every way the
    bytes can be cut into chunks, and the rate-limiting key of an address. *)

From S2P Require Import Prelude.

Definition PROXY_V2_SIG_LEN : Z := 12.
Definition PROXY_V2_HDR_LEN : Z := 16.
Definition PROXY_V2_ADDR_MAX : Z := 216.
Definition PROXY_V2_LEN_MAX : Z := 1024.
Definition PROXY_V2_MAX_TOTAL : Z := PROXY_V2_HDR_LEN + PROXY_V2_LEN_MAX.
Definition PROXY_V2_SIG : list byte := [x0d; x0a; x0d; x0a; x00; x0d; x0a; x51; x55; x49; x54; x0a].

Record authd_addr_t := AuthdAddr { aa_family : Z; aa_addr : list byte }.
Definition addr_none : authd_addr_t := AuthdAddr 0 (zeros 16).

Inductive proxy_v2_status_t := PROXY_V2_NEED_MORE | PROXY_V2_OK | PROXY_V2_NO_ADDR | PROXY_V2_ERR.
#[global] Instance proxy_v2_status_eq_dec : EqDecision proxy_v2_status_t.
Proof. solve_decision. Defined.

Record proxy_v2_t := ProxyV2 {
  pv_buf : list byte; pv_have : Z; pv_want : Z; pv_skip : Z; pv_hdr_ok : bool; pv_done : bool;
  pv_result : proxy_v2_status_t; pv_addr : authd_addr_t }.

Definition proxy_v2_init (p : option proxy_v2_t) : option proxy_v2_t :=
  match p with
  | None => None
  | Some _ => Some (ProxyV2 (zeros (PROXY_V2_HDR_LEN + PROXY_V2_ADDR_MAX)) 0 PROXY_V2_HDR_LEN 0 false false
                PROXY_V2_NEED_MORE addr_none)
  end.

(** Key length and the bytes written to [out]. *)
Definition authd_addr_key (a : option authd_addr_t) : Z * list byte :=
  match a with
  | None => (0, [])
  | Some a =>
    if aa_family a =? 4 then (4, ztake 4 (aa_addr a)) else
    if aa_family a =? 6 then (8, ztake 8 (aa_addr a)) else (0, [])
  end.

Definition be16 (p : list byte) : Z := u16 (Z.lor (Z.shiftl (bz (byte_at p 0)) 8) (bz (byte_at p 1))).

Definition addr_block_len (fam : Z) : Z :=
  if fam =? 1 then 12 else if fam =? 2 then 36 else if fam =? 3 then 216 else 0.

(** Field updates. *)
Definition pv_push (p : proxy_v2_t) (b : byte) : proxy_v2_t :=
  ProxyV2 (poke (pv_have p) [b] (pv_buf p)) (pv_have p + 1) (pv_want p) (pv_skip p) (pv_hdr_ok p) (pv_done p)
    (pv_result p) (pv_addr p).
Definition pv_plan (p : proxy_v2_t) (want skip : Z) : proxy_v2_t :=
  ProxyV2 (pv_buf p) (pv_have p) want skip true (pv_done p) (pv_result p) (pv_addr p).
Definition pv_set_skip (p : proxy_v2_t) (skip : Z) : proxy_v2_t :=
  ProxyV2 (pv_buf p) (pv_have p) (pv_want p) skip (pv_hdr_ok p) (pv_done p) (pv_result p) (pv_addr p).
Definition pv_finish (p : proxy_v2_t) (st : proxy_v2_status_t) (a : authd_addr_t) : proxy_v2_t :=
  ProxyV2 (pv_buf p) (pv_have p) (pv_want p) (pv_skip p) (pv_hdr_ok p) true st a.

Definition fail (p : proxy_v2_t) : proxy_v2_t := pv_finish p PROXY_V2_ERR (pv_addr p).

(** Verdict and address. *)
Definition settle (p : proxy_v2_t) : proxy_v2_status_t * authd_addr_t :=
  let ver_cmd := bz (byte_at (pv_buf p) 12) in
  let fam := Z.shiftr (bz (byte_at (pv_buf p) 13)) 4 in
  let cmd := Z.land ver_cmd 15 in
  if cmd =? 0 then (PROXY_V2_NO_ADDR, pv_addr p) else
  if fam =? 1
  then (PROXY_V2_OK, AuthdAddr 4 (poke 0 (peek PROXY_V2_HDR_LEN 4 (pv_buf p)) (aa_addr (pv_addr p)))) else
  if fam =? 2
  then (PROXY_V2_OK, AuthdAddr 6 (poke 0 (peek PROXY_V2_HDR_LEN 16 (pv_buf p)) (aa_addr (pv_addr p)))) else
  (PROXY_V2_NO_ADDR, pv_addr p).

(** The copying loops: bytes are staged until [lim] are held or the data ends. *)
Fixpoint stage (lim : Z) (p : proxy_v2_t) (data : list byte) : proxy_v2_t * list byte :=
  match data with
  | [] => (p, [])
  | b :: rest => if pv_have p <? lim then stage lim (pv_push p b) rest else (p, data)
  end.

(** Part 1 of [proxy_v2_consume]: the fixed header.  [inl] is an early return;
    the lists are the data not yet consumed. *)
Definition consume_header (p : proxy_v2_t) (data : list byte) : proxy_v2_status_t * proxy_v2_t * list byte + proxy_v2_t * list byte :=
  if pv_hdr_ok p then inr (p, data) else
  let '(p, rest) := stage PROXY_V2_HDR_LEN p data in
  if pv_have p <? PROXY_V2_HDR_LEN then inl (PROXY_V2_NEED_MORE, p, rest) else
  if negb (memeq (pv_buf p) PROXY_V2_SIG PROXY_V2_SIG_LEN) then inl (PROXY_V2_ERR, fail p, rest) else
  let ver := Z.shiftr (bz (byte_at (pv_buf p) 12)) 4 in
  let cmd := Z.land (bz (byte_at (pv_buf p) 12)) 15 in
  let body := be16 (zdrop 14 (pv_buf p)) in
  if negb (ver =? 2) || (negb (cmd =? 0) && negb (cmd =? 1)) || (PROXY_V2_LEN_MAX <? body)
  then inl (PROXY_V2_ERR, fail p, rest) else
  let fam := Z.shiftr (bz (byte_at (pv_buf p) 13)) 4 in
  let blk := if cmd =? 1 then addr_block_len fam else 0 in
  if body <? blk then inl (PROXY_V2_ERR, fail p, rest)
  else inr (pv_plan p (PROXY_V2_HDR_LEN + blk) (body - blk), rest).

(** Part 3: the TLV region, then the verdict. *)
Definition consume_tlv (p : proxy_v2_t) (rest : list byte) : proxy_v2_status_t * proxy_v2_t * list byte :=
  let finish p rest := let '(st, a) := settle p in (st, pv_finish p st a, rest) in
  if 0 <? pv_skip p then
    let take_ := if blen rest <? pv_skip p then blen rest else pv_skip p in
    let p := pv_set_skip p (pv_skip p - take_) in
    let rest := zdrop take_ rest in
    if 0 <? pv_skip p then (PROXY_V2_NEED_MORE, p, rest) else finish p rest
  else finish p rest.

(** Part 2, the address block, and on to part 3. *)
Definition consume_body (p : proxy_v2_t) (data : list byte) : proxy_v2_status_t * proxy_v2_t * list byte :=
  let '(p, rest) := stage (pv_want p) p data in
  if pv_have p <? pv_want p then (PROXY_V2_NEED_MORE, p, rest) else consume_tlv p rest.

(** [data] holds [n] bytes when it is not NULL.  Result: status, parser and [*used]. *)
Definition proxy_v2_consume (p : option proxy_v2_t) (data : option (list byte)) (n : Z) (used : option Z)
    : proxy_v2_status_t * option proxy_v2_t * option Z :=
  let used := match used with Some _ => Some 0 | None => None end in
  match p, used with
  | Some p', Some _ =>
    if bool_decide (data = None) && negb (n =? 0) then (PROXY_V2_ERR, p, used) else
    if pv_done p' then (pv_result p', p, used) else
    let data := ztake n (default [] data) in
    let '(st, p, rest) := match consume_header p' data with
                          | inl r => r
                          | inr (p, rest) => consume_body p rest
                          end in
    (st, Some p, Some (n - blen rest))
  | _, _ => (PROXY_V2_ERR, p, used)
  end.

(** ** Chunking *)

(** The parser on the data itself, returning what it does not consume. *)
Definition go (p : proxy_v2_t) (data : list byte) : proxy_v2_status_t * proxy_v2_t * list byte :=
  if pv_done p then (pv_result p, p, data) else
  match consume_header p data with inl r => r | inr (p, rest) => consume_body p rest end.

Lemma consume_go p data u :
  proxy_v2_consume (Some p) (Some data) (blen data) (Some u) =
    (let '(st, p', rest) := go p data in (st, Some p', Some (blen data - blen rest))).
Proof.
  unfold proxy_v2_consume, go. cbn [bool_decide andb default]. rewrite bool_decide_eq_false_2 by done. cbn [andb].
  rewrite (take_ge data) by lia. destruct (pv_done p); [by rewrite Z.sub_diag|done].
Qed.

Lemma stage_full lim p data : lim <= pv_have p -> stage lim p data = (p, data).
Proof. intros H. destruct data as [|b data]; [done|]. cbn. by rewrite (proj2 (Z.ltb_ge _ _)). Qed.

Lemma stage_app lim p a b :
  stage lim p (a ++ b) = (let '(p', ra) := stage lim p a in match ra with [] => stage lim p' b | _ => (p', ra ++ b) end).
Proof.
  revert p. induction a as [|x a IH]; intros p; [done|]. cbn [app stage]. destruct (_ <? _); [apply IH|done].
Qed.

Lemma stage_short lim p data p' rest : stage lim p data = (p', rest) -> pv_have p' < lim -> rest = [].
Proof.
  revert p. induction data as [|x data IH]; intros p; cbn; [by intros [= <- <-]|].
  destruct (Z.ltb_spec (pv_have p) lim); [apply IH|]. intros [= <- <-]. lia.
Qed.

(** Staging touches only the buffer and its fill level. *)
Lemma stage_frame lim p data p' rest :
  stage lim p data = (p', rest) ->
  pv_want p' = pv_want p /\ pv_skip p' = pv_skip p /\ pv_hdr_ok p' = pv_hdr_ok p /\ pv_done p' = pv_done p /\
  pv_result p' = pv_result p /\ pv_addr p' = pv_addr p.
Proof.
  revert p. induction data as [|x data IH]; intros p; cbn; [by intros [= <- <-]|].
  destruct (_ <? _); [|by intros [= <- <-]]. by intros (? & ? & ? & ? & ? & ?)%IH.
Qed.

Lemma stage_app_done lim p a b p' ra :
  stage lim p a = (p', ra) -> lim <= pv_have p' -> stage lim p (a ++ b) = (p', ra ++ b).
Proof. intros Hs Hh. rewrite stage_app, Hs. destruct ra; [by rewrite stage_full|done]. Qed.

Definition appended (r : proxy_v2_status_t * proxy_v2_t * list byte) (b : list byte)
    (next : proxy_v2_t -> proxy_v2_status_t * proxy_v2_t * list byte) : proxy_v2_status_t * proxy_v2_t * list byte :=
  let '(st, p, ra) := r in if bool_decide (st = PROXY_V2_NEED_MORE) then next p else (st, p, ra ++ b).

Lemma settle_decided p : (settle p).1 <> PROXY_V2_NEED_MORE.
Proof. unfold settle. by repeat case_match. Qed.

(** Part 3 in one step: all the TLV bytes are there, or none is left. *)
Lemma consume_tlv_eq p a :
  0 <= pv_skip p ->
  consume_tlv p a =
    if blen a <? pv_skip p then (PROXY_V2_NEED_MORE, pv_set_skip p (pv_skip p - blen a), [])
    else (let '(st, ad) := settle p in (st, pv_finish (pv_set_skip p 0) st ad, zdrop (pv_skip p) a)).
Proof.
  intros H0. unfold consume_tlv. destruct (Z.ltb_spec 0 (pv_skip p)) as [Hp|Hp].
  - destruct (Z.ltb_spec (blen a) (pv_skip p)); cbn [pv_set_skip pv_skip].
    + rewrite (proj2 (Z.ltb_lt _ _)), drop_ge by lia. done.
    + by rewrite Z.sub_diag.
  - assert (pv_skip p = 0) as Hz by lia. rewrite Hz, (proj2 (Z.ltb_ge _ _)) by lia. destruct p; cbn in *. by subst.
Qed.

Lemma consume_tlv_app p a b :
  0 <= pv_skip p -> consume_tlv p (a ++ b) = appended (consume_tlv p a) b (fun p' => consume_tlv p' b).
Proof.
  intros H0. rewrite !consume_tlv_eq by done. rewrite length_app, Nat2Z.inj_add.
  destruct (Z.ltb_spec (blen a) (pv_skip p)); cbn [appended].
  - rewrite bool_decide_eq_true_2, consume_tlv_eq by (cbn; done || lia). cbn [pv_set_skip pv_skip].
    destruct (Z.ltb_spec (blen a + blen b) (pv_skip p)), (Z.ltb_spec (blen b) (pv_skip p - blen a)); try lia.
    + unfold pv_set_skip. cbn. do 3 f_equal. lia.
    + rewrite zdrop_app_ge by lia. done.
  - destruct (Z.ltb_spec (blen a + blen b) (pv_skip p)); [lia|].
    pose proof (settle_decided p). destruct (settle p) as [st ad]. cbn [appended].
    rewrite bool_decide_eq_false_2 by done. by rewrite drop_app_le by lia.
Qed.

Lemma consume_body_app p a b :
  0 <= pv_skip p -> consume_body p (a ++ b) = appended (consume_body p a) b (fun p' => consume_body p' b).
Proof.
  intros H0. unfold consume_body. destruct (stage (pv_want p) p a) as [p1 ra] eqn:Es.
  pose proof (stage_frame _ _ _ _ _ Es) as (Hw & Hk & _).
  destruct (Z.ltb_spec (pv_have p1) (pv_want p1)) as [Hlt|Hge].
  - cbn [appended]. rewrite bool_decide_eq_true_2, stage_app, Es by done. rewrite Hw in Hlt |- *.
    by rewrite (stage_short _ _ _ _ _ Es).
  - rewrite (stage_app_done _ _ _ _ _ _ Es) by lia. rewrite (proj2 (Z.ltb_ge _ _)) by done.
    rewrite consume_tlv_app by lia. rewrite consume_tlv_eq by lia. destruct (_ <? _) eqn:Hl; cbn [appended].
    + rewrite bool_decide_eq_true_2 by done. rewrite (stage_full _ (pv_set_skip _ _)) by (cbn; lia).
      cbn [pv_set_skip pv_have pv_want]. by rewrite (proj2 (Z.ltb_ge _ _)).
    + destruct (settle p1) as [st ad] eqn:He. cbn [appended]. by destruct (bool_decide_reflect (st = PROXY_V2_NEED_MORE)) as [->|];
        [exfalso; eapply (settle_decided p1); by rewrite He|].
Qed.

(** A verdict is recorded in the parser, and only a verdict ends it. *)
Definition verdict_kept (st : proxy_v2_status_t) (p : proxy_v2_t) : Prop :=
  if bool_decide (st = PROXY_V2_NEED_MORE) then pv_done p = false else pv_done p = true /\ pv_result p = st.

(** What a call leaves: undecided means everything was consumed, decided means
    the parser is done with that verdict. *)
Lemma consume_body_frame p a st p' ra :
  pv_done p = false -> pv_hdr_ok p = true -> 0 <= pv_skip p -> consume_body p a = (st, p', ra) ->
  pv_hdr_ok p' = true /\ 0 <= pv_skip p' /\ verdict_kept st p'.
Proof.
  intros Hd Hh H0. unfold consume_body. destruct (stage (pv_want p) p a) as [p1 r1] eqn:Es.
  pose proof (stage_frame _ _ _ _ _ Es) as (_ & Hk & Hh1 & Hd1 & _).
  destruct (_ <? _); [intros [= <- <- <-]; split_and!; [congruence|lia|]; unfold verdict_kept; rewrite bool_decide_eq_true_2 by done; congruence|].
  rewrite consume_tlv_eq by lia. destruct (Z.ltb_spec (blen r1) (pv_skip p1)).
  - intros [= <- <- <-]. split_and!; [cbn; congruence|cbn; lia|]. unfold verdict_kept. by rewrite bool_decide_eq_true_2, <-Hd by done.
  - pose proof (settle_decided p1). destruct (settle p1) as [st1 a1]. intros [= <- <- <-]. cbn [pv_finish pv_set_skip pv_hdr_ok pv_skip].
    split_and!; [congruence|lia|]. unfold verdict_kept. by rewrite bool_decide_eq_false_2.
Qed.

(** The parser states the interface can produce. *)
Definition pv_ok (p : proxy_v2_t) : Prop :=
  0 <= pv_skip p /\ (pv_done p = true -> pv_result p <> PROXY_V2_NEED_MORE).

Lemma stage_ok lim p data p' rest : pv_ok p -> stage lim p data = (p', rest) -> pv_ok p'.
Proof. intros [? Hr] (_ & H1 & _ & H2 & H3 & _)%stage_frame. unfold pv_ok. rewrite H1, H2, H3. done. Qed.

(** Decides the next guard of part 1. *)
Ltac header_guard :=
  match goal with |- context [match (if ?c then inl _ else _) with inl _ => _ | inr _ => _ end] => destruct c eqn:? end.

(** Part 1 either stops, with the verdict recorded, or plans the rest. *)
Lemma consume_header_facts p a :
  pv_ok p -> pv_done p = false ->
  match consume_header p a with
  | inl (st, p', ra) =>
      pv_hdr_ok p = false /\ pv_ok p' /\ verdict_kept st p' /\ (st = PROXY_V2_NEED_MORE -> ra = [] /\ pv_hdr_ok p' = false)
  | inr (p', ra) => 0 <= pv_skip p' /\ pv_done p' = false /\ pv_hdr_ok p' = true
  end.
Proof.
  intros Hok Hd. unfold consume_header. destruct (pv_hdr_ok p) eqn:Hh; [split_and!; [apply Hok|done..]|].
  destruct (stage _ p a) as [p1 ra] eqn:Es. pose proof (stage_ok _ _ _ _ _ Hok Es) as Hok1.
  pose proof (stage_frame _ _ _ _ _ Es) as (_ & _ & Hh1 & Hd1 & _).
  destruct (Z.ltb_spec (pv_have p1) PROXY_V2_HDR_LEN).
  { split_and!; [done..| |intros _; split; [by eapply stage_short|congruence]].
    unfold verdict_kept. rewrite bool_decide_eq_true_2 by done. congruence. }
  assert (pv_ok (fail p1)) by (split; [apply Hok1|done]).
  repeat (header_guard; [by unfold verdict_kept; rewrite bool_decide_eq_false_2 by done|]).
  split_and!; cbn; [|congruence|done].
  match goal with H : (_ <? _) = false |- _ => apply Z.ltb_ge in H; lia end.
Qed.

Lemma consume_header_app p a b :
  pv_ok p -> pv_done p = false ->
  consume_header p (a ++ b) =
    match consume_header p a with
    | inl (st, p', ra) => if bool_decide (st = PROXY_V2_NEED_MORE) then consume_header p' b else inl (st, p', ra ++ b)
    | inr (p', ra) => inr (p', ra ++ b)
    end.
Proof.
  intros Hok Hd. unfold consume_header at 1 2. destruct (pv_hdr_ok p) eqn:Hh; [done|].
  destruct (stage _ p a) as [p1 ra] eqn:Es. pose proof (stage_frame _ _ _ _ _ Es) as (_ & _ & Hh1 & Hd1 & _).
  destruct (Z.ltb_spec (pv_have p1) PROXY_V2_HDR_LEN) as [Hlt|Hge].
  - rewrite bool_decide_eq_true_2 by done. rewrite stage_app, Es, (stage_short _ _ _ _ _ Es) by done.
    unfold consume_header. by rewrite Hh1, Hh.
  - rewrite (stage_app_done _ _ _ _ _ _ Es) by done. rewrite (proj2 (Z.ltb_ge _ _)) by done.
    repeat (header_guard; [by rewrite bool_decide_eq_false_2 by done|]). done.
Qed.

Lemma go_facts p a st p' ra :
  pv_ok p -> go p a = (st, p', ra) ->
  pv_ok p' /\ verdict_kept st p'.
Proof.
  intros Hok. unfold go. destruct (pv_done p) eqn:Hd.
  { intros [= <- <- <-]. split; [done|]. unfold verdict_kept. by rewrite bool_decide_eq_false_2 by (by apply Hok). }
  pose proof (consume_header_facts p a Hok Hd) as Hf. destruct (consume_header p a) as [[[st1 p1] r1]|[p1 r1]].
  - intros [= <- <- <-]. by destruct Hf as (_ & ? & ? & _).
  - destruct Hf as (H0 & Hd1 & Hh1). intros Hb. pose proof (consume_body_frame _ _ _ _ _ Hd1 Hh1 H0 Hb) as (_ & H2 & H3).
    split; [split; [done|]|done]. unfold verdict_kept in H3. case_bool_decide; [congruence|]. by destruct H3 as [_ ->].
Qed.

Lemma go_app p a b : pv_ok p -> go p (a ++ b) = appended (go p a) b (fun p' => go p' b).
Proof.
  intros Hok. unfold go at 1 2. destruct (pv_done p) eqn:Hd.
  { cbn [appended]. by rewrite bool_decide_eq_false_2 by (by apply Hok). }
  rewrite consume_header_app by done. pose proof (consume_header_facts p a Hok Hd) as Hf.
  destruct (consume_header p a) as [[[st1 p1] r1]|[p1 r1]]; cbn [appended].
  - destruct Hf as (_ & Hok1 & Hf & Hn). unfold verdict_kept in Hf. case_bool_decide; [|done]. unfold go. by rewrite Hf.
  - destruct Hf as (H0 & Hd1 & Hh1). rewrite consume_body_app by done.
    destruct (consume_body p1 r1) as [[st2 p2] r2] eqn:Hb; cbn [appended]. case_bool_decide as Hn; [|done].
    pose proof (consume_body_frame _ _ _ _ _ Hd1 Hh1 H0 Hb) as (Hh2 & _ & Hx). unfold verdict_kept in Hx. rewrite bool_decide_eq_true_2 in Hx by done.
    unfold go, consume_header. by rewrite Hx, Hh2.
Qed.

(** ** The preamble as a whole *)

(** What the bytes mean, read in one piece: verdict, address, bytes taken. *)
Definition proxy_ref (bs : list byte) : proxy_v2_status_t * authd_addr_t * Z :=
  if blen bs <? PROXY_V2_HDR_LEN then (PROXY_V2_NEED_MORE, addr_none, blen bs) else
  let ver := bz (byte_at bs 12) / 16 in
  let cmd := bz (byte_at bs 12) mod 16 in
  let fam := bz (byte_at bs 13) / 16 in
  let body := be_dec (peek 14 2 bs) in
  let blk := if cmd =? 1 then addr_block_len fam else 0 in
  if bool_decide (peek 0 12 bs = PROXY_V2_SIG) && (ver =? 2) && (cmd <=? 1) && (body <=? PROXY_V2_LEN_MAX) && (blk <=? body)
  then
    if blen bs <? PROXY_V2_HDR_LEN + body then (PROXY_V2_NEED_MORE, addr_none, blen bs) else
    if (cmd =? 1) && (fam =? 1)
    then (PROXY_V2_OK, AuthdAddr 4 (peek 16 4 bs ++ zeros 12), PROXY_V2_HDR_LEN + body) else
    if (cmd =? 1) && (fam =? 2)
    then (PROXY_V2_OK, AuthdAddr 6 (peek 16 16 bs), PROXY_V2_HDR_LEN + body)
    else (PROXY_V2_NO_ADDR, addr_none, PROXY_V2_HDR_LEN + body)
  else (PROXY_V2_ERR, addr_none, PROXY_V2_HDR_LEN).

(** The parser has staged exactly [l]. *)
Definition holds (p : proxy_v2_t) (l : list byte) : Prop :=
  pv_buf p = poke 0 l (zeros (PROXY_V2_HDR_LEN + PROXY_V2_ADDR_MAX)) /\ pv_have p = blen l.

Lemma stage_holds lim p l data p' rest :
  holds p l -> stage lim p data = (p', rest) ->
  holds p' (l ++ ztake (lim - blen l) data) /\ rest = zdrop (lim - blen l) data.
Proof.
  revert p l. induction data as [|b data IH]; intros p l [Hb Hh]; cbn [stage].
  - intros [= <- <-]. by rewrite take_nil, drop_nil, app_nil_r.
  - destruct (Z.ltb_spec (pv_have p) lim).
    + intros [Hp ->]%(IH _ (l ++ [b])).
      * rewrite length_app in *. replace (Z.to_nat (lim - blen l)) with (S (Z.to_nat (lim - Z.of_nat (length l + 1)%nat))) by lia.
        cbn [take drop]. by rewrite <-app_assoc in Hp.
      * split; cbn; [by rewrite Hb, poke_append by done|rewrite length_app; cbn; lia].
    + intros [= <- <-]. replace (Z.to_nat (lim - blen l)) with 0%nat by lia. cbn. by rewrite app_nil_r.
Qed.

Lemma holds_peek p k bs off n :
  holds p (ztake k bs) -> k <= blen bs -> 0 <= off -> 0 <= n -> off + n <= k -> peek off n (pv_buf p) = peek off n bs.
Proof.
  intros [-> _] ????. rewrite peek_poke_0 by (rewrite ?length_take; lia). by apply peek_prefix.
Qed.

Lemma holds_byte p k bs i :
  holds p (ztake k bs) -> k <= blen bs -> 0 <= i < k -> byte_at (pv_buf p) i = byte_at bs i.
Proof.
  intros [-> _] ??. rewrite poke_0. unfold byte_at. rewrite app_nth1 by (rewrite length_take; lia).
  rewrite <-(take_drop (Z.to_nat k) bs) at 2. by rewrite app_nth1 by (rewrite length_take; lia).
Qed.

Definition proxy_start : proxy_v2_t :=
  ProxyV2 (zeros (PROXY_V2_HDR_LEN + PROXY_V2_ADDR_MAX)) 0 PROXY_V2_HDR_LEN 0 false false PROXY_V2_NEED_MORE addr_none.

Lemma start_holds : holds proxy_start [].
Proof. split; [|done]. by rewrite poke_nil. Qed.

Lemma start_ok : pv_ok proxy_start.
Proof. split; done. Qed.

(** The acceptance test on a complete fixed header. *)
Definition hdr_blk (bs : list byte) : Z :=
  if bz (byte_at bs 12) mod 16 =? 1 then addr_block_len (bz (byte_at bs 13) / 16) else 0.
Definition hdr_valid (bs : list byte) : bool :=
  bool_decide (peek 0 12 bs = PROXY_V2_SIG) && (bz (byte_at bs 12) / 16 =? 2) && (bz (byte_at bs 12) mod 16 <=? 1) &&
  (be_dec (peek 14 2 bs) <=? PROXY_V2_LEN_MAX) && (hdr_blk bs <=? be_dec (peek 14 2 bs)).

Lemma hdr_blk_range bs : 0 <= hdr_blk bs <= PROXY_V2_ADDR_MAX.
Proof. unfold hdr_blk, addr_block_len, PROXY_V2_ADDR_MAX. repeat case_match; lia. Qed.

Lemma be16_peek l : 2 <= blen l -> be16 l = be_dec (peek 0 2 l).
Proof.
  apply be16_word.
Qed.

(** The code's bit tests and the reference's arithmetic agree on a staged header. *)
Lemma header_guards p bs :
  holds p (ztake 16 bs) -> 16 <= blen bs ->
  Z.shiftr (bz (byte_at (pv_buf p) 12)) 4 = bz (byte_at bs 12) / 16 /\
  Z.land (bz (byte_at (pv_buf p) 12)) 15 = bz (byte_at bs 12) mod 16 /\
  Z.shiftr (bz (byte_at (pv_buf p) 13)) 4 = bz (byte_at bs 13) / 16 /\
  be16 (zdrop 14 (pv_buf p)) = be_dec (peek 14 2 bs) /\
  memeq (pv_buf p) PROXY_V2_SIG PROXY_V2_SIG_LEN = bool_decide (peek 0 12 bs = PROXY_V2_SIG).
Proof.
  intros Hh Hl. rewrite !(holds_byte _ _ _ _ Hh) by lia. rewrite !Z.shiftr_div_pow2 by lia.
  change 15 with (Z.ones 4). rewrite Z.land_ones by lia. split_and!; [done..| |].
  - rewrite be16_peek.
    + change (peek 0 2 (zdrop 14 (pv_buf p))) with (peek 14 2 (pv_buf p)). by rewrite (holds_peek _ _ _ _ _ Hh) by lia.
    + destruct Hh as [-> _]. rewrite poke_0, length_drop, length_app, length_take. lia.
  - unfold memeq. change (ztake PROXY_V2_SIG_LEN (pv_buf p)) with (peek 0 12 (pv_buf p)).
    by rewrite (holds_peek _ _ _ _ _ Hh) by lia.
Qed.

Lemma header_spec bs :
  PROXY_V2_HDR_LEN <= blen bs ->
  exists p, holds p (ztake 16 bs) /\ pv_addr p = addr_none /\
    consume_header proxy_start bs =
      if hdr_valid bs
      then inr (pv_plan p (PROXY_V2_HDR_LEN + hdr_blk bs) (be_dec (peek 14 2 bs) - hdr_blk bs), zdrop 16 bs)
      else inl (PROXY_V2_ERR, fail p, zdrop 16 bs).
Proof.
  unfold PROXY_V2_HDR_LEN. intros Hl. unfold consume_header. cbn [pv_hdr_ok proxy_start].
  destruct (stage _ proxy_start bs) as [p rest] eqn:Es.
  destruct (stage_holds _ _ _ _ _ _ start_holds Es) as [Hh ->]. pose proof (stage_frame _ _ _ _ _ Es) as (_ & _ & _ & _ & _ & Ha).
  exists p. cbn [app length] in *. split; [done|]. split; [done|].
  change (PROXY_V2_HDR_LEN - Z.of_nat 0) with 16 in *.
  destruct (header_guards p bs Hh Hl) as (-> & -> & -> & -> & ->).
  rewrite (proj2 (Z.ltb_ge _ _)) by (rewrite (proj2 Hh), length_take; unfold PROXY_V2_HDR_LEN; lia).
  unfold hdr_valid. fold (hdr_blk bs).
  pose proof (Z.mod_pos_bound (bz (byte_at bs 12)) 16 eq_refl). set (c := bz (byte_at bs 12) mod 16) in *.
  destruct (bool_decide _); [|done]. cbn [negb andb]. destruct (_ =? 2); [|done]. cbn [negb andb orb].
  rewrite (Z.leb_antisym (be_dec _)), (Z.leb_antisym PROXY_V2_LEN_MAX).
  destruct (Z.eqb_spec c 0), (Z.eqb_spec c 1), (Z.leb_spec c 1); cbn [negb andb orb]; try lia; try done.
  all: destruct (_ <? be_dec _); [done|]; cbn [negb andb]; by destruct (_ <? _).
Qed.

Lemma settle_spec p bs :
  holds p (ztake (16 + hdr_blk bs) bs) -> 16 + hdr_blk bs <= blen bs -> hdr_valid bs = true -> pv_addr p = addr_none ->
  settle p =
    if (bz (byte_at bs 12) mod 16 =? 1) && (bz (byte_at bs 13) / 16 =? 1)
    then (PROXY_V2_OK, AuthdAddr 4 (peek 16 4 bs ++ zeros 12)) else
    if (bz (byte_at bs 12) mod 16 =? 1) && (bz (byte_at bs 13) / 16 =? 2)
    then (PROXY_V2_OK, AuthdAddr 6 (peek 16 16 bs)) else (PROXY_V2_NO_ADDR, addr_none).
Proof.
  intros Hh Hl Hv Ha. pose proof (hdr_blk_range bs). unfold settle. rewrite !(holds_byte _ _ _ _ Hh) by lia.
  rewrite !Z.shiftr_div_pow2 by lia. change 15 with (Z.ones 4). rewrite Z.land_ones by lia. change (2 ^ 4) with 16.
  unfold hdr_valid in Hv. rewrite !andb_true_iff, Z.leb_le in Hv.
  pose proof (Z.mod_pos_bound (bz (byte_at bs 12)) 16 eq_refl). rewrite Ha.
  assert (Hp : forall n, 0 <= n -> n <= hdr_blk bs -> peek PROXY_V2_HDR_LEN n (pv_buf p) = peek 16 n bs).
  { intros. apply (holds_peek _ _ _ _ _ Hh); unfold PROXY_V2_HDR_LEN; lia. }
  revert Hp Hl. unfold hdr_blk.
  destruct (Z.eqb_spec (bz (byte_at bs 12) mod 16) 0), (Z.eqb_spec (bz (byte_at bs 12) mod 16) 1); try lia; [done|].
  cbn [andb]. destruct (Z.eqb_spec (bz (byte_at bs 13) / 16) 1) as [Hf|].
  { rewrite Hf. cbn. intros -> Hl; [|lia..]. rewrite poke_0. do 3 f_equal.
    unfold peek. rewrite length_take, length_drop, Nat.min_l by lia. done. }
  destruct (Z.eqb_spec (bz (byte_at bs 13) / 16) 2) as [Hf|]; [|done].
  rewrite Hf. cbn. intros -> Hl; [|lia..]. rewrite poke_0_full; [done|].
  pose proof (length_peek 16 16 bs). change (length (zeros 16)) with 16%nat. lia.
Qed.

(** Parts 2 and 3 after an accepted header. *)
Lemma body_ref p bs st p' rest :
  holds p (ztake 16 bs) -> pv_addr p = addr_none -> 16 <= blen bs -> hdr_valid bs = true ->
  consume_body (pv_plan p (PROXY_V2_HDR_LEN + hdr_blk bs) (be_dec (peek 14 2 bs) - hdr_blk bs)) (zdrop 16 bs) = (st, p', rest) ->
  (st, pv_addr p', blen bs - blen rest) = proxy_ref bs.
Proof.
  intros Hh Ha Hs Hv. unfold proxy_ref. fold (hdr_blk bs). fold (hdr_valid bs). rewrite Hv. unfold PROXY_V2_HDR_LEN in *.
  rewrite (proj2 (Z.ltb_ge _ _)) by lia.
  pose proof (hdr_blk_range bs). pose proof Hv as Hv'. unfold hdr_valid in Hv'. rewrite !andb_true_iff, !Z.leb_le in Hv'.
  set (body := be_dec (peek 14 2 bs)) in *. unfold consume_body.
  destruct (stage _ (pv_plan _ _ _) _) as [p2 r2] eqn:Es. cbn [pv_plan pv_want] in Es.
  pose proof (stage_frame _ _ _ _ _ Es) as (Hw & Hk & _ & _ & _ & Ha2). cbn in Hw, Hk, Ha2.
  destruct (stage_holds _ (pv_plan p _ _) (ztake 16 bs) _ _ _ Hh Es) as [Hh2 ->]. clear Es.
  rewrite length_take, Nat.min_l in * by lia. replace (16 + hdr_blk bs - Z.of_nat (Z.to_nat 16)) with (hdr_blk bs) in * by lia.
  rewrite take_take_drop, <-Z2Nat.inj_add in Hh2 by lia. rewrite drop_drop, <-Z2Nat.inj_add by lia.
  rewrite Hw, (proj2 Hh2), length_take.
  destruct (Z.ltb_spec (Z.of_nat (Z.to_nat (16 + hdr_blk bs) `min` length bs)) (16 + hdr_blk bs)).
  { intros [= <- <- <-]. rewrite (proj2 (Z.ltb_lt _ _)), drop_ge by lia. rewrite Ha2, Ha. cbn. by rewrite Z.sub_0_r. }
  rewrite consume_tlv_eq, Hk, length_zdrop by lia.
  destruct (Z.ltb_spec (blen bs - (16 + hdr_blk bs)) (body - hdr_blk bs)), (Z.ltb_spec (blen bs) (16 + body)); try lia.
  { intros [= <- <- <-]. cbn. rewrite Ha2, Ha. by rewrite Z.sub_0_r. }
  rewrite (settle_spec p2 bs), drop_drop, <-Z2Nat.inj_add by (done || lia || congruence).
  replace (16 + hdr_blk bs + (body - hdr_blk bs)) with (16 + body) by lia.
  destruct (_ && _); [|destruct (_ && _)].
  all: intros [= <- <- <-]; cbn [pv_finish pv_addr]; rewrite length_zdrop by lia; f_equal; lia.
Qed.

(** The parser on the whole input is the reference. *)
Lemma go_ref bs st p rest :
  go proxy_start bs = (st, p, rest) -> (st, pv_addr p, blen bs - blen rest) = proxy_ref bs.
Proof.
  unfold go. cbn [pv_done proxy_start]. fold proxy_start.
  destruct (Z.ltb_spec (blen bs) PROXY_V2_HDR_LEN) as [Hs|Hs].
  - unfold proxy_ref. rewrite (proj2 (Z.ltb_lt _ _)) by done. unfold consume_header. cbn [pv_hdr_ok proxy_start]. fold proxy_start.
    destruct (stage _ proxy_start bs) as [p1 r1] eqn:Es.
    destruct (stage_holds _ _ _ _ _ _ start_holds Es) as [Hh ->]. pose proof (stage_frame _ _ _ _ _ Es) as (_ & _ & _ & _ & _ & Ha).
    cbn [app length] in Hh. rewrite (proj2 (Z.ltb_lt _ _)) by (rewrite (proj2 Hh), length_take; lia).
    intros [= <- <- <-]. rewrite Ha, drop_ge by (cbn [length]; lia). cbn. by rewrite Z.sub_0_r.
  - destruct (header_spec bs Hs) as (p1 & Hh & Ha & ->). destruct (hdr_valid bs) eqn:Hv; [by apply body_ref|].
    unfold proxy_ref. fold (hdr_blk bs). fold (hdr_valid bs). rewrite Hv, (proj2 (Z.ltb_ge _ _)) by done.
    unfold PROXY_V2_HDR_LEN in *. intros [= <- <- <-]. cbn. rewrite Ha, length_drop. do 2 f_equal. lia.
Qed.

(** The caller's loop: chunks are handed over until there is a verdict. *)
Fixpoint feed (p : proxy_v2_t) (chunks : list (list byte)) : proxy_v2_status_t * option proxy_v2_t * Z :=
  match chunks with
  | [] => (PROXY_V2_NEED_MORE, Some p, 0)
  | c :: cs =>
    match proxy_v2_consume (Some p) (Some c) (blen c) (Some 0) with
    | (PROXY_V2_NEED_MORE, Some p', Some u) => let '(st, p'', v) := feed p' cs in (st, p'', u + v)
    | (st, p', u) => (st, p', default 0 u)
    end
  end.

Lemma go_rest p a p' ra : pv_ok p -> go p a = (PROXY_V2_NEED_MORE, p', ra) -> ra = [].
Proof.
  intros Hok. unfold go. destruct (pv_done p) eqn:Hd.
  { intros [= Hr _ _]. by destruct Hok as [_ []]. }
  pose proof (consume_header_facts p a Hok Hd) as Hf. destruct (consume_header p a) as [[[st1 p1] r1]|[p1 r1]].
  - intros [= -> -> ->]. by apply Hf.
  - unfold consume_body. destruct (stage _ p1 r1) as [p2 r2] eqn:Es. pose proof (stage_frame _ _ _ _ _ Es) as (Hw & Hk & _).
    destruct (Z.ltb_spec (pv_have p2) (pv_want p2)).
    + intros [= <- <-]. eapply stage_short; [done|lia].
    + rewrite consume_tlv_eq by lia. destruct (_ <? _); [by intros [= _ <-]|].
      pose proof (settle_decided p2). destruct (settle p2). by intros [= -> _ _].
Qed.

(** A parser waiting for more bytes, where an empty chunk changes nothing. *)
Definition idle (p : proxy_v2_t) : Prop := pv_ok p /\ go p [] = (PROXY_V2_NEED_MORE, p, []).

Lemma start_idle : idle proxy_start.
Proof. by split; [apply start_ok|]. Qed.

Lemma go_idle p a p' ra : pv_ok p -> go p a = (PROXY_V2_NEED_MORE, p', ra) -> idle p' /\ ra = [].
Proof.
  intros Hok Hg. pose proof (go_rest _ _ _ _ Hok Hg) as ->. split; [|done]. split; [by eapply go_facts in Hg as [? _]|].
  pose proof (go_app p a [] Hok) as Ha. rewrite app_nil_r, Hg in Ha. by cbn in Ha.
Qed.

Lemma feed_go p cs :
  idle p -> feed p cs = (let '(st, p', rest) := go p (concat cs) in (st, Some p', blen (concat cs) - blen rest)).
Proof.
  revert p. induction cs as [|c cs IH]; intros p [Hok Hi]; cbn [feed concat]; [by rewrite Hi|].
  rewrite consume_go, go_app by done. destruct (go p c) as [[st1 p1] r1] eqn:Hg. cbn [appended]. rewrite length_app, Nat2Z.inj_add.
  destruct (bool_decide_reflect (st1 = PROXY_V2_NEED_MORE)) as [->|Hst].
  - destruct (go_idle _ _ _ _ Hok Hg) as [Hi1 ->]. rewrite IH by done. destruct (go p1 (concat cs)) as [[st p2] r2].
    f_equal. cbn [length]. lia.
  - rewrite length_app. destruct st1; [done|..]; cbn [default]; f_equal; cbn; lia.
Qed.

(** ** Bounds *)

Definition pv_cap : Z := PROXY_V2_HDR_LEN + PROXY_V2_ADDR_MAX.
Definition fits (p : proxy_v2_t) : Prop := 0 <= pv_have p <= pv_cap /\ blen (pv_buf p) = pv_cap /\ pv_want p <= pv_cap.

Lemma stage_fits lim p data p' rest : lim <= pv_cap -> fits p -> stage lim p data = (p', rest) -> fits p'.
Proof.
  intros Hl. revert p. induction data as [|b data IH]; intros p Hf; cbn; [by intros [= <- <-]|].
  destruct (Z.ltb_spec (pv_have p) lim); [|by intros [= <- <-]]. apply IH. destruct Hf as (? & ? & ?).
  split_and!; cbn; [lia|lia| |done]. rewrite length_poke by (cbn [length]; lia). done.
Qed.

Lemma go_fits p a st p' ra : fits p -> go p a = (st, p', ra) -> fits p'.
Proof.
  intros Hf. unfold go. destruct (pv_done p); [by intros [= <- <- <-]|].
  assert (Hb : forall q r, fits q -> consume_body q r = (st, p', ra) -> fits p').
  { intros q r Hq. unfold consume_body. destruct (stage _ q r) as [q1 r1] eqn:Es. pose proof (stage_fits _ _ _ _ _ (proj2 (proj2 Hq)) Hq Es) as Hq1.
    destruct (_ <? _); [by intros [= <- <- <-]|]. unfold consume_tlv. destruct (0 <? _); [destruct (0 <? _)|].
    all: try destruct (settle _); intros [= <- <- <-]; exact Hq1. }
  unfold consume_header. destruct (pv_hdr_ok p); [by apply Hb|].
  destruct (stage _ p a) as [p1 r1] eqn:Es. pose proof (stage_fits PROXY_V2_HDR_LEN _ _ _ _ ltac:(done) Hf Es) as Hf1.
  repeat (header_guard; [intros [= <- <- <-]; exact Hf1|]). apply Hb. destruct Hf1 as (H1 & H2 & _). refine (conj H1 (conj H2 _)). cbn [pv_want pv_plan].
  unfold addr_block_len, pv_cap, PROXY_V2_ADDR_MAX. repeat case_match; lia.
Qed.

Lemma proxy_ref_used bs : 0 <= (proxy_ref bs).2 <= Z.min PROXY_V2_MAX_TOTAL (blen bs).
Proof.
  unfold proxy_ref, PROXY_V2_MAX_TOTAL. pose proof (be_dec_range (peek 14 2 bs)). set (body := be_dec _) in *.
  unfold PROXY_V2_HDR_LEN, PROXY_V2_LEN_MAX in *.
  destruct (Z.ltb_spec (blen bs) 16); [cbn; lia|].
  destruct (_ && (_ <=? body)) eqn:Hc; [|cbn; lia]. rewrite !andb_true_iff, !Z.leb_le in Hc.
  destruct (Z.ltb_spec (blen bs) (16 + body)); [cbn; lia|]. repeat case_match; cbn; lia.
Qed.

(** C35: however the proxy's bytes are cut into chunks, feeding them to [proxy_v2_consume] until it decides gives the
    verdict, the client address and the number of bytes taken of the one-shot reference parser on their concatenation. *)
Theorem proxy_v2_chunking (any : proxy_v2_t) (chunks : list (list byte)) :
  exists start st p used, proxy_v2_init (Some any) = Some start /\
    feed start chunks = (st, Some p, used) /\ (st, pv_addr p, used) = proxy_ref (concat chunks).
Proof.
  destruct (go proxy_start (concat chunks)) as [[st p] rest] eqn:Hg. exists proxy_start, st, p, (blen (concat chunks) - blen rest).
  split_and!; [done| |by apply go_ref]. by rewrite feed_go, Hg by apply start_idle.
Qed.

(** No input makes the parser write outside its 232-byte staging buffer, and it never takes more than 1040 bytes, nor
    more than it was given; a decided parser takes nothing further. *)
Theorem proxy_v2_bounds (chunks : list (list byte)) (more : list byte) :
  exists st p used, feed proxy_start chunks = (st, Some p, used) /\
    0 <= pv_have p <= 232 /\ blen (pv_buf p) = 232 /\ 0 <= used <= Z.min 1040 (blen (concat chunks)) /\
    (st <> PROXY_V2_NEED_MORE -> proxy_v2_consume (Some p) (Some more) (blen more) (Some 0) = (st, Some p, Some 0)).
Proof.
  destruct (go proxy_start (concat chunks)) as [[st p] rest] eqn:Hg. exists st, p, (blen (concat chunks) - blen rest).
  split; [by rewrite feed_go, Hg by apply start_idle|].
  apply go_fits in Hg as Hf; [|by vm_compute]. destruct Hf as (? & ? & _). split; [done|]. split; [done|].
  apply go_ref in Hg as Hr. pose proof (proxy_ref_used (concat chunks)) as Hu. rewrite <-Hr in Hu. split; [exact Hu|]. intros Hn.
  apply go_facts in Hg as [_ Hk]; [|apply start_ok]. unfold verdict_kept in Hk. rewrite bool_decide_eq_false_2 in Hk by done.
  destruct Hk as [Hd Hres]. rewrite consume_go. unfold go. rewrite Hd, Hres, Z.sub_diag. done.
Qed.
