(* ===== verification/RateLimit.v ===== *)
(** * The connection rate limiter ([apps/authd/ratelimit.c])

    Token buckets per client address in a fixed open-addressing table, a bucket
    for the whole daemon, and the admission gate.  Time is an argument.  The
    hash is libsodium's SipHash, a function of the environment. *)

From S2P Require Import Prelude Extern ProxyV2.

Definition RATELIMIT_ENTRIES : Z := 1024.
Definition RATELIMIT_PER_MIN_MAX : Z := 10000.
Definition RATELIMIT_BURST_MAX : Z := 10000.
Definition RATELIMIT_GLOBAL_MAX : Z := 10000.
Definition RATELIMIT_MAX_CONNS_MAX : Z := 4096.

Inductive ratelimit_verdict_t :=
  RATELIMIT_ALLOW | RATELIMIT_DENY_CONNS | RATELIMIT_DENY_ADDR | RATELIMIT_DENY_GLOBAL | RATELIMIT_DENY_TABLE
| RATELIMIT_DENY_NO_ADDR.
#[global] Instance ratelimit_verdict_eq_dec : EqDecision ratelimit_verdict_t.
Proof. solve_decision. Defined.

Record ratelimit_entry_t := RlEntry {
  re_key : list byte; re_key_len : Z; re_tokens_milli : Z; re_last_ms : Z; re_conns : Z }.

Record ratelimit_t := Ratelimit {
  rl_hash_key : list byte; rl_per_min : Z; rl_burst : Z; rl_global_per_sec : Z; rl_max_conns : Z;
  rl_global_tokens_milli : Z; rl_global_last_ms : Z; rl_e : list ratelimit_entry_t;
  rl_admitted : Z; rl_denied_conns : Z; rl_denied_addr : Z; rl_denied_global : Z; rl_denied_table : Z; rl_refunded : Z }.

(** [memset] to zero of one entry. *)
Definition entry_zero : ratelimit_entry_t := RlEntry (zeros 16) 0 0 0 0.

Definition clamp_u32 (v lo hi : Z) : Z := if v <? lo then lo else if hi <? v then hi else v.

(** Field updates. *)
Definition set_bucket (e : ratelimit_entry_t) (tl : Z * Z) : ratelimit_entry_t :=
  RlEntry (re_key e) (re_key_len e) tl.1 tl.2 (re_conns e).
Definition set_conns (e : ratelimit_entry_t) (n : Z) : ratelimit_entry_t :=
  RlEntry (re_key e) (re_key_len e) (re_tokens_milli e) (re_last_ms e) n.
Definition set_entry (r : ratelimit_t) (i : Z) (e : ratelimit_entry_t) : ratelimit_t :=
  Ratelimit (rl_hash_key r) (rl_per_min r) (rl_burst r) (rl_global_per_sec r) (rl_max_conns r) (rl_global_tokens_milli r)
    (rl_global_last_ms r) (<[Z.to_nat i := e]> (rl_e r)) (rl_admitted r) (rl_denied_conns r) (rl_denied_addr r)
    (rl_denied_global r) (rl_denied_table r) (rl_refunded r).
Definition set_global (r : ratelimit_t) (tl : Z * Z) : ratelimit_t :=
  Ratelimit (rl_hash_key r) (rl_per_min r) (rl_burst r) (rl_global_per_sec r) (rl_max_conns r) tl.1 tl.2 (rl_e r)
    (rl_admitted r) (rl_denied_conns r) (rl_denied_addr r) (rl_denied_global r) (rl_denied_table r) (rl_refunded r).
Definition count (r : ratelimit_t) (v : ratelimit_verdict_t) : ratelimit_t :=
  let bump w n := if bool_decide (v = w) then u64 (n + 1) else n in
  Ratelimit (rl_hash_key r) (rl_per_min r) (rl_burst r) (rl_global_per_sec r) (rl_max_conns r) (rl_global_tokens_milli r)
    (rl_global_last_ms r) (rl_e r) (bump RATELIMIT_ALLOW (rl_admitted r)) (bump RATELIMIT_DENY_CONNS (rl_denied_conns r))
    (bump RATELIMIT_DENY_ADDR (rl_denied_addr r)) (bump RATELIMIT_DENY_GLOBAL (rl_denied_global r))
    (bump RATELIMIT_DENY_TABLE (rl_denied_table r)) (rl_refunded r).
Definition count_refund (r : ratelimit_t) : ratelimit_t :=
  Ratelimit (rl_hash_key r) (rl_per_min r) (rl_burst r) (rl_global_per_sec r) (rl_max_conns r) (rl_global_tokens_milli r)
    (rl_global_last_ms r) (rl_e r) (rl_admitted r) (rl_denied_conns r) (rl_denied_addr r) (rl_denied_global r)
    (rl_denied_table r) (u64 (rl_refunded r + 1)).

(** Entry [i]; the table always has [RATELIMIT_ENTRIES] of them. *)
Definition entry_at (r : ratelimit_t) (i : Z) : ratelimit_entry_t := default entry_zero (rl_e r !! Z.to_nat i).

(** ** The buckets *)

(** The new [*tokens_milli] and [*last_ms]. *)
Definition refill (tokens_milli last_ms now_ms per_ms_num per_ms_den cap_milli : Z) : Z * Z :=
  if now_ms <=? last_ms then (tokens_milli, last_ms) else
  let elapsed := u64 (now_ms - last_ms) in
  let add := u64 (elapsed * per_ms_num) / per_ms_den in
  if add =? 0 then (tokens_milli, last_ms) else
  let tokens_milli := u64 (tokens_milli + add) in
  (if cap_milli <? tokens_milli then cap_milli else tokens_milli, u64 (last_ms + u64 (add * per_ms_den) / per_ms_num)).

Definition cap_milli (r : ratelimit_t) : Z := u64 (rl_burst r * 1000).

Definition refill_addr (r : ratelimit_t) (e : ratelimit_entry_t) (now_ms : Z) : ratelimit_entry_t :=
  set_bucket e (refill (re_tokens_milli e) (re_last_ms e) now_ms (rl_per_min r) 60 (cap_milli r)).

Definition refill_global (r : ratelimit_t) (now_ms : Z) : ratelimit_t :=
  set_global r (refill (rl_global_tokens_milli r) (rl_global_last_ms r) now_ms (rl_global_per_sec r) 1
                  (u64 (rl_global_per_sec r * 1000))).

(** ** The table *)

Definition same_key (e : ratelimit_entry_t) (key : list byte) (key_len : Z) : bool :=
  (re_key_len e =? key_len) && memeq (re_key e) key key_len.

Definition reclaimable (r : ratelimit_t) (e : ratelimit_entry_t) (now_ms : Z) : bool :=
  if re_key_len e =? 0 then true else
  if negb (re_conns e =? 0) then false else
  cap_milli r <=? re_tokens_milli (refill_addr r e now_ms).

Section table.
Context `{E : Env}.

Definition ratelimit_init (r : option ratelimit_t) (per_min burst global_per_sec max_conns now_ms : Z) : M (option ratelimit_t) :=
  match r with
  | None => mret None
  | Some _ =>
    hk ← randombytes_buf 16;
    let gps := clamp_u32 global_per_sec 1 RATELIMIT_GLOBAL_MAX in
    mret (Some (Ratelimit hk (clamp_u32 per_min 1 RATELIMIT_PER_MIN_MAX) (clamp_u32 burst 1 RATELIMIT_BURST_MAX) gps
      (clamp_u32 max_conns 1 RATELIMIT_MAX_CONNS_MAX) (u64 (gps * 1000)) now_ms
      (replicate (Z.to_nat RATELIMIT_ENTRIES) entry_zero) 0 0 0 0 0 0))
  end.

Definition bucket_of (r : ratelimit_t) (key : list byte) : Z :=
  let h := crypto_shorthash key (rl_hash_key r) in
  fold_left (fun v b => u64 (Z.lor (Z.shiftl v 8) (bz b))) h 0 mod RATELIMIT_ENTRIES.

(** The probing loop from step [n], for [fuel] more steps. *)
Fixpoint find_loop (r : ratelimit_t) (key : list byte) (key_len b : Z) (n : Z) (fuel : nat) : Z :=
  match fuel with
  | O => RATELIMIT_ENTRIES
  | S fuel =>
    let i := (b + n) mod RATELIMIT_ENTRIES in
    let e := entry_at r i in
    if re_key_len e =? 0 then RATELIMIT_ENTRIES else
    if same_key e key key_len then i else find_loop r key key_len b (n + 1) fuel
  end.

Definition find_idx (r : ratelimit_t) (key : list byte) (key_len : Z) : Z :=
  find_loop r key key_len (bucket_of r key) 0 (Z.to_nat RATELIMIT_ENTRIES).

(** The scan of [find_or_add] for a slot to take: its index, if any. *)
Fixpoint add_loop (r : ratelimit_t) (b now_ms : Z) (n : Z) (fuel : nat) : option Z :=
  match fuel with
  | O => None
  | S fuel =>
    let i := (b + n) mod RATELIMIT_ENTRIES in
    if reclaimable r (entry_at r i) now_ms then Some i else add_loop r b now_ms (n + 1) fuel
  end.

Definition entry_new (r : ratelimit_t) (key : list byte) (key_len now_ms : Z) : ratelimit_entry_t :=
  RlEntry (poke 0 key (zeros 16)) key_len (cap_milli r) now_ms 0.

Definition find_or_add (r : ratelimit_t) (key : list byte) (key_len now_ms : Z) : option Z * ratelimit_t :=
  let at_ := find_idx r key key_len in
  if negb (at_ =? RATELIMIT_ENTRIES) then (Some at_, r) else
  match add_loop r (bucket_of r key) now_ms 0 (Z.to_nat RATELIMIT_ENTRIES) with
  | Some i => (Some i, set_entry r i (entry_new r key key_len now_ms))
  | None => (None, r)
  end.

(** ** The gate *)

Definition ratelimit_admit (r : option ratelimit_t) (addr : option authd_addr_t) (now_ms : Z)
    : ratelimit_verdict_t * option ratelimit_t :=
  match r with
  | None => (RATELIMIT_DENY_NO_ADDR, None)
  | Some r =>
    let '(key_len, key) := authd_addr_key addr in
    if key_len =? 0 then (RATELIMIT_DENY_NO_ADDR, Some r) else
    let '(e, r) := find_or_add r key key_len now_ms in
    match e with
    | None => (RATELIMIT_DENY_TABLE, Some (count r RATELIMIT_DENY_TABLE))
    | Some i =>
      if rl_max_conns r <=? re_conns (entry_at r i)
      then (RATELIMIT_DENY_CONNS, Some (count r RATELIMIT_DENY_CONNS)) else
      let r := set_entry r i (refill_addr r (entry_at r i) now_ms) in
      if re_tokens_milli (entry_at r i) <? 1000
      then (RATELIMIT_DENY_ADDR, Some (count r RATELIMIT_DENY_ADDR)) else
      let r := refill_global r now_ms in
      if rl_global_tokens_milli r <? 1000
      then (RATELIMIT_DENY_GLOBAL, Some (count r RATELIMIT_DENY_GLOBAL)) else
      let e := entry_at r i in
      let r := set_entry r i (set_bucket e (u64 (re_tokens_milli e - 1000), re_last_ms e)) in
      let r := set_global r (u64 (rl_global_tokens_milli r - 1000), rl_global_last_ms r) in
      let r := set_entry r i (set_conns (entry_at r i) (u32 (re_conns (entry_at r i) + 1))) in
      (RATELIMIT_ALLOW, Some (count r RATELIMIT_ALLOW))
    end
  end.

Definition ratelimit_release (r : option ratelimit_t) (addr : option authd_addr_t) : option ratelimit_t :=
  match r with
  | None => None
  | Some r =>
    let '(key_len, key) := authd_addr_key addr in
    if key_len =? 0 then Some r else
    let at_ := find_idx r key key_len in
    if negb (at_ =? RATELIMIT_ENTRIES) && (0 <? re_conns (entry_at r at_))
    then Some (set_entry r at_ (set_conns (entry_at r at_) (u32 (re_conns (entry_at r at_) - 1)))) else Some r
  end.

Definition ratelimit_refund (r : option ratelimit_t) (addr : option authd_addr_t) (now_ms : Z) : option ratelimit_t :=
  match r with
  | None => None
  | Some r =>
    let '(key_len, key) := authd_addr_key addr in
    if key_len =? 0 then Some r else
    let at_ := find_idx r key key_len in
    if at_ =? RATELIMIT_ENTRIES then Some r else
    let e := refill_addr r (entry_at r at_) now_ms in
    let cap := cap_milli r in
    let tokens := if cap <? u64 (re_tokens_milli e + 1000) then cap else u64 (re_tokens_milli e + 1000) in
    Some (count_refund (set_entry r at_ (set_bucket e (tokens, re_last_ms e))))
  end.

Definition ratelimit_tokens_milli (r : option ratelimit_t) (addr : option authd_addr_t) : Z :=
  match r with
  | None => 0
  | Some r =>
    let '(key_len, key) := authd_addr_key addr in
    if key_len =? 0 then 0 else
    let at_ := find_idx r key key_len in
    if negb (at_ =? RATELIMIT_ENTRIES) then re_tokens_milli (entry_at r at_) else 0
  end.

Definition ratelimit_conns (r : option ratelimit_t) (addr : option authd_addr_t) : Z :=
  match r with
  | None => 0
  | Some r =>
    let '(key_len, key) := authd_addr_key addr in
    if key_len =? 0 then 0 else
    let at_ := find_idx r key key_len in
    if negb (at_ =? RATELIMIT_ENTRIES) then re_conns (entry_at r at_) else 0
  end.

End table.
