(* ===== verification/RateLimitProps.v ===== *)
(** * Properties of the rate limiter

    The table as a finite map from address keys to buckets, the refinement of
    the admission gate against that map, the invariant of every run, and the
    bounds on how many connections a time window admits. *)

From S2P Require Import Prelude Extern ProxyV2 RateLimit.

(** ** The abstract table *)

Record bucket := Bucket { bk_tokens : Z; bk_last : Z; bk_conns : Z }.
Definition bucket_of_entry (e : ratelimit_entry_t) : bucket := Bucket (re_tokens_milli e) (re_last_ms e) (re_conns e).
Definition entry_key (e : ratelimit_entry_t) : list byte := ztake (re_key_len e) (re_key e).
Definition slot (e : ratelimit_entry_t) : option (list byte * bucket) :=
  if re_key_len e =? 0 then None else Some (entry_key e, bucket_of_entry e).
Definition buckets (r : ratelimit_t) : gmap (list byte) bucket := table slot (rl_e r).

Definition key_ok (key : list byte) : Prop := blen key = 4 \/ blen key = 8.

Definition bucket_ok (r : ratelimit_t) (b : bucket) : Prop :=
  0 <= bk_tokens b <= rl_burst r * 1000 /\ 0 <= bk_last b < 2 ^ 64 /\ 0 <= bk_conns b <= rl_max_conns r.

Definition entry_ok (r : ratelimit_t) (e : ratelimit_entry_t) : Prop :=
  blen (re_key e) = 16 /\ (re_key_len e = 0 \/ re_key_len e = 4 \/ re_key_len e = 8) /\
  (re_key_len e <> 0 -> bucket_ok r (bucket_of_entry e)).

Definition params_ok (r : ratelimit_t) : Prop :=
  1 <= rl_per_min r <= RATELIMIT_PER_MIN_MAX /\ 1 <= rl_burst r <= RATELIMIT_BURST_MAX /\
  1 <= rl_global_per_sec r <= RATELIMIT_GLOBAL_MAX /\ 1 <= rl_max_conns r <= RATELIMIT_MAX_CONNS_MAX /\
  0 <= rl_global_tokens_milli r <= rl_global_per_sec r * 1000 /\ 0 <= rl_global_last_ms r < 2 ^ 64.

Lemma slot_key e key :
  blen (re_key e) = 16 -> 0 <= re_key_len e <= 16 -> 0 < blen key ->
  slot e = Some (key, bucket_of_entry e) <-> re_key_len e <> 0 /\ same_key e key (blen key) = true.
Proof.
  intros H16 Hr Hk. unfold slot, same_key, entry_key, memeq. rewrite andb_true_iff, Z.eqb_eq, bool_decide_eq_true, (take_all_z _ key) by done.
  destruct (Z.eqb_spec (re_key_len e) 0); [split; [done|intros [? _]; done]|]. split.
  - intros Hs. apply Some_inj in Hs. apply pair_equal_spec in Hs as [<- _]. rewrite length_take.
    replace (Z.of_nat (Z.to_nat (re_key_len e) `min` length (re_key e))) with (re_key_len e) by lia. done.
  - intros (_ & -> & ->). done.
Qed.

Lemma slot_bucket e key b : slot e = Some (key, b) -> b = bucket_of_entry e /\ re_key_len e <> 0 /\ key = entry_key e.
Proof. unfold slot. destruct (Z.eqb_spec (re_key_len e) 0); [done|]. intros Hs. apply Some_inj, pair_equal_spec in Hs as [<- <-]. done. Qed.

(** ** Refilling *)

(** A refill keeps the bucket within its cap and never moves its clock past the present. *)
Lemma refill_bounds tok last now num den cap :
  0 <= tok <= cap -> 0 <= last < 2 ^ 64 -> 0 <= now < 2 ^ 64 -> 1 <= num -> 1 <= den ->
  let '(tok', last') := refill tok last now num den cap in
  0 <= tok' <= cap /\ last <= last' <= Z.max last now.
Proof.
  intros Ht Hl Hn Hnum Hden. unfold refill. destruct (Z.leb_spec now last); [lia|].
  rewrite (u64_small (now - last)) by (unfold UINT64_MAX; lia).
  set (x := u64 ((now - last) * num)). pose proof (u64_range ((now - last) * num)) as Hx. fold x in Hx.
  assert (Hle : x <= (now - last) * num) by (apply Z.mod_le; nia).
  destruct (Z.eqb_spec (x / den) 0); [lia|].
  pose proof (Z.mul_div_le x den ltac:(lia)). pose proof (Z.div_pos x den ltac:(lia) ltac:(lia)).
  rewrite (u64_small (x / den * den)) by (unfold UINT64_MAX; lia).
  assert (0 <= x / den * den / num <= now - last).
  { split; [apply Z.div_pos; nia|]. apply Z.div_le_upper_bound; [lia|]. nia. }
  rewrite (u64_small (last + _)) by (unfold UINT64_MAX; lia).
  pose proof (u64_range (tok + x / den)). destruct (Z.ltb_spec cap (u64 (tok + x / den))); lia.
Qed.

(** What a refill adds when no product overflows. *)
Lemma refill_exact tok last now num den cap :
  0 <= tok <= cap -> 0 <= last <= now -> 1 <= num -> 1 <= den -> cap + now * num < 2 ^ 64 ->
  let add := (now - last) * num / den in
  refill tok last now num den cap = (Z.min cap (tok + add), last + add * den / num).
Proof.
  intros Ht Hl Hnum Hden Hov add. unfold refill. pose proof (Z.mul_div_le ((now - last) * num) den ltac:(lia)) as Hd. fold add in Hd.
  assert (0 <= add) by (apply Z.div_pos; nia). assert (add <= (now - last) * num) by nia.
  destruct (Z.leb_spec now last).
  { replace add with 0 by (unfold add; replace (now - last) with 0 by lia; by rewrite Z.div_0_l by lia).
    rewrite Z.mul_0_l, Z.div_0_l, !Z.add_0_r by lia. f_equal. lia. }
  rewrite (u64_small (now - last)), (u64_small ((now - last) * num)) by (unfold UINT64_MAX; nia). fold add.
  destruct (Z.eqb_spec add 0) as [->|].
  { rewrite Z.mul_0_l, Z.div_0_l, !Z.add_0_r by lia. f_equal. lia. }
  rewrite (u64_small (add * den)), (u64_small (tok + add)) by (unfold UINT64_MAX; nia).
  assert (0 <= add * den / num <= now - last).
  { split; [apply Z.div_pos; nia|]. apply Z.div_le_upper_bound; nia. }
  rewrite u64_small by (unfold UINT64_MAX; nia). f_equal. destruct (Z.ltb_spec cap (tok + add)); lia.
Qed.

Section limiter.
Context `{E : Env}.
Implicit Types r : ratelimit_t.

(** Every slot an insertion stepped over to reach slot [i] is in use. *)
Definition chain r (key : list byte) (i : Z) : Prop :=
  exists n, 0 <= n < RATELIMIT_ENTRIES /\ i = (bucket_of r key + n) mod RATELIMIT_ENTRIES /\
    forall m, 0 <= m < n -> re_key_len (entry_at r ((bucket_of r key + m) mod RATELIMIT_ENTRIES)) <> 0.

Record rl_wf r : Prop := {
  wf_len : blen (rl_e r) = RATELIMIT_ENTRIES;
  wf_params : params_ok r;
  wf_entries : forall i, 0 <= i < RATELIMIT_ENTRIES -> entry_ok r (entry_at r i);
  wf_distinct : distinct slot (rl_e r);
  wf_chain : forall i, 0 <= i < RATELIMIT_ENTRIES -> re_key_len (entry_at r i) <> 0 -> chain r (entry_key (entry_at r i)) i }.

Lemma entry_lookup r i : rl_wf r -> 0 <= i < RATELIMIT_ENTRIES -> rl_e r !! Z.to_nat i = Some (entry_at r i).
Proof.
  intros Hw Hi. pose proof (wf_len _ Hw). unfold entry_at.
  destruct (lookup_lt_is_Some_2 (rl_e r) (Z.to_nat i)) as [e ->]; [lia|done].
Qed.

Lemma entry_at_set r i j e :
  rl_wf r -> 0 <= i < RATELIMIT_ENTRIES -> 0 <= j < RATELIMIT_ENTRIES ->
  entry_at (set_entry r i e) j = if j =? i then e else entry_at r j.
Proof.
  intros Hw Hi Hj. pose proof (wf_len _ Hw). unfold entry_at. cbn. destruct (Z.eqb_spec j i) as [->|].
  - by rewrite list_lookup_insert_eq by lia.
  - by rewrite list_lookup_insert_ne by lia.
Qed.

Lemma same_key_slot r i key :
  rl_wf r -> 0 <= i < RATELIMIT_ENTRIES -> key_ok key ->
  re_key_len (entry_at r i) <> 0 /\ same_key (entry_at r i) key (blen key) = true <->
  slot (entry_at r i) = Some (key, bucket_of_entry (entry_at r i)).
Proof.
  intros Hw Hi Hk. destruct (wf_entries _ Hw i Hi) as (H16 & Hl & _). symmetry. apply slot_key; [done|lia|unfold key_ok in Hk; lia].
Qed.

(** ** Probing *)

Lemma probe_range b n : 0 <= (b + n) mod RATELIMIT_ENTRIES < RATELIMIT_ENTRIES.
Proof. by apply Z.mod_pos_bound. Qed.

Lemma find_loop_sound r key len b n fuel :
  let i := find_loop r key len b n fuel in
  i = RATELIMIT_ENTRIES \/
  (0 <= i < RATELIMIT_ENTRIES /\ re_key_len (entry_at r i) <> 0 /\ same_key (entry_at r i) key len = true).
Proof.
  revert n. induction fuel as [|fuel IH]; intros n; cbn [find_loop]; [by left|].
  destruct (Z.eqb_spec (re_key_len (entry_at r ((b + n) mod RATELIMIT_ENTRIES))) 0); [by left|].
  destruct (same_key _ _ _) eqn:Hs; [|apply IH]. right. split; [apply probe_range|done].
Qed.

Lemma find_loop_hit r key len b n n' fuel :
  n <= n' < n + Z.of_nat fuel ->
  (forall m, n <= m <= n' -> re_key_len (entry_at r ((b + m) mod RATELIMIT_ENTRIES)) <> 0) ->
  same_key (entry_at r ((b + n') mod RATELIMIT_ENTRIES)) key len = true ->
  find_loop r key len b n fuel <> RATELIMIT_ENTRIES.
Proof.
  revert n. induction fuel as [|fuel IH]; intros n Hn Hu Hs; [lia|]. cbn [find_loop].
  rewrite (proj2 (Z.eqb_neq _ _)) by (apply Hu; lia). destruct (same_key (entry_at r ((b + n) mod _)) _ _) eqn:Hk.
  { pose proof (probe_range b n). lia. }
  apply IH; [|intros; apply Hu; lia|done]. destruct (decide (n = n')) as [->|]; [congruence|lia].
Qed.

Lemma find_idx_sound r key len :
  find_idx r key len = RATELIMIT_ENTRIES \/
  (0 <= find_idx r key len < RATELIMIT_ENTRIES /\ re_key_len (entry_at r (find_idx r key len)) <> 0 /\
   same_key (entry_at r (find_idx r key len)) key len = true).
Proof. unfold find_idx. apply find_loop_sound. Qed.

(** [find_idx] decides membership in the abstract table. *)
Lemma find_idx_spec r key :
  rl_wf r -> key_ok key ->
  match buckets r !! key with
  | Some b => let i := find_idx r key (blen key) in
      0 <= i < RATELIMIT_ENTRIES /\ slot (entry_at r i) = Some (key, b) /\ b = bucket_of_entry (entry_at r i)
  | None => find_idx r key (blen key) = RATELIMIT_ENTRIES
  end.
Proof.
  intros Hw Hk. pose proof (find_idx_sound r key (blen key)) as Hs.
  assert (Hin : find_idx r key (blen key) <> RATELIMIT_ENTRIES ->
    let i := find_idx r key (blen key) in 0 <= i < RATELIMIT_ENTRIES /\
    slot (entry_at r i) = Some (key, bucket_of_entry (entry_at r i)) /\ buckets r !! key = Some (bucket_of_entry (entry_at r i))).
  { intros Hn. destruct Hs as [Hx|(Hi & Hkey)]; [by destruct Hn|]. apply same_key_slot in Hkey; [|done..].
    cbv zeta. split; [done|]. split; [done|]. eapply table_find; [apply Hw|by apply entry_lookup|done]. }
  destruct (buckets r !! key) as [b|] eqn:Hb.
  - apply table_lookup in Hb as (i & e & Hi & He); [|apply Hw].
    assert (find_idx r key (blen key) <> RATELIMIT_ENTRIES) as Hne.
    + pose proof (lookup_lt_Some _ _ _ Hi). pose proof (wf_len _ Hw).
      assert (He' : entry_at r (Z.of_nat i) = e) by (unfold entry_at; by rewrite Nat2Z.id, Hi).
      destruct (slot_bucket _ _ _ He) as (-> & Hu & ->). rewrite <-He' in Hu, He, Hk |- *.
      destruct (wf_chain _ Hw (Z.of_nat i)) as (n & Hn & Hin' & Hbefore); [lia|done|].
      apply find_loop_hit with n; [rewrite Z2Nat.id; unfold RATELIMIT_ENTRIES in *; lia| |].
      * intros m Hm. destruct (decide (m = n)) as [->|]; [by rewrite <-Hin'|]. apply Hbefore. lia.
      * rewrite <-Hin'. apply (proj2 (same_key_slot r (Z.of_nat i) _ Hw ltac:(lia) Hk) He).
    + destruct (Hin Hne) as (Hi' & Hs' & Hb'). split_and!; [lia|lia|congruence|congruence].
  - destruct (decide (find_idx r key (blen key) = RATELIMIT_ENTRIES)) as [|Hne]; [done|]. by destruct (Hin Hne) as (_ & _ & ?).
Qed.

Lemma add_loop_spec r b now n fuel :
  match add_loop r b now n fuel with
  | Some i => exists m, n <= m < n + Z.of_nat fuel /\ i = (b + m) mod RATELIMIT_ENTRIES /\ reclaimable r (entry_at r i) now = true /\
      forall m', n <= m' < m -> reclaimable r (entry_at r ((b + m') mod RATELIMIT_ENTRIES)) now = false
  | None => forall m, n <= m < n + Z.of_nat fuel -> reclaimable r (entry_at r ((b + m) mod RATELIMIT_ENTRIES)) now = false
  end.
Proof.
  revert n. induction fuel as [|fuel IH]; intros n; cbn [add_loop]; [intros; lia|].
  destruct (reclaimable _ _ _) eqn:Hr.
  - exists n. split_and!; [lia|lia|done|done|intros; lia].
  - specialize (IH (n + 1)). destruct (add_loop _ _ _ _ _) as [i|].
    + destruct IH as (m & Hm & Hi & Hc & Hf). exists m. split_and!; [lia|lia|done|done|]. intros m' Hm'.
      destruct (decide (m' = n)) as [->|]; [done|]. apply Hf. lia.
    + intros m Hm. destruct (decide (m = n)) as [->|]; [done|]. apply IH. lia.
Qed.

(** ** Writing an entry *)

Lemma set_entry_wf r i e :
  rl_wf r -> 0 <= i < RATELIMIT_ENTRIES -> entry_ok r e -> re_key_len e <> 0 -> chain r (entry_key e) i ->
  distinct slot (<[Z.to_nat i := e]> (rl_e r)) -> rl_wf (set_entry r i e).
Proof.
  intros Hw Hi He Hu Hc Hd.
  assert (Hused : forall j, 0 <= j < RATELIMIT_ENTRIES -> re_key_len (entry_at r j) <> 0 ->
    re_key_len (entry_at (set_entry r i e) j) <> 0).
  { intros j Hj Huj. rewrite entry_at_set by done. by destruct (j =? i). }
  assert (Hmono : forall k j, chain r k j -> chain (set_entry r i e) k j).
  { intros k j (n & Hn & Hj & Hb). exists n. split_and!; [lia|lia|done|]. intros m Hm. apply Hused; [apply probe_range|by apply Hb]. }
  split; [cbn; rewrite length_insert; apply Hw|apply Hw| |done|].
  - intros j Hj. rewrite entry_at_set by done. destruct (j =? i); [done|]. by apply (wf_entries _ Hw).
  - intros j Hj Huj. rewrite entry_at_set in Huj |- * by done. apply Hmono. destruct (Z.eqb_spec j i) as [->|]; [done|].
    by apply (wf_chain _ Hw).
Qed.

(** Rewriting the bucket of a tracked address. *)
Lemma update_wf r i e k b :
  rl_wf r -> 0 <= i < RATELIMIT_ENTRIES -> slot (entry_at r i) = Some (k, b) ->
  re_key e = re_key (entry_at r i) -> re_key_len e = re_key_len (entry_at r i) -> bucket_ok r (bucket_of_entry e) ->
  rl_wf (set_entry r i e) /\ buckets (set_entry r i e) = <[k := bucket_of_entry e]> (buckets r) /\
  slot e = Some (k, bucket_of_entry e) /\ entry_at (set_entry r i e) i = e.
Proof.
  intros Hw Hi Hs Hk Hl Hb. destruct (slot_bucket _ _ _ Hs) as (_ & Hu & Hkey).
  assert (He : slot e = Some (k, bucket_of_entry e)).
  { unfold slot. rewrite (proj2 (Z.eqb_neq _ _)) by congruence. unfold entry_key. by rewrite Hk, Hl, Hkey. }
  destruct (table_update slot (rl_e r) _ _ e k b (bucket_of_entry e) (wf_distinct _ Hw) (entry_lookup _ _ Hw Hi) Hs He) as [Hd Ht].
  split_and!; [|done|done|by rewrite entry_at_set, Z.eqb_refl by done].
  apply set_entry_wf; [done|done| |congruence| |done].
  - destruct (wf_entries _ Hw i Hi) as (? & ? & _). unfold entry_ok. rewrite Hk, Hl. done.
  - unfold entry_key. rewrite Hk, Hl. by apply (wf_chain _ Hw).
Qed.

Definition bucket_new r (now : Z) : bucket := Bucket (cap_milli r) now 0.

Lemma cap_milli_eq r : params_ok r -> cap_milli r = rl_burst r * 1000.
Proof. intros (_ & Hb & _). unfold cap_milli, RATELIMIT_BURST_MAX in *. apply Z.mod_small. lia. Qed.

Lemma entry_new_slot r k now : key_ok k -> slot (entry_new r k (blen k) now) = Some (k, bucket_new r now).
Proof.
  intros Hk. unfold slot. cbn [re_key_len entry_new]. rewrite (proj2 (Z.eqb_neq _ _)) by (destruct Hk; lia).
  unfold entry_key. cbn [re_key re_key_len entry_new]. by rewrite take_poke_0.
Qed.

(** Taking a slot for an address that is not tracked. *)
Lemma take_wf r i k now :
  rl_wf r -> 0 <= i < RATELIMIT_ENTRIES -> key_ok k -> 0 <= now < 2 ^ 64 -> chain r k i -> buckets r !! k = None ->
  let r' := set_entry r i (entry_new r k (blen k) now) in
  rl_wf r' /\ entry_at r' i = entry_new r k (blen k) now /\
  buckets r' = <[k := bucket_new r now]> (match slot (entry_at r i) with Some (k', _) => delete k' (buckets r) | None => buckets r end).
Proof.
  intros Hw Hi Hk Hnow Hc Hn. pose proof (entry_new_slot r k now Hk) as He. set (e := entry_new r k (blen k) now) in *. cbv zeta.
  pose proof (entry_lookup _ _ Hw Hi) as Hl. pose proof (wf_distinct _ Hw) as Hd.
  assert (Ht : distinct slot (<[Z.to_nat i := e]> (rl_e r)) /\ table slot (<[Z.to_nat i := e]> (rl_e r)) =
    <[k := bucket_new r now]> (match slot (entry_at r i) with Some (k', _) => delete k' (buckets r) | None => buckets r end)).
  { destruct (slot (entry_at r i)) as [[k' b']|] eqn:Hs; [|by eapply table_fill].
    destruct (table_clear slot _ _ _ entry_zero _ _ Hd Hl Hs eq_refl) as [Hd0 Ht0].
    rewrite <-(list_insert_insert_eq (rl_e r) (Z.to_nat i) e entry_zero). unfold buckets. rewrite <-Ht0.
    apply (table_fill slot _ _ entry_zero); [done| |done|done|by rewrite Ht0, lookup_delete_None; right].
    apply list_lookup_insert_eq. by eapply lookup_lt_Some. }
  destruct Ht as [Hd' Ht]. split_and!; [|by rewrite entry_at_set, Z.eqb_refl by done|done].
  destruct (slot_bucket _ _ _ He) as (Hb & Hu & Hke). apply set_entry_wf; [done|done| |done|by rewrite <-Hke|done].
  pose proof (wf_params _ Hw) as Hp. pose proof (cap_milli_eq _ Hp). destruct Hp as (_ & ? & _ & ? & _).
  split_and!.
  - cbn. rewrite poke_0, length_app, length_drop. change (length (zeros 16)) with 16%nat. destruct Hk; lia.
  - cbn. by destruct Hk; [right; left|right; right].
  - intros _. unfold bucket_ok. cbn. lia.
Qed.

(** ** The abstract gate *)

Definition bucket_refill r (b : bucket) (now : Z) : bucket :=
  let '(t, l) := refill (bk_tokens b) (bk_last b) now (rl_per_min r) 60 (rl_burst r * 1000) in Bucket t l (bk_conns b).
Definition bucket_idle r (b : bucket) (now : Z) : Prop :=
  bk_conns b = 0 /\ bk_tokens (bucket_refill r b now) = rl_burst r * 1000.
Definition global_refill r (now : Z) : Z * Z :=
  refill (rl_global_tokens_milli r) (rl_global_last_ms r) now (rl_global_per_sec r) 1 (rl_global_per_sec r * 1000).
Definition rl_global r : Z * Z := (rl_global_tokens_milli r, rl_global_last_ms r).

(** The decision for a tracked address: verdict, its bucket and the global bucket afterwards. *)
Definition gate r (b : bucket) (now : Z) : ratelimit_verdict_t * bucket * (Z * Z) :=
  if rl_max_conns r <=? bk_conns b then (RATELIMIT_DENY_CONNS, b, rl_global r) else
  let b := bucket_refill r b now in
  if bk_tokens b <? 1000 then (RATELIMIT_DENY_ADDR, b, rl_global r) else
  let g := global_refill r now in
  if g.1 <? 1000 then (RATELIMIT_DENY_GLOBAL, b, g) else
  (RATELIMIT_ALLOW, Bucket (bk_tokens b - 1000) (bk_last b) (bk_conns b + 1), (g.1 - 1000, g.2)).

(** Making room: a tracked address stays, a new one takes a free slot or the
    slot of an address that is full and idle. *)
Inductive tracks r (now : Z) (m : gmap (list byte) bucket) (k : list byte) : bucket -> gmap (list byte) bucket -> Prop :=
| tracks_hit b : m !! k = Some b -> tracks r now m k b m
| tracks_free : m !! k = None -> tracks r now m k (bucket_new r now) (<[k := bucket_new r now]> m)
| tracks_reuse k' b' :
    m !! k = None -> m !! k' = Some b' -> bucket_idle r b' now ->
    tracks r now m k (bucket_new r now) (<[k := bucket_new r now]> (delete k' m)).

Lemma refill_addr_bucket r e now :
  params_ok r -> bucket_of_entry (refill_addr r e now) = bucket_refill r (bucket_of_entry e) now.
Proof.
  intros Hp. unfold bucket_refill, refill_addr. rewrite (cap_milli_eq _ Hp). cbn. by destruct (refill _ _ _ _ _ _).
Qed.

Lemma bucket_refill_ok r b now : params_ok r -> bucket_ok r b -> 0 <= now < 2 ^ 64 -> bucket_ok r (bucket_refill r b now).
Proof.
  intros Hp (Ht & Hl & Hc) Hn. unfold bucket_refill.
  pose proof (refill_bounds (bk_tokens b) (bk_last b) now (rl_per_min r) 60 (rl_burst r * 1000) Ht Hl Hn ltac:(apply Hp) ltac:(lia)).
  destruct (refill _ _ _ _ _ _) as [t l]. unfold bucket_ok. cbn. lia.
Qed.

Lemma global_refill_ok r now :
  params_ok r -> 0 <= now < 2 ^ 64 ->
  0 <= (global_refill r now).1 <= rl_global_per_sec r * 1000 /\ 0 <= (global_refill r now).2 < 2 ^ 64.
Proof.
  intros (_ & _ & Hg & _ & Ht & Hl) Hn. unfold global_refill.
  pose proof (refill_bounds _ _ now (rl_global_per_sec r) 1 _ Ht Hl Hn ltac:(lia) ltac:(lia)).
  destruct (refill _ _ _ _ _ _). cbn. lia.
Qed.

Lemma reclaimable_idle r e now k b :
  params_ok r -> bucket_ok r b -> 0 <= now < 2 ^ 64 -> slot e = Some (k, b) -> reclaimable r e now = true <-> bucket_idle r b now.
Proof.
  intros Hp Hb Hn Hs. destruct (slot_bucket _ _ _ Hs) as (-> & Hu & _). unfold reclaimable, bucket_idle.
  rewrite (proj2 (Z.eqb_neq _ _)) by done. rewrite (cap_milli_eq _ Hp), <-refill_addr_bucket by done.
  pose proof (bucket_refill_ok _ _ now Hp Hb Hn) as (Ht & _). rewrite <-refill_addr_bucket in Ht by done. cbn [bk_conns bk_tokens bucket_of_entry] in *.
  destruct (Z.eqb_spec (re_conns e) 0); cbn [negb]; rewrite ?Z.leb_le; [lia|]. split; [done|lia].
Qed.

(** [r'] is [r] with another table. *)
Definition with_entries r r' : Prop :=
  r' = Ratelimit (rl_hash_key r) (rl_per_min r) (rl_burst r) (rl_global_per_sec r) (rl_max_conns r) (rl_global_tokens_milli r)
    (rl_global_last_ms r) (rl_e r') (rl_admitted r) (rl_denied_conns r) (rl_denied_addr r) (rl_denied_global r)
    (rl_denied_table r) (rl_refunded r).

Lemma tracked_ok r k b : rl_wf r -> buckets r !! k = Some b -> bucket_ok r b.
Proof.
  intros Hw (i & e & Hi & Hs)%table_lookup; [|apply Hw]. pose proof (lookup_lt_Some _ _ _ Hi). pose proof (wf_len _ Hw).
  destruct (slot_bucket _ _ _ Hs) as (-> & Hu & _). destruct (wf_entries _ Hw (Z.of_nat i)) as (_ & _ & Hb); [lia|].
  unfold entry_at in Hb. rewrite Nat2Z.id, Hi in Hb. by apply Hb.
Qed.

(** Every slot is on the probe path of every key. *)
Lemma probe_all b i : 0 <= i < RATELIMIT_ENTRIES -> exists n, 0 <= n < RATELIMIT_ENTRIES /\ i = (b + n) mod RATELIMIT_ENTRIES.
Proof.
  intros Hi. exists ((i - b) mod RATELIMIT_ENTRIES). split; [by apply Z.mod_pos_bound|].
  rewrite Zplus_mod_idemp_r. replace (b + (i - b)) with i by lia. by rewrite Z.mod_small.
Qed.

(** A table in which nothing can be reclaimed is full of addresses that are not idle. *)
Lemma stuck_table r now :
  rl_wf r -> 0 <= now < 2 ^ 64 -> (forall i, 0 <= i < RATELIMIT_ENTRIES -> reclaimable r (entry_at r i) now = false) ->
  size (buckets r) = Z.to_nat RATELIMIT_ENTRIES /\ forall k b, buckets r !! k = Some b -> ~ bucket_idle r b now.
Proof.
  intros Hw Hn Hf. pose proof (wf_len _ Hw) as Hl. split.
  - unfold buckets. rewrite table_size, bindings_full by (apply Hw || apply Forall_lookup_2; intros i e Hi;
      pose proof (lookup_lt_Some _ _ _ Hi); specialize (Hf (Z.of_nat i) ltac:(lia)); unfold entry_at in Hf;
      rewrite Nat2Z.id, Hi in Hf; cbn in Hf; unfold reclaimable in Hf; unfold slot; by destruct (_ =? 0)). lia.
  - intros k b Hb. pose proof (tracked_ok _ _ _ Hw Hb) as Hok. apply table_lookup in Hb as (i & e & Hi & Hs); [|apply Hw].
    pose proof (lookup_lt_Some _ _ _ Hi). specialize (Hf (Z.of_nat i) ltac:(lia)). unfold entry_at in Hf. rewrite Nat2Z.id, Hi in Hf.
    rewrite <-(reclaimable_idle r e now k b) by (done || apply Hw). cbn in Hf. by rewrite Hf.
Qed.

(** [find_or_add] implements [tracks]; it fails only when every slot is held by
    an address that still has something to say. *)
Lemma find_or_add_spec r k now :
  rl_wf r -> key_ok k -> 0 <= now < 2 ^ 64 ->
  match find_or_add r k (blen k) now with
  | (Some i, r') => exists b, 0 <= i < RATELIMIT_ENTRIES /\ rl_wf r' /\ slot (entry_at r' i) = Some (k, b) /\
      tracks r now (buckets r) k b (buckets r') /\ with_entries r r'
  | (None, r') => r' = r /\ buckets r !! k = None /\ size (buckets r) = Z.to_nat RATELIMIT_ENTRIES /\
      forall k' b', buckets r !! k' = Some b' -> ~ bucket_idle r b' now
  end.
Proof.
  intros Hw Hk Hn. unfold find_or_add. pose proof (find_idx_spec r k Hw Hk) as Hf.
  destruct (buckets r !! k) as [b|] eqn:Hb.
  { destruct Hf as (Hi & Hs & _). rewrite (proj2 (Z.eqb_neq _ _)) by lia. cbn [negb]. exists b. split_and!; [lia|lia|done|done| |by destruct r].
    by apply tracks_hit. }
  rewrite Hf, Z.eqb_refl. cbn [negb].
  pose proof (add_loop_spec r (bucket_of r k) now 0 (Z.to_nat RATELIMIT_ENTRIES)) as Ha.
  destruct (add_loop _ _ _ _ _) as [i|]; rewrite Z2Nat.id, Z.add_0_l in Ha by done.
  - destruct Ha as (m & Hm & Hi & Hr & Hbefore). pose proof (probe_range (bucket_of r k) m) as Hi'. rewrite <-Hi in Hi'.
    assert (chain r k i) as Hc.
    { exists m. split_and!; [lia|lia|done|]. intros m' Hm'. specialize (Hbefore m' Hm'). unfold reclaimable in Hbefore.
      by destruct (Z.eqb_spec (re_key_len (entry_at r ((bucket_of r k + m') mod RATELIMIT_ENTRIES))) 0). }
    destruct (take_wf r i k now Hw Hi' Hk Hn Hc Hb) as (Hw' & He & Ht). exists (bucket_new r now).
    split_and!; [lia|lia|done|by rewrite He, entry_new_slot| |done]. rewrite Ht.
    destruct (slot (entry_at r i)) as [[k' b']|] eqn:Hs; [|by apply tracks_free].
    assert (Hb' : buckets r !! k' = Some b') by (eapply table_find; [apply Hw|by apply entry_lookup|done]).
    eapply tracks_reuse; [done|done|]. eapply reclaimable_idle; [apply Hw|by eapply tracked_ok|done|done|done].
  - split; [done|]. split; [done|]. apply stuck_table; [done|done|]. intros i Hi. destruct (probe_all (bucket_of r k) i Hi) as (n & Hn' & ->).
    by apply Ha.
Qed.

Lemma set_global_wf r g :
  rl_wf r -> 0 <= g.1 <= rl_global_per_sec r * 1000 -> 0 <= g.2 < 2 ^ 64 -> rl_wf (set_global r g).
Proof.
  intros [Hl Hp He Hd Hc] H1 H2. split; [exact Hl| |exact He|exact Hd|exact Hc].
  destruct Hp as (? & ? & ? & ? & _). unfold params_ok. cbn. done.
Qed.

Lemma count_wf r v : rl_wf r -> rl_wf (count r v).
Proof. intros [Hl Hp He Hd Hc]. split; [exact Hl|exact Hp|exact He|exact Hd|exact Hc]. Qed.

(** The settings an operation never changes. *)
Definition rl_config r : list byte * Z * Z * Z * Z :=
  (rl_hash_key r, rl_per_min r, rl_burst r, rl_global_per_sec r, rl_max_conns r).

(** The commit point: both tokens are taken and the connection is counted. *)
Definition commit r (i : Z) : ratelimit_t :=
  let e := entry_at r i in
  let r := set_entry r i (set_bucket e (u64 (re_tokens_milli e - 1000), re_last_ms e)) in
  let r := set_global r (u64 (rl_global_tokens_milli r - 1000), rl_global_last_ms r) in
  set_entry r i (set_conns (entry_at r i) (u32 (re_conns (entry_at r i) + 1))).

Lemma commit_spec r i k b :
  rl_wf r -> 0 <= i < RATELIMIT_ENTRIES -> slot (entry_at r i) = Some (k, b) -> 1000 <= bk_tokens b ->
  bk_conns b < rl_max_conns r -> 1000 <= rl_global_tokens_milli r ->
  rl_wf (commit r i) /\ rl_config (commit r i) = rl_config r /\
  buckets (commit r i) = <[k := Bucket (bk_tokens b - 1000) (bk_last b) (bk_conns b + 1)]> (buckets r) /\
  rl_global (commit r i) = (rl_global_tokens_milli r - 1000, rl_global_last_ms r).
Proof.
  intros Hw Hi Hs Ht Hc Hg. destruct (slot_bucket _ _ _ Hs) as (Hb & _ & _). pose proof (wf_params _ Hw) as Hp.
  assert (bucket_ok r b) as (Hb1 & Hb2 & Hb3) by (eapply tracked_ok; [done|eapply table_find; [apply Hw|by apply entry_lookup|done]]).
  destruct Hp as (_ & Hp2 & Hp3 & Hp4 & Hp5 & Hp6). unfold RATELIMIT_BURST_MAX, RATELIMIT_GLOBAL_MAX, RATELIMIT_MAX_CONNS_MAX in *.
  unfold commit. cbv zeta. set (e := entry_at r i) in *. subst b. cbn [bk_tokens bk_last bk_conns bucket_of_entry] in *.
  rewrite !(u64_small (_ - 1000)) by (unfold UINT64_MAX; cbn; lia).
  set (e1 := set_bucket e (re_tokens_milli e - 1000, re_last_ms e)).
  destruct (update_wf r i e1 k _ Hw Hi Hs eq_refl eq_refl) as (Hw1 & Ht1 & Hs1 & Hat1); [unfold bucket_ok; cbn; lia|].
  set (r1 := set_entry r i e1) in *. cbn [rl_global_tokens_milli rl_global_last_ms set_entry] in *.
  set (r2 := set_global r1 _). assert (Hw2 : rl_wf r2) by (apply set_global_wf; [done|cbn; lia..]).
  change (entry_at r2 i) with (entry_at r1 i). rewrite Hat1. unfold u32. rewrite (Z.mod_small (re_conns e1 + 1)) by (cbn; lia).
  destruct (update_wf r2 i (set_conns e1 (re_conns e1 + 1)) k (bucket_of_entry e1) Hw2 Hi) as (Hw3 & Ht3 & _ & _).
  { change (entry_at r2 i) with (entry_at r1 i). by rewrite Hat1. }
  { change (entry_at r2 i) with (entry_at r1 i). by rewrite Hat1. }
  { change (entry_at r2 i) with (entry_at r1 i). by rewrite Hat1. }
  { unfold bucket_ok. cbn. lia. }
  split_and!; [done|done| |done]. rewrite Ht3. change (buckets r2) with (buckets r1). rewrite Ht1. by rewrite insert_insert_eq.
Qed.

(** The part of [ratelimit_admit] after the entry is found. *)
Definition admit_at r (i now : Z) : ratelimit_verdict_t * ratelimit_t :=
  if rl_max_conns r <=? re_conns (entry_at r i) then (RATELIMIT_DENY_CONNS, count r RATELIMIT_DENY_CONNS) else
  let r := set_entry r i (refill_addr r (entry_at r i) now) in
  if re_tokens_milli (entry_at r i) <? 1000 then (RATELIMIT_DENY_ADDR, count r RATELIMIT_DENY_ADDR) else
  let r := refill_global r now in
  if rl_global_tokens_milli r <? 1000 then (RATELIMIT_DENY_GLOBAL, count r RATELIMIT_DENY_GLOBAL) else
  (RATELIMIT_ALLOW, count (commit r i) RATELIMIT_ALLOW).

Lemma admit_unfold r addr now k :
  authd_addr_key addr = (blen k, k) -> key_ok k ->
  ratelimit_admit (Some r) addr now =
    match find_or_add r k (blen k) now with
    | (Some i, r') => let '(v, r'') := admit_at r' i now in (v, Some r'')
    | (None, r') => (RATELIMIT_DENY_TABLE, Some (count r' RATELIMIT_DENY_TABLE))
    end.
Proof.
  intros Ha Hk. unfold ratelimit_admit. rewrite Ha, (proj2 (Z.eqb_neq _ _)) by (destruct Hk; lia).
  destruct (find_or_add _ _ _ _) as [[i|] r']; [|done]. unfold admit_at.
  by repeat match goal with |- context [if ?c then _ else _] => destruct c end.
Qed.

Lemma refill_global_eq r now : params_ok r -> refill_global r now = set_global r (global_refill r now).
Proof.
  intros (_ & _ & Hg & _). unfold refill_global, global_refill. rewrite u64_small; [done|].
  unfold RATELIMIT_GLOBAL_MAX, UINT64_MAX in *. lia.
Qed.

Lemma admit_at_spec r i now k b :
  rl_wf r -> 0 <= i < RATELIMIT_ENTRIES -> 0 <= now < 2 ^ 64 -> slot (entry_at r i) = Some (k, b) ->
  exists v r' b' g, admit_at r i now = (v, r') /\ rl_wf r' /\ rl_config r' = rl_config r /\
    gate r b now = (v, b', g) /\ buckets r' = <[k := b']> (buckets r) /\ rl_global r' = g.
Proof.
  intros Hw Hi Hn Hs. destruct (slot_bucket _ _ _ Hs) as (Hb & _ & _). pose proof (wf_params _ Hw) as Hp.
  assert (Hbk : buckets r !! k = Some b) by (eapply table_find; [apply Hw|by apply entry_lookup|done]).
  unfold admit_at, gate. replace (re_conns (entry_at r i)) with (bk_conns b) by by subst.
  destruct (Z.leb_spec (rl_max_conns r) (bk_conns b)) as [|Hconns].
  { do 4 eexists. split_and!; [done|by apply count_wf|done|done| |done]. symmetry. by apply insert_id. }
  cbv zeta. set (e1 := refill_addr r (entry_at r i) now). pose proof (tracked_ok _ _ _ Hw Hbk) as Hok.
  pose proof (refill_addr_bucket r (entry_at r i) now Hp) as He1. fold e1 in He1. rewrite <-Hb in He1.
  pose proof (bucket_refill_ok r b now Hp Hok Hn) as Hok1. rewrite <-He1 in Hok1 |- *.
  destruct (update_wf r i e1 k b Hw Hi Hs eq_refl eq_refl Hok1) as (Hw1 & Ht1 & Hs1 & Hat1). rewrite Hat1.
  change (bk_tokens (bucket_of_entry e1)) with (re_tokens_milli e1). destruct (Z.ltb_spec (re_tokens_milli e1) 1000) as [|Htok].
  { do 4 eexists. split_and!; [done|by apply count_wf|done|done|exact Ht1|done]. }
  set (r1 := set_entry r i e1) in *. rewrite refill_global_eq by apply Hw1. change (global_refill r1 now) with (global_refill r now).
  destruct (global_refill_ok r now Hp Hn) as (Hg1 & Hg2). cbn [rl_global_tokens_milli set_global].
  assert (Hw2 : rl_wf (set_global r1 (global_refill r now))) by (by apply set_global_wf).
  destruct (Z.ltb_spec (global_refill r now).1 1000) as [|Hgt].
  { do 4 eexists. split_and!; [done|by apply count_wf|done|done|exact Ht1|]. by destruct (global_refill r now). }
  destruct (commit_spec (set_global r1 (global_refill r now)) i k (bucket_of_entry e1)) as (Hw3 & Hc3 & Ht3 & Hg3).
  { done. } { done. } { change (slot (entry_at r1 i) = Some (k, bucket_of_entry e1)). by rewrite Hat1. } { done. }
  { change (bk_conns (bucket_of_entry e1)) with (re_conns (entry_at r i)). by subst b. } { done. }
  do 4 eexists. split_and!; [done|by apply count_wf|exact Hc3|done| |exact Hg3].
  change (buckets (count ?x _)) with (buckets x). rewrite Ht3. change (buckets (set_global r1 _)) with (buckets r1).
  rewrite Ht1. by rewrite insert_insert_eq.
Qed.

(** Admission of an address that has a key. *)
Lemma admit_spec r addr now k :
  rl_wf r -> authd_addr_key addr = (blen k, k) -> key_ok k -> 0 <= now < 2 ^ 64 ->
  exists v r', ratelimit_admit (Some r) addr now = (v, Some r') /\ rl_wf r' /\ rl_config r' = rl_config r /\
    ((v = RATELIMIT_DENY_TABLE /\ buckets r' = buckets r /\ rl_global r' = rl_global r /\ buckets r !! k = None /\
      size (buckets r) = Z.to_nat RATELIMIT_ENTRIES /\ forall k' b', buckets r !! k' = Some b' -> ~ bucket_idle r b' now) \/
     exists b m b' g, tracks r now (buckets r) k b m /\ gate r b now = (v, b', g) /\ buckets r' = <[k := b']> m /\ rl_global r' = g).
Proof.
  intros Hw Ha Hk Hn. rewrite (admit_unfold _ _ _ k) by done. pose proof (find_or_add_spec r k now Hw Hk Hn) as Hf.
  destruct (find_or_add _ _ _ _) as [[i|] r1].
  - destruct Hf as (b & Hi & Hw1 & Hs & Htr & Hwith). destruct (admit_at_spec r1 i now k b Hw1 Hi Hn Hs) as (v & r' & b' & g & -> & Hw' & Hc & Hg & Ht & Hgl).
    exists v, r'. split_and!; [done|done|by rewrite Hc, Hwith|]. right. exists b, (buckets r1), b', g. split_and!; [done| |done|done].
    rewrite Hwith in Hg. exact Hg.
  - destruct Hf as (-> & Hf). do 2 eexists. split_and!; [done|by apply count_wf|done|]. left. done.
Qed.

(** ** Releases, refunds and the observers *)

Definition addr_key (addr : option authd_addr_t) : option (list byte) :=
  let '(n, k) := authd_addr_key addr in if n =? 0 then None else Some k.
Definition addr_ok (addr : option authd_addr_t) : Prop := match addr with Some a => blen (aa_addr a) = 16 | None => True end.

Lemma addr_key_spec addr :
  addr_ok addr ->
  match addr_key addr with Some k => key_ok k /\ authd_addr_key addr = (blen k, k) | None => (authd_addr_key addr).1 = 0 end.
Proof.
  unfold addr_key, addr_ok, authd_addr_key, key_ok. destruct addr as [a|]; [|done]. intros Ha.
  destruct (aa_family a =? 4); [|destruct (aa_family a =? 6); [|done]].
  all: cbn [Z.eqb Pos.eqb]; rewrite length_take; split; [lia|f_equal; lia].
Qed.

Definition release_bucket (b : bucket) : bucket :=
  Bucket (bk_tokens b) (bk_last b) (if 0 <? bk_conns b then bk_conns b - 1 else 0).
Definition refund_bucket r (b : bucket) (now : Z) : bucket :=
  let b := bucket_refill r b now in Bucket (Z.min (rl_burst r * 1000) (bk_tokens b + 1000)) (bk_last b) (bk_conns b).

Lemma release_spec r addr :
  rl_wf r -> addr_ok addr ->
  exists r', ratelimit_release (Some r) addr = Some r' /\ rl_wf r' /\ rl_config r' = rl_config r /\ rl_global r' = rl_global r /\
    buckets r' = match addr_key addr with Some k => alter release_bucket k (buckets r) | None => buckets r end.
Proof.
  intros Hw Ha. apply addr_key_spec in Ha. unfold ratelimit_release. destruct (addr_key addr) as [k|].
  2: { destruct (authd_addr_key addr) as [n k]. cbn in Ha. rewrite Ha. by exists r. }
  destruct Ha as [Hk ->]. rewrite (proj2 (Z.eqb_neq (blen k) 0)) by (destruct Hk; lia). pose proof (find_idx_spec r k Hw Hk) as Hf.
  destruct (buckets r !! k) as [b|] eqn:Hb.
  2: { rewrite Hf, Z.eqb_refl. cbn [negb andb]. exists r. split_and!; try done. by rewrite alter_alt, Hb. }
  destruct Hf as (Hi & Hs & Hbe). rewrite (proj2 (Z.eqb_neq _ RATELIMIT_ENTRIES)) by lia. cbn [negb andb].
  pose proof (tracked_ok _ _ _ Hw Hb) as (Hb1 & Hb2 & Hb3). pose proof (wf_params _ Hw) as (_ & _ & _ & Hp4 & _).
  unfold RATELIMIT_MAX_CONNS_MAX in *. set (i := find_idx r k (blen k)) in *.
  replace (re_conns (entry_at r i)) with (bk_conns b) by by subst b.
  rewrite alter_alt, Hb. unfold release_bucket. destruct (Z.ltb_spec 0 (bk_conns b)).
  - unfold u32. rewrite Z.mod_small by lia.
    destruct (update_wf r i (set_conns (entry_at r i) (bk_conns b - 1)) k b Hw Hi Hs eq_refl eq_refl) as (Hw' & Ht & _).
    { unfold bucket_ok. subst b. cbn in *. lia. }
    eexists. split_and!; [done|done|done|done|]. rewrite Ht. by subst b.
  - exists r. split_and!; try done. rewrite insert_id; [done|]. rewrite Hb. f_equal. destruct b; cbn in *. f_equal. lia.
Qed.

Lemma refund_spec r addr now :
  rl_wf r -> addr_ok addr -> 0 <= now < 2 ^ 64 ->
  exists r', ratelimit_refund (Some r) addr now = Some r' /\ rl_wf r' /\ rl_config r' = rl_config r /\ rl_global r' = rl_global r /\
    buckets r' = match addr_key addr with Some k => alter (fun b => refund_bucket r b now) k (buckets r) | None => buckets r end.
Proof.
  intros Hw Ha Hn. apply addr_key_spec in Ha. unfold ratelimit_refund. destruct (addr_key addr) as [k|].
  2: { destruct (authd_addr_key addr) as [n k]. cbn in Ha. rewrite Ha. by exists r. }
  destruct Ha as [Hk ->]. rewrite (proj2 (Z.eqb_neq (blen k) 0)) by (destruct Hk; lia). pose proof (find_idx_spec r k Hw Hk) as Hf.
  rewrite alter_alt. destruct (buckets r !! k) as [b|] eqn:Hb; [|rewrite Hf, Z.eqb_refl; by exists r].
  destruct Hf as (Hi & Hs & Hbe). rewrite (proj2 (Z.eqb_neq _ RATELIMIT_ENTRIES)) by lia. set (i := find_idx r k (blen k)) in *.
  pose proof (wf_params _ Hw) as Hp. pose proof (tracked_ok _ _ _ Hw Hb) as Hok.
  pose proof (bucket_refill_ok r b now Hp Hok Hn) as Hok1. pose proof (refill_addr_bucket r (entry_at r i) now Hp) as He.
  rewrite <-Hbe in He. unfold refund_bucket. rewrite <-He in Hok1 |- *. rewrite (cap_milli_eq _ Hp).
  set (e1 := refill_addr r (entry_at r i) now) in *. cbn [bk_tokens bk_last bk_conns bucket_of_entry].
  destruct Hok1 as (H1 & H2 & H3). destruct Hp as (_ & Hp2 & _). unfold RATELIMIT_BURST_MAX in *.
  change (0 <= re_tokens_milli e1 <= rl_burst r * 1000) in H1. rewrite (u64_small (re_tokens_milli e1 + 1000)) by (unfold UINT64_MAX; lia).
  replace (if _ <? _ then _ else _) with (Z.min (rl_burst r * 1000) (re_tokens_milli e1 + 1000))
    by (destruct (Z.ltb_spec (rl_burst r * 1000) (re_tokens_milli e1 + 1000)); lia).
  set (e2 := set_bucket e1 _). destruct (update_wf r i e2 k b Hw Hi Hs eq_refl eq_refl) as ([Hl Hp' He' Hd Hc] & Ht & _).
  { split; [|split; [exact H2|exact H3]].
    change (0 <= Z.min (rl_burst r * 1000) (re_tokens_milli e1 + 1000) <= rl_burst r * 1000). lia. }
  eexists. split_and!; [done| |done|done|exact Ht]. split; [exact Hl|exact Hp'|exact He'|exact Hd|exact Hc].
Qed.

(** The observers read the abstract table. *)
Lemma observers_spec r addr :
  rl_wf r -> addr_ok addr ->
  let b := k ← addr_key addr; buckets r !! k in
  ratelimit_tokens_milli (Some r) addr = from_option bk_tokens 0 b /\ ratelimit_conns (Some r) addr = from_option bk_conns 0 b.
Proof.
  intros Hw Ha. apply addr_key_spec in Ha. unfold ratelimit_tokens_milli, ratelimit_conns. destruct (addr_key addr) as [k|].
  2: { destruct (authd_addr_key addr) as [n k]. cbn in Ha. by rewrite Ha. }
  destruct Ha as [Hk ->]. rewrite (proj2 (Z.eqb_neq (blen k) 0)) by (destruct Hk; lia). pose proof (find_idx_spec r k Hw Hk) as Hf.
  cbn [mbind option_bind]. destruct (buckets r !! k) as [b|] eqn:Hb; [|by rewrite Hf, Z.eqb_refl].
  destruct Hf as (Hi & Hs & Hbe). rewrite (proj2 (Z.eqb_neq _ RATELIMIT_ENTRIES)) by lia. by subst b.
Qed.

Lemma admit_no_addr r addr now : (authd_addr_key addr).1 = 0 -> ratelimit_admit (Some r) addr now = (RATELIMIT_DENY_NO_ADDR, Some r).
Proof. intros Ha. unfold ratelimit_admit. destruct (authd_addr_key addr) as [n k]. cbn in Ha. by rewrite Ha. Qed.

(** C35: [ratelimit_admit] implements the abstract gate over a finite map from address keys to buckets: without an address it
    refuses and changes nothing; otherwise it makes room (forgetting at most one address, which is full and idle) and decides
    by the connection limit, the address bucket and the global bucket in that order, or refuses because all 1024 slots are held
    by addresses that are not idle. *)
Theorem ratelimit_admit_refines r addr now :
  rl_wf r -> addr_ok addr -> 0 <= now < 2 ^ 64 ->
  match addr_key addr with
  | None => ratelimit_admit (Some r) addr now = (RATELIMIT_DENY_NO_ADDR, Some r)
  | Some k => exists v r', ratelimit_admit (Some r) addr now = (v, Some r') /\ rl_wf r' /\ rl_config r' = rl_config r /\
    ((v = RATELIMIT_DENY_TABLE /\ buckets r' = buckets r /\ rl_global r' = rl_global r /\ buckets r !! k = None /\
      size (buckets r) = 1024%nat /\ forall k' b', buckets r !! k' = Some b' -> ~ bucket_idle r b' now) \/
     exists b m b' g, tracks r now (buckets r) k b m /\ gate r b now = (v, b', g) /\ buckets r' = <[k := b']> m /\ rl_global r' = g)
  end.
Proof.
  intros Hw Ha Hn. apply addr_key_spec in Ha. destruct (addr_key addr) as [k|]; [|by apply admit_no_addr].
  destruct Ha as [Hk Ha]. by apply admit_spec.
Qed.

End limiter.
