(* ===== verification/RateLimitRate.v ===== *)
(** * Runs of the rate limiter

    Any sequence of admissions, releases and refunds: the invariant and the
    connection counts, the two bounds on the admissions of a time window, the
    recovery of a drained address, and the two places where the comments of
    [ratelimit.c] and [ratelimit.h] promise more than the code does. *)

From S2P Require Import Prelude Extern Toy ProxyV2 RateLimit RateLimitProps.

(** ** Operations and traces *)

Inductive rl_op :=
| OpAdmit (addr : option authd_addr_t) (now_ms : Z)
| OpRelease (addr : option authd_addr_t)
| OpRefund (addr : option authd_addr_t) (now_ms : Z).

Definition op_addr (op : rl_op) : option authd_addr_t :=
  match op with OpAdmit a _ | OpRelease a | OpRefund a _ => a end.
Definition op_time (t : Z) (op : rl_op) : Z := match op with OpAdmit _ now | OpRefund _ now => now | OpRelease _ => t end.
Definition op_ok (op : rl_op) : Prop := addr_ok (op_addr op) /\ 0 <= op_time 0 op < 2 ^ 64.

(** The clock does not run backwards from [t] to [t1]. *)
Fixpoint timed (t : Z) (ops : list rl_op) (t1 : Z) : Prop :=
  match ops with [] => t <= t1 | op :: ops => t <= op_time t op /\ timed (op_time t op) ops t1 end.

Lemma timed_le t ops t1 : timed t ops t1 -> t <= t1.
Proof. revert t. induction ops as [|op ops IH]; intros t; cbn; [done|]. intros [? ?%IH]. lia. Qed.

(** Potential of a bucket: what it holds and what it is owed, in units of
    [1 / den] milli-token, never above its cap plus one unit of rounding. *)
Definition pot (num den cap tok last t : Z) : Z := Z.min (den * cap + den) (den * tok + num * (t - last)).

(** Rates whose accrual the integer arithmetic credits exactly. *)
Definition exact_rate (num den : Z) : Prop := (num | den) \/ den = 1.

Lemma refill_pot num den cap tok last now :
  0 <= tok <= cap -> 0 <= last <= now -> 1 <= num -> 1 <= den -> cap + now * num < 2 ^ 64 -> exact_rate num den ->
  let '(tok', last') := refill tok last now num den cap in
  last' <= now /\ den * tok' + num * (now - last') <= pot num den cap tok last now.
Proof.
  intros Ht Hl Hnum Hden Hov Hex. pose proof (refill_bounds tok last now num den cap Ht ltac:(nia) ltac:(nia) Hnum Hden) as Hb.
  rewrite refill_exact in Hb |- * by done. split; [lia|]. unfold pot. set (e := now - last) in *.
  pose proof (Z.div_mod (e * num) den ltac:(lia)) as Hdm. pose proof (Z.mod_pos_bound (e * num) den ltac:(lia)).
  set (add := e * num / den) in *.
  assert (Hx : num * (add * den / num) = add * den).
  { destruct Hex as [[q Hq]| ->].
    - rewrite Hq at 1. rewrite Z.mul_assoc, Z.div_mul by lia. rewrite Hq. lia.
    - unfold add. rewrite Z.div_1_r, Z.mul_1_r, Z.div_mul by lia. lia. }
  replace (num * (now - (last + add * den / num))) with (num * e - num * (add * den / num)) by (unfold e; lia).
  rewrite Hx. nia.
Qed.

(** A bucket that refills to the brim was owed at least its cap. *)
Lemma refill_full num den cap tok last now :
  0 <= tok <= cap -> 0 <= last <= now -> 1 <= num -> 1 <= den -> cap + now * num < 2 ^ 64 ->
  (refill tok last now num den cap).1 = cap -> den * cap <= pot num den cap tok last now.
Proof.
  intros Ht Hl Hnum Hden Hov. rewrite refill_exact by done. cbn. unfold pot. intros Hc.
  pose proof (Z.mul_div_le ((now - last) * num) den ltac:(lia)). nia.
Qed.

(** After [wait] a bucket holds at least [n] milli-tokens. *)
Lemma refill_recovers num den cap tok last now n :
  0 <= tok <= cap -> 0 <= last <= now -> 1 <= num -> 1 <= den -> cap + now * num < 2 ^ 64 ->
  n <= cap -> n * den <= (now - last) * num -> n <= (refill tok last now num den cap).1.
Proof.
  intros Ht Hl Hnum Hden Hov Hn Hw. rewrite refill_exact by done. cbn.
  pose proof (Z.div_le_lower_bound ((now - last) * num) den n ltac:(lia) ltac:(lia)). lia.
Qed.

Section runs.
Context `{E : Env}.
Implicit Types r : ratelimit_t.

(** One operation, with the verdict of an admission. *)
Definition rl_step r (op : rl_op) : option ratelimit_verdict_t * ratelimit_t :=
  match op with
  | OpAdmit a now => let '(v, r') := ratelimit_admit (Some r) a now in (Some v, default r r')
  | OpRelease a => (None, default r (ratelimit_release (Some r) a))
  | OpRefund a now => (None, default r (ratelimit_refund (Some r) a now))
  end.

Abbreviation trace := (list (rl_op * option ratelimit_verdict_t)).

Fixpoint rl_run r (ops : list rl_op) : trace * ratelimit_t :=
  match ops with
  | [] => ([], r)
  | op :: ops => let '(v, r) := rl_step r op in let '(tr, r) := rl_run r ops in ((op, v) :: tr, r)
  end.

(** ** What a trace says about one address *)

Definition op_key (op : rl_op) : option (list byte) := addr_key (op_addr op).
Definition is_allowed (k : list byte) (x : rl_op * option ratelimit_verdict_t) : bool :=
  bool_decide (x.2 = Some RATELIMIT_ALLOW) && bool_decide (op_key x.1 = Some k).
Definition is_refunded (k : list byte) (x : rl_op * option ratelimit_verdict_t) : bool :=
  match x.1 with OpRefund _ _ => bool_decide (op_key x.1 = Some k) | _ => false end.
Definition is_released (k : list byte) (x : rl_op * option ratelimit_verdict_t) : bool :=
  match x.1 with OpRelease _ => bool_decide (op_key x.1 = Some k) | _ => false end.
Definition tally (p : rl_op * option ratelimit_verdict_t -> bool) (tr : trace) : Z := blen (filter (fun x => p x = true) tr).

(** Connections of [k] that are open after the trace, [n] being open before. *)
Definition open_conns (k : list byte) (n : Z) (tr : trace) : Z :=
  fold_left (fun n x => if is_allowed k x then n + 1 else if is_released k x then Z.max 0 (n - 1) else n) tr n.

Lemma tally_cons p x tr : tally p (x :: tr) = (if p x then 1 else 0) + tally p tr.
Proof. unfold tally. rewrite filter_cons. destruct (p x); cbn; [rewrite decide_True by done; cbn; lia|by rewrite decide_False]. Qed.

(** ** One step on the abstract table *)

Definition conns_of r (k : list byte) : Z := from_option bk_conns 0 (buckets r !! k).

(** The effect of [op] on the buckets [m] (becoming [m']) and the global bucket. *)
Inductive step_effect r (op : rl_op) : option ratelimit_verdict_t -> gmap (list byte) bucket -> Z * Z -> Prop :=
| eff_none v : v <> Some RATELIMIT_ALLOW -> (op_key op = None \/ exists a now, op = OpAdmit a now) ->
    step_effect r op v (buckets r) (rl_global r)
| eff_admit a now k b m v b' g :
    op = OpAdmit a now -> addr_key a = Some k -> tracks r now (buckets r) k b m -> gate r b now = (v, b', g) ->
    step_effect r op (Some v) (<[k := b']> m) g
| eff_release a k : op = OpRelease a -> addr_key a = Some k -> step_effect r op None (alter release_bucket k (buckets r)) (rl_global r)
| eff_refund a now k : op = OpRefund a now -> addr_key a = Some k ->
    step_effect r op None (alter (fun b => refund_bucket r b now) k (buckets r)) (rl_global r).

Lemma step_spec r op :
  rl_wf r -> op_ok op ->
  let '(v, r') := rl_step r op in
  rl_wf r' /\ rl_config r' = rl_config r /\ step_effect r op v (buckets r') (rl_global r').
Proof.
  intros Hw [Ha Ht]. destruct op as [a now|a|a now]; cbn [rl_step op_addr op_time] in *.
  - pose proof (addr_key_spec a Ha) as Hk. destruct (addr_key a) as [k|] eqn:Hak.
    2: { rewrite admit_no_addr by done. split_and!; [done..|]. apply eff_none; [done|by left]. }
    destruct Hk as [Hk He]. destruct (admit_spec r a now k Hw He Hk Ht) as (v & r' & -> & Hw' & Hc & Hcase). cbn [default from_option id].
    split_and!; [done..|]. destruct Hcase as [(-> & -> & -> & _)|(b & m & b' & g & Htr & Hg & -> & ->)].
    + apply eff_none; [done|right; eauto].
    + by eapply eff_admit.
  - destruct (release_spec r a Hw Ha) as (r' & -> & Hw' & Hc & Hg & Hb). cbn [default from_option id]. rewrite Hg, Hb. split_and!; [done..|].
    destruct (addr_key a) as [k|] eqn:Hk; [by eapply eff_release|apply eff_none; [done|by left]].
  - destruct (refund_spec r a now Hw Ha Ht) as (r' & -> & Hw' & Hc & Hg & Hb). cbn [default from_option id]. rewrite Hg, Hb. split_and!; [done..|].
    destruct (addr_key a) as [k|] eqn:Hk; [by eapply eff_refund|apply eff_none; [done|by left]].
Qed.

Lemma run_wf r ops :
  rl_wf r -> Forall op_ok ops -> rl_wf (rl_run r ops).2 /\ rl_config (rl_run r ops).2 = rl_config r.
Proof.
  intros Hw Ho. revert r Hw. induction Ho as [|op ops Hop Ho IH]; intros r Hw; [done|]. cbn [rl_run].
  pose proof (step_spec r op Hw Hop) as Hs. destruct (rl_step r op) as [v r1]. destruct Hs as (Hw1 & Hc1 & _).
  specialize (IH r1 Hw1). destruct (rl_run r1 ops) as [tr r2]. cbn in *. destruct IH. split; [done|congruence].
Qed.

(** ** Connection counts *)

Lemma bucket_refill_conns r b now : bk_conns (bucket_refill r b now) = bk_conns b.
Proof. unfold bucket_refill. by destruct (refill _ _ _ _ _ _). Qed.

Lemma gate_conns r b now v b' g :
  gate r b now = (v, b', g) -> bk_conns b' = bk_conns b + (if bool_decide (v = RATELIMIT_ALLOW) then 1 else 0).
Proof.
  unfold gate. pose proof (bucket_refill_conns r b now) as Hc.
  destruct (_ <=? _); [|destruct (_ <? 1000); [|destruct (_ <? 1000)]]; intros [= <- <- _].
  all: first [rewrite bool_decide_eq_false_2 by done|rewrite bool_decide_eq_true_2 by done]; cbn; lia.
Qed.

Lemma tracks_conns r now m k b m' :
  tracks r now m k b m' ->
  bk_conns b = from_option bk_conns 0 (m !! k) /\
  forall k2, k2 <> k -> from_option bk_conns 0 (m' !! k2) = from_option bk_conns 0 (m !! k2).
Proof.
  destruct 1 as [b Hb|Hn|k' b' Hn Hb' [Hc _]].
  - by rewrite Hb.
  - rewrite Hn. split; [done|]. intros k2 Hk. by rewrite lookup_insert_ne.
  - rewrite Hn. split; [done|]. intros k2 Hk. rewrite lookup_insert_ne by done. destruct (decide (k2 = k')) as [->|Hne].
    + rewrite lookup_delete_eq, Hb'. cbn. by rewrite Hc.
    + by rewrite lookup_delete_ne.
Qed.

Lemma step_conns r op v m g k :
  rl_wf r -> step_effect r op v m g ->
  from_option bk_conns 0 (m !! k) =
    (if is_allowed k (op, v) then conns_of r k + 1 else if is_released k (op, v) then Z.max 0 (conns_of r k - 1) else conns_of r k).
Proof.
  intros Hw. unfold is_allowed, is_released, conns_of.
  destruct 1 as [v Hv Hop|a now k0 b m v b' g -> Hk0 Htr Hg|a k0 -> Hk0|a now k0 -> Hk0]; cbn [fst snd].
  - rewrite (bool_decide_eq_false_2 (v = _)) by done. cbn [andb]. destruct Hop as [Hn|(a & now & ->)]; [|done].
    destruct op; try done. by rewrite (bool_decide_eq_false_2 (_ = Some k)) by congruence.
  - unfold op_key. cbn [op_addr]. rewrite Hk0. destruct (tracks_conns _ _ _ _ _ _ Htr) as [Hc Hne]. apply gate_conns in Hg.
    destruct (decide (k = k0)) as [->|Hk].
    + rewrite lookup_insert_eq, (bool_decide_eq_true_2 (_ = Some k0)) by done. cbn. rewrite Hg, Hc.
      destruct (decide (v = RATELIMIT_ALLOW)) as [->|Hv]; [rewrite !bool_decide_eq_true_2 by done; cbn; lia|].
      rewrite !bool_decide_eq_false_2 by congruence. cbn. lia.
    + rewrite lookup_insert_ne, (bool_decide_eq_false_2 (_ = Some k)) by congruence. rewrite andb_false_r. by apply Hne.
  - unfold op_key. cbn [op_addr]. rewrite Hk0. cbn [andb bool_decide]. rewrite bool_decide_eq_false_2 by done. cbn [andb].
    destruct (decide (k = k0)) as [->|Hk].
    + rewrite lookup_alter_eq, bool_decide_eq_true_2 by done. destruct (buckets r !! k0) as [b|] eqn:Hb; [|done]. cbn.
      pose proof (tracked_ok _ _ _ Hw Hb) as (_ & _ & ?). destruct (Z.ltb_spec 0 (bk_conns b)); lia.
    + rewrite lookup_alter_ne, (bool_decide_eq_false_2 (_ = Some k)) by congruence. done.
  - rewrite bool_decide_eq_false_2 by done. cbn [andb]. destruct (decide (k = k0)) as [->|Hk].
    + rewrite lookup_alter_eq. destruct (buckets r !! k0); [|done]. cbn. by apply bucket_refill_conns.
    + by rewrite lookup_alter_ne.
Qed.

Lemma run_conns r ops k :
  rl_wf r -> Forall op_ok ops -> conns_of (rl_run r ops).2 k = open_conns k (conns_of r k) (rl_run r ops).1.
Proof.
  intros Hw Ho. revert r Hw. induction Ho as [|op ops Hop Ho IH]; intros r Hw; [done|]. cbn [rl_run].
  pose proof (step_spec r op Hw Hop) as Hs. destruct (rl_step r op) as [v r1]. destruct Hs as (Hw1 & _ & He).
  apply (step_conns _ _ _ _ _ k Hw) in He. specialize (IH r1 Hw1). destruct (rl_run r1 ops) as [tr r2]. cbn [fst snd] in *.
  rewrite IH. unfold open_conns. cbn [fold_left]. f_equal. exact He.
Qed.

(** ** Potentials *)

(** Times the rate theorems are about: below 2^48 ms no product overflows. *)
Definition TIME_MAX : Z := 2 ^ 48.

Definition bpot r (b : bucket) (t : Z) : Z := pot (rl_per_min r) 60 (rl_burst r * 1000) (bk_tokens b) (bk_last b) t.
Definition mpot r (m : gmap (list byte) bucket) (k : list byte) (t : Z) : Z :=
  from_option (fun b => bpot r b t) (60 * (rl_burst r * 1000)) (m !! k).
Definition gpot r (g : Z * Z) (t : Z) : Z := pot (rl_global_per_sec r) 1 (rl_global_per_sec r * 1000) g.1 g.2 t.
Definition timely r (t : Z) : Prop :=
  (forall k b, buckets r !! k = Some b -> bk_last b <= t) /\ rl_global_last_ms r <= t.

Lemma fits_64 r now : params_ok r -> 0 <= now < TIME_MAX ->
  rl_burst r * 1000 + now * rl_per_min r < 2 ^ 64 /\ rl_global_per_sec r * 1000 + now * rl_global_per_sec r < 2 ^ 64.
Proof.
  unfold params_ok, TIME_MAX, RATELIMIT_PER_MIN_MAX, RATELIMIT_BURST_MAX, RATELIMIT_GLOBAL_MAX. intros (? & ? & ? & _) ?. nia.
Qed.

Lemma bucket_refill_pot r b now :
  params_ok r -> exact_rate (rl_per_min r) 60 -> bucket_ok r b -> 0 <= now < TIME_MAX -> bk_last b <= now ->
  let b' := bucket_refill r b now in
  bk_last b' <= now /\ 60 * bk_tokens b' + rl_per_min r * (now - bk_last b') <= bpot r b now.
Proof.
  intros Hp Hex (Ht & Hl & _) Hn Hle. destruct (fits_64 r now Hp Hn) as [Hf _].
  pose proof (refill_pot (rl_per_min r) 60 (rl_burst r * 1000) (bk_tokens b) (bk_last b) now Ht ltac:(lia) ltac:(apply Hp) ltac:(lia) Hf Hex) as Hr.
  unfold bucket_refill. by destruct (refill _ _ _ _ _ _) as [t l].
Qed.

Lemma global_refill_pot r now :
  params_ok r -> 0 <= now < TIME_MAX -> rl_global_last_ms r <= now ->
  let g := global_refill r now in g.2 <= now /\ g.1 + rl_global_per_sec r * (now - g.2) <= gpot r (rl_global r) now.
Proof.
  intros Hp Hn Hle. destruct (fits_64 r now Hp Hn) as [_ Hf]. pose proof Hp as (_ & _ & Hg & _ & Ht & Hl).
  pose proof (refill_pot (rl_global_per_sec r) 1 (rl_global_per_sec r * 1000) (rl_global_tokens_milli r) (rl_global_last_ms r) now
    Ht ltac:(lia) ltac:(lia) ltac:(lia) Hf (or_intror eq_refl)) as Hr.
  unfold global_refill, gpot, rl_global. cbn [fst snd]. destruct (refill _ _ _ _ _ _) as [t l]. destruct Hr as [H1 H2]. cbn [fst snd].
  rewrite Z.mul_1_l in H2. done.
Qed.

Definition allow (v : ratelimit_verdict_t) : Z := if bool_decide (v = RATELIMIT_ALLOW) then 1 else 0.

Lemma gate_pot r b now v b' g :
  params_ok r -> exact_rate (rl_per_min r) 60 -> bucket_ok r b -> 0 <= now < TIME_MAX -> bk_last b <= now ->
  gate r b now = (v, b', g) -> bk_last b' <= now /\ bpot r b' now + 60000 * allow v <= bpot r b now.
Proof.
  intros Hp Hex Hb Hn Hl. unfold gate, allow. destruct (bucket_refill_pot r b now Hp Hex Hb Hn Hl) as [Hl1 Hp1].
  assert (Hmin : forall b0, bpot r b0 now <= 60 * bk_tokens b0 + rl_per_min r * (now - bk_last b0)) by (intros; apply Z.le_min_r).
  destruct (_ <=? _); [|destruct (_ <? 1000); [|destruct (_ <? 1000)]]; intros [= <- <- _].
  all: first [rewrite bool_decide_eq_false_2 by done|rewrite bool_decide_eq_true_2 by done].
  1: lia. 1-2: split; [done|]; pose proof (Hmin (bucket_refill r b now)); lia.
  split; [done|]. pose proof (Hmin (Bucket (bk_tokens (bucket_refill r b now) - 1000) (bk_last (bucket_refill r b now))
    (bk_conns (bucket_refill r b now) + 1))). cbn [bk_tokens bk_last] in *. lia.
Qed.

Lemma gate_gpot r b now v b' g :
  params_ok r -> 0 <= now < TIME_MAX -> rl_global_last_ms r <= now -> gate r b now = (v, b', g) ->
  g.2 <= now /\ gpot r g now + 1000 * allow v <= gpot r (rl_global r) now.
Proof.
  intros Hp Hn Hl. unfold gate, allow. destruct (global_refill_pot r now Hp Hn Hl) as [Hl1 Hp1].
  assert (Hmin : forall g0, gpot r g0 now <= g0.1 + rl_global_per_sec r * (now - g0.2)).
  { intros g0. unfold gpot, pot. lia. }
  destruct (_ <=? _); [|destruct (_ <? 1000); [|destruct (_ <? 1000)]]; intros [= <- _ <-].
  all: first [rewrite bool_decide_eq_false_2 by done|rewrite bool_decide_eq_true_2 by done].
  1-2: cbn [snd rl_global]; lia. 1: split; [done|]; pose proof (Hmin (global_refill r now)); lia.
  split; [done|]. pose proof (Hmin ((global_refill r now).1 - 1000, (global_refill r now).2)). cbn [fst snd] in *. lia.
Qed.

(** Making room never adds potential: a new bucket holds what an unknown address
    is worth, and only a bucket that is worth as much is forgotten. *)
Lemma tracks_pot r now k b m' :
  rl_wf r -> 0 <= now < TIME_MAX -> timely r now -> tracks r now (buckets r) k b m' ->
  bucket_ok r b /\ bk_last b <= now /\ bpot r b now <= mpot r (buckets r) k now /\
  (forall k2 b2, m' !! k2 = Some b2 -> bk_last b2 <= now) /\ forall k2, k2 <> k -> mpot r m' k2 now <= mpot r (buckets r) k2 now.
Proof.
  intros Hw Hn [Htl _] Htr. pose proof (wf_params _ Hw) as Hp. pose proof (cap_milli_eq _ Hp) as Hcap.
  assert (Hnew : bucket_ok r (bucket_new r now) /\ bpot r (bucket_new r now) now <= 60 * (rl_burst r * 1000)).
  { unfold bucket_ok, bpot, pot. cbn. rewrite Hcap, Z.sub_diag. destruct Hp as (_ & ? & _ & ? & _). unfold TIME_MAX in Hn. lia. }
  unfold mpot. destruct Htr as [b Hb|Hk|k' b' Hk Hb' [_ Hfull]].
  - rewrite Hb. cbn. split_and!; [by eapply tracked_ok|by eapply Htl|done|done|done].
  - rewrite Hk. cbn [from_option]. split_and!; [apply Hnew|done|apply Hnew| |].
    + intros k2 b2. rewrite lookup_insert_Some. intros [[_ <-]|[_ ?]]; [done|by eapply Htl].
    + intros k2 Hne. by rewrite lookup_insert_ne.
  - rewrite Hk. cbn [from_option]. split_and!; [apply Hnew|done|apply Hnew| |].
    + intros k2 b2. rewrite lookup_insert_Some. intros [[_ <-]|[_ (_ & ?)%lookup_delete_Some]]; [done|by eapply Htl].
    + intros k2 Hne. rewrite lookup_insert_ne by done. destruct (decide (k2 = k')) as [->|]; [|by rewrite lookup_delete_ne].
      rewrite lookup_delete_eq, Hb'. cbn. destruct (fits_64 r now Hp Hn) as [Hf _]. pose proof (tracked_ok _ _ _ Hw Hb') as (? & ? & _).
      specialize (Htl _ _ Hb'). apply refill_full; [lia|lia|apply Hp|lia|done|]. unfold bucket_refill in Hfull. by destruct (refill _ _ _ _ _ _).
Qed.

(** What one operation spends of the potential of [k], in 1/60 milli-tokens. *)
Definition spent (k : list byte) (x : rl_op * option ratelimit_verdict_t) : Z :=
  (if is_allowed k x then 60000 else 0) - (if is_refunded k x then 60000 else 0).

Lemma bucket_refill_last r b now :
  params_ok r -> bucket_ok r b -> 0 <= now < TIME_MAX -> bk_last b <= now -> bk_last (bucket_refill r b now) <= now.
Proof.
  intros Hp (Ht & Hl & _) Hn Hle. unfold TIME_MAX in Hn. unfold bucket_refill.
  pose proof (refill_bounds (bk_tokens b) (bk_last b) now (rl_per_min r) 60 (rl_burst r * 1000) Ht Hl ltac:(lia) ltac:(apply Hp) ltac:(lia)).
  destruct (refill _ _ _ _ _ _) as [t l]. cbn. lia.
Qed.

Lemma alter_last r f k t :
  timely r t -> (forall b, buckets r !! k = Some b -> bk_last (f b) <= t) ->
  forall k2 b2, alter f k (buckets r) !! k2 = Some b2 -> bk_last b2 <= t.
Proof.
  intros [Ht _] Hf k2 b2. rewrite lookup_alter_Some. intros [(<- & b & Hb & ->)|[_ Hb]]; [by apply Hf|by eapply Ht].
Qed.

(** No operation moves a clock past the present. *)
Lemma step_last r op v m g t :
  rl_wf r -> 0 <= op_time t op < TIME_MAX -> timely r (op_time t op) -> step_effect r op v m g ->
  forall k b, m !! k = Some b -> bk_last b <= op_time t op.
Proof.
  intros Hw Hn Ht. pose proof (wf_params _ Hw) as Hp.
  destruct 1 as [v Hv Hop|a now k0 b m v b' g -> Hk0 Htr Hg|a k0 -> Hk0|a now k0 -> Hk0]; cbn [fst snd op_time] in *; [apply Ht|..].
  - destruct (tracks_pot _ _ _ _ _ Hw Hn Ht Htr) as (Hb & Hl & _ & Hlast & _).
    assert (bk_last b' <= now).
    { pose proof (bucket_refill_last r b now Hp Hb Hn Hl). unfold gate in Hg.
      destruct (_ <=? _); [|destruct (_ <? 1000); [|destruct (_ <? 1000)]]; injection Hg as _ <- _; done. }
    intros k2 b2. rewrite lookup_insert_Some. intros [[_ <-]|[_ ?]]; [done|by eapply Hlast].
  - apply alter_last; [done|]. intros b Hb. by eapply Ht in Hb.
  - apply alter_last; [done|]. intros b Hb. apply bucket_refill_last; [done|by eapply tracked_ok|done|by eapply Ht].
Qed.

Lemma step_pot r op v m g k t :
  rl_wf r -> exact_rate (rl_per_min r) 60 -> 0 <= op_time t op < TIME_MAX -> timely r (op_time t op) -> step_effect r op v m g ->
  mpot r m k (op_time t op) + spent k (op, v) <= mpot r (buckets r) k (op_time t op).
Proof.
  intros Hw Hex Hn Ht. pose proof (wf_params _ Hw) as Hp. unfold spent, is_allowed, is_refunded.
  destruct 1 as [v Hv Hop|a now k0 b m v b' g -> Hk0 Htr Hg|a k0 -> Hk0|a now k0 -> Hk0]; cbn [fst snd op_time] in *.
  - rewrite (bool_decide_eq_false_2 (v = _)) by done. cbn [andb]. by destruct op; [lia|lia|]; case_bool_decide; lia.
  - unfold op_key. cbn [op_addr]. rewrite Hk0. destruct (tracks_pot _ _ _ _ _ Hw Hn Ht Htr) as (Hb & Hl & Hpb & Hlast & Hne).
    destruct (gate_pot _ _ _ _ _ _ Hp Hex Hb Hn Hl Hg) as [_ Hgp]. unfold allow in Hgp.
    destruct (decide (k = k0)) as [->|Hk].
    + rewrite (bool_decide_eq_true_2 (Some k0 = _)) by done. rewrite andb_true_r. unfold mpot at 1. rewrite lookup_insert_eq. cbn [from_option].
      destruct (decide (v = RATELIMIT_ALLOW)) as [->|Hv]; [rewrite bool_decide_eq_true_2 in * by done; lia|].
      rewrite bool_decide_eq_false_2 in Hgp by done. rewrite bool_decide_eq_false_2 by congruence. lia.
    + rewrite (bool_decide_eq_false_2 (Some k0 = _)) by congruence. rewrite andb_false_r. unfold mpot at 1. rewrite lookup_insert_ne by done.
      specialize (Hne k Hk). unfold mpot at 1 in Hne. lia.
  - rewrite bool_decide_eq_false_2 by done. cbn [andb].
    unfold mpot. destruct (decide (k = k0)) as [->|]; [|rewrite lookup_alter_ne by done; lia].
    rewrite lookup_alter_eq. destruct (buckets r !! k0); cbn; unfold bpot; cbn; lia.
  - rewrite bool_decide_eq_false_2 by done. cbn [andb]. unfold op_key. cbn [op_addr]. rewrite Hk0.
    assert (Hr : forall b, buckets r !! k0 = Some b ->
      bpot r (refund_bucket r b now) now - 60000 <= bpot r b now).
    { intros b Hb. pose proof (tracked_ok _ _ _ Hw Hb) as Hok. destruct (bucket_refill_pot r b now Hp Hex Hok Hn ltac:(by eapply Ht)) as [Hl Hpr].
      unfold refund_bucket, bpot at 1, pot. cbn [bk_last bk_tokens]. lia. }
    unfold mpot. destruct (decide (k = k0)) as [->|].
    + rewrite lookup_alter_eq, bool_decide_eq_true_2 by done. destruct (buckets r !! k0) as [b|] eqn:Hb; cbn; [|lia]. specialize (Hr b eq_refl). lia.
    + rewrite lookup_alter_ne, bool_decide_eq_false_2 by congruence. lia.
Qed.

Definition any_allowed (x : rl_op * option ratelimit_verdict_t) : bool := bool_decide (x.2 = Some RATELIMIT_ALLOW).

Lemma step_gpot r op v m g t :
  params_ok r -> 0 <= op_time t op < TIME_MAX -> rl_global_last_ms r <= op_time t op -> step_effect r op v m g ->
  g.2 <= op_time t op /\
  gpot r g (op_time t op) + (if any_allowed (op, v) then 1000 else 0) <= gpot r (rl_global r) (op_time t op).
Proof.
  intros Hp Hn Hl. unfold any_allowed.
  destruct 1 as [v Hv Hop|a now k0 b m v b' g -> Hk0 Htr Hg|a k0 -> Hk0|a now k0 -> Hk0]; cbn [fst snd op_time] in *.
  2: { apply gate_gpot in Hg as [Hg1 Hg2]; [|done..]. unfold allow in Hg2. split; [done|].
    destruct (decide (v = RATELIMIT_ALLOW)) as [->|Hv]; [rewrite bool_decide_eq_true_2 in * by done; lia|].
    rewrite bool_decide_eq_false_2 in Hg2 by done. rewrite bool_decide_eq_false_2 by congruence. lia. }
  all: rewrite bool_decide_eq_false_2 by done; cbn [rl_global snd]; lia.
Qed.

Lemma mpot_later r m k t t' : params_ok r -> t <= t' -> mpot r m k t' <= mpot r m k t + rl_per_min r * (t' - t).
Proof. intros (? & _) ?. unfold mpot, bpot, pot. destruct (m !! k) as [b|]; cbn; nia. Qed.

Lemma gpot_later r g t t' : params_ok r -> t <= t' -> gpot r g t' <= gpot r g t + rl_global_per_sec r * (t' - t).
Proof. intros (_ & _ & ? & _) ?. unfold gpot, pot. nia. Qed.

Lemma timely_later r t t' : timely r t -> t <= t' -> timely r t'.
Proof. intros [H1 H2] Hle. split; [|lia]. intros k b Hb. specialize (H1 k b Hb). lia. Qed.

Lemma config_pots r r' :
  rl_config r' = rl_config r ->
  (forall m k t, mpot r' m k t = mpot r m k t) /\ (forall g t, gpot r' g t = gpot r g t) /\
  rl_per_min r' = rl_per_min r /\ rl_burst r' = rl_burst r /\ rl_global_per_sec r' = rl_global_per_sec r /\ rl_max_conns r' = rl_max_conns r.
Proof.
  unfold rl_config. rewrite !pair_equal_spec. intros ((((_ & Hpm) & Hb) & Hg) & Hmc). unfold mpot, gpot, bpot.
  rewrite Hpm, Hb, Hg, Hmc. done.
Qed.

(** Both potentials along a run. *)
Lemma run_pot r ops t t1 :
  rl_wf r -> Forall op_ok ops -> 0 <= t -> timed t ops t1 -> t1 < TIME_MAX -> timely r t ->
  (1000 * tally any_allowed (rl_run r ops).1 <= gpot r (rl_global r) t + rl_global_per_sec r * (t1 - t)) /\
  (exact_rate (rl_per_min r) 60 -> forall k,
    60000 * tally (is_allowed k) (rl_run r ops).1 - 60000 * tally (is_refunded k) (rl_run r ops).1 <=
    mpot r (buckets r) k t + rl_per_min r * (t1 - t)).
Proof.
  intros Hw Ho. revert r t Hw. induction Ho as [|op ops Hop Ho IH]; intros r t Hw H0 Ht H1 Htl; pose proof (wf_params _ Hw) as Hp.
  - cbn [timed rl_run fst] in *. change (tally ?p []) with 0. destruct Hp as (Hp1 & Hp2 & Hp3 & _ & Hp5 & _). destruct Htl as [Htl Hg].
    assert (0 <= rl_global_per_sec r * (t1 - t) /\ 0 <= rl_per_min r * (t1 - t)) by (split; apply Z.mul_nonneg_nonneg; lia). split.
    + unfold gpot, pot, rl_global. cbn [fst snd].
      pose proof (Z.mul_nonneg_nonneg (rl_global_per_sec r) (t - rl_global_last_ms r) ltac:(lia) ltac:(lia)). lia.
    + intros _ k. unfold mpot. destruct (buckets r !! k) as [b|] eqn:Hb; cbn [from_option]; [|lia].
      pose proof (tracked_ok _ _ _ Hw Hb) as (? & ? & _). specialize (Htl _ _ Hb). unfold bpot, pot.
      pose proof (Z.mul_nonneg_nonneg (rl_per_min r) (t - bk_last b) ltac:(lia) ltac:(lia)). lia.
  - cbn [timed] in Ht. destruct Ht as [Hle Ht]. cbn [rl_run]. set (t' := op_time t op) in *. pose proof (timed_le _ _ _ Ht).
    pose proof (step_spec r op Hw Hop) as Hs. destruct (rl_step r op) as [v r1]. destruct Hs as (Hw1 & Hc & He).
    pose proof (timely_later _ _ _ Htl Hle) as Htl'. destruct (config_pots _ _ Hc) as (Hmp & Hgp & Hpm & _ & Hgs & _).
    destruct (step_gpot r op v _ _ t Hp ltac:(lia) (proj2 Htl') He) as [Hgl Hgstep]. fold t' in Hgl, Hgstep.
    assert (Htl1 : timely r1 t') by (split; [exact (step_last r op v _ _ t Hw ltac:(lia) Htl' He)|exact Hgl]).
    specialize (IH r1 t' Hw1 ltac:(lia) Ht H1 Htl1) as [IHg IHa]. destruct (rl_run r1 ops) as [tr r2]. cbn [fst snd] in *.
    rewrite Hgp, Hgs in IHg. rewrite Hpm in IHa. rewrite !tally_cons. split.
    + pose proof (gpot_later r (rl_global r) t t' Hp Hle). destruct (any_allowed (op, v)); nia.
    + intros Hex k. specialize (IHa Hex k). rewrite Hmp in IHa. rewrite !tally_cons.
      pose proof (step_pot r op v _ _ k t Hw Hex ltac:(lia) Htl' He) as Hst. fold t' in Hst. unfold spent in Hst.
      pose proof (mpot_later r (buckets r) k t t' Hp Hle). destruct (is_allowed k (op, v)), (is_refunded k (op, v)); nia.
Qed.

(** ** Start-up *)

Lemma clamp_range v lo hi : lo <= hi -> lo <= clamp_u32 v lo hi <= hi.
Proof. intros. unfold clamp_u32. destruct (Z.ltb_spec v lo), (Z.ltb_spec hi v); lia. Qed.

Lemma init_wf any per_min burst gps max_conns now w r w' :
  0 <= now < 2 ^ 64 -> ratelimit_init (Some any) per_min burst gps max_conns now w = (Some r, w') ->
  rl_wf r /\ buckets r = ∅ /\ timely r now.
Proof.
  intros Hn. unfold ratelimit_init. rewrite M_bind_unfold, M_ret_unfold. intros [Hr _]%pair_equal_spec. apply Some_inj in Hr.
  pose proof (clamp_range per_min 1 RATELIMIT_PER_MIN_MAX ltac:(done)). pose proof (clamp_range burst 1 RATELIMIT_BURST_MAX ltac:(done)).
  pose proof (clamp_range gps 1 RATELIMIT_GLOBAL_MAX ltac:(done)) as Hg. pose proof (clamp_range max_conns 1 RATELIMIT_MAX_CONNS_MAX ltac:(done)).
  assert (Hz : rl_e r = replicate (Z.to_nat RATELIMIT_ENTRIES) entry_zero) by (by subst r).
  assert (He : forall i, entry_at r i = entry_zero).
  { intros i. unfold entry_at. rewrite Hz. destruct (replicate _ _ !! _) as [e|] eqn:Hi; [|done]. by apply lookup_replicate in Hi as [-> _]. }
  assert (Hb : forall n, bindings slot (replicate n entry_zero) = []) by (by induction n).
  split_and!; [split|unfold buckets, table; by rewrite Hz, Hb|].
  - rewrite Hz, length_replicate. done.
  - subst r. unfold params_ok. cbn [rl_per_min rl_burst rl_global_per_sec rl_max_conns rl_global_tokens_milli rl_global_last_ms].
    rewrite u64_small by (unfold UINT64_MAX, RATELIMIT_GLOBAL_MAX in *; lia). lia.
  - intros i _. rewrite He. split_and!; [done|by left|done].
  - unfold distinct. rewrite Hz, Hb. constructor.
  - intros i _ Hu. by rewrite He in Hu.
  - split; [|by subst r]. intros k b. unfold buckets, table. by rewrite Hz, Hb.
Qed.

(** ** The theorems *)

(** From start-up with any settings and through any sequence of admissions, releases and refunds, the limiter stays
    well formed, and for every address the reported connections are exactly those admitted and not yet released, never more
    than the limit, and the reported tokens never exceed the burst. *)
Theorem ratelimit_run_invariant any per_min burst gps max_conns now0 w r w' ops :
  0 <= now0 < 2 ^ 64 -> ratelimit_init (Some any) per_min burst gps max_conns now0 w = (Some r, w') -> Forall op_ok ops ->
  let '(tr, r') := rl_run r ops in
  rl_wf r' /\ rl_config r' = rl_config r /\
  forall addr k, addr_ok addr -> addr_key addr = Some k ->
    ratelimit_conns (Some r') addr = open_conns k 0 tr /\ 0 <= ratelimit_conns (Some r') addr <= rl_max_conns r /\
    0 <= ratelimit_tokens_milli (Some r') addr <= rl_burst r * 1000.
Proof.
  intros Hn Hi Ho. apply init_wf in Hi as (Hw & He & _); [|done]. pose proof (run_wf r ops Hw Ho) as [Hw' Hc].
  pose proof (fun k => run_conns r ops k Hw Ho) as Hconns. destruct (rl_run r ops) as [tr r']. cbn [fst snd] in *.
  split; [done|]. split; [done|]. intros addr k Ha Hk. destruct (observers_spec r' addr Hw' Ha) as [-> ->].
  rewrite Hk. cbn [mbind option_bind]. specialize (Hconns k). unfold conns_of in Hconns. rewrite Hconns, He, lookup_empty. cbn [from_option].
  destruct (config_pots _ _ Hc) as (_ & _ & _ & <- & _ & <-). rewrite He, lookup_empty in Hconns. cbn in Hconns. rewrite <-Hconns.
  split; [done|]. pose proof (wf_params _ Hw') as (_ & ? & _ & ? & _).
  destruct (buckets r' !! k) as [b|] eqn:Hb; cbn; [|lia]. by pose proof (tracked_ok _ _ _ Hw' Hb) as (? & _ & ?).
Qed.

(** C36: the per-address limit.  When the configured rate divides 60, the connections admitted from one address between [t]
    and [t1], less the refunds, are at most the burst plus the rate times the elapsed time (plus a thousandth of a token). *)
Theorem ratelimit_addr_rate r ops t t1 k :
  rl_wf r -> Forall op_ok ops -> 0 <= t -> timed t ops t1 -> t1 < TIME_MAX -> timely r t -> (rl_per_min r | 60) ->
  60000 * (tally (is_allowed k) (rl_run r ops).1 - tally (is_refunded k) (rl_run r ops).1) <=
  60000 * rl_burst r + rl_per_min r * (t1 - t) + 60.
Proof.
  intros Hw Ho H0 Ht H1 Htl Hd. destruct (run_pot r ops t t1 Hw Ho H0 Ht H1 Htl) as [_ Hr]. specialize (Hr (or_introl Hd) k).
  enough (mpot r (buckets r) k t <= 60000 * rl_burst r + 60) by lia. unfold mpot, bpot, pot. destruct (buckets r !! k); cbn [from_option]; lia.
Qed.

(** The global limit.  Whatever the addresses, the connections admitted between [t] and [t1] are at most one second's
    allowance plus the global rate times the elapsed time. *)
Theorem ratelimit_global_rate r ops t t1 :
  rl_wf r -> Forall op_ok ops -> 0 <= t -> timed t ops t1 -> t1 < TIME_MAX -> timely r t ->
  1000 * tally any_allowed (rl_run r ops).1 <= 1000 * rl_global_per_sec r + rl_global_per_sec r * (t1 - t) + 1.
Proof.
  intros Hw Ho H0 Ht H1 Htl. destruct (run_pot r ops t t1 Hw Ho H0 Ht H1 Htl) as [Hr _].
  enough (gpot r (rl_global r) t <= 1000 * rl_global_per_sec r + 1) by lia. unfold gpot, pot. lia.
Qed.

Lemma global_open r t now :
  params_ok r -> rl_global_last_ms r <= t -> 0 <= t -> t + 60000 <= now < TIME_MAX -> 1000 <= (global_refill r now).1.
Proof.
  intros Hp Hg H0 Hn. destruct (fits_64 r now Hp ltac:(lia)) as [_ Hf]. destruct Hp as (_ & _ & Hp3 & _ & Hp5 & Hp6).
  apply refill_recovers; nia.
Qed.

(** The gate with time enough for both buckets to hold a token. *)
Lemma gate_open r b t now :
  params_ok r -> bucket_ok r b -> bk_last b <= t -> rl_global_last_ms r <= t -> 0 <= t -> t + 60000 <= now < TIME_MAX ->
  (gate r b now).1.1 = if rl_max_conns r <=? bk_conns b then RATELIMIT_DENY_CONNS else RATELIMIT_ALLOW.
Proof.
  intros Hp (Hb1 & Hb2 & _) Hl Hg H0 Hn. destruct (fits_64 r now Hp ltac:(lia)) as [Hf1 _]. pose proof (global_open r t now Hp Hg H0 Hn).
  destruct Hp as (Hp1 & Hp2 & Hp3 & _ & Hp5 & Hp6). unfold gate. destruct (_ <=? _); [done|].
  assert (1000 <= bk_tokens (bucket_refill r b now)).
  { pose proof (refill_recovers (rl_per_min r) 60 (rl_burst r * 1000) (bk_tokens b) (bk_last b) now 1000 Hb1 ltac:(lia) ltac:(lia) ltac:(lia) Hf1 ltac:(lia) ltac:(nia)).
    unfold bucket_refill. by destruct (refill _ _ _ _ _ _). }
  rewrite (proj2 (Z.ltb_ge _ _)) by done.
  by rewrite (proj2 (Z.ltb_ge _ _)).
Qed.

(** An address new to the table starts full, so only the global bucket can refuse it. *)
Lemma gate_new r now :
  params_ok r -> (gate r (bucket_new r now) now).1 =
    (if (global_refill r now).1 <? 1000 then (RATELIMIT_DENY_GLOBAL, bucket_new r now)
     else (RATELIMIT_ALLOW, Bucket (rl_burst r * 1000 - 1000) now 1)).
Proof.
  intros Hp. pose proof (cap_milli_eq _ Hp) as Hcap. destruct Hp as (_ & ? & _ & ? & _). unfold gate.
  assert (Hr : bucket_refill r (bucket_new r now) now = bucket_new r now).
  { unfold bucket_refill, refill. cbn. by rewrite (proj2 (Z.leb_le now now)) by lia. }
  rewrite Hr. cbn [bk_conns bk_tokens bk_last bucket_new]. rewrite (proj2 (Z.leb_gt _ _)), Hcap, (proj2 (Z.ltb_ge _ _)) by lia.
  destruct (_ <? 1000); [by unfold bucket_new; rewrite Hcap|done].
Qed.

(** C37: a drained limiter recovers.  A minute after the last time any bucket was touched, an address that is tracked, or for
    which the table has room, is admitted unless it holds the maximum number of connections. *)
Theorem ratelimit_recovers r addr t now k :
  rl_wf r -> timely r t -> 0 <= t -> t + 60000 <= now < TIME_MAX -> addr_ok addr -> addr_key addr = Some k ->
  (is_Some (buckets r !! k) \/ (size (buckets r) < 1024)%nat) ->
  (ratelimit_admit (Some r) addr now).1 =
    if rl_max_conns r <=? ratelimit_conns (Some r) addr then RATELIMIT_DENY_CONNS else RATELIMIT_ALLOW.
Proof.
  intros Hw [Htl Htg] H0 Hn Ha Hk Hroom. destruct (observers_spec r addr Hw Ha) as [_ ->]. apply addr_key_spec in Ha. rewrite Hk in Ha |- *.
  destruct Ha as [Hko Hak]. cbn [mbind option_bind]. pose proof (wf_params _ Hw) as Hp. unfold TIME_MAX in Hn.
  destruct (admit_spec r addr now k Hw Hak Hko ltac:(lia)) as (v & r' & -> & _ & _ & Hcase). cbn [fst].
  destruct Hcase as [(_ & _ & _ & Hnone & Hsz & _)|(b & m & b' & g & Htr & Hg & _)].
  { destruct Hroom as [[? ?]|Hr]; [congruence|]. rewrite Hsz in Hr. vm_compute in Hr. lia. }
  replace v with (gate r b now).1.1 by by rewrite Hg.
  destruct Htr as [b Hb|Hno|k' b1 Hno _ _].
  { rewrite Hb. cbn [from_option]. apply (gate_open r b t); [done|by eapply tracked_ok|by eapply Htl|done|done|done]. }
  all: rewrite gate_new, Hno by done; pose proof (global_open r t now Hp Htg H0 Hn); destruct Hp as (_ & _ & _ & ? & _).
  all: rewrite (proj2 (Z.ltb_ge _ _)), (proj2 (Z.leb_gt _ _)) by (cbn; lia); done.
Qed.

(** ** Where the comments promise more *)

(** [ratelimit.h] promises that on every DENY nothing has changed; a connection refused for the global bucket leaves its
    address in the table. *)
Lemma denied_admit_records r addr now k :
  rl_wf r -> buckets r = ∅ -> addr_ok addr -> addr_key addr = Some k -> 0 <= now < 2 ^ 64 -> (global_refill r now).1 < 1000 ->
  exists r', ratelimit_admit (Some r) addr now = (RATELIMIT_DENY_GLOBAL, Some r') /\ buckets r' = {[ k := bucket_new r now ]}.
Proof.
  intros Hw He Ha Hk Hn Hg. apply addr_key_spec in Ha. rewrite Hk in Ha. destruct Ha as [Hko Hak].
  destruct (admit_spec r addr now k Hw Hak Hko Hn) as (v & r' & -> & _ & _ & Hcase). exists r'.
  rewrite He in Hcase. destruct Hcase as [(_ & _ & _ & _ & Hsz & _)|(b & m & b' & g & Htr & Hgate & Hb & _)]; [by vm_compute in Hsz|].
  pose proof (gate_new r now (wf_params _ Hw)) as Hnew. rewrite (proj2 (Z.ltb_lt _ _)) in Hnew by done.
  destruct Htr as [b Hno|_|k' b1 _ Hno _]; [by rewrite lookup_empty in Hno| |by rewrite lookup_empty in Hno].
  rewrite Hgate in Hnew. cbn in Hnew. injection Hnew as -> ->. split; [done|]. by rewrite Hb, insert_insert_eq, insert_empty.
Qed.

End runs.

(** One refill of a bucket given as its tokens and its clock. *)
Definition refill_again (now num den cap : Z) (tl : Z * Z) : Z * Z := refill tl.1 tl.2 now num den cap.

(** The comment above [refill] promises that repeated calls in the same millisecond do not distort the accrual.  At 61
    connections per minute they do: each call at the same time credits another milli-token, up to the cap. *)
Theorem refill_recredits (n : nat) (cap : Z) :
  Z.of_nat n <= cap <= RATELIMIT_BURST_MAX * 1000 -> Nat.iter n (refill_again 1 61 60 cap) (0, 0) = (Z.of_nat n, 0).
Proof.
  unfold RATELIMIT_BURST_MAX. intros Hn. induction n as [|n IH]; [done|]. rewrite Nat.iter_succ, IH by lia. unfold refill_again. cbn [fst snd].
  rewrite refill_exact by lia.
  change ((1 - 0) * 61 / 60) with 1. change (1 * 60 / 61) with 0. f_equal; lia.
Qed.

(** ** Witnesses *)

(** A limiter started with 5 connections a minute, a burst of 2, 50 a second overall and 8 connections per address. *)
Definition blank_rl : ratelimit_t := Ratelimit [] 0 0 0 0 0 0 [] 0 0 0 0 0 0.
Definition demo_init : option ratelimit_t * Z := ratelimit_init (E := toy_env) (Some blank_rl) 5 2 50 8 1000 7.
Definition demo_rl : ratelimit_t := default blank_rl demo_init.1.
Definition demo_addr : option authd_addr_t := Some (AuthdAddr 4 ([x7f; x00; x00; x01] ++ zeros 12)).
Definition demo_ops : list rl_op :=
  [OpAdmit demo_addr 1000; OpAdmit demo_addr 1001; OpAdmit demo_addr 1002; OpRelease demo_addr; OpRefund demo_addr 1500;
   OpAdmit None 1600; OpAdmit demo_addr 1600].

Lemma demo_start : demo_init = (Some demo_rl, 8).
Proof. reflexivity. Qed.

Lemma demo_wf : rl_wf (E := toy_env) demo_rl /\ buckets demo_rl = ∅ /\ timely demo_rl 1000.
Proof. apply (init_wf (E := toy_env) blank_rl 5 2 50 8 1000 7 demo_rl 8); [done|exact demo_start]. Qed.

Lemma demo_ops_ok : Forall op_ok demo_ops.
Proof. unfold demo_ops. repeat (apply Forall_cons; split; [done|]). apply Forall_nil. done. Qed.

Lemma ratelimit_run_invariant_witness :
  (rl_run (E := toy_env) demo_rl demo_ops).1.*2 = [Some RATELIMIT_ALLOW; Some RATELIMIT_ALLOW; Some RATELIMIT_DENY_ADDR; None; None;
    Some RATELIMIT_DENY_NO_ADDR; Some RATELIMIT_ALLOW] /\
  let '(tr, r') := rl_run (E := toy_env) demo_rl demo_ops in
  rl_wf (E := toy_env) r' /\ rl_config r' = rl_config demo_rl /\
  forall addr k, addr_ok addr -> addr_key addr = Some k ->
    ratelimit_conns (E := toy_env) (Some r') addr = open_conns k 0 tr /\ 0 <= ratelimit_conns (E := toy_env) (Some r') addr <= rl_max_conns demo_rl /\
    0 <= ratelimit_tokens_milli (E := toy_env) (Some r') addr <= rl_burst demo_rl * 1000.
Proof.
  split; [vm_compute; reflexivity|].
  apply (ratelimit_run_invariant (E := toy_env) blank_rl 5 2 50 8 1000 7 demo_rl 8 demo_ops); [done|exact demo_start|exact demo_ops_ok].
Defined.

Lemma ratelimit_admit_refines_witness :
  match addr_key demo_addr with
  | None => False
  | Some k => exists v r', ratelimit_admit (E := toy_env) (Some demo_rl) demo_addr 1000 = (v, Some r')
  end.
Proof.
  pose proof (ratelimit_admit_refines (E := toy_env) demo_rl demo_addr 1000 (proj1 demo_wf) eq_refl ltac:(done)) as H.
  change (addr_key demo_addr) with (Some [x7f; x00; x00; x01]) in *. destruct H as (v & r' & H & _). by exists v, r'.
Defined.

Lemma ratelimit_addr_rate_witness :
  60000 * (tally (is_allowed [x7f; x00; x00; x01]) (rl_run (E := toy_env) demo_rl demo_ops).1 -
           tally (is_refunded [x7f; x00; x00; x01]) (rl_run (E := toy_env) demo_rl demo_ops).1) <= 60000 * 2 + 5 * (1600 - 1000) + 60.
Proof.
  apply (ratelimit_addr_rate (E := toy_env) demo_rl demo_ops 1000 1600 [x7f; x00; x00; x01]);
    [apply demo_wf|exact demo_ops_ok|lia|cbn; lia|done|apply demo_wf|by exists 12].
Defined.

Lemma ratelimit_global_rate_witness :
  1000 * tally any_allowed (rl_run (E := toy_env) demo_rl demo_ops).1 <= 1000 * 50 + 50 * (1600 - 1000) + 1.
Proof.
  apply (ratelimit_global_rate (E := toy_env) demo_rl demo_ops 1000 1600);
    [apply demo_wf|exact demo_ops_ok|lia|cbn; lia|done|apply demo_wf].
Defined.

Lemma ratelimit_recovers_witness :
  (ratelimit_admit (E := toy_env) (Some demo_rl) demo_addr 61000).1 =
    if rl_max_conns demo_rl <=? ratelimit_conns (E := toy_env) (Some demo_rl) demo_addr then RATELIMIT_DENY_CONNS else RATELIMIT_ALLOW.
Proof.
  apply (ratelimit_recovers (E := toy_env) demo_rl demo_addr 1000 61000 [x7f; x00; x00; x01]);
    [apply demo_wf|apply demo_wf|lia|unfold TIME_MAX; lia|done|done|right; rewrite (proj1 (proj2 demo_wf)), map_size_empty; lia].
Defined.

Example denied_admit_records_demo :
  exists r', ratelimit_admit (E := toy_env) (Some (set_global demo_rl (0, 1000))) demo_addr 1000 = (RATELIMIT_DENY_GLOBAL, Some r') /\
    buckets r' = {[ [x7f; x00; x00; x01] := bucket_new demo_rl 1000 ]}.
Proof.
  apply (denied_admit_records (E := toy_env) (set_global demo_rl (0, 1000)) demo_addr 1000 [x7f; x00; x00; x01]);
    [apply set_global_wf; [apply demo_wf|split; vm_compute; discriminate|cbn; lia]|apply demo_wf|done|done|done|done].
Defined.

Lemma refill_recredits_witness : Nat.iter 5 (refill_again 1 61 60 2000) (0, 0) = (5, 0).
Proof. apply (refill_recredits 5 2000). unfold RATELIMIT_BURST_MAX. lia. Defined.
