(* ===== verification/AuthMsg.v ===== *)
(** * The daemon's application messages ([apps/authd/authmsg.c])

    The contents carried by session records: LOGIN_CODE, ROTATE, ROTATE_ACK,
    ERROR and BYE, with their strict decoders, and the digest that both rotation
    signatures cover. *)

From S2P Require Import Prelude Extern Toy Crypto.

Definition AUTHMSG_VERSION : Z := 1.
Definition AUTHMSG_OP_LOGIN_CODE : Z := 16.
Definition AUTHMSG_OP_ROTATE : Z := 17.
Definition AUTHMSG_OP_ROTATE_ACK : Z := 18.
Definition AUTHMSG_OP_ERROR : Z := 31.
Definition AUTHMSG_OP_BYE : Z := 32.
Definition AUTHMSG_ERR_MALFORMED : Z := 1.
Definition AUTHMSG_ERR_INTERNAL : Z := 5.
Definition AUTHMSG_CODE_BYTES : Z := 32.
Definition AUTHMSG_LOGIN_CODE_CONTENT_LEN : Z := 43.
Definition AUTHMSG_ERROR_CONTENT_LEN : Z := 3.
Definition AUTHMSG_BYE_CONTENT_LEN : Z := 1.
Definition AUTHMSG_FLAG_ROTATION_DUE : Z := 1.
Definition AUTHMSG_FLAG_ROTATE_DROP_TOKENS : Z := 1.
Definition AUTHMSG_LABEL_ROTATE_OLD : list byte := label "mldsa-authd/v1/rotate-old".
Definition AUTHMSG_LABEL_ROTATE_NEW : list byte := label "mldsa-authd/v1/rotate-new".
Definition AUTHMSG_HANDSHAKE_ID_BYTES : Z := 16.
Definition AUTHMSG_FP_BYTES : Z := 32.
Definition AUTHMSG_ROTATE_MAX_CONTENT : Z := 8642.
Definition AUTHMSG_ROTATE_ACK_CONTENT_LEN (handle_len : Z) : Z := 43 + handle_len.
Definition STORE_ID_MAX : Z := 64.

Inductive authmsg_status_t :=
  AUTHMSG_OK | AUTHMSG_ERR_ARG | AUTHMSG_ERR_EMPTY | AUTHMSG_ERR_BAD_LENGTH | AUTHMSG_ERR_BAD_VERSION
| AUTHMSG_ERR_BAD_FIELD | AUTHMSG_ERR_UNKNOWN_OP.

Record authmsg_login_code_t := LoginCode { lc_flags : byte; lc_code : list byte; lc_code_expires : Z }.

(** The pointers of a decoded ROTATE, as offsets into the decoded buffer. *)
Record authmsg_rotate_t := Rotate {
  rt_flags : byte; rt_handle : option Z; rt_handle_len : Z; rt_pk_new : option Z;
  rt_sig_old : option Z; rt_sig_old_len : Z; rt_sig_new : option Z; rt_sig_new_len : Z }.

Record authmsg_rotate_ack_t := RotateAck {
  ra_handle : option Z; ra_handle_len : Z; ra_fp_new : list byte; ra_rotated_at : Z }.

(** [memset] to zero. *)
Definition login_code_zero : authmsg_login_code_t := LoginCode x00 (zeros AUTHMSG_CODE_BYTES) 0.
Definition rotate_zero : authmsg_rotate_t := Rotate x00 None 0 None None 0 None 0.
Definition rotate_ack_zero : authmsg_rotate_ack_t := RotateAck None 0 (zeros AUTHMSG_FP_BYTES) 0.

Definition put_be64 (v : Z) : list byte := be_enc 8 v.
Definition get_be64 (p : list byte) : Z := fold_left (fun v b => u64 (Z.lor (Z.shiftl v 8) (bz b))) (ztake 8 p) 0.
Definition put_be16 (v : Z) : list byte := [u8 (Z.shiftr v 8); u8 (Z.land v 255)].
Definition get_be16 (p : list byte) : Z := u16 (Z.lor (Z.shiftl (bz (byte_at p 0)) 8) (bz (byte_at p 1))).

(** [(flags & (uint8_t)~mask) != 0] *)
Definition reserved_bits (flags : byte) (mask : Z) : bool := negb (Z.land (bz flags) (bz (u8 (Z.lnot mask))) =? 0).

Definition authmsg_peek_op (inp : option (list byte)) (op_out : option byte) : authmsg_status_t * option byte :=
  match inp, op_out with
  | Some b, Some _ => if blen b =? 0 then (AUTHMSG_ERR_EMPTY, op_out) else (AUTHMSG_OK, Some (byte_at b 0))
  | _, _ => (AUTHMSG_ERR_ARG, op_out)
  end.

(** Results of the encoders: status, output buffer and [*out_len]. *)
Definition authmsg_out : Type := authmsg_status_t * option (list byte) * option Z.

Definition authmsg_encode_login_code (out : option (list byte)) (out_cap : Z) (out_len : option Z)
    (m : option authmsg_login_code_t) : authmsg_out :=
  match out, out_len, m with
  | Some o, Some _, Some m =>
    if out_cap <? AUTHMSG_LOGIN_CODE_CONTENT_LEN then (AUTHMSG_ERR_ARG, out, out_len) else
    if reserved_bits (lc_flags m) AUTHMSG_FLAG_ROTATION_DUE then (AUTHMSG_ERR_BAD_FIELD, out, out_len) else
    let o := poke 0 [u8 AUTHMSG_OP_LOGIN_CODE] o in
    let o := poke 1 [u8 AUTHMSG_VERSION] o in
    let o := poke 2 [lc_flags m] o in
    let o := poke 3 (ztake AUTHMSG_CODE_BYTES (lc_code m)) o in
    let o := poke (3 + AUTHMSG_CODE_BYTES) (put_be64 (lc_code_expires m)) o in
    (AUTHMSG_OK, Some o, Some AUTHMSG_LOGIN_CODE_CONTENT_LEN)
  | _, _, _ => (AUTHMSG_ERR_ARG, out, out_len)
  end.

Definition authmsg_decode_login_code (inp : option (list byte)) (out : option authmsg_login_code_t)
    : authmsg_status_t * option authmsg_login_code_t :=
  match inp, out with
  | Some b, Some _ =>
    let z := Some login_code_zero in
    if blen b =? 0 then (AUTHMSG_ERR_EMPTY, z) else
    if negb (bz (byte_at b 0) =? AUTHMSG_OP_LOGIN_CODE) then (AUTHMSG_ERR_UNKNOWN_OP, z) else
    if negb (blen b =? AUTHMSG_LOGIN_CODE_CONTENT_LEN) then (AUTHMSG_ERR_BAD_LENGTH, z) else
    if negb (bz (byte_at b 1) =? AUTHMSG_VERSION) then (AUTHMSG_ERR_BAD_VERSION, z) else
    if reserved_bits (byte_at b 2) AUTHMSG_FLAG_ROTATION_DUE then (AUTHMSG_ERR_BAD_FIELD, z) else
    (AUTHMSG_OK, Some (LoginCode (byte_at b 2) (peek 3 AUTHMSG_CODE_BYTES b) (get_be64 (zdrop (3 + AUTHMSG_CODE_BYTES) b))))
  | _, _ => (AUTHMSG_ERR_ARG, out)
  end.

Definition authmsg_encode_error (out : option (list byte)) (out_cap : Z) (out_len : option Z) (code : byte) : authmsg_out :=
  match out, out_len with
  | Some o, Some _ =>
    if out_cap <? AUTHMSG_ERROR_CONTENT_LEN then (AUTHMSG_ERR_ARG, out, out_len) else
    if (bz code <? AUTHMSG_ERR_MALFORMED) || (AUTHMSG_ERR_INTERNAL <? bz code) then (AUTHMSG_ERR_BAD_FIELD, out, out_len) else
    let o := poke 0 [u8 AUTHMSG_OP_ERROR] o in
    let o := poke 1 [u8 AUTHMSG_VERSION] o in
    let o := poke 2 [code] o in
    (AUTHMSG_OK, Some o, Some AUTHMSG_ERROR_CONTENT_LEN)
  | _, _ => (AUTHMSG_ERR_ARG, out, out_len)
  end.

Definition authmsg_decode_error (inp : option (list byte)) (code_out : option byte) : authmsg_status_t * option byte :=
  match inp, code_out with
  | Some b, Some _ =>
    let z := Some x00 in
    if blen b =? 0 then (AUTHMSG_ERR_EMPTY, z) else
    if negb (bz (byte_at b 0) =? AUTHMSG_OP_ERROR) then (AUTHMSG_ERR_UNKNOWN_OP, z) else
    if negb (blen b =? AUTHMSG_ERROR_CONTENT_LEN) then (AUTHMSG_ERR_BAD_LENGTH, z) else
    if negb (bz (byte_at b 1) =? AUTHMSG_VERSION) then (AUTHMSG_ERR_BAD_VERSION, z) else
    if (bz (byte_at b 2) <? AUTHMSG_ERR_MALFORMED) || (AUTHMSG_ERR_INTERNAL <? bz (byte_at b 2))
    then (AUTHMSG_ERR_BAD_FIELD, z) else (AUTHMSG_OK, Some (byte_at b 2))
  | _, _ => (AUTHMSG_ERR_ARG, code_out)
  end.

Definition authmsg_encode_bye (out : option (list byte)) (out_cap : Z) (out_len : option Z) : authmsg_out :=
  match out, out_len with
  | Some o, Some _ =>
    if out_cap <? AUTHMSG_BYE_CONTENT_LEN then (AUTHMSG_ERR_ARG, out, out_len) else
    (AUTHMSG_OK, Some (poke 0 [u8 AUTHMSG_OP_BYE] o), Some AUTHMSG_BYE_CONTENT_LEN)
  | _, _ => (AUTHMSG_ERR_ARG, out, out_len)
  end.

Definition bad_len (n max : Z) : bool := (n =? 0) || (max <? n).

Definition authmsg_encode_rotate (out : option (list byte)) (out_cap : Z) (out_len : option Z) (flags : byte)
    (handle : option (list byte)) (handle_len : Z) (pk_new : option (list byte))
    (sig_old : option (list byte)) (sig_old_len : Z) (sig_new : option (list byte)) (sig_new_len : Z) : authmsg_out :=
  match out, out_len, handle, pk_new, sig_old, sig_new with
  | Some o, Some _, Some h, Some pk, Some so, Some sn =>
    let zero := Some 0 in
    if bad_len handle_len STORE_ID_MAX || bad_len sig_old_len MLDSA_SIGNATURE_MAX_BYTES || bad_len sig_new_len MLDSA_SIGNATURE_MAX_BYTES
    then (AUTHMSG_ERR_BAD_FIELD, out, zero) else
    if reserved_bits flags AUTHMSG_FLAG_ROTATE_DROP_TOKENS then (AUTHMSG_ERR_BAD_FIELD, out, zero) else
    let need := 1 + 1 + 1 + 1 + handle_len + MLDSA_PUBLIC_KEY_BYTES + 2 + sig_old_len + 2 + sig_new_len in
    if out_cap <? need then (AUTHMSG_ERR_ARG, out, zero) else
    let st := put [u8 AUTHMSG_OP_ROTATE] (o, 0) in
    let st := put [u8 AUTHMSG_VERSION] st in
    let st := put [flags] st in
    let st := put [u8 handle_len] st in
    let st := put (ztake handle_len h) st in
    let st := put (ztake MLDSA_PUBLIC_KEY_BYTES pk) st in
    let st := put (put_be16 (u16 sig_old_len)) st in
    let st := put (ztake sig_old_len so) st in
    let st := put (put_be16 (u16 sig_new_len)) st in
    let st := put (ztake sig_new_len sn) st in
    (AUTHMSG_OK, Some st.1, Some st.2)
  | _, _, _, _, _, _ => (AUTHMSG_ERR_ARG, out, out_len)
  end.

Definition authmsg_decode_rotate (inp : option (list byte)) (out : option authmsg_rotate_t)
    : authmsg_status_t * option authmsg_rotate_t :=
  match inp, out with
  | Some b, Some _ =>
    let z := Some rotate_zero in
    let len := blen b in
    if len =? 0 then (AUTHMSG_ERR_EMPTY, z) else
    if negb (bz (byte_at b 0) =? AUTHMSG_OP_ROTATE) then (AUTHMSG_ERR_UNKNOWN_OP, z) else
    if len <? 4 then (AUTHMSG_ERR_BAD_LENGTH, z) else
    if negb (bz (byte_at b 1) =? AUTHMSG_VERSION) then (AUTHMSG_ERR_BAD_VERSION, z) else
    let flags := byte_at b 2 in
    if reserved_bits flags AUTHMSG_FLAG_ROTATE_DROP_TOKENS then (AUTHMSG_ERR_BAD_FIELD, z) else
    let hl := bz (byte_at b 3) in
    if bad_len hl STORE_ID_MAX then (AUTHMSG_ERR_BAD_FIELD, z) else
    let o := 4 in
    if len <? o + hl + MLDSA_PUBLIC_KEY_BYTES + 2 then (AUTHMSG_ERR_BAD_LENGTH, z) else
    let handle := o in let o := o + hl in
    let pk_new := o in let o := o + MLDSA_PUBLIC_KEY_BYTES in
    let sol := get_be16 (zdrop o b) in let o := o + 2 in
    if bad_len sol MLDSA_SIGNATURE_MAX_BYTES then (AUTHMSG_ERR_BAD_FIELD, z) else
    if len <? o + sol + 2 then (AUTHMSG_ERR_BAD_LENGTH, z) else
    let sig_old := o in let o := o + sol in
    let snl := get_be16 (zdrop o b) in let o := o + 2 in
    if bad_len snl MLDSA_SIGNATURE_MAX_BYTES then (AUTHMSG_ERR_BAD_FIELD, z) else
    if len <? o + snl then (AUTHMSG_ERR_BAD_LENGTH, z) else
    let sig_new := o in let o := o + snl in
    if negb (o =? len) then (AUTHMSG_ERR_BAD_LENGTH, z) else
    (AUTHMSG_OK, Some (Rotate flags (Some handle) hl (Some pk_new) (Some sig_old) sol (Some sig_new) snl))
  | _, _ => (AUTHMSG_ERR_ARG, out)
  end.

Definition authmsg_encode_rotate_ack (out : option (list byte)) (out_cap : Z) (out_len : option Z)
    (handle : option (list byte)) (handle_len : Z) (fp_new : option (list byte)) (rotated_at : Z) : authmsg_out :=
  match out, out_len, handle, fp_new with
  | Some o, Some _, Some h, Some fp =>
    let zero := Some 0 in
    if bad_len handle_len STORE_ID_MAX then (AUTHMSG_ERR_BAD_FIELD, out, zero) else
    let need := AUTHMSG_ROTATE_ACK_CONTENT_LEN handle_len in
    if out_cap <? need then (AUTHMSG_ERR_ARG, out, zero) else
    let st := put [u8 AUTHMSG_OP_ROTATE_ACK] (o, 0) in
    let st := put [u8 AUTHMSG_VERSION] st in
    let st := put [u8 handle_len] st in
    let st := put (ztake handle_len h) st in
    let st := put (ztake AUTHMSG_FP_BYTES fp) st in
    let st := put (put_be64 rotated_at) st in
    (AUTHMSG_OK, Some st.1, Some st.2)
  | _, _, _, _ => (AUTHMSG_ERR_ARG, out, out_len)
  end.

Definition authmsg_decode_rotate_ack (inp : option (list byte)) (out : option authmsg_rotate_ack_t)
    : authmsg_status_t * option authmsg_rotate_ack_t :=
  match inp, out with
  | Some b, Some _ =>
    let z := Some rotate_ack_zero in
    let len := blen b in
    if len =? 0 then (AUTHMSG_ERR_EMPTY, z) else
    if negb (bz (byte_at b 0) =? AUTHMSG_OP_ROTATE_ACK) then (AUTHMSG_ERR_UNKNOWN_OP, z) else
    if len <? 3 then (AUTHMSG_ERR_BAD_LENGTH, z) else
    if negb (bz (byte_at b 1) =? AUTHMSG_VERSION) then (AUTHMSG_ERR_BAD_VERSION, z) else
    let hl := bz (byte_at b 2) in
    if bad_len hl STORE_ID_MAX then (AUTHMSG_ERR_BAD_FIELD, z) else
    if negb (len =? AUTHMSG_ROTATE_ACK_CONTENT_LEN hl) then (AUTHMSG_ERR_BAD_LENGTH, z) else
    (AUTHMSG_OK, Some (RotateAck (Some 3) hl (peek (3 + hl) AUTHMSG_FP_BYTES b) (get_be64 (zdrop (3 + hl + AUTHMSG_FP_BYTES) b))))
  | _, _ => (AUTHMSG_ERR_ARG, out)
  end.

Section digest.
Context `{E : Env}.

(** An update whose return code is ignored. *)
Definition sha_update (st : sha_state) (d : list byte) : sha_state := default st (crypto_hash_sha256_update st d).

(** [out] is the 32-byte digest buffer. *)
Definition authmsg_rotate_digest (out lbl handshake_id : option (list byte)) (flags : byte)
    (handle : option (list byte)) (handle_len : Z) (pk_old pk_new : option (list byte)) : authmsg_status_t * option (list byte) :=
  match out, lbl, handshake_id, handle, pk_old, pk_new with
  | Some o, Some lbl, Some hid, Some h, Some pko, Some pkn =>
    if bad_len handle_len STORE_ID_MAX then (AUTHMSG_ERR_ARG, out) else
    match crypto_hash_sha256_init with
    | None => (AUTHMSG_ERR_ARG, out)
    | Some st =>
      let st := sha_update st lbl in
      let st := sha_update st [x00] in
      let st := sha_update st (ztake AUTHMSG_HANDSHAKE_ID_BYTES hid) in
      let st := sha_update st [flags] in
      let st := sha_update st [u8 handle_len] in
      let st := sha_update st (ztake handle_len h) in
      let st := sha_update st (ztake MLDSA_PUBLIC_KEY_BYTES pko) in
      let st := sha_update st (ztake MLDSA_PUBLIC_KEY_BYTES pkn) in
      (AUTHMSG_OK, Some (default o (crypto_hash_sha256_final st)))
    end
  | _, _, _, _, _, _ => (AUTHMSG_ERR_ARG, out)
  end.
End digest.

(** ** The messages and their wire images *)

Inductive amsg :=
| MLogin (flags : byte) (code : list byte) (expires : Z)
| MError (code : byte)
| MBye
| MRotate (flags : byte) (handle pk_new sig_old sig_new : list byte)
| MAck (handle fp_new : list byte) (rotated_at : Z).

Definition amsg_wire (m : amsg) : list byte :=
  match m with
  | MLogin f c e => [u8 AUTHMSG_OP_LOGIN_CODE; u8 AUTHMSG_VERSION; f] ++ c ++ be_enc 8 e
  | MError c => [u8 AUTHMSG_OP_ERROR; u8 AUTHMSG_VERSION; c]
  | MBye => [u8 AUTHMSG_OP_BYE]
  | MRotate f h pk so sn =>
      [u8 AUTHMSG_OP_ROTATE; u8 AUTHMSG_VERSION; f; u8 (blen h)] ++ h ++ pk ++ be_enc 2 (blen so) ++ so ++ be_enc 2 (blen sn) ++ sn
  | MAck h fp t => [u8 AUTHMSG_OP_ROTATE_ACK; u8 AUTHMSG_VERSION; u8 (blen h)] ++ h ++ fp ++ be_enc 8 t
  end.

(** The sizes the C types fix. *)
Definition amsg_sized (m : amsg) : Prop :=
  match m with
  | MLogin _ c e => blen c = AUTHMSG_CODE_BYTES /\ 0 <= e <= UINT64_MAX
  | MError _ | MBye => True
  | MRotate _ _ pk _ _ => blen pk = MLDSA_PUBLIC_KEY_BYTES
  | MAck _ fp t => blen fp = AUTHMSG_FP_BYTES /\ 0 <= t <= UINT64_MAX
  end.

(** The fields the specification restricts. *)
Definition amsg_fields_ok (m : amsg) : Prop :=
  match m with
  | MLogin f _ _ => bz f <= 1
  | MError c => 1 <= bz c <= 5
  | MBye => True
  | MRotate f h _ so sn => bz f <= 1 /\ 1 <= blen h <= 64 /\ 1 <= blen so <= 3309 /\ 1 <= blen sn <= 3309
  | MAck h _ _ => 1 <= blen h <= 64
  end.

Definition amsg_ok (m : amsg) : Prop := amsg_sized m /\ amsg_fields_ok m.

(** The encoder of a message. *)
Definition encode (m : amsg) (out : option (list byte)) (cap : Z) (out_len : option Z) : authmsg_out :=
  match m with
  | MLogin f c e => authmsg_encode_login_code out cap out_len (Some (LoginCode f c e))
  | MError c => authmsg_encode_error out cap out_len c
  | MBye => authmsg_encode_bye out cap out_len
  | MRotate f h pk so sn =>
      authmsg_encode_rotate out cap out_len f (Some h) (blen h) (Some pk) (Some so) (blen so) (Some sn) (blen sn)
  | MAck h fp t => authmsg_encode_rotate_ack out cap out_len (Some h) (blen h) (Some fp) t
  end.

(** Following a pointer of [n] bytes into the buffer. *)
Definition follow (b : list byte) (p : option Z) (n : Z) : option (list byte) :=
  match p with Some o => if (0 <=? o) && (o + n <=? blen b) then Some (peek o n b) else None | None => None end.

Definition rotate_view (b : list byte) (r : authmsg_rotate_t) : option amsg :=
  h ← follow b (rt_handle r) (rt_handle_len r);
  pk ← follow b (rt_pk_new r) MLDSA_PUBLIC_KEY_BYTES;
  so ← follow b (rt_sig_old r) (rt_sig_old_len r);
  sn ← follow b (rt_sig_new r) (rt_sig_new_len r);
  Some (MRotate (rt_flags r) h pk so sn).

Definition ack_view (b : list byte) (r : authmsg_rotate_ack_t) : option amsg :=
  h ← follow b (ra_handle r) (ra_handle_len r); Some (MAck h (ra_fp_new r) (ra_rotated_at r)).

(** The decoder of [m]'s operation accepts [b] and yields [m].  BYE has no body and no decoder: its receiver looks at the
    operation byte. *)
Definition decodes (b : list byte) (m : amsg) : Prop :=
  match m with
  | MLogin f c e => authmsg_decode_login_code (Some b) (Some login_code_zero) = (AUTHMSG_OK, Some (LoginCode f c e))
  | MError c => authmsg_decode_error (Some b) (Some x00) = (AUTHMSG_OK, Some c)
  | MBye => authmsg_peek_op (Some b) (Some x00) = (AUTHMSG_OK, Some (u8 AUTHMSG_OP_BYE)) /\ blen b = AUTHMSG_BYE_CONTENT_LEN
  | MRotate _ _ _ _ _ => exists r, authmsg_decode_rotate (Some b) (Some rotate_zero) = (AUTHMSG_OK, Some r) /\ rotate_view b r = Some m
  | MAck _ _ _ => exists r, authmsg_decode_rotate_ack (Some b) (Some rotate_ack_zero) = (AUTHMSG_OK, Some r) /\ ack_view b r = Some m
  end.

(** ** Field lemmas *)

Lemma reserved_bits_spec f : reserved_bits f 1 = negb (bz f <=? 1).
Proof. by destruct f. Qed.

Lemma get_be64_spec p : get_be64 p = be_dec (ztake 8 p).
Proof. apply be64_loop. rewrite length_take. lia. Qed.

Lemma put_be16_spec v : 0 <= v < 65536 -> put_be16 (u16 v) = be_enc 2 v.
Proof.
  intros Hv. unfold put_be16, u16. rewrite Z.mod_small by done. rewrite <-be16_bytes. do 2 f_equal.
  change 255 with (Z.ones 8). rewrite Z.land_ones by lia. by rewrite u8_mod.
Qed.

Lemma get_be16_spec p : 2 <= blen p -> get_be16 p = be_dec (ztake 2 p).
Proof. apply be16_word. Qed.

Lemma bad_len_spec n max : bad_len n max = false <-> n <> 0 /\ n <= max.
Proof. unfold bad_len. rewrite orb_false_iff, Z.eqb_neq, Z.ltb_ge. done. Qed.

Lemma follow_in b o n : 0 <= o -> o + n <= blen b -> follow b (Some o) n = Some (peek o n b).
Proof. intros. unfold follow. by rewrite (proj2 (Z.leb_le _ _)), (proj2 (Z.leb_le _ _)). Qed.

Ltac aunfold :=
  unfold AUTHMSG_LOGIN_CODE_CONTENT_LEN, AUTHMSG_ERROR_CONTENT_LEN, AUTHMSG_BYE_CONTENT_LEN, AUTHMSG_CODE_BYTES,
    AUTHMSG_ROTATE_ACK_CONTENT_LEN, AUTHMSG_FP_BYTES, STORE_ID_MAX, AUTHMSG_ERR_MALFORMED, AUTHMSG_ERR_INTERNAL,
    MLDSA_SIGNATURE_MAX_BYTES, MLDSA_PUBLIC_KEY_BYTES, UINT64_MAX in *.

Lemma length_wire m : amsg_sized m -> blen (amsg_wire m) =
  match m with
  | MLogin _ _ _ => 43 | MError _ => 3 | MBye => 1
  | MRotate _ h _ so sn => 1960 + blen h + blen so + blen sn | MAck h _ _ => 43 + blen h
  end.
Proof.
  unfold amsg_sized, amsg_wire. aunfold. destruct m; intros Hs; rewrite ?length_app, ?length_be_enc; cbn [length]; try lia.
Qed.

(** ** Encoders *)

(** What an encoder returns: success with the wire image, or a refusal that leaves the buffer alone. *)
Definition enc_done (m : amsg) (o : list byte) (r : authmsg_out) : Prop :=
  r = (AUTHMSG_OK, Some (poke 0 (amsg_wire m) o), Some (blen (amsg_wire m))).
Definition enc_refused (o : list byte) (r : authmsg_out) : Prop := exists st n, st <> AUTHMSG_OK /\ r = (st, Some o, n).

Lemma wrote_poke pre o : wrote pre o = (poke 0 pre o, blen pre).
Proof. unfold wrote. by rewrite poke_0. Qed.

Ltac enc_refuse := right; split; [unfold amsg_fields_ok; lia|do 2 eexists; split; [|reflexivity]; done].

Lemma encode_cases m o cap n :
  amsg_sized m ->
  amsg_fields_ok m /\ blen (amsg_wire m) <= cap /\ enc_done m o (encode m (Some o) cap (Some n)) \/
  ~ (amsg_fields_ok m /\ blen (amsg_wire m) <= cap) /\ enc_refused o (encode m (Some o) cap (Some n)).
Proof.
  intros Hs. rewrite length_wire by done. unfold enc_done. rewrite length_wire by done.
  destruct m as [f c e|c| |f h pk so sn|h fp t]; cbn [encode]; unfold amsg_sized in Hs; aunfold.
  - unfold authmsg_encode_login_code. aunfold. cbn [lc_flags lc_code lc_code_expires]. unfold AUTHMSG_FLAG_ROTATION_DUE.
    rewrite reserved_bits_spec. destruct (Z.ltb_spec cap 43); [enc_refuse|]. destruct (Z.leb_spec (bz f) 1); [|enc_refuse].
    left. split; [done|]. split; [done|]. cbn [negb]. rewrite take_ge by lia. rewrite !poke_append by slice_side. done.
  - unfold authmsg_encode_error. aunfold. destruct (Z.ltb_spec cap 3); [enc_refuse|].
    destruct (Z.ltb_spec (bz c) 1); [enc_refuse|]. destruct (Z.ltb_spec 5 (bz c)); [enc_refuse|].
    left. split; [unfold amsg_fields_ok; lia|]. split; [done|]. cbn [orb]. rewrite !poke_append by slice_side. done.
  - unfold authmsg_encode_bye. aunfold. destruct (Z.ltb_spec cap 1); [enc_refuse|]. left. done.
  - unfold authmsg_encode_rotate. aunfold. unfold AUTHMSG_FLAG_ROTATE_DROP_TOKENS. rewrite reserved_bits_spec.
    destruct (bad_len (blen h) 64) eqn:H1; [|destruct (bad_len (blen so) 3309) eqn:H2; [|destruct (bad_len (blen sn) 3309) eqn:H3]].
    1-3: right; split; [unfold amsg_fields_ok; intros [(_ & ? & ? & ?) _];
      match goal with H : bad_len _ _ = true |- _ => apply not_false_iff_true in H; apply H, bad_len_spec; lia end|do 2 eexists; split; [|reflexivity]; done].
    rewrite bad_len_spec in H1, H2, H3. cbn [orb]. destruct (Z.leb_spec (bz f) 1); [|enc_refuse]. cbn [negb].
    destruct (Z.ltb_spec cap (1 + 1 + 1 + 1 + blen h + 1952 + 2 + blen so + 2 + blen sn)); [enc_refuse|].
    left. split; [unfold amsg_fields_ok; lia|]. split; [lia|]. rewrite wrote_nil, !put_wrote, wrote_poke. cbn [fst snd].
    rewrite !put_be16_spec, !take_ge by lia. cbn [app]. rewrite <-?app_assoc. cbn [app].
    f_equal. f_equal. cbn [length]. rewrite !length_app, !length_be_enc. cbn [length]. lia.
  - unfold authmsg_encode_rotate_ack. aunfold. destruct (bad_len (blen h) 64) eqn:H1.
    { right. split; [unfold amsg_fields_ok; intros [? _]|do 2 eexists; split; [|reflexivity]; done]. apply not_false_iff_true in H1. apply H1, bad_len_spec. lia. }
    rewrite bad_len_spec in H1. destruct (Z.ltb_spec cap (43 + blen h)); [enc_refuse|].
    left. split; [unfold amsg_fields_ok; lia|]. split; [lia|]. rewrite wrote_nil, !put_wrote, wrote_poke. cbn [fst snd].
    rewrite !take_ge by lia. cbn [app]. rewrite <-?app_assoc. cbn [app].
    f_equal. f_equal. cbn [length]. rewrite !length_app. unfold put_be64. rewrite length_be_enc. lia.
Qed.

(** ** Decoders *)

Ltac dec_guards H :=
  repeat match type of H with
  | (if ?c then (_, _) else _) = _ => let G := fresh "G" in destruct c eqn:G; [discriminate H|]
  end.

(** Guards as propositions. *)
Ltac guard_facts :=
  repeat match goal with
  | H : negb _ = false |- _ => apply negb_false_iff in H
  | H : reserved_bits _ _ = false |- _ => rewrite reserved_bits_spec in H
  | H : bad_len _ _ = false |- _ => apply bad_len_spec in H
  | H : (_ || _) = false |- _ => apply orb_false_iff in H as [? ?]
  | H : (_ =? _) = true |- _ => apply Z.eqb_eq in H
  | H : (_ =? _) = false |- _ => apply Z.eqb_neq in H
  | H : (_ <? _) = false |- _ => apply Z.ltb_ge in H
  | H : (_ <=? _) = true |- _ => apply Z.leb_le in H
  end.

(** A buffer beginning with known bytes. *)
Lemma head_cut i b v rest : 0 <= i < blen b -> bz (byte_at b i) = v -> zdrop (i + 1) b = rest -> zdrop i b = u8 v :: rest.
Proof. intros Hi Hv Hr. rewrite (zdrop_cut i 1 b rest) by (done || lia). rewrite peek_1 by done. cbn. by rewrite <-Hv, u8_bz. Qed.

Lemma byte_cut i b rest : 0 <= i < blen b -> zdrop (i + 1) b = rest -> zdrop i b = byte_at b i :: rest.
Proof. intros Hi Hr. rewrite (zdrop_cut i 1 b rest) by (done || lia). by rewrite peek_1. Qed.

Lemma word_cut n i b rest :
  0 <= i -> i + Z.of_nat n <= blen b -> zdrop (i + Z.of_nat n) b = rest -> zdrop i b = be_enc n (be_dec (peek i (Z.of_nat n) b)) ++ rest.
Proof.
  intros Hi Hl Hr. rewrite be_enc_dec; [apply zdrop_cut; [lia|lia|done]|]. pose proof (length_peek i (Z.of_nat n) b Hi ltac:(lia) Hl). lia.
Qed.

Lemma decode_login_exact b f c e : decodes b (MLogin f c e) <-> amsg_ok (MLogin f c e) /\ amsg_wire (MLogin f c e) = b.
Proof.
  unfold amsg_ok, amsg_sized, amsg_fields_ok. cbn [decodes amsg_wire]. unfold authmsg_decode_login_code, AUTHMSG_FLAG_ROTATION_DUE. aunfold. split.
  - intros H. dec_guards H. guard_facts. injection H as <- <- <-. rewrite get_be64_spec.
    change (ztake 8 (zdrop (3 + 32) b)) with (peek 35 8 b). pose proof (be_dec_range (peek 35 8 b)) as Hr.
    rewrite length_peek in Hr |- * by lia. split; [lia|]. change b with (zdrop 0 b) at 4. symmetry. cbn [app].
    apply head_cut; [lia|done|]. apply head_cut; [lia|done|]. apply byte_cut; [lia|]. apply zdrop_cut; [lia..|].
    rewrite (word_cut 8 _ _ []) by (lia || apply drop_ge; lia). by rewrite app_nil_r.
  - intros [[[Hc He] Hf] <-]. pose proof (length_wire (MLogin f c e) (conj Hc He)) as Hl. cbn [amsg_wire] in Hl. rewrite Hl.
    set (w := _ ++ _ ++ _) in *. change (bz (byte_at w 0)) with 16. change (byte_at w 2) with f. cbn [negb Z.eqb Pos.eqb].
    change (bz (byte_at w 1)) with 1. cbn [negb Z.eqb Pos.eqb]. rewrite reserved_bits_spec, (proj2 (Z.leb_le _ _)) by done. cbn [negb].
    rewrite get_be64_spec. change (ztake 8 (zdrop (3 + 32) w)) with (peek 35 8 w). unfold w. slices. rewrite be_dec_enc_small by lia. done.
Qed.

Lemma decode_error_exact b c : decodes b (MError c) <-> amsg_ok (MError c) /\ amsg_wire (MError c) = b.
Proof.
  unfold amsg_ok, amsg_sized, amsg_fields_ok. cbn [decodes amsg_wire]. unfold authmsg_decode_error. aunfold. split.
  - intros H. dec_guards H. guard_facts. injection H as <-. split; [lia|]. change b with (zdrop 0 b) at 2. symmetry.
    apply head_cut; [lia|done|]. apply head_cut; [lia|done|]. apply byte_cut; [lia|]. apply drop_ge. lia.
  - intros [[_ Hc] <-]. cbn [length Z.of_nat Z.eqb Pos.of_succ_nat Pos.succ Pos.eqb negb]. set (w := [_; _; _]).
    change (bz (byte_at w 0)) with 31. change (byte_at w 2) with c. change (bz (byte_at w 1)) with 1. cbn [negb Z.eqb Pos.eqb].
    by rewrite (proj2 (Z.ltb_ge _ _)), (proj2 (Z.ltb_ge _ _)) by lia.
Qed.

Lemma decode_ack_exact b h fp t : decodes b (MAck h fp t) <-> amsg_ok (MAck h fp t) /\ amsg_wire (MAck h fp t) = b.
Proof.
  unfold amsg_ok, amsg_sized, amsg_fields_ok. cbn [decodes amsg_wire]. unfold authmsg_decode_rotate_ack. aunfold. split.
  - intros (r & H & Hv). dec_guards H. guard_facts. injection H as <-. unfold ack_view in Hv. cbn [ra_handle ra_handle_len ra_fp_new ra_rotated_at] in Hv.
    set (hl := bz (byte_at b 2)) in *. pose proof (bz_range (byte_at b 2)) as Hhl. fold hl in Hhl.
    rewrite follow_in in Hv by lia. cbn in Hv. apply Some_inj in Hv. injection Hv as <- <- <-. rewrite get_be64_spec.
    change (ztake 8 (zdrop (3 + hl + 32) b)) with (peek (3 + hl + 32) 8 b). pose proof (be_dec_range (peek (3 + hl + 32) 8 b)) as Hr.
    rewrite !length_peek in Hr |- * by lia. rewrite (length_peek 3 hl) by lia. split; [lia|]. change b with (zdrop 0 b) at 4. symmetry. cbn [app].
    apply head_cut; [lia|done|]. apply head_cut; [lia|done|]. apply head_cut; [lia|done|]. apply zdrop_cut; [lia..|]. apply zdrop_cut; [lia..|].
    rewrite (word_cut 8 _ _ []) by (lia || apply drop_ge; lia). by rewrite app_nil_r.
  - intros [[[Hfp Ht] Hh] <-]. pose proof (length_wire (MAck h fp t) (conj Hfp Ht)) as Hl. cbn [amsg_wire] in Hl. rewrite Hl.
    set (w := _ ++ _ ++ _ ++ _) in *. change (bz (byte_at w 0)) with 18. change (bz (byte_at w 1)) with 1. change (byte_at w 2) with (u8 (blen h)).
    rewrite bz_u8_small by lia. rewrite (proj2 (Z.eqb_neq _ 0)) by lia. cbn [negb Z.eqb Pos.eqb]. rewrite (proj2 (Z.ltb_ge _ 3)) by lia.
    rewrite (proj2 (bad_len_spec _ _)) by lia. rewrite Z.eqb_refl. cbn [negb]. eexists. split; [done|].
    unfold ack_view. cbn [ra_handle ra_handle_len ra_fp_new ra_rotated_at]. rewrite follow_in by lia. cbn [mbind option_bind].
    rewrite get_be64_spec. change (ztake 8 (zdrop (3 + blen h + 32) w)) with (peek (3 + blen h + 32) 8 w). unfold w. slices.
    rewrite be_dec_enc_small by lia. done.
Qed.

(** The two length words of a ROTATE are read where they are written. *)
Lemma get_be16_at o b : 0 <= o -> o + 2 <= blen b -> get_be16 (zdrop o b) = be_dec (peek o 2 b).
Proof. intros. apply get_be16_spec. rewrite length_zdrop; lia. Qed.

Lemma decode_rotate_sound b f h pk so sn :
  decodes b (MRotate f h pk so sn) -> amsg_ok (MRotate f h pk so sn) /\ amsg_wire (MRotate f h pk so sn) = b.
Proof.
  unfold amsg_ok, amsg_sized, amsg_fields_ok. cbn [decodes amsg_wire]. unfold authmsg_decode_rotate, AUTHMSG_FLAG_ROTATE_DROP_TOKENS. aunfold.
  intros (r & H & Hv). dec_guards H. guard_facts. injection H as <-. unfold rotate_view in Hv. aunfold.
  cbn [rt_flags rt_handle rt_handle_len rt_pk_new rt_sig_old rt_sig_old_len rt_sig_new rt_sig_new_len] in Hv.
  set (hl := bz (byte_at b 3)) in *. pose proof (bz_range (byte_at b 3)) as Hhl. fold hl in Hhl.
  rewrite (get_be16_at (4 + hl + 1952)) in * by lia. set (sol := be_dec (peek (4 + hl + 1952) 2 b)) in *. pose proof (be_dec_range (peek (4 + hl + 1952) 2 b)) as Hso. fold sol in Hso.
  rewrite (get_be16_at (4 + hl + 1952 + 2 + sol)) in * by lia. set (snl := be_dec (peek (4 + hl + 1952 + 2 + sol) 2 b)) in *.
  pose proof (be_dec_range (peek (4 + hl + 1952 + 2 + sol) 2 b)) as Hsn. fold snl in Hsn.
  rewrite !follow_in in Hv by lia. cbn in Hv. apply Some_inj in Hv. injection Hv as <- <- <- <- <-.
  rewrite !length_peek by lia. split; [lia|]. symmetry. transitivity (zdrop 0 b); [done|]. cbn [app].
  apply head_cut; [lia|done|]. apply head_cut; [lia|done|]. apply byte_cut; [lia|]. apply head_cut; [lia|done|].
  do 2 (apply zdrop_cut; [lia..|]). apply (word_cut 2); [lia..|]. apply zdrop_cut; [lia..|]. apply (word_cut 2); [lia..|].
  apply zdrop_end; lia.
Qed.

Lemma decode_rotate_complete f h pk so sn :
  amsg_ok (MRotate f h pk so sn) -> decodes (amsg_wire (MRotate f h pk so sn)) (MRotate f h pk so sn).
Proof.
  intros [Hpk (Hf & Hh & Hso & Hsn)]. unfold amsg_sized in Hpk. pose proof (length_wire (MRotate f h pk so sn) Hpk) as Hl.
  cbn [decodes]. unfold authmsg_decode_rotate, AUTHMSG_FLAG_ROTATE_DROP_TOKENS. aunfold. rewrite Hl. cbn [amsg_wire] in *.
  set (w := _ ++ _ ++ _ ++ _) in *. change (bz (byte_at w 0)) with 17. change (bz (byte_at w 1)) with 1. change (byte_at w 2) with f.
  change (byte_at w 3) with (u8 (blen h)). rewrite bz_u8_small by lia.
  assert (H1 : get_be16 (zdrop (4 + blen h + 1952) w) = blen so).
  { rewrite get_be16_at by lia. unfold w. slices. apply be_dec_enc_small. lia. }
  assert (H2 : get_be16 (zdrop (4 + blen h + 1952 + 2 + blen so) w) = blen sn).
  { rewrite get_be16_at by lia. unfold w. slices. apply be_dec_enc_small. lia. }
  rewrite H1, H2, reserved_bits_spec. rewrite !(proj2 (bad_len_spec _ _)) by lia. rewrite (proj2 (Z.leb_le (bz f) 1)) by done.
  rewrite (proj2 (Z.eqb_neq _ 0)) by lia. rewrite !(proj2 (Z.ltb_ge _ _)) by lia. cbn [negb Z.eqb Pos.eqb].
  rewrite (proj2 (Z.eqb_eq _ _)) by lia. cbn [negb]. eexists. split; [done|]. unfold rotate_view. aunfold.
  cbn [rt_flags rt_handle rt_handle_len rt_pk_new rt_sig_old rt_sig_old_len rt_sig_new rt_sig_new_len].
  rewrite !follow_in by lia. cbn [mbind option_bind]. unfold w. slices. done.
Qed.

Lemma decode_bye_exact b : decodes b MBye <-> amsg_ok MBye /\ amsg_wire MBye = b.
Proof.
  cbn [decodes amsg_wire]. unfold authmsg_peek_op, amsg_ok. aunfold. split.
  - intros [H Hl]. rewrite Hl in H. cbn in H. injection H as H. split; [done|]. destruct b as [|x [|y b]]; cbn [length] in Hl; try lia.
    by rewrite <-H.
  - intros [_ <-]. done.
Qed.

(** A refused buffer leaves a zeroed result behind. *)
Definition refused {A} (r : authmsg_status_t * option A) (zero : A) : Prop := r.1 <> AUTHMSG_OK -> r.2 = Some zero.

Lemma decode_refused b :
  (forall o, refused (authmsg_decode_login_code (Some b) (Some o)) login_code_zero) /\
  (forall o, refused (authmsg_decode_error (Some b) (Some o)) x00) /\
  (forall o, refused (authmsg_decode_rotate (Some b) (Some o)) rotate_zero) /\
  (forall o, refused (authmsg_decode_rotate_ack (Some b) (Some o)) rotate_ack_zero).
Proof.
  unfold refused, authmsg_decode_login_code, authmsg_decode_error, authmsg_decode_rotate, authmsg_decode_rotate_ack.
  split_and!; intros o; repeat match goal with |- context [if ?c then _ else _] => destruct c; [done|] end; done.
Qed.

(** The decoders are exact.  A decoder accepts a buffer and yields a message precisely when the buffer is the wire image of
    that message and the message is admissible: lengths, version and reserved bits are all checked, nothing may trail, and every
    pointer of a decoded ROTATE or ROTATE_ACK lies inside the buffer; a refused buffer leaves a zeroed result. *)
Theorem authmsg_decode_exact (b : list byte) :
  (forall m, decodes b m <-> amsg_ok m /\ amsg_wire m = b) /\
  (forall o, refused (authmsg_decode_login_code (Some b) (Some o)) login_code_zero) /\
  (forall o, refused (authmsg_decode_error (Some b) (Some o)) x00) /\
  (forall o, refused (authmsg_decode_rotate (Some b) (Some o)) rotate_zero) /\
  (forall o, refused (authmsg_decode_rotate_ack (Some b) (Some o)) rotate_ack_zero).
Proof.
  split; [|apply decode_refused]. intros [f c e|c| |f h pk so sn|h fp t].
  - apply decode_login_exact.
  - apply decode_error_exact.
  - apply decode_bye_exact.
  - split; [apply decode_rotate_sound|]. intros [Hok <-]. by apply decode_rotate_complete.
  - apply decode_ack_exact.
Qed.

(** Encoding is all or nothing and inverted by decoding.  For a message of the sizes its C types fix, the encoder succeeds
    exactly when the fields are admissible and the capacity suffices; it then writes the wire image, no longer than
    [AUTHMSG_ROTATE_MAX_CONTENT], over the beginning of the buffer, and decoding the bytes reported gives the message back.
    Otherwise the buffer is untouched. *)
Theorem authmsg_encode_exact m o cap n :
  amsg_sized m -> 0 <= cap <= blen o ->
  exists st o' n', encode m (Some o) cap (Some n) = (st, Some o', n') /\
    (st = AUTHMSG_OK <-> amsg_fields_ok m /\ blen (amsg_wire m) <= cap) /\
    (st = AUTHMSG_OK -> n' = Some (blen (amsg_wire m)) /\ o' = poke 0 (amsg_wire m) o /\
      blen (amsg_wire m) <= AUTHMSG_ROTATE_MAX_CONTENT /\ decodes (ztake (blen (amsg_wire m)) o') m) /\
    (st <> AUTHMSG_OK -> o' = o).
Proof.
  intros Hs Hcap. destruct (encode_cases m o cap n Hs) as [(Hf & Hl & He)|(Hno & st & n' & Hst & He)].
  - exists AUTHMSG_OK, (poke 0 (amsg_wire m) o), (Some (blen (amsg_wire m))). split; [done|]. split; [done|]. split; [|done].
    intros _. split_and!; [done..| |].
    + rewrite length_wire by done. unfold AUTHMSG_ROTATE_MAX_CONTENT. destruct m; unfold amsg_fields_ok in Hf; lia.
    + rewrite take_poke_0. destruct m; cbn [amsg_wire decodes]; [apply decode_login_exact|apply decode_error_exact|apply decode_bye_exact|
        by apply decode_rotate_complete|apply decode_ack_exact]; by split.
  - exists st, o, n'. split; [done|]. split; [by split|]. by split.
Qed.

(** ** The rotation digest *)

Record rot := Rot {
  rot_label : list byte; rot_hid : list byte; rot_flags : byte; rot_handle : list byte; rot_pk_old : list byte; rot_pk_new : list byte }.

Definition rot_sized (a : rot) : Prop :=
  (rot_label a = AUTHMSG_LABEL_ROTATE_OLD \/ rot_label a = AUTHMSG_LABEL_ROTATE_NEW) /\ blen (rot_hid a) = AUTHMSG_HANDSHAKE_ID_BYTES /\
  1 <= blen (rot_handle a) <= STORE_ID_MAX /\ blen (rot_pk_old a) = MLDSA_PUBLIC_KEY_BYTES /\ blen (rot_pk_new a) = MLDSA_PUBLIC_KEY_BYTES.

(** label || 0x00 || handshake_id || flags || handle_len || handle || pk_old || pk_new *)
Definition rot_preimage (a : rot) : list byte :=
  rot_label a ++ [x00] ++ rot_hid a ++ [rot_flags a] ++ [u8 (blen (rot_handle a))] ++ rot_handle a ++ rot_pk_old a ++ rot_pk_new a.

Definition rot_digest `{Env} (a : rot) (out : list byte) : authmsg_status_t * option (list byte) :=
  authmsg_rotate_digest (Some out) (Some (rot_label a)) (Some (rot_hid a)) (rot_flags a) (Some (rot_handle a)) (blen (rot_handle a))
    (Some (rot_pk_old a)) (Some (rot_pk_new a)).

Lemma rot_preimage_inj a b : rot_sized a -> rot_sized b -> rot_preimage a = rot_preimage b -> a = b.
Proof.
  destruct a as [la ia fa ha oa na], b as [lb ib fb hb ob nb]. unfold rot_sized, rot_preimage. aunfold. unfold AUTHMSG_HANDSHAKE_ID_BYTES.
  cbn [rot_label rot_hid rot_flags rot_handle rot_pk_old rot_pk_new]. intros (Hla & Hia & Hha & Hoa & Hna) (Hlb & Hib & Hhb & Hob & Hnb) He.
  assert (Hll : length la = length lb) by (by destruct Hla as [->| ->], Hlb as [->| ->]).
  apply app_inj_1 in He as [<- He]; [|done]. apply app_inj_1 in He as [_ He]; [|done]. apply app_inj_1 in He as [<- He]; [|lia].
  apply app_inj_1 in He as [Hf He]; [|done]. apply app_inj_1 in He as [Hl He]; [|done]. injection Hf as <-. injection Hl as Hl.
  apply u8_inj in Hl; [|lia..]. apply app_inj_1 in He as [<- He]; [|lia]. apply app_inj_1 in He as [<- <-]; [|lia]. done.
Qed.

Section digest_props.
Context `{ES : EnvSizes}.

Lemma sha_update_rep st m d : sha256_rep st m -> sha256_rep (sha_update st d) (m ++ d).
Proof. intros Hr. destruct sha256_stream as (_ & Hup & _). destruct (Hup st m d Hr) as (st' & Hu & Hr'). unfold sha_update. by rewrite Hu. Qed.

Lemma rot_digest_spec a out : rot_sized a -> rot_digest a out = (AUTHMSG_OK, Some (sha256 (rot_preimage a))).
Proof.
  intros (_ & Hh & Hl & Ho & Hn). unfold rot_digest, authmsg_rotate_digest. rewrite (proj2 (bad_len_spec _ _)) by (split; lia).
  destruct sha256_stream as ((st & -> & Hr) & _ & Hf). rewrite !take_ge by lia. do 2 f_equal.
  erewrite Hf; [|do 8 apply sha_update_rep; exact Hr]. cbn [default from_option id]. unfold rot_preimage. by rewrite <-!app_assoc.
Qed.

(** The two rotation signatures are not interchangeable.  [authmsg_rotate_digest] returns the SHA-256 of a preimage that
    determines the label (old or new key), the handshake id, the flags, the handle and both public keys: equal preimages come from
    equal arguments. *)
Theorem rotate_digest_binding a b out :
  rot_sized a -> rot_sized b ->
  rot_digest a out = (AUTHMSG_OK, Some (sha256 (rot_preimage a))) /\ rot_digest b out = (AUTHMSG_OK, Some (sha256 (rot_preimage b))) /\
  (rot_preimage a = rot_preimage b -> a = b).
Proof. intros Ha Hb. rewrite !rot_digest_spec by done. split; [done|]. split; [done|]. by apply rot_preimage_inj. Qed.

End digest_props.

(** ** Witnesses *)

Lemma authmsg_encode_exact_witness :
  exists o', encode (MError x03) (Some (zeros 8)) 8 (Some 0) = (AUTHMSG_OK, Some o', Some 3) /\ decodes (ztake 3 o') (MError x03).
Proof.
  destruct (authmsg_encode_exact (MError x03) (zeros 8) 8 0 I ltac:(split; vm_compute; discriminate)) as (st & o' & n' & He & Hst & Hok & _).
  assert (st = AUTHMSG_OK) as -> by (apply Hst; split; [split|]; vm_compute; discriminate).
  destruct (Hok eq_refl) as (-> & -> & _ & Hd). exists (poke 0 (amsg_wire (MError x03)) (zeros 8)). split; [exact He|exact Hd].
Defined.

Definition demo_rot (lbl : list byte) : rot := Rot lbl (zeros 16) x00 (label "alice") (toy_fill 1952 1) (toy_fill 1952 2).

Lemma rotate_digest_binding_witness :
  rot_digest (demo_rot AUTHMSG_LABEL_ROTATE_OLD) [] = (AUTHMSG_OK, Some (toy_hash (rot_preimage (demo_rot AUTHMSG_LABEL_ROTATE_OLD)))) /\
  (rot_preimage (demo_rot AUTHMSG_LABEL_ROTATE_OLD) = rot_preimage (demo_rot AUTHMSG_LABEL_ROTATE_NEW) ->
   demo_rot AUTHMSG_LABEL_ROTATE_OLD = demo_rot AUTHMSG_LABEL_ROTATE_NEW).
Proof.
  assert (Hs : forall l, l = AUTHMSG_LABEL_ROTATE_OLD \/ l = AUTHMSG_LABEL_ROTATE_NEW -> rot_sized (demo_rot l)).
  { intros l Hl. unfold rot_sized, demo_rot. cbn [rot_label rot_hid rot_handle rot_pk_old rot_pk_new]. rewrite !length_toy_fill by lia.
    split; [exact Hl|]. split_and!; (reflexivity || (vm_compute; discriminate)). }
  destruct (rotate_digest_binding (E := toy_env) (demo_rot AUTHMSG_LABEL_ROTATE_OLD) (demo_rot AUTHMSG_LABEL_ROTATE_NEW) []
    (Hs _ (or_introl eq_refl)) (Hs _ (or_intror eq_refl))) as (H1 & _ & H2).
  split; [exact H1|exact H2].
Defined.
