(* ===== verification/Ws.v ===== *)
(** * The WebSocket frame codec ([apps/authd/ws.c], frames)

    The incremental decoder of the daemon, the control replies, the masked
    client frames and the client's message reader.  The sink that receives the
    data bytes and the client's read function are parameters, as in the code. *)

From S2P Require Import Prelude.

Definition WS_CTRL_MAX : Z := 125.
Definition WS_HDR_MAX : Z := 14.
Definition WS_SRV_HDR_MAX : Z := 10.
Definition WS_STATE_MAX : Z := 64.
Definition WS_OP_CONT : Z := 0.
Definition WS_OP_BINARY : Z := 2.
Definition WS_OP_CLOSE : Z := 8.
Definition WS_OP_PING : Z := 9.
Definition WS_OP_PONG : Z := 10.

Inductive ws_stage_t := WS_STAGE_UPGRADE | WS_STAGE_OPEN | WS_STAGE_CLOSED.
#[global] Instance ws_stage_eq_dec : EqDecision ws_stage_t.
Proof. solve_decision. Defined.
Inductive ws_status_t := WS_OK | WS_NEED_MORE | WS_ERR_PROTOCOL.
#[global] Instance ws_status_eq_dec : EqDecision ws_status_t.
Proof. solve_decision. Defined.

(** [ws_t] in three parts: the frame being decoded, the reply waiting to be
    sent, and the rest. *)
Record ws_dec := WsDec {
  d_hdr : list byte; d_hdr_len : Z; d_hdr_need : Z; d_payload_left : Z; d_mask : list byte; d_mask_off : Z;
  d_opcode : Z; d_is_control : bool; d_in_message : bool; d_ctrl : list byte; d_ctrl_len : Z }.
Record ws_reply := WsReply { r_buf : list byte; r_len : Z; r_sent : Z }.
Record ws_t := Ws {
  ws_stage : ws_stage_t; ws_state : list byte; ws_state_len : Z; ws_expect_mask : bool; ws_d : ws_dec; ws_r : ws_reply }.

Definition dec_zero : ws_dec :=
  WsDec (zeros WS_HDR_MAX) 0 0 0 (zeros 4) 0 0 false false (zeros WS_CTRL_MAX) 0.
Definition reply_zero : ws_reply := WsReply (zeros (WS_SRV_HDR_MAX + WS_CTRL_MAX)) 0 0.

Definition ws_init : ws_t := Ws WS_STAGE_UPGRADE (zeros WS_STATE_MAX) 0 true dec_zero reply_zero.
Definition ws_init_client : ws_t := Ws WS_STAGE_OPEN (zeros WS_STATE_MAX) 0 false dec_zero reply_zero.

(** Field updates. *)
Definition set_dec (w : ws_t) (d : ws_dec) : ws_t := Ws (ws_stage w) (ws_state w) (ws_state_len w) (ws_expect_mask w) d (ws_r w).
Definition set_reply (w : ws_t) (r : ws_reply) : ws_t := Ws (ws_stage w) (ws_state w) (ws_state_len w) (ws_expect_mask w) (ws_d w) r.
Definition set_stage (w : ws_t) (s : ws_stage_t) : ws_t := Ws s (ws_state w) (ws_state_len w) (ws_expect_mask w) (ws_d w) (ws_r w).
Definition d_push (d : ws_dec) (b : byte) : ws_dec :=
  WsDec (poke (d_hdr_len d) [b] (d_hdr d)) (d_hdr_len d + 1) (d_hdr_need d) (d_payload_left d) (d_mask d) (d_mask_off d)
    (d_opcode d) (d_is_control d) (d_in_message d) (d_ctrl d) (d_ctrl_len d).
Definition d_set_kind (d : ws_dec) (need op : Z) (ctl : bool) : ws_dec :=
  WsDec (d_hdr d) (d_hdr_len d) need (d_payload_left d) (d_mask d) (d_mask_off d) op ctl (d_in_message d) (d_ctrl d) (d_ctrl_len d).
Definition d_set_left (d : ws_dec) (n : Z) : ws_dec :=
  WsDec (d_hdr d) (d_hdr_len d) (d_hdr_need d) n (d_mask d) (d_mask_off d) (d_opcode d) (d_is_control d) (d_in_message d)
    (d_ctrl d) (d_ctrl_len d).
Definition d_set_mask (d : ws_dec) (m : list byte) (off : Z) : ws_dec :=
  WsDec (d_hdr d) (d_hdr_len d) (d_hdr_need d) (d_payload_left d) m off (d_opcode d) (d_is_control d) (d_in_message d)
    (d_ctrl d) (d_ctrl_len d).
Definition d_set_ctrl (d : ws_dec) (c : list byte) (n : Z) : ws_dec :=
  WsDec (d_hdr d) (d_hdr_len d) (d_hdr_need d) (d_payload_left d) (d_mask d) (d_mask_off d) (d_opcode d) (d_is_control d)
    (d_in_message d) c n.
Definition d_set_message (d : ws_dec) (b : bool) : ws_dec :=
  WsDec (d_hdr d) (d_hdr_len d) (d_hdr_need d) (d_payload_left d) (d_mask d) (d_mask_off d) (d_opcode d) (d_is_control d) b
    (d_ctrl d) (d_ctrl_len d).
Definition d_set_hdr (d : ws_dec) (len need : Z) : ws_dec :=
  WsDec (d_hdr d) len need (d_payload_left d) (d_mask d) (d_mask_off d) (d_opcode d) (d_is_control d) (d_in_message d)
    (d_ctrl d) (d_ctrl_len d).

(** ** Server frames *)

(** The header bytes; their number is the returned length. *)
Definition ws_server_header (payload_len opcode : Z) : list byte :=
  let b0 := u8 (Z.lor 128 (Z.land opcode 15)) in
  if payload_len <? 126 then [b0; u8 payload_len] else
  if payload_len <=? 65535 then [b0; u8 126; u8 (Z.shiftr payload_len 8); u8 payload_len] else
  b0 :: u8 127 :: map (fun i => u8 (Z.shiftr payload_len (8 * (7 - i)))) [0; 1; 2; 3; 4; 5; 6; 7].

Definition queue_ctrl (w : ws_t) (opcode : Z) (p : list byte) (n : Z) : ws_t :=
  if negb (r_len (ws_r w) =? r_sent (ws_r w)) then w else
  let n := if WS_CTRL_MAX <? n then WS_CTRL_MAX else n in
  let h := ws_server_header n opcode in
  let hl := blen h in
  let buf := poke hl (ztake n p) (poke 0 h (r_buf (ws_r w))) in
  set_reply w (WsReply buf (hl + n) 0).

(** ** The decoder *)

Definition need_header (d : ws_dec) : bool := (d_hdr_need d =? 0) || (d_hdr_len d <? d_hdr_need d).

(** The checks after the second header byte.  [false] is WS_ERR_PROTOCOL. *)
Definition hdr_second (expect : bool) (d : ws_dec) : bool * ws_dec :=
  let b0 := bz (byte_at (d_hdr d) 0) in
  let b1 := bz (byte_at (d_hdr d) 1) in
  if negb (Z.land b0 112 =? 0) then (false, d) else
  let masked := negb (Z.land b1 128 =? 0) in
  if negb (Bool.eqb masked expect) then (false, d) else
  let len7 := Z.land b1 127 in
  let need := 2 + (if masked then 4 else 0) + (if len7 =? 126 then 2 else if len7 =? 127 then 8 else 0) in
  let op := Z.land b0 15 in
  let d := d_set_kind d need op (negb (Z.land op 8 =? 0)) in
  if d_is_control d then
    if (Z.land b0 128 =? 0) || (125 <? len7) then (false, d) else
    if negb (op =? WS_OP_CLOSE) && negb (op =? WS_OP_PING) && negb (op =? WS_OP_PONG) then (false, d) else (true, d)
  else if negb (op =? WS_OP_BINARY) && negb (op =? WS_OP_CONT) then (false, d) else (true, d).

(** The staging loop; the list is the data not yet consumed. *)
Fixpoint hdr_loop (expect : bool) (d : ws_dec) (data : list byte) : bool * ws_dec * list byte :=
  match data with
  | [] => (true, d, [])
  | b :: rest =>
    if need_header d then
      if WS_HDR_MAX <=? d_hdr_len d then (false, d, data) else
      let d := d_push d b in
      if d_hdr_len d =? 2 then
        let '(ok, d) := hdr_second expect d in if ok then hdr_loop expect d rest else (false, d, rest)
      else hdr_loop expect d rest
    else (true, d, data)
  end.

(** The mask, found at [off], and the fragmentation rules. *)
Definition hdr_finish (expect : bool) (d : ws_dec) (off : Z) : bool * ws_dec :=
  let d := d_set_mask d (if expect then peek off 4 (d_hdr d) else zeros 4) 0 in
  let d := d_set_ctrl d (d_ctrl d) 0 in
  if d_is_control d then (true, d) else
  let fin := negb (Z.land (bz (byte_at (d_hdr d) 0)) 128 =? 0) in
  if (d_opcode d =? WS_OP_CONT) && negb (d_in_message d) then (false, d) else
  if (d_opcode d =? WS_OP_BINARY) && d_in_message d then (false, d) else
  (true, d_set_message d (negb fin)).

(** A complete header: length, mask and fragmentation. *)
Definition hdr_done (expect : bool) (d : ws_dec) : bool * ws_dec :=
  let len7 := Z.land (bz (byte_at (d_hdr d) 1)) 127 in
  if len7 =? 126 then
    let d := d_set_left d (Z.lor (Z.shiftl (bz (byte_at (d_hdr d) 2)) 8) (bz (byte_at (d_hdr d) 3))) in
    if d_payload_left d <? 126 then (false, d) else hdr_finish expect d 4
  else if len7 =? 127 then
    let d := d_set_left d (fold_left (fun v b => u64 (Z.lor (Z.shiftl v 8) (bz b))) (peek 2 8 (d_hdr d)) 0) in
    if d_payload_left d <=? 65535 then (false, d) else
    if negb (Z.shiftr (d_payload_left d) 63 =? 0) then (false, d) else hdr_finish expect d 10
  else hdr_finish expect (d_set_left d len7) 2.

(** [bs] masked from position [off] of the key on. *)
Definition unmask (m : list byte) (off : Z) (bs : list byte) : list byte :=
  imap (fun k b => u8 (Z.lxor (bz b) (bz (byte_at m (Z.land (off + Z.of_nat k) 3))))) bs.

Section consume.
Context {C : Type} (sink : C -> list byte -> bool * C).

(** The payload loop over [data], 512 bytes at a time.  [fuel] bounds the rounds. *)
Fixpoint payload_loop (fuel : nat) (d : ws_dec) (c : C) (data : list byte) : bool * ws_dec * C :=
  match fuel, data with
  | S fuel, _ :: _ =>
    let chunk := Z.min (blen data) 512 in
    let tmp := unmask (d_mask d) (d_mask_off d) (ztake chunk data) in
    let d := d_set_mask d (d_mask d) (Z.land (d_mask_off d + chunk) 3) in
    if d_is_control d then
      if WS_CTRL_MAX <? d_ctrl_len d + chunk then (false, d, c) else
      let d := d_set_ctrl d (poke (d_ctrl_len d) tmp (d_ctrl d)) (d_ctrl_len d + chunk) in
      payload_loop fuel d c (zdrop chunk data)
    else
      let '(ok, c) := sink c tmp in
      if ok then payload_loop fuel d c (zdrop chunk data) else (false, d, c)
  | _, _ => (true, d, c)
  end.

(** The end of a frame; [true] when the connection is now closed. *)
Definition frame_done (w : ws_t) : bool * ws_t :=
  let d := ws_d w in
  let reset w := (false, set_dec w (d_set_ctrl (d_set_hdr (ws_d w) 0 0) (d_ctrl (ws_d w)) 0)) in
  if d_is_control d then
    if d_opcode d =? WS_OP_PING then reset (queue_ctrl w WS_OP_PONG (d_ctrl d) (d_ctrl_len d)) else
    if d_opcode d =? WS_OP_CLOSE then
      let w := queue_ctrl w WS_OP_CLOSE (d_ctrl d) (if 2 <=? d_ctrl_len d then 2 else 0) in
      let w := set_stage w WS_STAGE_CLOSED in
      (true, set_dec w (d_set_hdr (ws_d w) 0 0))
    else reset w
  else reset w.

(** One round of the loop of [ws_consume] over the data not yet consumed: [inl] returns, [inr] goes round again. *)
Definition ws_round (w : ws_t) (c : C) (data : list byte) : ws_status_t * ws_t * C + ws_t * C * list byte :=
  let d := ws_d w in
  let finish w c rest := let '(closed, w) := frame_done w in if closed then inl (WS_OK, w, c) else inr (w, c, rest) in
  if (d_payload_left d =? 0) && need_header d then
    let '(ok, d, rest) := hdr_loop (ws_expect_mask w) d data in
    if negb ok then inl (WS_ERR_PROTOCOL, set_dec w d, c) else
    if need_header d then inl (WS_NEED_MORE, set_dec w d, c) else
    let '(ok, d) := hdr_done (ws_expect_mask w) d in
    if negb ok then inl (WS_ERR_PROTOCOL, set_dec w d, c) else
    if d_payload_left d =? 0 then finish (set_dec w d) c rest else inr (set_dec w d, c, rest)
  else
    let take_ := Z.min (blen data) (d_payload_left d) in
    let '(ok, d, c) := payload_loop (length data) d c (ztake take_ data) in
    if negb ok then inl (WS_ERR_PROTOCOL, set_dec w d, c) else
    let d := d_set_left d (d_payload_left d - take_) in
    if negb (d_payload_left d =? 0) then inl (WS_NEED_MORE, set_dec w d, c) else finish (set_dec w d) c (zdrop take_ data).

(** Every round consumes a byte, so [fuel] is the number of bytes. *)
Fixpoint ws_loop (fuel : nat) (w : ws_t) (c : C) (data : list byte) : ws_status_t * ws_t * C :=
  match fuel, data with
  | S fuel, _ :: _ => match ws_round w c data with inl r => r | inr (w, c, rest) => ws_loop fuel w c rest end
  | _, _ => (WS_NEED_MORE, w, c)
  end.

End consume.

(** [p] holds [n] bytes when it is not NULL. *)
Definition ws_consume {C} (sink : option (C -> list byte -> bool * C)) (w : option ws_t) (p : option (list byte)) (n : Z) (c : C)
    : ws_status_t * option ws_t * C :=
  match w, sink with
  | Some w0, Some sink =>
    if bool_decide (p = None) && (0 <? n) then (WS_ERR_PROTOCOL, w, c) else
    if bool_decide (ws_stage w0 = WS_STAGE_CLOSED) then (WS_OK, w, c) else
    if negb (bool_decide (ws_stage w0 = WS_STAGE_OPEN)) then (WS_ERR_PROTOCOL, w, c) else
    let data := ztake n (default [] p) in
    let '(st, w1, c1) := ws_loop sink (length data) w0 c data in (st, Some w1, c1)
  | _, _ => (WS_ERR_PROTOCOL, w, c)
  end.

(** ** The client side *)

(** Result: the bytes written and the returned length (0: refused). *)
Definition ws_client_frame (out : option (list byte)) (cap : Z) (payload : option (list byte)) (n : Z) (mask : option (list byte))
    : option (list byte) * Z :=
  match out, payload, mask with
  | Some o, Some p, Some m =>
    let h := ws_server_header n WS_OP_BINARY in
    let hl := blen h in
    if cap <? hl + 4 + n then (out, 0) else
    let o := poke 0 h o in
    let o := poke 1 [u8 (Z.lor (bz (byte_at o 1)) 128)] o in
    let o := poke hl (ztake 4 m) o in
    let o := poke (hl + 4) (unmask m 0 (ztake n p)) o in
    (Some o, hl + 4 + n)
  | _, _, _ => (out, 0)
  end.

Inductive ws_client_status_t := WS_CLIENT_OK | WS_CLIENT_CLOSED | WS_CLIENT_IO | WS_CLIENT_PROTOCOL.

(** What the read function reports for an exact read; a failed one may have written some bytes. *)
Inductive rd_result := RdBytes (l : list byte) | RdEof | RdFail (part : list byte).

Section client.
Context {C : Type} (rd : C -> Z -> rd_result * C).

(** The frame after its header, with first byte [b0] and length [len]: [inr] goes round again. *)
Definition read_body (out : list byte) (cap b0 len : Z) (c : C) : (ws_client_status_t * list byte * Z + unit) * C :=
  let stop st c := (inl (st, out, 0), c) in
  let op := Z.land b0 15 in
  if op =? WS_OP_CLOSE then stop WS_CLIENT_CLOSED c else
  if (op =? WS_OP_PING) || (op =? WS_OP_PONG) then
    if WS_CTRL_MAX <? len then stop WS_CLIENT_PROTOCOL c else
    if 0 <? len then match rd c len with (RdBytes _, c) => (inr tt, c) | (_, c) => stop WS_CLIENT_IO c end
    else (inr tt, c)
  else
  if negb (op =? WS_OP_BINARY) || (Z.land b0 128 =? 0) then stop WS_CLIENT_PROTOCOL c else
  if cap <? len then stop WS_CLIENT_PROTOCOL c else
  if 0 <? len then
    match rd c len with
    | (RdBytes l, c) => (inl (WS_CLIENT_OK, poke 0 l out, len), c)
    | (RdEof, c) => stop WS_CLIENT_IO c
    | (RdFail l, c) => (inl (WS_CLIENT_IO, poke 0 l out, 0), c)
    end
  else (inl (WS_CLIENT_OK, out, len), c).

(** One round of the loop of [ws_client_read_message]. *)
Definition read_round (out : list byte) (cap : Z) (c : C) : (ws_client_status_t * list byte * Z + unit) * C :=
  let stop st c := (inl (st, out, 0), c) in
  match rd c 2 with
  | (RdEof, c) => stop WS_CLIENT_CLOSED c
  | (RdFail _, c) => stop WS_CLIENT_IO c
  | (RdBytes h, c) =>
    let b0 := bz (byte_at h 0) in
    let b1 := bz (byte_at h 1) in
    if negb (Z.land b0 112 =? 0) then stop WS_CLIENT_PROTOCOL c else
    if negb (Z.land b1 128 =? 0) then stop WS_CLIENT_PROTOCOL c else
    let len := Z.land b1 127 in
    if len =? 126 then
      match rd c 2 with
      | (RdBytes h, c) => read_body out cap b0 (Z.lor (Z.shiftl (bz (byte_at h 0)) 8) (bz (byte_at h 1))) c
      | (_, c) => stop WS_CLIENT_IO c
      end
    else if len =? 127 then
      match rd c 8 with
      | (RdBytes h, c) =>
        let len := fold_left (fun v b => u64 (Z.lor (Z.shiftl v 8) (bz b))) (ztake 8 h) 0 in
        if negb (Z.shiftr len 63 =? 0) then stop WS_CLIENT_PROTOCOL c else read_body out cap b0 len c
      | (_, c) => stop WS_CLIENT_IO c
      end
    else read_body out cap b0 len c
  end.

(** [None]: more than [fuel] control frames precede the message. *)
Fixpoint read_loop (fuel : nat) (out : list byte) (cap : Z) (c : C) : option (ws_client_status_t * list byte * Z) * C :=
  match fuel with
  | O => (None, c)
  | S fuel =>
    match read_round out cap c with
    | (inl r, c) => (Some r, c)
    | (inr tt, c) => read_loop fuel out cap c
    end
  end.
End client.

(** Result: the status, [out] and [*out_len]. *)
Definition ws_client_read_message {C} (fuel : nat) (rd : option (C -> Z -> rd_result * C)) (out : option (list byte)) (cap : Z)
    (out_len : option Z) (c : C) : option (ws_client_status_t * option (list byte) * option Z) * C :=
  match rd, out, out_len with
  | Some rd, Some o, Some _ =>
    match read_loop rd fuel o cap c with
    | (Some (st, o, n), c) => (Some (st, Some o, Some n), c)
    | (None, c) => (None, c)
    end
  | _, _, _ => (Some (WS_CLIENT_PROTOCOL, out, out_len), c)
  end.

(** ** Unmasking *)

Lemma length_unmask m off bs : length (unmask m off bs) = length bs.
Proof. apply length_imap. Qed.

Lemma unmask_app m off a b : unmask m off (a ++ b) = unmask m off a ++ unmask m (off + blen a) b.
Proof.
  unfold unmask. rewrite imap_app. f_equal. apply imap_ext. intros i x _. cbn. do 5 f_equal. lia.
Qed.

Lemma unmask_land m off bs : unmask m (Z.land off 3) bs = unmask m off bs.
Proof.
  unfold unmask. apply imap_ext. intros i x _. do 4 f_equal. change 3 with (Z.ones 2). rewrite !Z.land_ones by lia.
  apply Zplus_mod_idemp_l.
Qed.

Lemma unmask_cons m off x bs :
  unmask m off (x :: bs) = u8 (Z.lxor (bz x) (bz (byte_at m (Z.land off 3)))) :: unmask m (off + 1) bs.
Proof. change (x :: bs) with ([x] ++ bs). rewrite unmask_app. cbn. by rewrite Z.add_0_r. Qed.

Lemma lxor_byte (x k : byte) : 0 <= Z.lxor (bz x) (bz k) < 256.
Proof.
  pose proof (bz_range x). pose proof (bz_range k). assert (0 <= Z.lxor (bz x) (bz k)) by (apply Z.lxor_nonneg; lia).
  destruct (decide (Z.lxor (bz x) (bz k) = 0)) as [->|]; [lia|]. split; [done|]. apply Z.log2_lt_cancel. change (Z.log2 256) with 8.
  pose proof (Z.log2_lxor (bz x) (bz k) ltac:(lia) ltac:(lia)).
  assert (Hlog : forall z, 0 <= z < 256 -> Z.log2 z < 8).
  { intros z Hz. destruct (decide (z = 0)) as [->|]; [done|]. apply Z.log2_lt_pow2; lia. }
  pose proof (Hlog (bz x)). pose proof (Hlog (bz k)). lia.
Qed.

(** Masking twice with the same key is the identity. *)
Lemma unmask_involutive m off bs : unmask m off (unmask m off bs) = bs.
Proof.
  revert off. induction bs as [|x bs IH]; intros off; [done|]. rewrite !unmask_cons, IH. f_equal.
  rewrite bz_u8_small by apply lxor_byte. rewrite Z.lxor_assoc, Z.lxor_nilpotent, Z.lxor_0_r. apply u8_bz.
Qed.
