(* ===== verification/WsProps.v ===== *)
(** * Properties of the WebSocket codec

    The decoder as a machine that takes one byte at a time: cutting the stream
    into reads in any way changes nothing.  The safety invariant of its buffers,
    and the round trips of frames in both directions. *)

From S2P Require Import Prelude Ws.

(** ** The invariant *)

Record dec_ok (d : ws_dec) : Prop := {
  ok_hdr : blen (d_hdr d) = WS_HDR_MAX;
  ok_mask : blen (d_mask d) = 4;
  ok_ctrl : blen (d_ctrl d) = WS_CTRL_MAX;
  ok_staged : d_hdr_need d = 0 /\ 0 <= d_hdr_len d < 2 \/ 2 <= d_hdr_need d <= WS_HDR_MAX /\ 2 <= d_hdr_len d <= d_hdr_need d;
  ok_short : d_hdr_need d <> 0 -> d_is_control d = true -> Z.land (bz (byte_at (d_hdr d) 1)) 127 <= WS_CTRL_MAX;
  ok_left : 0 <= d_payload_left d < 2 ^ 63;
  ok_off : 0 <= d_mask_off d < 4;
  ok_ctrl_len : 0 <= d_ctrl_len d <= WS_CTRL_MAX;
  ok_room : d_is_control d = true -> 0 < d_payload_left d -> d_ctrl_len d + d_payload_left d <= WS_CTRL_MAX }.

(** Between calls the payload is pending exactly when the header is complete. *)
Record ws_ok (w : ws_t) : Prop := {
  ok_dec : dec_ok (ws_d w);
  ok_phase : (d_payload_left (ws_d w) =? 0) = need_header (ws_d w);
  ok_buf : blen (r_buf (ws_r w)) = WS_SRV_HDR_MAX + WS_CTRL_MAX;
  ok_reply : 0 <= r_sent (ws_r w) <= r_len (ws_r w) /\ r_len (ws_r w) <= WS_SRV_HDR_MAX + WS_CTRL_MAX }.

#[local] Arguments byte_at : simpl never.
#[local] Arguments unmask : simpl never.
#[local] Arguments poke : simpl never.
#[local] Arguments peek : simpl never.

Ltac wsunfold := unfold WS_HDR_MAX, WS_CTRL_MAX, WS_SRV_HDR_MAX in *.

(** ** One header byte *)

Definition hdr_step (expect : bool) (d : ws_dec) (b : byte) : bool * ws_dec :=
  if WS_HDR_MAX <=? d_hdr_len d then (false, d) else
  let d := d_push d b in if d_hdr_len d =? 2 then hdr_second expect d else (true, d).

Lemma hdr_loop_cons expect d b rest :
  need_header d = true ->
  let '(ok, d') := hdr_step expect d b in
  (ok = true -> hdr_loop expect d (b :: rest) = hdr_loop expect d' rest) /\
  (ok = false -> (hdr_loop expect d (b :: rest)).1.1 = false).
Proof.
  intros Hn. unfold hdr_step. cbn [hdr_loop]. rewrite Hn. destruct (_ <=? _); [done|].
  destruct (_ =? 2); [|done]. by destruct (hdr_second _ _) as [[] ?].
Qed.

Lemma hdr_loop_stop expect d data : need_header d = false -> hdr_loop expect d data = (true, d, data).
Proof. intros Hn. destruct data; cbn; [done|by rewrite Hn]. Qed.

(** An accepted second byte sets the length of the header and the kind of the frame, and nothing else. *)
Lemma hdr_second_spec expect d d' :
  hdr_second expect d = (true, d') ->
  exists need op ctl, d' = d_set_kind d need op ctl /\ 2 <= need <= WS_HDR_MAX /\
    (ctl = true -> Z.land (bz (byte_at (d_hdr d) 1)) 127 <= WS_CTRL_MAX).
Proof.
  unfold hdr_second. intros H. wsunfold.
  destruct (negb (_ =? 0)); [done|]. destruct (negb (Bool.eqb _ _)); [done|].
  set (len7 := Z.land _ 127) in *. cbn [d_is_control d_set_kind] in H.
  set (need := 2 + _ + _) in *. set (ctl := negb (Z.land (Z.land _ 15) 8 =? 0)) in *.
  exists need. eexists. exists ctl. assert (2 <= need <= 14) by (subst need; repeat case_match; lia).
  destruct ctl.
  - destruct ((_ =? 0) || (125 <? len7)) eqn:Hl; [done|]. apply orb_false_iff in Hl as [_ Hl%Z.ltb_ge].
    destruct (_ && _ && _); [done|]. by apply pair_equal_spec in H as [_ <-].
  - destruct (_ && _); [done|]. by apply pair_equal_spec in H as [_ <-].
Qed.

Lemma byte_at_poke_ne i k b l : 0 <= i < k -> k < blen l -> byte_at (poke k [b] l) i = byte_at l i.
Proof.
  intros. unfold byte_at, poke. rewrite app_nth1 by (rewrite length_take; lia). rewrite nth_firstn.
  by destruct (Nat.ltb_spec (Z.to_nat i) (Z.to_nat k)); [|lia].
Qed.

(** A header byte keeps the invariant; the header stays within its buffer. *)
Lemma hdr_step_ok expect d b d' :
  dec_ok d -> d_payload_left d = 0 -> need_header d = true -> hdr_step expect d b = (true, d') ->
  dec_ok d' /\ d_payload_left d' = 0.
Proof.
  intros [] Hl Hn. unfold hdr_step, need_header in *. wsunfold. destruct (_ <=? _) eqn:?; [done|].
  assert (Hp : blen (poke (d_hdr_len d) [b] (d_hdr d)) = 14) by (rewrite length_poke; cbn [length]; lia).
  apply orb_true_iff in Hn. destruct (_ =? 2) eqn:H2; intros H.
  - cbn [d_push d_hdr_len] in H2. apply hdr_second_spec in H as (need & op & ctl & -> & ? & ?). wsunfold.
    split; [|done]. constructor; cbn in *; wsunfold; try solve [lia | done | intuition lia].
  - apply pair_equal_spec in H as [_ <-]. cbn [d_push d_hdr_len] in H2. split; [|done].
    constructor; cbn in *; wsunfold; try solve [lia | done | intuition lia].
    intros. rewrite byte_at_poke_ne by lia. by apply ok_short0.
Qed.

Lemma be64_range l : 0 <= fold_left (fun v b => u64 (Z.lor (Z.shiftl v 8) (bz b))) l 0 < 2 ^ 64.
Proof.
  induction l as [|b l IH] using rev_ind; [done|]. rewrite fold_left_app. cbn [fold_left]. apply u64_range.
Qed.

Lemma len7_range b : 0 <= Z.land (bz b) 127 < 128.
Proof. change 127 with (Z.ones 7). rewrite Z.land_ones by lia. by apply Z.mod_pos_bound. Qed.

Lemma be16_range a b : 0 <= Z.lor (Z.shiftl (bz a) 8) (bz b) < 65536.
Proof. pose proof (be_step_arith (bz a) b) as H. unfold be_step in H. pose proof (bz_range a). pose proof (bz_range b). lia. Qed.

(** A complete header keeps the invariant: the length fits and a control frame fits its buffer. *)
Lemma hdr_finish_ok expect d n off d' :
  dec_ok d -> need_header d = false -> 0 <= off <= 10 -> 0 <= n < 2 ^ 63 -> (d_is_control d = true -> n <= WS_CTRL_MAX) ->
  hdr_finish expect (d_set_left d n) off = (true, d') -> dec_ok d' /\ need_header d' = false /\ d_payload_left d' = n.
Proof.
  intros [] Hn Ho Hrn Hc. unfold hdr_finish. wsunfold.
  assert (Hm : blen (if expect then peek off 4 (d_hdr d) else zeros 4) = 4) by (destruct expect; [apply length_peek; lia|done]).
  destruct (d_is_control _) eqn:Hk; [|repeat case_match]; try done; intros [= <-];
    (split_and!; [constructor; cbn -[Z.pow] in *; wsunfold; try solve [done | lia | intuition lia | intros; congruence | intros ? ?; first [by apply ok_short0 | apply Hc; done | specialize (Hc ltac:(done)); lia]]|done..]).
Qed.

Lemma hdr_done_ok expect d d' :
  dec_ok d -> need_header d = false -> hdr_done expect d = (true, d') -> dec_ok d' /\ need_header d' = false.
Proof.
  intros Hd Hn. pose proof (ok_short d Hd) as Hs. unfold hdr_done. pose proof (len7_range (byte_at (d_hdr d) 1)) as Hr. wsunfold.
  pose proof Hn as [Hn1%Z.eqb_neq _]%orb_false_iff. specialize (Hs Hn1).
  set (len7 := Z.land _ 127) in *. clearbody len7. cbn [d_payload_left d_set_left].
  destruct (len7 =? 126) eqn:?; [|destruct (len7 =? 127) eqn:?].
  - destruct (_ <? _); [done|]. intros H. eapply hdr_finish_ok in H as (? & ? & ?); try done; [|intros Hk; specialize (Hs Hk); lia].
    pose proof (be16_range (byte_at (d_hdr d) 2) (byte_at (d_hdr d) 3)). lia.
  - destruct (_ <=? _); [done|]. destruct (negb _) eqn:Hb; [done|]. apply negb_false_iff, Z.eqb_eq in Hb.
    rewrite Z.shiftr_div_pow2 in Hb by lia. pose proof (be64_range (peek 2 8 (d_hdr d))).
    intros H'. eapply hdr_finish_ok in H' as (? & ? & ?); try done; [|intros Hk; specialize (Hs Hk); lia].
    split; [lia|]. apply Z.div_small_iff in Hb; lia.
  - intros H. eapply hdr_finish_ok in H as (? & ? & ?); try done; lia.
Qed.

(** ** The end of a frame *)

Definition reply_ok (r : ws_reply) : Prop :=
  blen (r_buf r) = WS_SRV_HDR_MAX + WS_CTRL_MAX /\ 0 <= r_sent r <= r_len r /\ r_len r <= WS_SRV_HDR_MAX + WS_CTRL_MAX.

Lemma queue_ctrl_ok w op p n :
  reply_ok (ws_r w) -> 0 <= n <= blen p ->
  reply_ok (ws_r (queue_ctrl w op p n)) /\ ws_d (queue_ctrl w op p n) = ws_d w /\ ws_stage (queue_ctrl w op p n) = ws_stage w.
Proof.
  intros (? & ? & ?) Hn. unfold queue_ctrl. destruct (negb _); [done|]. split; [|done]. unfold reply_ok. cbn [ws_r set_reply r_buf r_len r_sent].
  wsunfold. set (n' := if 125 <? n then 125 else n).
  assert (0 <= n' <= 125 /\ n' <= n) by (subst n'; case_match; lia). clearbody n'.
  unfold ws_server_header. destruct (n' <? 126) eqn:?; [|lia]. cbn [length].
  assert (blen (ztake n' p) = n') by (rewrite length_take; lia).
  rewrite !length_poke by (rewrite ?length_poke; cbn [length]; lia). lia.
Qed.

(** The end of a frame returns to a frame boundary. *)
Lemma frame_done_ok w closed w' :
  dec_ok (ws_d w) -> d_payload_left (ws_d w) = 0 -> reply_ok (ws_r w) -> frame_done w = (closed, w') ->
  ws_ok w' /\ ws_stage w' = if closed then WS_STAGE_CLOSED else ws_stage w.
Proof.
  intros Hd Hl Hr. pose proof (ok_ctrl _ Hd). pose proof (ok_ctrl_len _ Hd). wsunfold.
  unfold frame_done.
  assert (Hq : forall op n, 0 <= n <= 125 -> let q := queue_ctrl w op (d_ctrl (ws_d w)) n in
    reply_ok (ws_r q) /\ ws_d q = ws_d w /\ ws_stage q = ws_stage w) by (intros; apply queue_ctrl_ok; [done|lia]).
  assert (Hok : forall q k, reply_ok (ws_r q) -> ws_d q = ws_d w -> 0 <= k <= 125 ->
    ws_ok (set_dec q (d_set_ctrl (d_set_hdr (ws_d q) 0 0) (d_ctrl (ws_d q)) k))).
  { intros q k (? & ? & ?) Hq' Hk. destruct Hd. constructor; cbn -[Z.pow]; rewrite ?Hq'; [constructor; cbn -[Z.pow]|..]; wsunfold;
      try solve [done | lia | intuition lia]. }
  destruct (d_is_control _) eqn:?; [|intros [= <- <-]; split; [by apply Hok|done]].
  destruct (_ =? WS_OP_PING).
  { intros [= <- <-]. destruct (Hq WS_OP_PONG (d_ctrl_len (ws_d w))) as (? & ? & ?); [lia|]. split; [by apply Hok|done]. }
  destruct (_ =? WS_OP_CLOSE).
  2: { intros [= <- <-]. split; [by apply Hok|done]. }
  intros [= <- <-]. destruct (Hq WS_OP_CLOSE (if 2 <=? d_ctrl_len (ws_d w) then 2 else 0)) as (? & Hdw & ?); [case_match; lia|].
  split; [|done]. set (q := queue_ctrl _ _ _ _) in *. apply (Hok (set_stage q WS_STAGE_CLOSED) (d_ctrl_len (ws_d q))); [done..|].
  rewrite Hdw. lia.
Qed.

(** ** The payload *)

(** What the decoder needs of its sink, in the states [good]: a run of bytes is treated like its parts handed over
    one after the other. *)
Class SinkLaw {C} (good : C -> Prop) (sink : C -> list byte -> bool * C) : Prop := {
  sink_nil c : good c -> sink c [] = (true, c);
  sink_app c a b : good c -> match sink c a with
    | (true, c') => (sink c (a ++ b)).1 = (sink c' b).1 /\ ((sink c' b).1 = true -> sink c (a ++ b) = sink c' b)
    | (false, _) => (sink c (a ++ b)).1 = false
    end;
  sink_good c a c' : good c -> sink c a = (true, c') -> good c' }.

Section stream.
Context {C : Type} (good : C -> Prop) (sink : C -> list byte -> bool * C) `{!SinkLaw good sink}.

(** The whole effect of payload bytes, without the cut into runs of 512. *)
Definition absorb (d : ws_dec) (c : C) (data : list byte) : option (ws_dec * C) :=
  let tmp := unmask (d_mask d) (d_mask_off d) data in
  let d' := d_set_mask d (d_mask d) (Z.land (d_mask_off d + blen data) 3) in
  if d_is_control d then
    if WS_CTRL_MAX <? d_ctrl_len d + blen data then None else
    Some (d_set_ctrl d' (poke (d_ctrl_len d) tmp (d_ctrl d)) (d_ctrl_len d + blen data), c)
  else match sink c tmp with (true, c) => Some (d', c) | (false, _) => None end.

Lemma land3_add a b : Z.land (Z.land a 3 + b) 3 = Z.land (a + b) 3.
Proof. change 3 with (Z.ones 2). rewrite !Z.land_ones by lia. apply Zplus_mod_idemp_l. Qed.

Lemma absorb_app d c a b :
  good c -> blen (d_ctrl d) = WS_CTRL_MAX -> 0 <= d_ctrl_len d ->
  absorb d c (a ++ b) = absorb d c a ≫= fun '(d, c) => absorb d c b.
Proof.
  intros Hg Hb Hl. unfold absorb. rewrite length_app, Nat2Z.inj_add, unmask_app. destruct (d_is_control d) eqn:Hk.
  - destruct (WS_CTRL_MAX <? d_ctrl_len d + blen a) eqn:Ha; [destruct (_ <? d_ctrl_len d + (_ + _)) eqn:Hab; [done|]; apply Z.ltb_lt in Ha; apply Z.ltb_ge in Hab; lia|]. cbn [mbind option_bind].
    cbn. rewrite Hk, unmask_land, land3_add, Z.add_assoc. replace (d_ctrl_len d + blen a + blen b) with (d_ctrl_len d + (blen a + blen b)) by lia.
    destruct (WS_CTRL_MAX <? d_ctrl_len d + (blen a + blen b)) eqn:Hab; [done|]. apply Z.ltb_ge in Hab.
    rewrite <-poke_extend; rewrite ?length_unmask; [|lia..]. by rewrite Z.add_assoc.
  - pose proof (sink_app c (unmask (d_mask d) (d_mask_off d) a) (unmask (d_mask d) (d_mask_off d + blen a) b) Hg) as Hs.
    destruct (sink c (unmask _ _ a)) as [[] c']; cbn.
    + rewrite Hk, unmask_land, land3_add, Z.add_assoc. destruct Hs as [H1 H2].
      destruct (sink c' _) as [[] c'']; [by rewrite H2|]. by destruct (sink c _) as [[] ?].
    + by destruct (sink c _) as [[] ?].
Qed.

Lemma absorb_good d c data d' c' : good c -> absorb d c data = Some (d', c') -> good c'.
Proof.
  unfold absorb. intros Hg. destruct (d_is_control d); [case_match; [done|]; by intros [= <- <-]|].
  destruct (sink _ _) as [[] ?] eqn:Hs; [|done]. intros [= <- <-]. by eapply sink_good.
Qed.

Definition payload_out (r : bool * ws_dec * C) : option (ws_dec * C) := if r.1.1 then Some (r.1.2, r.2) else None.

(** The loop over runs of 512 bytes absorbs the data. *)
Lemma payload_loop_absorb fuel d c data :
  good c -> blen (d_ctrl d) = WS_CTRL_MAX -> 0 <= d_ctrl_len d -> data <> [] -> (length data <= fuel)%nat ->
  payload_out (payload_loop sink fuel d c data) = absorb d c data.
Proof.
  revert d c data. induction fuel as [|fuel IH]; intros d c data Hg Hb Hl Hne Hf; [destruct data; [done|cbn in Hf; lia]|].
  assert (Hcut : data = ztake (Z.min (blen data) 512) data ++ zdrop (Z.min (blen data) 512) data) by (symmetry; apply take_drop).
  assert (Hlen : blen (ztake (Z.min (blen data) 512) data) = Z.min (blen data) 512) by (rewrite length_take; lia).
  assert (Hstep : payload_out (payload_loop sink (S fuel) d c data) =
    absorb d c (ztake (Z.min (blen data) 512) data) ≫= fun '(d, c) => payload_out (payload_loop sink fuel d c (zdrop (Z.min (blen data) 512) data))).
  { destruct data; [done|]. cbn [payload_loop]. unfold absorb. rewrite Hlen. cbn [d_is_control d_set_mask d_ctrl_len].
    destruct (d_is_control d); [by case_match|]. by destruct (sink _ _) as [[] ?]. }
  rewrite Hstep. destruct (decide (blen data <= 512)) as [Hs|Hs].
  - rewrite (drop_ge data), (take_ge data) by lia. destruct (absorb d c data) as [[? ?]|]; [|done]. by destruct fuel.
  - rewrite Hcut at 3. rewrite absorb_app by done. destruct (absorb d c (ztake _ data)) as [[d' c']|] eqn:Ha; [|done]. cbn [mbind option_bind].
    assert (blen (d_ctrl d') = WS_CTRL_MAX /\ 0 <= d_ctrl_len d') as [? ?].
    { unfold absorb in Ha. destruct (d_is_control d); [|by destruct (sink _ _) as [[] ?]; simplify_eq].
      rewrite Hlen in Ha. destruct (_ <? _) eqn:Hc in Ha; [done|]. apply Z.ltb_ge in Hc. simplify_eq. cbn.
      rewrite length_poke; rewrite ?length_unmask; lia. }
    assert (Hd : length (zdrop (Z.min (blen data) 512) data) = (length data - 512)%nat) by (rewrite length_drop; lia).
    apply IH; try done; [by eapply absorb_good| |lia]. intros He. rewrite He in Hd. cbn in Hd. lia.
Qed.

Lemma land3_range z : 0 <= Z.land z 3 < 4.
Proof. change 3 with (Z.ones 2). rewrite Z.land_ones by lia. by apply Z.mod_pos_bound. Qed.

Lemma absorb_ok d c data d' c' :
  dec_ok d -> blen data <= d_payload_left d -> absorb d c data = Some (d', c') ->
  d_payload_left d' = d_payload_left d /\ need_header d' = need_header d /\ dec_ok (d_set_left d' (d_payload_left d - blen data)).
Proof.
  intros [] Hn. unfold absorb. pose proof (land3_range (d_mask_off d + blen data)). wsunfold. destruct (d_is_control d) eqn:Hk.
  - destruct (125 <? _) eqn:Hc; [done|]. apply Z.ltb_ge in Hc. intros [= <- <-]. split_and!; [done..|].
    constructor; cbn -[Z.pow] in *; wsunfold; try solve [done | lia | intuition lia].
    rewrite length_poke; rewrite ?length_unmask; lia.
  - destruct (sink _ _) as [[] ?]; [|done]. intros [= <- <-]. split_and!; [done..|].
    constructor; cbn -[Z.pow] in *; wsunfold; try solve [done | lia | intuition lia | congruence].
Qed.

(** ** One byte at a time *)

(** [None] is WS_ERR_PROTOCOL. *)
Definition ws_byte (w : ws_t) (c : C) (x : byte) : option (ws_t * C) :=
  let d := ws_d w in
  let finish w c := if d_payload_left (ws_d w) =? 0 then Some ((frame_done w).2, c) else Some (w, c) in
  if need_header d then
    match hdr_step (ws_expect_mask w) d x with
    | (false, _) => None
    | (true, d) =>
      if need_header d then Some (set_dec w d, c) else
      match hdr_done (ws_expect_mask w) d with (false, _) => None | (true, d) => finish (set_dec w d) c end
    end
  else absorb d c [x] ≫= fun '(d, c) => finish (set_dec w (d_set_left d (d_payload_left d - 1))) c.

Fixpoint ws_bytes (w : ws_t) (c : C) (data : list byte) : option (ws_t * C) :=
  match data with
  | [] => Some (w, c)
  | x :: data => if bool_decide (ws_stage w = WS_STAGE_CLOSED) then Some (w, c) else ws_byte w c x ≫= fun '(w, c) => ws_bytes w c data
  end.

Lemma ws_ok_reply w : ws_ok w -> reply_ok (ws_r w).
Proof. intros []. unfold reply_ok. intuition. Qed.

Lemma finish_ok w :
  dec_ok (ws_d w) -> need_header (ws_d w) = false -> reply_ok (ws_r w) ->
  if d_payload_left (ws_d w) =? 0 then ws_ok (frame_done w).2 /\ (frame_done w).2.(ws_stage) = (if (frame_done w).1 then WS_STAGE_CLOSED else ws_stage w)
  else ws_ok w.
Proof.
  intros Hd Hn Hr. destruct (_ =? 0) eqn:Hz.
  - apply Z.eqb_eq in Hz. destruct (frame_done w) as [cl w'] eqn:Hf. by eapply frame_done_ok.
  - destruct Hr as (? & ? & ?). constructor; try done. by rewrite Hz, Hn.
Qed.

(** A byte keeps the invariant. *)
Lemma ws_byte_ok w c x w' c' :
  ws_ok w -> ws_stage w = WS_STAGE_OPEN -> ws_byte w c x = Some (w', c') -> ws_ok w' /\ ws_stage w' <> WS_STAGE_UPGRADE.
Proof.
  intros Hw Hs. pose proof (ws_ok_reply w Hw) as Hr. destruct Hw as [Hd Hph Hbuf Hrep]. unfold ws_byte.
  assert (Hfin : forall d c, dec_ok d -> need_header d = false ->
    (if d_payload_left d =? 0 then Some ((frame_done (set_dec w d)).2, c) else Some (set_dec w d, c)) = Some (w', c') ->
    ws_ok w' /\ ws_stage w' <> WS_STAGE_UPGRADE).
  { intros d c0 Hd' Hn' Heq. pose proof (finish_ok (set_dec w d) Hd' Hn' Hr) as H. cbn [ws_d set_dec] in *.
    destruct (d_payload_left d =? 0); injection Heq as <- <-; [|split; [done|cbn; by rewrite Hs]]. destruct H as [? ->]. split; [done|].
    case_match; [done|]. cbn. by rewrite Hs. }
  destruct (need_header (ws_d w)) eqn:Hn.
  - destruct (hdr_step _ _ _) as [[] d'] eqn:Hst; [|done]. apply hdr_step_ok in Hst as [Hd' Hl']; [|done|by apply Z.eqb_eq|done].
    destruct (need_header d') eqn:Hn'.
    + intros [= <- <-]. split; [|cbn; by rewrite Hs]. constructor; cbn; try done. by rewrite Hl', Hn'.
    + destruct (hdr_done _ _) as [[] d''] eqn:Hdn; [|done]. apply hdr_done_ok in Hdn as [? ?]; [|done..]. by apply Hfin.
  - destruct (absorb (ws_d w) c [x]) as [[d' c0]|] eqn:Ha; [|done]. cbn [mbind option_bind]. pose proof (ok_left _ Hd).
    apply absorb_ok in Ha as (Hl & Hn' & Hok); [|done|cbn; lia]. cbn [ws_d set_dec].
    rewrite Hl. apply Hfin; [done|]. by rewrite <-Hn, <-Hn'.
Qed.

Definition outcome (r : ws_status_t * ws_t * C) : option (ws_t * C) :=
  match r with (WS_ERR_PROTOCOL, _, _) => None | (_, w, c) => Some (w, c) end.

Definition cont (fuel : nat) (r : ws_status_t * ws_t * C + ws_t * C * list byte) : ws_status_t * ws_t * C :=
  match r with inl r => r | inr (w, c, rest) => ws_loop sink fuel w c rest end.

(** What follows the payload bytes of a round. *)
Definition after (fuel : nat) (w : ws_t) (c : C) (rest : list byte) : option (ws_t * C) :=
  if d_payload_left (ws_d w) =? 0 then
    let '(closed, w) := frame_done w in if closed then Some (w, c) else outcome (ws_loop sink fuel w c rest)
  else Some (w, c).

Lemma absorb_set_left d c data n :
  absorb (d_set_left d n) c data = absorb d c data ≫= fun '(d, c) => Some (d_set_left d n, c).
Proof. unfold absorb. cbn. destruct (d_is_control d); [by case_match|]. by destruct (sink _ _) as [[] ?]. Qed.

Lemma absorb_left d c data d' c' : absorb d c data = Some (d', c') -> d_payload_left d' = d_payload_left d.
Proof.
  unfold absorb. destruct (d_is_control d); [case_match; [done|]; by intros [= <- <-]|].
  destruct (sink _ _) as [[] ?]; [|done]. by intros [= <- <-].
Qed.

Lemma round_payload fuel w c data :
  good c -> ws_ok w -> need_header (ws_d w) = false -> data <> [] ->
  let take_ := Z.min (blen data) (d_payload_left (ws_d w)) in
  outcome (cont fuel (ws_round sink w c data)) =
  absorb (ws_d w) c (ztake take_ data) ≫= fun '(d, c) =>
    after fuel (set_dec w (d_set_left d (d_payload_left (ws_d w) - take_))) c (zdrop take_ data).
Proof.
  intros Hg [[] Hph _ _] Hn Hne take_. unfold ws_round. rewrite Hn, andb_false_r in *. apply Z.eqb_neq in Hph. fold take_.
  assert (0 < blen data) by (destruct data; [done|cbn [length]; lia]).
  assert (Htk : length (ztake take_ data) = Z.to_nat take_) by (rewrite length_take; subst take_; lia).
  rewrite <-(payload_loop_absorb (length data)); [|done|done|lia|intros He; rewrite He in Htk; cbn in Htk; lia|lia].
  destruct (payload_loop _ _ _ _ _) as [[[] d'] c'] eqn:Hp; [|done]. cbn [negb payload_out fst snd mbind option_bind].
  assert (Hl : d_payload_left d' = d_payload_left (ws_d w)).
  { apply (absorb_left (ws_d w) c (ztake take_ data) d' c'). rewrite <-(payload_loop_absorb (length data)), Hp;
      [done..|lia|intros He; rewrite He in Htk; cbn in Htk; lia|lia]. }
  unfold after. rewrite Hl. cbn [ws_d set_dec d_payload_left d_set_left]. destruct (_ - _ =? 0); [|done]. cbn [negb].
  by destruct (frame_done _) as [[] ?].
Qed.

(** The end of a frame inside [ws_byte] and inside the loop. *)
Lemma after_bytes fuel w c rest :
  ws_stage w = WS_STAGE_OPEN -> dec_ok (ws_d w) -> need_header (ws_d w) = false -> reply_ok (ws_r w) ->
  (forall w, ws_ok w -> ws_stage w = WS_STAGE_OPEN -> outcome (ws_loop sink fuel w c rest) = ws_bytes w c rest) ->
  (d_payload_left (ws_d w) <> 0 -> rest = []) ->
  after fuel w c rest = (if d_payload_left (ws_d w) =? 0 then Some ((frame_done w).2, c) else Some (w, c)) ≫= fun '(w, c) => ws_bytes w c rest.
Proof.
  intros Hs Hd Hn Hr IH Hrest. unfold after. pose proof (finish_ok w Hd Hn Hr) as Hok.
  destruct (Z.eqb_spec (d_payload_left (ws_d w)) 0); [|cbn; by rewrite Hrest].
  destruct (frame_done w) as [[] w'], Hok as [? Hst]; cbn in *; [|apply IH; congruence].
  destruct rest; cbn; [done|]. by rewrite bool_decide_true.
Qed.

(** Both phases of a round against [ws_byte], given that the loop follows [ws_bytes] on the rest. *)
Section round.
Context (w : ws_t) (c : C) (x : byte) (rest : list byte) (fuel : nat).
Context (Hg : good c) (Hw : ws_ok w) (Hs : ws_stage w = WS_STAGE_OPEN) (Hf : (length rest <= fuel)%nat).
Context (IH : forall w c fuel, good c -> ws_ok w -> ws_stage w = WS_STAGE_OPEN -> (length rest <= fuel)%nat ->
  outcome (ws_loop sink fuel w c rest) = ws_bytes w c rest).

Lemma header_bytes :
  need_header (ws_d w) = true ->
  outcome (cont fuel (ws_round sink w c (x :: rest))) = ws_byte w c x ≫= fun '(w, c) => ws_bytes w c rest.
Proof.
  intros Hn. pose proof (ws_ok_reply w Hw) as Hr. pose proof (ok_dec w Hw) as Hd. pose proof (ok_phase w Hw) as Hph. rewrite Hn in Hph.
  unfold ws_byte, ws_round. rewrite Hph, Hn. cbn [andb]. pose proof (hdr_loop_cons (ws_expect_mask w) (ws_d w) x rest Hn) as Hc.
  destruct (hdr_step _ _ _) as [[] d1] eqn:Hst; destruct Hc as [Hc1 Hc2]; [clear Hc2; rewrite Hc1 by done|clear Hc1].
  2: { specialize (Hc2 eq_refl). by destruct (hdr_loop _ _ _) as [[[] ?] ?]. }
  apply hdr_step_ok in Hst as [Hd1 Hl1]; [|done|by apply Z.eqb_eq|done].
  destruct (need_header d1) eqn:Hn1.
  - destruct rest as [|y r]; [by cbn; rewrite Hn1|]. cbn [mbind option_bind].
    rewrite <-(IH (set_dec w d1) c (S fuel)); [|done|constructor; [done|cbn; by rewrite Hl1, Hn1|apply Hr..]|done|lia].
    cbn [ws_loop]. unfold ws_round at 1. cbn [ws_d set_dec]. by rewrite Hl1, Hn1.
  - rewrite hdr_loop_stop, Hn1 by done. cbn [negb].
    destruct (hdr_done _ _) as [[] d2] eqn:Hdn; [|done]. apply hdr_done_ok in Hdn as [Hd2 Hn2]; [|done..]. cbn [negb].
    destruct (Z.eqb_spec (d_payload_left d2) 0) as [Hz|Hz].
    + rewrite <-(after_bytes fuel (set_dec w d2) c rest); [|done..|intros; apply IH; done || lia|done].
      unfold after. cbn [ws_d set_dec]. rewrite Hz. by destruct (frame_done _) as [[] ?].
    + cbn [ws_d set_dec]. rewrite (proj2 (Z.eqb_neq _ _) Hz). cbn. apply IH; [done| |done|lia].
      constructor; [done|cbn; by rewrite (proj2 (Z.eqb_neq _ _) Hz), Hn2|apply Hr..].
Qed.

Lemma payload_bytes :
  need_header (ws_d w) = false ->
  outcome (cont fuel (ws_round sink w c (x :: rest))) = ws_byte w c x ≫= fun '(w, c) => ws_bytes w c rest.
Proof.
  intros Hn. pose proof (ws_ok_reply w Hw) as Hr. pose proof (ok_dec w Hw) as Hd. pose proof (ok_phase w Hw) as Hph.
  rewrite Hn in Hph. apply Z.eqb_neq in Hph. pose proof (ok_left _ Hd).
  rewrite round_payload by done. unfold ws_byte. rewrite Hn. set (left := d_payload_left (ws_d w)) in *.
  cbn [length]. set (take_ := Z.min _ _). destruct (decide (take_ = 1)) as [H1|H1].
  - rewrite H1. change (ztake 1 (x :: rest)) with [x]. change (zdrop 1 (x :: rest)) with rest.
    destruct (absorb (ws_d w) c [x]) as [[d1 c1]|] eqn:Ha; [|done]. cbn [mbind option_bind]. pose proof (absorb_good _ _ _ _ _ Hg Ha).
    apply absorb_ok in Ha as (Hl & Hn1 & Hok); [|done|cbn; lia]. fold left in Hl, Hok. rewrite Hl. rewrite Hn in Hn1.
    apply (after_bytes fuel (set_dec w (d_set_left d1 (left - 1)))); [done..|intros; by apply IH|].
    cbn. intros. destruct rest; [done|]. cbn [length] in *. lia.
  - assert (Htk : ztake take_ (x :: rest) = [x] ++ ztake (take_ - 1) rest).
    { replace (Z.to_nat take_) with (S (Z.to_nat (take_ - 1))) by lia. done. }
    assert (Hdr : zdrop take_ (x :: rest) = zdrop (take_ - 1) rest).
    { replace (Z.to_nat take_) with (S (Z.to_nat (take_ - 1))) by lia. done. }
    rewrite Htk, Hdr, absorb_app by (done || apply Hd || apply (ok_ctrl_len _ Hd)).
    destruct (absorb (ws_d w) c [x]) as [[d1 c1]|] eqn:Ha; [|done]. cbn [mbind option_bind]. pose proof (absorb_good _ _ _ _ _ Hg Ha).
    apply absorb_ok in Ha as (Hl & Hn1 & Hok); [|done|cbn; lia]. fold left in Hl, Hok. rewrite Hl. rewrite Hn in Hn1. cbn [length] in Hok.
    cbn [ws_d set_dec d_payload_left d_set_left]. destruct (Z.eqb_spec (left - 1) 0); [lia|]. cbn [mbind option_bind].
    set (w1 := set_dec w (d_set_left d1 (left - 1))). assert (Hw1 : ws_ok w1).
    { constructor; [done| |apply Hr..]. cbn. change (need_header (d_set_left d1 (left - 1))) with (need_header d1). rewrite Hn1.
      by apply Z.eqb_neq. }
    rewrite <-(IH w1 c1 (S fuel)) by (done || lia). destruct rest as [|y r]; [cbn [length] in *; lia|].
    change (ws_loop sink (S fuel) w1 c1 (y :: r)) with (cont fuel (ws_round sink w1 c1 (y :: r))).
    rewrite round_payload by done. subst w1. cbn [ws_d set_dec d_payload_left d_set_left].
    replace (Z.min (blen (y :: r)) (left - 1)) with (take_ - 1) by (cbn [length] in *; lia). rewrite absorb_set_left.
    destruct (absorb d1 c1 _) as [[d2 c2]|]; [|done]. cbn [mbind option_bind].
    by replace (left - 1 - (take_ - 1)) with (left - take_) by lia.
Qed.
End round.

(** The loop of [ws_consume] takes the bytes one at a time. *)
Lemma ws_loop_bytes data w c fuel :
  good c -> ws_ok w -> ws_stage w = WS_STAGE_OPEN -> (length data <= fuel)%nat -> outcome (ws_loop sink fuel w c data) = ws_bytes w c data.
Proof.
  revert w c fuel. induction data as [|x rest IH]; intros w c fuel Hg Hw Hs Hf; [by destruct fuel|].
  destruct fuel as [|fuel]; [cbn in Hf; lia|]. change (outcome (cont fuel (ws_round sink w c (x :: rest))) = ws_bytes w c (x :: rest)).
  cbn [length] in Hf. cbn [ws_bytes]. rewrite bool_decide_false by congruence.
  destruct (need_header (ws_d w)) eqn:Hn; [apply header_bytes|apply payload_bytes]; done || lia.
Qed.

(** ** Any cut of the stream *)

(** The result of a call, without the state an error leaves behind. *)
Definition settled (r : ws_status_t * option ws_t * C) : option (ws_status_t * ws_t * C) :=
  match r with (WS_ERR_PROTOCOL, _, _) | (_, None, _) => None | (st, Some w, c) => Some (st, w, c) end.

(** The caller's reads handed over one after the other, until one is refused. *)
Fixpoint ws_reads (w : ws_t) (c : C) (chunks : list (list byte)) : option (ws_t * C) :=
  match chunks with
  | [] => Some (w, c)
  | p :: chunks => settled (ws_consume (Some sink) (Some w) (Some p) (blen p) c) ≫= fun '(_, w, c) => ws_reads w c chunks
  end.

Lemma ws_bytes_app w c a b : ws_bytes w c (a ++ b) = ws_bytes w c a ≫= fun '(w, c) => ws_bytes w c b.
Proof.
  revert w c. induction a as [|x a IH]; intros w c; [done|]. cbn. destruct (bool_decide _) eqn:Hb.
  - destruct b; cbn; [done|by rewrite Hb].
  - destruct (ws_byte w c x) as [[w' c']|]; [apply IH|done].
Qed.

Lemma ws_byte_good w c x w' c' : good c -> ws_byte w c x = Some (w', c') -> good c'.
Proof.
  intros Hg. unfold ws_byte. destruct (need_header (ws_d w)).
  - destruct (hdr_step _ _ _) as [[] d]; [|done]. destruct (need_header d); [by intros [= <- <-]|].
    destruct (hdr_done _ _) as [[] d']; [|done]. case_match; by intros [= <- <-].
  - destruct (absorb _ _ _) as [[d c1]|] eqn:Ha; [|done]. apply absorb_good in Ha; [|done]. cbn. case_match; by intros [= <- <-].
Qed.

Lemma ws_bytes_ok data w c w' c' :
  good c -> ws_ok w -> ws_stage w <> WS_STAGE_UPGRADE -> ws_bytes w c data = Some (w', c') ->
  good c' /\ ws_ok w' /\ ws_stage w' <> WS_STAGE_UPGRADE.
Proof.
  revert w c. induction data as [|x data IH]; intros w c Hg Hw Hs; cbn; [by intros [= <- <-]|].
  case_bool_decide; [by intros [= <- <-]|]. destruct (ws_byte w c x) as [[w1 c1]|] eqn:Hb; [|done]. cbn.
  pose proof (ws_byte_good _ _ _ _ _ Hg Hb). apply ws_byte_ok in Hb as [? ?]; [by apply IH|done|]. by destruct (ws_stage w).
Qed.

Lemma frame_done_stage w : ws_stage (frame_done w).2 = if (frame_done w).1 then WS_STAGE_CLOSED else ws_stage w.
Proof.
  unfold frame_done. destruct (d_is_control _); [|done]. destruct (_ =? WS_OP_PING); [|by destruct (_ =? WS_OP_CLOSE)].
  cbn. unfold queue_ctrl. by destruct (negb _).
Qed.

(** WS_OK reports exactly that the peer has closed. *)
Definition status_of (w : ws_t) : ws_status_t := if bool_decide (ws_stage w = WS_STAGE_CLOSED) then WS_OK else WS_NEED_MORE.

Lemma ws_round_status w c data :
  ws_stage w = WS_STAGE_OPEN ->
  match ws_round sink w c data with
  | inl (st, w', _) => st = WS_ERR_PROTOCOL \/ st = status_of w'
  | inr (w', _, _) => ws_stage w' = WS_STAGE_OPEN
  end.
Proof.
  intros Hs. assert (Hfin : forall d c rest, match
    (let '(closed, w) := frame_done (set_dec w d) in if closed then inl (WS_OK, w, c) else inr (w, c, rest))
      : ws_status_t * ws_t * C + ws_t * C * list byte with
    | inl (st, w', _) => st = WS_ERR_PROTOCOL \/ st = status_of w'
    | inr (w', _, _) => ws_stage w' = WS_STAGE_OPEN
    end).
  { intros d c0 rest. pose proof (frame_done_stage (set_dec w d)) as H. unfold status_of. destruct (frame_done _) as [[] w']; cbn in *.
    - right. by rewrite H.
    - congruence. }
  unfold ws_round. destruct (_ && _).
  - destruct (hdr_loop _ _ _) as [[[] d1] r]; cbn; [|by left]. destruct (need_header d1); [right; unfold status_of; cbn; by rewrite Hs|].
    destruct (hdr_done _ _) as [[] d2]; cbn; [|by left]. destruct (_ =? 0); [apply Hfin|done].
  - destruct (payload_loop _ _ _ _ _) as [[[] d1] c1]; cbn; [|by left]. destruct (_ =? 0); cbn; [apply Hfin|].
    right. unfold status_of. cbn. by rewrite Hs.
Qed.

Lemma ws_loop_status fuel w c data :
  ws_stage w = WS_STAGE_OPEN ->
  let '(st, w', _) := ws_loop sink fuel w c data in st = WS_ERR_PROTOCOL \/ st = status_of w'.
Proof.
  revert w c data. induction fuel as [|fuel IH]; intros w c data Hs; [by right; unfold status_of; rewrite Hs|].
  destruct data as [|x data]; [by right; unfold status_of; rewrite Hs|]. cbn [ws_loop].
  pose proof (ws_round_status w c (x :: data) Hs) as H. destruct (ws_round _ _ _ _) as [[[st w'] c']|[[w' c'] rest]]; [done|by apply IH].
Qed.

(** A call of [ws_consume] is a run of the byte machine. *)
Lemma ws_consume_bytes w c p :
  good c -> ws_ok w -> ws_stage w <> WS_STAGE_UPGRADE ->
  settled (ws_consume (Some sink) (Some w) (Some p) (blen p) c) = ws_bytes w c p ≫= fun '(w, c) => Some (status_of w, w, c).
Proof.
  intros Hg Hw Hs. unfold ws_consume. rewrite (bool_decide_false (Some p = None)) by done. cbn [andb default].
  destruct (decide (ws_stage w = WS_STAGE_CLOSED)) as [Hc|Hc].
  { rewrite bool_decide_true by done. assert (ws_bytes w c p = Some (w, c)) as -> by (destruct p; cbn; [done|by rewrite bool_decide_true]).
    cbn. unfold status_of. by rewrite bool_decide_true. }
  assert (Ho : ws_stage w = WS_STAGE_OPEN) by (by destruct (ws_stage w)).
  rewrite bool_decide_false, bool_decide_true by done. cbn [negb from_option id]. rewrite take_all_z by done.
  rewrite <-(ws_loop_bytes p w c (length p)) by done. pose proof (ws_loop_status (length p) w c p Ho) as H.
  destruct (ws_loop _ _ _ _ _) as [[st w'] c']. destruct H as [->| ->]; [done|].
  assert (Hst : status_of w' = WS_OK \/ status_of w' = WS_NEED_MORE) by (unfold status_of; case_bool_decide; auto).
  destruct Hst as [Hst|Hst]; rewrite Hst; cbn -[status_of]; by rewrite Hst.
Qed.

Lemma ws_reads_bytes w c chunks :
  good c -> ws_ok w -> ws_stage w <> WS_STAGE_UPGRADE -> ws_reads w c chunks = ws_bytes w c (concat chunks).
Proof.
  revert w c. induction chunks as [|p chunks IH]; intros w c Hg Hw Hs; [done|]. cbn [ws_reads concat].
  rewrite ws_consume_bytes, ws_bytes_app by done. destruct (ws_bytes w c p) as [[w1 c1]|] eqn:Hb; [|done]. cbn.
  apply ws_bytes_ok in Hb as (? & ? & ?); [|done..]. by apply IH.
Qed.

(** However the bytes of a connection are cut into reads, the decoder delivers the same data and reaches the
    same state as when they arrive at once (or refuses in both cases); every reached state keeps the invariant of
    the buffers, and WS_OK is returned exactly when the peer has closed. *)
Theorem ws_chunking w c chunks :
  good c -> ws_ok w -> ws_stage w <> WS_STAGE_UPGRADE ->
  let whole := settled (ws_consume (Some sink) (Some w) (Some (concat chunks)) (blen (concat chunks)) c) in
  ws_reads w c chunks = whole ≫= (fun '(_, w, c) => Some (w, c)) /\
  forall st w' c', whole = Some (st, w', c') -> ws_ok w' /\ (st = WS_OK <-> ws_stage w' = WS_STAGE_CLOSED).
Proof.
  intros Hg Hw Hs whole. subst whole. rewrite ws_consume_bytes by done. split.
  - rewrite ws_reads_bytes by done. by destruct (ws_bytes _ _ _) as [[? ?]|].
  - intros st w' c' H. destruct (ws_bytes w c (concat chunks)) as [[w1 c1]|] eqn:Hb; [|done]. cbn in H. injection H as <- <- <-.
    apply ws_bytes_ok in Hb as (? & ? & ?); [|done..]. split; [done|]. unfold status_of. case_bool_decide; naive_solver.
Qed.

End stream.

(** ** A concrete connection *)

(** A server-side connection just after its upgrade. *)
Definition ws_open : ws_t := set_stage ws_init WS_STAGE_OPEN.

(** A sink with room for four bytes. *)
Definition small_sink (c p : list byte) : bool * list byte :=
  if (length c + length p <=? 4)%nat then (true, c ++ p) else (false, c).
#[global] Instance small_sink_law : SinkLaw (fun c => (length c <= 4)%nat) small_sink.
Proof.
  unfold small_sink. split.
  - intros c Hc. rewrite app_nil_r. cbn. by destruct (Nat.leb_spec (length c + 0) 4); [|lia].
  - intros c a b Hc. rewrite length_app. destruct (Nat.leb_spec (length c + length a) 4); rewrite ?length_app, <-?app_assoc, ?Nat.add_assoc;
      destruct (Nat.leb_spec (length c + length a + length b) 4); done || lia.
  - intros c a c' Hc. destruct (Nat.leb_spec (length c + length a) 4); [|done]. intros [= <-]. rewrite length_app. lia.
Qed.

Lemma ws_chunking_witness :
  let p := [x82; x83; x01; x02; x03; x04; x60; x60; x60] in
  exists w', ws_reads small_sink ws_open [] [[x82; x83; x01]; [x02; x03; x04; x60]; []; [x60; x60]] = Some (w', [x61; x62; x63]) /\
    ws_consume (Some small_sink) (Some ws_open) (Some p) 9 [] = (WS_NEED_MORE, Some w', [x61; x62; x63]).
Proof.
  destruct (ws_chunking (fun c => (length c <= 4)%nat) small_sink ws_open [] [[x82; x83; x01]; [x02; x03; x04; x60]; []; [x60; x60]]) as [H _].
  - cbn. lia.
  - constructor; [|done..]. constructor; cbn; wsunfold; done || lia.
  - done.
  - eexists. split; [rewrite H; by vm_compute|by vm_compute].
Defined.
