(* ===== verification/WsRoundtrip.v ===== *)
(** * Round trips of the WebSocket codec

    Frames written by the client are delivered by the daemon's decoder, however
    the stream is cut; a ping is answered by its echo; frames written by the
    server are delivered by the client's reader. *)

From S2P Require Import Prelude Ws WsProps.

#[local] Arguments byte_at : simpl never.
#[local] Arguments unmask : simpl never.
#[local] Arguments poke : simpl never.
#[local] Arguments peek : simpl never.

(** The first bytes of a header and its length field. *)
Definition op_ok (op : Z) : Prop := op = WS_OP_BINARY \/ op = WS_OP_CLOSE \/ op = WS_OP_PING \/ op = WS_OP_PONG.

Lemma head_byte op : op_ok op -> bz (u8 (Z.lor 128 (Z.land op 15))) = 128 + op.
Proof. intros [->|[->|[->| ->]]]; reflexivity. Qed.

Definition len7 (n : Z) : Z := if n <? 126 then n else if n <=? 65535 then 126 else 127.
Definition len_ext (n : Z) : list byte := if n <? 126 then [] else if n <=? 65535 then be_enc 2 n else be_enc 8 n.

Lemma server_header_eq n op :
  0 <= n -> ws_server_header n op = u8 (Z.lor 128 (Z.land op 15)) :: u8 (len7 n) :: len_ext n.
Proof.
  intros. unfold ws_server_header, len7, len_ext. destruct (n <? 126); [done|]. destruct (n <=? 65535); [|].
  - by rewrite <-be16_bytes.
  - cbn. done.
Qed.

Lemma len7_bounds n : 0 <= n -> 0 <= len7 n < 128.
Proof. intros. unfold len7. destruct (n <? 126) eqn:?; [lia|]. by case_match. Qed.

(** The second byte with and without the mask bit. *)
Lemma second_byte (k : Z) (e : bool) :
  0 <= k < 128 ->
  let b := u8 (if e then Z.lor (bz (u8 k)) 128 else k) in Z.land (bz b) 127 = k /\ negb (Z.land (bz b) 128 =? 0) = e.
Proof.
  intros Hk. assert (Hall : forallb (fun i => forallb (fun e : bool =>
    let b := u8 (if e then Z.lor (bz (u8 (Z.of_nat i))) 128 else Z.of_nat i) in
    (Z.land (bz b) 127 =? Z.of_nat i) && Bool.eqb (negb (Z.land (bz b) 128 =? 0)) e) [true; false]) (seq 0 128) = true) by (vm_compute; reflexivity).
  rewrite forallb_forall in Hall. specialize (Hall (Z.to_nat k)). rewrite in_seq in Hall. rewrite Z2Nat.id in Hall by lia.
  specialize (Hall ltac:(lia)). rewrite forallb_forall in Hall. specialize (Hall e).
  destruct (andb_prop _ _ (Hall ltac:(destruct e; cbn; auto))) as [H1 H2]. cbv zeta in *. by apply Z.eqb_eq in H1; apply eqb_prop in H2.
Qed.

(** ** Headers through the decoder *)

(** The frame a peer sends, masked with [m] when [e]. *)
Definition frame_head (e : bool) (op n : Z) (m : list byte) : list byte :=
  u8 (Z.lor 128 (Z.land op 15)) :: u8 (if e then Z.lor (bz (u8 (len7 n))) 128 else len7 n) :: len_ext n ++ (if e then m else []).
Definition frame_body (e : bool) (m p : list byte) : list byte := if e then unmask m 0 p else p.
Definition frame (e : bool) (op : Z) (m p : list byte) : list byte := frame_head e op (blen p) m ++ frame_body e m p.

(** The rest of a header whose length is known is staged. *)
Lemma hdr_loop_rest e d bs rest :
  2 <= d_hdr_len d -> d_hdr_need d = d_hdr_len d + blen bs -> d_hdr_need d <= WS_HDR_MAX -> blen (d_hdr d) = WS_HDR_MAX ->
  hdr_loop e d (bs ++ rest) = (true, WsDec (poke (d_hdr_len d) bs (d_hdr d)) (d_hdr_need d) (d_hdr_need d) (d_payload_left d) (d_mask d)
    (d_mask_off d) (d_opcode d) (d_is_control d) (d_in_message d) (d_ctrl d) (d_ctrl_len d), rest).
Proof.
  revert d. induction bs as [|b bs IH]; intros d Hl Hn Hm Hh; wsunfold.
  - rewrite hdr_loop_stop; [|unfold need_header; cbn in *; apply orb_false_iff; lia]. rewrite poke_nil by lia. cbn in Hn.
    destruct d; cbn in *. by replace d_hdr_len with d_hdr_need by lia.
  - cbn [length] in Hn. change ((b :: bs) ++ rest) with (b :: (bs ++ rest)). cbn [hdr_loop].
    replace (need_header d) with true by (symmetry; unfold need_header; apply orb_true_iff; lia).
    destruct (_ <=? _) eqn:?; [wsunfold; lia|]. cbn [d_push d_hdr_len]. destruct (_ =? 2) eqn:?; [lia|].
    rewrite IH; cbn [d_push d_hdr_len d_hdr_need d_hdr d_payload_left d_mask d_mask_off d_opcode d_is_control d_in_message d_ctrl d_ctrl_len];
      wsunfold; try lia; [|rewrite length_poke; cbn [length]; lia].
    rewrite (poke_extend _ [b] bs) by (cbn [length]; lia). done.
Qed.

Definition at_boundary (w : ws_t) : Prop :=
  ws_ok w /\ ws_stage w = WS_STAGE_OPEN /\ d_hdr_len (ws_d w) = 0 /\ d_hdr_need (ws_d w) = 0 /\ d_in_message (ws_d w) = false.

(** The decoder's state after a header. *)
Definition headed (d : ws_dec) (h : list byte) (op : Z) : ws_dec :=
  WsDec (poke 0 h (d_hdr d)) (blen h) (blen h) (d_payload_left d) (d_mask d) (d_mask_off d) op (negb (Z.land op 8 =? 0))
    (d_in_message d) (d_ctrl d) (d_ctrl_len d).

Lemma length_len_ext n : blen (len_ext n) = if len7 n =? 126 then 2 else if len7 n =? 127 then 8 else 0.
Proof.
  unfold len_ext, len7. destruct (n <? 126) eqn:?; [|by destruct (n <=? 65535)].
  destruct (n =? 126) eqn:?; [lia|]. destruct (n =? 127) eqn:?; [lia|done].
Qed.

Definition kind_ok (op n : Z) : Prop := op_ok op /\ (op <> WS_OP_BINARY -> n <= WS_CTRL_MAX) /\ 0 <= n < 2 ^ 63.

Lemma hdr_second_frame e d op n :
  kind_ok op n -> bz (byte_at (d_hdr d) 0) = 128 + op ->
  Z.land (bz (byte_at (d_hdr d) 1)) 127 = len7 n -> negb (Z.land (bz (byte_at (d_hdr d) 1)) 128 =? 0) = e ->
  hdr_second e d = (true, d_set_kind d (2 + (if e then 4 else 0) + blen (len_ext n)) op (negb (Z.land op 8 =? 0))).
Proof.
  intros (Hop & Hc & Hn) H0 H7 H8. unfold hdr_second. rewrite H0, H7, H8, length_len_ext.
  rewrite Bool.eqb_reflx. cbn [negb]. wsunfold.
  assert (Hs : op <> WS_OP_BINARY -> (125 <? len7 n) = false).
  { intros Hb. specialize (Hc Hb). unfold len7. destruct (n <? 126) eqn:?; lia. }
  destruct Hop as [->|[->|[->| ->]]]; cbn; rewrite ?Hs by done; done.
Qed.

Lemma hdr_loop_frame e d op n m rest :
  kind_ok op n -> blen m = 4 -> d_hdr_len d = 0 -> d_hdr_need d = 0 -> blen (d_hdr d) = WS_HDR_MAX ->
  hdr_loop e d (frame_head e op n m ++ rest) = (true, headed d (frame_head e op n m) op, rest).
Proof.
  intros Hk Hm Hl0 Hn0 Hh. unfold frame_head. pose proof Hk as (Hop & _ & Hn).
  destruct (second_byte (len7 n) e (len7_bounds n ltac:(lia))) as [H7 H8]. pose proof (head_byte op Hop) as H0.
  set (b0 := u8 (Z.lor 128 _)) in *. set (b1 := u8 (if e then _ else _)) in *. set (bs := len_ext n ++ _).
  assert (Hb : forall z, hdr_loop e d ((b0 :: b1 :: z) ++ rest) =
    hdr_loop e (d_set_kind (WsDec (poke 0 [b0; b1] (d_hdr d)) 2 0 (d_payload_left d) (d_mask d) (d_mask_off d) (d_opcode d) (d_is_control d)
      (d_in_message d) (d_ctrl d) (d_ctrl_len d)) (2 + (if e then 4 else 0) + blen (len_ext n)) op (negb (Z.land op 8 =? 0))) (z ++ rest)).
  { intros z. pose proof (hdr_loop_cons e d b0 (b1 :: z ++ rest)) as H. unfold need_header, hdr_step in H. cbn [d_push d_hdr_len] in H.
    rewrite Hn0, Hl0 in H. cbn [Z.eqb orb WS_HDR_MAX Z.leb Z.compare Z.add] in H. change ((b0 :: b1 :: z) ++ rest) with (b0 :: b1 :: z ++ rest).
    rewrite (proj1 (H eq_refl) eq_refl). clear H.
    pose proof (hdr_loop_cons e (d_push d b0) b1 (z ++ rest)) as H. unfold need_header, hdr_step in H.
    cbn [d_push d_hdr_len d_hdr_need] in H. rewrite Hn0, Hl0 in H.
    change (WS_HDR_MAX <=? 0 + 1) with false in H. change (0 + 1 + 1 =? 2) with true in H. cbv iota in H.
    assert (Hd2 : d_push (d_push d b0) b1 = WsDec (poke 0 [b0; b1] (d_hdr d)) 2 0 (d_payload_left d) (d_mask d) (d_mask_off d) (d_opcode d)
      (d_is_control d) (d_in_message d) (d_ctrl d) (d_ctrl_len d)).
    { unfold d_push. cbn. by rewrite Hl0, Hn0, (poke_append [b0] [b1]). }
    rewrite Hd2, (hdr_second_frame _ _ op n) in H; [|done|exact H0|exact H7|exact H8]. by apply H. }
  assert (Hbs : blen bs = (if e then 4 else 0) + blen (len_ext n)) by (subst bs; rewrite length_app; destruct e; cbn [length]; lia).
  assert (Hx : blen (len_ext n) <= 8) by (rewrite length_len_ext; repeat case_match; lia).
  rewrite Hb, hdr_loop_rest; cbn [d_set_kind d_hdr_len d_hdr_need d_hdr]; wsunfold.
  - rewrite (poke_append [b0; b1]) by done. unfold headed. cbn -[Z.land Z.add Z.of_nat]. 
    replace (2 + (if e then 4 else 0) + blen (len_ext n)) with (blen (b0 :: b1 :: bs)) by (cbn [length]; lia). done.
  - lia.
  - lia.
  - destruct e; lia.
  - rewrite length_poke; cbn [length]; lia.
Qed.

(** A complete header sets the length, the mask and the message flag. *)
Definition opened (d : ws_dec) (e : bool) (op n : Z) (m : list byte) : ws_dec :=
  d_set_message (d_set_ctrl (d_set_mask (d_set_left d n) (if e then m else zeros 4) 0) (d_ctrl d) 0)
    (if op =? WS_OP_BINARY then false else d_in_message d).

Lemma byte_at_take i k l : 0 <= i < k -> k <= blen l -> byte_at l i = byte_at (ztake k l) i.
Proof. intros. unfold byte_at. rewrite nth_firstn. by destruct (Nat.ltb_spec (Z.to_nat i) (Z.to_nat k)); [|lia]. Qed.

Lemma hdr_finish_frame e d op n m off :
  kind_ok op n -> bz (byte_at (d_hdr d) 0) = 128 + op -> d_opcode d = op -> d_is_control d = negb (Z.land op 8 =? 0) ->
  (op = WS_OP_BINARY -> d_in_message d = false) -> (e = true -> peek off 4 (d_hdr d) = m) ->
  hdr_finish e (d_set_left d n) off = (true, opened d e op n m).
Proof.
  intros (Hop & _) H0 Ho Hc Hi Hp. unfold hdr_finish, opened. cbn -[Z.land]. rewrite Ho, Hc, H0.
  assert ((if e then peek off 4 (d_hdr d) else zeros 4) = (if e then m else zeros 4)) as -> by (destruct e; [by apply Hp|done]).
  destruct Hop as [Hb|[Hb|[Hb|Hb]]]; rewrite Hb; [|done..]. by rewrite (Hi Hb).
Qed.

Lemma be16_value l : 2 <= blen l -> Z.lor (Z.shiftl (bz (byte_at l 0)) 8) (bz (byte_at l 1)) = be_dec (ztake 2 l).
Proof. intros Hl. rewrite <-be16_word by done. symmetry. apply Z.mod_small, be16_range. Qed.

Lemma header_word d :
  blen (d_hdr d) = WS_HDR_MAX ->
  Z.lor (Z.shiftl (bz (byte_at (d_hdr d) 2)) 8) (bz (byte_at (d_hdr d) 3)) = be_dec (ztake 2 (zdrop 2 (d_hdr d))).
Proof.
  intros Hh. rewrite <-be16_value by (rewrite length_drop; unfold WS_HDR_MAX in *; lia). unfold byte_at. by rewrite !nth_skipn.
Qed.

Lemma take_app_be k z v (l : list byte) : z = Z.of_nat k -> ztake z (be_enc k v ++ l) = be_enc k v.
Proof. intros ->. rewrite Nat2Z.id, take_app_le by (rewrite length_be_enc; done). apply take_ge. by rewrite length_be_enc. Qed.

Lemma hdr_done_frame e d op n m :
  kind_ok op n -> blen m = 4 -> (op = WS_OP_BINARY -> d_in_message d = false) -> blen (d_hdr d) = WS_HDR_MAX ->
  hdr_done e (headed d (frame_head e op n m) op) = (true, opened (headed d (frame_head e op n m) op) e op n m).
Proof.
  intros Hk Hm Hi Hh. pose proof Hk as (Hop & _ & Hn). set (h := frame_head e op n m). set (d' := headed d h op).
  destruct (second_byte (len7 n) e (len7_bounds n ltac:(lia))) as [H7 _]. pose proof (head_byte op Hop) as H0.
  assert (Hat : forall k, peek 0 k (d_hdr d') = peek 0 k (h ++ drop (length h) (d_hdr d))) by (intros; cbn; by rewrite poke_0).
  assert (Hh0 : bz (byte_at (d_hdr d') 0) = 128 + op) by exact H0.
  assert (Hh1 : Z.land (bz (byte_at (d_hdr d') 1)) 127 = len7 n) by exact H7.
  assert (Hx : zdrop 2 (d_hdr d') = len_ext n ++ (if e then m else []) ++ drop (length h) (d_hdr d)).
  { cbn. rewrite poke_0. subst h. unfold frame_head. cbn. by rewrite app_assoc. }
  assert (Hmask : forall off, off = 2 + blen (len_ext n) -> e = true -> peek off 4 (d_hdr d') = m).
  { intros off -> ->. unfold peek. replace (Z.to_nat (2 + blen (len_ext n))) with (2 + length (len_ext n))%nat by lia.
    rewrite <-drop_drop. change 2%nat with (Z.to_nat 2). rewrite Hx, drop_app_length. cbn. rewrite take_app_le by lia. apply take_ge. lia. }
  assert (Hfin : forall off, off = 2 + blen (len_ext n) -> hdr_finish e (d_set_left d' n) off = (true, opened d' e op n m)).
  { intros. by apply hdr_finish_frame; [..|apply Hmask]. }
  assert (Hd' : blen (d_hdr d') = WS_HDR_MAX).
  { cbn. rewrite length_poke; [done|done|]. subst h. unfold frame_head. cbn [length]. rewrite length_app. wsunfold.
    pose proof (length_len_ext n) as Hl. destruct e; cbn [length]; repeat case_match; lia. }
  clear Hmask. unfold hdr_done. rewrite Hh1. unfold len7, len_ext in *. destruct (n <? 126) eqn:Hn1; [|destruct (n <=? 65535) eqn:Hn2].
  - replace (n =? 126) with false by lia. replace (n =? 127) with false by lia. by apply Hfin.
  - cbn [Z.eqb Pos.eqb]. rewrite (header_word d' Hd'), Hx, take_app_be by done. cbn [d_payload_left d_set_left].
    rewrite be_dec_enc_small by (cbn; lia). rewrite Hn1. by apply Hfin.
  - cbn [Z.eqb Pos.eqb]. unfold peek. rewrite Hx, take_app_be by done. rewrite be64_loop by done. rewrite be_dec_enc_small by (cbn; lia).
    cbn [d_payload_left d_set_left]. rewrite Hn2, Z.shiftr_div_pow2, Z.div_small by lia. by apply Hfin.
Qed.

(** ** Whole frames *)

Lemma hdr_loop_ok e d data d' rest :
  dec_ok d -> d_payload_left d = 0 -> hdr_loop e d data = (true, d', rest) -> dec_ok d' /\ d_payload_left d' = 0.
Proof.
  revert d. induction data as [|b data IH]; intros d Hd Hl H; [cbn in H; by injection H as <- <-|].
  destruct (need_header d) eqn:Hn; [|rewrite hdr_loop_stop in H by done; by injection H as <- <-].
  pose proof (hdr_loop_cons e d b data Hn) as Hc. destruct (hdr_step e d b) as [[] d1] eqn:Hs.
  - destruct Hc as [Hc _]. rewrite Hc in H by done. apply hdr_step_ok in Hs as [? ?]; [|done..]. by apply (IH d1).
  - destruct Hc as [_ Hc]. specialize (Hc eq_refl). by rewrite H in Hc.
Qed.

Lemma byte_at_zeros n i : byte_at (zeros n) i = x00.
Proof.
  unfold byte_at, zeros. destruct (nth_in_or_default (Z.to_nat i) (replicate (Z.to_nat n) x00) x00) as [H|H]; [|done].
  apply list_elem_of_In, elem_of_replicate in H. apply H.
Qed.

Lemma unmask_zeros off p : unmask (zeros 4) off p = p.
Proof.
  revert off. induction p as [|x p IH]; intros off; [done|]. rewrite unmask_cons, IH, byte_at_zeros. f_equal.
  rewrite Z.lxor_0_r. apply u8_bz.
Qed.

Lemma unmask_body (e : bool) (m p : list byte) : unmask (if e then m else zeros 4) 0 (frame_body e m p) = p.
Proof. destruct e; [apply unmask_involutive|apply unmask_zeros]. Qed.

Lemma length_body e (m p : list byte) : length (frame_body e m p) = length p.
Proof. destruct e; [apply length_unmask|done]. Qed.

Section frames.
Context {C : Type} (good : C -> Prop) (sink : C -> list byte -> bool * C) `{!SinkLaw good sink}.

(** The decoder over one whole frame. *)
Lemma frame_run w c op m p :
  good c -> ws_ok w -> ws_stage w = WS_STAGE_OPEN -> d_hdr_len (ws_d w) = 0 -> d_hdr_need (ws_d w) = 0 ->
  (op = WS_OP_BINARY -> d_in_message (ws_d w) = false) -> kind_ok op (blen p) -> blen m = 4 ->
  let e := ws_expect_mask w in
  let d1 := opened (headed (ws_d w) (frame_head e op (blen p) m) op) e op (blen p) m in
  ws_bytes sink w c (frame e op m p) =
  absorb sink d1 c (frame_body e m p) ≫= fun '(d, c) => Some ((frame_done (set_dec w (d_set_left d 0))).2, c).
Proof.
  intros Hg Hw Hs Hl0 Hn0 Hi Hk Hm e d1. set (F := frame e op m p).
  assert (HF : exists k, length F = S (S k)) by (subst F; eexists; reflexivity). destruct HF as [k HF].
  rewrite <-(ws_loop_bytes good sink F w c (length F)), HF by done.
  assert (Hloop : hdr_loop e (ws_d w) F = (true, headed (ws_d w) (frame_head e op (blen p) m) op, frame_body e m p)).
  { apply hdr_loop_frame; try done. apply (ok_dec w Hw). }
  assert (Hn' : need_header d1 = false).
  { change (need_header d1) with ((blen (frame_head e op (blen p) m) =? 0) ||
      (blen (frame_head e op (blen p) m) <? blen (frame_head e op (blen p) m))). by rewrite Z.ltb_irrefl. }
  pose proof (ok_phase w Hw) as Hph. unfold need_header in Hph at 1. rewrite Hn0 in Hph. cbn [Z.eqb orb] in Hph.
  assert (Hdone : hdr_done e (headed (ws_d w) (frame_head e op (blen p) m) op) = (true, d1)).
  { apply hdr_done_frame; try done. apply (ok_dec w Hw). }
  assert (Hd1 : dec_ok d1).
  { apply hdr_loop_ok in Hloop as [? ?]; [|apply Hw|by apply Z.eqb_eq]. by apply hdr_done_ok in Hdone as [? ?]. }
  assert (Hround : ws_round sink w c F = if blen p =? 0 then
      let '(closed, w) := frame_done (set_dec w d1) in if closed then inl (WS_OK, w, c) else inr (w, c, frame_body e m p)
    else inr (set_dec w d1, c, frame_body e m p)).
  { unfold ws_round. rewrite Hph. unfold need_header at 1. rewrite Hn0. cbn [Z.eqb orb andb]. fold e. rewrite Hloop. cbn [negb].
    change (need_header (headed (ws_d w) (frame_head e op (blen p) m) op)) with (need_header d1). rewrite Hn', Hdone. done. }
  destruct F as [|f0 F]; [done|]. cbn [ws_loop]. rewrite Hround. destruct (Z.eqb_spec (blen p) 0) as [Hz|Hz].
  - destruct p; [|done]. assert (absorb sink d1 c (frame_body e m []) = Some (d1, c)) as ->.
    { replace (frame_body e m []) with (@nil byte) by (by destruct e). unfold absorb. destruct (d_is_control d1).
      - rewrite poke_nil by done. done.
      - cbn. by rewrite sink_nil. }
    cbn [mbind option_bind]. change (d_set_left d1 0) with d1. replace (frame_body e m []) with (@nil byte) by (by destruct e).
    destruct (frame_done _) as [[] ?]; done.
  - pose proof (length_body e m p) as Hb. assert (Hne : frame_body e m p <> []) by (intros He; rewrite He in Hb; cbn in Hb; lia).
    assert (Hw1 : ws_ok (set_dec w d1)).
    { pose proof (ws_ok_reply w Hw) as Hr. constructor; [done| |apply Hr..]. cbn [ws_d set_dec]. rewrite Hn'. by apply Z.eqb_neq. }
    transitivity (outcome (cont sink k (ws_round sink (set_dec w d1) c (frame_body e m p)))); [by destruct (frame_body e m p)|].
    rewrite (round_payload good) by done. cbn [ws_d set_dec]. change (d_payload_left d1) with (blen p). rewrite Hb, Z.min_id, take_all_z by lia.
    destruct (absorb sink d1 c _) as [[d c']|]; [|done]. cbn [mbind option_bind]. rewrite Z.sub_diag, drop_ge by lia.
    unfold after. cbn [ws_d set_dec d_payload_left d_set_left Z.eqb].
    change (set_dec (set_dec w d1) (d_set_left d 0)) with (set_dec w (d_set_left d 0)).
    destruct (frame_done _) as [[] ?]; [done|]. by destruct k.
Qed.

(** ** Delivery of client frames *)

(** A data frame is handed to the sink and the decoder is back at a boundary. *)
Lemma binary_frame_run w c m p :
  good c -> at_boundary w -> blen p < 2 ^ 63 -> blen m = 4 ->
  match sink c p with
  | (true, c') => exists w', ws_bytes sink w c (frame (ws_expect_mask w) WS_OP_BINARY m p) = Some (w', c') /\
      at_boundary w' /\ ws_expect_mask w' = ws_expect_mask w /\ ws_r w' = ws_r w
  | (false, _) => ws_bytes sink w c (frame (ws_expect_mask w) WS_OP_BINARY m p) = None
  end.
Proof.
  intros Hg (Hw & Hs & Hl & Hn & Hi) Hp Hm.
  assert (Hk : kind_ok WS_OP_BINARY (blen p)) by (split_and!; [by left|done|lia|done]).
  pose proof (frame_run w c WS_OP_BINARY m p Hg Hw Hs Hl Hn (fun _ => Hi) Hk Hm) as H. cbv zeta in H.
  set (F := frame _ _ _ _) in *. set (d1 := opened _ _ _ _ _) in *. unfold absorb in H.
  change (d_is_control d1) with false in H. cbv iota in H.
  change (unmask (d_mask d1) (d_mask_off d1)) with (unmask (if ws_expect_mask w then m else zeros 4) 0) in H. rewrite unmask_body in H.
  destruct (sink c p) as [[] c']; [|done]. cbn [mbind option_bind] in H.
  set (d2 := d_set_mask d1 _ _) in H.
  change (frame_done (set_dec w (d_set_left d2 0))) with (false, set_dec w (d_set_ctrl (d_set_hdr (d_set_left d2 0) 0 0) (d_ctrl d2) 0)) in H.
  eexists. split; [exact H|]. apply (ws_bytes_ok good) in H as (_ & Hok & _); [by split_and!|done || congruence..].
Qed.

(** What the decoder answers to a control frame. *)
Definition answer (op : Z) (p : list byte) : option (list byte) :=
  if op =? WS_OP_PING then Some (ws_server_header (blen p) WS_OP_PONG ++ p) else
  if op =? WS_OP_CLOSE then let q := if 2 <=? blen p then ztake 2 p else [] in Some (ws_server_header (blen q) WS_OP_CLOSE ++ q) else None.

(** The reply waiting after a control frame, when none was waiting before. *)
Definition queued (r : ws_reply) : list byte := ztake (r_len r) (r_buf r).

Lemma queue_ctrl_queued w op p n :
  reply_ok (ws_r w) -> 0 <= n <= blen p -> n <= WS_CTRL_MAX ->
  let q := queue_ctrl w op p n in
  ws_d q = ws_d w /\ ws_stage q = ws_stage w /\
  if r_len (ws_r w) =? r_sent (ws_r w) then queued (ws_r q) = ws_server_header n op ++ ztake n p /\ r_sent (ws_r q) = 0 else ws_r q = ws_r w.
Proof.
  intros Hok Hn Hc q. destruct (queue_ctrl_ok w op p n Hok Hn) as (_ & ? & ?). split_and!; [done..|]. subst q. unfold queue_ctrl.
  destruct (_ =? _); [|done]. cbn [negb]. wsunfold. destruct (125 <? n) eqn:?; [lia|]. cbn. split; [|done]. unfold queued. cbn [r_len r_buf].
  rewrite poke_append by done. rewrite server_header_eq by lia.
  set (h := _ :: _). replace (blen h + n) with (blen (h ++ ztake n p)) by (rewrite length_app, length_take; lia). apply take_poke_0.
Qed.

Lemma control_done w p buf op :
  reply_ok (ws_r w) -> op_ok op -> blen p <= WS_CTRL_MAX -> d_is_control (ws_d w) = true -> d_opcode (ws_d w) = op -> op <> WS_OP_BINARY ->
  d_ctrl_len (ws_d w) = blen p -> d_ctrl (ws_d w) = poke 0 p buf ->
  let w' := (frame_done w).2 in
  ws_stage w' = (if op =? WS_OP_CLOSE then WS_STAGE_CLOSED else ws_stage w) /\
  d_hdr_len (ws_d w') = 0 /\ d_hdr_need (ws_d w') = 0 /\ d_in_message (ws_d w') = d_in_message (ws_d w) /\
  match answer op p with
  | Some a => if r_len (ws_r w) =? r_sent (ws_r w) then queued (ws_r w') = a /\ r_sent (ws_r w') = 0 else ws_r w' = ws_r w
  | None => ws_r w' = ws_r w
  end.
Proof.
  intros Hok Hop Hp Hc Ho Hne Hl Hb. unfold frame_done. rewrite Hc, Ho, Hl, Hb.
  assert (Hbl : blen p <= blen (poke 0 p buf)) by (rewrite poke_0, length_app; lia).
  assert (Htk : forall k, k <= blen p -> ztake k (poke 0 p buf) = ztake k p) by (intros; rewrite poke_0; apply take_app_le; lia).
  destruct Hop as [?|[->|[->| ->]]]; [done|..]; cbn -[queue_ctrl ws_server_header].
  - set (k := if 2 <=? blen p then 2 else 0). assert (0 <= k <= blen p /\ k <= 2) by (subst k; case_match; lia).
    destruct (queue_ctrl_queued w WS_OP_CLOSE (poke 0 p buf) k Hok) as (-> & _ & Hq); [lia|unfold WS_CTRL_MAX; lia|].
    split_and!; [done..|]. rewrite Htk in Hq by lia. unfold answer. cbn -[ws_server_header].
    assert ((if 2 <=? blen p then ztake 2 p else []) = ztake k p) as -> by (subst k; by destruct (2 <=? blen p)).
    by replace (blen (ztake k p)) with k by (rewrite length_take; lia).
  - destruct (queue_ctrl_queued w WS_OP_PONG (poke 0 p buf) (blen p) Hok) as (-> & Hst & Hq); [lia|done|].
    split_and!; [done..|]. rewrite Htk, take_all_z in Hq by lia. done.
  - done.
Qed.

(** A control frame delivers nothing; its answer is queued unless a reply is still waiting. *)
Lemma control_frame_run w c op m p :
  good c -> ws_ok w -> ws_stage w = WS_STAGE_OPEN -> d_hdr_len (ws_d w) = 0 -> d_hdr_need (ws_d w) = 0 ->
  kind_ok op (blen p) -> op <> WS_OP_BINARY -> blen m = 4 ->
  exists w', ws_bytes sink w c (frame (ws_expect_mask w) op m p) = Some (w', c) /\
    ws_stage w' = (if op =? WS_OP_CLOSE then WS_STAGE_CLOSED else WS_STAGE_OPEN) /\
    d_hdr_len (ws_d w') = 0 /\ d_hdr_need (ws_d w') = 0 /\ d_in_message (ws_d w') = d_in_message (ws_d w) /\
    match answer op p with
    | Some a => if r_len (ws_r w) =? r_sent (ws_r w) then queued (ws_r w') = a /\ r_sent (ws_r w') = 0 else ws_r w' = ws_r w
    | None => ws_r w' = ws_r w
    end.
Proof.
  intros Hg Hw Hs Hl Hn Hk Hne Hm. pose proof Hk as (Hop & Hc & Hp). specialize (Hc Hne).
  pose proof (frame_run w c op m p Hg Hw Hs Hl Hn ltac:(done) Hk Hm) as H. cbv zeta in H.
  set (F := frame _ _ _ _) in *. set (d1 := opened _ _ _ _ _) in *. unfold absorb in H.
  assert (Hctl : d_is_control d1 = true) by (subst d1; cbn -[Z.land]; by destruct Hop as [?|[->|[->| ->]]]).
  assert (Hd : d_mask d1 = (if ws_expect_mask w then m else zeros 4) /\ d_mask_off d1 = 0 /\ d_ctrl_len d1 = 0 /\
    d_ctrl d1 = d_ctrl (ws_d w) /\ d_opcode d1 = op /\ d_in_message d1 = d_in_message (ws_d w)).
  { split_and!; try done. subst d1. cbn. by destruct (Z.eqb_spec op WS_OP_BINARY). }
  clearbody d1. destruct Hd as (Hmk & Hof & Hcl1 & Hct1 & Hop1 & Him1). rewrite Hctl, Hmk, Hof, Hcl1, Hct1 in H.
  rewrite unmask_body, length_body in H. rewrite Z.add_0_l, (proj2 (Z.ltb_ge WS_CTRL_MAX _) Hc) in H. cbn [mbind option_bind] in H.
  set (d2 := d_set_left _ 0) in H. eexists. split; [exact H|]. clear H.
  assert (Hop2 : d_opcode d2 = op) by exact Hop1. assert (Hc2 : d_is_control d2 = true) by exact Hctl.
  assert (Hcl : d_ctrl_len d2 = blen p) by done. assert (Hcb : d_ctrl d2 = poke 0 p (d_ctrl (ws_d w))) by done.
  assert (Hi2 : d_in_message d2 = d_in_message (ws_d w)) by exact Him1.
  pose proof (control_done (set_dec w d2) p (d_ctrl (ws_d w)) op (ws_ok_reply w Hw) Hop Hc Hc2 Hop2 Hne Hcl Hcb) as H.
  cbv zeta in H. cbn [ws_d ws_r ws_stage set_dec] in H. by rewrite Hs, Hi2 in H.
Qed.

(** Many frames, one after the other. *)
Lemma binary_frames_run w c msgs :
  good c -> at_boundary w -> Forall (fun '(m, p) => blen m = 4 /\ blen p < 2 ^ 63) msgs ->
  let F := concat (map (fun '(m, p) => frame (ws_expect_mask w) WS_OP_BINARY m p) msgs) in
  match sink c (concat msgs.*2) with
  | (true, c') => exists w', ws_bytes sink w c F = Some (w', c') /\ at_boundary w' /\ ws_r w' = ws_r w
  | (false, _) => ws_bytes sink w c F = None
  end.
Proof.
  revert w c. induction msgs as [|[m p] msgs IH]; intros w c Hg Hw Hall; cbv zeta; cbn [map concat fmap list_fmap snd].
  { rewrite sink_nil by done. by exists w. }
  apply Forall_cons in Hall as [[Hm Hp] Hall]. pose proof (sink_app c p (concat msgs.*2) Hg) as Hs.
  rewrite ws_bytes_app. pose proof (binary_frame_run w c m p Hg Hw Hp Hm) as H1.
  destruct (sink c p) as [[] c1] eqn:Hsk.
  - destruct H1 as (w1 & -> & Hw1 & He & Hr). cbn [mbind option_bind]. specialize (IH w1 c1 (sink_good _ _ _ Hg Hsk) Hw1 Hall). rewrite He in IH. cbv zeta in IH. destruct Hs as [Hs1 Hs2].
    destruct (sink c1 _) as [[] c2].
    + rewrite Hs2 by done. by rewrite Hr in IH.
    + by destruct (sink c (p ++ _)) as [[] ?].
  - rewrite H1. by destruct (sink c (p ++ _)) as [[] ?].
Qed.

End frames.

Lemma poke_inside a b b' c off o : off = blen a -> length b' = length b -> poke off b' (poke 0 (a ++ b ++ c) o) = poke 0 (a ++ b' ++ c) o.
Proof.
  intros -> Hb. rewrite !poke_0. unfold poke. rewrite Nat2Z.id, <-!app_assoc, take_app_length, !length_app, Hb. do 2 f_equal.
  rewrite (drop_app_ge a), (drop_app_ge b) by lia. by replace (_ - _ - _)%nat with 0%nat by lia.
Qed.

(** [ws_client_frame] writes exactly a masked data frame. *)
Lemma client_frame_eq o cap p m :
  blen m = 4 -> blen (frame true WS_OP_BINARY m p) <= cap ->
  ws_client_frame (Some o) cap (Some p) (blen p) (Some m) =
  (Some (poke 0 (frame true WS_OP_BINARY m p) o), blen (frame true WS_OP_BINARY m p)).
Proof.
  intros Hm Hc. unfold ws_client_frame, frame, frame_head, frame_body in *. rewrite server_header_eq by lia.
  set (b0 := u8 (Z.lor 128 _)) in *. set (b1 := u8 (len7 _)) in *. set (x := len_ext _) in *.
  rewrite !take_all_z by lia. change (byte_at (poke 0 (b0 :: b1 :: x) o) 1) with b1.
  set (b1' := u8 (Z.lor (bz b1) 128)) in *. cbv zeta. change (b0 :: b1 :: x) with ([b0] ++ [b1] ++ x).
  rewrite (poke_inside [b0] [b1] [b1']) by done.
  change (b0 :: b1' :: x ++ m) with (([b0] ++ [b1'] ++ x) ++ m) in *.
  assert (Hl : blen ([b0] ++ [b1] ++ x) = blen ([b0] ++ [b1'] ++ x)) by done. rewrite Hl.
  rewrite !length_app in Hc. rewrite poke_append by done.
  rewrite poke_append by (rewrite (length_app _ m); lia). rewrite !length_app, length_unmask in *.
  destruct (cap <? _) eqn:Hcap; [apply Z.ltb_lt in Hcap; cbn [length] in *; lia|]. f_equal. cbn [length]. lia.
Qed.

(** The bytes of a frame a client wrote into a buffer of its own. *)
Definition client_sends (m p f : list byte) : Prop :=
  exists o cap, let '(o', len) := ws_client_frame (Some o) cap (Some p) (blen p) (Some m) in 0 < len /\ f = ztake len (default [] o').

Lemma client_sends_frame m p f : blen m = 4 -> client_sends m p f -> f = frame true WS_OP_BINARY m p.
Proof.
  intros Hm (o & cap & H). destruct (decide (blen (frame true WS_OP_BINARY m p) <= cap)) as [Hc|Hc].
  - rewrite client_frame_eq in H by done. destruct H as [_ ->]. apply take_poke_0.
  - exfalso. unfold ws_client_frame in H. rewrite server_header_eq in H by lia. cbv zeta in H.
    destruct (cap <? _) eqn:Hcap in H; [lia|]. apply Z.ltb_ge in Hcap. apply Hc.
    unfold frame, frame_head, frame_body. rewrite length_app, length_unmask. cbn [length] in *. rewrite length_app. lia.
Qed.

(** The frames a client writes, cut in any way on the wire, deliver exactly the concatenated payloads to the
    sink and leave the decoder at a frame boundary; the stream is refused only if the sink refuses the payloads. *)
Theorem ws_client_roundtrip {C} (good : C -> Prop) (sink : C -> list byte -> bool * C) `{!SinkLaw good sink} w c msgs frames chunks :
  good c -> at_boundary w -> ws_expect_mask w = true ->
  Forall2 (fun '(m, p) f => blen m = 4 /\ blen p < 2 ^ 63 /\ client_sends m p f) msgs frames -> concat chunks = concat frames ->
  match sink c (concat msgs.*2) with
  | (true, c') => exists w', ws_reads sink w c chunks = Some (w', c') /\ at_boundary w' /\ ws_r w' = ws_r w
  | (false, _) => ws_reads sink w c chunks = None
  end.
Proof.
  intros Hg Hw He Hall Hch. rewrite (ws_reads_bytes good), Hch; [|done|done|apply Hw|destruct Hw as (_ & -> & _); done].
  assert (Hlen : Forall (fun '(m, p) => blen m = 4 /\ blen p < 2 ^ 63) msgs).
  { clear -Hall. induction Hall as [|[m p] f msgs frames (? & ? & _) _ IH]; by constructor. }
  assert (frames = map (fun '(m, p) => frame (ws_expect_mask w) WS_OP_BINARY m p) msgs) as ->.
  { clear Hch Hlen. rewrite He. induction Hall as [|[m p] f msgs frames (Hm & _ & Hs) _ IH]; [done|]. cbn [map]. f_equal; [|done].
    by apply client_sends_frame. }
  by apply (binary_frames_run good).
Qed.

(** A whole control frame, cut in any way, delivers nothing and leaves an open message open.  A ping queues
    exactly its echo as a pong, a close queues the echo of its code and closes, a pong is ignored; an answer is
    dropped only while an earlier reply is still waiting to be sent. *)
Theorem ws_control_answers {C} (good : C -> Prop) (sink : C -> list byte -> bool * C) `{!SinkLaw good sink} w c op m p chunks :
  good c -> ws_ok w -> ws_stage w = WS_STAGE_OPEN -> d_hdr_len (ws_d w) = 0 -> d_hdr_need (ws_d w) = 0 ->
  kind_ok op (blen p) -> op <> WS_OP_BINARY -> blen m = 4 -> concat chunks = frame (ws_expect_mask w) op m p ->
  exists w', ws_reads sink w c chunks = Some (w', c) /\
    ws_stage w' = (if op =? WS_OP_CLOSE then WS_STAGE_CLOSED else WS_STAGE_OPEN) /\
    d_hdr_len (ws_d w') = 0 /\ d_hdr_need (ws_d w') = 0 /\ d_in_message (ws_d w') = d_in_message (ws_d w) /\
    match answer op p with
    | Some a => if r_len (ws_r w) =? r_sent (ws_r w) then queued (ws_r w') = a /\ r_sent (ws_r w') = 0 else ws_r w' = ws_r w
    | None => ws_r w' = ws_r w
    end.
Proof.
  intros Hg Hw Hs Hl Hn Hk Hne Hm Hch. rewrite (ws_reads_bytes good), Hch; [|done..|congruence]. by apply (control_frame_run good).
Qed.

(** ** Server frames through the client's reader *)

(** The bytes of a run of frames a server writes. *)
Definition server_writes (frames : list (Z * list byte)) : list byte :=
  concat (map (fun '(op, q) => ws_server_header (blen q) op ++ q) frames).

Section reader.
Context {C : Type} (rd : C -> Z -> rd_result * C) (view : C -> list byte).

(** [rd] reads exactly [n] bytes of the stream when they are there. *)
Context (Hrd : forall c n, 0 < n <= blen (view c) -> exists c', rd c n = (RdBytes (ztake n (view c)), c') /\ view c' = zdrop n (view c)).

Lemma rd_app c a l : a <> [] -> view c = a ++ l -> exists c', rd c (blen a) = (RdBytes a, c') /\ view c' = l.
Proof.
  intros Ha Hv. destruct (Hrd c (blen a)) as (c' & H1 & H2).
  { rewrite Hv, length_app. destruct a; [done|cbn [length]; lia]. }
  exists c'. rewrite H1, H2, Hv, Nat2Z.id, take_app_length, drop_app_length. done.
Qed.

(** What a round does with a frame of opcode [op] and payload [p]. *)
Definition round_result (out : list byte) (op : Z) (p : list byte) : ws_client_status_t * list byte * Z + unit :=
  if op =? WS_OP_BINARY then inl (WS_CLIENT_OK, poke 0 p out, blen p) else inr tt.

Lemma read_body_frame out cap c op p rest :
  (op = WS_OP_BINARY \/ op = WS_OP_PING \/ op = WS_OP_PONG) -> kind_ok op (blen p) -> (op = WS_OP_BINARY -> blen p <= cap) -> view c = p ++ rest ->
  exists c', read_body rd out cap (128 + op) (blen p) c = (round_result out op p, c') /\ view c' = rest.
Proof.
  intros Hop (_ & Hc & Hn) Hcap Hv. unfold read_body, round_result.
  assert (Hread : exists c', view c' = rest /\ (if 0 <? blen p then rd c (blen p) = (RdBytes p, c') else p = [] /\ c' = c)).
  { destruct p as [|x p]; [by exists c|]. destruct (rd_app c (x :: p) rest) as (c' & ? & ?); [done..|]. by exists c'. }
  destruct Hread as (c' & Hv' & Hread). exists c'. split; [|done].
  destruct Hop as [->|[->| ->]]; cbn -[Z.of_nat length].
  - rewrite (proj2 (Z.ltb_ge cap _)) by (by apply Hcap). destruct (0 <? blen p); [by rewrite Hread|]. destruct Hread as [-> ->]. by rewrite poke_nil.
  - rewrite (proj2 (Z.ltb_ge WS_CTRL_MAX _)) by (by apply Hc). destruct (0 <? blen p); [by rewrite Hread|]. by destruct Hread as [-> ->].
  - rewrite (proj2 (Z.ltb_ge WS_CTRL_MAX _)) by (by apply Hc). destruct (0 <? blen p); [by rewrite Hread|]. by destruct Hread as [-> ->].
Qed.

Lemma read_round_frame out cap c op p rest :
  (op = WS_OP_BINARY \/ op = WS_OP_PING \/ op = WS_OP_PONG) -> kind_ok op (blen p) -> (op = WS_OP_BINARY -> blen p <= cap) ->
  view c = ws_server_header (blen p) op ++ p ++ rest ->
  exists c', read_round rd out cap c = (round_result out op p, c') /\ view c' = rest.
Proof.
  intros Hop3 Hk Hcap Hv. pose proof Hk as (Hop & _ & Hn). rewrite server_header_eq in Hv by lia.
  destruct (second_byte (len7 (blen p)) false (len7_bounds (blen p) ltac:(lia))) as [H7 H8]. pose proof (head_byte op Hop) as H0.
  set (b0 := u8 (Z.lor 128 _)) in *. set (b1 := u8 (len7 _)) in *. cbv zeta in H7, H8.
  destruct (rd_app c [b0; b1] (len_ext (blen p) ++ p ++ rest)) as (c1 & E1 & V1); [done|done|].
  unfold read_round. change 2 with (blen [b0; b1]) at 1. rewrite E1.
  change (byte_at [b0; b1] 0) with b0. change (byte_at [b0; b1] 1) with b1. rewrite H8, H7, H0.
  assert (Z.land (128 + op) 112 = 0) as -> by (by destruct Hop3 as [->|[->| ->]]). cbn [negb Z.eqb].
  unfold len7, len_ext in *. destruct (blen p <? 126) eqn:Hn1; [|destruct (blen p <=? 65535) eqn:Hn2].
  - replace (blen p =? 126) with false by lia. replace (blen p =? 127) with false by lia. by apply read_body_frame.
  - cbn [Z.eqb Pos.eqb]. destruct (rd_app c1 (be_enc 2 (blen p)) (p ++ rest)) as (c2 & E2 & V2); [done..|].
    change (blen (be_enc 2 (blen p))) with 2 in E2. rewrite E2.
    rewrite be16_value by done. change (ztake 2 (be_enc 2 (blen p))) with (be_enc 2 (blen p)). rewrite be_dec_enc_small by (cbn; lia).
    by apply read_body_frame.
  - cbn [Z.eqb Pos.eqb]. destruct (rd_app c1 (be_enc 8 (blen p)) (p ++ rest)) as (c2 & E2 & V2); [done..|].
    change (blen (be_enc 8 (blen p))) with 8 in E2. rewrite E2. change (ztake 8 (be_enc 8 (blen p))) with (be_enc 8 (blen p)).
    rewrite be64_loop by done. rewrite be_dec_enc_small by (cbn; lia).
    cbv zeta. rewrite Z.shiftr_div_pow2, Z.div_small by lia. by apply read_body_frame.
Qed.

Lemma server_frames_read out cap n0 c ctrls p rest :
  Forall (fun '(op, q) => (op = WS_OP_PING \/ op = WS_OP_PONG) /\ blen q <= WS_CTRL_MAX) ctrls -> blen p < 2 ^ 63 -> blen p <= cap ->
  view c = server_writes (ctrls ++ [(WS_OP_BINARY, p)]) ++ rest ->
  exists c', ws_client_read_message (S (length ctrls)) (Some rd) (Some out) cap (Some n0) c =
    (Some (WS_CLIENT_OK, Some (poke 0 p out), Some (blen p)), c') /\ view c' = rest.
Proof.
  intros Hall Hp Hcap. revert c. induction Hall as [|[op q] ctrls [Hop Hq] _ IH]; intros c Hv.
  - unfold server_writes in Hv. cbn [app map concat] in Hv. rewrite app_nil_r, <-app_assoc in Hv.
    destruct (read_round_frame out cap c WS_OP_BINARY p rest) as (c' & E & V); [by left|split_and!; [by left|done|lia|done]|done..|].
    exists c'. unfold ws_client_read_message. cbn [read_loop]. by rewrite E.
  - unfold server_writes in Hv. cbn [app map concat] in Hv. rewrite <-!app_assoc in Hv. unfold WS_CTRL_MAX in Hq.
    assert (Hk : kind_ok op (blen q)) by (split_and!; [unfold op_ok; tauto|done|lia|lia]).
    eapply (read_round_frame out cap) in Hv as (c1 & E & V); [|tauto|done|by destruct Hop as [->| ->]].
    destruct (IH c1 V) as (c' & E' & V'). exists c'. split; [|done]. cbn [length]. unfold ws_client_read_message in *. cbn [read_loop] in *.
    rewrite E. destruct Hop as [->| ->]; exact E'.
Qed.

(** The client's reader returns exactly the payload of the next data frame the server wrote, skipping any pings
    and pongs before it, and leaves the stream right after that frame; one round per frame is enough. *)
Theorem ws_server_roundtrip out cap n0 c ctrls p rest :
  Forall (fun '(op, q) => (op = WS_OP_PING \/ op = WS_OP_PONG) /\ blen q <= WS_CTRL_MAX) ctrls -> blen p < 2 ^ 63 -> blen p <= cap ->
  view c = server_writes (ctrls ++ [(WS_OP_BINARY, p)]) ++ rest ->
  exists c', ws_client_read_message (S (length ctrls)) (Some rd) (Some out) cap (Some n0) c =
    (Some (WS_CLIENT_OK, Some (poke 0 p out), Some (blen p)), c') /\ view c' = rest.
Proof. apply server_frames_read. Qed.
End reader.

(** ** Concrete connections *)

(** A reader of a byte list. *)
Definition list_rd (s : list byte) (n : Z) : rd_result * list byte :=
  if blen s =? 0 then (RdEof, s) else if n <=? blen s then (RdBytes (ztake n s), zdrop n s) else (RdFail s, []).

Lemma ws_init_client_boundary : at_boundary ws_init_client.
Proof.
  split; [|done]. split; [|done..]. constructor; cbn; wsunfold; try done; try lia.
Qed.

Lemma ws_open_boundary : at_boundary ws_open.
Proof.
  split; [|done]. split; [|done..]. constructor; cbn; wsunfold; try done; try lia.
Qed.

Lemma ws_client_roundtrip_witness :
  exists w', ws_reads small_sink ws_open [] [[x82; x83; x01]; [x02; x03; x04; x60]; []; [x60; x60]] = Some (w', [x61; x62; x63]) /\
    at_boundary w' /\ ws_r w' = ws_r ws_open.
Proof.
  pose proof (ws_client_roundtrip (fun c => (length c <= 4)%nat) small_sink ws_open [] [([x01; x02; x03; x04], [x61; x62; x63])]
    [[x82; x83; x01; x02; x03; x04; x60; x60; x60]] [[x82; x83; x01]; [x02; x03; x04; x60]; []; [x60; x60]]) as H.
  apply H.
  - cbn. lia.
  - apply ws_open_boundary.
  - done.
  - constructor; [|constructor]. split_and!; [done..|]. exists (zeros 9), 9. by vm_compute.
  - done.
Defined.

Lemma ws_control_answers_witness :
  exists w', ws_reads small_sink ws_open [] [[x89; x82; x01; x02]; [x03; x04; x60; x60]] = Some (w', []) /\
    queued (ws_r w') = [x8a; x02; x61; x62] /\ ws_stage w' = WS_STAGE_OPEN.
Proof.
  destruct (ws_control_answers (fun c => (length c <= 4)%nat) small_sink ws_open [] WS_OP_PING [x01; x02; x03; x04] [x61; x62]
    [[x89; x82; x01; x02]; [x03; x04; x60; x60]]) as (w' & H & Hs & _ & _ & _ & Hq & _).
  - cbn. lia.
  - apply ws_open_boundary.
  - done.
  - done.
  - done.
  - split_and!; [right; right; by left|done..].
  - done.
  - done.
  - by vm_compute.
  - by exists w'.
Defined.

Lemma ws_server_roundtrip_witness :
  exists c', ws_client_read_message 2 (Some list_rd) (Some (zeros 4)) 4 (Some 0) [x89; x00; x82; x02; x61; x62; x63] =
    (Some (WS_CLIENT_OK, Some [x61; x62; x00; x00], Some 2), c') /\ c' = [x63].
Proof.
  apply (ws_server_roundtrip list_rd (fun s => s)) with (ctrls := [(WS_OP_PING, [])]) (p := [x61; x62]).
  - intros s n Hn. exists (zdrop n s). split; [|done]. unfold list_rd. destruct (Z.eqb_spec (blen s) 0); [lia|].
    by destruct (Z.leb_spec n (blen s)); [|lia].
  - constructor; [|constructor]. split; [by left|done].
  - done.
  - done.
  - done.
Defined.
