(* ===== verification/WsSink.v ===== *)
(** * The decoder seen through its sink

    The payload of a stream does not depend on who receives it: a run of the
    decoder is the run that only collects the payload, followed by one call of
    the sink.  What the sink keeps, a call of [ws_consume] keeps, also when it
    fails. *)

From S2P Require Import Prelude Ws WsProps.

(** The sink that only collects. *)
Definition collect (acc p : list byte) : bool * list byte := (true, acc ++ p).
#[global] Instance collect_law : SinkLaw (fun _ => True) collect.
Proof.
  unfold collect. split.
  - intros c _. by rewrite app_nil_r.
  - intros c a b _. by rewrite app_assoc.
  - done.
Qed.

(** The payload in [data], and the decoder after it. *)
Definition payload (w : ws_t) (data : list byte) : option (ws_t * list byte) := ws_bytes collect w [] data.

Section sinks.
Context {C : Type} (good : C -> Prop) (sink : C -> list byte -> bool * C) `{!SinkLaw good sink}.

(** The result of handing [r]'s payload to the sink. *)
Definition hand (c : C) (r : option (ws_t * list byte)) : option (ws_t * C) :=
  r ≫= fun '(w, p) => match sink c p with (true, c) => Some (w, c) | (false, _) => None end.

Lemma ws_byte_hand w c x : good c -> ws_byte sink w c x = hand c (ws_byte collect w [] x).
Proof.
  intros Hg. unfold ws_byte, absorb, hand. destruct (need_header _).
  - destruct (hdr_step _ _ _) as [[] d]; [|done]. destruct (need_header d); [cbn; by rewrite sink_nil|].
    destruct (hdr_done _ _) as [[] d']; [|done]. case_match; cbn; by rewrite sink_nil.
  - destruct (d_is_control _).
    + destruct (WS_CTRL_MAX <? _); [done|]. cbn. case_match; cbn; by rewrite sink_nil.
    + cbn. set (d' := d_set_left _ _). destruct (sink c _) as [[] c'] eqn:Hs; cbn; fold d'; case_match; cbn; rewrite Hs; done.
Qed.
End sinks.

Lemma payload_cons w x data :
  ws_bytes collect w [] (x :: data) =
  if bool_decide (ws_stage w = WS_STAGE_CLOSED) then Some (w, []) else
  ws_byte collect w [] x ≫= fun '(w1, a) => payload w1 data ≫= fun '(w2, b) => Some (w2, a ++ b).
Proof.
  assert (Hacc : forall data w acc, ws_bytes collect w acc data = payload w data ≫= fun '(w2, b) => Some (w2, acc ++ b)).
  { clear. unfold payload. intros data. induction data as [|x data IH]; intros w acc; [cbn; by rewrite app_nil_r|]. cbn [ws_bytes].
    case_bool_decide; [cbn; by rewrite app_nil_r|]. rewrite (ws_byte_hand (fun _ => True) collect w acc x I). unfold hand.
    destruct (ws_byte collect w [] x) as [[w1 a]|]; [|done]. cbn. rewrite (IH w1 (acc ++ a)), (IH w1 a).
    destruct (ws_bytes collect w1 [] data) as [[w2 b]|]; [|done]. cbn. by rewrite app_assoc. }
  cbn [ws_bytes]. case_bool_decide; [done|]. destruct (ws_byte collect w [] x) as [[w1 a]|]; [|done]. cbn. apply Hacc.
Qed.

Section sinks2.
Context {C : Type} (good : C -> Prop) (sink : C -> list byte -> bool * C) `{!SinkLaw good sink}.

(** A run is the collecting run followed by one call of the sink. *)
Lemma ws_bytes_hand w c data : good c -> ws_bytes sink w c data = hand sink c (payload w data).
Proof.
  revert w c. induction data as [|x data IH]; intros w c Hg; [unfold hand; cbn; by rewrite sink_nil|].
  unfold payload. rewrite payload_cons. cbn [ws_bytes]. case_bool_decide; [unfold hand; cbn; by rewrite sink_nil|].
  rewrite (ws_byte_hand good) by done. unfold hand. destruct (ws_byte collect w [] x) as [[w1 a]|]; [|done]. cbn.
  destruct (sink c a) as [[] c1] eqn:Ha; cbn.
  - rewrite IH by exact (sink_good _ _ _ Hg Ha). unfold hand. destruct (payload w1 data) as [[w2 b]|]; [|done]. cbn.
    pose proof (sink_app c a b Hg) as Hs. rewrite Ha in Hs. destruct Hs as [H1 H2]. destruct (sink c1 b) as [[] c2]; cbn in *; [by rewrite H2|].
    by destruct (sink c (a ++ b)) as [[] ?].
  - destruct (payload w1 data) as [[w2 b]|]; [|done]. cbn. pose proof (sink_app c a b Hg) as Hs. rewrite Ha in Hs.
    by destruct (sink c (a ++ b)) as [[] ?].
Qed.
End sinks2.

Lemma payload_app w a b :
  payload w (a ++ b) = payload w a ≫= fun '(w1, p) => payload w1 b ≫= fun '(w2, q) => Some (w2, p ++ q).
Proof.
  unfold payload. rewrite ws_bytes_app. destruct (ws_bytes collect w [] a) as [[w1 p]|]; [|done]. cbn.
  rewrite (ws_bytes_hand (fun _ => True) collect w1 p b I). unfold hand, payload. by destruct (ws_bytes collect w1 [] b) as [[w2 q]|].
Qed.

(** The decoder never hands on more than it reads. *)
Lemma payload_length w data w' p : payload w data = Some (w', p) -> blen p <= blen data.
Proof.
  revert w w' p. induction data as [|x data IH]; intros w w' p; [by intros [= <- <-]|]. unfold payload. rewrite payload_cons.
  case_bool_decide; [intros [= <- <-]; cbn; lia|]. destruct (ws_byte collect w [] x) as [[w1 a]|] eqn:Hb; [|done]. cbn.
  destruct (payload w1 data) as [[w2 b]|] eqn:Hp; [|done]. intros [= <- <-]. apply IH in Hp. rewrite length_app. cbn [length].
  enough (length a <= 1)%nat by lia. revert Hb. unfold ws_byte, absorb. destruct (need_header _).
  - destruct (hdr_step _ _ _) as [[] d]; [|done]. destruct (need_header d); [by intros [= _ <-]; cbn; lia|].
    destruct (hdr_done _ _) as [[] d']; [|done]. case_match; intros [= _ <-]; cbn; lia.
  - destruct (d_is_control _).
    + destruct (WS_CTRL_MAX <? _); [done|]. cbn. case_match; intros [= _ <-]; cbn; lia.
    + cbn. case_match; intros [= _ <-]; cbn; lia.
Qed.

(** The login state is not the decoder's. *)
Lemma frame_done_state w : ws_state (frame_done w).2 = ws_state w /\ ws_state_len (frame_done w).2 = ws_state_len w /\
  ws_expect_mask (frame_done w).2 = ws_expect_mask w.
Proof.
  unfold frame_done, queue_ctrl. destruct (d_is_control _); [|done]. destruct (_ =? WS_OP_PING); [by destruct (negb _)|].
  destruct (_ =? WS_OP_CLOSE); [by destruct (negb _)|done].
Qed.

Lemma payload_state w data w' p :
  payload w data = Some (w', p) -> ws_state w' = ws_state w /\ ws_state_len w' = ws_state_len w /\ ws_expect_mask w' = ws_expect_mask w.
Proof.
  revert w w' p. induction data as [|x data IH]; intros w w' p; [by intros [= <- <-]|]. unfold payload. rewrite payload_cons.
  case_bool_decide; [by intros [= <- <-]|]. destruct (ws_byte collect w [] x) as [[w1 a]|] eqn:Hb; [|done]. cbn.
  destruct (payload w1 data) as [[w2 b]|] eqn:Hp; [|done]. intros [= <- <-]. apply IH in Hp as (-> & -> & ->). revert Hb. unfold ws_byte, absorb.
  destruct (need_header _).
  - destruct (hdr_step _ _ _) as [[] d]; [|done]. destruct (need_header d); [by intros [= <- <-]|].
    destruct (hdr_done _ _) as [[] d']; [|done]. case_match; intros [= <- <-]; [exact (frame_done_state (set_dec w _))|done].
  - destruct (d_is_control _).
    + destruct (WS_CTRL_MAX <? _); [done|]. cbn. case_match; intros [= <- <-]; [exact (frame_done_state (set_dec w _))|done].
    + cbn. case_match; intros [= <- <-]; [exact (frame_done_state (set_dec w _))|done].
Qed.

(** ** What the sink keeps *)

Section keeps.
Context {C : Type} (sink : C -> list byte -> bool * C) (P : C -> Prop) (HP : forall c p, P c -> P (sink c p).2).

Lemma payload_loop_keeps fuel d c data : P c -> P (payload_loop sink fuel d c data).2.
Proof using HP.
  revert d c data. induction fuel as [|fuel IH]; intros d c data Hc; [done|]. destruct data as [|x data]; [done|]. cbn [payload_loop].
  destruct (d_is_control _).
  - destruct (WS_CTRL_MAX <? _); [done|]. by apply IH.
  - pose proof (HP c (unmask (d_mask d) (d_mask_off d) (ztake (Z.min (blen (x :: data)) 512) (x :: data))) Hc) as Hs.
    destruct (sink c _) as [[] c']; [by apply IH|done].
Qed.

Lemma ws_loop_keeps fuel w c data : P c -> P (ws_loop sink fuel w c data).2.
Proof using HP.
  revert w c data. induction fuel as [|fuel IH]; intros w c data Hc; [done|]. destruct data as [|x data]; [done|]. cbn [ws_loop].
  unfold ws_round. destruct (_ && _).
  - destruct (hdr_loop _ _ _) as [[[] d] rest]; [|done]. cbn [negb]. destruct (need_header d); [done|].
    destruct (hdr_done _ _) as [[] d']; [|done]. cbn [negb]. destruct (_ =? 0); [|by apply IH].
    destruct (frame_done _) as [[] w']; [done|by apply IH].
  - set (data' := ztake _ _). pose proof (payload_loop_keeps (length (x :: data)) (ws_d w) c data' Hc) as Hp.
    destruct (payload_loop _ _ _ _ _) as [[[] d] c']; [|done]. cbn [negb]. destruct (negb _); [done|].
    destruct (frame_done _) as [[] w']; [done|by apply IH].
Qed.

Lemma ws_consume_keeps w p n c : P c -> P (ws_consume (Some sink) w p n c).2.
Proof using HP.
  intros Hc. unfold ws_consume. destruct w as [w|]; [|done]. destruct (_ && _); [done|]. destruct (bool_decide _); [done|]. destruct (negb _); [done|].
  pose proof (ws_loop_keeps (length (ztake n (default [] p))) w c (ztake n (default [] p)) Hc) as H.
  by destruct (ws_loop _ _ _ _ _) as [[st w1] c1].
Qed.
End keeps.
