(* ===== verification/Sha1.v ===== *)
(** * SHA-1 ([apps/authd/sha1.c])

    The one-shot hash of the WebSocket upgrade, and its equivalence with the
    definition of FIPS 180: padding to whole blocks, the recursive message
    schedule, and the round functions written with exclusive or. *)

From S2P Require Import Prelude.

Definition SHA1_DIGEST_BYTES : Z := 20.
Definition SHA1_BLOCK_BYTES : Z := 64.

(** [~] on a [uint32_t]. *)
Definition not32 (v : Z) : Z := Z.land (Z.lnot v) (Z.ones 32).

Definition rol (v s : Z) : Z := u32 (Z.lor (u32 (Z.shiftl v s)) (Z.shiftr v (32 - s))).

(** The five chaining words. *)
Record sha1_h := Sha1H { h0 : Z; h1 : Z; h2 : Z; h3 : Z; h4 : Z }.

(** The first loop: sixteen big-endian words. *)
Definition load_words (b : list byte) : list Z :=
  map (fun i => Z.lor (Z.lor (Z.lor (Z.shiftl (bz (byte_at b (Z.of_nat i * 4))) 24) (Z.shiftl (bz (byte_at b (Z.of_nat i * 4 + 1))) 16))
    (Z.shiftl (bz (byte_at b (Z.of_nat i * 4 + 2))) 8)) (bz (byte_at b (Z.of_nat i * 4 + 3)))) (seq 0 16).

(** The second loop, [k] entries from the end of [w] on. *)
Fixpoint expand (k : nat) (w : list Z) : list Z :=
  match k with
  | O => w
  | S k =>
    let i := length w in
    let x := Z.lxor (Z.lxor (Z.lxor (nth (i - 3) w 0) (nth (i - 8) w 0)) (nth (i - 14) w 0)) (nth (i - 16) w 0) in
    expand k (w ++ [rol x 1])
  end.

(** The function and the constant of round [i]. *)
Definition sha1_fk (i : nat) (bb c d : Z) : Z * Z :=
  if (i <? 20)%nat then (Z.lor (Z.land bb c) (Z.land (not32 bb) d), 0x5a827999) else
  if (i <? 40)%nat then (Z.lxor (Z.lxor bb c) d, 0x6ed9eba1) else
  if (i <? 60)%nat then (Z.lor (Z.lor (Z.land bb c) (Z.land bb d)) (Z.land c d), 0x8f1bbcdc) else
  (Z.lxor (Z.lxor bb c) d, 0xca62c1d6).

(** The body of the third loop. *)
Definition sha1_round (w : list Z) (s : sha1_h) (i : nat) : sha1_h :=
  let '(Sha1H a bb c d e) := s in
  let '(f, k) := sha1_fk i bb c d in
  let t := u32 (rol a 5 + f + e + k + nth i w 0) in
  Sha1H t a (rol bb 30) c d.

Definition sha1_block (h : sha1_h) (b : list byte) : sha1_h :=
  let w := expand 64 (load_words b) in
  let s := fold_left (sha1_round w) (seq 0 80) h in
  Sha1H (u32 (h0 h + h0 s)) (u32 (h1 h + h1 s)) (u32 (h2 h + h2 s)) (u32 (h3 h + h3 s)) (u32 (h4 h + h4 s)).

(** The loop over whole blocks; every round takes 64 bytes, [fuel] bounds the rounds. *)
Fixpoint sha1_blocks (fuel : nat) (h : sha1_h) (inp : list byte) (n off : Z) : sha1_h * Z :=
  match fuel with
  | O => (h, off)
  | S fuel => if SHA1_BLOCK_BYTES <=? n - off then sha1_blocks fuel (sha1_block h (zdrop off inp)) inp n (off + SHA1_BLOCK_BYTES) else (h, off)
  end.

Definition sha1_init : sha1_h := Sha1H 0x67452301 0xefcdab89 0x98badcfe 0x10325476 0xc3d2e1f0.

Definition sha1_digest (h : sha1_h) : list byte :=
  concat (map (fun v => [u8 (Z.shiftr v 24); u8 (Z.shiftr v 16); u8 (Z.shiftr v 8); u8 v]) [h0 h; h1 h; h2 h; h3 h; h4 h]).

(** The padded last block or blocks, and their length. *)
Definition sha1_tail (inp : list byte) (n off : Z) : list byte * Z :=
  let rem := n - off in
  let tail := zeros (2 * SHA1_BLOCK_BYTES) in
  let tail := poke 0 (peek off rem inp) tail in
  let tail := poke rem [x80] tail in
  let total := if SHA1_BLOCK_BYTES <? rem + 1 + 8 then 2 * SHA1_BLOCK_BYTES else SHA1_BLOCK_BYTES in
  let bits := u64 (n * 8) in
  (fold_left (fun tail i => poke (total - 1 - Z.of_nat i) [u8 (Z.shiftr bits (8 * Z.of_nat i))] tail) (seq 0 8) tail, total).

Definition sha1 (inp : list byte) (n : Z) : list byte :=
  let '(h, off) := sha1_blocks (Z.to_nat n) sha1_init inp n 0 in
  let '(tail, total) := sha1_tail inp n off in
  let h := sha1_block h tail in
  let h := if total =? 2 * SHA1_BLOCK_BYTES then sha1_block h (zdrop SHA1_BLOCK_BYTES tail) else h in
  sha1_digest h.

(** ** FIPS 180 *)

Module fips.

Definition M (b : list byte) (t : nat) : Z := be_dec (take 4 (drop (4 * t) b)).
Definition ROTL (s v : Z) : Z := Z.lor (Z.shiftl v s mod 2 ^ 32) (Z.shiftr v (32 - s)).

(** The schedule by its recurrence; [fuel] above [t] is enough. *)
Fixpoint W_at (fuel : nat) (b : list byte) (t : nat) : Z :=
  match fuel with
  | O => 0
  | S k =>
    if decide (t < 16)%nat then M b t else
    ROTL 1 (Z.lxor (Z.lxor (W_at k b (t - 3)) (W_at k b (t - 8))) (Z.lxor (W_at k b (t - 14)) (W_at k b (t - 16))))
  end.
Definition W (b : list byte) (t : nat) : Z := W_at (S t) b t.

Definition Ch (x y z : Z) : Z := Z.lxor (Z.land x y) (Z.land (Z.lnot x) z).
Definition Parity (x y z : Z) : Z := Z.lxor (Z.lxor x y) z.
Definition Maj (x y z : Z) : Z := Z.lxor (Z.lxor (Z.land x y) (Z.land x z)) (Z.land y z).
Definition f (t : nat) : Z -> Z -> Z -> Z := if decide (t < 20)%nat then Ch else if decide (40 <= t < 60)%nat then Maj else Parity.
Definition K (t : nat) : Z :=
  if decide (t < 20)%nat then 0x5a827999 else if decide (t < 40)%nat then 0x6ed9eba1 else
  if decide (t < 60)%nat then 0x8f1bbcdc else 0xca62c1d6.

(** One step of the compression: (a, b, c, d, e). *)
Definition step (blk : list byte) (s : Z * Z * Z * Z * Z) (t : nat) : Z * Z * Z * Z * Z :=
  let '(a, b, c, d, e) := s in ((ROTL 5 a + f t b c d + e + K t + W blk t) mod 2 ^ 32, a, ROTL 30 b, c, d).

Definition compress (H : Z * Z * Z * Z * Z) (blk : list byte) : Z * Z * Z * Z * Z :=
  let '(H0, H1, H2, H3, H4) := H in
  let '(a, b, c, d, e) := fold_left (step blk) (seq 0 80) H in
  ((H0 + a) mod 2 ^ 32, (H1 + b) mod 2 ^ 32, (H2 + c) mod 2 ^ 32, (H3 + d) mod 2 ^ 32, (H4 + e) mod 2 ^ 32).

(** The message, one bit, zeros up to 56 bytes in the last block, and the length in bits. *)
Definition pad (m : list byte) : list byte := m ++ [x80] ++ zeros ((55 - blen m) mod 64) ++ be_enc 8 (8 * blen m).

Fixpoint blocks (k : nat) (l : list byte) : list (list byte) :=
  match k with O => [] | S k => take 64 l :: blocks k (drop 64 l) end.

Definition SHA1 (m : list byte) : list byte :=
  let '(a, b, c, d, e) := fold_left compress (blocks (Nat.div (length (pad m)) 64) (pad m))
    (0x67452301, 0xefcdab89, 0x98badcfe, 0x10325476, 0xc3d2e1f0) in
  be_enc 4 a ++ be_enc 4 b ++ be_enc 4 c ++ be_enc 4 d ++ be_enc 4 e.

End fips.

(** The vector "abc" of FIPS 180. *)
Example sha1_abc :
  sha1 (label "abc") 3 = [xa9; x99; x3e; x36; x47; x06; x81; x6a; xba; x3e; x25; x71; x78; x50; xc2; x6c; x9c; xd0; xd8; x9d].
Proof. vm_compute. reflexivity. Qed.

(** ** Words *)

Definition word (x : Z) : Prop := 0 <= x < 2 ^ 32.

Lemma u32_ones x : u32 x = Z.land x (Z.ones 32).
Proof. unfold u32. by rewrite Z.land_ones by lia. Qed.

Lemma word_u32 x : word (u32 x).
Proof. by apply Z.mod_pos_bound. Qed.

Lemma u32_word x : word x -> u32 x = x.
Proof. apply Z.mod_small. Qed.

Lemma word_of_u32 x : u32 x = x -> word x.
Proof. intros <-. apply word_u32. Qed.

Lemma word_lor x y : word x -> word y -> word (Z.lor x y).
Proof.
  intros Hx Hy. apply word_of_u32. rewrite u32_ones, Z.land_lor_distr_l, <-!u32_ones. by rewrite !u32_word.
Qed.

Lemma word_lxor x y : word x -> word y -> word (Z.lxor x y).
Proof.
  intros Hx Hy. apply word_of_u32. rewrite u32_ones. apply Z.bits_inj'. intros n Hn. rewrite Z.land_spec, Z.lxor_spec.
  apply u32_word in Hx, Hy. rewrite u32_ones in Hx, Hy. rewrite <-Hx, <-Hy, !Z.land_spec. by destruct (Z.testbit x n), (Z.testbit y n), (Z.testbit (Z.ones 32) n).
Qed.

Lemma word_rol v s : word v -> 0 <= s <= 32 -> rol v s = fips.ROTL s v.
Proof.
  intros Hv Hs. unfold rol, fips.ROTL. apply u32_word, word_lor; [apply word_u32|]. unfold word in *.
  rewrite Z.shiftr_div_pow2 by lia. split; [apply Z.div_pos; lia|]. apply Z.div_lt_upper_bound; nia.
Qed.

Lemma Ch_word b c d : word d -> Z.lor (Z.land b c) (Z.land (not32 b) d) = fips.Ch b c d.
Proof.
  intros Hd. apply u32_word in Hd. rewrite u32_ones in Hd. unfold not32, fips.Ch. rewrite <-Hd. apply Z.bits_inj'. intros n Hn.
  rewrite Z.lor_spec, Z.lxor_spec, !Z.land_spec, Z.lnot_spec by done.
  by destruct (Z.testbit b n), (Z.testbit c n), (Z.testbit d n), (Z.testbit (Z.ones 32) n).
Qed.

Lemma Maj_word b c d : Z.lor (Z.lor (Z.land b c) (Z.land b d)) (Z.land c d) = fips.Maj b c d.
Proof.
  unfold fips.Maj. apply Z.bits_inj'. intros n Hn. rewrite !Z.lor_spec, !Z.lxor_spec, !Z.land_spec.
  by destruct (Z.testbit b n), (Z.testbit c n), (Z.testbit d n).
Qed.

(** ** The schedule *)

Lemma be_dec_4 a b c d :
  Z.lor (Z.lor (Z.lor (Z.shiftl (bz a) 24) (Z.shiftl (bz b) 16)) (Z.shiftl (bz c) 8)) (bz d) = be_dec [a; b; c; d].
Proof.
  unfold be_dec. cbn [fold_left]. unfold be_step. rewrite !Z.shiftl_lor, !Z.shiftl_shiftl by lia. cbn [Z.add Pos.add Pos.succ]. done.
Qed.

Lemma load_word b i : (i < 16)%nat -> 64 <= blen b -> nth i (load_words b) 0 = fips.M b i.
Proof.
  intros Hi Hb. unfold load_words. set (g := fun i => _). rewrite (nth_indep _ 0 (g 0%nat)) by (rewrite length_map, length_seq; lia).
  rewrite map_nth, seq_nth by lia. subst g. cbn beta. rewrite Nat.add_0_l, be_dec_4. unfold fips.M. f_equal.
  assert (Hd : exists x y z t l, drop (4 * i) b = x :: y :: z :: t :: l).
  { destruct (drop (4 * i) b) as [|x [|y [|z [|t l]]]] eqn:E; [..|by eexists _, _, _, _, _];
      apply (f_equal length) in E; rewrite length_drop in E; cbn in E; lia. }
  destruct Hd as (x & y & z & t & l & Hd). rewrite Hd.
  assert (Hat : forall k, byte_at b (Z.of_nat i * 4 + Z.of_nat k) = nth k (x :: y :: z :: t :: l) x00).
  { intros k. unfold byte_at. rewrite <-Hd, nth_skipn. f_equal. lia. }
  pose proof (Hat 0%nat) as H0. pose proof (Hat 1%nat) as H1. pose proof (Hat 2%nat) as H2. pose proof (Hat 3%nat) as H3.
  change (Z.of_nat 0) with 0 in H0. change (Z.of_nat 1) with 1 in H1. change (Z.of_nat 2) with 2 in H2. change (Z.of_nat 3) with 3 in H3.
  rewrite Z.add_0_r in H0. by rewrite H0, H1, H2, H3.
Qed.

(** [w] holds the first words of the schedule of [b]. *)
Definition scheduled (b : list byte) (w : list Z) : Prop :=
  (16 <= length w)%nat /\ forall i, (i < length w)%nat -> nth i w 0 = fips.W b i /\ word (fips.W b i).

Lemma W_at_fuel b t f1 f2 : (t < f1)%nat -> (t < f2)%nat -> fips.W_at f1 b t = fips.W_at f2 b t.
Proof.
  revert t f2. induction f1 as [|f1 IH]; intros t f2 H1 H2; [lia|]. destruct f2 as [|f2]; [lia|]. cbn [fips.W_at].
  destruct (decide (t < 16)%nat); [done|]. do 3 f_equal; apply IH; lia.
Qed.

Lemma W_first b t : (t < 16)%nat -> fips.W b t = fips.M b t.
Proof. intros Ht. unfold fips.W. cbn [fips.W_at]. by destruct (decide (t < 16)%nat). Qed.

Lemma W_next b t :
  (16 <= t)%nat -> fips.W b t = fips.ROTL 1 (Z.lxor (Z.lxor (fips.W b (t - 3)) (fips.W b (t - 8))) (Z.lxor (fips.W b (t - 14)) (fips.W b (t - 16)))).
Proof.
  intros Ht. unfold fips.W at 1. cbn [fips.W_at]. destruct (decide (t < 16)%nat); [lia|]. unfold fips.W.
  do 3 f_equal; apply W_at_fuel; lia.
Qed.

Lemma load_scheduled b : 64 <= blen b -> scheduled b (load_words b).
Proof.
  intros Hb. assert (Hl : length (load_words b) = 16%nat) by (unfold load_words; by rewrite length_map). split; [lia|]. rewrite Hl.
  intros i Hi. rewrite load_word, W_first by lia. split; [done|]. unfold fips.M, word.
  pose proof (be_dec_range (take 4 (drop (4 * i) b))) as Hr. rewrite length_take, length_drop in Hr.
  replace (4 `min` (length b - 4 * i))%nat with 4%nat in Hr by lia. exact Hr.
Qed.

Lemma expand_scheduled b k w : scheduled b w -> scheduled b (expand k w) /\ length (expand k w) = (length w + k)%nat.
Proof.
  revert w. induction k as [|k IH]; intros w Hw; [cbn; split; [done|lia]|]. cbn [expand]. pose proof Hw as [Hl Hn].
  set (x := Z.lxor _ _). assert (Hx : rol x 1 = fips.W b (length w) /\ word (rol x 1)).
  { destruct (Hn (length w - 3)%nat) as [E3 W3], (Hn (length w - 8)%nat) as [E8 W8], (Hn (length w - 14)%nat) as [E14 W14],
      (Hn (length w - 16)%nat) as [E16 W16]; [lia..|].
    assert (Hword : word x) by (subst x; rewrite E3, E8, E14, E16; by repeat apply word_lxor).
    split; [|apply word_u32]. rewrite word_rol by done || lia. subst x. rewrite W_next by done. by rewrite E3, E8, E14, E16, Z.lxor_assoc. }
  destruct (IH (w ++ [rol x 1])) as [H1 H2].
  { split; [rewrite length_app; lia|]. intros i. rewrite length_app. cbn [length]. intros Hi. destruct (decide (i = length w)) as [->|Hne].
    - rewrite app_nth2, Nat.sub_diag by lia. destruct Hx as [Hx Hxw]. cbn. rewrite Hx in Hxw. by split.
    - rewrite app_nth1 by lia. apply Hn. lia. }
  split; [done|]. rewrite H2, length_app. cbn. lia.
Qed.

(** ** The compression *)

Definition tuple (s : sha1_h) : Z * Z * Z * Z * Z := (h0 s, h1 s, h2 s, h3 s, h4 s).
Definition words (s : sha1_h) : Prop := word (h0 s) /\ word (h1 s) /\ word (h2 s) /\ word (h3 s) /\ word (h4 s).

Lemma fk_fips i b c d : word d -> sha1_fk i b c d = (fips.f i b c d, fips.K i).
Proof.
  intros Hd. unfold sha1_fk, fips.f, fips.K. rewrite Ch_word, Maj_word by done.
  destruct (Nat.ltb_spec i 20), (decide (i < 20)%nat); try lia; [done|].
  destruct (Nat.ltb_spec i 40), (decide (i < 40)%nat), (decide (40 <= i < 60)%nat); try lia; [done|..];
    destruct (Nat.ltb_spec i 60), (decide (i < 60)%nat); try lia; done.
Qed.

Lemma round_step b w s i :
  scheduled b w -> (i < length w)%nat -> words s ->
  tuple (sha1_round w s i) = fips.step b (tuple s) i /\ words (sha1_round w s i).
Proof.
  intros [_ Hn] Hi Hw. destruct s as [a bb c d e], Hw as (Ha & Hb & Hc & Hd & He). cbn [h0 h1 h2 h3 h4] in *. destruct (Hn i Hi) as [Hnth _].
  unfold sha1_round, fips.step, tuple. cbn [h0 h1 h2 h3 h4]. rewrite Hnth, <-(word_rol a 5), <-(word_rol bb 30) by done || lia.
  rewrite fk_fips by done. split; [done|]. split_and!; done || apply word_u32.
Qed.

Lemma load_first b : load_words b = load_words (take 64 b).
Proof.
  unfold load_words. apply map_ext_in. intros i Hi. apply in_seq in Hi.
  assert (Hat : forall k, 0 <= k < 64 -> byte_at b k = byte_at (take 64 b) k).
  { intros k Hk. unfold byte_at. rewrite nth_firstn. by destruct (Nat.ltb_spec (Z.to_nat k) 64); [|lia]. }
  by rewrite !Hat by lia.
Qed.

Lemma block_compress h b :
  64 <= blen b -> words h -> tuple (sha1_block h b) = fips.compress (tuple h) (take 64 b) /\ words (sha1_block h b).
Proof.
  intros Hb0 Hh. unfold sha1_block. rewrite load_first. assert (Hb : 64 <= blen (take 64 b)) by (rewrite length_take; lia). clear Hb0.
  revert Hb. generalize (take 64 b). clear b. intros b Hb. destruct (expand_scheduled b 64 (load_words b) (load_scheduled b Hb)) as [Hw Hl].
  set (w := expand 64 _) in *. replace (length (load_words b)) with 16%nat in Hl by (unfold load_words; by rewrite length_map).
  clearbody w. assert (Hfold : forall l s, Forall (fun i => (i < 80)%nat) l -> words s ->
    tuple (fold_left (sha1_round w) l s) = fold_left (fips.step b) l (tuple s) /\ words (fold_left (sha1_round w) l s)).
  { induction l as [|i l IH]; intros s Hall Hs; [done|]. apply Forall_cons in Hall as [Hi Hall].
    destruct (round_step b w s i) as [E Hs']; [done|lia|done|]. cbn [fold_left]. rewrite <-E. by apply IH. }
  destruct (Hfold (seq 0 80) h) as [E _]; [by apply Forall_forall; intros i; rewrite elem_of_seq; lia|done|].
  unfold fips.compress. unfold tuple in *. cbn [h0 h1 h2 h3 h4]. rewrite <-E. split; [done|]. split_and!; apply word_u32.
Qed.


(** ** Padding and blocks *)

#[local] Opaque fips.compress sha1_block.

Lemma blocks_S k l : fips.blocks (S k) l = take 64 l :: fips.blocks k (drop 64 l).
Proof. done. Qed.

Lemma fold_left_cons {A B} (g : A -> B -> A) x l a : fold_left g (x :: l) a = fold_left g l (g a x).
Proof. done. Qed.

Lemma blocks_app j k x y :
  length x = (64 * j)%nat -> fips.blocks (j + k) (x ++ y) = fips.blocks j x ++ fips.blocks k y.
Proof.
  revert x. induction j as [|j IH]; intros x Hx; [by destruct x|]. cbn [Nat.add fips.blocks app].
  rewrite take_app_le, drop_app_le by lia. f_equal. apply IH. rewrite length_drop. lia.
Qed.

(** The block loop consumes the whole blocks of the message. *)
Lemma sha1_blocks_fold fuel h inp j r k :
  words h -> (r < 64)%nat -> blen inp = Z.of_nat (64 * (j + k) + r) -> (k <= fuel)%nat ->
  exists h', sha1_blocks fuel h inp (blen inp) (64 * Z.of_nat j) = (h', 64 * Z.of_nat (j + k)) /\ words h' /\
    tuple h' = fold_left fips.compress (fips.blocks k (drop (64 * j) inp)) (tuple h).
Proof.
  revert fuel h j. induction k as [|k IH]; intros fuel h j Hh Hr Hl Hf.
  - exists h. split_and!; [|done..]. destruct fuel; cbn [sha1_blocks]; [by rewrite Nat.add_0_r|].
    unfold SHA1_BLOCK_BYTES. destruct (Z.leb_spec 64 (blen inp - 64 * Z.of_nat j)); [lia|]. by rewrite Nat.add_0_r.
  - destruct fuel as [|fuel]; [lia|]. cbn [sha1_blocks]. unfold SHA1_BLOCK_BYTES in *.
    destruct (Z.leb_spec 64 (blen inp - 64 * Z.of_nat j)); [|lia].
    destruct (block_compress h (zdrop (64 * Z.of_nat j) inp)) as [E Hw]; [rewrite length_drop; lia|done|].
    replace (64 * Z.of_nat j + 64) with (64 * Z.of_nat (S j)) by lia.
    destruct (IH fuel (sha1_block h (zdrop (64 * Z.of_nat j) inp)) (S j)) as (h' & E1 & Hw' & E2); [done|done|lia|lia|].
    exists h'. replace (S j + k)%nat with (j + S k)%nat in E1 by lia. split_and!; [done..|]. rewrite E2, E. rewrite (blocks_S k), fold_left_cons, drop_drop. replace (Z.to_nat (64 * Z.of_nat j)) with (64 * j)%nat by lia. by replace (64 * j + 64)%nat with (64 * S j)%nat by lia.
Qed.

(** The writes of the length, from the last byte down. *)
Lemma poke_below a l x off : 0 <= off -> off + 1 + blen l <= blen x -> poke off [a] (poke (off + 1) l x) = poke off (a :: l) x.
Proof.
  intros H1 H2. unfold poke. cbn [length]. rewrite take_app_le, take_take by (rewrite length_take; lia).
  replace (Z.to_nat off `min` Z.to_nat (off + 1))%nat with (Z.to_nat off) by lia. cbn [app]. do 2 f_equal.
  change (Z.of_nat 1) with 1. rewrite drop_app_ge by (rewrite length_take; lia).
  replace (Z.to_nat (off + 1) - _)%nat with 0%nat by (rewrite length_take; lia). rewrite drop_0. do 2 f_equal. lia.
Qed.

Lemma length_field bits total x k :
  Z.of_nat k <= total -> total <= blen x ->
  fold_left (fun tail i => poke (total - 1 - Z.of_nat i) [u8 (Z.shiftr bits (8 * Z.of_nat i))] tail) (seq 0 k) x =
  poke (total - Z.of_nat k) (be_enc k bits) x.
Proof.
  intros H1 H2. induction k as [|k IH]; [cbn; by rewrite poke_nil by lia|].
  rewrite seq_S, fold_left_app, IH by lia. cbn [fold_left Nat.add be_enc].
  replace (total - Z.of_nat k) with (total - 1 - Z.of_nat k + 1) by lia. rewrite poke_below by (rewrite ?length_be_enc; lia). f_equal. lia.
Qed.

Lemma poke_zeros a k n : 0 <= k -> blen a + k <= n -> poke 0 a (zeros n) = poke 0 (a ++ zeros k) (zeros n).
Proof.
  intros Hk Hn. rewrite !poke_0, length_app. unfold zeros. rewrite length_replicate, <-app_assoc, !drop_replicate, <-replicate_add.
  do 2 f_equal. lia.
Qed.

(** The tail buffer holds the rest of the message and the padding. *)
Lemma tail_pad inp n off :
  n = blen inp -> 0 <= off -> 0 <= n - off < 64 -> off mod 64 = 0 ->
  let '(tail, total) := sha1_tail inp n off in
  exists z, tail = (zdrop off inp ++ [x80] ++ zeros ((55 - n) mod 64) ++ be_enc 8 (u64 (8 * n))) ++ z /\
    blen tail = 128 /\ total = n - off + 1 + (55 - n) mod 64 + 8 /\ (total = 64 \/ total = 128).
Proof.
  intros Hn Ho Hr Hm. unfold sha1_tail, SHA1_BLOCK_BYTES. set (rem := n - off) in *.
  assert (Hz : (55 - n) mod 64 = if 64 <? rem + 1 + 8 then 119 - rem else 55 - rem).
  { destruct (Z.ltb_spec 64 (rem + 1 + 8)).
    - symmetry. apply Z.mod_unique_pos with (q := - (off / 64) - 1); [lia|]. pose proof (Z.div_mod off 64 ltac:(lia)). lia.
    - symmetry. apply Z.mod_unique_pos with (q := - (off / 64)); [lia|]. pose proof (Z.div_mod off 64 ltac:(lia)). lia. }
  set (total := if 64 <? rem + 1 + 8 then 2 * 64 else 64). set (zn := (55 - n) mod 64) in *.
  assert (Ht : total = rem + 1 + zn + 8 /\ (total = 64 \/ total = 128)) by (subst total; rewrite Hz; case_match; lia).
  assert (Hpk : peek off rem inp = zdrop off inp) by (unfold peek; apply take_ge; rewrite length_drop; lia).
  rewrite Hpk. assert (Hlr : blen (zdrop off inp) = rem) by (rewrite length_drop; lia).
  assert (Hzn : 0 <= zn < 64) by (by apply Z.mod_pos_bound). assert (Hz128 : blen (zeros 128) = 128) by done. change (2 * 64) with 128.
  rewrite (poke_append _ [x80]) by done. rewrite (poke_zeros _ zn) by (rewrite ?length_app; cbn [length]; lia).
  assert (HB : blen ((zdrop off inp ++ [x80]) ++ zeros zn) = total - 8).
  { rewrite !length_app. cbn [length]. pose proof (length_zeros zn). lia. }
  rewrite length_field; [|lia|rewrite length_poke; lia].
  rewrite poke_append by (rewrite HB; done). rewrite poke_0. eexists. split_and!.
  - rewrite <-!app_assoc. by rewrite (Z.mul_comm 8 n).
  - rewrite length_app, length_drop, length_app, length_be_enc. lia.
  - lia.
  - lia.
Qed.

Lemma blocks_take k l : (64 * k <= length l)%nat -> fips.blocks k l = fips.blocks k (take (64 * k) l).
Proof.
  intros Hl. rewrite <-(take_drop (64 * k) l) at 1. rewrite <-(Nat.add_0_r k) at 1.
  rewrite blocks_app by (rewrite length_take; lia). apply app_nil_r.
Qed.

Lemma digest_words h : sha1_digest h = be_enc 4 (h0 h) ++ be_enc 4 (h1 h) ++ be_enc 4 (h2 h) ++ be_enc 4 (h3 h) ++ be_enc 4 (h4 h).
Proof.
  assert (Hw : forall v, [u8 (Z.shiftr v 24); u8 (Z.shiftr v 16); u8 (Z.shiftr v 8); u8 v] = be_enc 4 v) by (intros v; cbn; by rewrite Z.shiftr_0_r).
  unfold sha1_digest. cbn [map concat]. by rewrite !Hw, app_nil_r.
Qed.

(** The last block or two. *)
Lemma tail_blocks h tail T z total :
  words h -> tail = T ++ z -> blen tail = 128 -> blen T = total -> total = 64 \/ total = 128 ->
  let h' := sha1_block h tail in
  tuple (if total =? 2 * SHA1_BLOCK_BYTES then sha1_block h' (zdrop SHA1_BLOCK_BYTES tail) else h') =
  fold_left fips.compress (fips.blocks (Z.to_nat (total / 64)) T) (tuple h).
Proof.
  intros Hw Ht Hl HT Hc h'. destruct (block_compress h tail) as [E1 Hw1]; [lia|done|]. fold h' in E1, Hw1. unfold SHA1_BLOCK_BYTES.
  destruct Hc as [->| ->].
  - change (64 =? 2 * 64) with false. cbv iota. change (Z.to_nat (64 / 64)) with 1%nat. rewrite blocks_S, fold_left_cons, E1, Ht.
    by rewrite take_app_le by lia.
  - change (128 =? 2 * 64) with true. cbv iota. change (Z.to_nat (128 / 64)) with 2%nat. change (Z.to_nat 64) with 64%nat.
    destruct (block_compress h' (drop 64 tail)) as [E2 _]; [rewrite length_drop; lia|done|].
    rewrite !blocks_S, !fold_left_cons, E2, E1, Ht. rewrite drop_app_le, !take_app_le by (rewrite ?length_drop; lia). done.
Qed.

(** The hash equals the definition of FIPS 180 on every message whose length in bits fits 64 bits: padding
    in one or two extra blocks, the schedule by its recurrence and the round functions with exclusive or. *)
Theorem sha1_fips m : 8 * blen m < 2 ^ 64 -> sha1 m (blen m) = fips.SHA1 m.
Proof.
  intros Hm. set (k := (length m / 64)%nat). set (r := (length m mod 64)%nat).
  assert (Hkr : length m = (64 * k + r)%nat /\ (r < 64)%nat).
  { split; [apply Nat.div_mod; lia|apply Nat.mod_upper_bound; lia]. } destruct Hkr as [Hkr Hr].
  unfold sha1. rewrite Nat2Z.id.
  destruct (sha1_blocks_fold (length m) sha1_init m 0 r k) as (h & E & Hw & Hf); [by repeat split|done|lia|lia|].
  change (64 * Z.of_nat 0) with 0 in E. rewrite E. clear E. change (64 * 0)%nat with 0%nat in Hf. rewrite drop_0 in Hf.
  pose proof (tail_pad m (blen m) (64 * Z.of_nat (0 + k))) as Ht. rewrite u64_small in Ht by (unfold UINT64_MAX; lia).
  destruct (sha1_tail _ _ _) as [tail total]. destruct Ht as (z & Htail & Hlen & Htot & Hcase); [done|lia|lia|by rewrite Z.mul_comm, Z.mod_mul|].
  set (T := zdrop _ m ++ _) in Htail. cbn [Nat.add] in *.
  assert (HT : blen T = total).
  { subst T. rewrite !length_app, length_be_enc, length_drop. cbn [length]. pose proof (length_zeros ((55 - blen m) mod 64) ltac:(by apply Z.mod_pos_bound)). lia. }
  pose proof (tail_blocks h tail T z total Hw Htail Hlen HT Hcase) as Hfin. cbv zeta in Hfin. rewrite digest_words.
  assert (Hpad : fips.pad m = take (64 * k) m ++ T).
  { unfold fips.pad. subst T. replace (Z.to_nat (64 * Z.of_nat k)) with (64 * k)%nat by lia. by rewrite (app_assoc (take _ m)), take_drop. }
  assert (Hn : (length (fips.pad m) / 64 = k + Z.to_nat (total / 64))%nat).
  { replace (length (fips.pad m)) with (k * 64 + length T)%nat by (rewrite Hpad, length_app, length_take; lia).
    rewrite Nat.div_add_l by lia. f_equal.
    destruct Hcase as [Hc|Hc]; rewrite Hc in *; [replace (length T) with 64%nat by lia|replace (length T) with 128%nat by lia]; done. }
  unfold fips.SHA1. rewrite Hn, Hpad, blocks_app by (rewrite length_take; lia).
  rewrite fold_left_app, <-blocks_take by lia. change (_, _, _, _, _) with (tuple sha1_init) at 1. rewrite <-Hf, <-Hfin. done.
Qed.

Lemma sha1_fips_witness : sha1 (label "abc") 3 = fips.SHA1 (label "abc").
Proof. apply (sha1_fips (label "abc")). reflexivity. Defined.
