(* ===== verification/WsUpgrade.v ===== *)
(** * The WebSocket upgrade ([apps/authd/ws.c], HTTP part)

    The server's parser of the HTTP upgrade request, the accept value, the
    refusals, and the client's request and check of the answer.  A pointer with
    a length is a list of bytes; a C string is the list of its characters.  The
    base64 functions of libsodium are parameters. *)

From S2P Require Import Prelude Ws WsProps Sha1.

(** ** libsodium's base64 *)

(** [sodium_base642bin] into at most [max] bytes ([None]: it fails) and
    [sodium_bin2base64], variant ORIGINAL. *)
Class Base64 := {
  base642bin (max : Z) (b64 : list byte) : option (list byte);
  bin2base64 (bin : list byte) : list byte }.

(** Documented behaviour: printable output, four characters for every three
    bytes begun, and decoding inverts encoding. *)
Class Base64Law (B : Base64) : Prop := {
  b64_length bin : blen (bin2base64 bin) = (blen bin + 2) / 3 * 4;
  b64_printable bin : Forall (fun c => 0x21 <= bz c <= 0x7e) (bin2base64 bin);
  b64_roundtrip bin max : blen bin <= max -> base642bin max (bin2base64 bin) = Some bin }.

(** ** The C library *)

Definition SP : byte := x20.
Definition TAB : byte := x09.
Definition CR : byte := x0d.
Definition LF : byte := x0a.
Definition crlf : list byte := [CR; LF].

(** [memchr(l, c, blen l)] as an index. *)
Fixpoint memchr (l : list byte) (c : byte) : option Z :=
  match l with
  | [] => None
  | x :: l => if bool_decide (x = c) then Some 0 else (fun i => i + 1) <$> memchr l c
  end.

(** The characters of a C string. *)
Fixpoint cstr (l : list byte) : list byte :=
  match l with [] => [] | x :: l => if bool_decide (x = x00) then [] else x :: cstr l end.

(** [snprintf(buf, cap, ...)] of a text: the buffer and the returned length. *)
Definition snprintf (cap : Z) (text buf : list byte) : list byte * Z :=
  (if 0 <? cap then poke 0 (ztake (cap - 1) text ++ [x00]) buf else buf, blen text).

(** [while (n > 0 && p(l[n-1])) n--]: without the trailing bytes in [p]. *)
Fixpoint drop_last_while (p : byte -> bool) (l : list byte) : list byte :=
  match l with
  | [] => []
  | x :: l => match drop_last_while p l with [] => if p x then [] else [x] | r => x :: r end
  end.

(** [while (n > 0 && p(l[0])) l++]. *)
Fixpoint drop_while (p : byte -> bool) (l : list byte) : list byte :=
  match l with [] => [] | x :: l' => if p x then drop_while p l' else l end.

(** The bytes before and from the first [c] on. *)
Fixpoint split_at (c : byte) (l : list byte) : list byte * list byte :=
  match l with [] => ([], []) | x :: l' => if bool_decide (x = c) then ([], l) else let '(a, b) := split_at c l' in (x :: a, b) end.

(** ** Helpers of ws.c *)

Definition fold_case (x : byte) : byte := if (65 <=? bz x) && (bz x <=? 90) then u8 (bz x + 32) else x.

Fixpoint ci_eq_loop (a b : list byte) : bool :=
  match a, b with
  | x :: a, y :: b => if bool_decide (fold_case x = fold_case y) then ci_eq_loop a b else false
  | _, _ => true
  end.

Definition ci_eq (a b : list byte) : bool := if negb (blen a =? blen b) then false else ci_eq_loop a b.

Definition is_blank (x : byte) : bool := bool_decide (x = SP) || bool_decide (x = TAB).
Definition is_sep (x : byte) : bool := is_blank x || bool_decide (x = x2c).

(** Every round consumes a byte: [fuel] is the length of [v]. *)
Fixpoint has_token_loop (fuel : nat) (v tok : list byte) : bool :=
  match fuel, v with
  | S fuel, _ :: _ =>
    let '(t, rest) := split_at x2c (drop_while is_sep v) in
    let t := drop_last_while is_blank t in
    if (0 <? blen t) && ci_eq t tok then true else has_token_loop fuel rest tok
  | _, _ => false
  end.
Definition has_token (v tok : list byte) : bool := has_token_loop (length v) v tok.

Definition WS_GUID : list byte := label "258EAFA5-E914-47DA-95CA-C5AB0DC85B11".
Definition WS_KEY_B64_LEN : Z := 24.
Definition WS_ACCEPT_B64_LEN : Z := 28.
Definition WS_UPGRADE_MAX : Z := 4096.

Section upgrade.
Context {B : Base64}.

(** [true] is the return value 0; the list is the buffer [out]. *)
Definition ws_accept_key (key_b64 : option (list byte)) (key_len : Z) : bool * list byte :=
  let out := zeros (WS_ACCEPT_B64_LEN + 1) in
  match key_b64 with
  | None => (false, out)
  | Some key =>
    if negb (key_len =? WS_KEY_B64_LEN) then (false, out) else
    match base642bin 16 (ztake key_len key) with
    | None => (false, out)
    | Some raw =>
      if negb (blen raw =? 16) then (false, out) else
      let buf := ztake WS_KEY_B64_LEN key ++ WS_GUID in
      (true, poke 0 (bin2base64 (sha1 buf (blen buf)) ++ [x00]) out)
    end
  end.

(** ** The request *)

Definition is_printable (c : byte) : bool := (0x21 <=? bz c) && (bz c <=? 0x7e).

Definition set_state (w : ws_t) (v : list byte) : ws_t :=
  Ws (ws_stage w) (poke 0 v (ws_state w)) (blen v) (ws_expect_mask w) (ws_d w) (ws_r w).

(** The parameters of a query, up to the first usable [state]. *)
Fixpoint take_state_loop (fuel : nat) (w : ws_t) (q : list byte) : ws_status_t * ws_t :=
  match fuel, q with
  | S fuel, _ :: _ =>
    let '(seg, rest) := split_at x26 q in
    if (6 <? blen seg) && memeq seg (label "state=") 6 then
      let v := zdrop 6 seg in
      if WS_STATE_MAX <? blen v then (WS_ERR_PROTOCOL, w) else
      if forallb is_printable v then (WS_OK, set_state w v) else (WS_ERR_PROTOCOL, w)
    else take_state_loop fuel w (tail rest)
  | _, _ => (WS_OK, w)
  end.

Definition take_state (w : ws_t) (target : list byte) : ws_status_t * ws_t :=
  match memchr target x3f with
  | None => (WS_OK, w)
  | Some i => let q := zdrop (i + 1) target in take_state_loop (length q) w q
  end.

(** What the header loop has seen. *)
Record seen := Seen { have_upgrade : bool; have_connection : bool; have_version : bool; s_key : option (list byte) }.

Definition strip_cr (line : list byte) : list byte :=
  match last line with Some c => if bool_decide (c = CR) then removelast line else line | None => line end.

(** One header line, already split at the colon. *)
Definition note_field (s : seen) (name v : list byte) : seen :=
  if ci_eq name (label "Upgrade") then
    Seen (has_token v (label "websocket")) (have_connection s) (have_version s) (s_key s)
  else if ci_eq name (label "Connection") then
    Seen (have_upgrade s) (has_token v (label "Upgrade")) (have_version s) (s_key s)
  else if ci_eq name (label "Sec-WebSocket-Version") then
    Seen (have_upgrade s) (have_connection s) (bool_decide (v = label "13")) (s_key s)
  else if ci_eq name (label "Sec-WebSocket-Key") then
    Seen (have_upgrade s) (have_connection s) (have_version s) (Some v)
  else s.

(** The header lines of [rest]; [None] is WS_ERR_PROTOCOL.  Every round consumes a byte. *)
Fixpoint header_loop (fuel : nat) (rest : list byte) (s : seen) : option seen :=
  match fuel, rest with
  | S fuel, _ :: _ =>
    match memchr rest LF with
    | None => None
    | Some e =>
      let h := strip_cr (ztake e rest) in
      if blen h =? 0 then Some s else
      match memchr h x3a with
      | None => None
      | Some nlen =>
        let v := drop_last_while is_blank (drop_while is_blank (zdrop (nlen + 1) h)) in
        header_loop fuel (zdrop (e + 1) rest) (note_field s (ztake nlen h) v)
      end
    end
  | _, _ => Some s
  end.

Definition response_101 (accept : list byte) : list byte :=
  label "HTTP/1.1 101 Switching Protocols" ++ crlf ++ label "Upgrade: websocket" ++ crlf ++ label "Connection: Upgrade" ++ crlf ++
  label "Sec-WebSocket-Accept: " ++ accept ++ crlf ++ crlf.

(** [req] holds [len] bytes when it is not NULL. *)
Definition ws_upgrade (w : option ws_t) (req : option (list byte)) (len : Z) : ws_status_t * option ws_t :=
  match w, req with
  | Some w0, Some r =>
    if (len =? 0) || (WS_UPGRADE_MAX <? len) then (WS_ERR_PROTOCOL, w) else
    let r := ztake len r in
    match memchr r LF with
    | None => (WS_ERR_PROTOCOL, w)
    | Some eol =>
      let line := strip_cr (ztake eol r) in
      if (blen line <? 14) || negb (memeq r (label "GET ") 4) then (WS_ERR_PROTOCOL, w) else
      let tgt := zdrop 4 line in
      match memchr tgt SP with
      | None => (WS_ERR_PROTOCOL, w)
      | Some tgt_len =>
        let ver_len := blen line - 4 - tgt_len - 1 in
        if negb ((ver_len =? 8) && memeq (zdrop (tgt_len + 1) tgt) (label "HTTP/1.1") 8) then (WS_ERR_PROTOCOL, w) else
        match take_state w0 (ztake tgt_len tgt) with
        | (WS_OK, w1) =>
          let rest := zdrop (eol + 1) r in
          match header_loop (length rest) rest (Seen false false false None) with
          | None => (WS_ERR_PROTOCOL, Some w1)
          | Some s =>
            match s_key s with
            | Some key =>
              if negb (have_upgrade s) || negb (have_connection s) || negb (have_version s) then (WS_ERR_PROTOCOL, Some w1) else
              let '(ok, accept) := ws_accept_key (Some key) (blen key) in
              if negb ok then (WS_ERR_PROTOCOL, Some w1) else
              let cap := WS_SRV_HDR_MAX + WS_CTRL_MAX in
              let '(buf, n) := snprintf cap (response_101 (cstr accept)) (r_buf (ws_r w1)) in
              if (n <=? 0) || (cap <=? n) then (WS_ERR_PROTOCOL, Some (set_reply w1 (WsReply buf (r_len (ws_r w1)) (r_sent (ws_r w1))))) else
              (WS_OK, Some (set_stage (set_reply w1 (WsReply buf n 0)) WS_STAGE_OPEN))
            | None => (WS_ERR_PROTOCOL, Some w1)
            end
          end
        | (_, w1) => (WS_ERR_PROTOCOL, Some w1)
        end
      end
    end
  | _, _ => (WS_ERR_PROTOCOL, w)
  end.

Definition response_refused (code : Z) : list byte :=
  label "HTTP/1.1 " ++ (if code =? 429 then label "429 Too Many Requests" else label "503 Service Unavailable") ++ crlf ++
  label "Connection: close" ++ crlf ++ label "Content-Length: 0" ++ crlf ++ crlf.

Definition ws_refuse (w : option ws_t) (code : Z) : ws_status_t * option ws_t :=
  match w with
  | None => (WS_ERR_PROTOCOL, w)
  | Some w0 =>
    let cap := WS_SRV_HDR_MAX + WS_CTRL_MAX in
    let '(buf, n) := snprintf cap (response_refused code) (r_buf (ws_r w0)) in
    if (n <=? 0) || (cap <=? n) then (WS_ERR_PROTOCOL, Some (set_stage (set_reply w0 (WsReply buf 0 0)) WS_STAGE_CLOSED)) else
    (WS_OK, Some (set_stage (set_reply w0 (WsReply buf n 0)) WS_STAGE_CLOSED))
  end.

(** ** The client *)

Definition request_text (path state key : list byte) : list byte :=
  label "GET " ++ path ++ (if 0 <? blen state then label "?state=" else []) ++ state ++ label " HTTP/1.1" ++ crlf ++
  label "Host: authd" ++ crlf ++ label "Upgrade: websocket" ++ crlf ++ label "Connection: Upgrade" ++ crlf ++
  label "Sec-WebSocket-Key: " ++ key ++ crlf ++ label "Sec-WebSocket-Version: 13" ++ crlf ++ crlf.

(** Result: success, [out], [*out_len] and [expect].  [state] may be NULL. *)
Definition ws_client_request (out : option (list byte)) (cap : Z) (out_len : option Z) (path state nonce expect : option (list byte))
    : bool * option (list byte) * option Z * option (list byte) :=
  match out, out_len, path, nonce, expect with
  | Some o, Some _, Some p, Some nonce, Some _ =>
    let key := poke 0 (bin2base64 (ztake 16 nonce) ++ [x00]) (zeros (WS_KEY_B64_LEN + 1)) in
    let '(ok, ex) := ws_accept_key (Some key) WS_KEY_B64_LEN in
    if negb ok then (false, out, out_len, Some ex) else
    let '(buf, n) := snprintf cap (request_text p (default [] state) (cstr key)) o in
    if (n <=? 0) || (cap <=? n) then (false, Some buf, out_len, Some ex) else (true, Some buf, Some n, Some ex)
  | _, _, _, _, _ => (false, out, out_len, expect)
  end.

(** Does [l] contain [e]?  The loop over [i + elen <= len]. *)
Fixpoint contains (l e : list byte) : bool :=
  if blen e <=? blen l then if memeq l e (blen e) then true else match l with [] => false | _ :: l => contains l e end else false.

Definition ws_client_check_101 (resp : option (list byte)) (len : Z) (expect : option (list byte)) : bool :=
  match resp, expect with
  | Some r, Some e =>
    if len <? 12 then false else if negb (memeq r (label "HTTP/1.1 101") 12) then false else contains (ztake len r) (cstr e)
  | _, _ => false
  end.

End upgrade.

(** ** The outcome of an upgrade *)

Definition state_ok (w : ws_t) : Prop :=
  blen (ws_state w) = WS_STATE_MAX /\ 0 <= ws_state_len w <= WS_STATE_MAX /\ forallb is_printable (ztake (ws_state_len w) (ws_state w)) = true.

Definition same_but_state (w w' : ws_t) : Prop :=
  ws_stage w' = ws_stage w /\ ws_expect_mask w' = ws_expect_mask w /\ ws_d w' = ws_d w /\ ws_r w' = ws_r w.

Lemma split_at_length c l : (length (split_at c l).1 + length (split_at c l).2 = length l)%nat.
Proof.
  induction l as [|x l IH]; [done|]. cbn [split_at]. case_bool_decide; [done|]. destruct (split_at c l) as [a b]. cbn in *. lia.
Qed.

Lemma take_state_loop_ok fuel w q st w' :
  state_ok w -> take_state_loop fuel w q = (st, w') -> state_ok w' /\ same_but_state w w' /\ st <> WS_NEED_MORE /\ (st <> WS_OK -> w' = w).
Proof.
  revert q. induction fuel as [|fuel IH]; intros q Hw; cbn [take_state_loop]; [by intros [= <- <-]|].
  destruct q as [|x q]; [by intros [= <- <-]|]. destruct (split_at x26 (x :: q)) as [seg rest]. destruct (_ && _); [|by apply IH].
  destruct (WS_STATE_MAX <? _) eqn:Hm; [by intros [= <- <-]|]. apply Z.ltb_ge in Hm.
  destruct (forallb _ _) eqn:Hp; [|by intros [= <- <-]]. intros [= <- <-]. destruct Hw as (Hs & _ & _). split; [|done].
  unfold state_ok, set_state. cbn [ws_state ws_state_len]. rewrite length_poke, take_poke_0 by lia. split_and!; done || lia.
Qed.

Lemma take_state_ok w t st w' :
  state_ok w -> take_state w t = (st, w') -> state_ok w' /\ same_but_state w w' /\ st <> WS_NEED_MORE /\ (st <> WS_OK -> w' = w).
Proof. intros Hw. unfold take_state. destruct (memchr t x3f); [by apply take_state_loop_ok|by intros [= <- <-]]. Qed.

Section upgraded.
Context {B : Base64} `{!Base64Law B}.

Lemma length_sha1 m n : blen (sha1 m n) = SHA1_DIGEST_BYTES.
Proof. unfold sha1. destruct (sha1_blocks _ _ _ _ _) as [h off]. destruct (sha1_tail _ _ _) as [tail total]. rewrite digest_words. done. Qed.

Definition accept_of (key : list byte) : list byte := bin2base64 (sha1 (key ++ WS_GUID) (blen (key ++ WS_GUID))).

Lemma length_accept key : blen (accept_of key) = WS_ACCEPT_B64_LEN.
Proof. unfold accept_of. by rewrite b64_length, length_sha1. Qed.

Lemma printable_no_nul l : Forall (fun c => 0x21 <= bz c <= 0x7e) l -> forall r, cstr (l ++ x00 :: r) = l.
Proof.
  induction 1 as [|x l Hx _ IH]; intros r; [done|]. cbn [app cstr]. rewrite bool_decide_false by (intros ->; cbn in Hx; lia). by rewrite IH.
Qed.

Lemma cstr_poke l n : blen l < n -> Forall (fun c => 0x21 <= bz c <= 0x7e) l -> cstr (poke 0 (l ++ [x00]) (zeros n)) = l.
Proof. intros Hl Hp. rewrite poke_0, <-app_assoc. by apply printable_no_nul. Qed.

(** A key is accepted exactly when it is 24 characters that decode to 16 bytes. *)
Lemma accept_key_spec key :
  let '(ok, out) := ws_accept_key (Some key) (blen key) in
  if ok then blen key = WS_KEY_B64_LEN /\ (exists raw, base642bin 16 key = Some raw /\ blen raw = 16) /\ cstr out = accept_of key else True.
Proof.
  unfold ws_accept_key. destruct (Z.eqb_spec (blen key) WS_KEY_B64_LEN) as [Hl|]; [|done]. cbn [negb]. rewrite take_all_z by done.
  destruct (base642bin 16 key) as [raw|] eqn:Hr; [|done]. destruct (Z.eqb_spec (blen raw) 16); [|done]. cbn [negb].
  rewrite take_all_z by done. split_and!; [done|by exists raw|]. apply cstr_poke; [by rewrite length_accept|apply b64_printable].
Qed.

Definition accepted_key (key : list byte) : Prop := blen key = WS_KEY_B64_LEN /\ exists raw, base642bin 16 key = Some raw /\ blen raw = 16.

Lemma accept_key_ok key r :
  accepted_key key -> ws_accept_key (Some (key ++ r)) WS_KEY_B64_LEN = (true, poke 0 (accept_of key ++ [x00]) (zeros (WS_ACCEPT_B64_LEN + 1))).
Proof.
  intros [Hl (raw & Hr & Hrl)]. unfold ws_accept_key. rewrite Z.eqb_refl. cbn [negb]. rewrite <-Hl, Nat2Z.id, take_app_length, Hr, Hrl. done.
Qed.

Lemma length_101 a : blen (response_101 a) = 101 + blen a.
Proof. unfold response_101. rewrite !length_app. cbn. lia. Qed.

Lemma length_refused code : blen (response_refused code) < WS_SRV_HDR_MAX + WS_CTRL_MAX.
Proof. unfold response_refused. rewrite !length_app. destruct (code =? 429); vm_compute; done. Qed.

(** A text that fits is written whole, and the NUL after it. *)
Lemma snprintf_fits cap text buf :
  blen text < cap -> cap <= blen buf ->
  let '(b, n) := snprintf cap text buf in n = blen text /\ ztake n b = text /\ blen b = blen buf.
Proof.
  intros Ht Hb. unfold snprintf. rewrite (proj2 (Z.ltb_lt 0 cap)) by lia. rewrite (take_ge text) by lia. split_and!; [done| |].
  - rewrite poke_0, <-app_assoc, Nat2Z.id. apply take_app_length.
  - rewrite length_poke; [done..|]. rewrite length_app. cbn. lia.
Qed.

(** The reply of a successful upgrade. *)
Definition answers_101 (w : ws_t) (key : list byte) : Prop :=
  r_sent (ws_r w) = 0 /\ ztake (r_len (ws_r w)) (r_buf (ws_r w)) = response_101 (accept_of key).

(** The tail of [ws_upgrade], after the header lines. *)
Lemma reply_101 w key :
  accepted_key key -> ws_ok w ->
  let '(buf, n) := snprintf (WS_SRV_HDR_MAX + WS_CTRL_MAX) (response_101 (accept_of key)) (r_buf (ws_r w)) in
  (n <=? 0) || (WS_SRV_HDR_MAX + WS_CTRL_MAX <=? n) = false /\ reply_ok (WsReply buf n 0) /\ ztake n buf = response_101 (accept_of key).
Proof.
  intros Hk Hw. pose proof (length_101 (accept_of key)) as Hl. rewrite length_accept in Hl. pose proof (ok_buf w Hw) as Hb.
  unfold WS_ACCEPT_B64_LEN in *. wsunfold.
  pose proof (snprintf_fits 135 (response_101 (accept_of key)) (r_buf (ws_r w))) as Hs. change (10 + 125) with 135 in *.
  destruct (snprintf _ _ _) as [buf n]. destruct Hs as (-> & Ht & Hbl); [lia..|]. unfold reply_ok. cbn [r_buf r_sent r_len]. wsunfold.
  rewrite Hl in *. split_and!; done || lia.
Qed.

(** Refused with everything but [state] as before, or open with the 101 of an accepted key waiting. *)
Definition upgrade_result (w : ws_t) (st : ws_status_t) (w' : ws_t) : Prop :=
  ws_ok w' /\ state_ok w' /\ ws_d w' = ws_d w /\ ws_expect_mask w' = ws_expect_mask w /\
  (st = WS_ERR_PROTOCOL /\ ws_stage w' = WS_STAGE_UPGRADE /\ ws_r w' = ws_r w \/
   st = WS_OK /\ ws_stage w' = WS_STAGE_OPEN /\ exists key, accepted_key key /\ answers_101 w' key).

Lemma upgrade_cases w req len st w' :
  ws_ok w -> state_ok w -> ws_stage w = WS_STAGE_UPGRADE -> ws_upgrade (Some w) (Some req) len = (st, Some w') -> upgrade_result w st w'.
Proof.
  intros Hw Hst Hs H. unfold ws_upgrade in H.
  assert (Hrefl : (WS_ERR_PROTOCOL, Some w) = (st, Some w') -> upgrade_result w st w') by (intros [= <- <-]; split_and!; auto).
  destruct ((len =? 0) || _); [by apply Hrefl|]. destruct (memchr _ LF) as [eol|]; [|by apply Hrefl].
  destruct (_ || negb _); [by apply Hrefl|]. destruct (memchr _ SP) as [tl|]; [|by apply Hrefl].
  destruct (negb _); [by apply Hrefl|]. clear Hrefl.
  destruct (take_state w _) as [st1 w1] eqn:Ht. apply take_state_ok in Ht as (Hst1 & (Hg1 & Hm1 & Hd1 & Hr1) & Hns & _); [|done].
  assert (Hw1 : ws_ok w1) by (destruct Hw; constructor; by rewrite ?Hd1, ?Hr1).
  assert (Herr : (WS_ERR_PROTOCOL, Some w1) = (st, Some w') -> upgrade_result w st w').
  { intros [= <- <-]. split_and!; try done. left. split_and!; congruence. }
  destruct st1; [|by apply Herr..]. destruct (header_loop _ _ _) as [s|]; [|by apply Herr]. destruct (s_key s) as [key|]; [|by apply Herr].
  destruct (negb _ || _ || _); [by apply Herr|]. pose proof (accept_key_spec key) as Hk.
  destruct (ws_accept_key _ _) as [[] out]; [|by apply Herr]. cbn [negb] in H. destruct Hk as (Hl & Hraw & Hacc). rewrite Hacc in H. clear Herr.
  pose proof (reply_101 w1 key (conj Hl Hraw) Hw1) as Hrep. destruct (snprintf _ _ _) as [buf n]. destruct Hrep as (Hn & Hok & Htxt). rewrite Hn in H.
  injection H as <- <-. split_and!; try done; [|right; split_and!; try done; by exists key].
  destruct Hw1, Hok as (? & ? & ?). by constructor.
Qed.

Lemma upgrade_some w req len : exists st w', ws_upgrade (Some w) (Some req) len = (st, Some w').
Proof. unfold ws_upgrade. repeat case_match; eauto. Qed.

(** A refusal replaces whatever was queued and closes. *)
Lemma refuse_spec w code :
  ws_ok w -> exists r, ws_refuse (Some w) code = (WS_OK, Some (set_stage (set_reply w r) WS_STAGE_CLOSED)) /\ reply_ok r /\
    r_sent r = 0 /\ ztake (r_len r) (r_buf r) = response_refused code.
Proof.
  intros Hw. pose proof (length_refused code) as Hl. unfold ws_refuse.
  pose proof (snprintf_fits (WS_SRV_HDR_MAX + WS_CTRL_MAX) (response_refused code) (r_buf (ws_r w)) Hl) as H. rewrite (ok_buf _ Hw) in H.
  destruct (snprintf _ _ _) as [buf n]. destruct H as (-> & Ht & Hb); [done|]. assert (0 < blen (response_refused code)) by (cbn; lia).
  rewrite (proj2 (Z.leb_gt _ 0)), (proj2 (Z.leb_gt _ (blen _))) by done. cbn [orb]. exists (WsReply buf (blen (response_refused code)) 0).
  split; [done|]. split; [|done]. unfold reply_ok. cbn [r_buf r_sent r_len]. split; [done|]. lia.
Qed.

(** An upgrade request is answered in one of two ways.  Either it is refused, and then the stage, the decoder and
    the replies are as before; or the connection is open, a key of 24 characters that decode to 16 bytes was read,
    the waiting reply is exactly the 101 response with the RFC 6455 accept value of that key, and the [state] kept is
    printable and at most 64 bytes. *)
Theorem ws_upgrade_outcome w req len st w' :
  ws_ok w -> state_ok w -> ws_stage w = WS_STAGE_UPGRADE -> ws_upgrade (Some w) (Some req) len = (st, Some w') -> upgrade_result w st w'.
Proof. apply upgrade_cases. Qed.

(** ** The client's request *)

Lemma memchr_skip c a b : c ∉ a -> memchr (a ++ c :: b) c = Some (blen a).
Proof.
  induction a as [|x a IH]; cbn [app memchr]; [by rewrite bool_decide_true|]. intros [Hx Ha]%not_elem_of_cons.
  rewrite bool_decide_false by congruence. rewrite IH by done. cbn. f_equal. lia.
Qed.

Lemma memchr_none c a : c ∉ a -> memchr a c = None.
Proof.
  induction a as [|x a IH]; [done|]. intros [Hx Ha]%not_elem_of_cons. cbn. rewrite bool_decide_false by congruence. by rewrite IH.
Qed.

Lemma strip_cr_line l : strip_cr (l ++ [CR]) = l.
Proof. unfold strip_cr. rewrite last_snoc, bool_decide_true by done. apply removelast_last. Qed.

(** A byte that is not a visible character is not in a visible text. *)
Definition visible (l : list byte) : Prop := Forall (fun c => 0x21 <= bz c <= 0x7e) l.

Lemma visible_not_in c l : visible l -> bz c < 0x21 -> c ∉ l.
Proof. unfold visible. intros Hl Hc Hin. rewrite Forall_forall in Hl. specialize (Hl c Hin). lia. Qed.

Lemma visible_printable l : visible l <-> forallb is_printable l = true.
Proof.
  unfold visible. rewrite forallb_forall, Forall_forall. unfold is_printable. split; intros H x Hx.
  - apply list_elem_of_In in Hx. specialize (H x Hx). lia.
  - apply list_elem_of_In in Hx. specialize (H x Hx). lia.
Qed.

Lemma visible_trim l : visible l -> drop_last_while is_blank (drop_while is_blank l) = l.
Proof.
  intros Hl. assert (Hb : forall x, x ∈ l -> is_blank x = false).
  { intros x Hx. unfold visible in Hl. rewrite Forall_forall in Hl. specialize (Hl x Hx). unfold is_blank.
    rewrite !bool_decide_false; [done|intros ->; cbn in Hl; lia..]. }
  assert (drop_while is_blank l = l) as -> by (destruct l; cbn; [done|by rewrite Hb by left]).
  clear Hl. induction l as [|x l IH]; [done|]. cbn. rewrite IH by (intros; apply Hb; by right). destruct l; [|done]. by rewrite Hb by left.
Qed.

(** A header line of the form [Name: value]. *)
Lemma header_step fuel name v rest s :
  name <> [] -> x3a ∉ name -> LF ∉ name -> visible v ->
  header_loop (S fuel) (name ++ [x3a; SP] ++ v ++ crlf ++ rest) s = header_loop fuel rest (note_field s name v).
Proof.
  intros Hne Hcol Hlf Hv. set (h := name ++ [x3a; SP] ++ v).
  replace (name ++ [x3a; SP] ++ v ++ crlf ++ rest) with ((h ++ [CR]) ++ LF :: rest) by (subst h; by rewrite <-!app_assoc).
  assert (Hh : LF ∉ h ++ [CR]).
  { subst h. rewrite !not_elem_of_app. split_and!; [done| |by apply visible_not_in|]; rewrite ?not_elem_of_cons; split_and!; done || by apply not_elem_of_nil. }
  assert (Hlen : 0 < blen h) by (subst h; rewrite length_app; destruct name; [done|cbn [length]; lia]).
  assert (Hcons : exists x l, (h ++ [CR]) ++ LF :: rest = x :: l) by (destruct h; [by cbn in Hlen|by eexists _, _]).
  destruct Hcons as (x & l & Hcons). cbn [header_loop]. rewrite Hcons at 1. rewrite memchr_skip by done.
  rewrite Nat2Z.id, take_app_length, strip_cr_line. destruct (Z.eqb_spec (blen h) 0); [lia|].
  subst h. change (name ++ [x3a; SP] ++ v) with (name ++ x3a :: (SP :: v)). rewrite memchr_skip by done.
  rewrite Nat2Z.id, take_app_length. replace (Z.to_nat (blen name + 1)) with (length name + 1)%nat by lia.
  rewrite <-drop_drop, drop_app_length. cbn [drop]. change (drop_while is_blank (SP :: v)) with (drop_while is_blank v).
  rewrite visible_trim by done. f_equal. rewrite zdrop_app_ge by lia. replace (_ + 1 - _) with 1 by lia. done.
Qed.

(** The header lines of the client's request. *)
Lemma client_headers fuel key :
  (6 <= fuel)%nat -> visible key ->
  header_loop fuel (label "Host: authd" ++ crlf ++ label "Upgrade: websocket" ++ crlf ++ label "Connection: Upgrade" ++ crlf ++
    label "Sec-WebSocket-Key: " ++ key ++ crlf ++ label "Sec-WebSocket-Version: 13" ++ crlf ++ crlf) (Seen false false false None) =
  Some (Seen true true true (Some key)).
Proof.
  intros Hf Hk. destruct fuel as [|[|[|[|[|[|fuel]]]]]]; try lia.
  assert (Hvis : forall l, forallb is_printable l = true -> visible l) by (intros; by apply visible_printable).
  assert (Hstep : forall fuel name v rest s, name <> [] -> forallb (fun c => negb (bool_decide (c = x3a)) && negb (bool_decide (c = LF))) name = true ->
    visible v -> header_loop (S fuel) (name ++ [x3a; SP] ++ v ++ crlf ++ rest) s = header_loop fuel rest (note_field s name v)).
  { intros f name v rest s Hne Hn Hv. rewrite forallb_forall in Hn. apply header_step; [done| | |done];
      intros Hin%list_elem_of_In; specialize (Hn _ Hin); by vm_compute in Hn. }
  etransitivity; [apply (Hstep _ (label "Host") (label "authd")); [done|done|by apply Hvis]|].
  etransitivity; [apply (Hstep _ (label "Upgrade") (label "websocket")); [done|done|by apply Hvis]|].
  etransitivity; [apply (Hstep _ (label "Connection") (label "Upgrade")); [done|done|by apply Hvis]|].
  etransitivity; [apply (Hstep _ (label "Sec-WebSocket-Key") key); [done|done|done]|].
  etransitivity; [apply (Hstep _ (label "Sec-WebSocket-Version") (label "13")); [done|done|by apply Hvis]|].
  reflexivity.
Qed.

Definition query (state : list byte) : list byte := (if 0 <? blen state then label "?state=" else []) ++ state.

Lemma split_at_none c l : c ∉ l -> split_at c l = (l, []).
Proof.
  induction l as [|x l IH]; [done|]. intros [Hx Hl]%not_elem_of_cons. cbn. rewrite bool_decide_false by congruence. by rewrite IH.
Qed.

(** The [state] of a query is found. *)
Lemma take_state_query w path state :
  x3f ∉ path -> visible state -> x26 ∉ state -> blen state <= WS_STATE_MAX ->
  take_state w (path ++ query state) = (WS_OK, if 0 <? blen state then set_state w state else w).
Proof.
  intros Hp Hv Hs Hl. unfold take_state, query. destruct state as [|x state]; [by rewrite app_nil_r, memchr_none|].
  set (st := x :: state) in *. change (0 <? blen st) with true. cbv iota.
  change (label "?state=" ++ st) with (x3f :: (label "state=" ++ st)). rewrite memchr_skip by done.
  replace (zdrop (blen path + 1) (path ++ x3f :: label "state=" ++ st)) with (label "state=" ++ st)
    by (rewrite zdrop_app_ge by lia; by replace (blen path + 1 - blen path) with 1 by lia).
  change (length (label "state=" ++ st)) with (S (5 + length st)). cbn [take_state_loop].
  change (label "state=" ++ st) with (x73 :: (label "tate=" ++ st)) at 1. rewrite split_at_none.
  2: { rewrite not_elem_of_app. split; [|done]. vm_compute. intros H. repeat (apply elem_of_cons in H as [H|H]; [done|]). by apply elem_of_nil in H. }
  assert ((6 <? blen (label "state=" ++ st)) = true) as -> by (apply Z.ltb_lt; rewrite length_app; cbn; lia).
  change (memeq (label "state=" ++ st) (label "state=") 6) with true. cbn [andb]. change (zdrop 6 (label "state=" ++ st)) with st.
  rewrite (proj2 (Z.ltb_ge WS_STATE_MAX _) Hl). by rewrite (proj1 (visible_printable st) Hv).
Qed.

Lemma contains_app a e b : contains (a ++ e ++ b) e = true.
Proof.
  induction a as [|x a IH]; cbn [app].
  - assert (Hm : memeq (e ++ b) e (blen e) = true).
    { unfold memeq. apply bool_decide_eq_true. rewrite Nat2Z.id, take_app_length. by rewrite take_ge. }
    destruct (e ++ b) eqn:E; cbn [contains]; rewrite <-?E in *; rewrite Hm, (proj2 (Z.leb_le _ _)) by (rewrite length_app; lia); done.
  - cbn [contains]. rewrite (proj2 (Z.leb_le _ _)) by (cbn [length]; rewrite !length_app; lia). by destruct (memeq _ _ _).
Qed.

(** The request line and the lines after it. *)
Lemma request_split path state key :
  request_text path state key = ((label "GET " ++ path ++ query state ++ label " HTTP/1.1") ++ [CR]) ++ LF ::
    (label "Host: authd" ++ crlf ++ label "Upgrade: websocket" ++ crlf ++ label "Connection: Upgrade" ++ crlf ++
     label "Sec-WebSocket-Key: " ++ key ++ crlf ++ label "Sec-WebSocket-Version: 13" ++ crlf ++ crlf).
Proof. unfold request_text, query. rewrite <-!app_assoc. done. Qed.

Lemma visible_query state : visible state -> visible (query state).
Proof. intros Hs. unfold query. destruct (0 <? blen state); [|done]. apply Forall_app. split; [|done]. by apply visible_printable. Qed.

Lemma not_in_label c s : forallb (fun x => negb (bool_decide (x = c))) (label s) = true -> c ∉ label s.
Proof. rewrite forallb_forall. intros H Hin%list_elem_of_In. specialize (H c Hin). by rewrite bool_decide_true in H. Qed.

Lemma upgrade_take w r len : ws_upgrade w (Some r) len = ws_upgrade w (Some (ztake len r)) len.
Proof. unfold ws_upgrade. destruct w; [|done]. by rewrite take_take, Nat.min_id. Qed.

(** The server reads the client's request. *)
Lemma upgrade_request w path state key :
  ws_ok w -> state_ok w -> accepted_key key -> visible key -> path <> [] -> visible path -> x3f ∉ path ->
  visible state -> x26 ∉ state -> blen state <= WS_STATE_MAX -> blen (request_text path state key) <= WS_UPGRADE_MAX ->
  exists w', ws_upgrade (Some w) (Some (request_text path state key)) (blen (request_text path state key)) = (WS_OK, Some w') /\
    ws_stage w' = WS_STAGE_OPEN /\ answers_101 w' key /\
    ws_state w' = ws_state (if 0 <? blen state then set_state w state else w) /\
    ws_state_len w' = ws_state_len (if 0 <? blen state then set_state w state else w).
Proof.
  intros Hw Hst Hk Hkv Hp0 Hpv Hpq Hsv Hsa Hsl Hlen. unfold ws_upgrade. rewrite take_all_z by done.
  pose proof (visible_query state Hsv) as Hqv. rewrite request_split in *. set (line := label "GET " ++ _) in *. set (rest := label "Host: authd" ++ _) in *.
  assert (Hlf : LF ∉ line ++ [CR]).
  { subst line. rewrite !not_elem_of_app. split_and!; [by apply not_in_label|by apply visible_not_in|by apply visible_not_in|by apply not_in_label|].
    apply not_elem_of_cons. split; [done|apply not_elem_of_nil]. }
  destruct (_ || (WS_UPGRADE_MAX <? _)) eqn:Hg.
  { apply orb_true_iff in Hg. rewrite Z.eqb_eq, Z.ltb_lt in Hg. rewrite length_app in *. cbn [length] in *. lia. }
  clear Hg. rewrite memchr_skip by done. rewrite Nat2Z.id, take_app_length, strip_cr_line.
  assert (Hll : blen line = 4 + blen path + blen (query state) + 9) by (subst line; rewrite !length_app; cbn; lia).
  assert (0 < blen path) by (destruct path; [done|cbn [length]; lia]).
  change (memeq ((line ++ [CR]) ++ LF :: rest) (label "GET ") 4) with true. cbn [negb]. rewrite orb_false_r, (proj2 (Z.ltb_ge (blen line) 14)) by lia.
  assert (Htgt : zdrop 4 line = (path ++ query state) ++ SP :: label "HTTP/1.1") by (subst line; cbn; by rewrite <-!app_assoc).
  rewrite Htgt, memchr_skip by (rewrite not_elem_of_app; split; by apply visible_not_in).
  replace (blen line - 4 - blen (path ++ query state) - 1 =? 8) with true by (symmetry; apply Z.eqb_eq; rewrite length_app; lia).
  rewrite zdrop_app_ge by lia. replace (_ + 1 - _) with 1 by lia. change (memeq (zdrop 1 (SP :: label "HTTP/1.1")) (label "HTTP/1.1") 8) with true.
  cbn [andb negb]. rewrite Nat2Z.id, take_app_length, take_state_query by done. set (w1 := if 0 <? blen state then _ else w).
  rewrite zdrop_app_ge by lia. replace (_ + 1 - _) with 1 by lia. change (zdrop 1 (LF :: rest)) with rest.
  assert (Hhdr : header_loop (length rest) rest (Seen false false false None) = Some (Seen true true true (Some key))).
  { apply client_headers; [|done]. subst rest. rewrite length_app. cbn. lia. }
  rewrite Hhdr. cbn [s_key have_upgrade have_connection have_version negb orb].
  pose proof (accept_key_ok key [] Hk) as Hacc. rewrite app_nil_r in Hacc. rewrite (proj1 Hk), Hacc. cbn [negb].
  rewrite cstr_poke by (rewrite ?length_accept; done || apply b64_printable).
  assert (Hr1 : ws_r w1 = ws_r w) by (subst w1; by destruct (0 <? blen state)).
  pose proof (reply_101 w key Hk Hw) as Hrep. rewrite Hr1. destruct (snprintf _ _ _) as [buf n]. destruct Hrep as (Hn & Hok & Htxt). rewrite Hn.
  eexists. split; [done|]. split_and!; done.
Qed.

(** The two ends of the upgrade agree.  The request a client builds from any printable path and [state] is accepted
    by the server, which keeps exactly that [state], opens the connection and queues a 101 that the client's check accepts
    against the value it computed when it built the request. *)
Theorem ws_upgrade_agrees path state nonce o cap n0 ex0 w :
  ws_ok w -> state_ok w -> blen nonce = 16 -> path <> [] -> visible path -> x3f ∉ path -> visible state -> x26 ∉ state ->
  blen state <= WS_STATE_MAX ->
  blen (request_text path state (bin2base64 nonce)) <= WS_UPGRADE_MAX -> blen (request_text path state (bin2base64 nonce)) < cap -> cap <= blen o ->
  exists buf n ex w', ws_client_request (Some o) cap (Some n0) (Some path) (Some state) (Some nonce) (Some ex0) = (true, Some buf, Some n, Some ex) /\
    ws_upgrade (Some w) (Some buf) n = (WS_OK, Some w') /\ ws_stage w' = WS_STAGE_OPEN /\
    (state <> [] -> ztake (ws_state_len w') (ws_state w') = state) /\
    ws_client_check_101 (Some (r_buf (ws_r w'))) (r_len (ws_r w')) (Some ex) = true.
Proof.
  intros Hw Hst Hnl Hp0 Hpv Hpq Hsv Hsa Hsl Hlen Hcap Ho. set (key := bin2base64 nonce) in *.
  assert (Hkl : blen key = 24) by (subst key; by rewrite b64_length, Hnl). assert (Hkv : visible key) by apply b64_printable.
  assert (Hk : accepted_key key) by (split; [done|]; exists nonce; split; [by apply b64_roundtrip; lia|done]).
  destruct (upgrade_request w path state key) as (w' & Hup & Hstage & [Hsent Htxt] & Hs1 & Hs2); try done.
  unfold ws_client_request. rewrite take_all_z by lia. fold key.
  rewrite (poke_0 (key ++ [x00])), <-app_assoc. rewrite accept_key_ok by done. cbn [negb].
  change ([x00] ++ ?r) with (x00 :: r). rewrite printable_no_nul by done. cbn [default from_option id].
  pose proof (snprintf_fits cap (request_text path state key) o Hcap Ho) as Hs. destruct (snprintf cap _ _) as [buf n]. destruct Hs as (Hn & Hb & _).
  assert (Hpos : 0 < n) by (subst n; rewrite request_split, length_app; cbn [length]; lia).
  rewrite (proj2 (Z.leb_gt n 0)), (proj2 (Z.leb_gt cap n)) by lia. cbn [orb].
  eexists buf, n, _, w'. split_and!; [done| |done| |].
  - by rewrite upgrade_take, Hb, Hn.
  - intros Hne. destruct state as [|x st]; [done|]. rewrite Hs1, Hs2. change (0 <? blen (x :: st)) with true. cbn [set_state ws_state ws_state_len].
    apply take_poke_0.
  - unfold ws_client_check_101. rewrite Htxt, cstr_poke by (rewrite ?length_accept; done || apply b64_printable).
    pose proof (f_equal length Htxt) as Hl. assert (H101 : 12 <= blen (response_101 (accept_of key))) by (rewrite length_101, length_accept; done).
    rewrite length_take in Hl. rewrite (proj2 (Z.ltb_ge _ 12)) by lia.
    assert (memeq (r_buf (ws_r w')) (label "HTTP/1.1 101") 12 = true) as ->.
    { unfold memeq. apply bool_decide_eq_true. transitivity (ztake 12 (ztake (r_len (ws_r w')) (r_buf (ws_r w')))).
      - rewrite take_take. f_equal. lia.
      - by rewrite Htxt. }
    cbn [negb]. unfold response_101. rewrite !app_assoc, <-(app_assoc _ crlf crlf), <-app_assoc. apply contains_app.
Qed.

End upgraded.
