(* ===== verification/WsUpgradeDemo.v ===== *)
(** * A concrete WebSocket upgrade

    RFC 4648 base64 as an instance of the base64 parameters, and upgrades that
    run through it. *)

From S2P Require Import Prelude Ws WsProps Sha1 WsUpgrade.

(** ** RFC 4648 base64 *)

Definition b64_alphabet : list byte := label "ABCDEFGHIJKLMNOPQRSTUVWXYZabcdefghijklmnopqrstuvwxyz0123456789+/".
Definition b64_chr (d : Z) : byte := byte_at b64_alphabet d.

Fixpoint rfc_enc (l : list byte) : list byte :=
  match l with
  | a :: b :: c :: r =>
    let v := bz a * 65536 + bz b * 256 + bz c in
    b64_chr (v / 262144) :: b64_chr (v / 4096 mod 64) :: b64_chr (v / 64 mod 64) :: b64_chr (v mod 64) :: rfc_enc r
  | [a; b] => let v := bz a * 65536 + bz b * 256 in [b64_chr (v / 262144); b64_chr (v / 4096 mod 64); b64_chr (v / 64 mod 64); x3d]
  | [a] => let v := bz a * 65536 in [b64_chr (v / 262144); b64_chr (v / 4096 mod 64); x3d; x3d]
  | [] => []
  end.

Definition b64_val (c : byte) : Z := default 0 (memchr b64_alphabet c).
Definition b64_in (c : byte) : bool := bool_decide (is_Some (memchr b64_alphabet c)).

Fixpoint rfc_dec (l : list byte) : option (list byte) :=
  match l with
  | [] => Some []
  | w :: x :: y :: z :: r =>
    if negb (b64_in w && b64_in x) then None else
    let v := b64_val w * 262144 + b64_val x * 4096 in
    if bool_decide ([y; z] = [x3d; x3d] /\ r = []) then Some [u8 (v / 65536)] else
    if negb (b64_in y) then None else
    let v := v + b64_val y * 64 in
    if bool_decide (z = x3d /\ r = []) then Some [u8 (v / 65536); u8 (v / 256)] else
    if negb (b64_in z) then None else
    let v := v + b64_val z in
    app [u8 (v / 65536); u8 (v / 256); u8 v] <$> rfc_dec r
  | _ => None
  end.

#[global] Instance rfc_base64 : Base64 := {
  base642bin max b64 := rfc_dec b64 ≫= fun bin => if blen bin <=? max then Some bin else None;
  bin2base64 := rfc_enc }.

Lemma b64_digit d : 0 <= d < 64 -> b64_val (b64_chr d) = d /\ b64_in (b64_chr d) = true /\ b64_chr d <> x3d /\ 0x21 <= bz (b64_chr d) <= 0x7e.
Proof.
  intros Hd. assert (Hall : forallb (fun i => let c := b64_chr (Z.of_nat i) in (b64_val c =? Z.of_nat i) && b64_in c && negb (bool_decide (c = x3d)) &&
    is_printable c) (seq 0 64) = true) by (vm_compute; reflexivity).
  rewrite forallb_forall in Hall. specialize (Hall (Z.to_nat d)). rewrite in_seq, Z2Nat.id in Hall by lia. specialize (Hall ltac:(lia)).
  cbv zeta in Hall. rewrite !andb_true_iff, negb_true_iff, bool_decide_eq_false, Z.eqb_eq in Hall. unfold is_printable in Hall. lia || naive_solver lia.
Qed.

(** Induction in steps of three bytes. *)
Lemma list_ind3 (P : list byte -> Prop) :
  P [] -> (forall a, P [a]) -> (forall a b, P [a; b]) -> (forall a b c r, P r -> P (a :: b :: c :: r)) -> forall l, P l.
Proof.
  intros H0 H1 H2 H3 l. remember (length l) as n eqn:Hn. revert l Hn. induction (lt_wf n) as [n _ IH]. intros l Hn.
  destruct l as [|a [|b [|c r]]]; auto. apply H3, (IH (length r)); [cbn in Hn; lia|done].
Qed.

(** The digits of three bytes, and the bytes of four digits. *)
Lemma b64_digits v : 0 <= v < 2 ^ 24 ->
  0 <= v / 262144 < 64 /\ 0 <= v / 4096 mod 64 < 64 /\ 0 <= v / 64 mod 64 < 64 /\ 0 <= v mod 64 < 64 /\
  v / 262144 * 262144 + (v / 4096 mod 64) * 4096 + (v / 64 mod 64) * 64 + v mod 64 = v.
Proof.
  intros Hv. split_and!; try (apply Z.mod_pos_bound; lia); try (apply Z.div_pos; lia); try (apply Z.div_lt_upper_bound; lia).
  pose proof (Z.div_mod v 64). pose proof (Z.div_mod (v / 64) 64). pose proof (Z.div_mod (v / 4096) 64).
  rewrite (Z.div_div v 64 64) in * by lia. rewrite (Z.div_div v 4096 64) in * by lia. change (64 * 64) with 4096 in *. change (4096 * 64) with 262144 in *. lia.
Qed.

Lemma b64_bytes a b c :
  let v := bz a * 65536 + bz b * 256 + bz c in 0 <= v < 2 ^ 24 /\ u8 (v / 65536) = a /\ u8 (v / 256) = b /\ u8 v = c.
Proof.
  pose proof (bz_range a). pose proof (bz_range b). pose proof (bz_range c). cbv zeta. split; [lia|].
  split_and!; apply bz_inj; rewrite bz_u8.
  - rewrite <-(Z.div_unique_pos _ 65536 (bz a) (bz b * 256 + bz c)) by lia. apply Z.mod_small. lia.
  - rewrite <-(Z.div_unique_pos _ 256 (bz a * 256 + bz b) (bz c)) by lia. rewrite Z.add_comm, Z.mod_add by lia. apply Z.mod_small. lia.
  - replace (_ + _ + _) with (bz c + (bz a * 256 + bz b) * 256) by lia. rewrite Z.mod_add by lia. apply Z.mod_small. lia.
Qed.

Lemma rfc_length l : blen (rfc_enc l) = (blen l + 2) / 3 * 4.
Proof.
  induction l as [|a|a b|a b c r IH] using list_ind3; try done. cbn [rfc_enc length]. rewrite !Nat2Z.inj_succ, IH.
  replace (Z.succ (Z.succ (Z.succ (blen r))) + 2) with (blen r + 2 + 1 * 3) by lia. rewrite Z.div_add by lia. lia.
Qed.

Lemma rfc_visible l : Forall (fun c => 0x21 <= bz c <= 0x7e) (rfc_enc l).
Proof.
  induction l as [|a|a b|a b c r IH] using list_ind3; cbn [rfc_enc]; [done|..].
  1: pose proof (b64_bytes a x00 x00) as (Hv & _). 2: pose proof (b64_bytes a b x00) as (Hv & _). 3: pose proof (b64_bytes a b c) as (Hv & _).
  all: change (bz x00) with 0 in Hv; rewrite ?Z.add_0_r in Hv; change (0 * 256) with 0 in Hv; rewrite ?Z.add_0_r in Hv.
  all: pose proof (b64_digits _ Hv) as (? & ? & ? & ? & _); repeat first [apply Forall_nil | done | apply Forall_cons; split; [by apply b64_digit || by vm_compute|]].
Qed.

(** Four characters of the alphabet are read as a 24-bit value. *)
Lemma rfc_dec_quad d1 d2 d3 d4 r :
  0 <= d1 < 64 -> 0 <= d2 < 64 -> 0 <= d3 < 64 -> 0 <= d4 < 64 ->
  let v := d1 * 262144 + d2 * 4096 + d3 * 64 + d4 in
  rfc_dec (b64_chr d1 :: b64_chr d2 :: b64_chr d3 :: b64_chr d4 :: r) = app [u8 (v / 65536); u8 (v / 256); u8 v] <$> rfc_dec r.
Proof.
  intros H1 H2 H3 H4 v. destruct (b64_digit d1 H1) as (V1 & I1 & _), (b64_digit d2 H2) as (V2 & I2 & _), (b64_digit d3 H3) as (V3 & I3 & N3 & _),
    (b64_digit d4 H4) as (V4 & I4 & N4 & _). cbn [rfc_dec]. rewrite I1, I2, I3, I4, V1, V2, V3, V4. cbn [andb negb].
  rewrite !bool_decide_false by (intros [? _]; congruence). done.
Qed.

Lemma rfc_dec_two d1 d2 d3 :
  0 <= d1 < 64 -> 0 <= d2 < 64 -> 0 <= d3 < 64 ->
  let v := d1 * 262144 + d2 * 4096 + d3 * 64 in rfc_dec [b64_chr d1; b64_chr d2; b64_chr d3; x3d] = Some [u8 (v / 65536); u8 (v / 256)].
Proof.
  intros H1 H2 H3 v. destruct (b64_digit d1 H1) as (V1 & I1 & _), (b64_digit d2 H2) as (V2 & I2 & _), (b64_digit d3 H3) as (V3 & I3 & N3 & _).
  cbn [rfc_dec]. rewrite I1, I2, I3, V1, V2, V3. cbn [andb negb]. rewrite bool_decide_false by (intros [? _]; congruence).
  by rewrite bool_decide_true.
Qed.

Lemma rfc_dec_one d1 d2 :
  0 <= d1 < 64 -> 0 <= d2 < 64 -> rfc_dec [b64_chr d1; b64_chr d2; x3d; x3d] = Some [u8 ((d1 * 262144 + d2 * 4096) / 65536)].
Proof.
  intros H1 H2. destruct (b64_digit d1 H1) as (V1 & I1 & _), (b64_digit d2 H2) as (V2 & I2 & _).
  cbn [rfc_dec]. rewrite I1, I2, V1, V2. cbn [andb negb]. by rewrite bool_decide_true.
Qed.

Lemma rfc_roundtrip l : rfc_dec (rfc_enc l) = Some l.
Proof.
  induction l as [|a|a b|a b c r IH] using list_ind3; [done|..]; cbn [rfc_enc].
  - destruct (b64_bytes a x00 x00) as (Hv & Ha & _). change (bz x00) with 0 in *. change (0 * 256) with 0 in *. rewrite !Z.add_0_r in *.
    destruct (b64_digits _ Hv) as (? & ? & _ & _ & Hsum). rewrite rfc_dec_one by done. do 2 f_equal.
    replace (bz a * 65536 mod 64) with 0 in Hsum by (symmetry; replace (bz a * 65536) with (bz a * 1024 * 64) by lia; apply Z.mod_mul; lia).
    replace (bz a * 65536 / 64 mod 64) with 0 in Hsum.
    2: { replace (bz a * 65536) with (bz a * 1024 * 64) by lia. rewrite Z.div_mul by lia.
         replace (bz a * 1024) with (bz a * 16 * 64) by lia. symmetry. apply Z.mod_mul. lia. }
    rewrite <-Ha at 3. do 2 f_equal. lia.
  - destruct (b64_bytes a b x00) as (Hv & Ha & Hb & _). change (bz x00) with 0 in *. rewrite !Z.add_0_r in *.
    destruct (b64_digits _ Hv) as (? & ? & ? & _ & Hsum). rewrite rfc_dec_two by done. 
    replace ((bz a * 65536 + bz b * 256) mod 64) with 0 in Hsum
      by (symmetry; replace (bz a * 65536 + bz b * 256) with ((bz a * 1024 + bz b * 4) * 64) by lia; apply Z.mod_mul; lia).
    rewrite Z.add_0_r in Hsum. rewrite Hsum. by rewrite Ha, Hb.
  - destruct (b64_bytes a b c) as (Hv & Ha & Hb & Hc). destruct (b64_digits _ Hv) as (? & ? & ? & ? & Hsum).
    rewrite rfc_dec_quad by done. rewrite Hsum, Ha, Hb, Hc, IH. done.
Qed.

#[global] Instance rfc_base64_law : Base64Law rfc_base64.
Proof.
  split; [apply rfc_length|apply rfc_visible|]. intros bin max Hm. cbn [base642bin bin2base64 rfc_base64]. rewrite rfc_roundtrip. cbn.
  by rewrite (proj2 (Z.leb_le _ _) Hm).
Qed.

(** ** Two upgrades *)

Definition demo_path : list byte := label "/auth".
Definition demo_nonce : list byte := label "the sample nonce".
Definition demo_out : list byte := zeros 512.

Lemma ws_init_ok : ws_ok ws_init /\ state_ok ws_init.
Proof. split; [|done]. constructor; [|done..]. constructor; cbn; wsunfold; done || lia. Qed.

Lemma ws_upgrade_agrees_witness :
  exists buf n ex w', ws_client_request (Some demo_out) 512 (Some 0) (Some demo_path) (Some (label "xyz")) (Some demo_nonce) (Some (zeros 29)) =
      (true, Some buf, Some n, Some ex) /\
    ws_upgrade (Some ws_init) (Some buf) n = (WS_OK, Some w') /\ ws_stage w' = WS_STAGE_OPEN /\
    (label "xyz" <> [] -> ztake (ws_state_len w') (ws_state w') = label "xyz") /\
    ws_client_check_101 (Some (r_buf (ws_r w'))) (r_len (ws_r w')) (Some ex) = true.
Proof.
  apply (ws_upgrade_agrees demo_path (label "xyz") demo_nonce demo_out 512 0 (zeros 29) ws_init).
  - apply ws_init_ok.
  - apply ws_init_ok.
  - done.
  - done.
  - by apply visible_printable.
  - by apply not_in_label.
  - by apply visible_printable.
  - by apply not_in_label.
  - done.
  - done.
  - done.
  - done.
Defined.

(** The handshake of RFC 6455, section 1.3. *)
Definition rfc6455_request : list byte := request_text (label "/chat") [] (label "dGhlIHNhbXBsZSBub25jZQ==").

Definition rfc6455_answer : ws_status_t * option ws_t := Eval vm_compute in ws_upgrade (Some ws_init) (Some rfc6455_request) (blen rfc6455_request).

Lemma ws_upgrade_outcome_witness :
  exists w', ws_upgrade (Some ws_init) (Some rfc6455_request) (blen rfc6455_request) = (WS_OK, Some w') /\ upgrade_result ws_init WS_OK w' /\
    ztake (r_len (ws_r w')) (r_buf (ws_r w')) = response_101 (label "s3pPLMBiTxaQ9kYGzzhZRbK+xOo=").
Proof.
  assert (H : ws_upgrade (Some ws_init) (Some rfc6455_request) (blen rfc6455_request) = (WS_OK, Some (default ws_init rfc6455_answer.2)))
    by (vm_compute; reflexivity).
  exists (default ws_init rfc6455_answer.2). split_and!; [exact H| |vm_compute; reflexivity].
  apply (ws_upgrade_outcome ws_init rfc6455_request (blen rfc6455_request)); [apply ws_init_ok|apply ws_init_ok|done|exact H].
Defined.
