(* ===== verification/ConnIo.v ===== *)
(** * Connection buffers ([apps/authd/conn_io.c])

    The non-blocking reassembler of one connection: input in frames, lines or
    WebSocket messages, behind an optional PROXY v2 preamble, and the output
    queue.  The component makes no system calls. *)

From S2P Require Import Prelude Transcript Session ProxyV2 Ws WsUpgrade.

Definition AUTHD_MAX_CONTENT : Z := 9216.
Definition SESSION_PAD_BUCKET_MAX : Z := 4096.
(** [SESSION_RECORD_LEN(c, b)]. *)
Definition SESSION_RECORD_LEN (c b : Z) : Z := inner_len_for c b + SESSION_OVERHEAD_BYTES.
Definition AUTHD_MAX_RECORD : Z := SESSION_RECORD_LEN AUTHD_MAX_CONTENT SESSION_PAD_BUCKET_MAX.
Definition AUTHD_FRAME_MAX : Z :=
  if SERVER_HELLO_MAX_ENCODED_LEN <? AUTHD_MAX_RECORD then AUTHD_MAX_RECORD else SERVER_HELLO_MAX_ENCODED_LEN.
Definition AUTHD_LINE_MAX : Z := 8192.
Definition AUTHD_FRAME_HEADER : Z := 4.
Definition AUTHD_IN_BUF_BYTES : Z := AUTHD_FRAME_HEADER + AUTHD_FRAME_MAX.
Definition AUTHD_OUT_BUF_BYTES : Z := WS_SRV_HDR_MAX + AUTHD_FRAME_HEADER + AUTHD_FRAME_MAX.

Inductive conn_io_mode_t := CONN_IO_MODE_FRAME | CONN_IO_MODE_LINE | CONN_IO_MODE_WS.
#[global] Instance conn_io_mode_eq_dec : EqDecision conn_io_mode_t.
Proof. solve_decision. Defined.

Inductive conn_io_status_t := CONN_IO_OK | CONN_IO_ERR_ARG | CONN_IO_ERR_OVERFLOW | CONN_IO_ERR_PROTOCOL | CONN_IO_ERR_BUSY.
#[global] Instance conn_io_status_eq_dec : EqDecision conn_io_status_t.
Proof. solve_decision. Defined.

Definition conn_io_status_name (st : conn_io_status_t) : string :=
  match st with
  | CONN_IO_OK => "ok"
  | CONN_IO_ERR_ARG => "bad-argument"
  | CONN_IO_ERR_OVERFLOW => "buffer-overflow"
  | CONN_IO_ERR_PROTOCOL => "protocol"
  | CONN_IO_ERR_BUSY => "send-busy"
  end.

Record conn_io_t := ConnIo {
  c_mode : conn_io_mode_t; c_proxy_on : bool; c_proxy : proxy_v2_t; c_ws : ws_t;
  c_in : list byte; c_in_len : Z; c_frame_len : Z; c_line_total : Z; c_failed : bool;
  c_out : list byte; c_out_len : Z; c_out_sent : Z }.

(** Field updates. *)
Definition c_set_mode c m : conn_io_t :=
  ConnIo m (c_proxy_on c) (c_proxy c) (c_ws c) (c_in c) (c_in_len c) (c_frame_len c) (c_line_total c) (c_failed c) (c_out c) (c_out_len c) (c_out_sent c).
Definition c_set_proxy c on p : conn_io_t :=
  ConnIo (c_mode c) on p (c_ws c) (c_in c) (c_in_len c) (c_frame_len c) (c_line_total c) (c_failed c) (c_out c) (c_out_len c) (c_out_sent c).
Definition c_set_ws c w : conn_io_t :=
  ConnIo (c_mode c) (c_proxy_on c) (c_proxy c) w (c_in c) (c_in_len c) (c_frame_len c) (c_line_total c) (c_failed c) (c_out c) (c_out_len c) (c_out_sent c).
Definition c_set_in c b n : conn_io_t :=
  ConnIo (c_mode c) (c_proxy_on c) (c_proxy c) (c_ws c) b n (c_frame_len c) (c_line_total c) (c_failed c) (c_out c) (c_out_len c) (c_out_sent c).
Definition c_set_frame c n : conn_io_t :=
  ConnIo (c_mode c) (c_proxy_on c) (c_proxy c) (c_ws c) (c_in c) (c_in_len c) n (c_line_total c) (c_failed c) (c_out c) (c_out_len c) (c_out_sent c).
Definition c_set_line c n : conn_io_t :=
  ConnIo (c_mode c) (c_proxy_on c) (c_proxy c) (c_ws c) (c_in c) (c_in_len c) (c_frame_len c) n (c_failed c) (c_out c) (c_out_len c) (c_out_sent c).
Definition c_fail c : conn_io_t :=
  ConnIo (c_mode c) (c_proxy_on c) (c_proxy c) (c_ws c) (c_in c) (c_in_len c) (c_frame_len c) (c_line_total c) true (c_out c) (c_out_len c) (c_out_sent c).
Definition c_set_out c b n sent : conn_io_t :=
  ConnIo (c_mode c) (c_proxy_on c) (c_proxy c) (c_ws c) (c_in c) (c_in_len c) (c_frame_len c) (c_line_total c) (c_failed c) b n sent.

(** ** Set-up and tear-down *)

(** All bytes zero; every enumeration is at its first value. *)
Definition conn_io_zero : conn_io_t :=
  ConnIo CONN_IO_MODE_FRAME false
    (ProxyV2 (zeros (PROXY_V2_HDR_LEN + PROXY_V2_ADDR_MAX)) 0 0 0 false false PROXY_V2_NEED_MORE addr_none)
    (Ws WS_STAGE_UPGRADE (zeros WS_STATE_MAX) 0 false dec_zero reply_zero)
    (zeros AUTHD_IN_BUF_BYTES) 0 0 0 false (zeros AUTHD_OUT_BUF_BYTES) 0 0.

Definition conn_io_reset (c : option conn_io_t) : option conn_io_t :=
  match c with None => None | Some _ => Some conn_io_zero end.

Definition conn_io_set_mode (c : option conn_io_t) (mode : conn_io_mode_t) : option conn_io_t :=
  match c with
  | None => None
  | Some c => let c := c_set_mode c mode in Some (if bool_decide (mode = CONN_IO_MODE_WS) then c_set_ws c ws_init else c)
  end.

Definition conn_io_set_proxy (c : option conn_io_t) (on : bool) : option conn_io_t :=
  match c with
  | Some c0 =>
    if bool_decide (c_mode c0 = CONN_IO_MODE_WS) then
      Some (c_set_proxy c0 on (if on then default (c_proxy c0) (proxy_v2_init (Some (c_proxy c0))) else c_proxy c0))
    else c
  | None => None
  end.

Definition conn_io_proxy_settled (c : option conn_io_t) : bool :=
  match c with Some c => c_proxy_on c && pv_done (c_proxy c) | None => false end.

Definition conn_io_client_addr (c : option conn_io_t) : authd_addr_t :=
  match c with Some c => pv_addr (c_proxy c) | None => addr_none end.

Definition is_ws (c : conn_io_t) : bool := bool_decide (c_mode c = CONN_IO_MODE_WS).

(** [sodium_memzero(c->out, sizeof c->out)] with the lengths reset. *)
Definition drop_out (c : conn_io_t) : conn_io_t := c_set_out c (zeros (blen (c_out c))) 0 0.

Definition conn_io_ws_refuse (c : option conn_io_t) (code : Z) : conn_io_status_t * option conn_io_t :=
  match c with
  | Some c0 =>
    if negb (is_ws c0) then (CONN_IO_ERR_ARG, c) else
    let c1 := drop_out c0 in
    let '(st, w) := ws_refuse (Some (c_ws c1)) code in
    (if bool_decide (st = WS_OK) then CONN_IO_OK else CONN_IO_ERR_PROTOCOL, Some (c_set_ws c1 (default (c_ws c1) w)))
  | None => (CONN_IO_ERR_ARG, c)
  end.

Definition conn_io_ws_silence (c : option conn_io_t) : option conn_io_t :=
  match c with
  | Some c0 =>
    if negb (is_ws c0) then c else
    let c1 := drop_out c0 in
    let w := c_ws c1 in
    Some (c_set_ws c1 (set_stage (set_reply w (WsReply (zeros (blen (r_buf (ws_r w)))) 0 0)) WS_STAGE_CLOSED))
  | None => None
  end.

(** ** Input *)

Definition be32 (p : list byte) : Z :=
  Z.lor (Z.lor (Z.lor (Z.shiftl (bz (byte_at p 0)) 24) (Z.shiftl (bz (byte_at p 1)) 16)) (Z.shiftl (bz (byte_at p 2)) 8)) (bz (byte_at p 3)).

Definition note_line_cap (c : conn_io_t) : conn_io_status_t * conn_io_t :=
  match memchr (ztake (c_in_len c) (c_in c)) LF with
  | Some _ => (CONN_IO_OK, c)
  | None => if AUTHD_LINE_MAX <=? c_in_len c then (CONN_IO_ERR_PROTOCOL, c_fail c) else (CONN_IO_OK, c)
  end.

Definition note_header (c : conn_io_t) : conn_io_status_t * conn_io_t :=
  if is_ws c && bool_decide (ws_stage (c_ws c) = WS_STAGE_UPGRADE) then (CONN_IO_OK, c) else
  if negb (c_frame_len c =? 0) || (c_in_len c <? AUTHD_FRAME_HEADER) then (CONN_IO_OK, c) else
  let len := be32 (c_in c) in
  if (len =? 0) || (AUTHD_FRAME_MAX <? len) then (CONN_IO_ERR_PROTOCOL, c_fail c) else
  (CONN_IO_OK, c_set_frame c len).

(** The sink of the WebSocket decoder, on the fields it touches. *)
Definition ws_sink_in (c : list byte * Z) (p : list byte) : bool * (list byte * Z) :=
  let '(buf, n) := c in
  if blen buf - n <? blen p then (false, c) else (true, (poke n p buf, n + blen p)).

Definition ws_feed (c : conn_io_t) (p : list byte) : conn_io_status_t * conn_io_t :=
  let '(st, w, (buf, n)) := ws_consume (Some ws_sink_in) (Some (c_ws c)) (Some p) (blen p) (c_in c, c_in_len c) in
  let c := c_set_in (c_set_ws c (default (c_ws c) w)) buf n in
  if bool_decide (st = WS_ERR_PROTOCOL) then (CONN_IO_ERR_PROTOCOL, c_fail c) else note_header c.

(** 0 while the terminator is not there. *)
Fixpoint end_of_headers_from (i : Z) (p : list byte) : Z :=
  match p with
  | a :: ((b :: c :: d :: _) as p') =>
    if bool_decide (a = CR /\ b = LF /\ c = CR /\ d = LF) then i + 4 else end_of_headers_from (i + 1) p'
  | _ => 0
  end.
Definition end_of_headers (p : list byte) : Z := end_of_headers_from 0 p.

Section with_base64.
Context {B : Base64}.

Definition push_ws (c : conn_io_t) (data : list byte) : conn_io_status_t * conn_io_t :=
  if negb (bool_decide (ws_stage (c_ws c) = WS_STAGE_UPGRADE)) then ws_feed c data else
  if blen (c_in c) - c_in_len c <? blen data then (CONN_IO_ERR_OVERFLOW, c_fail c) else
  let c := c_set_in c (poke (c_in_len c) data (c_in c)) (c_in_len c + blen data) in
  let req_len := end_of_headers (ztake (c_in_len c) (c_in c)) in
  if req_len =? 0 then
    if WS_UPGRADE_MAX <? c_in_len c then (CONN_IO_ERR_PROTOCOL, c_fail c) else (CONN_IO_OK, c)
  else if WS_UPGRADE_MAX <? req_len then (CONN_IO_ERR_PROTOCOL, c_fail c) else
  let '(st, w) := ws_upgrade (Some (c_ws c)) (Some (c_in c)) req_len in
  let c := c_set_ws c (default (c_ws c) w) in
  if negb (bool_decide (st = WS_OK)) then (CONN_IO_ERR_PROTOCOL, c_fail c) else
  let rest := peek req_len (c_in_len c - req_len) (c_in c) in
  let c := c_set_in c (poke 0 (zeros (c_in_len c)) (c_in c)) 0 in
  if 0 <? blen rest then ws_feed c rest else (CONN_IO_OK, c).

(** [data] holds [n] bytes when it is not NULL. *)
Definition conn_io_push (c : option conn_io_t) (data : option (list byte)) (n : Z) : conn_io_status_t * option conn_io_t :=
  match c with
  | None => (CONN_IO_ERR_ARG, c)
  | Some c0 =>
    if bool_decide (data = None) && negb (n =? 0) then (CONN_IO_ERR_ARG, c) else
    let data := ztake n (default [] data) in
    if c_failed c0 then (CONN_IO_ERR_PROTOCOL, c) else
    if is_ws c0 then
      if c_proxy_on c0 && negb (pv_done (c_proxy c0)) then
        let '(st, p, used) := proxy_v2_consume (Some (c_proxy c0)) (Some data) n (Some 0) in
        let c1 := c_set_proxy c0 (c_proxy_on c0) (default (c_proxy c0) p) in
        if bool_decide (st = PROXY_V2_ERR) then (CONN_IO_ERR_PROTOCOL, Some (c_fail c1)) else
        if negb (pv_done (c_proxy c1)) then (CONN_IO_OK, Some c1) else
        let '(st, c2) := push_ws c1 (zdrop (default 0 used) data) in (st, Some c2)
      else let '(st, c1) := push_ws c0 data in (st, Some c1)
    else
    let note c := if bool_decide (c_mode c = CONN_IO_MODE_LINE) then note_line_cap c else note_header c in
    if n =? 0 then let '(st, c1) := note c0 in (st, Some c1) else
    if blen (c_in c0) - c_in_len c0 <? n then (CONN_IO_ERR_OVERFLOW, Some (c_fail c0)) else
    let '(st, c1) := note (c_set_in c0 (poke (c_in_len c0) data (c_in c0)) (c_in_len c0 + n)) in (st, Some c1)
  end.

End with_base64.

(** ** Taking lines and frames *)

(** The line without its terminator, and the connection. *)
Definition conn_io_next_line (c : option conn_io_t) : option (list byte) * option conn_io_t :=
  match c with
  | None => (None, c)
  | Some c0 =>
    if c_failed c0 || negb (bool_decide (c_mode c0 = CONN_IO_MODE_LINE)) then (None, c) else
    match memchr (ztake (c_in_len c0) (c_in c0)) LF with
    | None => (None, c)
    | Some i =>
      let n := if (0 <? i) && bool_decide (byte_at (c_in c0) (i - 1) = CR) then i - 1 else i in
      (Some (ztake n (c_in c0)), Some (c_set_line c0 (i + 1)))
    end
  end.

(** The bytes after [total] move to the front and the tail is wiped. *)
Definition slide (c : conn_io_t) (total : Z) : conn_io_t :=
  let rest := c_in_len c - total in
  let b := if 0 <? rest then poke 0 (peek total rest (c_in c)) (c_in c) else c_in c in
  c_set_in c (poke rest (zeros (c_in_len c - rest)) b) rest.

Definition conn_io_consume_line (c : option conn_io_t) : option conn_io_t :=
  match c with
  | None => None
  | Some c0 =>
    if (c_line_total c0 =? 0) || (c_in_len c0 <? c_line_total c0) then c else Some (c_set_line (slide c0 (c_line_total c0)) 0)
  end.

Definition conn_io_next_frame (c : option conn_io_t) : option (list byte) * option conn_io_t :=
  match c with
  | None => (None, c)
  | Some c0 =>
    if c_failed c0 then (None, c) else
    let '(st, c1) := note_header c0 in
    if negb (bool_decide (st = CONN_IO_OK)) then (None, Some c1) else
    if c_frame_len c1 =? 0 then (None, Some c1) else
    if c_in_len c1 <? AUTHD_FRAME_HEADER + c_frame_len c1 then (None, Some c1) else
    (Some (peek AUTHD_FRAME_HEADER (c_frame_len c1) (c_in c1)), Some c1)
  end.

Definition conn_io_consume_frame (c : option conn_io_t) : option conn_io_t :=
  match c with
  | None => None
  | Some c0 =>
    if c_frame_len c0 =? 0 then c else
    let total := AUTHD_FRAME_HEADER + c_frame_len c0 in
    if c_in_len c0 <? total then c else Some (note_header (c_set_frame (slide c0 total) 0)).2
  end.

(** ** Output *)

Definition len32 (len : Z) : list byte :=
  [u8 (Z.land (Z.shiftr len 24) 255); u8 (Z.land (Z.shiftr len 16) 255); u8 (Z.land (Z.shiftr len 8) 255); u8 (Z.land len 255)].

Definition conn_io_queue (c : option conn_io_t) (payload : option (list byte)) (len : Z) : conn_io_status_t * option conn_io_t :=
  match c, payload with
  | Some c0, Some p =>
    if (len =? 0) || (AUTHD_FRAME_MAX <? len) then (CONN_IO_ERR_ARG, c) else
    if negb (c_out_len c0 =? c_out_sent c0) then (CONN_IO_ERR_BUSY, c) else
    let p := ztake len p in
    match c_mode c0 with
    | CONN_IO_MODE_LINE => (CONN_IO_OK, Some (c_set_out c0 (poke 0 p (c_out c0)) len 0))
    | CONN_IO_MODE_WS =>
      let inner := AUTHD_FRAME_HEADER + len in
      let h := ws_server_header inner WS_OP_BINARY in
      let hl := blen h in
      if blen (c_out c0) <? hl + inner then (CONN_IO_ERR_ARG, c) else
      let out := poke (hl + AUTHD_FRAME_HEADER) p (poke hl (len32 len) (poke 0 h (c_out c0))) in
      (CONN_IO_OK, Some (c_set_out c0 out (hl + inner) 0))
    | CONN_IO_MODE_FRAME =>
      let out := poke AUTHD_FRAME_HEADER p (poke 0 (len32 len) (c_out c0)) in
      (CONN_IO_OK, Some (c_set_out c0 out (AUTHD_FRAME_HEADER + len) 0))
    end
  | _, _ => (CONN_IO_ERR_ARG, c)
  end.

Definition ws_reply_pending (c : conn_io_t) : bool := is_ws c && (r_sent (ws_r (c_ws c)) <? r_len (ws_r (c_ws c))).

Definition conn_io_in_room (c : option conn_io_t) : Z :=
  match c with None => 0 | Some c => if blen (c_in c) <=? c_in_len c then 0 else blen (c_in c) - c_in_len c end.

Definition conn_io_pending (c : option conn_io_t) : Z :=
  match c with
  | None => 0
  | Some c =>
    if ws_reply_pending c then r_len (ws_r (c_ws c)) - r_sent (ws_r (c_ws c)) else
    if c_out_len c <=? c_out_sent c then 0 else c_out_len c - c_out_sent c
  end.

(** The bytes from the returned pointer on. *)
Definition conn_io_pending_ptr (c : option conn_io_t) : option (list byte) :=
  match c with
  | None => None
  | Some c => if ws_reply_pending c then Some (zdrop (r_sent (ws_r (c_ws c))) (r_buf (ws_r (c_ws c)))) else Some (zdrop (c_out_sent c) (c_out c))
  end.

Definition conn_io_sent (c : option conn_io_t) (n : Z) : option conn_io_t :=
  match c with
  | None => None
  | Some c0 =>
    if ws_reply_pending c0 then
      let r := ws_r (c_ws c0) in
      let left := r_len r - r_sent r in
      let sent := r_sent r + (if left <? n then left else n) in
      let r := if r_len r <=? sent then WsReply (poke 0 (zeros (r_len r)) (r_buf r)) 0 0 else WsReply (r_buf r) (r_len r) sent in
      Some (c_set_ws c0 (set_reply (c_ws c0) r))
    else
    let pending := conn_io_pending c in
    let sent := c_out_sent c0 + (if pending <? n then pending else n) in
    Some (if sent =? c_out_len c0 then c_set_out c0 (poke 0 (zeros (c_out_len c0)) (c_out c0)) 0 0
          else c_set_out c0 (c_out c0) (c_out_len c0) sent)
  end.
