(* ===== verification/ConnIoProps.v ===== *)
(** * Properties of the connection buffers

    The well-formedness invariant (no byte of a consumed frame stays behind),
    the exact delivery of the frames of a stream however it is read, and the
    transparency of the WebSocket layer. *)

From S2P Require Import Prelude Transcript Session ProxyV2 Sha1 Ws WsProps WsRoundtrip WsSink WsUpgrade ConnIo.

Lemma frame_max : AUTHD_FRAME_MAX = 12313.
Proof. reflexivity. Qed.
Lemma in_buf : AUTHD_IN_BUF_BYTES = 12317.
Proof. reflexivity. Qed.
Lemma out_buf : AUTHD_OUT_BUF_BYTES = 12327.
Proof. reflexivity. Qed.

#[local] Opaque AUTHD_FRAME_MAX AUTHD_IN_BUF_BYTES AUTHD_OUT_BUF_BYTES.

(** ** Buffers with a clean tail *)

(** [buf] of size [n] holds [d], and zeros after it. *)
Definition clean (n : Z) (buf d : list byte) : Prop := blen d <= n /\ buf = d ++ zeros (n - blen d).

Lemma clean_length n buf d : clean n buf d -> blen buf = n.
Proof. intros [H ->]. rewrite length_app. pose proof (length_zeros (n - blen d)). lia. Qed.

Lemma clean_take n buf d : clean n buf d -> ztake (blen d) buf = d.
Proof. intros [_ ->]. rewrite Nat2Z.id. apply take_app_length. Qed.

Lemma clean_poke n buf d p : clean n buf d -> blen d + blen p <= n -> clean n (poke (blen d) p buf) (d ++ p).
Proof.
  intros [H ->] Hp. split; [rewrite length_app; lia|]. unfold poke. rewrite Nat2Z.id, take_app_length.
  rewrite zdrop_app_ge by lia. unfold zeros. rewrite drop_replicate, <-app_assoc. do 3 f_equal. rewrite length_app. lia.
Qed.

Lemma clean_zeros n : 0 <= n -> clean n (zeros n) [].
Proof. intros. split; [cbn; lia|]. cbn. by rewrite Z.sub_0_r. Qed.

(** Wiping what is held leaves zeros only. *)
Lemma clean_wipe n buf d : clean n buf d -> clean n (poke 0 (zeros (blen d)) buf) [].
Proof.
  intros [H ->]. split; [cbn; lia|]. cbn. rewrite Z.sub_0_r, poke_0, drop_app_ge by (unfold zeros; rewrite length_replicate; lia).
  unfold zeros. rewrite length_replicate, drop_replicate, <-replicate_add. f_equal. lia.
Qed.

Lemma clean_peek n buf d off k : clean n buf d -> 0 <= off -> 0 <= k -> off + k <= blen d -> peek off k buf = peek off k d.
Proof.
  intros [_ ->] ? ? ?. unfold peek. rewrite drop_app_le by lia. rewrite take_app_le; [done|]. rewrite length_drop. lia.
Qed.

(** ** The invariant *)

(** What the first four bytes of the data announce. *)
Definition announced (d : list byte) : Z := be_dec (ztake 4 d).
Definition legal (len : Z) : Prop := 0 < len <= AUTHD_FRAME_MAX.
Definition framed (d : list byte) : Prop := AUTHD_FRAME_HEADER <= blen d /\ legal (announced d).

(** The decoder's part: well formed, and at the start of a stream while the request is awaited. *)
Definition ws_part (w : ws_t) : Prop :=
  ws_ok w /\ state_ok w /\
  (ws_stage w = WS_STAGE_UPGRADE -> d_hdr_len (ws_d w) = 0 /\ d_hdr_need (ws_d w) = 0 /\ d_in_message (ws_d w) = false).

(** [c] reads its input as frames. *)
Definition reading (c : conn_io_t) : Prop :=
  c_mode c <> CONN_IO_MODE_LINE /\ (is_ws c = true -> ws_stage (c_ws c) <> WS_STAGE_UPGRADE).

(** [c] holds the input [d] and the output [q], and nothing else: the rest of both buffers is zero. *)
Record cio (c : conn_io_t) (d q : list byte) : Prop := {
  cio_in : clean AUTHD_IN_BUF_BYTES (c_in c) d;
  cio_in_len : c_in_len c = blen d;
  cio_frame : 0 <= c_frame_len c /\ (c_frame_len c = 0 \/ c_mode c = CONN_IO_MODE_LINE \/ framed d /\ c_frame_len c = announced d);
  cio_line : 0 <= c_line_total c /\ (c_mode c <> CONN_IO_MODE_LINE -> c_line_total c = 0);
  cio_out : clean AUTHD_OUT_BUF_BYTES (c_out c) q;
  cio_out_len : c_out_len c = blen q;
  cio_sent : c_out_sent c = 0 /\ q = [] \/ 0 <= c_out_sent c < blen q;
  cio_ws : c_failed c = false -> ws_part (c_ws c) /\ (is_ws c = true -> ws_stage (c_ws c) = WS_STAGE_UPGRADE -> c_frame_len c = 0) }.

Definition cio_ok (c : conn_io_t) : Prop := exists d q, cio c d q.

Lemma be32_announced d : 4 <= blen d -> be32 d = announced d.
Proof.
  intros Hd. unfold be32, announced. destruct d as [|a [|b [|c [|e d]]]]; cbn [length] in Hd; try lia. apply be_dec_4.
Qed.

Lemma be32_clean n buf d : clean n buf d -> 4 <= blen d -> be32 buf = announced d.
Proof.
  intros Hc Hd. rewrite be32_announced by (pose proof (clean_length _ _ _ Hc); destruct Hc; lia). unfold announced. f_equal.
  change (peek 0 4 buf = peek 0 4 d). by eapply clean_peek.
Qed.

(** ** Reading the header *)

Definition head_len (d : list byte) : Z := if blen d <? AUTHD_FRAME_HEADER then 0 else announced d.
Definition head_bad (d : list byte) : bool :=
  (AUTHD_FRAME_HEADER <=? blen d) && ((announced d =? 0) || (AUTHD_FRAME_MAX <? announced d)).

Lemma c_set_frame_id c : c_set_frame c (c_frame_len c) = c.
Proof. by destruct c. Qed.

Lemma announced_nonneg d : 0 <= announced d.
Proof. apply be_dec_range. Qed.

Lemma reading_guard c : reading c -> is_ws c && bool_decide (ws_stage (c_ws c) = WS_STAGE_UPGRADE) = false.
Proof. intros [_ H]. destruct (is_ws c); [|done]. cbn. rewrite bool_decide_false; auto. Qed.

Lemma note_header_reading c d q :
  cio c d q -> reading c ->
  note_header c = if head_bad d then (CONN_IO_ERR_PROTOCOL, c_fail c) else (CONN_IO_OK, c_set_frame c (head_len d)).
Proof.
  intros [] Hr. unfold note_header, head_bad, head_len. rewrite (reading_guard _ Hr), cio_in_len0. unfold framed, legal, AUTHD_FRAME_HEADER in *.
  destruct (blen d <? 4) eqn:Hd; [apply Z.ltb_lt in Hd|apply Z.ltb_ge in Hd].
  - rewrite orb_true_r. rewrite (proj2 (Z.leb_gt 4 (blen d))) by lia. cbn [andb]. f_equal. rewrite <-(c_set_frame_id c) at 1. f_equal.
    destruct cio_frame0 as [_ [?|[?|[[? _] _]]]]; [done|by destruct Hr|lia].
  - rewrite (proj2 (Z.leb_le 4 (blen d))), orb_false_r by lia. cbn [andb]. rewrite (be32_clean _ _ _ cio_in0) by lia.
    destruct (c_frame_len c =? 0) eqn:Hf; cbn [negb]; [done|]. apply Z.eqb_neq in Hf.
    destruct cio_frame0 as [_ [?|[?|[[? ?] He]]]]; [done|by destruct Hr|]. 
    rewrite (proj2 (Z.eqb_neq (announced d) 0)), (proj2 (Z.ltb_ge AUTHD_FRAME_MAX (announced d))) by lia. cbn [orb].
    by rewrite <-He, c_set_frame_id.
Qed.

(** ** What the operations do to the buffers *)

Lemma cio_fail c d q : cio c d q -> cio (c_fail c) d q.
Proof. intros []. by constructor. Qed.

Lemma cio_set_frame c d q n :
  cio c d q -> 0 <= n -> n = 0 \/ c_mode c = CONN_IO_MODE_LINE \/ framed d /\ n = announced d ->
  n = 0 \/ (is_ws c = true -> ws_stage (c_ws c) <> WS_STAGE_UPGRADE) -> cio (c_set_frame c n) d q.
Proof.
  intros [] ? ? Hn. constructor; try done. cbn. intros Hf. destruct (cio_ws0 Hf) as [? _]. split; [done|]. intros. destruct Hn; [done|]. tauto.
Qed.

Lemma cio_set_line c d q n : cio c d q -> 0 <= n -> (c_mode c <> CONN_IO_MODE_LINE -> n = 0) -> cio (c_set_line c n) d q.
Proof. intros [] ? ?. by constructor. Qed.

Lemma head_good d : head_bad d = false -> head_len d = 0 \/ framed d /\ head_len d = announced d.
Proof.
  unfold head_bad, head_len, framed, legal. intros H. destruct (Z.ltb_spec (blen d) AUTHD_FRAME_HEADER); [by left|].
  rewrite (proj2 (Z.leb_le _ _)) in H by done. apply orb_false_iff in H as [?%Z.eqb_neq ?%Z.ltb_ge].
  pose proof (announced_nonneg d). right. lia.
Qed.

Lemma cio_note_header c d q : cio c d q -> cio (note_header c).2 d q.
Proof.
  intros H. destruct (decide (c_mode c = CONN_IO_MODE_LINE)) as [Hl|Hl].
  - unfold note_header. destruct (_ && _); [done|]. destruct (_ || _); [done|]. destruct ((be32 _ =? 0) || _) eqn:Hb; [by apply cio_fail|].
    apply cio_set_frame; [done| |auto|right; unfold is_ws; by rewrite Hl]. unfold be32. rewrite !Z.lor_nonneg, !Z.shiftl_nonneg. split_and!; apply bz_range.
  - destruct (is_ws c && bool_decide (ws_stage (c_ws c) = WS_STAGE_UPGRADE)) eqn:Hu; [unfold note_header; by rewrite Hu|].
    assert (Hr : reading c). { split; [done|]. intros Hw. rewrite Hw in Hu. by apply bool_decide_eq_false in Hu. }
    rewrite (note_header_reading _ _ _ H Hr). destruct (head_bad d) eqn:Hb; cbn [snd]; [by apply cio_fail|].
    apply head_good in Hb as [->|[? ->]]; apply cio_set_frame; auto using announced_nonneg; try lia; right; apply Hr.
Qed.

(** More input. *)
Lemma announced_app d p : 4 <= blen d -> announced (d ++ p) = announced d.
Proof. intros. unfold announced. by rewrite take_app_le by lia. Qed.

Lemma framed_app d p : framed d -> framed (d ++ p) /\ announced (d ++ p) = announced d.
Proof. intros [H ?]. unfold framed, AUTHD_FRAME_HEADER in *. rewrite announced_app, length_app by done. split; [split; [lia|done]|done]. Qed.

Lemma cio_append c d q p :
  cio c d q -> blen d + blen p <= AUTHD_IN_BUF_BYTES ->
  cio (c_set_in c (poke (c_in_len c) p (c_in c)) (c_in_len c + blen p)) (d ++ p) q.
Proof.
  intros [] Hp. constructor; cbn; [| |split; [easy|]|done..].
  - rewrite cio_in_len0. by apply clean_poke.
  - rewrite cio_in_len0, length_app. lia.
  - destruct cio_frame0 as [_ [?|[?|[? He]]]]; auto. right. right. destruct (framed_app d p) as [? ->]; auto.
Qed.

(** Dropping the front. *)
Lemma clean_slide n buf d k :
  clean n buf d -> 0 <= k <= blen d ->
  clean n (poke (blen d - k) (zeros k) (if 0 <? blen d - k then poke 0 (peek k (blen d - k) buf) buf else buf)) (zdrop k d).
Proof.
  intros Hc Hk. pose proof Hc as [Hd ->]. rewrite (clean_peek n _ d) by (done || lia).
  assert (peek k (blen d - k) d = zdrop k d) as -> by (unfold peek; apply take_ge; rewrite length_drop; lia).
  assert (Hb : blen (zdrop k d) = blen d - k) by (rewrite length_drop; lia). split; [lia|].
  transitivity (poke (blen d - k) (zeros k) (poke 0 (zdrop k d) (d ++ zeros (n - blen d)))).
  { destruct (0 <? _) eqn:H0; [done|]. apply Z.ltb_ge in H0. rewrite (drop_ge d) by lia. by rewrite poke_nil. }
  rewrite (poke_append (zdrop k d) (zeros k)) by done.
  rewrite poke_0, drop_app_ge by (rewrite length_app; pose proof (length_zeros k); lia). rewrite <-app_assoc. f_equal.
  unfold zeros. rewrite drop_replicate, <-replicate_add. f_equal. rewrite length_app, length_replicate. lia.
Qed.

Lemma cio_slide c d q k :
  cio c d q -> 0 <= k <= blen d -> c_mode c = CONN_IO_MODE_LINE \/ c_frame_len c = 0 -> cio (slide c k) (zdrop k d) q.
Proof.
  intros [] Hk Hm. constructor; cbn; [| |tauto|done..].
  - rewrite cio_in_len0. replace (blen d - (blen d - k)) with k by lia. by apply clean_slide.
  - rewrite cio_in_len0, length_drop. lia.
Qed.

(** ** The sink of the decoder *)

(** The input buffer holding [d], as the sink sees it. *)
Definition inbuf (d : list byte) : list byte * Z := (d ++ zeros (AUTHD_IN_BUF_BYTES - blen d), blen d).
Definition in_good (b : list byte * Z) : Prop := exists d, blen d <= AUTHD_IN_BUF_BYTES /\ b = inbuf d.

Lemma sink_inbuf d p :
  blen d <= AUTHD_IN_BUF_BYTES ->
  ws_sink_in (inbuf d) p = if AUTHD_IN_BUF_BYTES <? blen d + blen p then (false, inbuf d) else (true, inbuf (d ++ p)).
Proof.
  intros Hd. assert (Hc : clean AUTHD_IN_BUF_BYTES (inbuf d).1 d) by done. pose proof (clean_length _ _ _ Hc) as Hl.
  unfold ws_sink_in. unfold inbuf at 1. cbn [fst] in Hl. cbn [inbuf fst] in Hl. rewrite Hl.
  destruct (AUTHD_IN_BUF_BYTES <? _) eqn:Hlt; [apply Z.ltb_lt in Hlt; rewrite (proj2 (Z.ltb_lt _ _)) by lia; done|].
  apply Z.ltb_ge in Hlt. rewrite (proj2 (Z.ltb_ge _ _)) by lia. unfold inbuf. do 2 f_equal; [|rewrite length_app; lia].
  apply (clean_poke _ _ _ p) in Hc as [_ H]; [|done]. exact H.
Qed.

#[global] Instance ws_sink_in_law : SinkLaw in_good ws_sink_in.
Proof.
  split.
  - intros ? (d & Hd & ->). rewrite sink_inbuf by done. cbn [length]. rewrite (proj2 (Z.ltb_ge _ _)) by lia. by rewrite app_nil_r.
  - intros ? a b (d & Hd & ->). rewrite !sink_inbuf by done. rewrite length_app. destruct (_ <? blen d + blen a) eqn:Ha.
    + apply Z.ltb_lt in Ha. by rewrite (proj2 (Z.ltb_lt _ (blen d + _))) by lia.
    + apply Z.ltb_ge in Ha. rewrite sink_inbuf, length_app, <-app_assoc by (rewrite length_app; lia).
      rewrite !Nat2Z.inj_add, Z.add_assoc. by destruct (_ <? _).
  - intros ? a c' (d & Hd & ->). rewrite sink_inbuf by done. destruct (_ <? _) eqn:Ha; [done|]. apply Z.ltb_ge in Ha. intros [= <-].
    exists (d ++ a). rewrite length_app. split; [lia|done].
Qed.

#[local] Arguments inbuf : simpl never.
#[local] Arguments ws_sink_in : simpl never.

(** [c] with the decoder [w] and the input [d]. *)
Definition fill (c : conn_io_t) (w : ws_t) (d : list byte) : conn_io_t := c_set_in (c_set_ws c w) (inbuf d).1 (inbuf d).2.

Lemma cio_fill c d q w d' x :
  cio c d q -> d' = d ++ x -> blen d' <= AUTHD_IN_BUF_BYTES ->
  (c_failed c = false -> ws_part w /\ (is_ws c = true -> ws_stage w = WS_STAGE_UPGRADE -> c_frame_len c = 0)) -> cio (fill c w d') d' q.
Proof.
  intros [] -> Hd Hw. constructor; try done. cbn. split; [easy|]. destruct cio_frame0 as [_ [?|[?|[? He]]]]; auto. right. right.
  destruct (framed_app d x) as [? ->]; auto.
Qed.

Lemma cio_inbuf c d q : cio c d q -> (c_in c, c_in_len c) = inbuf d /\ blen d <= AUTHD_IN_BUF_BYTES.
Proof. intros [[Hd ->] -> _ _ _ _ _ _]. done. Qed.

(** The connection has failed, and its buffers are in order. *)
Definition dead (c : conn_io_t) (q : list byte) : Prop := c_failed c = true /\ exists d, cio c d q.

Lemma sink_extends d b p :
  (exists x, blen (d ++ x) <= AUTHD_IN_BUF_BYTES /\ b = inbuf (d ++ x)) ->
  exists x, blen (d ++ x) <= AUTHD_IN_BUF_BYTES /\ (ws_sink_in b p).2 = inbuf (d ++ x).
Proof.
  intros (x & Hx & ->). rewrite sink_inbuf by done. destruct (_ <? _) eqn:Hlt; cbn [snd]; [by exists x|]. apply Z.ltb_ge in Hlt.
  exists (x ++ p). rewrite app_assoc, (length_app (d ++ x)). split; [lia|done].
Qed.

Lemma ws_consume_some {C} (sink : C -> list byte -> bool * C) w p n c : exists r, ws_consume (Some sink) (Some w) p n c = (r.1.1, Some r.1.2, r.2).
Proof.
  unfold ws_consume. destruct (_ && _); [by exists (WS_ERR_PROTOCOL, w, c)|]. destruct (bool_decide _); [by exists (WS_OK, w, c)|].
  destruct (negb _); [by exists (WS_ERR_PROTOCOL, w, c)|]. destruct (ws_loop _ _ _ _ _) as [[st w1] c1]. by exists (st, w1, c1).
Qed.

(** A read of an open connection adds the payload it carries. *)
Lemma ws_feed_spec c d q p :
  cio c d q -> c_failed c = false -> is_ws c = true -> ws_stage (c_ws c) <> WS_STAGE_UPGRADE ->
  match payload (c_ws c) p with
  | Some (w, x) => if AUTHD_IN_BUF_BYTES <? blen d + blen x then (ws_feed c p).1 = CONN_IO_ERR_PROTOCOL /\ dead (ws_feed c p).2 q else
      ws_feed c p = note_header (fill c w (d ++ x)) /\ cio (fill c w (d ++ x)) (d ++ x) q /\ ws_stage w <> WS_STAGE_UPGRADE
  | None => (ws_feed c p).1 = CONN_IO_ERR_PROTOCOL /\ dead (ws_feed c p).2 q
  end.
Proof.
  intros Hc Hf Hm Hs. destruct (cio_inbuf _ _ _ Hc) as [Hb Hd]. destruct (cio_ws _ _ _ Hc Hf) as [(Hw & Hst & _) _].
  assert (Hg : in_good (inbuf d)) by (by exists d).
  assert (Herr : (ws_consume (Some ws_sink_in) (Some (c_ws c)) (Some p) (blen p) (inbuf d)).1.1 = WS_ERR_PROTOCOL ->
    (ws_feed c p).1 = CONN_IO_ERR_PROTOCOL /\ dead (ws_feed c p).2 q).
  { pose proof (ws_consume_keeps ws_sink_in _ (sink_extends d) (Some (c_ws c)) (Some p) (blen p) (inbuf d)) as Hk. unfold ws_feed. rewrite Hb.
    destruct (ws_consume _ _ _ _ _) as [[st w] [buf n]]. cbn [fst snd] in *. intros ->. rewrite bool_decide_true by done.
    destruct Hk as (x & Hx & [= -> ->]); [exists []; by rewrite app_nil_r|]. split; [done|]. split; [done|]. exists (d ++ x).
    apply (cio_fill (c_fail c) d q _ _ x); [by apply cio_fail|done|done|done]. }
  assert (settled_none : settled (ws_consume (Some ws_sink_in) (Some (c_ws c)) (Some p) (blen p) (inbuf d)) = None ->
    (ws_consume (Some ws_sink_in) (Some (c_ws c)) (Some p) (blen p) (inbuf d)).1.1 = WS_ERR_PROTOCOL).
  { destruct (ws_consume_some ws_sink_in (c_ws c) (Some p) (blen p) (inbuf d)) as [[[[] ?] ?] ->]; done. }
  pose proof (ws_consume_bytes in_good ws_sink_in (c_ws c) (inbuf d) p Hg Hw Hs) as Hcb.
  pose proof (ws_bytes_ok in_good ws_sink_in p (c_ws c) (inbuf d)) as Hok.
  rewrite (ws_bytes_hand in_good ws_sink_in (c_ws c) (inbuf d) p Hg) in Hcb, Hok. unfold hand in *. destruct (payload (c_ws c) p) as [[w x]|] eqn:Hp; cbn [mbind option_bind] in Hcb, Hok.
  - rewrite sink_inbuf in Hcb, Hok by done. destruct (_ <? _) eqn:Hlt; cbn [mbind option_bind] in Hcb.
    + by apply Herr, settled_none.
    + clear Herr. apply Z.ltb_ge in Hlt. destruct (Hok w (inbuf (d ++ x)) Hg Hw Hs eq_refl) as (_ & Hw' & Hs'). unfold ws_feed. rewrite Hb.
      destruct (ws_consume_some ws_sink_in (c_ws c) (Some p) (blen p) (inbuf d)) as [[[st w1] [buf n]] Heq]. rewrite Heq in Hcb |- *. cbn in Hcb |- *.
      assert (Hst1 : st <> WS_ERR_PROTOCOL /\ w1 = w /\ (buf, n) = inbuf (d ++ x)) by (clear -Hcb; destruct st; by simplify_eq/=).
      destruct Hst1 as (Hst1 & -> & [= -> ->]). rewrite bool_decide_false by done. split; [done|]. split; [|done].
      apply (cio_fill _ d _ _ _ x); [done|done|rewrite length_app; lia|]. intros _. split; [|done]. split; [done|]. split; [|done].
      apply payload_state in Hp as (H1 & H2 & _). unfold state_ok in *. by rewrite H1, H2.
  - by apply Herr, settled_none.
Qed.

(** ** Every operation keeps the invariant *)

Lemma clean_set_in c d q d' :
  cio c d q -> blen d' <= AUTHD_IN_BUF_BYTES -> c_frame_len c = 0 -> forall buf, clean AUTHD_IN_BUF_BYTES buf d' -> cio (c_set_in c buf (blen d')) d' q.
Proof. intros [] ? Hz ? ?. constructor; cbn; auto. rewrite Hz. split; [lia|by left]. Qed.

Lemma cio_set_ws c d q w :
  cio c d q -> (c_failed c = false -> ws_part w /\ (is_ws c = true -> ws_stage w = WS_STAGE_UPGRADE -> c_frame_len c = 0)) -> cio (c_set_ws c w) d q.
Proof. intros [] ?. by constructor. Qed.

Lemma cio_set_proxy c d q on p : cio c d q -> cio (c_set_proxy c on p) d q.
Proof. intros []. by constructor. Qed.

Lemma cio_set_out c d q b q' sent :
  cio c d q -> clean AUTHD_OUT_BUF_BYTES b q' -> sent = 0 /\ q' = [] \/ 0 <= sent < blen q' -> cio (c_set_out c b (blen q') sent) d q'.
Proof. intros [] ? ?. by constructor. Qed.

Lemma ws_part_reply w r : ws_part w -> reply_ok r -> ws_part (set_reply w r).
Proof. intros ([] & ? & ?) (? & ? & ?). split; [by constructor|done]. Qed.

Lemma ws_part_closed w : ws_part w -> ws_part (set_stage w WS_STAGE_CLOSED).
Proof. intros ([] & ? & ?). split; [by constructor|done]. Qed.

Section keeps.
Context {B : Base64} `{!Base64Law B}.

Lemma ws_feed_keeps c d q p :
  cio c d q -> c_failed c = false -> is_ws c = true -> ws_stage (c_ws c) <> WS_STAGE_UPGRADE -> exists d', cio (ws_feed c p).2 d' q.
Proof.
  intros Hc Hf Hm Hs. pose proof (ws_feed_spec c d q p Hc Hf Hm Hs) as H. destruct (payload _ _) as [[w x]|]; [|by destruct H as [_ [_ ?]]].
  destruct (_ <? _); [by destruct H as [_ [_ ?]]|]. destruct H as (-> & ? & _). eexists. by apply cio_note_header.
Qed.

Lemma push_ws_keeps c d q data :
  cio c d q -> c_failed c = false -> is_ws c = true -> exists d', cio (push_ws c data).2 d' q.
Proof.
  intros Hc Hf Hm. unfold push_ws. case_bool_decide as Hs; cbn [negb]; [|by eapply ws_feed_keeps].
  rewrite (clean_length _ _ _ (cio_in _ _ _ Hc)). destruct (_ <? _) eqn:Hlt; [exists d; by apply cio_fail|]. apply Z.ltb_ge in Hlt.
  pose proof (cio_in_len _ _ _ Hc) as Hil. pose proof (cio_append c d q data Hc ltac:(lia)) as Hc1.
  set (c1 := c_set_in _ _ _) in *. assert (Hm1 : is_ws c1 = true /\ c_failed c1 = false /\ c_ws c1 = c_ws c) by done.
  destruct (cio_ws _ _ _ Hc Hf) as [(Hw & Hst & Hz) Hfl]. specialize (Hz Hs). specialize (Hfl Hm Hs). assert (Hfl1 : c_frame_len c1 = 0) by done.
  clearbody c1. destruct Hm1 as (Hm1 & Hf1 & Hw1). destruct (_ =? 0).
  { destruct (_ <? _); eexists; [by apply cio_fail|done]. }
  set (r := end_of_headers _). destruct (WS_UPGRADE_MAX <? r); [eexists; by apply cio_fail|].
  destruct (upgrade_some (c_ws c1) (c_in c1) r) as (st & w & Hu). rewrite Hu. apply upgrade_cases in Hu as (Hok & Hst' & Hd & _ & Hcase); try congruence.
  cbn [from_option default id]. assert (Hp : ws_part w) by (split; [done|split; [done|]]; intros _; rewrite Hd, Hw1; done).
  assert (Hc2 : cio (c_set_ws c1 w) (d ++ data) q) by (by apply cio_set_ws).
  destruct (negb _) eqn:Hst1; [eexists; by apply cio_fail|]. apply negb_false_iff, bool_decide_eq_true in Hst1.
  assert (Hso : ws_stage w = WS_STAGE_OPEN) by (by destruct Hcase as [[-> _]|(_ & ? & _)]).
  pose proof (clean_set_in _ _ _ [] Hc2 ltac:(rewrite in_buf; cbn; lia) Hfl1 _ (clean_wipe _ _ _ (cio_in _ _ _ Hc2))) as Hc3.
  rewrite (cio_in_len _ _ _ Hc2). destruct (0 <? _); [|eexists; exact Hc3]. eapply ws_feed_keeps; [exact Hc3|done..|]. cbn. congruence.
Qed.

(** [data] is what the caller read: [n] bytes. *)
Lemma push_keeps c d q data :
  cio c d q -> exists c' d', (conn_io_push (Some c) (Some data) (blen data)).2 = Some c' /\ cio c' d' q.
Proof.
  intros Hc. unfold conn_io_push. rewrite (bool_decide_false (Some data = None)) by done. cbn [andb from_option default id].
  rewrite take_all_z by done. destruct (c_failed c) eqn:Hf; [eauto|]. destruct (is_ws c) eqn:Hm.
  - destruct (_ && _).
    + destruct (proxy_v2_consume _ _ _ _) as [[st p] used]. pose proof (cio_set_proxy c d q (c_proxy_on c) (default (c_proxy c) p) Hc) as Hc1.
      set (c1 := c_set_proxy _ _ _) in *. assert (Hm1 : is_ws c1 = true /\ c_failed c1 = false) by done. clearbody c1. destruct Hm1.
      destruct (bool_decide _); [by eauto using cio_fail|]. destruct (negb _); [by eauto|].
      destruct (push_ws_keeps c1 d q (zdrop (default 0 used) data)) as [d' Hd']; [done..|]. destruct (push_ws _ _) as [st2 c2]. by exists c2, d'.
    + destruct (push_ws_keeps c d q data) as [d' Hd']; [done..|]. destruct (push_ws _ _) as [st2 c2]. by exists c2, d'.
  - assert (Hnote : forall c d, cio c d q -> exists d', cio (if bool_decide (c_mode c = CONN_IO_MODE_LINE) then note_line_cap c else note_header c).2 d' q).
    { intros c0 d0 Hc0. case_bool_decide; [|eauto using cio_note_header]. unfold note_line_cap. destruct (memchr _ _); [eauto|].
      destruct (_ <=? _); eauto using cio_fail. }
    destruct (_ =? 0).
    + destruct (Hnote c d Hc) as [d' Hd']. destruct (if bool_decide _ then _ else _) as [st c1]. by exists c1, d'.
    + rewrite (clean_length _ _ _ (cio_in _ _ _ Hc)). destruct (_ <? _) eqn:Hlt; [by eauto using cio_fail|]. apply Z.ltb_ge in Hlt.
      pose proof (cio_in_len _ _ _ Hc). destruct (Hnote _ _ (cio_append c d q data Hc ltac:(lia))) as [d' Hd'].
      destruct (if bool_decide _ then _ else _) as [st c1]. by exists c1, d'.
Qed.

End keeps.

Lemma memchr_range l x i : memchr l x = Some i -> 0 <= i < blen l.
Proof.
  revert i. induction l as [|y l IH]; intros i; [done|]. cbn. case_bool_decide; [intros [= <-]; lia|].
  destruct (memchr l x) as [j|]; [|done]. cbn. intros [= <-]. specialize (IH j eq_refl). lia.
Qed.

Lemma next_line_keeps c d q : cio c d q -> exists c', (conn_io_next_line (Some c)).2 = Some c' /\ cio c' d q.
Proof.
  intros Hc. unfold conn_io_next_line. destruct (_ || _) eqn:Hm; [eauto|]. apply orb_false_iff in Hm as [_ Hm%negb_false_iff%bool_decide_eq_true].
  destruct (memchr _ _) as [i|] eqn:Hi; [|eauto]. apply memchr_range in Hi. eexists. split; [done|]. apply cio_set_line; [done|lia|done].
Qed.

Lemma consume_line_keeps c d q : cio c d q -> exists c' d', conn_io_consume_line (Some c) = Some c' /\ cio c' d' q.
Proof.
  intros Hc. unfold conn_io_consume_line. destruct (_ || _) eqn:Hm; [eauto|]. apply orb_false_iff in Hm as [Hz%Z.eqb_neq Hl%Z.ltb_ge].
  pose proof (cio_in_len _ _ _ Hc). destruct (cio_line _ _ _ Hc) as [? Hmode].
  assert (c_mode c = CONN_IO_MODE_LINE) by (destruct (decide (c_mode c = CONN_IO_MODE_LINE)); [done|exfalso; auto]).
  eexists _, _. split; [done|]. apply cio_set_line; [apply cio_slide; [exact Hc|lia|auto]|lia|done].
Qed.

Lemma next_frame_keeps c d q : cio c d q -> exists c', (conn_io_next_frame (Some c)).2 = Some c' /\ cio c' d q.
Proof.
  intros Hc. unfold conn_io_next_frame. destruct (c_failed c); [eauto|]. pose proof (cio_note_header c d q Hc) as Hn.
  destruct (note_header c) as [st c1]. cbn [snd] in Hn. repeat case_match; eauto.
Qed.

Lemma consume_frame_keeps c d q : cio c d q -> exists c' d', conn_io_consume_frame (Some c) = Some c' /\ cio c' d' q.
Proof.
  intros Hc. unfold conn_io_consume_frame. destruct (_ =? 0); [eauto|]. destruct (_ <? _) eqn:Hl; [eauto|]. apply Z.ltb_ge in Hl.
  pose proof (cio_in_len _ _ _ Hc). destruct (cio_frame _ _ _ Hc) as [? _]. eexists _, _. split; [done|]. apply cio_note_header.
  change (c_set_frame (slide c (AUTHD_FRAME_HEADER + c_frame_len c)) 0) with (slide (c_set_frame c 0) (AUTHD_FRAME_HEADER + c_frame_len c)).
  apply (cio_slide _ d); [apply cio_set_frame; auto; lia| |by right]. unfold AUTHD_FRAME_HEADER in *. lia.
Qed.

(** ** Output *)

(** What one payload becomes on the wire. *)
Definition wire (m : conn_io_mode_t) (p : list byte) : list byte :=
  match m with
  | CONN_IO_MODE_LINE => p
  | CONN_IO_MODE_FRAME => len32 (blen p) ++ p
  | CONN_IO_MODE_WS => ws_server_header (AUTHD_FRAME_HEADER + blen p) WS_OP_BINARY ++ len32 (blen p) ++ p
  end.

Lemma length_server_header n op : 2 <= blen (ws_server_header n op) <= WS_SRV_HDR_MAX.
Proof. unfold ws_server_header, WS_SRV_HDR_MAX. destruct (_ <? _); [|destruct (_ <=? _)]; cbn [length app map seq]; lia. Qed.

Lemma length_conn_wire m p : blen p <= AUTHD_FRAME_MAX -> blen p <= blen (wire m p) <= AUTHD_OUT_BUF_BYTES.
Proof.
  rewrite frame_max, out_buf. pose proof (length_server_header (AUTHD_FRAME_HEADER + blen p) WS_OP_BINARY). unfold WS_SRV_HDR_MAX in *.
  destruct m; cbn [wire]; rewrite ?length_app; cbn [length len32]; lia.
Qed.

(** The output buffer holding [q]. *)
Definition outbuf (q : list byte) : list byte := q ++ zeros (AUTHD_OUT_BUF_BYTES - blen q).

Lemma poke_outbuf q : blen q <= AUTHD_OUT_BUF_BYTES -> poke 0 q (outbuf []) = outbuf q.
Proof.
  intros Hq. assert (Hz : clean AUTHD_OUT_BUF_BYTES (outbuf []) []) by (split; [rewrite out_buf; cbn; lia|done]).
  apply (clean_poke _ _ _ q) in Hz as [_ H]; [exact H|cbn; lia].
Qed.

Definition queued_out (c : conn_io_t) (q : list byte) : conn_io_t := c_set_out c (outbuf q) (blen q) 0.

Lemma queue_spec c d q p :
  cio c d q ->
  conn_io_queue (Some c) (Some p) (blen p) =
    if (blen p =? 0) || (AUTHD_FRAME_MAX <? blen p) then (CONN_IO_ERR_ARG, Some c) else
    if bool_decide (q = []) then (CONN_IO_OK, Some (queued_out c (wire (c_mode c) p))) else (CONN_IO_ERR_BUSY, Some c).
Proof.
  intros Hc. unfold conn_io_queue. destruct (_ || _) eqn:Hlen; [done|]. apply orb_false_iff in Hlen as [Hz%Z.eqb_neq Hm%Z.ltb_ge].
  pose proof (cio_out_len _ _ _ Hc) as Hol. pose proof (cio_sent _ _ _ Hc) as Hs. rewrite Hol. case_bool_decide as Hq.
  - subst q. destruct Hs as [[-> _]|?]; [|cbn in *; lia]. cbn [length Z.of_nat Z.eqb negb]. rewrite take_all_z by done.
    destruct (cio_out _ _ _ Hc) as [_ Ho]. change (c_out c = outbuf []) in Ho. rewrite Ho. pose proof (length_conn_wire (c_mode c) p Hm) as Hw.
    unfold queued_out. destruct (c_mode c); cbn [wire] in *.
    + rewrite poke_append, poke_outbuf by done || lia. do 3 f_equal. rewrite length_app. cbn [length len32]. unfold AUTHD_FRAME_HEADER. lia.
    + by rewrite poke_outbuf by lia.
    + set (h := ws_server_header _ _) in *. clearbody h. rewrite !length_app in Hw. cbn [length len32] in Hw.
      assert (Hl : blen (outbuf []) = AUTHD_OUT_BUF_BYTES) by (unfold outbuf; cbn [length app]; rewrite length_zeros; rewrite out_buf; cbn; lia).
      rewrite Hl, (proj2 (Z.ltb_ge _ _)) by (unfold AUTHD_FRAME_HEADER; lia).
      rewrite (poke_append h), (poke_append (h ++ _)), poke_outbuf by (rewrite ?length_app; cbn [length len32]; unfold AUTHD_FRAME_HEADER; lia).
      rewrite <-app_assoc. do 3 f_equal. rewrite !length_app. cbn [length len32]. unfold AUTHD_FRAME_HEADER. lia.
  - destruct Hs as [[_ ?]|?]; [done|]. by rewrite (proj2 (Z.eqb_neq _ _)) by lia.
Qed.

Lemma cio_queued c d q p :
  cio c d q -> 0 < blen p <= AUTHD_FRAME_MAX -> cio (queued_out c (wire (c_mode c) p)) d (wire (c_mode c) p).
Proof.
  intros Hc Hp. pose proof (length_conn_wire (c_mode c) p ltac:(lia)). apply (cio_set_out _ _ q); [done|split; [lia|done]|]. right. lia.
Qed.

(** What is still to be written, replies first. *)
Definition reply_rest (c : conn_io_t) : list byte :=
  let r := ws_r (c_ws c) in if ws_reply_pending c then peek (r_sent r) (r_len r - r_sent r) (r_buf r) else [].
Definition out_rest (c : conn_io_t) : list byte := zdrop (c_out_sent c) (ztake (c_out_len c) (c_out c)).
Definition waiting (c : conn_io_t) : list byte := reply_rest c ++ out_rest c.

Lemma out_rest_eq c d q : cio c d q -> out_rest c = zdrop (c_out_sent c) q.
Proof. intros Hc. unfold out_rest. by rewrite (cio_out_len _ _ _ Hc), (clean_take _ _ _ (cio_out _ _ _ Hc)). Qed.

Lemma pending_eq c d q :
  cio c d q -> c_failed c = false -> conn_io_pending (Some c) = if ws_reply_pending c then blen (reply_rest c) else blen (out_rest c).
Proof.
  intros Hc Hf. rewrite (out_rest_eq _ _ _ Hc), length_drop. pose proof (cio_out_len _ _ _ Hc) as Hol. pose proof (cio_sent _ _ _ Hc) as Hs.
  unfold conn_io_pending, reply_rest. destruct (ws_reply_pending c) eqn:Hr.
  - destruct (cio_ws _ _ _ Hc Hf) as [([] & _) _]. apply andb_true_iff in Hr as [_ Hr%Z.ltb_lt]. rewrite length_peek; lia.
  - destruct (Z.leb_spec (c_out_len c) (c_out_sent c)); lia.
Qed.

(** The reply after [n] more bytes of it were written. *)
Definition reply_after (r : ws_reply) (n : Z) : ws_reply :=
  let sent := r_sent r + (if r_len r - r_sent r <? n then r_len r - r_sent r else n) in
  if r_len r <=? sent then WsReply (poke 0 (zeros (r_len r)) (r_buf r)) 0 0 else WsReply (r_buf r) (r_len r) sent.

Lemma reply_after_ok r n : reply_ok r -> 0 <= n -> reply_ok (reply_after r n).
Proof.
  intros (Hb & Hs & Hl) Hn. unfold reply_after. destruct (_ <=? _) eqn:H; unfold reply_ok; cbn [r_buf r_len r_sent].
  - rewrite length_poke; [lia|lia|]. rewrite length_zeros; lia.
  - apply Z.leb_gt in H. revert H. case_match; lia.
Qed.

Lemma sent_reply c n : ws_reply_pending c = true -> conn_io_sent (Some c) n = Some (c_set_ws c (set_reply (c_ws c) (reply_after (ws_r (c_ws c)) n))).
Proof. intros H. unfold conn_io_sent. by rewrite H. Qed.

(** The data queue after [n] more bytes of it were written. *)
Definition sent_out (c : conn_io_t) (q : list byte) (n : Z) : conn_io_t :=
  if c_out_sent c + n <? blen q then c_set_out c (outbuf q) (blen q) (c_out_sent c + n) else queued_out c [].

Lemma sent_data c d q n :
  cio c d q -> ws_reply_pending c = false -> 0 <= n -> conn_io_sent (Some c) n = Some (sent_out c q n).
Proof.
  intros Hc Hr Hn. unfold conn_io_sent, conn_io_pending, sent_out. rewrite Hr, (cio_out_len _ _ _ Hc). f_equal.
  pose proof (cio_sent _ _ _ Hc) as Hs. destruct (cio_out _ _ _ Hc) as [Hq Ho]. pose proof (clean_wipe _ _ _ (cio_out _ _ _ Hc)) as [_ Hw].
  destruct (Z.ltb_spec (c_out_sent c + n) (blen q)) as [Hlt|Hge].
  - destruct Hs as [[? ->]|Hs]; [cbn in *; lia|]. rewrite (proj2 (Z.leb_gt (blen q) _)) by lia. rewrite (proj2 (Z.ltb_ge (blen q - _) n)) by lia.
    rewrite (proj2 (Z.eqb_neq _ _)) by lia. by rewrite Ho.
  - rewrite (proj2 (Z.eqb_eq _ _)); [by rewrite Hw|]. destruct Hs as [[-> ->]|?].
    + cbn [length Z.of_nat]. rewrite Z.leb_refl. destruct (Z.ltb_spec 0 n); lia.
    + rewrite (proj2 (Z.leb_gt (blen q) _)) by lia. destruct (Z.ltb_spec (blen q - c_out_sent c) n); lia.
Qed.

Lemma cio_sent_out c d q n : cio c d q -> 0 <= n -> exists q', cio (sent_out c q n) d q'.
Proof.
  intros Hc Hn. pose proof (cio_sent _ _ _ Hc) as Hs. destruct (cio_out _ _ _ Hc) as [Hq _]. unfold sent_out.
  destruct (Z.ltb_spec (c_out_sent c + n) (blen q)) as [Hlt|Hge]; eexists; (eapply cio_set_out; [exact Hc| |]).
  - done.
  - right. destruct Hs as [[? ->]|?]; [cbn [length Z.of_nat] in Hlt|]; lia.
  - split; [|done]. rewrite out_buf. cbn. lia.
  - by left.
Qed.

Lemma cio_reply_after c d q n : cio c d q -> 0 <= n -> cio (c_set_ws c (set_reply (c_ws c) (reply_after (ws_r (c_ws c)) n))) d q.
Proof.
  intros Hc Hn. apply cio_set_ws; [done|]. intros Hf. destruct (cio_ws _ _ _ Hc Hf) as [Hw Hu]. split; [|done].
  apply ws_part_reply; [done|]. apply reply_after_ok; [|done]. apply ws_ok_reply, Hw.
Qed.

Lemma sent_keeps c d q n : cio c d q -> 0 <= n -> exists c' q', conn_io_sent (Some c) n = Some c' /\ cio c' d q'.
Proof.
  intros Hc Hn. destruct (ws_reply_pending c) eqn:Hr.
  - rewrite sent_reply by done. eexists _, q. split; [done|]. by apply cio_reply_after.
  - rewrite (sent_data c d q) by done. destruct (cio_sent_out c d q n) as [q' ?]; [done..|]. eauto.
Qed.

(** A write takes the front of what is waiting, and leaves the rest waiting. *)
Lemma sent_waiting c d q n c' :
  cio c d q -> c_failed c = false -> 0 <= n <= conn_io_pending (Some c) -> conn_io_sent (Some c) n = Some c' ->
  ztake n (default [] (conn_io_pending_ptr (Some c))) ++ waiting c' = waiting c /\ c_failed c' = false.
Proof.
  intros Hc Hf Hn. rewrite (pending_eq _ _ _ Hc Hf) in Hn. pose proof (out_rest_eq _ _ _ Hc) as Ho. pose proof (cio_sent _ _ _ Hc) as Hs.
  unfold waiting, conn_io_pending_ptr. destruct (ws_reply_pending c) eqn:Hr; cbn [default from_option id].
  - rewrite sent_reply by done. intros [= <-]. split; [|done]. change (out_rest (c_set_ws _ _)) with (out_rest c). rewrite app_assoc. f_equal.
    destruct (cio_ws _ _ _ Hc Hf) as [([] & _) _]. pose proof Hr as [Hm Hlt%Z.ltb_lt]%andb_true_iff. revert Hn. unfold reply_rest. rewrite Hr.
    rewrite length_peek by lia. intros Hn. unfold ws_reply_pending. change (is_ws (c_set_ws _ _)) with (is_ws c). rewrite Hm.
    set (r := ws_r (c_ws c)) in *. cbn [c_ws c_set_ws ws_r set_reply]. unfold reply_after.
    rewrite (proj2 (Z.ltb_ge (r_len r - _) n)) by lia. destruct (Z.leb_spec (r_len r) (r_sent r + n)); cbn [r_len r_sent r_buf andb].
    + rewrite Z.ltb_irrefl, app_nil_r. unfold peek. do 2 f_equal. lia.
    + rewrite (proj2 (Z.ltb_lt _ _)) by lia. unfold peek.
      replace (Z.to_nat (r_len r - r_sent r)) with (Z.to_nat n + Z.to_nat (r_len r - (r_sent r + n)))%nat by lia.
      by rewrite <-take_take_drop, drop_drop, <-Z2Nat.inj_add by lia.
  - rewrite (sent_data c d q) by (done || lia). intros [= <-]. unfold reply_rest. rewrite Hr, Ho. cbn [app]. rewrite Ho in Hn.
    destruct (cio_out _ _ _ Hc) as [Hq Hob]. rewrite Hob. unfold sent_out.
    assert (Hsq : 0 <= c_out_sent c <= blen q) by (destruct Hs as [[-> ->]|?]; cbn; lia). rewrite length_drop in Hn.
    rewrite drop_app_le, take_app_le by (rewrite ?length_drop; lia).
    destruct (Z.ltb_spec (c_out_sent c + n) (blen q)); (split; [|done]).
    + change (ws_reply_pending (c_set_out _ _ _ _)) with (ws_reply_pending c). rewrite Hr. unfold out_rest, outbuf. cbn [app c_out c_out_len c_out_sent c_set_out].
      rewrite Nat2Z.id, take_app_length, Z2Nat.inj_add, <-drop_drop by lia. apply take_drop.
    + change (ws_reply_pending (queued_out _ _)) with (ws_reply_pending c). rewrite Hr. change (out_rest (queued_out c [])) with ([] : list byte).
      rewrite !app_nil_r. apply take_ge. rewrite length_drop. lia.
Qed.

Lemma cio_drop_out c d q : cio c d q -> cio (drop_out c) d [].
Proof.
  intros Hc. unfold drop_out. rewrite (clean_length _ _ _ (cio_out _ _ _ Hc)).
  apply (cio_set_out c d q _ []); [done|apply clean_zeros; rewrite out_buf; lia|by left].
Qed.

Lemma refuse_keeps c d q code : cio c d q -> exists c' q', (conn_io_ws_refuse (Some c) code).2 = Some c' /\ cio c' d q'.
Proof.
  intros Hc. unfold conn_io_ws_refuse. destruct (negb _); [by exists c, q|]. pose proof (cio_drop_out _ _ _ Hc) as Hd. set (c1 := drop_out c) in *.
  clearbody c1. destruct (ws_refuse (Some (c_ws c1)) code) as [st w] eqn:Hr. eexists _, []. split; [done|]. apply cio_set_ws; [done|]. intros Hf.
  destruct (cio_ws _ _ _ Hd Hf) as [Hw _]. destruct (refuse_spec (c_ws c1) code (proj1 Hw)) as (r & Hr' & Hok & _).
  rewrite Hr' in Hr. injection Hr as <- <-. cbn [default from_option id]. split; [|done]. by apply ws_part_closed, ws_part_reply.
Qed.

Lemma silence_keeps c d q : cio c d q -> exists c' q', conn_io_ws_silence (Some c) = Some c' /\ cio c' d q'.
Proof.
  intros Hc. unfold conn_io_ws_silence. destruct (negb _); [by exists c, q|]. pose proof (cio_drop_out _ _ _ Hc) as Hd. set (c1 := drop_out c) in *.
  clearbody c1. eexists _, []. split; [done|]. apply cio_set_ws; [done|]. intros Hf. destruct (cio_ws _ _ _ Hd Hf) as [Hw _]. split; [|done].
  apply ws_part_closed, ws_part_reply; [done|]. pose proof (ok_buf _ (proj1 Hw)) as Hb. rewrite Hb.
  unfold reply_ok. cbn [r_buf r_len r_sent]. rewrite length_zeros; [|done]. done.
Qed.

Lemma ws_part_init : ws_part ws_init.
Proof. split; [|done]. constructor; [|done..]. constructor; cbn; wsunfold; done || lia. Qed.

(** ** Every run of operations *)

(** A slot bound to a connection: reset, mode, preamble expected or not. *)
Definition conn_start (c : conn_io_t) (m : conn_io_mode_t) (proxy : bool) : conn_io_t :=
  default c (conn_io_set_proxy (conn_io_set_mode (conn_io_reset (Some c)) m) proxy).

Lemma cio_zero m : cio (c_set_mode conn_io_zero m) [] [].
Proof.
  split; [by apply clean_zeros|done|by split; [|left]|done|by apply clean_zeros|done|by left|]. intros _. split; [|done].
  split; [|done]. constructor; [|done..]. constructor; cbn; wsunfold; done || lia.
Qed.

Lemma cio_start c m proxy : cio (conn_start c m proxy) [] [] /\ c_mode (conn_start c m proxy) = m /\ c_failed (conn_start c m proxy) = false.
Proof.
  unfold conn_start. cbn [conn_io_reset conn_io_set_mode]. pose proof (cio_zero m) as Hz. case_bool_decide as Hm.
  - subst m. cbn [conn_io_set_proxy c_mode c_set_ws c_set_mode]. rewrite bool_decide_true by done. cbn [default from_option id]. split; [|done].
    apply cio_set_proxy, cio_set_ws; [done|]. intros _. split; [apply ws_part_init|done].
  - cbn [conn_io_set_proxy c_mode c_set_mode]. rewrite bool_decide_false by done. done.
Qed.

Inductive conn_op :=
  | OpPush (data : list byte) | OpNextLine | OpConsumeLine | OpNextFrame | OpConsumeFrame
  | OpQueue (p : list byte) | OpSent (n : Z) | OpRefuse (code : Z) | OpSilence.

Section runs.
Context {B : Base64} `{!Base64Law B}.

Definition conn_step (c : conn_io_t) (o : conn_op) : conn_io_t :=
  default c match o with
  | OpPush data => (conn_io_push (Some c) (Some data) (blen data)).2
  | OpNextLine => (conn_io_next_line (Some c)).2
  | OpConsumeLine => conn_io_consume_line (Some c)
  | OpNextFrame => (conn_io_next_frame (Some c)).2
  | OpConsumeFrame => conn_io_consume_frame (Some c)
  | OpQueue p => (conn_io_queue (Some c) (Some p) (blen p)).2
  | OpSent n => conn_io_sent (Some c) n
  | OpRefuse code => (conn_io_ws_refuse (Some c) code).2
  | OpSilence => conn_io_ws_silence (Some c)
  end.

Definition op_legal (o : conn_op) : Prop := match o with OpSent n => 0 <= n | _ => True end.

Lemma conn_step_keeps c o : cio_ok c -> op_legal o -> cio_ok (conn_step c o).
Proof.
  intros (d & q & Hc) Ho. unfold conn_step, cio_ok. destruct o as [data| | | | |p|n|code|].
  - destruct (push_keeps c d q data Hc) as (c' & d' & -> & ?). eauto.
  - destruct (next_line_keeps c d q Hc) as (c' & -> & ?). eauto.
  - destruct (consume_line_keeps c d q Hc) as (c' & d' & -> & ?). eauto.
  - destruct (next_frame_keeps c d q Hc) as (c' & -> & ?). eauto.
  - destruct (consume_frame_keeps c d q Hc) as (c' & d' & -> & ?). eauto.
  - rewrite (queue_spec c d q p Hc). destruct (_ || _) eqn:Hl; [eauto|]. apply orb_false_iff in Hl as [?%Z.eqb_neq ?%Z.ltb_ge].
    case_bool_decide; [|eauto]. eexists _, _. apply (cio_queued c d q p Hc). lia.
  - destruct (sent_keeps c d q n Hc Ho) as (c' & q' & -> & ?). eauto.
  - destruct (refuse_keeps c d q code Hc) as (c' & q' & -> & ?). eauto.
  - destruct (silence_keeps c d q Hc) as (c' & q' & -> & ?). eauto.
Qed.

(** C40: from a slot bound to a new connection, whatever the slot held before, every sequence of operations keeps the
    buffers in order: lengths and offsets stay within the buffers, a pending frame length is the admissible one the
    first four bytes announce, a queue that is completely written is empty, no byte after the data held survives in
    either buffer, and the WebSocket decoder and its reply stay well formed until the connection fails. *)
Theorem conn_io_wellformed c m proxy ops : Forall op_legal ops -> cio_ok (fold_left conn_step ops (conn_start c m proxy)).
Proof.
  intros Hops. assert (H0 : cio_ok (conn_start c m proxy)) by (destruct (cio_start c m proxy); eexists _, _; eauto).
  revert H0. generalize (conn_start c m proxy) as c0. induction Hops as [|o ops Ho _ IH]; intros c0 H0; [done|]. apply IH. by apply conn_step_keeps.
Qed.

End runs.
