(* ===== verification/ConnIoRun.v ===== *)
(** * What a connection delivers

    The frames of a stream as a function of its bytes, and the event loop's use
    of the buffers: read no more than there is room for, hand over the bytes,
    take every complete frame.  Delivery is exact in both framed modes. *)

From S2P Require Import Prelude ProxyV2 Ws WsProps WsRoundtrip WsSink WsUpgrade ConnIo ConnIoProps.

#[local] Opaque AUTHD_FRAME_MAX AUTHD_IN_BUF_BYTES AUTHD_OUT_BUF_BYTES.

(** ** The frames of a stream *)

(** The complete frames at the front, what follows them, and whether that starts with an inadmissible length. *)
Fixpoint parse_from (fuel : nat) (d : list byte) : list (list byte) * list byte * bool :=
  match fuel with
  | O => ([], d, false)
  | S fuel =>
    if blen d <? AUTHD_FRAME_HEADER then ([], d, false) else
    if head_bad d then ([], d, true) else
    if blen d <? AUTHD_FRAME_HEADER + announced d then ([], d, false) else
    let '(fs, rest, bad) := parse_from fuel (zdrop (AUTHD_FRAME_HEADER + announced d) d) in
    (peek AUTHD_FRAME_HEADER (announced d) d :: fs, rest, bad)
  end.
Definition parse (d : list byte) : list (list byte) * list byte * bool := parse_from (S (length d)) d.

Lemma parse_fuel f1 f2 d : (length d < f1)%nat -> (length d < f2)%nat -> parse_from f1 d = parse_from f2 d.
Proof.
  revert f2 d. induction f1 as [|f1 IH]; intros f2 d H1 H2; [lia|]. destruct f2 as [|f2]; [lia|]. cbn [parse_from].
  destruct (_ <? AUTHD_FRAME_HEADER) eqn:Hh; [done|]. destruct (head_bad d); [done|].
  destruct (blen d <? AUTHD_FRAME_HEADER + announced d); [done|].
  pose proof (announced_nonneg d). apply Z.ltb_ge in Hh. unfold AUTHD_FRAME_HEADER in *.
  rewrite (IH f2); [done|rewrite length_drop; lia|rewrite length_drop; lia].
Qed.

Lemma parse_eq d :
  parse d =
  if blen d <? AUTHD_FRAME_HEADER then ([], d, false) else
  if head_bad d then ([], d, true) else
  if blen d <? AUTHD_FRAME_HEADER + announced d then ([], d, false) else
  let '(fs, rest, bad) := parse (zdrop (AUTHD_FRAME_HEADER + announced d) d) in
  (peek AUTHD_FRAME_HEADER (announced d) d :: fs, rest, bad).
Proof.
  unfold parse at 1. cbn [parse_from]. destruct (_ <? AUTHD_FRAME_HEADER) eqn:Hh; [done|]. destruct (head_bad d); [done|].
  destruct (blen d <? AUTHD_FRAME_HEADER + announced d); [done|].
  pose proof (announced_nonneg d). apply Z.ltb_ge in Hh. unfold AUTHD_FRAME_HEADER in *. unfold parse.
  rewrite (parse_fuel (length d) (S (length (zdrop (4 + announced d) d)))) by (rewrite length_drop; lia). done.
Qed.

Lemma parse_ind (P : list byte -> Prop) :
  (forall d, (AUTHD_FRAME_HEADER <= blen d -> P (zdrop (AUTHD_FRAME_HEADER + announced d) d)) -> P d) -> forall d, P d.
Proof.
  intros H d. remember (length d) as n eqn:Hn. revert d Hn. induction n as [n IH] using lt_wf_ind. intros d ->. apply H. intros Hh.
  pose proof (announced_nonneg d). unfold AUTHD_FRAME_HEADER in *. eapply IH; [|done]. rewrite length_drop. lia.
Qed.

Definition incomplete (d : list byte) : Prop := blen d < AUTHD_FRAME_HEADER \/ legal (announced d) /\ blen d < AUTHD_FRAME_HEADER + announced d.

Lemma incomplete_room d : incomplete d -> blen d < AUTHD_IN_BUF_BYTES.
Proof. unfold incomplete, legal, AUTHD_FRAME_HEADER. rewrite frame_max, in_buf. lia. Qed.

Lemma head_bad_false d : AUTHD_FRAME_HEADER <= blen d -> head_bad d = false -> legal (announced d).
Proof.
  intros Hd H. unfold head_bad in H. rewrite (proj2 (Z.leb_le _ _)) in H by done. apply orb_false_iff in H as [?%Z.eqb_neq ?%Z.ltb_ge].
  pose proof (announced_nonneg d). unfold legal. lia.
Qed.

(** The rest of a stream in order is an incomplete frame, so there is room for more. *)
Lemma parse_rest d fs rest bad :
  parse d = (fs, rest, bad) -> if bad then head_bad rest = true else head_bad rest = false /\ incomplete rest.
Proof.
  revert fs rest bad. induction d as [d IH] using parse_ind. intros fs rest bad. rewrite parse_eq. unfold incomplete.
  destruct (_ <? AUTHD_FRAME_HEADER) eqn:Hh; [apply Z.ltb_lt in Hh|apply Z.ltb_ge in Hh].
  { intros [= <- <- <-]. split; [|by left]. unfold head_bad. by rewrite (proj2 (Z.leb_gt _ _)). }
  destruct (head_bad d) eqn:Hb; [by intros [= <- <- <-]|]. destruct (blen d <? AUTHD_FRAME_HEADER + announced d) eqn:Hl; [apply Z.ltb_lt in Hl|].
  { intros [= <- <- <-]. split; [done|]. right. by split; [apply head_bad_false|]. }
  destruct (parse (zdrop _ d)) as [[fs' rest'] bad'] eqn:Hp. intros [= <- <- <-]. exact (IH Hh fs' rest' bad' eq_refl).
Qed.

Lemma parse_bad d : head_bad d = true -> parse d = ([], d, true).
Proof.
  intros H. rewrite parse_eq, H. unfold head_bad in H. apply andb_true_iff in H as [H%Z.leb_le _]. by rewrite (proj2 (Z.ltb_ge _ _)).
Qed.

Lemma parse_incomplete d : head_bad d = false -> incomplete d -> parse d = ([], d, false).
Proof.
  intros H Hi. rewrite parse_eq, H. destruct (Z.ltb_spec (blen d) AUTHD_FRAME_HEADER) as [|Hh]; [done|].
  destruct Hi as [?|[_ Hi]]; [lia|]. by rewrite (proj2 (Z.ltb_lt _ _)).
Qed.

(** Parsing may stop anywhere and resume with more bytes. *)
Lemma parse_app a b :
  parse (a ++ b) = let '(fs, rest, bad) := parse a in
    if bad then (fs, rest ++ b, true) else let '(fs2, rest2, bad2) := parse (rest ++ b) in (fs ++ fs2, rest2, bad2).
Proof.
  induction a as [a IH] using parse_ind. rewrite (parse_eq a). destruct (_ <? AUTHD_FRAME_HEADER) eqn:Hh; [by destruct (parse (a ++ b)) as [[? ?] ?]|].
  apply Z.ltb_ge in Hh. specialize (IH Hh). pose proof Hh as H4. unfold AUTHD_FRAME_HEADER in H4. pose proof (announced_app a b H4) as Ha.
  assert (Hb : head_bad (a ++ b) = head_bad a).
  { unfold head_bad. rewrite Ha, length_app. by rewrite !(proj2 (Z.leb_le _ _)) by lia. }
  destruct (head_bad a) eqn:Hbad; [by rewrite (parse_bad (a ++ b))|].
  destruct (blen a <? _) eqn:Hl; [by destruct (parse (a ++ b)) as [[? ?] ?]|]. apply Z.ltb_ge in Hl. pose proof (announced_nonneg a).
  rewrite (parse_eq (a ++ b)), Hb, Ha. assert (Hab : blen a <= blen (a ++ b)) by (rewrite length_app; lia).
  rewrite (proj2 (Z.ltb_ge _ AUTHD_FRAME_HEADER)), (proj2 (Z.ltb_ge _ (_ + announced a))) by lia. rewrite drop_app_le, IH by lia.
  assert (peek AUTHD_FRAME_HEADER (announced a) (a ++ b) = peek AUTHD_FRAME_HEADER (announced a) a) as ->.
  { unfold AUTHD_FRAME_HEADER in *. unfold peek. rewrite drop_app_le, take_app_le by (rewrite ?length_drop; lia). done. }
  destruct (parse (zdrop _ a)) as [[fs rest] []]; [done|]. by destruct (parse (rest ++ b)) as [[fs2 rest2] bad2].
Qed.

(** ** Taking the frames *)

(** Every complete frame, as the event loop takes them. *)
Fixpoint serve (fuel : nat) (c : conn_io_t) : list (list byte) * conn_io_t :=
  match fuel with
  | O => ([], c)
  | S fuel =>
    match conn_io_next_frame (Some c) with
    | (Some p, Some c1) => let '(ps, c2) := serve fuel (default c1 (conn_io_consume_frame (Some c1))) in (p :: ps, c2)
    | (_, c1) => ([], default c c1)
    end
  end.

(** Only the input side changed. *)
Definition same_else (c c' : conn_io_t) : Prop :=
  c_mode c' = c_mode c /\ c_proxy_on c' = c_proxy_on c /\ c_proxy c' = c_proxy c /\ c_ws c' = c_ws c /\
  c_out c' = c_out c /\ c_out_len c' = c_out_len c /\ c_out_sent c' = c_out_sent c.

Lemma same_else_trans a b c : same_else a b -> same_else b c -> same_else a c.
Proof. unfold same_else. intuition congruence. Qed.

Lemma same_else_reading a b : same_else a b -> reading a -> reading b.
Proof. intros (H & _ & _ & H' & _). unfold reading, is_ws. by rewrite H, H'. Qed.

Lemma next_frame_failed c : c_failed c = true -> conn_io_next_frame (Some c) = (None, Some c).
Proof. intros H. cbn. by rewrite H. Qed.

Lemma next_frame_spec c d q :
  cio c d q -> reading c -> c_failed c = false ->
  conn_io_next_frame (Some c) =
    if head_bad d then (None, Some (c_fail c)) else
    (if (0 <? head_len d) && (AUTHD_FRAME_HEADER + head_len d <=? blen d) then Some (peek AUTHD_FRAME_HEADER (head_len d) d) else None,
     Some (c_set_frame c (head_len d))).
Proof.
  intros Hc Hr Hf. unfold conn_io_next_frame. rewrite Hf, (note_header_reading _ _ _ Hc Hr). destruct (head_bad d) eqn:Hb; [done|].
  rewrite bool_decide_true by done. cbn [negb c_frame_len c_set_frame c_in_len c_in]. rewrite (cio_in_len _ _ _ Hc).
  assert (0 <= head_len d) by (destruct (head_good d Hb) as [->|[_ ->]]; [lia|apply announced_nonneg]).
  destruct (Z.eqb_spec (head_len d) 0) as [->|Hz]; [done|]. rewrite (proj2 (Z.ltb_lt 0 _)) by lia. cbn [andb].
  destruct (Z.ltb_spec (blen d) (AUTHD_FRAME_HEADER + head_len d)) as [Hl|Hl].
  - by rewrite (proj2 (Z.leb_gt _ _)).
  - rewrite (proj2 (Z.leb_le _ _)) by done. do 2 f_equal. eapply clean_peek; [apply (cio_in _ _ _ Hc)|done|done|done].
Qed.

(** Dropping the frame just taken. *)
Lemma consume_frame_spec c d q :
  cio c d q -> reading c -> c_failed c = false -> head_bad d = false -> 0 < head_len d -> AUTHD_FRAME_HEADER + head_len d <= blen d ->
  let d' := zdrop (AUTHD_FRAME_HEADER + head_len d) d in
  exists c', conn_io_consume_frame (Some (c_set_frame c (head_len d))) = Some c' /\ cio c' d' q /\ c_failed c' = head_bad d' /\ same_else c c'.
Proof.
  intros Hc Hr Hf Hb Hz Hl d'. unfold conn_io_consume_frame. cbn [c_frame_len c_set_frame c_in_len].
  rewrite (proj2 (Z.eqb_neq _ 0)), (cio_in_len _ _ _ Hc), (proj2 (Z.ltb_ge _ _)) by lia. eexists. split; [done|].
  set (c1 := slide (c_set_frame c 0) (AUTHD_FRAME_HEADER + head_len d)).
  change (c_set_frame (slide (c_set_frame c (head_len d)) (AUTHD_FRAME_HEADER + head_len d)) 0) with c1.
  assert (Hc1 : cio c1 d' q).
  { apply cio_slide; [apply cio_set_frame; auto; lia| |by right]. unfold AUTHD_FRAME_HEADER in *. lia. }
  assert (Hr1 : reading c1) by done. split; [by apply cio_note_header|]. rewrite (note_header_reading _ _ _ Hc1 Hr1). destruct (head_bad d'); done.
Qed.

Lemma serve_spec fuel c d q fs rest bad :
  cio c d q -> reading c -> c_failed c = false -> (length d < fuel)%nat -> parse d = (fs, rest, bad) ->
  exists c', serve fuel c = (fs, c') /\ cio c' rest q /\ c_failed c' = bad /\ same_else c c'.
Proof.
  revert c d fs rest bad. induction fuel as [|fuel IH]; intros c d fs rest bad Hc Hr Hf Hfuel Hp; [lia|]. cbn [serve].
  rewrite (next_frame_spec _ _ _ Hc Hr Hf). rewrite parse_eq in Hp. destruct (head_bad d) eqn:Hb.
  { pose proof (parse_bad d Hb) as Hp'. rewrite parse_eq, Hb in Hp'. rewrite Hp' in Hp. injection Hp as <- <- <-. exists (c_fail c).
    split; [done|]. split; [by apply cio_fail|done]. }
  assert (Hcf : cio (c_set_frame c (head_len d)) d q) by (pose proof (cio_note_header _ _ _ Hc) as H; rewrite (note_header_reading _ _ _ Hc Hr), Hb in H; done).
  destruct (blen d <? AUTHD_FRAME_HEADER) eqn:Hh.
  { injection Hp as <- <- <-. unfold head_len in *. rewrite Hh in *. exists (c_set_frame c 0). done. }
  assert (Hhl : head_len d = announced d) by (unfold head_len; by rewrite Hh). apply Z.ltb_ge in Hh.
  pose proof (head_bad_false d Hh Hb) as [Ha _]. rewrite Hhl in *. rewrite (proj2 (Z.ltb_lt 0 _)) by done. cbn [andb].
  destruct (blen d <? AUTHD_FRAME_HEADER + announced d) eqn:Hl.
  { injection Hp as <- <- <-. apply Z.ltb_lt in Hl. rewrite (proj2 (Z.leb_gt _ _)) by done. exists (c_set_frame c (announced d)). done. }
  apply Z.ltb_ge in Hl. rewrite (proj2 (Z.leb_le _ _)) by done. destruct (parse (zdrop _ d)) as [[fs' rest'] bad'] eqn:Hp'. injection Hp as <- <- <-.
  destruct (consume_frame_spec c d q) as (c2 & Hc2 & Hcio & Hf2 & Hsame); rewrite ?Hhl; try done. rewrite Hhl in Hc2. rewrite Hc2. cbn [default from_option id].
  rewrite Hhl in Hcio, Hf2. destruct (head_bad (zdrop _ d)) eqn:Hb2.
  - pose proof (parse_bad _ Hb2) as Hp2. rewrite Hp2 in Hp'. injection Hp' as <- <- <-. exists c2. split; [|done].
    destruct fuel as [|fuel]; cbn [serve]; [done|]. by rewrite next_frame_failed.
  - destruct (IH c2 (zdrop (AUTHD_FRAME_HEADER + announced d) d) fs' rest' bad') as (c3 & -> & ? & ? & ?); try done.
    + by eapply same_else_reading.
    + rewrite length_drop. unfold AUTHD_FRAME_HEADER in *. lia.
    + exists c3. split_and!; try done. by eapply same_else_trans.
Qed.

(** ** Handing over what was read *)

(** The bytes of the frame stream that the bytes [s] carry. *)
Definition taken (c : conn_io_t) (s : list byte) : option (ws_t * list byte) :=
  if is_ws c then payload (c_ws c) s else Some (c_ws c, s).

Lemma taken_app c a b :
  taken c (a ++ b) = taken c a ≫= fun '(w, x) => taken (c_set_ws c w) b ≫= fun '(w2, y) => Some (w2, x ++ y).
Proof. unfold taken. change (is_ws (c_set_ws c _)) with (is_ws c). destruct (is_ws c); [apply payload_app|done]. Qed.

Lemma taken_length c s w x : taken c s = Some (w, x) -> blen x <= blen s.
Proof. unfold taken. destruct (is_ws c); [apply payload_length|by intros [= _ <-]]. Qed.

Lemma taken_same c c' s : c_mode c' = c_mode c -> c_ws c' = c_ws c -> taken c' s = taken c s.
Proof. intros H1 H2. unfold taken, is_ws. by rewrite H1, H2. Qed.

(** No preamble is awaited. *)
Definition settled_proxy (c : conn_io_t) : bool := negb (is_ws c && c_proxy_on c && negb (pv_done (c_proxy c))).

Section pump.
Context {B : Base64} `{!Base64Law B}.

Lemma push_spec c d q s :
  cio c d q -> reading c -> c_failed c = false -> settled_proxy c = true -> blen d + blen s <= AUTHD_IN_BUF_BYTES ->
  match taken c s with
  | Some (w, x) =>
    conn_io_push (Some c) (Some s) (blen s) = (let '(st, c') := note_header (fill c w (d ++ x)) in (st, Some c')) /\
    cio (fill c w (d ++ x)) (d ++ x) q /\ reading (fill c w (d ++ x))
  | None => (conn_io_push (Some c) (Some s) (blen s)).1 = CONN_IO_ERR_PROTOCOL
  end.
Proof.
  intros Hc Hr Hf Hp Hroom. unfold conn_io_push, settled_proxy, taken in *. rewrite (bool_decide_false (Some s = None)) by done.
  cbn [andb default from_option id]. rewrite take_all_z, Hf by done. destruct (is_ws c) eqn:Hm; cbn [andb] in Hp.
  - apply negb_true_iff in Hp. rewrite Hp. unfold push_ws. destruct Hr as [Hnl Hr]. specialize (Hr Hm). rewrite bool_decide_false by done. cbn [negb].
    pose proof (ws_feed_spec c d q s Hc Hf Hm Hr) as H. destruct (payload (c_ws c) s) as [[w x]|] eqn:Hx.
    + pose proof (payload_length _ _ _ _ Hx). rewrite (proj2 (Z.ltb_ge _ _)) in H by lia. destruct H as (-> & ? & ?). done.
    + destruct (ws_feed c s) as [st c']. by destruct H as [? _].
  - assert (Hfill : c_set_in c (poke (c_in_len c) s (c_in c)) (c_in_len c + blen s) = fill c (c_ws c) (d ++ s)).
    { unfold fill. destruct (cio_append c d q s Hc Hroom) as [[_ Hi] Hl _ _ _ _ _ _]. cbn [c_in c_in_len c_set_in] in Hi, Hl. rewrite Hi, Hl. by destruct c. }
    destruct Hr as [Hnl Hr]. rewrite (bool_decide_false (c_mode c = _)) by done. split; [|split; [|split; [done|exact Hr]]].
    + pose proof (clean_length _ _ _ (cio_in _ _ _ Hc)) as Hlen. destruct (Z.eqb_spec (blen s) 0) as [Hz|Hz].
      * destruct s; [|done]. rewrite app_nil_r. assert (fill c (c_ws c) d = c) as ->; [|done].
        destruct (cio_inbuf _ _ _ Hc) as [Hi _]. unfold fill. rewrite <-Hi. by destruct c.
      * rewrite Hlen, (cio_in_len _ _ _ Hc), (proj2 (Z.ltb_ge _ _)) by lia. rewrite <-(cio_in_len _ _ _ Hc), Hfill.
        rewrite (bool_decide_false (c_mode (fill _ _ _) = _)) by done. done.
    + eapply cio_fill; [done|done|rewrite length_app; lia|]. apply (cio_ws _ _ _ Hc).
Qed.

(** The event loop's reads: at least one byte and at most [k], never more than there is room for. *)
Definition read_size (c : conn_io_t) (s : list byte) (k : Z) : Z := Z.min (Z.max 1 k) (Z.min (conn_io_in_room (Some c)) (blen s)).

(** After a read: stop on an error, else take the frames and go on with [next]. *)
Definition after_push (next : conn_io_t -> list byte -> conn_io_status_t * list (list byte) * conn_io_t * list byte)
    (r : conn_io_status_t * option conn_io_t) (c : conn_io_t) (s : list byte) : conn_io_status_t * list (list byte) * conn_io_t * list byte :=
  match r with
  | (CONN_IO_OK, Some c1) =>
    let '(fs, c2) := serve (S (Z.to_nat (c_in_len c1))) c1 in let '(st, fs', c3, s3) := next c2 s in (st, fs ++ fs', c3, s3)
  | (st, c1) => (st, [], default c c1, s)
  end.

(** One read per entry of [sizes]. *)
Fixpoint pump (sizes : list Z) (c : conn_io_t) (s : list byte) : conn_io_status_t * list (list byte) * conn_io_t * list byte :=
  match sizes with
  | [] => (CONN_IO_OK, [], c, s)
  | k :: sizes =>
    let n := read_size c s k in after_push (pump sizes) (conn_io_push (Some c) (Some (ztake n s)) n) c (zdrop n s)
  end.

Lemma room_eq c d q : cio c d q -> conn_io_in_room (Some c) = AUTHD_IN_BUF_BYTES - blen d.
Proof.
  intros Hc. unfold conn_io_in_room. rewrite (clean_length _ _ _ (cio_in _ _ _ Hc)), (cio_in_len _ _ _ Hc).
  destruct (cio_inbuf _ _ _ Hc) as [_ ?]. destruct (Z.leb_spec AUTHD_IN_BUF_BYTES (blen d)); lia.
Qed.

Lemma read_size_bounds c d q s k :
  cio c d q -> blen d < AUTHD_IN_BUF_BYTES ->
  0 <= read_size c s k /\ read_size c s k <= blen s /\ blen d + read_size c s k <= AUTHD_IN_BUF_BYTES /\ (s <> [] -> 0 < read_size c s k).
Proof.
  intros Hc Hi. unfold read_size. rewrite (room_eq _ _ _ Hc). split_and!; try lia. intros Hs.
  assert (0 < blen s) by (destruct s; [done|cbn; lia]). lia.
Qed.

Lemma pump_failed sizes c s : c_failed c = true -> exists st a s', pump sizes c s = (st, [], c, s') /\ s = a ++ s' /\ st <> CONN_IO_ERR_OVERFLOW.
Proof.
  intros Hf. destruct sizes as [|k sizes]; [by exists CONN_IO_OK, [], s|]. cbn [pump]. unfold conn_io_push.
  rewrite (bool_decide_false (Some _ = None)) by done. cbn [andb]. rewrite Hf. eexists _, _, _. split; [done|].
  split; [symmetry; apply (take_drop (Z.to_nat (read_size c s k)))|done].
Qed.

(** The result [r] of reading from [s], [d] being buffered already: the frames taken are those of the bytes read, the
    connection has failed exactly if these contain an inadmissible length, and [fuel] reads are enough for all of [s]. *)
Definition delivered (q d : list byte) (fuel : nat) (c : conn_io_t) (s : list byte)
    (r : conn_io_status_t * list (list byte) * conn_io_t * list byte) : Prop :=
  let '(st, fs, c', s') := r in
  exists a w x rest bad, s = a ++ s' /\ taken c a = Some (w, x) /\ parse (d ++ x) = (fs, rest, bad) /\ c_failed c' = bad /\
    st <> CONN_IO_ERR_OVERFLOW /\
    (bad = false -> st = CONN_IO_OK /\ cio c' rest q /\ c_ws c' = w /\ c_mode c' = c_mode c /\ c_proxy c' = c_proxy c /\ (blen s <= Z.of_nat fuel -> s' = [])).

(** An open connection between two reads. *)
Record ready (c : conn_io_t) (d q : list byte) : Prop := {
  rd_cio : cio c d q; rd_reading : reading c; rd_alive : c_failed c = false; rd_proxy : settled_proxy c = true }.

Lemma ready_same c c' d d' q : ready c d q -> same_else c c' -> cio c' d' q -> c_failed c' = false -> ready c' d' q.
Proof.
  intros [] Hs ? ?. split; [done|by eapply same_else_reading|done|]. unfold settled_proxy, is_ws in *. by destruct Hs as (-> & -> & -> & _).
Qed.

Lemma after_push_spec sizes c c1 d q s :
  (forall c d s, ready c d q -> head_bad d = false -> incomplete d -> taken c s <> None -> delivered q d (length sizes) c s (pump sizes c s)) ->
  ready c1 d q -> taken c1 s <> None ->
  delivered q d (length sizes) c1 s (after_push (pump sizes) (let '(st, c') := note_header c1 in (st, Some c')) c s).
Proof.
  intros Hnext Hr1 Hs. pose proof Hr1 as [Hc1 Hr Hf Hp]. pose proof (cio_note_header _ _ _ Hc1) as Hcn.
  assert (Htake0 : taken c1 [] = Some (c_ws c1, [])) by (unfold taken; by destruct (is_ws c1)).
  rewrite (note_header_reading _ _ _ Hc1 Hr) in Hcn |- *. destruct (head_bad d) eqn:Hb.
  { exists [], (c_ws c1), [], d, true. rewrite app_nil_r. split_and!; try done. by apply parse_bad. }
  cbn [snd] in Hcn. destruct (parse d) as [[fs1 rest1] bad1] eqn:Hp1. unfold after_push.
  destruct (serve_spec (S (Z.to_nat (c_in_len c1))) _ _ _ _ _ _ Hcn Hr Hf ltac:(rewrite (cio_in_len _ _ _ Hc1); lia) Hp1) as (c2 & Hserve & Hc2 & Hf2 & Hsame).
  change (c_in_len (c_set_frame c1 _)) with (c_in_len c1). rewrite Hserve. pose proof (parse_rest _ _ _ _ Hp1) as Hrest.
  assert (Hw2 : c_ws c2 = c_ws c1) by (by destruct Hsame as (_ & _ & _ & -> & _)).
  assert (Hpr2 : c_proxy c2 = c_proxy c1) by (by destruct Hsame as (_ & _ & -> & _)).
  assert (Hm2 : c_mode c2 = c_mode c1) by (by destruct Hsame as (-> & _)). assert (Ht2 : forall b, taken c2 b = taken c1 b) by (intros b; by apply taken_same).
  destruct bad1.
  - destruct (pump_failed sizes c2 s Hf2) as (st & a & s' & -> & Hs1 & Hst). rewrite Hs1, taken_app in Hs.
    destruct (taken c1 a) as [[w y]|] eqn:Hy; [|done]. exists a, w, y, (rest1 ++ y), true. split_and!; try done.
    by rewrite parse_app, Hp1, app_nil_r.
  - destruct Hrest as [Hb2 Hi2]. specialize (Hnext c2 rest1 s (ready_same _ _ _ _ _ Hr1 Hsame Hc2 Hf2) Hb2 Hi2).
    destruct (pump sizes c2 s) as [[[st fs2] c3] s3]. destruct Hnext as (a & w & y & rest & bad & ? & Hy & Hpy & ? & ? & Hgood); [by rewrite Ht2|].
    exists a, w, y, rest, bad. split_and!; try done.
    + by rewrite <-Ht2.
    + by rewrite parse_app, Hp1, Hpy.
    + by rewrite <-Hm2, <-Hpr2.
Qed.

(** One read earlier. *)
Lemma delivered_before q d fuel fuel' c c1 chunk s w1 x1 r :
  taken c chunk = Some (w1, x1) -> c_mode c1 = c_mode c -> c_proxy c1 = c_proxy c -> c_ws c1 = w1 ->
  (blen (chunk ++ s) <= Z.of_nat fuel' -> blen s <= Z.of_nat fuel) ->
  delivered q (d ++ x1) fuel c1 s r -> delivered q d fuel' c (chunk ++ s) r.
Proof.
  intros Ht Hm Hpr Hw Hne. destruct r as [[[st fs] c'] s']. intros (a & w & y & rest & bad & -> & Hy & Hp & Hf & Hst & Hgood).
  exists (chunk ++ a), w, (x1 ++ y), rest, bad. split_and!; try done.
  - by rewrite app_assoc.
  - rewrite taken_app, Ht. cbn [mbind option_bind]. by rewrite (taken_same c1 (c_set_ws c w1)), Hy by done.
  - by rewrite app_assoc.
  - intros Hbad. destruct (Hgood Hbad) as (? & ? & ? & ? & ? & Hend). split_and!; try done; [congruence..|]. intros Hlen. apply Hend, Hne, Hlen.
Qed.

(** The frames taken are those of the bytes read, whatever the sizes of the reads. *)
Lemma pump_spec sizes c d q s :
  ready c d q -> head_bad d = false -> incomplete d -> taken c s <> None -> delivered q d (length sizes) c s (pump sizes c s).
Proof.
  revert c d s. induction sizes as [|k sizes IH]; intros c d s Hr Hb Hi Hs; pose proof Hr as [Hc Hrd Hf Hp].
  { exists [], (c_ws c), [], d, false. split_and!; try done.
    - unfold taken. by destruct (is_ws c).
    - rewrite app_nil_r. by apply parse_incomplete.
    - intros _. split_and!; try done. intros H. destruct s; [done|cbn in H; lia]. }
  destruct (read_size_bounds c d q s k Hc (incomplete_room _ Hi)) as (Hn0 & Hns & Hnr & Hn1). cbn [pump length]. set (n := read_size c s k) in *. clearbody n.
  assert (Hchunk : blen (ztake n s) = n) by (rewrite length_take; lia). pose proof (take_drop (Z.to_nat n) s) as Hcut.
  set (chunk := ztake n s) in *. set (s1 := zdrop n s) in *. rewrite <-Hcut. rewrite <-Hcut, taken_app in Hs.
  destruct (taken c chunk) as [[w1 x1]|] eqn:Ht; [|done]. cbn [mbind option_bind] in Hs.
  pose proof (push_spec c d q chunk Hc Hrd Hf Hp ltac:(lia)) as Hpush. rewrite Ht, Hchunk in Hpush. destruct Hpush as (-> & Hc1 & Hr1).
  eapply (delivered_before _ _ (length sizes) _ _ (fill c w1 (d ++ x1))); [done|done|done|done| |apply after_push_spec; [done|by split|]].
  - rewrite Hcut. subst s1. rewrite length_drop. destruct s; [cbn; lia|]. specialize (Hn1 ltac:(done)). cbn [length]. lia.
  - change (taken (fill c w1 (d ++ x1)) s1) with (taken (c_set_ws c w1) s1). intros H. by rewrite H in Hs.
Qed.
End pump.

(** ** Writing *)

(** One write per entry of [sizes]: at least one byte, at most the entry. *)
Fixpoint drain (sizes : list Z) (c : conn_io_t) : list byte * conn_io_t :=
  match sizes with
  | [] => ([], c)
  | k :: sizes =>
    let n := Z.min (Z.max 1 k) (conn_io_pending (Some c)) in
    let '(bs, c') := drain sizes (default c (conn_io_sent (Some c) n)) in
    (ztake n (default [] (conn_io_pending_ptr (Some c))) ++ bs, c')
  end.

Lemma pending_waiting c d q : cio c d q -> c_failed c = false -> 0 <= conn_io_pending (Some c) <= blen (waiting c) /\ (waiting c <> [] -> 0 < conn_io_pending (Some c)).
Proof.
  intros Hc Hf. rewrite (pending_eq _ _ _ Hc Hf). unfold waiting. rewrite length_app. destruct (ws_reply_pending c) eqn:Hr.
  - split; [lia|]. intros _. unfold reply_rest. rewrite Hr. destruct (cio_ws _ _ _ Hc Hf) as [([] & _) _].
    apply andb_true_iff in Hr as [_ Hr%Z.ltb_lt]. rewrite length_peek; lia.
  - unfold reply_rest. rewrite Hr. cbn [app length]. split; [lia|]. intros H. destruct (out_rest c); [done|cbn; lia].
Qed.

Lemma drain_spec sizes c d q :
  cio c d q -> c_failed c = false ->
  let '(bs, c') := drain sizes c in
  bs ++ waiting c' = waiting c /\ c_failed c' = false /\ c_mode c' = c_mode c /\ (exists q', cio c' d q') /\
  (blen (waiting c) <= Z.of_nat (length sizes) -> waiting c' = []).
Proof.
  revert c q. induction sizes as [|k sizes IH]; intros c q Hc Hf.
  { split_and!; try done; [eauto|]. intros H. destruct (waiting c); [done|cbn in H; lia]. }
  cbn [drain]. destruct (pending_waiting _ _ _ Hc Hf) as [Hp0 Hp1]. set (n := Z.min _ _).
  destruct (sent_keeps c d q n Hc ltac:(lia)) as (c1 & q1 & Hs & Hc1). destruct (sent_waiting c d q n c1 Hc Hf ltac:(lia) Hs) as [Hw Hf1].
  assert (Hm1 : c_mode c1 = c_mode c).
  { unfold conn_io_sent in Hs. destruct (ws_reply_pending c); [by injection Hs as <-|]. injection Hs as <-. by case_match. }
  rewrite Hs. cbn [default from_option id]. specialize (IH c1 q1 Hc1 Hf1). destruct (drain sizes c1) as [bs c'].
  destruct IH as (Hb & ? & ? & ? & Hend). split_and!; try done; [by rewrite <-app_assoc, Hb|congruence|].
  intros Hlen. apply Hend. cbn [length] in Hlen. apply (f_equal (length (A:=byte))) in Hw as Hl. rewrite length_app in Hl.
  destruct (decide (waiting c = [])) as [He|He]; [rewrite He in Hl; cbn in Hl; lia|]. specialize (Hp1 He).
  enough (blen (ztake n (default [] (conn_io_pending_ptr (Some c)))) = n) by lia. rewrite length_take.
  enough (n <= blen (default [] (conn_io_pending_ptr (Some c)))) by lia. subst n. clear -Hc Hf. 
  rewrite (pending_eq _ _ _ Hc Hf), (out_rest_eq _ _ _ Hc). unfold conn_io_pending_ptr, reply_rest. destruct (ws_reply_pending c) eqn:Hr; cbn [default from_option id].
  - unfold peek. rewrite length_take. lia.
  - destruct (cio_out _ _ _ Hc) as [? ->]. rewrite !length_drop, length_app. lia.
Qed.

(** A payload queued on an idle connection is written as its wire form, and nothing of it stays behind. *)
Lemma send_one sizes c d p :
  cio c d [] -> c_failed c = false -> waiting c = [] -> 0 < blen p <= AUTHD_FRAME_MAX -> blen (wire (c_mode c) p) <= Z.of_nat (length sizes) ->
  exists c1 c2, conn_io_queue (Some c) (Some p) (blen p) = (CONN_IO_OK, Some c1) /\ drain sizes c1 = (wire (c_mode c) p, c2) /\
    cio c2 d [] /\ c_failed c2 = false /\ waiting c2 = [] /\ c_mode c2 = c_mode c.
Proof.
  intros Hc Hf Hw Hp Hlen. rewrite (queue_spec _ _ _ _ Hc). rewrite (proj2 (Z.eqb_neq _ _)), (proj2 (Z.ltb_ge _ _)) by lia. cbn [orb].
  rewrite bool_decide_true by done. pose proof (cio_queued c d [] p Hc Hp) as Hc1. set (c1 := queued_out _ _) in *.
  assert (Hw1 : waiting c1 = wire (c_mode c) p).
  { unfold waiting. rewrite (out_rest_eq _ _ _ Hc1). apply app_eq_nil in Hw as [Hw _]. change (reply_rest c1) with (reply_rest c). by rewrite Hw. }
  pose proof (drain_spec sizes c1 d _ Hc1 Hf) as Hd. destruct (drain sizes c1) as [bs c2] eqn:Hdr. rewrite Hw1 in Hd.
  destruct Hd as (Hb & Hf2 & Hm2 & [q2 Hc2] & Hend). specialize (Hend Hlen). rewrite Hend, app_nil_r in Hb. exists c1, c2. split; [done|].
  split; [by rewrite Hdr, Hb|]. split_and!; try done.
  apply app_eq_nil in Hend as [_ Hout]. rewrite (out_rest_eq _ _ _ Hc2) in Hout. apply (f_equal (length (A:=byte))) in Hout. rewrite length_drop in Hout.
  destruct (cio_sent _ _ _ Hc2) as [[_ ->]|?]; [done|]. cbn in Hout. lia.
Qed.

(** ** Messages in, messages out *)

Lemma u8_land255 v : u8 (Z.land v 255) = u8 v.
Proof. unfold u8. change 255 with (Z.ones 8). rewrite Z.land_ones by lia. by rewrite Z.mod_mod by lia. Qed.

Lemma len32_enc n : len32 n = be_enc 4 n.
Proof. unfold len32. rewrite !u8_land255. cbn. by rewrite Z.shiftr_0_r. Qed.

Definition msg_ok (p : list byte) : Prop := 0 < blen p <= AUTHD_FRAME_MAX.

Lemma parse_wire p rest :
  msg_ok p -> parse (wire CONN_IO_MODE_FRAME p ++ rest) = let '(fs, r, bad) := parse rest in (p :: fs, r, bad).
Proof.
  intros [Hp Hm]. set (s := _ ++ rest). assert (Ha : announced s = blen p).
  { unfold announced, s. cbn [wire]. rewrite len32_enc, <-app_assoc, (take_app_be 4) by done. apply be_dec_enc_small. rewrite frame_max in Hm. lia. }
  assert (Hl : blen s = 4 + blen p + blen rest) by (unfold s; cbn [wire]; rewrite !length_app; cbn [length len32]; lia).
  rewrite parse_eq. unfold head_bad. rewrite Ha, Hl. unfold AUTHD_FRAME_HEADER. rewrite !(proj2 (Z.ltb_ge _ _)), (proj2 (Z.eqb_neq _ 0)), andb_false_r by lia.
  replace (zdrop (4 + blen p) s) with rest by (unfold s; rewrite zdrop_app_ge by (cbn [wire length len32 app]; lia);
    replace (4 + blen p - blen (wire CONN_IO_MODE_FRAME p)) with 0 by (cbn [wire length len32 app]; lia); done).
  replace (peek 4 (blen p) s) with p; [done|]. unfold s, peek. cbn [wire]. rewrite <-app_assoc.
  change (Z.to_nat 4) with (length (len32 (blen p))). by rewrite drop_app_length, Nat2Z.id, take_app_length.
Qed.

Definition wire_all (ps : list (list byte)) : list byte := concat (map (wire CONN_IO_MODE_FRAME) ps).

Lemma parse_wire_all ps rest : Forall msg_ok ps -> parse (wire_all ps ++ rest) = let '(fs, r, bad) := parse rest in (ps ++ fs, r, bad).
Proof.
  induction 1 as [|p ps Hp _ IH]; cbn [wire_all map concat app]; [by destruct (parse rest) as [[? ?] ?]|].
  rewrite <-app_assoc, parse_wire by done. fold (wire_all ps). rewrite IH. by destruct (parse rest) as [[? ?] ?].
Qed.

(** The messages of [msgs] queued and written one after the other, each with its own sizes of writes. *)
Fixpoint send_all (msgs : list (list byte * list Z)) (c : conn_io_t) : list byte * conn_io_t :=
  match msgs with
  | [] => ([], c)
  | (p, sizes) :: msgs =>
    match conn_io_queue (Some c) (Some p) (blen p) with
    | (CONN_IO_OK, Some c1) => let '(bs, c2) := drain sizes c1 in let '(bs', c3) := send_all msgs c2 in (bs ++ bs', c3)
    | _ => ([], c)
    end
  end.

(** Nothing to write. *)
Definition quiet (c : conn_io_t) (d : list byte) : Prop := cio c d [] /\ c_failed c = false /\ waiting c = [].

Lemma quiet_start c m proxy : quiet (conn_start c m proxy) [].
Proof.
  destruct (cio_start c m proxy) as (Hc & _ & Hf). split_and!; try done. unfold waiting. rewrite (out_rest_eq _ _ _ Hc). rewrite drop_nil, app_nil_r.
  unfold reply_rest, conn_start. cbn [conn_io_reset conn_io_set_mode]. destruct m; done.
Qed.

Lemma send_all_spec msgs c d :
  quiet c d -> Forall (fun '(p, sizes) => msg_ok p /\ blen (wire (c_mode c) p) <= Z.of_nat (length sizes)) msgs ->
  exists c', send_all msgs c = (concat (map (wire (c_mode c)) msgs.*1), c') /\ quiet c' d /\ c_mode c' = c_mode c.
Proof.
  intros Hc Hall. remember (c_mode c) as m eqn:Hm. revert c Hc Hm. induction Hall as [|[p sizes] msgs [Hp Hlen] _ IH]; intros c (Hc & Hf & Hw) ->; [by exists c|].
  cbn [send_all]. destruct (send_one sizes c d p) as (c1 & c2 & -> & -> & ? & ? & ? & Hm2); try done. destruct (IH c2) as (c3 & -> & ? & ?); [done|congruence|].
  exists c3. done.
Qed.

Section deliver.
Context {B : Base64} `{!Base64Law B}.

Lemma ready_frame c : ready (conn_start c CONN_IO_MODE_FRAME false) [] [].
Proof. destruct (cio_start c CONN_IO_MODE_FRAME false) as (Hc & Hm & Hf). split; try done. Qed.

(** All of the stream, when there are reads enough. *)
Definition read_all (q : list byte) (c : conn_io_t) (w : ws_t) (x : list byte) (r : conn_io_status_t * list (list byte) * conn_io_t * list byte) : Prop :=
  let '(st, fs, c', s') := r in
  exists rest, parse x = (fs, rest, c_failed c') /\ st <> CONN_IO_ERR_OVERFLOW /\
    (c_failed c' = false -> st = CONN_IO_OK /\ s' = [] /\ cio c' rest q /\ c_ws c' = w /\ c_mode c' = c_mode c /\ c_proxy c' = c_proxy c).

Lemma delivered_all q fuel c s w x r : delivered q [] fuel c s r -> taken c s = Some (w, x) -> blen s <= Z.of_nat fuel -> read_all q c w x r.
Proof.
  intros H Ht Hlen. destruct r as [[[st fs] c'] s']. destruct H as (a & w' & y & rest & bad & Hs & Hy & Hp & Hf & Hst & Hgood).
  cbn [app] in Hp. destruct bad.
  - rewrite Hs, taken_app, Hy in Ht. cbn [mbind option_bind] in Ht. destruct (taken _ s') as [[w2 z]|]; [|done]. injection Ht as <- <-.
    exists (rest ++ z). rewrite parse_app, Hp, Hf. done.
  - destruct (Hgood eq_refl) as (-> & Hc' & Hw & Hm & Hpr & Hend). specialize (Hend Hlen). subst s'. rewrite app_nil_r in Hs. subst a.
    rewrite Ht in Hy. injection Hy as <- <-. exists rest. by rewrite Hp, Hf.
Qed.

Lemma pump_all sizes c q s w x :
  ready c [] q -> taken c s = Some (w, x) -> blen s <= Z.of_nat (length sizes) -> read_all q c w x (pump sizes c s).
Proof.
  intros Hr Ht Hlen. eapply delivered_all; [|done|done]. apply pump_spec; [done|done|by left|by rewrite Ht].
Qed.

(** C39: whatever the sizes of the reads, as long as none exceeds the room announced, a framed connection delivers
    exactly the frames of the byte stream, in order: no read ever overflows the buffer, the connection fails exactly
    when the stream announces a length that is zero or too large, and otherwise all of the stream is read and the
    bytes of the incomplete frame at its end stay buffered. *)
Theorem conn_io_delivers c s sizes :
  blen s <= Z.of_nat (length sizes) ->
  exists st fs c' s' rest, pump sizes (conn_start c CONN_IO_MODE_FRAME false) s = (st, fs, c', s') /\ parse s = (fs, rest, c_failed c') /\
    st <> CONN_IO_ERR_OVERFLOW /\ (c_failed c' = false -> st = CONN_IO_OK /\ s' = [] /\ ztake (c_in_len c') (c_in c') = rest).
Proof.
  intros Hlen. pose proof (pump_all sizes _ _ s _ s (ready_frame c) eq_refl Hlen) as Hr. destruct (pump _ _ _) as [[[st fs] c'] s'].
  destruct Hr as (rest & Hp & Hst & Hgood). exists st, fs, c', s', rest. split_and!; try done. intros Hf. destruct (Hgood Hf) as (-> & -> & Hc & _). split_and!; try done.
  rewrite (cio_in_len _ _ _ Hc). apply (clean_take _ _ _ (cio_in _ _ _ Hc)).
Qed.

(** Messages queued on one framed connection and written in pieces of any size arrive on another, read in pieces
    of any size, as the same messages in the same order; afterwards neither connection holds a byte of them. *)
Theorem conn_io_transfer c1 c2 msgs sizes :
  Forall (fun '(p, writes) => msg_ok p /\ 4 + blen p <= Z.of_nat (length writes)) msgs ->
  blen (wire_all msgs.*1) <= Z.of_nat (length sizes) ->
  exists bytes s r, send_all msgs (conn_start c1 CONN_IO_MODE_FRAME false) = (bytes, s) /\
    pump sizes (conn_start c2 CONN_IO_MODE_FRAME false) bytes = (CONN_IO_OK, msgs.*1, r, []) /\ cio s [] [] /\ cio r [] [].
Proof.
  intros Hall Hlen. destruct (send_all_spec msgs (conn_start c1 CONN_IO_MODE_FRAME false) []) as (s & -> & [Hs _] & _); [apply quiet_start| |].
  { eapply Forall_impl; [exact Hall|]. intros [p w] [? ?]. split; [done|]. change (c_mode (conn_start _ _ _)) with CONN_IO_MODE_FRAME. cbn [wire length len32 app]. lia. }
  change (concat (map _ msgs.*1)) with (wire_all msgs.*1).
  pose proof (pump_all sizes _ _ (wire_all msgs.*1) _ _ (ready_frame c2) eq_refl Hlen) as Hr.
  destruct (pump _ _ _) as [[[st fs] r] s'] eqn:Hpump. destruct Hr as (rest & Hp & _ & Hgood).
  rewrite <-(app_nil_r (wire_all _)), parse_wire_all in Hp.
  - change (parse []) with (@nil (list byte), @nil byte, false) in Hp. cbv beta iota zeta in Hp. rewrite app_nil_r in Hp. injection Hp as <- <- Hf. destruct (Hgood (eq_sym Hf)) as (-> & -> & Hc & _). eauto 10.
  - clear -Hall. induction Hall as [|[p w] msgs [? _] _ IH]; by constructor.
Qed.
End deliver.
