(* ===== verification/ConnIoWs.v ===== *)
(** * A WebSocket connection is a framed connection

    From the first byte of the HTTP request on: however request and frames are
    cut into reads, the connection answers the request and delivers what a raw
    connection delivers for the payload. *)

From S2P Require Import Prelude ProxyV2 Ws WsProps WsRoundtrip WsSink WsUpgrade ConnIo ConnIoProps ConnIoRun.

#[local] Opaque AUTHD_FRAME_MAX AUTHD_IN_BUF_BYTES AUTHD_OUT_BUF_BYTES.

(** ** The end of the request *)

Lemma end_of_headers_range i p : 0 <= i -> end_of_headers_from i p = 0 \/ i + 4 <= end_of_headers_from i p <= i + blen p.
Proof.
  revert i. induction p as [|a p IH]; intros i Hi; [by left|]. cbn [end_of_headers_from]. destruct p as [|b [|c [|d p]]]; try by left.
  case_bool_decide; [right; cbn [length]; lia|]. specialize (IH (i + 1) ltac:(lia)). cbn [length] in *. lia.
Qed.

(** More bytes do not move it. *)
Lemma end_of_headers_app i a b : 0 <= i -> end_of_headers_from i a <> 0 -> end_of_headers_from i (a ++ b) = end_of_headers_from i a.
Proof.
  revert i. induction a as [|x a IH]; intros i Hi H; [done|]. destruct a as [|y [|z [|t a]]]; try done.
  change ((x :: y :: z :: t :: a) ++ b) with (x :: y :: z :: t :: (a ++ b)). cbn [end_of_headers_from] in H |- *.
  case_bool_decide; [done|]. apply (IH (i + 1)); [lia|exact H].
Qed.

(** A proper prefix of a request has no end yet. *)
Lemma end_of_headers_prefix req a b :
  end_of_headers req = blen req -> req = a ++ b -> b <> [] -> end_of_headers a = 0.
Proof.
  intros Hreq -> Hb. destruct (decide (end_of_headers a = 0)) as [|Hne]; [done|]. unfold end_of_headers in *.
  rewrite end_of_headers_app in Hreq by done. destruct (end_of_headers_range 0 a) as [?|Hr]; [done|done|]. rewrite length_app in Hreq.
  destruct b; [done|cbn [length] in Hreq; lia].
Qed.

(** ** While the request is read *)

Record upgrading (c : conn_io_t) (d q : list byte) : Prop := {
  up_cio : cio c d q; up_ws : is_ws c = true; up_stage : ws_stage (c_ws c) = WS_STAGE_UPGRADE; up_alive : c_failed c = false;
  up_proxy : settled_proxy c = true }.

Lemma serve_upgrading fuel c d q : upgrading c d q -> serve fuel c = ([], c).
Proof.
  intros []. destruct fuel as [|fuel]; [done|]. cbn [serve conn_io_next_frame]. unfold note_header.
  rewrite up_alive0, up_ws0, up_stage0, bool_decide_true by done. cbn [andb negb]. destruct (cio_ws _ _ _ up_cio0 up_alive0) as [_ Hz].
  rewrite (Hz up_ws0 up_stage0). done.
Qed.

Section upgrade.
Context {B : Base64} `{!Base64Law B}.

Lemma push_is_push_ws c data q d : upgrading c d q ->
  conn_io_push (Some c) (Some data) (blen data) = let '(st, c') := push_ws c data in (st, Some c').
Proof.
  intros [? Hw Hs Hf Hp]. unfold conn_io_push. rewrite (bool_decide_false (Some data = None)) by done. cbn [andb default from_option id].
  rewrite take_all_z, Hf, Hw by done. unfold settled_proxy in Hp. rewrite Hw in Hp. cbn [andb] in Hp. apply negb_true_iff in Hp. by rewrite Hp.
Qed.

(** Part of the request. *)
Lemma push_partial c d q data :
  upgrading c d q -> blen d + blen data <= AUTHD_IN_BUF_BYTES -> end_of_headers (d ++ data) = 0 -> blen (d ++ data) <= WS_UPGRADE_MAX ->
  exists c', conn_io_push (Some c) (Some data) (blen data) = (CONN_IO_OK, Some c') /\ upgrading c' (d ++ data) q /\ c_ws c' = c_ws c /\ c_mode c' = c_mode c /\ c_proxy c' = c_proxy c.
Proof.
  intros Hu Hroom He Hmax. rewrite (push_is_push_ws _ _ _ _ Hu). pose proof Hu as [Hc Hw Hs Hf Hp]. unfold push_ws.
  rewrite bool_decide_true by done. cbn [negb]. rewrite (clean_length _ _ _ (cio_in _ _ _ Hc)), (cio_in_len _ _ _ Hc).
  rewrite (proj2 (Z.ltb_ge _ _)) by lia. rewrite <-(cio_in_len _ _ _ Hc). pose proof (cio_append c d q data Hc Hroom) as Hc1.
  rewrite (cio_in_len _ _ _ Hc1), (clean_take _ _ _ (cio_in _ _ _ Hc1)), He. cbn [Z.eqb]. rewrite (proj2 (Z.ltb_ge _ _)) by done.
  eexists. split; [done|]. split; [|done]. by split.
Qed.

(** The end of the request, and what follows it. *)
Lemma push_request c d q data req rest w1 w2 x :
  upgrading c d q -> blen d + blen data <= AUTHD_IN_BUF_BYTES -> d ++ data = req ++ rest -> end_of_headers req = blen req -> 0 < blen req <= WS_UPGRADE_MAX ->
  ws_upgrade (Some (c_ws c)) (Some req) (blen req) = (WS_OK, Some w1) -> payload w1 rest = Some (w2, x) ->
  exists c1, conn_io_push (Some c) (Some data) (blen data) = (let '(st, c') := note_header c1 in (st, Some c')) /\ ready c1 x q /\ c_ws c1 = w2 /\
    c_mode c1 = c_mode c /\ c_proxy c1 = c_proxy c.
Proof.
  intros Hu Hroom Hcut He Hmax Hup Hpay. rewrite (push_is_push_ws _ _ _ _ Hu). pose proof Hu as [Hc Hw Hs Hf Hp]. unfold push_ws.
  rewrite bool_decide_true by done. cbn [negb]. rewrite (clean_length _ _ _ (cio_in _ _ _ Hc)), (cio_in_len _ _ _ Hc).
  rewrite (proj2 (Z.ltb_ge _ _)) by lia. rewrite <-(cio_in_len _ _ _ Hc). pose proof (cio_append c d q data Hc Hroom) as Hc1.
  set (c1 := c_set_in _ _ _) in *. rewrite Hcut in Hc1. rewrite (cio_in_len _ _ _ Hc1), (clean_take _ _ _ (cio_in _ _ _ Hc1)).
  assert (Hend : end_of_headers (req ++ rest) = blen req) by (unfold end_of_headers in *; rewrite end_of_headers_app; lia).
  rewrite Hend, (proj2 (Z.eqb_neq _ 0)), (proj2 (Z.ltb_ge WS_UPGRADE_MAX _)) by lia.
  rewrite upgrade_take. assert (ztake (blen req) (c_in c1) = req) as ->.
  { destruct (cio_in _ _ _ Hc1) as [_ ->]. rewrite <-app_assoc, Nat2Z.id. apply take_app_length. }
  change (c_ws c1) with (c_ws c). rewrite Hup. cbn [default from_option id]. rewrite bool_decide_true by done. cbn [negb].
  destruct (cio_ws _ _ _ Hc Hf) as [(Hok & Hst & Hz) Hfl]. apply upgrade_cases in Hup as (Hok1 & Hst1 & Hd1 & _ & Hcase); [|done..].
  assert (Hopen : ws_stage w1 = WS_STAGE_OPEN) by (destruct Hcase as [[? _]|(_ & ? & _)]; done).
  assert (Hc2 : cio (c_set_ws c1 w1) (req ++ rest) q) by (apply cio_set_ws; [done|]; intros _; split; [|congruence]; split; [done|split; [done|congruence]]).
  pose proof (clean_set_in _ _ _ [] Hc2 ltac:(rewrite in_buf; cbn; lia) (Hfl Hw Hs) _ (clean_wipe _ _ _ (cio_in _ _ _ Hc2))) as Hc3.
  assert (Hrest : peek (blen req) (c_in_len (c_set_ws c1 w1) - blen req) (c_in (c_set_ws c1 w1)) = rest).
  { rewrite (cio_in_len _ _ _ Hc2), length_app. rewrite (clean_peek _ _ _ _ _ (cio_in _ _ _ Hc2)) by (rewrite ?length_app; lia). unfold peek.
    rewrite Nat2Z.id, drop_app_length. apply take_ge. lia. }
  rewrite Hrest, (cio_in_len _ _ _ Hc2). set (c3 := c_set_in (c_set_ws c1 w1) _ _) in *. exists (fill c3 w2 x).
  pose proof (ws_feed_spec c3 [] q rest Hc3 Hf Hw) as Hfeed. change (c_ws c3) with w1 in Hfeed. rewrite Hpay in Hfeed.
  pose proof (payload_length _ _ _ _ Hpay) as Hxl. apply (f_equal (length (A:=byte))) in Hcut as Hl. rewrite !length_app in Hl.
  rewrite (proj2 (Z.ltb_ge _ _)) in Hfeed by (cbn [length]; lia). destruct Hfeed as (Hfeed & Hcf & Hsf); [congruence|]. cbn [app] in Hfeed, Hcf.
  split_and!; [|split; try done; split; [|done]|done|done|done].
  - destruct (0 <? blen rest) eqn:Hr; [by rewrite Hfeed|]. destruct rest; [|done]. injection Hpay as <- <-.
    assert (fill c3 w1 [] = c3) as ->; [|].
    { destruct (cio_inbuf _ _ _ Hc3) as [Hi _]. unfold fill. rewrite <-Hi. done. }
    unfold note_header. change (c_ws c3) with w1. rewrite Hopen, (bool_decide_false (_ = _)), andb_false_r by done.
    rewrite (cio_in_len _ _ _ Hc3), orb_true_r by done. done.
  - unfold is_ws in Hw. apply bool_decide_eq_true in Hw. change (c_mode (fill c3 w2 x)) with (c_mode c). by rewrite Hw.
Qed.

(** A complete request, accepted in the state [w]. *)
Record accepted (w : ws_t) (req : list byte) (w1 : ws_t) : Prop := {
  acc_end : end_of_headers req = blen req; acc_len : 0 < blen req <= WS_UPGRADE_MAX;
  acc_up : ws_upgrade (Some w) (Some req) (blen req) = (WS_OK, Some w1) }.

(** What [sizes] more reads do while the request is read. *)
Definition upgrades (sizes : list Z) (q req F : list byte) (w1 : ws_t) : Prop :=
  forall c d s, upgrading c d q -> accepted (c_ws c) req w1 -> d ++ s = req ++ F -> blen d < blen req -> blen s <= Z.of_nat (length sizes) ->
    delivered q [] (length sizes) (c_set_ws c w1) F (pump sizes c s).

(** One read in that state. *)
Lemma upgrade_round sizes c c0 d q chunk s req F w1 fuel :
  upgrades sizes q req F w1 -> upgrading c d q -> accepted (c_ws c) req w1 -> payload w1 F <> None ->
  d ++ chunk ++ s = req ++ F -> blen d < blen req -> blen d + blen chunk <= AUTHD_IN_BUF_BYTES -> blen s <= Z.of_nat (length sizes) ->
  delivered q [] fuel (c_set_ws c w1) F (after_push (pump sizes) (conn_io_push (Some c) (Some chunk) (blen chunk)) c0 s).
Proof.
  intros IH Hu Hacc HF Hcut Hd Hroom Hl1. pose proof Hu as [Hc Hw Hs Hf Hp]. pose proof Hacc as [He Hl Hup]. rewrite app_assoc in Hcut.
  assert (Hcase : (exists m, d ++ chunk = req ++ m /\ F = m ++ s) \/ exists m, m <> [] /\ req = (d ++ chunk) ++ m /\ s = m ++ F).
  { apply app_eq_inv in Hcut as [?|([|y m] & -> & ->)]; [by left|left; exists []; by rewrite !app_nil_r|right; by exists (y :: m)]. }
  destruct Hcase as [(m & Hdc & ->)|(m & Hm & Hreq & ->)].
  - assert (Hm : exists w2 x, payload w1 m = Some (w2, x) /\ payload w2 s <> None).
    { rewrite payload_app in HF. destruct (payload w1 m) as [[w2 x]|]; [|done]. exists w2, x. split; [done|]. intros H. cbn in HF. by rewrite H in HF. }
    destruct Hm as (w2 & x & Hpm & Hps). destruct (push_request c d q chunk req m w1 w2 x) as (c1 & -> & Hr1 & Hw1 & Hm1 & Hpr1); [done..|].
    assert (Hws : forall c' w b, c_mode c' = c_mode c -> c_ws c' = w -> taken c' b = payload w b).
    { intros c' w b H <-. unfold taken, is_ws in *. by rewrite H, Hw. }
    eapply (delivered_before _ _ (length sizes) _ _ c1); [rewrite (Hws _ w1) by done; exact Hpm|done|done|done|done|].
    apply after_push_spec; [intros; by apply pump_spec|done|]. by rewrite (Hws _ w2).
  - destruct (push_partial c d q chunk) as (c1 & -> & Hu1 & Hw1 & Hm1 & Hpr1); [done|done|by eapply end_of_headers_prefix|rewrite Hreq, length_app in Hl; lia|].
    unfold after_push. rewrite (serve_upgrading _ _ _ _ Hu1). specialize (IH c1 (d ++ chunk) (m ++ F) Hu1).
    assert (Hdel : delivered q [] (length sizes) (c_set_ws c1 w1) F (pump sizes c1 (m ++ F))).
    { apply IH; try done; [by rewrite Hw1|]. rewrite Hreq, (length_app _ m). destruct m; [done|cbn [length]; lia]. }
    destruct (pump sizes c1 (m ++ F)) as [[[st fs] c'] s']. destruct Hdel as (a & w & x & rest & bad & ? & Ht & ? & ? & ? & Hgood).
    exists a, w, x, rest, bad. split_and!; try done.
    + rewrite <-Ht. by apply taken_same.
    + intros Hbad. destruct (Hgood Hbad) as (? & ? & ? & Hm' & Hp' & Hend). split_and!; try done; [by rewrite Hm'|by rewrite Hp'|]. intros _. apply Hend.
      rewrite length_app in Hl1. lia.
Qed.

(** A read of the event loop: its bytes, and the rest. *)
Lemma read_cut c d q s k :
  cio c d q -> blen d < AUTHD_IN_BUF_BYTES -> s <> [] ->
  let n := read_size c s k in
  blen (ztake n s) = n /\ ztake n s ++ zdrop n s = s /\ blen d + n <= AUTHD_IN_BUF_BYTES /\ 0 < n /\ blen (zdrop n s) < blen s.
Proof.
  intros Hc Hd Hs n. destruct (read_size_bounds c d q s k Hc Hd) as (? & ? & ? & Hn). specialize (Hn Hs). fold n in Hn, H, H0, H1.
  rewrite length_take, length_drop. split_and!; try lia. apply take_drop.
Qed.

Lemma shorter_nonempty (d s req F : list byte) : d ++ s = req ++ F -> blen d < blen req -> s <> [].
Proof. intros Hcut Hd ->. apply (f_equal (length (A:=byte))) in Hcut. rewrite !length_app in Hcut. cbn [length] in Hcut. lia. Qed.

(** The request read and answered, the rest is as on an open connection. *)
Lemma pump_upgrade sizes q req F w1 : payload w1 F <> None -> upgrades sizes q req F w1.
Proof.
  intros HF. induction sizes as [|k sizes IH]; intros c d s Hu Hacc Hcut Hd Hlen; pose proof (shorter_nonempty _ _ _ _ Hcut Hd) as Hne.
  { exfalso. destruct s; [done|cbn in Hlen; lia]. }
  pose proof (up_cio _ _ _ Hu) as Hc. assert (Hd' : blen d < AUTHD_IN_BUF_BYTES) by (destruct Hacc as [_ [_ ?] _]; rewrite in_buf; unfold WS_UPGRADE_MAX in *; lia).
  destruct (read_cut c d q s k Hc Hd' Hne) as (Hchunk & Hs1 & Hroom & Hn & Hshort). cbn [pump length] in *. set (n := read_size c s k) in *. clearbody n.
  rewrite <-Hchunk at 2. eapply (upgrade_round _ _ _ d q _ _ req); try done; [by rewrite Hs1|by rewrite Hchunk|lia].
Qed.

(** ** The preamble of a proxy *)

(** A connection that still awaits the end of its preamble. *)
Record awaiting (c : conn_io_t) (q : list byte) : Prop := {
  aw_cio : cio c [] q; aw_ws : is_ws c = true; aw_stage : ws_stage (c_ws c) = WS_STAGE_UPGRADE; aw_alive : c_failed c = false;
  aw_on : c_proxy_on c = true; aw_open : pv_done (c_proxy c) = false; aw_ok : pv_ok (c_proxy c) }.

Lemma serve_awaiting fuel c q : awaiting c q -> serve fuel c = ([], c).
Proof.
  intros []. destruct fuel as [|fuel]; [done|]. cbn [serve conn_io_next_frame]. unfold note_header.
  rewrite aw_alive0, aw_ws0, aw_stage0, bool_decide_true by done. cbn [andb negb]. destruct (cio_ws _ _ _ aw_cio0 aw_alive0) as [_ Hz].
  by rewrite (Hz aw_ws0 aw_stage0).
Qed.

Lemma push_awaiting c q data st p rest :
  awaiting c q -> go (c_proxy c) data = (st, p, rest) ->
  conn_io_push (Some c) (Some data) (blen data) =
    if bool_decide (st = PROXY_V2_ERR) then (CONN_IO_ERR_PROTOCOL, Some (c_fail (c_set_proxy c true p))) else
    if negb (pv_done p) then (CONN_IO_OK, Some (c_set_proxy c true p)) else
    let '(st, c') := push_ws (c_set_proxy c true p) (zdrop (blen data - blen rest) data) in (st, Some c').
Proof.
  intros [] Hg. unfold conn_io_push. rewrite (bool_decide_false (Some data = None)) by done. cbn [andb default from_option id].
  rewrite take_all_z, aw_alive0, aw_ws0, aw_on0, aw_open0 by done. cbn [andb negb]. by rewrite consume_go, Hg.
Qed.

(** A complete preamble, with the verdict [st]. *)
Definition settles (p : proxy_v2_t) (pre : list byte) (p1 : proxy_v2_t) : Prop :=
  exists st, go p pre = (st, p1, []) /\ st <> PROXY_V2_NEED_MORE /\ st <> PROXY_V2_ERR.

Lemma settles_partial p a b p1 :
  pv_ok p -> settles p (a ++ b) p1 -> b <> [] -> exists p', go p a = (PROXY_V2_NEED_MORE, p', []) /\ pv_ok p' /\ pv_done p' = false /\ settles p' b p1.
Proof.
  intros Hok (st & Hg & H1 & H2) Hb. rewrite go_app in Hg by done. destruct (go p a) as [[sta pa] ra] eqn:Ha. cbn [appended] in Hg.
  case_bool_decide as Hn; [subst sta|injection Hg as _ _ Hr; by apply app_eq_nil in Hr as [_ ?]]. pose proof (go_rest _ _ _ _ Hok Ha) as ->.
  apply go_facts in Ha as [? Hv]; [|done]. exists pa. split_and!; try done. by exists st.
Qed.

Lemma settles_all p pre p1 m :
  pv_ok p -> settles p pre p1 -> exists st, go p (pre ++ m) = (st, p1, m) /\ st <> PROXY_V2_ERR /\ pv_done p1 = true.
Proof.
  intros Hok (st & Hg & H1 & H2). exists st. rewrite go_app, Hg by done. cbn [appended]. rewrite bool_decide_false by done. split; [done|]. split; [done|].
  apply go_facts in Hg as [_ Hv]; [|done]. unfold verdict_kept in Hv. rewrite bool_decide_false in Hv by done. apply Hv.
Qed.

Lemma awaiting_partial c q data p :
  awaiting c q -> go (c_proxy c) data = (PROXY_V2_NEED_MORE, p, []) -> pv_ok p -> pv_done p = false ->
  conn_io_push (Some c) (Some data) (blen data) = (CONN_IO_OK, Some (c_set_proxy c true p)) /\ awaiting (c_set_proxy c true p) q.
Proof.
  intros Ha Hg Hok Hd. rewrite (push_awaiting _ _ _ _ _ _ Ha Hg), bool_decide_false, Hd by done. split; [done|]. destruct Ha. split; try done. by apply cio_set_proxy.
Qed.

(** The read that completes the preamble goes on with what follows it. *)
Lemma awaiting_settled c q pre m p1 :
  awaiting c q -> settles (c_proxy c) pre p1 ->
  upgrading (c_set_proxy c true p1) [] q /\
  conn_io_push (Some c) (Some (pre ++ m)) (blen (pre ++ m)) = conn_io_push (Some (c_set_proxy c true p1)) (Some m) (blen m).
Proof.
  intros Ha Hs. destruct (settles_all _ _ _ m (aw_ok _ _ Ha) Hs) as (st & Hg & Hst & Hd). assert (Hu : upgrading (c_set_proxy c true p1) [] q).
  { destruct Ha. split; try done; [by apply cio_set_proxy|]. unfold settled_proxy. cbn [c_proxy c_set_proxy]. by rewrite Hd, andb_false_r. }
  split; [done|]. rewrite (push_awaiting _ _ _ _ _ _ Ha Hg), (push_is_push_ws _ _ _ _ Hu), bool_decide_false, Hd by done. cbn [negb].
  rewrite length_app. replace (Z.of_nat (length pre + length m) - blen m) with (blen pre) by lia. by rewrite Nat2Z.id, drop_app_length.
Qed.

(** Preamble, request and frames, read in pieces of any size. *)
Lemma pump_preamble sizes c q pre p1 req F w1 :
  awaiting c q -> settles (c_proxy c) pre p1 -> accepted (c_ws c) req w1 -> payload w1 F <> None -> pre <> [] ->
  blen (pre ++ req ++ F) <= Z.of_nat (length sizes) ->
  delivered q [] (length sizes) (c_set_ws (c_set_proxy c true p1) w1) F (pump sizes c (pre ++ req ++ F)).
Proof.
  intros Ha Hset Hacc HF. revert c pre Ha Hset Hacc. induction sizes as [|k sizes IH]; intros c pre Ha Hset Hacc Hpre Hlen.
  { exfalso. destruct pre; [done|]. cbn in Hlen. lia. }
  set (s := pre ++ req ++ F) in *. assert (Hne : s <> []) by (by destruct pre). pose proof (acc_len _ _ _ Hacc) as Hl.
  destruct (read_cut c [] q s k (aw_cio _ _ Ha)) as (Hchunk & Hs1 & Hroom & Hn & Hshort); [rewrite in_buf; cbn; lia|done|]. cbn [pump length] in *.
  set (n := read_size c s k) in *. clearbody n. rewrite <-Hchunk at 2. set (chunk := ztake n s) in *. set (s1 := zdrop n s) in *. clearbody chunk s1. subst s.
  assert (Hcase : (exists m, chunk = pre ++ m /\ req ++ F = m ++ s1) \/ exists m, m <> [] /\ pre = chunk ++ m /\ s1 = m ++ req ++ F).
  { apply app_eq_inv in Hs1 as [?|([|y m] & -> & ->)]; [by left|left; exists []; by rewrite !app_nil_r|right; by exists (y :: m)]. }
  destruct Hcase as [(m & -> & Hm)|(m & Hm & -> & ->)].
  - destruct (awaiting_settled c q pre m p1 Ha Hset) as [Hu ->]. rewrite length_app in Hchunk. cbn [length] in Hroom.
    apply (upgrade_round sizes (c_set_proxy c true p1) c [] q m s1 req F w1); try done; [by apply pump_upgrade|cbn [length]; lia|cbn [length] in *; lia|lia].
  - destruct (settles_partial _ _ _ _ (aw_ok _ _ Ha) Hset Hm) as (p' & Hg & Hok & Hd & Hset').
    destruct (awaiting_partial c q chunk p' Ha Hg Hok Hd) as [-> Ha1]. unfold after_push. rewrite (serve_awaiting _ _ _ Ha1).
    specialize (IH (c_set_proxy c true p') m Ha1 Hset' Hacc Hm ltac:(lia)).
    destruct (pump sizes _ _) as [[[st fs] c'] s']. destruct IH as (a & w & x & rest & bad & ? & Ht & ? & ? & ? & Hgood).
    exists a, w, x, rest, bad. split_and!; try done. intros Hbad. destruct (Hgood Hbad) as (? & ? & ? & ? & ? & Hend). split_and!; try done.
    intros _. apply Hend. rewrite !length_app in *. lia.
Qed.

(** ** The whole connection *)

Definition data_frames (msgs : list (list byte * list byte)) (frames : list (list byte)) : Prop :=
  Forall2 (fun '(m, p) f => blen m = 4 /\ blen p < 2 ^ 63 /\ client_sends m p f) msgs frames.

(** The frames of a client carry exactly its payloads. *)
Lemma payload_frames w msgs frames :
  at_boundary w -> ws_expect_mask w = true -> data_frames msgs frames ->
  exists w', payload w (concat frames) = Some (w', concat msgs.*2) /\ ws_r w' = ws_r w.
Proof.
  intros Hw He Hall. assert (Hlen : Forall (fun '(m, p) => blen m = 4 /\ blen p < 2 ^ 63) msgs).
  { clear -Hall. induction Hall as [|[m p] f msgs frames (? & ? & _) _ IH]; by constructor. }
  assert (frames = map (fun '(m, p) => frame (ws_expect_mask w) WS_OP_BINARY m p) msgs) as ->.
  { clear Hlen. rewrite He. induction Hall as [|[m p] f msgs frames (Hm & _ & Hs) _ IH]; [done|]. cbn [map]. f_equal; [|done]. by apply client_sends_frame. }
  pose proof (binary_frames_run (fun _ => True) collect w [] msgs I Hw Hlen) as H. cbn in H. destruct H as (w' & Hp & _ & Hr). by exists w'.
Qed.

(** [pre] is a complete preamble if one is expected, else empty. *)
Definition preamble_ok (proxy : bool) (pre : list byte) : Prop :=
  if proxy then let '(st, _, n) := proxy_ref pre in st <> PROXY_V2_NEED_MORE /\ st <> PROXY_V2_ERR /\ n = blen pre else pre = [].

Lemma settles_ref pre : preamble_ok true pre -> pre <> [] /\ exists p1, settles proxy_start pre p1 /\ pv_addr p1 = (proxy_ref pre).1.2.
Proof.
  unfold preamble_ok. intros H. split; [by intros ->; vm_compute in H; destruct H|]. destruct (go proxy_start pre) as [[st p1] rest] eqn:Hg.
  pose proof (go_ref _ _ _ _ Hg) as Hr. rewrite <-Hr in H |- *. destruct H as (H1 & H2 & H3). exists p1. split; [|done]. exists st. split_and!; try done.
  destruct rest; [done|cbn [length] in H3; lia].
Qed.

Lemma start_upgrading c proxy :
  let c' := conn_start c CONN_IO_MODE_WS proxy in
  c_ws c' = ws_init /\ if proxy then awaiting c' [] /\ c_proxy c' = proxy_start else upgrading c' [] [].
Proof.
  destruct (cio_start c CONN_IO_MODE_WS proxy) as (Hc & Hm & Hf). cbv zeta. split; [done|]. destruct proxy; [split; [|done]|]; split; try done.
Qed.

(** From a bound slot to the delivery of the payload. *)
Lemma pump_connection c proxy pre req F w1 sizes :
  preamble_ok proxy pre -> accepted ws_init req w1 -> payload w1 F <> None -> blen (pre ++ req ++ F) <= Z.of_nat (length sizes) ->
  exists c1, delivered [] [] (length sizes) c1 F (pump sizes (conn_start c CONN_IO_MODE_WS proxy) (pre ++ req ++ F)) /\ is_ws c1 = true /\ c_ws c1 = w1 /\
    (proxy = true -> pv_addr (c_proxy c1) = (proxy_ref pre).1.2).
Proof.
  intros Hpre Hacc HF Hlen. destruct (start_upgrading c proxy) as [Hw Hst]. rewrite <-Hw in Hacc. destruct proxy.
  - destruct Hst as [Ha Hp]. destruct (settles_ref pre Hpre) as (Hne & p1 & Hs & Haddr). rewrite <-Hp in Hs. eexists. split; [by eapply pump_preamble|]. done.
  - rewrite Hpre in *. exists (c_set_ws (conn_start c CONN_IO_MODE_WS false) w1). split_and!; try done.
    apply (pump_upgrade sizes [] req F w1 HF _ [] (req ++ F) Hst Hacc); [done|apply Hacc|done].
Qed.

(** C38: behind an optional PROXY v2 preamble, an accepted upgrade request followed by the data frames of a client makes
    a WebSocket connection deliver exactly the frames that a raw connection delivers for the concatenated payloads,
    however the two streams are cut into reads, and fail exactly when it fails.  Unless it fails, everything is read,
    the 101 response for the key of the request waits to be written, and the client's address is the preamble's. *)
Theorem conn_io_ws_transparent c0 c1 proxy pre req w1 msgs frames sizes sizes' :
  preamble_ok proxy pre -> accepted ws_init req w1 -> data_frames msgs frames ->
  blen (pre ++ req ++ concat frames) <= Z.of_nat (length sizes) -> blen (concat msgs.*2) <= Z.of_nat (length sizes') ->
  exists st fs c s st' c' s',
    pump sizes (conn_start c0 CONN_IO_MODE_WS proxy) (pre ++ req ++ concat frames) = (st, fs, c, s) /\
    pump sizes' (conn_start c1 CONN_IO_MODE_FRAME false) (concat msgs.*2) = (st', fs, c', s') /\
    c_failed c = c_failed c' /\ st <> CONN_IO_ERR_OVERFLOW /\
    (c_failed c = false -> st = CONN_IO_OK /\ s = [] /\ (exists key, accepted_key key /\ waiting c = response_101 (accept_of key)) /\
      (proxy = true -> conn_io_client_addr (Some c) = (proxy_ref pre).1.2)).
Proof.
  intros Hpre Hacc Hdata Hlen Hlen'. pose proof (acc_up _ _ _ Hacc) as Hup.
  apply upgrade_cases in Hup as (Hok & Hst & Hd & He & [[? _]|(_ & Hopen & key & Hkey & Hs0 & Htxt)]); [done| |apply ws_part_init|apply ws_part_init|done].
  assert (Hb : at_boundary w1) by (by split_and!; rewrite ?Hd).
  destruct (payload_frames w1 msgs frames Hb) as (w2 & Hpay & Hr2); [by rewrite He|done|].
  destruct (pump_connection c0 proxy pre req (concat frames) w1 sizes) as (c2 & Hdel & Hw2 & Hcw & Haddr); [done|done|by rewrite Hpay|done|].
  assert (Ht : taken c2 (concat frames) = Some (w2, concat msgs.*2)) by (unfold taken; by rewrite Hw2, Hcw).
  apply (delivered_all _ _ _ _ _ _ _ ltac:(exact Hdel)) in Ht; [|rewrite !length_app in Hlen; lia].
  pose proof (pump_all sizes' _ _ (concat msgs.*2) _ _ (ready_frame c1) eq_refl Hlen') as Hraw.
  destruct (pump sizes _ _) as [[[st fs] c] s]. destruct (pump sizes' _ _) as [[[st' fs'] c'] s'].
  destruct Ht as (rest & Hp & Hst1 & Hgood), Hraw as (rest' & Hp' & _ & _). rewrite Hp in Hp'. injection Hp' as <- _ Hfail.
  exists st, fs, c, s, st', c', s'. split_and!; try done. intros Hf. destruct (Hgood Hf) as (-> & -> & Hc & Hw & Hm & Hpr). split_and!; try done.
  - exists key. split; [done|]. unfold waiting. rewrite (out_rest_eq _ _ _ Hc), drop_nil, app_nil_r. unfold reply_rest, ws_reply_pending, is_ws in *.
    rewrite Hm, Hw2, Hw, Hr2, Hs0. assert (0 < r_len (ws_r w1)).
    { destruct (Z.ltb_spec 0 (r_len (ws_r w1))); [done|]. replace (Z.to_nat (r_len (ws_r w1))) with 0%nat in Htxt by lia. done. }
    rewrite (proj2 (Z.ltb_lt _ _)) by done. cbn [andb]. by rewrite Z.sub_0_r.
  - intros Hon. cbn [conn_io_client_addr]. rewrite Hpr. by apply Haddr.
Qed.
End upgrade.

(** ** Replies to a WebSocket client *)

(** The client takes [k] messages from a stream, each into a fresh buffer of [cap] bytes. *)
Fixpoint client_takes (k : nat) (cap : Z) (s : list byte) : option (list (list byte) * list byte) :=
  match k with
  | O => Some ([], s)
  | S k =>
    match ws_client_read_message 1 (Some list_rd) (Some (zeros cap)) cap (Some 0) s with
    | (Some (WS_CLIENT_OK, Some out, Some n), s) => client_takes k cap s ≫= fun '(ms, s) => Some (ztake n out :: ms, s)
    | _ => None
    end
  end.

Lemma list_rd_exact s n : 0 < n <= blen s -> exists s', list_rd s n = (RdBytes (ztake n s), s') /\ s' = zdrop n s.
Proof. intros Hn. unfold list_rd. rewrite (proj2 (Z.eqb_neq _ 0)), (proj2 (Z.leb_le _ _)) by lia. eauto. Qed.

Lemma wire_ws p : wire CONN_IO_MODE_WS p = server_writes [(WS_OP_BINARY, wire CONN_IO_MODE_FRAME p)].
Proof.
  unfold server_writes. cbn [map concat wire]. rewrite app_nil_r. do 2 f_equal. rewrite length_app. cbn [length len32]. unfold AUTHD_FRAME_HEADER. lia.
Qed.

(** Messages queued on an idle WebSocket connection and written in pieces of any size reach the client's reader as
    one WebSocket message each, holding the length prefix and the payload; the client takes exactly the frames of a raw
    connection, and nothing is left on either side. *)
Theorem conn_io_ws_replies c d msgs cap :
  quiet c d -> c_mode c = CONN_IO_MODE_WS -> Forall (fun '(p, writes) => msg_ok p /\ blen (wire CONN_IO_MODE_WS p) <= Z.of_nat (length writes)) msgs ->
  4 + AUTHD_FRAME_MAX <= cap ->
  exists bytes c', send_all msgs c = (bytes, c') /\ quiet c' d /\
    client_takes (length msgs) cap bytes = Some (map (wire CONN_IO_MODE_FRAME) msgs.*1, []) /\ (parse (wire_all msgs.*1)).1.1 = msgs.*1.
Proof.
  intros Hq Hm Hall Hcap. destruct (send_all_spec msgs c d Hq) as (c' & -> & Hq' & _); [by rewrite Hm|]. rewrite Hm. eexists _, c'.
  split; [done|]. split; [done|]. assert (Hok : Forall msg_ok msgs.*1) by (clear -Hall; induction Hall as [|[p w] msgs [? _] _ IH]; by constructor). split.
  - clear Hall Hq Hq'. replace (length msgs) with (length msgs.*1) by apply length_fmap. induction Hok as [|p ps [Hp Hmax] _ IH]; [done|]. cbn [map concat length client_takes].
    rewrite wire_ws. assert (Hl : blen (wire CONN_IO_MODE_FRAME p) = 4 + blen p) by (cbn [wire length len32 app]; lia).
    destruct (server_frames_read list_rd (fun s => s) list_rd_exact (zeros cap) cap 0 (server_writes [(WS_OP_BINARY, wire CONN_IO_MODE_FRAME p)] ++ concat (map (wire CONN_IO_MODE_WS) ps))
      [] (wire CONN_IO_MODE_FRAME p) (concat (map (wire CONN_IO_MODE_WS) ps))) as (s' & Hread & ->); [done|rewrite Hl; rewrite frame_max in Hmax; lia|lia|done|].
    cbn [length] in Hread. rewrite Hread, IH. cbn [mbind option_bind]. do 4 f_equal. apply take_poke_0.
  - rewrite <-(app_nil_r (wire_all _)), parse_wire_all by done. change (parse []) with (@nil (list byte), @nil byte, false). cbn [fst]. apply app_nil_r.
Qed.
