(* ===== verification/ConnIoLines.v ===== *)
(** * Lines

    The local API's connections: the lines of a stream as a function of its
    bytes, exact delivery for every size of reads, and what the limit on the
    length of a line means. *)

From S2P Require Import Prelude Ws WsUpgrade ConnIo ConnIoProps ConnIoRun.

#[local] Opaque AUTHD_FRAME_MAX AUTHD_IN_BUF_BYTES AUTHD_OUT_BUF_BYTES.

(** ** The lines of a stream *)

(** A line ends at its LF; a CR before it is not part of the line. *)
Definition line_text (l : list byte) : list byte :=
  if bool_decide (last l = Some CR) then removelast l else l.

Fixpoint lines_from (fuel : nat) (d : list byte) : list (list byte) * list byte :=
  match fuel with
  | O => ([], d)
  | S fuel =>
    match memchr d LF with
    | None => ([], d)
    | Some i => let '(ls, rest) := lines_from fuel (zdrop (i + 1) d) in (line_text (ztake i d) :: ls, rest)
    end
  end.
Definition lines (d : list byte) : list (list byte) * list byte := lines_from (S (length d)) d.

Lemma lines_fuel f1 f2 d : (length d < f1)%nat -> (length d < f2)%nat -> lines_from f1 d = lines_from f2 d.
Proof.
  revert f2 d. induction f1 as [|f1 IH]; intros f2 d H1 H2; [lia|]. destruct f2 as [|f2]; [lia|]. cbn [lines_from].
  destruct (memchr d LF) as [i|] eqn:Hi; [|done]. apply memchr_range in Hi. rewrite (IH f2); [done|rewrite length_drop; lia|rewrite length_drop; lia].
Qed.

Lemma lines_eq d :
  lines d = match memchr d LF with None => ([], d) | Some i => let '(ls, rest) := lines (zdrop (i + 1) d) in (line_text (ztake i d) :: ls, rest) end.
Proof.
  unfold lines at 1. cbn [lines_from]. destruct (memchr d LF) as [i|] eqn:Hi; [|done]. apply memchr_range in Hi. unfold lines.
  by rewrite (lines_fuel (length d) (S (length (zdrop (i + 1) d)))) by (rewrite length_drop; lia).
Qed.

Lemma lines_ind (P : list byte -> Prop) :
  (forall d, (forall i, memchr d LF = Some i -> P (zdrop (i + 1) d)) -> P d) -> forall d, P d.
Proof.
  intros H d. remember (length d) as n eqn:Hn. revert d Hn. induction n as [n IH] using lt_wf_ind. intros d ->. apply H. intros i Hi.
  apply memchr_range in Hi. eapply IH; [|done]. rewrite length_drop. lia.
Qed.

Lemma memchr_app l k x i : memchr l x = Some i -> memchr (l ++ k) x = Some i.
Proof.
  revert i. induction l as [|y l IH]; intros i; [done|]. cbn. case_bool_decide; [done|]. destruct (memchr l x) as [j|]; [|done]. by rewrite (IH j).
Qed.

(** Reading may stop anywhere and resume with more bytes. *)
Lemma lines_app a b : lines (a ++ b) = let '(ls, rest) := lines a in let '(ls2, rest2) := lines (rest ++ b) in (ls ++ ls2, rest2).
Proof.
  induction a as [a IH] using lines_ind. rewrite (lines_eq a). destruct (memchr a LF) as [i|] eqn:Hi; [|by destruct (lines (a ++ b)) as [? ?]].
  rewrite lines_eq, (memchr_app _ _ _ _ Hi). specialize (IH i eq_refl). apply memchr_range in Hi.
  rewrite drop_app_le, take_app_le, IH by lia. destruct (lines (zdrop (i + 1) a)) as [ls rest]. by destruct (lines (rest ++ b)) as [ls2 rest2].
Qed.

(** The rest has no LF, and ends the stream. *)
Lemma lines_rest d ls rest : lines d = (ls, rest) -> memchr rest LF = None /\ rest `suffix_of` d /\ (ls <> [] -> blen rest < blen d).
Proof.
  revert ls rest. induction d as [d IH] using lines_ind. intros ls rest. rewrite lines_eq. destruct (memchr d LF) as [i|] eqn:Hi; [|by intros [= <- <-]].
  destruct (lines (zdrop (i + 1) d)) as [ls' rest'] eqn:Hl. intros [= <- <-]. destruct (IH i eq_refl ls' rest' Hl) as (? & [k Hk] & _).
  apply memchr_range in Hi. split; [done|]. split.
  - exists (ztake (i + 1) d ++ k). by rewrite <-app_assoc, <-Hk, take_drop.
  - intros _. apply (f_equal (length (A:=byte))) in Hk. rewrite length_drop, length_app in Hk. lia.
Qed.

(** ** Taking the lines *)

Fixpoint serve_lines (fuel : nat) (c : conn_io_t) : list (list byte) * conn_io_t :=
  match fuel with
  | O => ([], c)
  | S fuel =>
    match conn_io_next_line (Some c) with
    | (Some l, Some c1) => let '(ls, c2) := serve_lines fuel (default c1 (conn_io_consume_line (Some c1))) in (l :: ls, c2)
    | (_, c1) => ([], default c c1)
    end
  end.

Record lined (c : conn_io_t) (d q : list byte) : Prop := {
  li_cio : cio c d q; li_mode : c_mode c = CONN_IO_MODE_LINE; li_alive : c_failed c = false }.

Lemma text_of_buffer n buf d i :
  clean n buf d -> 0 <= i <= blen d ->
  ztake (if (0 <? i) && bool_decide (byte_at buf (i - 1) = CR) then i - 1 else i) buf = line_text (ztake i d).
Proof.
  intros Hc Hi. assert (Ht : forall k, 0 <= k <= blen d -> ztake k buf = ztake k d).
  { intros k Hk. change (peek 0 k buf = peek 0 k d). eapply clean_peek; [done|lia..]. }
  unfold line_text. destruct (Z.ltb_spec 0 i) as [H0|H0]; cbn [andb].
  - assert (Hl : last (ztake i d) = Some (byte_at buf (i - 1))).
    { destruct Hc as [_ ->]. rewrite last_lookup, length_take, lookup_take, decide_True by lia. unfold byte_at. rewrite app_nth1 by lia.
      replace (Init.Nat.pred (Z.to_nat i `min` length d)) with (Z.to_nat (i - 1)) by lia. destruct (nth_lookup_or_length d (Z.to_nat (i - 1)) x00) as [->|?]; [done|lia]. }
    rewrite Hl. rewrite (bool_decide_ext (Some (byte_at buf (i - 1)) = Some CR) (byte_at buf (i - 1) = CR)) by (split; congruence).
    case_bool_decide; [|by apply Ht]. rewrite Ht by lia. rewrite removelast_firstn_len, take_take, length_take. f_equal. lia.
  - assert (i = 0) as -> by lia. cbn. by rewrite bool_decide_false.
Qed.

Lemma next_line_spec c d q :
  lined c d q -> conn_io_next_line (Some c) =
    match memchr d LF with None => (None, Some c) | Some i => (Some (line_text (ztake i d)), Some (c_set_line c (i + 1))) end.
Proof.
  intros [Hc Hm Hf]. unfold conn_io_next_line. rewrite Hf, bool_decide_true by done. cbn [orb negb].
  rewrite (cio_in_len _ _ _ Hc), (clean_take _ _ _ (cio_in _ _ _ Hc)). destruct (memchr d LF) as [i|] eqn:Hi; [|done]. apply memchr_range in Hi.
  by rewrite (text_of_buffer _ _ _ _ (cio_in _ _ _ Hc)) by lia.
Qed.

Lemma consume_line_spec c d q i :
  lined c d q -> 0 <= i < blen d ->
  exists c', conn_io_consume_line (Some (c_set_line c (i + 1))) = Some c' /\ lined c' (zdrop (i + 1) d) q /\ same_else c c'.
Proof.
  intros [Hc Hm Hf] Hi. unfold conn_io_consume_line. cbn [c_line_total c_set_line c_in_len].
  rewrite (proj2 (Z.eqb_neq _ 0)), (cio_in_len _ _ _ Hc), (proj2 (Z.ltb_ge _ _)) by lia. cbn [orb]. eexists. split; [done|]. split; [|done]. split; try done.
  change (c_set_line (slide (c_set_line c (i + 1)) (i + 1)) 0) with (c_set_line (slide c (i + 1)) 0). apply cio_set_line; [apply cio_slide; [done|lia|by left]|done|done].
Qed.

Lemma serve_lines_spec fuel c d q :
  lined c d q -> (length d < fuel)%nat ->
  exists c', serve_lines fuel c = ((lines d).1, c') /\ lined c' (lines d).2 q /\ same_else c c'.
Proof.
  revert c d. induction fuel as [|fuel IH]; intros c d Hl Hfuel; [lia|]. cbn [serve_lines]. rewrite (next_line_spec _ _ _ Hl), lines_eq.
  destruct (memchr d LF) as [i|] eqn:Hi; [|by exists c]. apply memchr_range in Hi. destruct (consume_line_spec c d q i Hl Hi) as (c1 & -> & Hl1 & Hs1).
  cbn [default from_option id]. destruct (IH c1 (zdrop (i + 1) d) Hl1) as (c2 & -> & Hl2 & Hs2); [rewrite length_drop; lia|].
  destruct (lines (zdrop (i + 1) d)) as [ls rest]. exists c2. split_and!; try done. by eapply same_else_trans.
Qed.

(** ** Reading lines *)

Section lines.
Context {B : Base64}.

Fixpoint pump_lines (sizes : list Z) (c : conn_io_t) (s : list byte) : conn_io_status_t * list (list byte) * conn_io_t * list byte :=
  match sizes with
  | [] => (CONN_IO_OK, [], c, s)
  | k :: sizes =>
    let n := read_size c s k in
    match conn_io_push (Some c) (Some (ztake n s)) n with
    | (CONN_IO_OK, Some c1) =>
      let '(ls, c2) := serve_lines (S (Z.to_nat (c_in_len c1))) c1 in
      let '(st, ls', c3, s3) := pump_lines sizes c2 (zdrop n s) in (st, ls ++ ls', c3, s3)
    | (st, c1) => (st, [], default c c1, zdrop n s)
    end
  end.

Lemma push_line_spec c d q s :
  lined c d q -> blen d + blen s <= AUTHD_IN_BUF_BYTES ->
  exists c1, lined c1 (d ++ s) q /\ conn_io_push (Some c) (Some s) (blen s) =
    if bool_decide (memchr (d ++ s) LF = None) && (AUTHD_LINE_MAX <=? blen (d ++ s)) then (CONN_IO_ERR_PROTOCOL, Some (c_fail c1)) else (CONN_IO_OK, Some c1).
Proof.
  intros [Hc Hm Hf] Hroom. exists (c_set_in c (poke (c_in_len c) s (c_in c)) (c_in_len c + blen s)).
  pose proof (cio_append c d q s Hc Hroom) as Hc1. set (c1 := c_set_in _ _ _) in *. split; [by split|].
  assert (Hnote : note_line_cap c1 =
    if bool_decide (memchr (d ++ s) LF = None) && (AUTHD_LINE_MAX <=? blen (d ++ s)) then (CONN_IO_ERR_PROTOCOL, c_fail c1) else (CONN_IO_OK, c1)).
  { unfold note_line_cap. rewrite (cio_in_len _ _ _ Hc1), (clean_take _ _ _ (cio_in _ _ _ Hc1)). destruct (memchr (d ++ s) LF); [done|].
    by rewrite bool_decide_true by done. }
  unfold conn_io_push. rewrite (bool_decide_false (Some s = None)) by done. cbn [andb default from_option id]. rewrite take_all_z, Hf by done.
  unfold is_ws. rewrite Hm. cbn [bool_decide decide_rel]. rewrite (bool_decide_false (_ = CONN_IO_MODE_WS)) by done.
  rewrite (clean_length _ _ _ (cio_in _ _ _ Hc)), (cio_in_len _ _ _ Hc), (proj2 (Z.ltb_ge _ _)) by lia. rewrite <-(cio_in_len _ _ _ Hc). fold c1.
  assert (Hwhich : (if blen s =? 0 then c else c1) = c1).
  { destruct (Z.eqb_spec (blen s) 0); [|done]. destruct s; [|done]. subst c1. cbn [length Z.of_nat]. rewrite Z.add_0_r, poke_nil by (rewrite (cio_in_len _ _ _ Hc); lia). by destruct c. }
  change (c_mode c1) with (c_mode c). rewrite Hm, bool_decide_true by done. destruct (blen s =? 0); [rewrite Hwhich|]; rewrite Hnote; by destruct (_ && _).
Qed.

(** The result [r] of reading from [s], [d] being buffered already. *)
Definition lines_read (q d : list byte) (fuel : nat) (s : list byte) (r : conn_io_status_t * list (list byte) * conn_io_t * list byte) : Prop :=
  let '(st, ls, c', s') := r in
  exists a rest, s = a ++ s' /\ lines (d ++ a) = (ls, rest) /\ st <> CONN_IO_ERR_OVERFLOW /\
    (c_failed c' = true -> AUTHD_LINE_MAX <= blen rest) /\
    (c_failed c' = false -> st = CONN_IO_OK /\ cio c' rest q /\ (blen s <= Z.of_nat fuel -> s' = [])).

Lemma pump_lines_spec sizes c d q s :
  lined c d q -> memchr d LF = None -> blen d < AUTHD_IN_BUF_BYTES -> lines_read q d (length sizes) s (pump_lines sizes c s).
Proof.
  revert c d s. induction sizes as [|k sizes IH]; intros c d s Hl Hd Hroom; pose proof Hl as [Hc Hm Hf].
  { exists [], d. rewrite app_nil_r, lines_eq, Hd. split_and!; try done; [congruence|]. intros _. split_and!; try done. intros H. destruct s; [done|cbn in H; lia]. }
  destruct (read_size_bounds c d q s k Hc Hroom) as (Hn0 & Hns & Hnr & Hn1). cbn [pump_lines length]. set (n := read_size c s k) in *. clearbody n.
  assert (Hchunk : blen (ztake n s) = n) by (rewrite length_take; lia). pose proof (take_drop (Z.to_nat n) s) as Hcut.
  assert (Hshort : blen s <= Z.of_nat (S (length sizes)) -> blen (zdrop n s) <= Z.of_nat (length sizes)).
  { rewrite length_drop. destruct s; [cbn; lia|]. specialize (Hn1 ltac:(done)). cbn [length]. lia. }
  set (chunk := ztake n s) in *. set (s1 := zdrop n s) in *. clearbody chunk s1. rewrite <-Hchunk.
  destruct (push_line_spec c d q chunk Hl ltac:(lia)) as (c1 & Hl1 & ->). destruct (_ && _) eqn:Hcap.
  - apply andb_true_iff in Hcap as [Hno%bool_decide_eq_true Hcap%Z.leb_le]. exists chunk, (d ++ chunk). rewrite lines_eq, Hno. by split_and!.
  - destruct (serve_lines_spec (S (Z.to_nat (c_in_len c1))) c1 (d ++ chunk) q Hl1) as (c2 & -> & Hl2 & _); [rewrite (cio_in_len _ _ _ (li_cio _ _ _ Hl1)); lia|].
    destruct (lines (d ++ chunk)) as [ls rest] eqn:Hls. cbn [fst snd] in *. destruct (lines_rest _ _ _ Hls) as (Hno & _ & Hsh).
    assert (Hr : blen rest < AUTHD_IN_BUF_BYTES).
    { rewrite length_app in Hsh. destruct ls; [|specialize (Hsh ltac:(done)); lia]. rewrite lines_eq in Hls.
      destruct (memchr (d ++ chunk) LF); [by destruct (lines _) as [? ?]|]. injection Hls as <-. rewrite bool_decide_true in Hcap by done.
      apply Z.leb_gt in Hcap. rewrite in_buf. unfold AUTHD_LINE_MAX in Hcap. lia. }
    specialize (IH c2 rest s1 Hl2 Hno Hr). destruct (pump_lines sizes c2 s1) as [[[st ls'] c3] s3].
    destruct IH as (a & rest' & Hs1 & Hl' & Hst & Hfail & Hgood). exists (chunk ++ a), rest'. split_and!; try done.
    + by rewrite <-app_assoc, <-Hs1.
    + by rewrite app_assoc, lines_app, Hls, Hl'.
    + intros Hf3. destruct (Hgood Hf3) as (? & ? & Hend). split_and!; try done. intros Hlen. apply Hend. apply Hshort, Hlen.
Qed.

(** No [AUTHD_LINE_MAX] bytes in a row without an LF. *)
Definition short_lines (s : list byte) : Prop := forall a t b, s = a ++ t ++ b -> memchr t LF = None -> blen t < AUTHD_LINE_MAX.

(** Whatever the sizes of the reads, a line connection delivers exactly the lines of the bytes it has read, each
    without its LF and a CR before it, and no read overflows the buffer.  It fails only when [AUTHD_LINE_MAX] bytes
    without an LF have been read; a stream with no such run is read to its end, the unterminated rest staying buffered. *)
Theorem conn_io_lines c s sizes :
  exists st ls c' s' a rest, pump_lines sizes (conn_start c CONN_IO_MODE_LINE false) s = (st, ls, c', s') /\ s = a ++ s' /\ lines a = (ls, rest) /\
    st <> CONN_IO_ERR_OVERFLOW /\ (c_failed c' = true -> AUTHD_LINE_MAX <= blen rest) /\
    (short_lines s -> c_failed c' = false) /\
    (c_failed c' = false -> st = CONN_IO_OK /\ ztake (c_in_len c') (c_in c') = rest /\ (blen s <= Z.of_nat (length sizes) -> s' = [])).
Proof.
  destruct (cio_start c CONN_IO_MODE_LINE false) as (Hc & Hm & Hf).
  pose proof (pump_lines_spec sizes _ [] [] s (Build_lined _ _ _ Hc Hm Hf) eq_refl ltac:(rewrite in_buf; cbn; lia)) as H.
  destruct (pump_lines _ _ _) as [[[st ls] c'] s']. destruct H as (a & rest & Hs & Hl & Hst & Hfail & Hgood). cbn [app] in Hl.
  exists st, ls, c', s', a, rest. split_and!; try done.
  - intros Hsh. destruct (c_failed c') eqn:Hf'; [|done]. destruct (lines_rest _ _ _ Hl) as (Hno & [k Hk] & _).
    specialize (Hsh k rest s'). rewrite app_assoc, <-Hk in Hsh. specialize (Hsh Hs Hno). specialize (Hfail eq_refl). lia.
  - intros Hf'. destruct (Hgood Hf') as (? & Hc' & ?). split_and!; try done. rewrite (cio_in_len _ _ _ Hc'). apply (clean_take _ _ _ (cio_in _ _ _ Hc')).
Qed.

(** ** The limit depends on the reads *)

Definition long_line : list byte := replicate 9000 x61 ++ [LF].

(** A line of 9000 bytes is delivered when its LF comes with the read that passes the limit, and refused when it does
    not; no read is larger than the event loop's 4096 bytes. *)
Lemma long_line_reads :
  (let '(st, ls, _, _) := pump_lines [4000; 4000; 4000] (conn_start conn_io_zero CONN_IO_MODE_LINE false) long_line in
    st = CONN_IO_OK /\ ls = [replicate 9000 x61]) /\
  (let '(st, ls, _, _) := pump_lines [4096; 4096; 4096] (conn_start conn_io_zero CONN_IO_MODE_LINE false) long_line in
    st = CONN_IO_ERR_PROTOCOL /\ ls = []).
Proof. split; vm_compute; auto. Qed.
End lines.
