(* ===== verification/ConnIoDemo.v ===== *)
(** * Connections on concrete bytes

    The delivery theorems applied: a raw stream, a proxied WebSocket connection
    with the handshake of RFC 6455, and replies to its client. *)

From S2P Require Import Prelude ProxyV2 Ws WsProps WsRoundtrip WsSink WsUpgrade WsUpgradeDemo ConnIo ConnIoProps ConnIoRun ConnIoWs ConnIoLines.

Definition demo_ops : list conn_op :=
  [OpPush rfc6455_request; OpQueue (label "hello"); OpSent 60; OpSent 200; OpNextFrame; OpSent 3; OpPush [x82; x81]; OpConsumeFrame; OpSent 20; OpSilence].

Lemma conn_io_wellformed_witness : cio_ok (fold_left conn_step demo_ops (conn_start conn_io_zero CONN_IO_MODE_WS false)).
Proof. apply (conn_io_wellformed conn_io_zero CONN_IO_MODE_WS false demo_ops). repeat constructor; cbn; lia. Defined.

(** Two frames and the start of a third. *)
Definition demo_stream : list byte := [x00; x00; x00; x02; x61; x62; x00; x00; x00; x01; x63; x00; x00; x01].

Lemma conn_io_delivers_witness :
  exists c' s' rest, pump (replicate 14 5) (conn_start conn_io_zero CONN_IO_MODE_FRAME false) demo_stream = (CONN_IO_OK, [[x61; x62]; [x63]], c', s') /\
    s' = [] /\ ztake (c_in_len c') (c_in c') = rest /\ rest = [x00; x00; x01].
Proof.
  destruct (conn_io_delivers conn_io_zero demo_stream (replicate 14 5)) as (st & fs & c' & s' & rest & Hp & Hparse & _ & Hgood); [cbn; lia|].
  assert (Hv : parse demo_stream = ([[x61; x62]; [x63]], [x00; x00; x01], false)) by (vm_compute; reflexivity).
  rewrite Hv in Hparse. injection Hparse as <- <- Hf. destruct (Hgood (eq_sym Hf)) as (-> & -> & Hb).
  exists c', [], [x00; x00; x01]. split; [exact Hp|]. split; [reflexivity|]. split; [exact Hb|reflexivity].
Defined.

Lemma conn_io_transfer_witness :
  exists bytes s r, send_all [(label "ab", replicate 6 2); (label "c", replicate 5 1)] (conn_start conn_io_zero CONN_IO_MODE_FRAME false) = (bytes, s) /\
    pump (replicate 11 4) (conn_start conn_io_zero CONN_IO_MODE_FRAME false) bytes = (CONN_IO_OK, [label "ab"; label "c"], r, []) /\ cio s [] [] /\ cio r [] [].
Proof.
  apply (conn_io_transfer conn_io_zero conn_io_zero [(label "ab", replicate 6 2); (label "c", replicate 5 1)] (replicate 11 4)).
  - repeat constructor; vm_compute; done.
  - vm_compute. done.
Defined.

(** A TCP over IPv4 preamble from 192.0.2.1. *)
Definition demo_preamble : list byte :=
  PROXY_V2_SIG ++ [x21; x11; x00; x0c; xc0; x00; x02; x01; xc6; x33; x64; x01; x04; xd2; x01; xbb].

Definition demo_ws : ws_t := default ws_init rfc6455_answer.2.

Lemma rfc6455_accepted : accepted ws_init rfc6455_request demo_ws.
Proof. split; [vm_compute; reflexivity|split; vm_compute; done|vm_compute; reflexivity]. Qed.

(** One protocol frame, split over two WebSocket messages. *)
Definition demo_msgs : list (list byte * list byte) :=
  [([x01; x02; x03; x04], [x00; x00; x00; x02]); ([x05; x06; x07; x08], [x61; x62])].
Definition demo_frames : list (list byte) :=
  [[x82; x84; x01; x02; x03; x04; x01; x02; x03; x06]; [x82; x82; x05; x06; x07; x08; x64; x64]].

Lemma demo_data : data_frames demo_msgs demo_frames.
Proof.
  repeat constructor; try (vm_compute; done).
  - exists (zeros 32), 32. vm_compute. done.
  - exists (zeros 32), 32. vm_compute. done.
Qed.

Lemma conn_io_ws_transparent_witness :
  exists st c s st' c' s',
    pump (replicate 300 7) (conn_start conn_io_zero CONN_IO_MODE_WS true) (demo_preamble ++ rfc6455_request ++ concat demo_frames) = (st, [label "ab"], c, s) /\
    pump (replicate 6 6) (conn_start conn_io_zero CONN_IO_MODE_FRAME false) (concat demo_msgs.*2) = (st', [label "ab"], c', s') /\
    conn_io_client_addr (Some c) = AuthdAddr 4 ([xc0; x00; x02; x01] ++ zeros 12).
Proof.
  destruct (conn_io_ws_transparent conn_io_zero conn_io_zero true demo_preamble rfc6455_request demo_ws demo_msgs demo_frames (replicate 300 7) (replicate 6 6))
    as (st & fs & c & s & st' & c' & s' & Hws & Hraw & Hf & _ & Hgood).
  - vm_compute. done.
  - apply rfc6455_accepted.
  - apply demo_data.
  - vm_compute. done.
  - vm_compute. done.
  - assert (Hv : exists r, pump (replicate 6 6) (conn_start conn_io_zero CONN_IO_MODE_FRAME false) (concat demo_msgs.*2) = (CONN_IO_OK, [label "ab"], r, []) /\ c_failed r = false)
      by (eexists; split; vm_compute; reflexivity).
    destruct Hv as (r & Hv & Hr). rewrite Hv in Hraw. injection Hraw as <- <- <- <-. rewrite Hr in Hf. destruct (Hgood Hf) as (_ & _ & _ & Ha).
    exists st, c, s, CONN_IO_OK, r, []. split; [exact Hws|]. split; [exact Hv|]. rewrite (Ha eq_refl). vm_compute. reflexivity.
Defined.

Lemma conn_io_ws_replies_witness :
  exists bytes c', send_all [(label "hello", replicate 20 3)] (conn_start conn_io_zero CONN_IO_MODE_WS false) = (bytes, c') /\ quiet c' [] /\
    client_takes 1 20000 bytes = Some ([[x00; x00; x00; x05] ++ label "hello"], []) /\
    (parse (wire_all [label "hello"])).1.1 = [label "hello"].
Proof.
  apply (conn_io_ws_replies (conn_start conn_io_zero CONN_IO_MODE_WS false) [] [(label "hello", replicate 20 3)] 20000).
  - apply quiet_start.
  - done.
  - repeat constructor; vm_compute; done.
  - vm_compute. done.
Defined.
