(* ===== verification/Base32.v ===== *)
(** * Crockford base32 ([apps/authd/base32.c])

    The encoder of recovery codes and the normaliser of what users type.  The
    encoder writes the big-endian value of its input in base 32; the normaliser
    accepts exactly the spellings of a canonical code. *)

From S2P Require Import Prelude.

Definition BASE32_CODE_BYTES : Z := 10.
Definition BASE32_CODE_CHARS : Z := 16.

Definition ALPHABET : list byte := label "0123456789ABCDEFGHJKMNPQRSTVWXYZ".

(** [for (i = from; i < 32; i++) if (ALPHABET[i] == c) return i; return -1]. *)
Fixpoint alphabet_index (fuel : nat) (i : Z) (c : byte) : Z :=
  match fuel with
  | O => -1
  | S fuel => if bool_decide (byte_at ALPHABET i = c) then i else alphabet_index fuel (i + 1) c
  end.

Definition sym_value (c : byte) : Z :=
  if (48 <=? bz c) && (bz c <=? 57) then bz c - 48 else
  let c := if (97 <=? bz c) && (bz c <=? 122) then u8 (bz c - 32) else c in
  if bool_decide (c = x4f) then 0 else
  if bool_decide (c = x49) || bool_decide (c = x4c) then 1 else
  alphabet_index 22 10 c.

(** The symbol at index [i]: five bits of a 16-bit window. *)
Definition symbol_at (inp : list byte) (n : Z) (i : Z) : byte :=
  let bit := i * 5 in
  let byte := bit / 8 in
  let shift := bit mod 8 in
  let w := Z.shiftl (bz (byte_at inp byte)) 8 in
  let w := if byte + 1 <? n then Z.lor w (bz (byte_at inp (byte + 1))) else w in
  byte_at ALPHABET (Z.land (Z.shiftr w (11 - shift)) 31).

Definition base32_encode (inp : option (list byte)) (n : Z) (out : option (list byte)) (cap : Z) : bool * option (list byte) :=
  match inp, out with
  | Some inp, Some o =>
    if n =? 0 then (false, out) else
    let symbols := u64 (u64 (n * 8) + 4) / 5 in
    if cap <? symbols + 1 then (false, out) else
    let o := poke 0 (map (fun i => symbol_at inp n (Z.of_nat i)) (seq 0 (Z.to_nat symbols))) o in
    (true, Some (poke symbols [x00] o))
  | _, _ => (false, out)
  end.

(** The loop of [base32_normalize] with the symbols written so far. *)
Fixpoint normalize_loop (inp : list byte) (acc : list byte) : option (list byte) :=
  match inp with
  | [] => if blen acc =? BASE32_CODE_CHARS then Some acc else None
  | c :: inp =>
    if bool_decide (c = x2d) then normalize_loop inp acc else
    let v := sym_value c in
    if (v <? 0) || (BASE32_CODE_CHARS <=? blen acc) then None else normalize_loop inp (acc ++ [byte_at ALPHABET v])
  end.

Definition base32_normalize (inp : option (list byte)) (in_len : Z) (out : option (list byte)) : bool * option (list byte) :=
  match out with
  | None => (false, None)
  | Some o =>
    let zeroed := poke 0 (zeros (BASE32_CODE_CHARS + 1)) o in
    match inp with
    | None => (false, Some zeroed)
    | Some inp =>
      match normalize_loop (ztake in_len inp) [] with
      | Some code => (true, Some (poke 0 code zeroed))
      | None => (false, Some zeroed)
      end
    end
  end.

(** ** The encoder is positional *)

(** The value of the input, padded with zero bits to a multiple of five. *)
Definition padded (inp : list byte) : Z := be_dec inp * 2 ^ (5 * ((8 * blen inp + 4) / 5) - 8 * blen inp).

(** The digits of [v] in base 32, most significant first. *)
Definition digit (symbols v i : Z) : Z := v / 32 ^ (symbols - 1 - i) mod 32.

Lemma window_bits a k : 0 <= k <= 11 -> Z.land (Z.shiftr (a mod 65536) k) 31 = Z.land (Z.shiftr a k) 31.
Proof.
  intros Hk. change 65536 with (2 ^ 16). rewrite <-Z.land_ones by lia. apply Z.bits_inj'. intros j Hj. change 31 with (Z.ones 5).
  rewrite !Z.land_spec, !Z.shiftr_spec, Z.land_spec, !Z.testbit_ones by lia.
  destruct (Z.ltb_spec j 5); [|by rewrite !andb_false_r]. replace (0 <=? j) with true by (symmetry; by apply Z.leb_le).
  rewrite !andb_true_r. replace (0 <=? j + k) with true by (symmetry; apply Z.leb_le; lia). replace (j + k <? 16) with true by (symmetry; apply Z.ltb_lt; lia).
  by rewrite !andb_true_r.
Qed.

Lemma byte_at_split (l : list byte) b : 0 <= b -> b + 1 < blen l -> l = ztake b l ++ [byte_at l b; byte_at l (b + 1)] ++ zdrop (b + 2) l.
Proof.
  intros H0 H1. rewrite <-(take_drop (Z.to_nat b) l) at 1. f_equal. unfold byte_at. rewrite (Z2Nat.inj_add b 1), (Z2Nat.inj_add b 2) by lia.
  set (k := Z.to_nat b) in *. assert (Hk : (k + 1 < length l)%nat) by lia. clearbody k. clear H0 H1 b. change (Z.to_nat 1) with 1%nat. change (Z.to_nat 2) with 2%nat.
  replace (k + 1)%nat with (S k) in * by lia. replace (k + 2)%nat with (S (S k)) by lia.
  assert (E1 : l !! k = Some (nth k l x00)) by (destruct (nth_lookup_or_length l k x00); [done|lia]).
  assert (E2 : l !! S k = Some (nth (S k) l x00)) by (destruct (nth_lookup_or_length l (S k) x00); [done|lia]).
  by rewrite (drop_S _ _ _ E1), (drop_S _ _ _ E2).
Qed.

(** The 16-bit window at byte [b], with a zero byte after the end. *)
Lemma window_value inp b :
  0 <= b < blen inp ->
  (if b + 1 <? blen inp then Z.lor (Z.shiftl (bz (byte_at inp b)) 8) (bz (byte_at inp (b + 1))) else Z.shiftl (bz (byte_at inp b)) 8) =
  be_dec inp * 256 / 256 ^ (blen inp - 1 - b) mod 65536.
Proof.
  intros Hb. set (L := inp ++ [x00]). assert (HL : be_dec L = be_dec inp * 256) by (unfold L; rewrite be_dec_app; change (256 ^ blen [x00]) with 256; change (be_dec [x00]) with 0; lia).
  assert (Hlen : blen L = blen inp + 1) by (unfold L; rewrite length_app; cbn; lia).
  assert (Hw : (if b + 1 <? blen inp then Z.lor (Z.shiftl (bz (byte_at inp b)) 8) (bz (byte_at inp (b + 1))) else Z.shiftl (bz (byte_at inp b)) 8) =
    be_dec [byte_at L b; byte_at L (b + 1)]).
  { assert (E0 : byte_at L b = byte_at inp b) by (unfold byte_at, L; rewrite app_nth1 by lia; done). rewrite E0.
    change (be_dec [byte_at inp b; byte_at L (b + 1)]) with (be_step (be_step 0 (byte_at inp b)) (byte_at L (b + 1))). unfold be_step. rewrite Z.shiftl_0_l, Z.lor_0_l.
    destruct (Z.ltb_spec (b + 1) (blen inp)); unfold byte_at, L; [by rewrite app_nth1 by lia|].
    rewrite app_nth2 by lia. replace (Z.to_nat (b + 1) - length inp)%nat with 0%nat by lia. cbn. by rewrite Z.lor_0_r. }
  rewrite Hw, <-HL. pose proof (byte_at_split L b ltac:(lia) ltac:(lia)) as Hs. set (W := [byte_at L b; byte_at L (b + 1)]) in *. set (R := zdrop (b + 2) L) in *.
  assert (HR : blen R = blen inp - 1 - b) by (unfold R; rewrite length_drop; lia). rewrite <-HR.
  assert (Hdec : be_dec L = (be_dec (ztake b L) * 65536 + be_dec W) * 256 ^ blen R + be_dec R).
  { rewrite Hs at 1. rewrite app_assoc, !be_dec_app. change (256 ^ blen W) with 65536. done. }
  rewrite Hdec. pose proof (be_dec_range R). pose proof (be_dec_range W) as HW. change (256 ^ blen W) with 65536 in HW.
  rewrite Z.div_add_l, (Z.div_small (be_dec R)), Z.add_0_r by lia. rewrite Z.add_comm, Z.mod_add, Z.mod_small by lia. done.
Qed.

Lemma scaled_div V a b e : 0 <= a -> 0 <= b -> 0 <= a + e -> 0 <= b + e -> V * 2 ^ a / 2 ^ (a + e) = V * 2 ^ b / 2 ^ (b + e).
Proof.
  intros. rewrite <-(Z.div_mul_cancel_r (V * 2 ^ a) (2 ^ (a + e)) (2 ^ b)), <-(Z.div_mul_cancel_r (V * 2 ^ b) (2 ^ (b + e)) (2 ^ a)) by (apply Z.pow_nonzero; lia).
  rewrite <-!Z.mul_assoc, <-!Z.pow_add_r by lia. replace (a + e + b) with (b + e + a) by lia. by rewrite (Z.add_comm a b).
Qed.

Definition symbols_of (n : Z) : Z := (8 * n + 4) / 5.

(** Every symbol is the digit of its position. *)
Lemma symbol_digit inp i :
  0 <= i < symbols_of (blen inp) -> symbol_at inp (blen inp) i = byte_at ALPHABET (digit (symbols_of (blen inp)) (padded inp) i).
Proof.
  intros Hi. unfold symbol_at. assert (Hb : 0 <= i * 5 / 8 < blen inp).
  { unfold symbols_of in Hi. split; [apply Z.div_pos; lia|]. apply Z.div_lt_upper_bound; [lia|]. pose proof (Z.mul_div_le (8 * blen inp + 4) 5). lia. }
  rewrite window_value by done. set (b := i * 5 / 8) in *. assert (Hsh : 0 <= i * 5 mod 8 < 8) by (apply Z.mod_pos_bound; lia).
  rewrite window_bits by lia. f_equal. change 31 with (Z.ones 5). rewrite Z.land_ones, Z.shiftr_div_pow2 by lia. unfold digit, padded.
  fold (symbols_of (blen inp)). f_equal. set (s := symbols_of (blen inp)) in *. set (V := be_dec inp). set (n := blen inp) in *.
  assert (Hpad : 0 <= 5 * s - 8 * n) by (unfold s, symbols_of; pose proof (Z.mul_succ_div_gt (8 * n + 4) 5); lia).
  pose proof (Z.div_mod (i * 5) 8 ltac:(lia)) as Hdm. fold b in Hdm. set (sh := i * 5 mod 8) in *.
  change 256 with (2 ^ 8). change 32 with (2 ^ 5). rewrite <-!Z.pow_mul_r by lia. rewrite Z.div_div by (try apply Z.pow_nonzero; try apply Z.pow_pos_nonneg; lia).
  rewrite <-Z.pow_add_r by lia. set (pad := 5 * s - 8 * n) in *. replace (8 * (n - 1 - b) + (11 - sh)) with (8 + (8 * n - 5 - i * 5)) by lia.
  replace (5 * (s - 1 - i)) with (pad + (8 * n - 5 - i * 5)) by lia. apply scaled_div; lia.
Qed.

Definition code_of (inp : list byte) : list byte :=
  map (fun i => byte_at ALPHABET (digit (symbols_of (blen inp)) (padded inp) (Z.of_nat i))) (seq 0 (Z.to_nat (symbols_of (blen inp)))).

Lemma encode_value inp o cap :
  0 < blen inp < 2 ^ 60 -> symbols_of (blen inp) < cap -> cap <= blen o ->
  base32_encode (Some inp) (blen inp) (Some o) cap = (true, Some (poke 0 (code_of inp ++ [x00]) o)).
Proof.
  intros Hn Hc Ho. unfold base32_encode. rewrite (proj2 (Z.eqb_neq _ 0)) by lia. assert (Hs : u64 (u64 (blen inp * 8) + 4) / 5 = symbols_of (blen inp)).
  { unfold symbols_of. rewrite !u64_small by (rewrite ?u64_small; unfold UINT64_MAX; lia). f_equal. lia. }
  rewrite Hs. assert (0 <= symbols_of (blen inp)) by (unfold symbols_of; apply Z.div_pos; lia). rewrite (proj2 (Z.ltb_ge _ _)) by lia.
  replace (map _ (seq 0 _)) with (code_of inp); [by rewrite poke_append by (unfold code_of; rewrite length_map, length_seq; lia)|].
  unfold code_of. apply map_ext_in. intros i Hi%in_seq. symmetry. apply symbol_digit. lia.
Qed.


(** ** Reading a code *)

Definition read_digits (l : list byte) : Z := fold_left (fun a c => a * 32 + sym_value c) l 0.

Definition all_bytes : list byte := map (fun i => u8 (Z.of_nat i)) (seq 0 256).

Lemma all_bytes_spec b : b ∈ all_bytes.
Proof. apply list_elem_of_fmap. exists (Z.to_nat (bz b)). pose proof (bz_range b). rewrite Z2Nat.id, u8_bz by lia. split; [done|]. apply elem_of_seq. lia. Qed.

(** A property of bytes, by trying all of them. *)
Lemma byte_forall (p : byte -> bool) : forallb p all_bytes = true -> forall b, p b = true.
Proof. intros H b. rewrite forallb_forall in H. apply H. rewrite <-list_elem_of_In. apply all_bytes_spec. Qed.

Lemma value_of_symbol v : 0 <= v < 32 -> sym_value (byte_at ALPHABET v) = v.
Proof.
  intros Hv. assert (H : forallb (fun i => sym_value (byte_at ALPHABET (Z.of_nat i)) =? Z.of_nat i) (seq 0 32) = true) by (vm_compute; reflexivity).
  rewrite forallb_forall in H. specialize (H (Z.to_nat v)). rewrite in_seq, Z2Nat.id, Z.eqb_eq in H by lia. apply H. lia.
Qed.

Lemma digit_range s v i : 0 <= digit s v i < 32.
Proof. unfold digit. apply Z.mod_pos_bound. lia. Qed.

Lemma read_digits_value (s : nat) (v : Z) (k : nat) :
  (k <= s)%nat -> read_digits (map (fun i => byte_at ALPHABET (digit (Z.of_nat s) v (Z.of_nat i))) (seq 0 k)) = v / 32 ^ (Z.of_nat s - Z.of_nat k) mod 32 ^ Z.of_nat k.
Proof.
  intros Hk. induction k as [|k IH]; [by rewrite Z.mod_1_r|]. rewrite seq_S, map_app. unfold read_digits in *. rewrite fold_left_app, IH by lia. cbn [map fold_left].
  rewrite value_of_symbol by apply digit_range. unfold digit. cbn [Nat.add].
  replace (Z.of_nat s - Z.of_nat (S k)) with (Z.of_nat s - 1 - Z.of_nat k) by lia. set (e := Z.of_nat s - 1 - Z.of_nat k).
  replace (Z.of_nat s - Z.of_nat k) with (e + 1) by lia. rewrite Z.pow_add_r, <-Z.div_div by (try apply Z.pow_nonzero; lia). set (w := v / 32 ^ e).
  replace (Z.of_nat (S k)) with (1 + Z.of_nat k) by lia. rewrite Z.pow_add_r by lia. change (32 ^ 1) with 32.
  rewrite Z.rem_mul_r by (try apply Z.pow_pos_nonneg; lia). lia.
Qed.

Lemma padded_range inp : 0 <= padded inp < 32 ^ symbols_of (blen inp).
Proof.
  unfold padded, symbols_of. set (s := (8 * blen inp + 4) / 5). pose proof (be_dec_range inp) as Hr.
  assert (Hpad : 0 <= 5 * s - 8 * blen inp) by (unfold s; pose proof (Z.mul_succ_div_gt (8 * blen inp + 4) 5); lia).
  assert (Hs : 32 ^ s = 256 ^ blen inp * 2 ^ (5 * s - 8 * blen inp)).
  { change 32 with (2 ^ 5). change 256 with (2 ^ 8). rewrite <-!Z.pow_mul_r, <-Z.pow_add_r by lia. f_equal. lia. }
  rewrite Hs. pose proof (Z.pow_pos_nonneg 2 (5 * s - 8 * blen inp)). nia.
Qed.

Lemma read_code inp : read_digits (code_of inp) = padded inp.
Proof.
  unfold code_of. pose proof (padded_range inp) as Hr. assert (H0 : 0 <= symbols_of (blen inp)) by (unfold symbols_of; apply Z.div_pos; lia).
  set (s := symbols_of (blen inp)) in *. pose proof (read_digits_value (Z.to_nat s) (padded inp) (Z.to_nat s) (le_n _)) as H.
  rewrite Z2Nat.id in H by lia. rewrite H, Z.sub_diag, Z.pow_0_r, Z.div_1_r. by apply Z.mod_small.
Qed.

Lemma length_code inp : blen (code_of inp) = symbols_of (blen inp).
Proof. unfold code_of. rewrite length_map, length_seq. unfold symbols_of. pose proof (Z.div_pos (8 * blen inp + 4) 5). lia. Qed.

Lemma code_symbols inp : Forall (fun a => a ∈ ALPHABET) (code_of inp).
Proof.
  unfold code_of. apply List.Forall_map, Forall_forall. intros i _. unfold byte_at. apply list_elem_of_In, nth_In.
  pose proof (digit_range (symbols_of (blen inp)) (padded inp) (Z.of_nat i)). change (length ALPHABET) with 32%nat. lia.
Qed.

(** Encoding fills the buffer with the base-32 digits, most significant first, of the input read as a big-endian
    number padded with zero bits, and a NUL; reading the symbols back gives that number, so inputs of one length
    with the same code are equal. *)
Theorem base32_positional inp inp' o cap :
  0 < blen inp < 2 ^ 60 -> symbols_of (blen inp) < cap -> cap <= blen o ->
  base32_encode (Some inp) (blen inp) (Some o) cap = (true, Some (poke 0 (code_of inp ++ [x00]) o)) /\
  blen (code_of inp) = symbols_of (blen inp) /\ Forall (fun a => a ∈ ALPHABET) (code_of inp) /\ read_digits (code_of inp) = padded inp /\
  (length inp' = length inp -> code_of inp' = code_of inp -> inp' = inp).
Proof.
  intros Hn Hc Ho. split_and!; [by apply encode_value|apply length_code|apply code_symbols|apply read_code|]. intros Hl He.
  apply (f_equal read_digits) in He. rewrite !read_code in He. unfold padded in He. rewrite Hl in He. apply Z.mul_reg_r in He; [by apply be_dec_inj|].
  apply Z.pow_nonzero; [lia|]. pose proof (Z.mul_succ_div_gt (8 * blen inp + 4) 5). lia.
Qed.

(** ** What users type *)

(** The characters accepted for a symbol. *)
Definition spellings (a : byte) : list byte :=
  [a] ++ (if (65 <=? bz a) && (bz a <=? 90) then [u8 (bz a + 32)] else []) ++
  (if bool_decide (a = x30) then [x4f; x6f] else []) ++ (if bool_decide (a = x31) then [x49; x69; x4c; x6c] else []).

Definition spells (c a : byte) : Prop := a ∈ ALPHABET /\ c ∈ spellings a.

Definition value_spelled (c : byte) : bool :=
  (sym_value c <? 0) || bool_decide (byte_at ALPHABET (sym_value c) ∈ ALPHABET) && bool_decide (c ∈ spellings (byte_at ALPHABET (sym_value c))).
Definition spelled_value (a : byte) : bool := forallb (fun c => (0 <=? sym_value c) && bool_decide (a = byte_at ALPHABET (sym_value c))) (spellings a).

Lemma value_spelled_all c : value_spelled c = true.
Proof. apply byte_forall. vm_compute. reflexivity. Qed.

Lemma spelled_value_all : forallb spelled_value ALPHABET = true.
Proof. vm_compute. reflexivity. Qed.

Lemma sym_value_spells c a : spells c a <-> 0 <= sym_value c /\ a = byte_at ALPHABET (sym_value c).
Proof.
  split.
  - intros [Ha Hc]. pose proof (proj1 (forallb_forall _ _) spelled_value_all a (proj1 (list_elem_of_In _ _) Ha)) as H.
    pose proof (proj1 (forallb_forall _ _) H c (proj1 (list_elem_of_In _ _) Hc)) as Hv. apply andb_true_iff in Hv as [H1 H2].
    apply Z.leb_le in H1. apply bool_decide_eq_true in H2. exact (conj H1 H2).
  - intros [H0 ->]. pose proof (value_spelled_all c) as H. apply orb_true_iff in H as [H|H]; [apply Z.ltb_lt in H; lia|].
    apply andb_true_iff in H as [H1 H2]. apply bool_decide_eq_true in H1, H2. exact (conj H1 H2).
Qed.

Definition is_hyphen (c : byte) : bool := bool_decide (c = x2d).

(** The loop accepts exactly the spellings of sixteen symbols. *)
Lemma normalize_loop_spec typed acc code :
  blen acc <= BASE32_CODE_CHARS ->
  normalize_loop typed acc = Some code <->
  exists rest, code = acc ++ rest /\ blen code = BASE32_CODE_CHARS /\ Forall2 spells (filter (fun c => is_hyphen c = false) typed) rest.
Proof.
  revert acc. induction typed as [|c typed IH]; intros acc Hacc; cbn [normalize_loop].
  - split.
    + destruct (Z.eqb_spec (blen acc) BASE32_CODE_CHARS); [|done]. intros [= <-]. exists []. rewrite app_nil_r. done.
    + intros (rest & -> & Hl & Hf). apply Forall2_nil_inv_l in Hf as ->. rewrite app_nil_r in *. by rewrite (proj2 (Z.eqb_eq _ _)).
  - rewrite filter_cons. change (bool_decide (c = x2d)) with (is_hyphen c). destruct (decide (is_hyphen c = false)) as [Hh|Hh];
      [rewrite Hh|apply not_false_is_true in Hh; rewrite Hh; by apply IH].
    destruct ((sym_value c <? 0) || _) eqn:Hbad.
    + split; [done|]. intros (rest & -> & Hl & Hf). apply Forall2_cons_inv_l in Hf as (a & rest' & Hs & _ & ->). exfalso.
      apply sym_value_spells in Hs as [Hv _]. rewrite length_app in Hl. cbn [length] in Hl. apply orb_true_iff in Hbad as [?%Z.ltb_lt|?%Z.leb_le]; lia.
    + apply orb_false_iff in Hbad as [Hv%Z.ltb_ge Hlen%Z.leb_gt]. rewrite IH by (rewrite length_app; cbn [length]; lia). split.
      * intros (rest & -> & Hl & Hf). exists (byte_at ALPHABET (sym_value c) :: rest). rewrite <-app_assoc in *. split_and!; try done.
        constructor; [|done]. by apply sym_value_spells.
      * intros (rest & -> & Hl & Hf). apply Forall2_cons_inv_l in Hf as (a & rest' & Hs & Hf & ->). apply sym_value_spells in Hs as [_ ->].
        exists rest'. rewrite <-app_assoc. done.
Qed.

Lemma normalize_zeroes o : blen o = BASE32_CODE_CHARS + 1 ->
  poke 0 (zeros (BASE32_CODE_CHARS + 1)) o = zeros (BASE32_CODE_CHARS + 1).
Proof. intros Ho. apply poke_0_full. unfold zeros. rewrite length_replicate. lia. Qed.

Lemma poke_code x : blen x = BASE32_CODE_CHARS -> poke 0 x (zeros (BASE32_CODE_CHARS + 1)) = x ++ [x00].
Proof. intros Hx. rewrite poke_0. f_equal. unfold BASE32_CODE_CHARS in *. by replace (length x) with 16%nat by lia. Qed.

Lemma normalize_iff typed o code : blen o = BASE32_CODE_CHARS + 1 -> blen code = BASE32_CODE_CHARS ->
  base32_normalize (Some typed) (blen typed) (Some o) = (true, Some (code ++ [x00])) <->
  Forall2 spells (filter (fun c => is_hyphen c = false) typed) code.
Proof.
  intros Ho Hc. unfold base32_normalize. rewrite normalize_zeroes, take_all_z by done.
  pose proof (normalize_loop_spec typed [] code ltac:(done)) as Hl. cbn [app] in Hl. split.
  - destruct (normalize_loop typed []) as [code'|] eqn:Hn; [|done].
    apply normalize_loop_spec in Hn as (rest & -> & Hl' & Hf); [|done]. cbn [app] in *.
    rewrite poke_code by done. intros [= He]. by apply app_inj_tail in He as [<- _].
  - intros Hf. rewrite (proj2 Hl) by (by exists code). by rewrite poke_code.
Qed.

(** A success names the code that was spelled. *)
Lemma normalize_inv typed o r : blen o = BASE32_CODE_CHARS + 1 ->
  base32_normalize (Some typed) (blen typed) (Some o) = r ->
  match r with
  | (true, out) => exists code, blen code = BASE32_CODE_CHARS /\ out = Some (code ++ [x00]) /\
                     Forall2 spells (filter (fun c => is_hyphen c = false) typed) code
  | (false, _) => forall code, blen code = BASE32_CODE_CHARS -> ~ Forall2 spells (filter (fun c => is_hyphen c = false) typed) code
  end.
Proof.
  intros Ho <-. destruct (base32_normalize _ _ _) as [[] out] eqn:E.
  - unfold base32_normalize in E. rewrite normalize_zeroes, take_all_z in E by done.
    destruct (normalize_loop typed []) as [code|] eqn:Hn; [|done]. injection E as <-.
    apply normalize_loop_spec in Hn as (rest & -> & Hl & Hf); [|done]. exists rest. by rewrite poke_code.
  - intros code Hc Hf. apply (normalize_iff typed o) in Hf; [|done..]. congruence.
Qed.

(** Normalising succeeds exactly when what was typed, apart from hyphens, spells sixteen symbols: digits, letters in
    either case, O for 0 and I or L for 1; the result is the canonical code with its NUL.  Otherwise the output is all
    zero.  Every spelling of the code made from ten bytes gives that code. *)
Theorem base32_normalize_exact typed o raw :
  blen o = BASE32_CODE_CHARS + 1 ->
  (forall code, blen code = BASE32_CODE_CHARS ->
    base32_normalize (Some typed) (blen typed) (Some o) = (true, Some (code ++ [x00])) <-> Forall2 spells (filter (fun c => is_hyphen c = false) typed) code) /\
  ((base32_normalize (Some typed) (blen typed) (Some o)).1 = false -> base32_normalize (Some typed) (blen typed) (Some o) = (false, Some (zeros (BASE32_CODE_CHARS + 1)))) /\
  (blen raw = BASE32_CODE_BYTES -> Forall2 spells (filter (fun c => is_hyphen c = false) typed) (code_of raw) ->
    base32_normalize (Some typed) (blen typed) (Some o) = (true, Some (code_of raw ++ [x00]))).
Proof.
  intros Ho. split_and!; [intros; by apply normalize_iff| |].
  - unfold base32_normalize. rewrite normalize_zeroes by done. by destruct (normalize_loop _ _).
  - intros Hraw Hf. apply normalize_iff; [done| |done]. rewrite length_code, Hraw. done.
Qed.

Lemma base32_positional_witness :
  base32_encode (Some (label "0123456789")) 10 (Some (zeros 17)) 17 = (true, Some (label "60RK4CSM6MV3EE1S" ++ [x00])).
Proof. destruct (base32_positional (label "0123456789") [] (zeros 17) 17) as [H _]; [done|done|done|]. etransitivity; [exact H|vm_compute; reflexivity]. Defined.

Lemma base32_normalize_exact_witness :
  base32_normalize (Some (label "6ork-4CSM-6MV3-EELS")) 19 (Some (zeros 17)) = (true, Some (label "60RK4CSM6MV3EE1S" ++ [x00])).
Proof.
  destruct (base32_normalize_exact (label "6ork-4CSM-6MV3-EELS") (zeros 17) []) as [H _]; [done|].
  apply (H (label "60RK4CSM6MV3EE1S")); [done|]. vm_compute filter. repeat constructor; vm_compute; auto 10 using list_elem_of_here, list_elem_of_further.
Defined.
