(* ===== verification/StoreDb.v ===== *)
(** * The tables of the account store and the statements that write them

    [src/apps/authd/store/schema.sql.h] declares the tables; the SQL text of
    [store.c] reads and writes them.  A table is the list of its rows; a row is
    a record with the schema's columns, a nullable column an [option].  TEXT
    and BLOB are byte strings of any length, so that the length checks of the
    C code have something to check.

    A writing statement is a function from the database to [applied]: the new
    database with the number of rows [sqlite3_changes] reports, or the refusal
    of a constraint of the schema (PRIMARY KEY, UNIQUE, CHECK, REFERENCES and
    the partial index [one_active_key]), which leaves the database as it was.

    What SQLite decides itself is a parameter: the order in which an unordered
    query visits rows, and the rowid it draws when the largest one is taken. *)

From S2P Require Import Prelude.

(** ** Rows *)

Abbreviation text := (list byte).
Abbreviation blob := (list byte).

Record user_row := UserRow {
  u_id : blob; u_role : text; u_status : text; u_created_at : Z;
  u_disabled_at : option Z; u_disabled_reason : option blob;
  u_fail_count : Z; u_locked_until : Z }.

Record device_row := DeviceRow {
  d_handle : blob; d_user : blob; d_label : option blob; d_status : text;
  d_enrolled_at : Z; d_enrolled_via : text; d_enrolled_by : text;
  d_revoked_at : option Z; d_revoked_by : option text; d_revoked_reason : option blob;
  d_last_seen : option Z }.

Record key_row := KeyRow {
  k_id : Z; k_handle : blob; k_pk : blob; k_fp : blob; k_status : text;
  k_valid_from : Z; k_valid_to : option Z; k_superseded_by : option blob }.

Record code_row := CodeRow {
  c_hash : blob; c_user : blob; c_handle : blob; c_hsid : option blob;
  c_state : blob; c_issued_at : Z; c_expires_at : Z; c_used_at : option Z }.

Record token_row := TokenRow {
  t_hash : blob; t_user : blob; t_handle : blob; t_hsid : option blob;
  t_issued_at : Z; t_expires_at : Z; t_idle_expires_at : Z; t_verified_at : option Z }.

Record recovery_row := RecoveryRow {
  r_id : Z; r_user : blob; r_pwhash : option text; r_issued_at : Z;
  r_used_at : option Z; r_used_from : option text }.

Record ticket_row := TicketRow {
  e_hash : blob; e_user : blob; e_issued_at : Z; e_expires_at : Z; e_used_at : option Z }.

Record audit_row := AuditRow {
  a_seq : Z; a_at : Z; a_event : text; a_user : option blob; a_handle : option blob;
  a_detail : text; a_prev_mac : blob; a_mac : blob }.

Record db := Db {
  meta : list (text * blob);
  users : list user_row;
  devices : list device_row;
  device_keys : list key_row;
  login_codes : list code_row;
  tokens : list token_row;
  recovery_codes : list recovery_row;
  enroll_tickets : list ticket_row;
  audit : list audit_row }.

(** The database right after [STORE_SCHEMA_SQL] created the tables. *)
Definition empty_db : db := Db [] [] [] [] [] [] [] [] [].

Definition with_meta l d := Db l (users d) (devices d) (device_keys d) (login_codes d) (tokens d) (recovery_codes d) (enroll_tickets d) (audit d).
Definition with_users l d := Db (meta d) l (devices d) (device_keys d) (login_codes d) (tokens d) (recovery_codes d) (enroll_tickets d) (audit d).
Definition with_devices l d := Db (meta d) (users d) l (device_keys d) (login_codes d) (tokens d) (recovery_codes d) (enroll_tickets d) (audit d).
Definition with_keys l d := Db (meta d) (users d) (devices d) l (login_codes d) (tokens d) (recovery_codes d) (enroll_tickets d) (audit d).
Definition with_codes l d := Db (meta d) (users d) (devices d) (device_keys d) l (tokens d) (recovery_codes d) (enroll_tickets d) (audit d).
Definition with_tokens l d := Db (meta d) (users d) (devices d) (device_keys d) (login_codes d) l (recovery_codes d) (enroll_tickets d) (audit d).
Definition with_recovery l d := Db (meta d) (users d) (devices d) (device_keys d) (login_codes d) (tokens d) l (enroll_tickets d) (audit d).
Definition with_tickets l d := Db (meta d) (users d) (devices d) (device_keys d) (login_codes d) (tokens d) (recovery_codes d) l (audit d).
Definition with_audit l d := Db (meta d) (users d) (devices d) (device_keys d) (login_codes d) (tokens d) (recovery_codes d) (enroll_tickets d) l.

(** The values of the CHECKed TEXT columns. *)
Definition ACTIVE : text := label "active".
Definition DISABLED : text := label "disabled".
Definition REVOKED : text := label "revoked".
Definition SUPERSEDED : text := label "superseded".
Definition OPERATOR : text := label "operator".
Definition USER : text := label "user".

(** ** What the engine decides *)

Class Engine := {
  (** the order in which a query without ORDER BY visits the rows it selects *)
  scan : forall {A}, list A -> list A;
  (** the rowid drawn when the largest one in use is the largest there is *)
  spare_rowid : list Z -> option Z }.

Class EngineLaw (EN : Engine) := {
  scan_perm : forall A (l : list A), scan l ≡ₚ l;
  spare_fresh : forall l i, spare_rowid l = Some i -> i ∉ l }.

(** ** Statements *)

Inductive applied :=
| Applied (d : db) (changes : Z)
| Constraint                       (* SQLITE_CONSTRAINT *)
| Full.                            (* SQLITE_FULL: no rowid left *)

Abbreviation statement := (db -> applied).

Section rows.
Context {A : Type} (P : A -> Prop) `{!forall a, Decision (P a)}.

(** [UPDATE t SET f WHERE P] and [DELETE FROM t WHERE P] *)
Definition set_where (f : A -> A) (l : list A) : list A :=
  (fun a => if decide (P a) then f a else a) <$> l.
Definition drop_where (l : list A) : list A := filter (fun a => ~ P a) l.
Definition count_where (l : list A) : Z := Z.of_nat (length (filter P l)).

End rows.

Definition INT64_MAX : Z := 2 ^ 63 - 1.

(** The rowid of a new row: one more than the largest in use. *)
Definition rowid `{Engine} (used : list Z) : option Z :=
  match used with
  | [] => Some 1
  | i :: more => let m := foldr Z.max i more in
               if m <? INT64_MAX then Some (m + 1) else spare_rowid used
  end.

(** *** users *)

Definition insert_user (id : blob) (role : text) (now : Z) : statement := fun d =>
  if decide (id ∈ u_id <$> users d) then Constraint
  else if decide (role ∈ [OPERATOR; USER]) then
    Applied (with_users (users d ++ [UserRow id role ACTIVE now None None 0 0]) d) 1
  else Constraint.

Definition set_status (status : text) (at_ : option Z) (reason : option blob) (u : user_row) : user_row :=
  UserRow (u_id u) (u_role u) status (u_created_at u) at_ reason (u_fail_count u) (u_locked_until u).

Definition update_user_status (id : blob) (status : text) (at_ : option Z) (reason : option blob) : statement := fun d =>
  if decide (status ∈ [ACTIVE; DISABLED]) then
    Applied (with_users (set_where (fun u => u_id u = id) (set_status status at_ reason) (users d)) d)
            (count_where (fun u => u_id u = id) (users d))
  else Constraint.

Definition set_recovery (fails until : Z) (u : user_row) : user_row :=
  UserRow (u_id u) (u_role u) (u_status u) (u_created_at u) (u_disabled_at u) (u_disabled_reason u) fails until.

Definition update_recovery (id : blob) (f : user_row -> Z * Z) : statement := fun d =>
  Applied (with_users (set_where (fun u => u_id u = id) (fun u => set_recovery (f u).1 (f u).2 u) (users d)) d)
          (count_where (fun u => u_id u = id) (users d)).

(** [SET recovery_fail_count=0, recovery_locked_until=0] *)
Definition clear_recovery (id : blob) : statement := update_recovery id (fun _ => (0, 0)).
(** [SET recovery_fail_count=recovery_fail_count+1] *)
Definition bump_failures (id : blob) : statement :=
  update_recovery id (fun u => (u_fail_count u + 1, u_locked_until u)).
(** [SET recovery_locked_until=?2, recovery_fail_count=0] *)
Definition lock_recovery (id : blob) (until : Z) : statement := update_recovery id (fun _ => (0, until)).

(** *** devices and their keys *)

Definition insert_device (handle user : blob) (lbl : option blob) (now : Z) (via by_ : text) : statement := fun d =>
  if decide (handle ∈ d_handle <$> devices d) then Constraint
  else if decide (user ∈ u_id <$> users d) then
    Applied (with_devices (devices d ++ [DeviceRow handle user lbl ACTIVE now via by_ None None None None]) d) 1
  else Constraint.

Definition revoke_row (now : Z) (by_ : text) (reason : option blob) (v : device_row) : device_row :=
  DeviceRow (d_handle v) (d_user v) (d_label v) REVOKED (d_enrolled_at v) (d_enrolled_via v) (d_enrolled_by v)
            (Some now) (Some by_) reason (d_last_seen v).

Definition update_device_revoked (handle : blob) (now : Z) (by_ : text) (reason : option blob) : statement := fun d =>
  Applied (with_devices (set_where (fun v => d_handle v = handle) (revoke_row now by_ reason) (devices d)) d)
          (count_where (fun v => d_handle v = handle) (devices d)).

Definition seen_row (now : Z) (v : device_row) : device_row :=
  DeviceRow (d_handle v) (d_user v) (d_label v) (d_status v) (d_enrolled_at v) (d_enrolled_via v) (d_enrolled_by v)
            (d_revoked_at v) (d_revoked_by v) (d_revoked_reason v) (Some now).

Definition update_last_seen (handle : blob) (now : Z) : statement := fun d =>
  Applied (with_devices (set_where (fun v => d_handle v = handle) (seen_row now) (devices d)) d)
          (count_where (fun v => d_handle v = handle) (devices d)).

Definition active_keys (handle : blob) (d : db) : list key_row :=
  filter (fun k => k_handle k = handle /\ k_status k = ACTIVE) (device_keys d).

Definition insert_key `{Engine} (handle pk fp : blob) (now : Z) : statement := fun d =>
  if decide (handle ∉ d_handle <$> devices d) then Constraint
  else if decide (pk ∈ k_pk <$> device_keys d) then Constraint
  else if decide (fp ∈ k_fp <$> device_keys d) then Constraint
  else if decide (active_keys handle d <> []) then Constraint
  else match rowid (k_id <$> device_keys d) with
       | Some i => Applied (with_keys (device_keys d ++ [KeyRow i handle pk fp ACTIVE now None None]) d) 1
       | None => Full
       end.

Definition retire_row (status : text) (now : Z) (hsid : key_row -> option blob) (k : key_row) : key_row :=
  KeyRow (k_id k) (k_handle k) (k_pk k) (k_fp k) status (k_valid_from k) (Some now) (hsid k).

Definition update_key_superseded (key_id now : Z) (hsid : option blob) : statement := fun d =>
  Applied (with_keys (set_where (fun k => k_id k = key_id) (retire_row SUPERSEDED now (fun _ => hsid)) (device_keys d)) d)
          (count_where (fun k => k_id k = key_id) (device_keys d)).

Definition update_keys_revoked (handle : blob) (now : Z) : statement := fun d =>
  Applied (with_keys (set_where (fun k => k_handle k = handle /\ k_status k = ACTIVE)
                                (retire_row REVOKED now k_superseded_by) (device_keys d)) d)
          (count_where (fun k => k_handle k = handle /\ k_status k = ACTIVE) (device_keys d)).

(** *** tokens *)

Definition insert_token (hash user handle : blob) (hsid : option blob) (issued expires idle : Z) : statement := fun d =>
  if decide (hash ∈ t_hash <$> tokens d) then Constraint
  else Applied (with_tokens (tokens d ++ [TokenRow hash user handle hsid issued expires idle None]) d) 1.

Definition verified_row (now idle : Z) (t : token_row) : token_row :=
  TokenRow (t_hash t) (t_user t) (t_handle t) (t_hsid t) (t_issued_at t) (t_expires_at t) idle (Some now).

Definition update_token_verified (hash : blob) (now idle : Z) : statement := fun d =>
  Applied (with_tokens (set_where (fun t => t_hash t = hash) (verified_row now idle) (tokens d)) d)
          (count_where (fun t => t_hash t = hash) (tokens d)).

Definition delete_tokens (P : token_row -> Prop) `{!forall t, Decision (P t)} : statement := fun d =>
  Applied (with_tokens (drop_where P (tokens d)) d) (count_where P (tokens d)).

(** *** login codes *)

Definition insert_login_code (hash user handle : blob) (hsid : option blob) (state : blob) (issued expires : Z) : statement := fun d =>
  if decide (hash ∈ c_hash <$> login_codes d) then Constraint
  else Applied (with_codes (login_codes d ++ [CodeRow hash user handle hsid state issued expires None]) d) 1.

Definition used_code (now : Z) (c : code_row) : code_row :=
  CodeRow (c_hash c) (c_user c) (c_handle c) (c_hsid c) (c_state c) (c_issued_at c) (c_expires_at c) (Some now).

Definition update_code_used (hash : blob) (now : Z) : statement := fun d =>
  Applied (with_codes (set_where (fun c => c_hash c = hash) (used_code now) (login_codes d)) d)
          (count_where (fun c => c_hash c = hash) (login_codes d)).

(** *** recovery codes and tickets *)

Definition used_recovery (now : Z) (from : text) (r : recovery_row) : recovery_row :=
  RecoveryRow (r_id r) (r_user r) (r_pwhash r) (r_issued_at r) (Some now) (Some from).

Definition unused_of (user : blob) (r : recovery_row) : Prop := r_user r = user /\ r_used_at r = None.

Definition supersede_recovery (user : blob) (now : Z) : statement := fun d =>
  Applied (with_recovery (set_where (unused_of user) (used_recovery now SUPERSEDED) (recovery_codes d)) d)
          (count_where (unused_of user) (recovery_codes d)).

Definition insert_recovery `{Engine} (user : blob) (pwhash : text) (now : Z) : statement := fun d =>
  match rowid (r_id <$> recovery_codes d) with
  | Some i => Applied (with_recovery (recovery_codes d ++ [RecoveryRow i user (Some pwhash) now None None]) d) 1
  | None => Full
  end.

Definition update_recovery_used (code_id : Z) (user : blob) (now : Z) : statement := fun d =>
  Applied (with_recovery (set_where (fun r => r_id r = code_id /\ unused_of user r)
                                    (used_recovery now (label "recovery-use")) (recovery_codes d)) d)
          (count_where (fun r => r_id r = code_id /\ unused_of user r) (recovery_codes d)).

Definition insert_ticket (hash user : blob) (issued expires : Z) : statement := fun d =>
  if decide (hash ∈ e_hash <$> enroll_tickets d) then Constraint
  else Applied (with_tickets (enroll_tickets d ++ [TicketRow hash user issued expires None]) d) 1.

Definition used_ticket (now : Z) (e : ticket_row) : ticket_row :=
  TicketRow (e_hash e) (e_user e) (e_issued_at e) (e_expires_at e) (Some now).

Definition update_ticket_used (hash : blob) (now : Z) : statement := fun d =>
  Applied (with_tickets (set_where (fun e => e_hash e = hash /\ e_used_at e = None) (used_ticket now) (enroll_tickets d)) d)
          (count_where (fun e => e_hash e = hash /\ e_used_at e = None) (enroll_tickets d)).

(** *** the sweep *)

Definition sweep_tokens (now : Z) : statement :=
  delete_tokens (fun t => t_expires_at t <= now \/ t_idle_expires_at t <= now).
Definition sweep_codes (now : Z) : statement := fun d =>
  Applied (with_codes (drop_where (fun c => c_expires_at c <= now) (login_codes d)) d)
          (count_where (fun c => c_expires_at c <= now) (login_codes d)).
Definition sweep_tickets (now : Z) : statement := fun d =>
  Applied (with_tickets (drop_where (fun e => e_expires_at e <= now) (enroll_tickets d)) d)
          (count_where (fun e => e_expires_at e <= now) (enroll_tickets d)).

(** *** the audit log and the meta table *)

Definition insert_audit (r : audit_row) : statement := fun d =>
  if decide (a_seq r ∈ a_seq <$> audit d) then Constraint
  else Applied (with_audit (audit d ++ [r]) d) 1.

Definition replace_meta (key : text) (value : blob) : statement := fun d =>
  Applied (with_meta (drop_where (fun m => m.1 = key) (meta d) ++ [(key, value)]) d) 1.
