(* ===== verification/StoreTx.v ===== *)
(** * The store's connection: transactions, faults and the error monad

    [store.c] talks to one [sqlite3*].  Its state is the committed database,
    the working copy of the open transaction if there is one, a schedule of
    failures and the number of clock reads.  Every [sqlite3_prepare_v2], group
    of [sqlite3_bind_*] calls, [sqlite3_step], BEGIN and COMMIT takes one entry
    of the schedule: it succeeds, fails, or fails and makes SQLite roll the
    transaction back on its own, which SQLite documents for SQLITE_FULL,
    SQLITE_IOERR, SQLITE_NOMEM, SQLITE_BUSY and SQLITE_INTERRUPT.  The theorems quantify over
    every schedule; an exhausted schedule means no further failure.

    [T O A] is a C function of the store: it early-returns a status ([inl]) or
    produces a value ([inr]), keeps the [_out] parameters it has already
    written (of type [O]) either way, and acts on the connection.

    The fault-injection hooks ([STORE_FAULT_POINT], [STORE_COMMIT_FAULT]) exist only
    in the test build and are [0] in what ships. *)

From S2P Require Import Prelude StoreDb.

Inductive store_status_t :=
| STORE_OK | STORE_ERR_ARG | STORE_ERR_IO | STORE_ERR_DB | STORE_ERR_NOT_FOUND | STORE_ERR_CONFLICT
| STORE_ERR_STATE | STORE_ERR_SCHEMA | STORE_ERR_CRYPTO | STORE_ERR_CORRUPT | STORE_ERR_DAMAGED.

#[global] Instance store_status_eq_dec : EqDecision store_status_t.
Proof. solve_decision. Defined.

Definition store_status_name (st : store_status_t) : text :=
  label (match st with
         | STORE_OK => "ok"
         | STORE_ERR_ARG => "bad-argument"
         | STORE_ERR_IO => "io"
         | STORE_ERR_DB => "database-error"
         | STORE_ERR_NOT_FOUND => "not-found"
         | STORE_ERR_CONFLICT => "conflict"
         | STORE_ERR_STATE => "illegal-state"
         | STORE_ERR_SCHEMA => "unsupported-schema-version"
         | STORE_ERR_CRYPTO => "crypto-failure"
         | STORE_ERR_CORRUPT => "audit-chain-corrupt"
         | STORE_ERR_DAMAGED => "store-corrupt"
         end).

(** ** The connection *)

Inductive fault := Fine | Fails | Aborts.

Record conn := Conn {
  disk : db;                  (* what is committed *)
  work : option db;           (* the open transaction's view *)
  faults : list fault;        (* what the coming engine calls do *)
  reads : nat }.              (* how often the wall clock was read *)

(** The database a statement of this connection sees. *)
Definition view (c : conn) : db := default (disk c) (work c).

(** One call into the engine: whether it succeeds. *)
Definition engine (c : conn) : bool * conn :=
  match faults c with
  | [] => (true, c)
  | Fine :: fs => (true, Conn (disk c) (work c) fs (reads c))
  | Fails :: fs => (false, Conn (disk c) (work c) fs (reads c))
  | Aborts :: fs => (false, Conn (disk c) None fs (reads c))
  end.

(** A statement's writes: into the open transaction, or at once when there is
    none (autocommit). *)
Definition put_view (d : db) (c : conn) : conn :=
  match work c with
  | Some _ => Conn (disk c) (Some d) (faults c) (reads c)
  | None => Conn d None (faults c) (reads c)
  end.

(** ** The monad *)

Definition T (O A : Type) : Type := O -> conn -> (store_status_t + A) * O * conn.

#[global] Instance T_ret O : MRet (T O) := fun A a o c => (inr a, o, c).
#[global] Instance T_bind O : MBind (T O) := fun A B f m o c =>
  match m o c with
  | (inl e, o', c') => (inl e, o', c')
  | (inr a, o', c') => f a o' c'
  end.

(** [return e;] *)
Definition fail {O A} (e : store_status_t) : T O A := fun o c => (inl e, o, c).
(** [if (!b) { return e; }] *)
Definition check {O} (b : bool) (e : store_status_t) : T O unit := if b then mret () else fail e.
(** A write to the [_out] parameters. *)
Definition set_out {O} (f : O -> O) : T O unit := fun o c => (inr (), f o, c).
(** [m] with its early return caught: the caller inspects the status. *)
Definition try {O A} (m : T O A) : T O (store_status_t + A) := fun o c =>
  let '(r, o', c') := m o c in (inr r, o', c').
(** A call of a function with out parameters of its own, initially [o']. *)
Definition calling {O O' A} (o' : O') (m : T O' A) : T O (A * O') := fun o c =>
  match m o' c with
  | (inl e, _, c') => (inl e, o, c')
  | (inr a, o'', c') => (inr (a, o''), o, c')
  end.

(** The status a function returns. *)
Definition status {A} (r : store_status_t + A) : store_status_t :=
  match r with inl e => e | inr _ => STORE_OK end.

(** ** SQLite *)

Definition sqlite {O} : T O bool := fun o c => let '(b, c') := engine c in (inr b, o, c').

(** [time(NULL)] *)
Class Clock := clock : nat -> Z.
Definition now_unix `{Clock} {O} : T O Z := fun o c =>
  (inr (clock (reads c)), o, Conn (disk c) (work c) (faults c) (S (reads c))).

Definition begin_immediate {O} : T O bool := fun o c =>
  let '(b, c') := engine c in
  match b, work c' with
  | true, None => (inr true, o, Conn (disk c') (Some (disk c')) (faults c') (reads c'))
  | _, _ => (inr false, o, c')
  end.

(** COMMIT: an error when no transaction is open. *)
Definition commit {O} : T O bool := fun o c =>
  let '(b, c') := engine c in
  match b, work c' with
  | true, Some d => (inr true, o, Conn d None (faults c') (reads c'))
  | _, _ => (inr false, o, c')
  end.

Definition tx_begin {O} : T O unit := b ← begin_immediate; check b STORE_ERR_DB.

(** ROLLBACK ends the transaction, and changes nothing when there is none. *)
Definition tx_rollback {O} : T O unit := fun o c => (inr (), o, Conn (disk c) None (faults c) (reads c)).

Definition tx_commit {O} : T O unit :=
  b ← commit;
  if b : bool then mret ()
  else _ ← tx_rollback; fail STORE_ERR_DB.

(** What [sqlite3_step] answers to a query and to a write. *)
Inductive row_rc (A : Type) := ROW (a : A) | NO_ROW | ROW_ERROR.
Arguments ROW {A} a.
Arguments NO_ROW {A}.
Arguments ROW_ERROR {A}.
Inductive write_rc := WRITTEN (changes : Z) | CONSTRAINT | WRITE_ERROR.

(** [sqlite3_prepare_v2] and the [sqlite3_bind_*] calls that follow it: on a
    failure of either the statement is not run and the answer is
    [STORE_ERR_DB]. *)
Definition prepare {O} : T O unit := b ← sqlite; check b STORE_ERR_DB.
Definition bind_params {O} : T O unit := b ← sqlite; check b STORE_ERR_DB.

(** The first [sqlite3_step] of a query with a LIMIT 1. *)
Definition step_row {O A} (q : db -> list A) : T O (row_rc A) := fun o c =>
  let '(b, c') := engine c in
  (inr (if b : bool then match q (view c') with a :: _ => ROW a | [] => NO_ROW end else ROW_ERROR), o, c').

Definition step_write {O} (s : statement) : T O write_rc := fun o c =>
  let '(b, c') := engine c in
  if b : bool then
    match s (view c') with
    | Applied d n => (inr (WRITTEN n), o, put_view d c')
    | Constraint => (inr CONSTRAINT, o, c')
    | Full => (inr WRITE_ERROR, o, c')
    end
  else (inr WRITE_ERROR, o, c').

(** [rc == SQLITE_ROW ? row : rc == SQLITE_DONE ? none : STORE_ERR_DB] *)
Definition step_opt {O A} (q : db -> list A) : T O (option A) :=
  rc ← step_row q;
  match rc with
  | ROW a => mret (Some a)
  | NO_ROW => mret None
  | ROW_ERROR => fail STORE_ERR_DB
  end.

(** [sqlite3_step(st) != SQLITE_DONE -> STORE_ERR_DB]; the rows changed. *)
Definition step_done {O} (s : statement) : T O Z :=
  rc ← step_write s;
  match rc with WRITTEN n => mret n | _ => fail STORE_ERR_DB end.

(** [rc == SQLITE_CONSTRAINT -> STORE_ERR_CONFLICT], any other failure
    [STORE_ERR_DB] *)
Definition step_unique {O} (s : statement) : T O unit :=
  rc ← step_write s;
  match rc with
  | WRITTEN _ => mret ()
  | CONSTRAINT => fail STORE_ERR_CONFLICT
  | WRITE_ERROR => fail STORE_ERR_DB
  end.

(** Queries and writes from [sqlite3_prepare_v2] to the step. *)
Definition select {O A} (q : db -> list A) : T O (row_rc A) :=
  _ ← prepare; _ ← bind_params; step_row q.
Definition select_opt {O A} (q : db -> list A) : T O (option A) :=
  _ ← prepare; _ ← bind_params; step_opt q.
Definition write_db {O} (s : statement) : T O Z :=
  _ ← prepare; _ ← bind_params; step_done s.
Definition write_unique {O} (s : statement) : T O unit :=
  _ ← prepare; _ ← bind_params; step_unique s.

(** [sqlite3_changes(db) == 0 -> STORE_ERR_NOT_FOUND] *)
Definition write_found {O} (s : statement) : T O Z :=
  n ← write_db s; _ ← check (negb (n =? 0)) STORE_ERR_NOT_FOUND; mret n.

(** [tx_rollback(s); return e;] *)
Definition abandon {O A} (e : store_status_t) : T O A := _ ← tx_rollback; fail e.

(** The frame most operations share: begin; run the body; roll back and return
    its status if it returned one; commit. *)
Definition transaction {O A} (body : T O A) : T O A :=
  _ ← tx_begin;
  r ← try body;
  match r with
  | inl e => abandon e
  | inr a => _ ← tx_commit; mret a
  end.
