(* ===== verification/Store.v ===== *)
(** * The account store: the audit log, users and devices

    The operations of [src/apps/authd/store/store.c] up to the tokens:
    the MAC-chained audit log, user accounts, devices and their keys.  [None]
    for a [store_t *] or a buffer is a NULL pointer; a buffer's length
    argument is the length of the list.  [out] flags say whether an out
    pointer that the code refuses as NULL was given. *)

From stdpp Require Import sorting.
From S2P Require Import Prelude StoreDb StoreTx.

Definition STORE_ID_MAX : Z := 64.
Definition STORE_PK_BYTES : Z := 1952.
Definition STORE_HASH_BYTES : Z := 32.
Definition STORE_AUDIT_MAC_BYTES : Z := 32.
Definition STORE_HSID_BYTES : Z := 16.
Definition STORE_STORE_ID_BYTES : Z := 16.
Definition STORE_KEK_BYTES : Z := 32.
Definition STORE_LOG_KEY_BYTES : Z := 32.
Definition STORE_PSEUDONYM_BYTES : Z := 8.

Inductive store_role_t := STORE_ROLE_OPERATOR | STORE_ROLE_USER.

Record store_t := Store {
  key_audit : blob; key_log : blob; store_id : blob; decoy_pk : blob }.

(** libsodium's [crypto_auth], [crypto_hash_sha256] and [crypto_generichash]. *)
Class StoreCrypto := {
  crypto_auth : list byte -> list byte -> option (list byte);
  crypto_hash_sha256 : list byte -> list byte;
  crypto_generichash : Z -> list byte -> list byte -> option (list byte) }.

Class StoreCryptoLaw (SC : StoreCrypto) := {
  auth_len : forall m k a, crypto_auth m k = Some a -> blen a = STORE_AUDIT_MAC_BYTES }.

(** ** Small helpers *)

Definition id_ok (id : option blob) : bool :=
  match id with Some l => (1 <=? blen l) && (blen l <=? STORE_ID_MAX) | None => false end.

(** The identifier a checked pointer points to. *)
Abbreviation bytes_of p := (default [] p).

Definition role_text (r : store_role_t) : text :=
  match r with STORE_ROLE_OPERATOR => OPERATOR | STORE_ROLE_USER => USER end.

Definition role_from_text {O} (t : text) : T O store_role_t :=
  if decide (t = OPERATOR) then mret STORE_ROLE_OPERATOR
  else if decide (t = USER) then mret STORE_ROLE_USER
  else fail STORE_ERR_DB.

(** Copying a BLOB column into a buffer of [cap] bytes. *)
Definition copy_blob_col {O} (col : blob) (cap : Z) : T O blob :=
  if cap <? blen col then fail STORE_ERR_DB else mret col.

Definition be64 (v : Z) : list byte := be_enc 8 (u64 v).

(** What a [char *] shows of a text: the bytes before the first NUL. *)
Fixpoint c_str (t : text) : text :=
  match t with
  | [] => []
  | b :: t' => if decide (b = x00) then [] else b :: c_str t'
  end.

Section store.
Context `{EN : Engine} `{CK : Clock} `{SC : StoreCrypto}.

(** ** The audit chain *)

(** The bytes MACed for a row, or [None] when a length field or the buffer of
    [cap] bytes cannot hold them. *)
Definition audit_mac_input (cap : Z) (prev_mac : blob) (seq at_ : Z) (event : option text)
    (user_id handle : blob) (detail : option text) : option (list byte) :=
  let ev := c_str (bytes_of event) in
  let de := c_str (bytes_of detail) in
  if (255 <? blen user_id) || (255 <? blen handle) || (0xffff <? blen de) then None
  else
    let need := STORE_AUDIT_MAC_BYTES + 8 + 8 + blen ev + 1 + 1 + blen user_id + 1 + blen handle + 2 + blen de in
    if cap <? need then None
    else Some (ztake STORE_AUDIT_MAC_BYTES prev_mac ++ be64 seq ++ be64 at_ ++ ev ++ [x00] ++
               [u8 (blen user_id)] ++ user_id ++ [u8 (blen handle)] ++ handle ++
               [u8 (Z.shiftr (blen de) 8); u8 (blen de)] ++ de).

(** [ORDER BY seq ASC] *)
Definition seq_le (r1 r2 : audit_row) : Prop := a_seq r1 <= a_seq r2.
#[global] Instance seq_le_dec : RelDecision seq_le.
Proof. intros r1 r2. apply Z_le_dec. Defined.
Definition by_seq (l : list audit_row) : list audit_row := merge_sort seq_le l.

(** The newest row's sequence number and MAC; 0 and zeros when there is none. *)
Definition audit_head {O} : T O (Z * blob) :=
  _ ← prepare;
  row ← step_opt (fun d => rev (by_seq (audit d)));
  match row with
  | None => mret (0, zeros STORE_AUDIT_MAC_BYTES)
  | Some r =>
      mac ← copy_blob_col (a_mac r) STORE_AUDIT_MAC_BYTES;
      _ ← check (blen mac =? STORE_AUDIT_MAC_BYTES) STORE_ERR_CORRUPT;
      mret (a_seq r, mac)
  end.

Definition audit_append {O} (s : store_t) (event : text) (user_id handle : option blob)
    (detail : option text) (now : Z) : T O unit :=
  '(prev_seq, prev_mac) ← audit_head;
  let seq := prev_seq + 1 in
  match audit_mac_input 1024 prev_mac seq now (Some event) (bytes_of user_id) (bytes_of handle) detail with
  | None => fail STORE_ERR_ARG
  | Some inbuf =>
      match crypto_auth inbuf (key_audit s) with
      | None => fail STORE_ERR_CRYPTO
      | Some mac =>
          _ ← write_db (insert_audit (AuditRow seq now event user_id handle (bytes_of detail) prev_mac mac));
          mret ()
      end
  end.

Definition store_audit_head_mac {O} (s : option store_t) (out : bool) : T O blob :=
  match s with
  | None => fail STORE_ERR_ARG
  | Some _ => _ ← check out STORE_ERR_ARG; '(_, mac) ← audit_head; mret mac
  end.

(** The checks on one row of the walk; the next [running] MAC. *)
Definition audit_check_row {O} (s : store_t) (running : blob) (expect_seq : Z) (r : audit_row) : T O blob :=
  let uid := bytes_of (a_user r) in
  let hnd := bytes_of (a_handle r) in
  _ ← check (a_seq r =? expect_seq) STORE_ERR_CORRUPT;
  _ ← check (negb ((STORE_ID_MAX <? blen uid) || (STORE_ID_MAX <? blen hnd) ||
                   (STORE_AUDIT_MAC_BYTES <? blen (a_prev_mac r)) || (STORE_AUDIT_MAC_BYTES <? blen (a_mac r))))
            STORE_ERR_CORRUPT;
  _ ← check ((blen (a_prev_mac r) =? STORE_AUDIT_MAC_BYTES) && (blen (a_mac r) =? STORE_AUDIT_MAC_BYTES))
            STORE_ERR_CORRUPT;
  _ ← check (memeq (a_prev_mac r) running STORE_AUDIT_MAC_BYTES) STORE_ERR_CORRUPT;
  match audit_mac_input 1024 (a_prev_mac r) (a_seq r) (a_at r) (Some (a_event r)) uid hnd (Some (a_detail r)) with
  | None => fail STORE_ERR_CORRUPT
  | Some inbuf =>
      match crypto_auth inbuf (key_audit s) with
      | None => fail STORE_ERR_CRYPTO
      | Some want =>
          _ ← check (memeq want (a_mac r) STORE_AUDIT_MAC_BYTES) STORE_ERR_CORRUPT;
          mret (a_mac r)
      end
  end.

(** The walk: one [sqlite3_step] before each row and one that finds the end. *)
Fixpoint audit_walk {O} (s : store_t) (running : blob) (expect_seq : Z) (rows : list audit_row) : T O unit :=
  ok ← sqlite;
  _ ← check ok STORE_ERR_DB;
  match rows with
  | [] => mret ()
  | r :: more =>
      running' ← audit_check_row s running expect_seq r;
      audit_walk s running' (expect_seq + 1) more
  end.

Definition peek_view {O A} (q : db -> A) : T O A := fun o c => (inr (q (view c)), o, c).

Definition store_audit_verify {O} (s : option store_t) : T O unit :=
  match s with
  | None => fail STORE_ERR_ARG
  | Some s =>
      _ ← prepare;
      rows ← peek_view (fun d => by_seq (audit d));
      audit_walk s (zeros STORE_AUDIT_MAC_BYTES) 1 rows
  end.

(** ** Users *)

Definition add_user_locked {O} (s : store_t) (user_id : blob) (role : store_role_t) : T O unit :=
  now ← now_unix;
  _ ← write_unique (insert_user user_id (role_text role) now);
  audit_append s (label "user-add") (Some user_id) None (Some (role_text role)) now.

Definition store_add_user {O} (s : option store_t) (user_id : option blob) (role : store_role_t) : T O unit :=
  match s with
  | None => fail STORE_ERR_ARG
  | Some s =>
      _ ← check (id_ok user_id) STORE_ERR_ARG;
      transaction (add_user_locked s (bytes_of user_id) role)
  end.

Definition set_user_status {O} (s : option store_t) (user_id : option blob) (new : text)
    (by_ : option text) (reason : option blob) (drop_tokens : bool) (event : text) : T O unit :=
  match s with
  | None => fail STORE_ERR_ARG
  | Some s =>
      _ ← check (id_ok user_id) STORE_ERR_ARG;
      let id := bytes_of user_id in
      now ← now_unix;
      transaction (
        let is_disable := bool_decide (new = DISABLED) in
        _ ← write_found (update_user_status id new (if is_disable then Some now else None)
                                            (if is_disable then reason else None));
        _ ← (if drop_tokens then write_db (delete_tokens (fun t => t_user t = id)) else mret 0);
        audit_append s event (Some id) None by_ now)
  end.

Definition store_disable_user {O} (s : option store_t) (user_id : option blob) (by_ : option text)
    (reason : option blob) : T O unit :=
  set_user_status s user_id DISABLED by_ reason true (label "user-disable").

Definition store_enable_user {O} (s : option store_t) (user_id : option blob) (by_ : option text) : T O unit :=
  set_user_status s user_id ACTIVE by_ None false (label "user-enable").

Definition users_by_id (id : blob) (d : db) : list user_row := filter (fun u => u_id u = id) (users d).

(** [snprintf(status_out, status_cap, "%s", ...)] *)
Definition snprintf_s (cap : Z) (t : text) : text := ztake (cap - 1) (c_str t).

(** The role and the status; [want_role], [status_cap] say which out
    parameters were given (a NULL or empty status buffer is cap 0). *)
Definition store_get_user {O} (s : option store_t) (user_id : option blob) (want_role : bool) (status_cap : Z)
    : T O (option store_role_t * option text) :=
  match s with
  | None => fail STORE_ERR_ARG
  | Some _ =>
      _ ← check (id_ok user_id) STORE_ERR_ARG;
      row ← select_opt (users_by_id (bytes_of user_id));
      match row with
      | None => fail STORE_ERR_NOT_FOUND
      | Some u =>
          role ← (if want_role then r ← role_from_text (u_role u); mret (Some r) else mret None);
          mret (role, if 0 <? status_cap then Some (snprintf_s status_cap (u_status u)) else None)
      end
  end.

(** ** Devices and keys *)

Definition pk_fingerprint (pk : blob) : blob := crypto_hash_sha256 pk.

(** Whether the key exists anywhere, in any state. *)
Definition pk_exists {O} (pk : blob) : T O bool :=
  row ← select_opt (fun d => filter (fun k => k_pk k = pk) (device_keys d));
  mret (bool_decide (is_Some row)).

(** The handle's active key and its row id. *)
Definition active_key_of {O} (handle : blob) : T O (option (Z * blob)) :=
  row ← select_opt (active_keys handle);
  match row with
  | None => mret None
  | Some k =>
      pk ← copy_blob_col (k_pk k) STORE_PK_BYTES;
      _ ← check (blen pk =? STORE_PK_BYTES) STORE_ERR_DAMAGED;
      mret (Some (k_id k, pk))
  end.

Definition device_owned_by {O} (handle user_id : blob) : T O bool :=
  row ← select_opt (fun d => filter (fun v => d_handle v = handle /\ d_user v = user_id) (devices d));
  mret (bool_decide (is_Some row)).

(** The body of an enrollment, inside the caller's transaction.  The value is
    [*idempotent_out]. *)
Definition enroll_device_locked {O} (s : store_t) (handle user_id pk : blob) (via by_ : option text)
    (lbl : option blob) (now : Z) : T O bool :=
  cur ← active_key_of handle;
  match cur with
  | Some (_, cur) =>
      if memeq cur pk STORE_PK_BYTES then
        owned ← device_owned_by handle user_id;
        if owned : bool then mret true else fail STORE_ERR_CONFLICT
      else
        _ ← audit_append s (label "enroll-key-mismatch") (Some user_id) (Some handle)
              (Some (label "known handle presented a different key (Req 7)")) now;
        fail STORE_ERR_CONFLICT
  | None =>
      dup ← pk_exists pk;
      if dup : bool then fail STORE_ERR_CONFLICT
      else
        _ ← write_unique (insert_device handle user_id lbl now (bytes_of via) (bytes_of by_));
        _ ← write_unique (insert_key handle pk (pk_fingerprint pk) now);
        _ ← audit_append s (label "device-enroll") (Some user_id) (Some handle) via now;
        mret false
  end.

(** Commits on a conflict, to keep the mismatch's audit row. *)
Definition store_enroll_device {O} (s : option store_t) (handle user_id pk : option blob) (via by_ : option text)
    (lbl : option blob) : T O unit :=
  match s with
  | None => fail STORE_ERR_ARG
  | Some s =>
      _ ← check (id_ok handle && id_ok user_id && bool_decide (is_Some pk)) STORE_ERR_ARG;
      _ ← tx_begin;
      now ← now_unix;
      r ← try (enroll_device_locked s (bytes_of handle) (bytes_of user_id) (bytes_of pk) via by_ lbl now);
      match r with
      | inr true => tx_rollback
      | inl STORE_ERR_CONFLICT => _ ← try (tx_commit); fail STORE_ERR_CONFLICT
      | inl e => abandon e
      | inr false => tx_commit
      end
  end.

(** The out parameters [created_out] and [idempotent_out]. *)
Record enroll_out := EnrollOut { created_out : bool; idempotent_out : bool }.

Definition store_enroll_device_ex (s : option store_t) (handle user_id : option blob) (role : store_role_t)
    (pk : option blob) (via by_ : option text) (lbl : option blob) : T enroll_out unit :=
  match s with
  | None => fail STORE_ERR_ARG
  | Some s =>
      _ ← check (id_ok handle && id_ok user_id && bool_decide (is_Some pk)) STORE_ERR_ARG;
      _ ← set_out (fun _ => EnrollOut false false);
      _ ← tx_begin;
      r ← try (
        row ← select_opt (users_by_id (bytes_of user_id));
        let exists_ := bool_decide (is_Some row) in
        _ ← (if exists_ then mret () else add_user_locked s (bytes_of user_id) role);
        now ← now_unix;
        idempotent ← enroll_device_locked s (bytes_of handle) (bytes_of user_id) (bytes_of pk) via by_ lbl now;
        mret (exists_, idempotent));
      match r with
      | inr (_, true) => _ ← tx_rollback; set_out (fun _ => EnrollOut false true)
      | inl e => abandon e
      | inr (exists_, false) => _ ← set_out (fun _ => EnrollOut (negb exists_) false); tx_commit
      end
  end.

(** The user a handle belongs to; an error of the step reads as not found. *)
Definition user_of_handle {O} (handle : blob) (cap : Z) : T O blob :=
  rc ← select (fun d => filter (fun v => d_handle v = handle) (devices d));
  match rc with
  | ROW v => if (0 <? blen (d_user v)) && (blen (d_user v) <=? cap) then mret (d_user v) else fail STORE_ERR_NOT_FOUND
  | _ => fail STORE_ERR_NOT_FOUND
  end.

Definition device_and_user_active {O} (handle : blob) : T O bool :=
  row ← select_opt (fun d =>
    v ← filter (fun v => d_handle v = handle /\ d_status v = ACTIVE) (devices d);
    u ← filter (fun u => u_id u = d_user v /\ u_status u = ACTIVE) (users d);
    [()]);
  mret (bool_decide (is_Some row)).

Record rotate_out := RotateOut { rotated_at_out : Z; dropped_out : Z }.

(** The body of a rotation, inside its transaction: the key and token rows. *)
Definition rotate_rows (handle new_pk : blob) (expect_old_pk hsid : option blob)
    (drop_tokens : bool) (now : Z) : T rotate_out unit :=
  live ← device_and_user_active handle;
  _ ← check live STORE_ERR_NOT_FOUND;
  have ← active_key_of handle;
  match have with
  | None => fail STORE_ERR_NOT_FOUND
  | Some (cur_id, cur) =>
      _ ← check (negb (memeq cur new_pk STORE_PK_BYTES)) STORE_ERR_STATE;
      _ ← check (match expect_old_pk with Some old => memeq cur old STORE_PK_BYTES | None => true end) STORE_ERR_STATE;
      dup ← pk_exists new_pk;
      _ ← check (negb dup) STORE_ERR_CONFLICT;
      _ ← write_db (update_key_superseded cur_id now hsid);
      _ ← write_unique (insert_key handle new_pk (pk_fingerprint new_pk) now);
      if drop_tokens then
        n ← write_db (delete_tokens (fun t => t_handle t = handle));
        set_out (fun o => RotateOut (rotated_at_out o) n)
      else mret ()
  end.

(** The rest of it: the audit row, attributed to the user if one is found. *)
Definition rotate_audit {O} (s : store_t) (handle : blob) (drop_tokens : bool) (now : Z) : T O unit :=
  uid ← try (user_of_handle handle STORE_ID_MAX);
  audit_append s (label "key-rotate") (match uid with inr u => Some u | inl _ => None end) (Some handle)
    (Some (label (if drop_tokens then "tokens-dropped" else "tokens-kept"))) now.

Definition rotate_locked (s : store_t) (handle new_pk : blob) (expect_old_pk hsid : option blob)
    (drop_tokens : bool) (now : Z) : T rotate_out unit :=
  _ ← rotate_rows handle new_pk expect_old_pk hsid drop_tokens now;
  rotate_audit s handle drop_tokens now.

Definition store_rotate_key (s : option store_t) (handle new_pk expect_old_pk hsid : option blob)
    (drop_tokens : bool) (now : Z) : T rotate_out unit :=
  _ ← set_out (fun _ => RotateOut 0 0);
  match s with
  | None => fail STORE_ERR_ARG
  | Some s =>
      _ ← check (id_ok handle && bool_decide (is_Some new_pk)) STORE_ERR_ARG;
      _ ← check (match hsid with Some h => blen h =? STORE_HSID_BYTES | None => true end) STORE_ERR_ARG;
      _ ← transaction (rotate_locked s (bytes_of handle) (bytes_of new_pk) expect_old_pk hsid drop_tokens now);
      set_out (fun o => RotateOut now (dropped_out o))
  end.

(** Revokes one device inside the caller's transaction. *)
Definition revoke_device_locked {O} (s : store_t) (handle : blob) (by_ : option text) (reason : option blob)
    (now : Z) : T O unit :=
  _ ← write_found (update_device_revoked handle now (bytes_of by_) reason);
  _ ← write_db (update_keys_revoked handle now);
  _ ← write_db (delete_tokens (fun t => t_handle t = handle));
  audit_append s (label "device-revoke") None (Some handle) by_ now.

Definition store_revoke_device {O} (s : option store_t) (handle : option blob) (by_ : option text)
    (reason : option blob) : T O unit :=
  match s with
  | None => fail STORE_ERR_ARG
  | Some s =>
      _ ← check (id_ok handle) STORE_ERR_ARG;
      transaction (now ← now_unix; revoke_device_locked s (bytes_of handle) by_ reason now)
  end.

(** [device_keys JOIN devices JOIN users], all three active *)
Definition active_join (handle : blob) (d : db) : list (blob * blob * text) :=
  k ← filter (fun k => k_handle k = handle /\ k_status k = ACTIVE) (device_keys d);
  v ← filter (fun v => d_handle v = k_handle k /\ d_status v = ACTIVE) (devices d);
  u ← filter (fun u => u_id u = d_user v /\ u_status u = ACTIVE) (users d);
  [(k_pk k, u_id u, u_role u)].

(** [user_cap]: the capacity of [user_id_out], if given. *)
Definition store_lookup_active {O} (s : option store_t) (handle : option blob) (pk_out : bool)
    (user_cap : option Z) (want_role : bool) : T O (blob * option blob * option store_role_t) :=
  match s with
  | None => fail STORE_ERR_ARG
  | Some _ =>
      _ ← check (id_ok handle && pk_out) STORE_ERR_ARG;
      row ← select_opt (active_join (bytes_of handle));
      match row with
      | None => fail STORE_ERR_NOT_FOUND
      | Some (pk, uid, role) =>
          pk ← copy_blob_col pk STORE_PK_BYTES;
          _ ← check (blen pk =? STORE_PK_BYTES) STORE_ERR_DAMAGED;
          uid ← match user_cap with Some cap => u ← copy_blob_col uid cap; mret (Some u) | None => mret None end;
          role ← (if want_role then r ← role_from_text role; mret (Some r) else mret None);
          mret (pk, uid, role)
      end
  end.

Definition store_touch_last_seen {O} (s : option store_t) (handle : option blob) : T O unit :=
  match s with
  | None => fail STORE_ERR_ARG
  | Some _ =>
      _ ← check (id_ok handle) STORE_ERR_ARG;
      _ ← prepare;
      now ← now_unix;
      _ ← bind_params;
      _ ← step_done (update_last_seen (bytes_of handle) now);
      mret ()
  end.

(** An error of the step reads as not found. *)
Definition store_active_key_age {O} (s : option store_t) (handle : option blob) (out : bool) : T O Z :=
  match s with
  | None => fail STORE_ERR_ARG
  | Some _ =>
      _ ← check (id_ok handle && out) STORE_ERR_ARG;
      rc ← select (active_keys (bytes_of handle));
      match rc with ROW k => mret (k_valid_from k) | _ => fail STORE_ERR_NOT_FOUND end
  end.

(** [ORDER BY key_id DESC] *)
Definition key_newer (k1 k2 : key_row) : Prop := k_id k2 <= k_id k1.
#[global] Instance key_newer_dec : RelDecision key_newer.
Proof. intros k1 k2. apply Z_le_dec. Defined.
Definition keys_newest_first (handle : blob) (d : db) : list key_row :=
  merge_sort key_newer (filter (fun k => k_handle k = handle) (device_keys d)).

Definition store_handle_last_key {O} (s : option store_t) (handle : option blob) (pk_out : bool) : T O blob :=
  match s with
  | None => fail STORE_ERR_ARG
  | Some _ =>
      _ ← check (id_ok handle && pk_out) STORE_ERR_ARG;
      row ← select_opt (keys_newest_first (bytes_of handle));
      match row with
      | None => fail STORE_ERR_NOT_FOUND
      | Some k =>
          pk ← copy_blob_col (k_pk k) STORE_PK_BYTES;
          _ ← check (blen pk =? STORE_PK_BYTES) STORE_ERR_DAMAGED;
          mret pk
      end
  end.

End store.
