(* ===== verification/StoreAuth.v ===== *)
(** * The account store: tokens, login codes, recovery, the sweep and listings

    The operations of [src/apps/authd/store/store.c] from [store_add_token] on.
    A callback with its context is a function on the context, which is the
    operation's out state: what the callback has accumulated survives an error
    of the walk, as it does in C. *)

From stdpp Require Import sorting pretty.
From S2P Require Import Prelude StoreDb StoreTx Store.

Inductive store_token_verdict_t :=
| STORE_TOKEN_OK | STORE_TOKEN_UNKNOWN | STORE_TOKEN_EXPIRED | STORE_TOKEN_IDLE_EXPIRED
| STORE_TOKEN_DEVICE_REVOKED | STORE_TOKEN_USER_DISABLED.

Record store_token_info_t := TokenInfo {
  ti_user_id : blob; ti_handle : blob; ti_role : store_role_t;
  ti_issued_at : Z; ti_expires_at : Z; ti_idle_expires_at : Z }.

Inductive store_code_verdict_t :=
| STORE_CODE_OK | STORE_CODE_UNKNOWN | STORE_CODE_EXPIRED | STORE_CODE_USED | STORE_CODE_STATE_MISMATCH.

Record store_sweep_counts_t := SweepCounts { sw_tokens : Z; sw_login_codes : Z; sw_tickets : Z }.

(** [memset(info, 0, sizeof *info)] *)
Definition blank_info : store_token_info_t := TokenInfo [] [] STORE_ROLE_OPERATOR 0 0 0.

(** [(void)copy_blob_col(...)] into a zeroed buffer *)
Definition copy_or_empty (col : blob) (cap : Z) : blob := if cap <? blen col then [] else col.

(** [(void)role_from_text(...)] *)
Definition role_or (t : text) (r : store_role_t) : store_role_t :=
  if decide (t = OPERATOR) then STORE_ROLE_OPERATOR else if decide (t = USER) then STORE_ROLE_USER else r.

(** [sqlite3_column_int] *)
Definition int32 (z : Z) : Z := (z + 2 ^ 31) mod 2 ^ 32 - 2 ^ 31.

(** The rows of a LEFT JOIN's right side. *)
Definition left_join {A} (l : list A) : list (option A) := match l with [] => [None] | _ => Some <$> l end.

Section store.
Context `{EN : Engine} `{CK : Clock} `{SC : StoreCrypto}.

(** ** Tokens *)

Definition store_add_token {O} (s : option store_t) (token_hash user_id handle hsid : option blob)
    (issued_at expires_at idle_expires_at : Z) : T O unit :=
  match s with
  | None => fail STORE_ERR_ARG
  | Some _ =>
      _ ← check (bool_decide (is_Some token_hash) && id_ok user_id && id_ok handle) STORE_ERR_ARG;
      transaction (write_unique (insert_token (bytes_of token_hash) (bytes_of user_id) (bytes_of handle) hsid
                                              issued_at expires_at idle_expires_at))
  end.

Definition token_join (hash : blob) (d : db) : list (token_row * option device_row * option user_row) :=
  t ← filter (fun t => t_hash t = hash) (tokens d);
  v ← left_join (filter (fun v => d_handle v = t_handle t) (devices d));
  u ← left_join (filter (fun u => u_id u = t_user t) (users d));
  [(t, v, u)].

Record verify_out := VerifyOut { vo_verdict : store_token_verdict_t; vo_info : store_token_info_t }.

Definition set_verdict (v : store_token_verdict_t) (o : verify_out) : verify_out := VerifyOut v (vo_info o).

(** What the row puts into [*info]. *)
Definition token_info (t : token_row) (u : option user_row) : store_token_info_t :=
  TokenInfo (copy_or_empty (t_user t) STORE_ID_MAX) (copy_or_empty (t_handle t) STORE_ID_MAX)
            (match u with Some u => role_or (u_role u) STORE_ROLE_OPERATOR | None => STORE_ROLE_OPERATOR end)
            (t_issued_at t) (t_expires_at t) (t_idle_expires_at t).

Definition is_active (st : option text) : bool :=
  match st with Some t => bool_decide (snprintf_s 16 t = ACTIVE) | None => false end.

(** The idle deadline after a successful check. *)
Definition slide_idle (now idle_ttl_s expires idle : Z) : Z :=
  if 0 <? idle_ttl_s then
    let new_idle := now + idle_ttl_s in if expires <? new_idle then expires else new_idle
  else idle.

Definition store_verify_token (s : option store_t) (token_hash : option blob) (now idle_ttl_s : Z)
    (verdict info : bool) : T verify_out unit :=
  match s with
  | None => fail STORE_ERR_ARG
  | Some _ =>
      _ ← check (bool_decide (is_Some token_hash) && verdict) STORE_ERR_ARG;
      let hash := bytes_of token_hash in
      _ ← set_out (fun o => VerifyOut STORE_TOKEN_UNKNOWN (if info then blank_info else vo_info o));
      row ← select_opt (token_join hash);
      match row with
      | None => mret ()
      | Some (t, v, u) =>
          _ ← set_out (fun o => VerifyOut (vo_verdict o) (if info then token_info t u else vo_info o));
          if negb (is_active (d_status <$> v)) then set_out (set_verdict STORE_TOKEN_DEVICE_REVOKED)
          else if negb (is_active (u_status <$> u)) then set_out (set_verdict STORE_TOKEN_USER_DISABLED)
          else if t_expires_at t <=? now then set_out (set_verdict STORE_TOKEN_EXPIRED)
          else if t_idle_expires_at t <=? now then set_out (set_verdict STORE_TOKEN_IDLE_EXPIRED)
          else
            let new_idle := slide_idle now idle_ttl_s (t_expires_at t) (t_idle_expires_at t) in
            _ ← write_db (update_token_verified hash now new_idle);
            set_out (fun o => VerifyOut STORE_TOKEN_OK
              (if info then TokenInfo (ti_user_id (vo_info o)) (ti_handle (vo_info o)) (ti_role (vo_info o))
                                      (ti_issued_at (vo_info o)) (ti_expires_at (vo_info o)) new_idle
               else vo_info o))
      end
  end.

Definition store_delete_token {O} (s : option store_t) (token_hash : option blob) : T O Z :=
  match s with
  | None => fail STORE_ERR_ARG
  | Some _ =>
      _ ← check (bool_decide (is_Some token_hash)) STORE_ERR_ARG;
      write_db (delete_tokens (fun t => t_hash t = bytes_of token_hash))
  end.

Definition store_delete_tokens_for_handle {O} (s : option store_t) (user_id handle : option blob) : T O Z :=
  match s with
  | None => fail STORE_ERR_ARG
  | Some _ =>
      _ ← check (id_ok user_id && id_ok handle) STORE_ERR_ARG;
      write_db (delete_tokens (fun t => t_handle t = bytes_of handle /\ t_user t = bytes_of user_id))
  end.

Definition store_delete_tokens_for_user {O} (s : option store_t) (user_id : option blob) : T O Z :=
  match s with
  | None => fail STORE_ERR_ARG
  | Some _ =>
      _ ← check (id_ok user_id) STORE_ERR_ARG;
      write_db (delete_tokens (fun t => t_user t = bytes_of user_id))
  end.

(** ** Login codes *)

Definition store_add_login_code {O} (s : option store_t) (code_hash user_id handle hsid state_hash : option blob)
    (issued_at expires_at : Z) : T O unit :=
  match s with
  | None => fail STORE_ERR_ARG
  | Some _ =>
      _ ← check (bool_decide (is_Some code_hash) && bool_decide (is_Some state_hash) && id_ok user_id && id_ok handle)
                STORE_ERR_ARG;
      transaction (write_unique (insert_login_code (bytes_of code_hash) (bytes_of user_id) (bytes_of handle) hsid
                                                   (bytes_of state_hash) issued_at expires_at))
  end.

(** [*verdict], and what was copied to [user_id_out] and [handle_out]. *)
Record consume_out := ConsumeOut {
  co_verdict : store_code_verdict_t; co_user : option blob; co_handle : option blob }.

Definition codes_by_hash (hash : blob) (d : db) : list code_row := filter (fun c => c_hash c = hash) (login_codes d).

(** The read of the code's row: the identifiers out, the state hash checked
    against its buffer. *)
Definition read_login_code (hash : blob) (user_cap handle_cap : option Z) : T consume_out (option code_row) :=
  row ← select_opt (codes_by_hash hash);
  match row with
  | None => mret None
  | Some c =>
      _ ← match user_cap with
          | Some cap => u ← copy_blob_col (c_user c) cap;
                        set_out (fun o => ConsumeOut (co_verdict o) (Some u) (co_handle o))
          | None => mret () end;
      _ ← match handle_cap with
          | Some cap => h ← copy_blob_col (c_handle c) cap;
                        set_out (fun o => ConsumeOut (co_verdict o) (co_user o) (Some h))
          | None => mret () end;
      _ ← copy_blob_col (c_state c) STORE_HASH_BYTES;
      mret (Some c)
  end.

Definition code_verdict (v : store_code_verdict_t) : T consume_out unit :=
  set_out (fun o => ConsumeOut v (co_user o) (co_handle o)).

Definition store_consume_login_code_ex (s : option store_t) (code_hash state_hash : option blob) (now : Z)
    (verdict : bool) (user_cap handle_cap : option Z) : T consume_out unit :=
  match s with
  | None => fail STORE_ERR_ARG
  | Some _ =>
      _ ← check (bool_decide (is_Some code_hash) && bool_decide (is_Some state_hash) && verdict) STORE_ERR_ARG;
      let hash := bytes_of code_hash in
      _ ← code_verdict STORE_CODE_UNKNOWN;
      _ ← tx_begin;
      r ← try (read_login_code hash user_cap handle_cap);
      match r with
      | inl e => abandon e
      | inr None => _ ← tx_rollback; code_verdict STORE_CODE_UNKNOWN
      | inr (Some c) =>
          if bool_decide (is_Some (c_used_at c)) then _ ← tx_rollback; code_verdict STORE_CODE_USED
          else if c_expires_at c <=? now then _ ← tx_rollback; code_verdict STORE_CODE_EXPIRED
          else if negb (blen (c_state c) =? STORE_HASH_BYTES) ||
                  negb (memeq (c_state c) (bytes_of state_hash) STORE_HASH_BYTES) then
            _ ← tx_rollback; code_verdict STORE_CODE_STATE_MISMATCH
          else
            w ← try (write_db (update_code_used hash now));
            match w with
            | inl e => abandon e
            | inr _ => _ ← tx_commit; code_verdict STORE_CODE_OK
            end
      end
  end.

(** The coarse form: the verdict folded into the status. *)
Definition store_consume_login_code (s : option store_t) (code_hash state_hash : option blob) (now : Z)
    (user_cap handle_cap : option Z) : T consume_out unit := fun o c =>
  match store_consume_login_code_ex s code_hash state_hash now true user_cap handle_cap o c with
  | (inr tt, o', c') =>
      (match co_verdict o' with
       | STORE_CODE_OK => inr tt
       | STORE_CODE_STATE_MISMATCH => inl STORE_ERR_CONFLICT
       | _ => inl STORE_ERR_NOT_FOUND
       end, o', c')
  | other => other
  end.

(** ** Recovery codes and enrollment tickets *)

(** [*locked_out], [*locked_until_out] and [*fail_count_out] *)
Definition store_recovery_lock_state {O} (s : option store_t) (user_id : option blob) (now : Z) (locked_out : bool)
    : T O (bool * Z * Z) :=
  match s with
  | None => fail STORE_ERR_ARG
  | Some _ =>
      _ ← check (id_ok user_id && locked_out) STORE_ERR_ARG;
      row ← select_opt (users_by_id (bytes_of user_id));
      match row with
      | None => fail STORE_ERR_NOT_FOUND
      | Some u => mret (now <? u_locked_until u, u_locked_until u, int32 (u_fail_count u))
      end
  end.

(** [ORDER BY code_id DESC] *)
Definition code_newer (r1 r2 : recovery_row) : Prop := r_id r2 <= r_id r1.
#[global] Instance code_newer_dec : RelDecision code_newer.
Proof. intros r1 r2. apply Z_le_dec. Defined.

Definition unused_codes (user : blob) (d : db) : list recovery_row :=
  merge_sort code_newer (filter (unused_of user) (recovery_codes d)).

(** A call of the caller's callback. *)
Definition visiting {X A} (f : X -> A * X) : T X A := fun x c => let '(a, x') := f x in (inr a, x', c).

(** A walk over the rows of a query: [visit] is the loop body; [true] breaks. *)
Fixpoint walk {X R} (visit : X -> R -> bool * X) (rows : list R) : T X unit :=
  ok ← sqlite;
  _ ← check ok STORE_ERR_DB;
  match rows with
  | [] => mret ()
  | r :: more =>
      stop ← visiting (fun x => visit x r);
      if stop : bool then mret () else walk visit more
  end.

Definition store_list_unused_recovery_codes {X} (s : option store_t) (user_id : option blob)
    (fn : option (X -> Z -> text -> bool * X)) : T X unit :=
  match s, fn with
  | Some _, Some fn =>
      _ ← check (id_ok user_id) STORE_ERR_ARG;
      _ ← prepare;
      _ ← bind_params;
      rows ← peek_view (unused_codes (bytes_of user_id));
      walk (fun x r => match r_pwhash r with None => (false, x) | Some h => fn x (r_id r) (c_str h) end) rows
  | _, _ => fail STORE_ERR_ARG
  end.

Fixpoint insert_codes {O} (user : blob) (hashes : list (option text)) (now : Z) : T O unit :=
  match hashes with
  | [] => mret ()
  | h :: more => _ ← write_db (insert_recovery user (bytes_of h) now); insert_codes user more now
  end.

(** [snprintf(detail, sizeof detail, "issued %zu", n)] *)
Definition issued_detail (n : nat) : text := label (String.append "issued " (pretty (N.of_nat n))).

(** The out state is [*superseded_out]. *)
Definition store_recovery_replace (s : option store_t) (user_id : option blob) (pwhash_strs : option (list (option text)))
    (now : Z) : T Z unit :=
  match s, pwhash_strs with
  | Some s, Some hashes =>
      _ ← check (id_ok user_id && negb (blen hashes =? 0)) STORE_ERR_ARG;
      _ ← check (bool_decide (Forall is_Some hashes)) STORE_ERR_ARG;
      _ ← set_out (fun _ => 0);
      let user := bytes_of user_id in
      transaction (
        row ← select_opt (users_by_id user);
        _ ← check (bool_decide (is_Some row)) STORE_ERR_NOT_FOUND;
        n ← write_db (supersede_recovery user now);
        _ ← set_out (fun _ => n);
        _ ← insert_codes user hashes now;
        audit_append s (label "recovery-issue") (Some user) None (Some (issued_detail (length hashes))) now)
  | _, _ => fail STORE_ERR_ARG
  end.

(** [SELECT handle FROM devices WHERE user_id=?1 AND status='active' LIMIT 1] *)
Definition some_active_device (user : blob) (d : db) : list device_row :=
  scan (filter (fun v => d_user v = user /\ d_status v = ACTIVE) (devices d)).

(** The revocation loop: at most [guard] rounds, one device each. *)
Fixpoint revoke_loop {O} (s : store_t) (user : blob) (now : Z) (guard : nat) (revoked : Z) : T O Z :=
  match guard with
  | 0%nat => mret revoked
  | S guard' =>
      row ← select_opt (some_active_device user);
      match row with
      | None => mret revoked
      | Some v =>
          _ ← check ((0 <? blen (d_handle v)) && (blen (d_handle v) <=? STORE_ID_MAX)) STORE_ERR_DAMAGED;
          _ ← revoke_device_locked s (d_handle v) (Some (label "recovery")) (Some (label "recovery revoke=all")) now;
          revoke_loop s user now guard' (revoked + 1)
      end
  end.

(** The most rounds the loop makes, one for each device. *)
Definition revoke_guard : nat := Z.to_nat 1024.
#[global] Arguments revoke_guard : simpl never.

(** The out state is [*revoked_out]. *)
Definition store_recovery_consume_ex (s : option store_t) (code_id : Z) (user_id ticket_hash : option blob)
    (now expires_at : Z) (revoke_all : bool) : T Z unit :=
  _ ← set_out (fun _ => 0);
  match s with
  | None => fail STORE_ERR_ARG
  | Some s =>
      _ ← check (id_ok user_id && bool_decide (is_Some ticket_hash)) STORE_ERR_ARG;
      let user := bytes_of user_id in
      revoked ← transaction (
        _ ← write_found (update_recovery_used code_id user now);
        _ ← write_db (clear_recovery user);
        _ ← write_unique (insert_ticket (bytes_of ticket_hash) user now expires_at);
        revoked ← (if revoke_all then revoke_loop s user now revoke_guard 0 else mret 0);
        _ ← audit_append s (label "recovery-use") (Some user) None (Some (label "ok")) now;
        mret revoked);
      set_out (fun _ => revoked)
  end.

Definition store_recovery_consume (s : option store_t) (code_id : Z) (user_id ticket_hash : option blob)
    (now expires_at : Z) : T Z unit :=
  store_recovery_consume_ex s code_id user_id ticket_hash now expires_at false.

(** The out state is [*locked_out] and [*locked_until_out]. *)
Definition store_recovery_note_failure (s : option store_t) (user_id : option blob) (now threshold lock_seconds : Z)
    : T (bool * Z) unit :=
  match s with
  | None => fail STORE_ERR_ARG
  | Some s =>
      _ ← check (id_ok user_id && (1 <=? threshold) && (0 <=? lock_seconds)) STORE_ERR_ARG;
      _ ← set_out (fun _ => (false, 0));
      let user := bytes_of user_id in
      transaction (
        _ ← write_found (bump_failures user);
        row ← select_opt (users_by_id user);
        match row with
        | None => fail STORE_ERR_NOT_FOUND
        | Some u =>
            if threshold <=? int32 (u_fail_count u) then
              let until := now + lock_seconds in
              _ ← write_db (lock_recovery user until);
              _ ← set_out (fun _ => (true, until));
              audit_append s (label "recovery-locked") (Some user) None (Some (label "five failures (§10.3)")) now
            else audit_append s (label "recovery-use") (Some user) None (Some (label "invalid")) now
        end)
  end.

(** [WHERE ticket_hash=?1 AND used_at IS NULL AND expires_at>?2] *)
Definition live_tickets (hash : blob) (now : Z) (d : db) : list ticket_row :=
  filter (fun e => e_hash e = hash /\ e_used_at e = None /\ now < e_expires_at e) (enroll_tickets d).

Definition ticket_body {O} (s : store_t) (hash expect_user handle pk : blob) (lbl : option blob) (now : Z) : T O bool :=
  row ← select_opt (live_tickets hash now);
  match row with
  | None => fail STORE_ERR_NOT_FOUND
  | Some e =>
      user ← copy_blob_col (e_user e) STORE_ID_MAX;
      _ ← check ((blen user =? blen expect_user) && memeq user expect_user (blen user)) STORE_ERR_NOT_FOUND;
      urow ← select_opt (users_by_id user);
      match urow with
      | None => fail STORE_ERR_NOT_FOUND
      | Some u =>
          _ ← check (bool_decide (snprintf_s 16 (u_status u) = ACTIVE)) STORE_ERR_STATE;
          _ ← write_found (update_ticket_used hash now);
          enroll_device_locked s handle user pk (Some (label "recovery")) (Some (label "recovery")) lbl now
      end
  end.

(** An idempotent enrollment rolls back: the ticket is not spent. *)
Definition store_enroll_via_ticket {O} (s : option store_t) (ticket_hash expect_user handle pk lbl : option blob)
    (now : Z) : T O unit :=
  match s with
  | None => fail STORE_ERR_ARG
  | Some s =>
      _ ← check (bool_decide (is_Some ticket_hash) && id_ok handle && bool_decide (is_Some pk) && id_ok expect_user)
                STORE_ERR_ARG;
      _ ← tx_begin;
      r ← try (ticket_body s (bytes_of ticket_hash) (bytes_of expect_user) (bytes_of handle) (bytes_of pk) lbl now);
      match r with
      | inl e => abandon e
      | inr true => tx_rollback
      | inr false => tx_commit
      end
  end.

(** ** The sweep *)

Definition store_sweep (s : option store_t) (now : Z) (counts : bool) : T store_sweep_counts_t unit :=
  match s with
  | None => fail STORE_ERR_ARG
  | Some _ =>
      _ ← check counts STORE_ERR_ARG;
      _ ← set_out (fun _ => SweepCounts 0 0 0);
      _ ← tx_begin;
      r ← try (
        n ← write_db (sweep_tokens now);
        _ ← set_out (fun _ => SweepCounts n 0 0);
        m ← write_db (sweep_codes now);
        _ ← set_out (fun _ => SweepCounts n m 0);
        k ← write_db (sweep_tickets now);
        set_out (fun _ => SweepCounts n m k));
      match r with
      | inl e => _ ← tx_rollback; _ ← set_out (fun _ => SweepCounts 0 0 0); fail e
      | inr _ => tx_commit
      end
  end.

(** ** Listings *)

(** SQLite compares BLOBs with [memcmp], the shorter of two equal prefixes first. *)
Fixpoint blob_leb (a b : blob) : bool :=
  match a, b with
  | [], _ => true
  | _, [] => false
  | x :: a', y :: b' => (bz x <? bz y) || ((bz x =? bz y) && blob_leb a' b')
  end.

(** [ORDER BY created_at ASC, user_id ASC] *)
Definition user_before (u1 u2 : user_row) : Prop :=
  u_created_at u1 < u_created_at u2 \/ (u_created_at u1 = u_created_at u2 /\ blob_leb (u_id u1) (u_id u2) = true).
#[global] Instance user_before_dec : RelDecision user_before.
Proof. intros u1 u2. unfold user_before. apply _. Defined.

(** [copy_blob_col] failing ends the walk with STORE_ERR_DB. *)
Fixpoint walk_capped {X R} (col : R -> blob) (visit : X -> R -> bool * X) (rows : list R) : T X unit :=
  ok ← sqlite;
  _ ← check ok STORE_ERR_DB;
  match rows with
  | [] => mret ()
  | r :: more =>
      _ ← copy_blob_col (col r) STORE_ID_MAX;
      stop ← visiting (fun x => visit x r);
      if stop : bool then mret () else walk_capped col visit more
  end.

Definition store_list_users {X} (s : option store_t)
    (fn : option (X -> blob -> store_role_t -> text -> Z -> bool * X)) : T X unit :=
  match s, fn with
  | Some _, Some fn =>
      _ ← prepare;
      rows ← peek_view (fun d => merge_sort user_before (users d));
      walk_capped u_id (fun x u => fn x (u_id u) (role_or (u_role u) STORE_ROLE_USER) (c_str (u_status u)) (u_created_at u)) rows
  | _, _ => fail STORE_ERR_ARG
  end.

Definition enrolled_before (v1 v2 : device_row) : Prop := d_enrolled_at v1 <= d_enrolled_at v2.
#[global] Instance enrolled_before_dec : RelDecision enrolled_before.
Proof. intros v1 v2. apply Z_le_dec. Defined.

(** The fingerprint of the device's current key, from the sub-select. *)
Definition current_fp (d : db) (handle : blob) : blob := bytes_of (k_fp <$> head (active_keys handle d)).

(** [ORDER BY d.enrolled_at ASC], ties in the engine's order *)
Definition devices_of (user : blob) (d : db) : list (device_row * blob) :=
  (fun v => (v, current_fp d (d_handle v))) <$>
    merge_sort enrolled_before (scan (filter (fun v => d_user v = user) (devices d))).

Definition store_list_devices {X} (s : option store_t) (user_id : option blob)
    (fn : option (X -> blob -> blob -> text -> Z -> Z -> blob -> bool * X)) : T X unit :=
  match s, fn with
  | Some _, Some fn =>
      _ ← check (id_ok user_id) STORE_ERR_ARG;
      _ ← prepare;
      _ ← bind_params;
      rows ← peek_view (devices_of (bytes_of user_id));
      walk_capped (fun r => d_handle r.1)
        (fun x r => let '(v, fp) := r in
           fn x (d_handle v) (copy_or_empty (bytes_of (d_label v)) STORE_ID_MAX) (c_str (d_status v))
              (d_enrolled_at v) (default 0 (d_last_seen v)) (copy_or_empty fp 64)) rows
  | _, _ => fail STORE_ERR_ARG
  end.

Definition store_audit_tail {X} (s : option store_t) (n : Z)
    (fn : option (X -> Z -> Z -> text -> blob -> blob -> text -> bool * X)) : T X unit :=
  match s, fn with
  | Some _, Some fn =>
      _ ← check (negb (n =? 0)) STORE_ERR_ARG;
      _ ← prepare;
      _ ← bind_params;
      rows ← peek_view (fun d => by_seq (ztake n (rev (by_seq (audit d)))));
      walk (fun x r => fn x (a_seq r) (a_at r) (c_str (a_event r)) (copy_or_empty (bytes_of (a_user r)) STORE_ID_MAX)
                          (copy_or_empty (bytes_of (a_handle r)) STORE_ID_MAX) (c_str (a_detail r))) rows
  | _, _ => fail STORE_ERR_ARG
  end.

End store.
