(* ===== verification/StoreLogic.v ===== *)
(** * Reasoning about the store's operations

    A relation [R] that every statement respects relates the committed
    database before an operation to the one after it, whatever fails on the
    way: a commit publishes a sequence of statements, a rollback publishes
    nothing, an autocommitted statement publishes itself.  [grows R m] is that
    fact for one C function; the hint database [store] proves it by the shape
    of the code. *)

From S2P Require Import Prelude StoreDb StoreTx Store StoreAuth.

(** A statement that takes a database only to [R]-related ones. *)
Definition respects (R : relation db) (s : statement) : Prop :=
  forall d d' n, s d = Applied d' n -> R d d'.

Definition grows (R : relation db) {O A} (m : T O A) : Prop :=
  forall o c r o' c', m o c = (r, o', c') -> R (disk c) (view c) ->
    R (disk c) (disk c') /\ R (disk c') (view c').

Lemma engine_same c b c' : engine c = (b, c') ->
  disk c' = disk c /\ (work c' = work c \/ (b = false /\ work c' = None)).
Proof.
  unfold engine. destruct (faults c) as [|[| |] fs]; intros [= <- <-]; simpl; auto.
Qed.

Section grows.
Context (R : relation db) `{!PreOrder R}.

Lemma engine_grows c b c' : engine c = (b, c') -> R (disk c) (view c) ->
  R (disk c) (disk c') /\ R (disk c') (view c').
Proof.
  unfold view. intros [-> [->|[_ ->]]]%engine_same HR; simpl; split; done.
Qed.

Lemma grows_ret {O A} (a : A) : grows R (mret (M := T O) a).
Proof. by intros o c r o' c' [= <- <- <-] HR. Qed.

Lemma grows_bind {O A B} (m : T O A) (f : A -> T O B) :
  grows R m -> (forall a, grows R (f a)) -> grows R (m ≫= f).
Proof.
  intros Hm Hf o c r o' c'. unfold mbind, T_bind.
  destruct (m o c) as [[[e|a] o1] c1] eqn:E; intros Hr HR.
  - injection Hr as <- <- <-. by eapply Hm.
  - destruct (Hm _ _ _ _ _ E HR) as [H1 H2]. destruct (Hf a _ _ _ _ _ Hr H2).
    split; [by etrans|done].
Qed.

Lemma grows_fail {O A} e : grows R (fail e : T O A).
Proof. by intros o c r o' c' [= <- <- <-] HR. Qed.

Lemma grows_check {O} b e : grows R (check b e : T O unit).
Proof. destruct b; [apply grows_ret | apply grows_fail]. Qed.

Lemma grows_set_out {O} (f : O -> O) : grows R (set_out f).
Proof. by intros o c r o' c' [= <- <- <-] HR. Qed.

Lemma grows_peek {O A} (q : db -> A) : grows R (peek_view q : T O A).
Proof. by intros o c r o' c' [= <- <- <-] HR. Qed.

Lemma grows_visiting {X A} (f : X -> A * X) : grows R (visiting f).
Proof. intros o c r o' c'. unfold visiting. destruct (f o). by intros [= <- <- <-] HR. Qed.

Lemma grows_try {O A} (m : T O A) : grows R m -> grows R (try m).
Proof.
  intros Hm o c r o' c'. unfold try. destruct (m o c) as [[r1 o1] c1] eqn:E.
  intros [= <- <- <-]. by eapply Hm.
Qed.

Lemma grows_sqlite {O} : grows R (sqlite : T O bool).
Proof.
  intros o c r o' c'. unfold sqlite. destruct (engine c) eqn:E. intros [= <- <- <-].
  by eapply engine_grows.
Qed.

Lemma grows_now `{Clock} {O} : grows R (now_unix : T O Z).
Proof. by intros o c r o' c' [= <- <- <-] HR. Qed.

Lemma grows_rollback {O} : grows R (tx_rollback : T O unit).
Proof. by intros o c r o' c' [= <- <- <-] HR. Qed.

Lemma grows_begin {O} : grows R (begin_immediate : T O bool).
Proof.
  intros o c r o' c'. unfold begin_immediate. destruct (engine c) as [b c1] eqn:E.
  pose proof (engine_grows c b c1 E) as HE.
  destruct b, (work c1) eqn:Ew; intros [= <- <- <-] HR; try by apply HE.
  destruct (HE HR) as [? ?]. done.
Qed.

Lemma grows_commit {O} : grows R (commit : T O bool).
Proof.
  intros o c r o' c'. unfold commit. destruct (engine c) as [b c1] eqn:E.
  pose proof (engine_grows c b c1 E) as HE.
  destruct b, (work c1) eqn:Ew; intros [= <- <- <-] HR; try by apply HE.
  destruct (HE HR) as [H1 H2]. unfold view in *. rewrite Ew in H2. simpl in *. split; [by etrans|done].
Qed.

Lemma grows_row {O A} (q : db -> list A) : grows R (step_row q : T O _).
Proof.
  intros o c r o' c'. unfold step_row. destruct (engine c) eqn:E. intros [= <- <- <-].
  by eapply engine_grows.
Qed.

Lemma grows_write {O} s : respects R s -> grows R (step_write s : T O _).
Proof.
  intros Hs o c r o' c'. unfold step_write. destruct (engine c) as [b c1] eqn:E.
  pose proof (engine_grows c b c1 E) as HE.
  destruct b; [|by intros [= <- <- <-]].
  destruct (s (view c1)) as [d n| |] eqn:Es; intros [= <- <- <-] HR; try by apply HE.
  destruct (HE HR) as [H1 H2]. apply Hs in Es. unfold put_view, view in *.
  destruct (work c1); simpl in *; split; try done; by etrans.
Qed.

End grows.

Create HintDb store.
#[export] Hint Resolve grows_ret grows_fail grows_check grows_set_out grows_peek grows_visiting grows_sqlite
  grows_now grows_rollback grows_begin grows_commit grows_row : store.

(** Follows the code: splits a bind, a match on a read value, a conditional. *)
Ltac grow :=
  match goal with
  | |- grows _ (mbind _ _) => apply grows_bind; [typeclasses eauto| |intros ?]
  | |- grows _ (try _) => apply grows_try
  | |- grows _ (step_write _) => apply grows_write; [typeclasses eauto|eauto 5 with store typeclass_instances]
  | |- grows _ (match ?x with _ => _ end) => destruct x
  | |- grows _ (let '_ := ?x in _) => destruct x
  | |- grows _ _ => solve [eauto 5 with store typeclass_instances]
  end.
Ltac grows_code := repeat (cbv zeta; grow).

(** ** The store's operations as steps

    Every function of [store.h] that can change the database, with its
    arguments; [perform] runs one and keeps the status and the connection. *)

Inductive store_op :=
| AddUser (user_id : option blob) (role : store_role_t)
| DisableUser (user_id : option blob) (by_ : option text) (reason : option blob)
| EnableUser (user_id : option blob) (by_ : option text)
| EnrollDevice (handle user_id pk : option blob) (via by_ : option text) (lbl : option blob)
| EnrollDeviceEx (handle user_id : option blob) (role : store_role_t) (pk : option blob) (via by_ : option text) (lbl : option blob)
| RotateKey (handle new_pk expect_old_pk hsid : option blob) (drop_tokens : bool) (now : Z)
| RevokeDevice (handle : option blob) (by_ : option text) (reason : option blob)
| TouchLastSeen (handle : option blob)
| AddToken (token_hash user_id handle hsid : option blob) (issued_at expires_at idle_expires_at : Z)
| VerifyToken (token_hash : option blob) (now idle_ttl_s : Z) (verdict info : bool)
| DeleteToken (token_hash : option blob)
| DeleteTokensForHandle (user_id handle : option blob)
| DeleteTokensForUser (user_id : option blob)
| AddLoginCode (code_hash user_id handle hsid state_hash : option blob) (issued_at expires_at : Z)
| ConsumeLoginCode (code_hash state_hash : option blob) (now : Z) (verdict : bool) (user_cap handle_cap : option Z)
| RecoveryReplace (user_id : option blob) (pwhash_strs : option (list (option text))) (now : Z)
| RecoveryConsume (code_id : Z) (user_id ticket_hash : option blob) (now expires_at : Z) (revoke_all : bool)
| NoteFailure (user_id : option blob) (now threshold lock_seconds : Z)
| EnrollViaTicket (ticket_hash expect_user handle pk lbl : option blob) (now : Z)
| Sweep (now : Z) (counts : bool).

(** The status and the connection a function leaves. *)
Definition run {O A} (m : T O A) (o : O) (c : conn) : store_status_t * conn :=
  let '(r, _, c') := m o c in (status r, c').

Definition perform `{Engine} `{Clock} `{StoreCrypto} (s : option store_t) (op : store_op) : conn -> store_status_t * conn :=
  match op with
  | AddUser u r => run (store_add_user s u r) ()
  | DisableUser u b r => run (store_disable_user s u b r) ()
  | EnableUser u b => run (store_enable_user s u b) ()
  | EnrollDevice h u pk via b l => run (store_enroll_device s h u pk via b l) ()
  | EnrollDeviceEx h u r pk via b l => run (store_enroll_device_ex s h u r pk via b l) (EnrollOut false false)
  | RotateKey h n old hs dt now => run (store_rotate_key s h n old hs dt now) (RotateOut 0 0)
  | RevokeDevice h b r => run (store_revoke_device s h b r) ()
  | TouchLastSeen h => run (store_touch_last_seen s h) ()
  | AddToken t u h hs i e l => run (store_add_token s t u h hs i e l) ()
  | VerifyToken t now ttl v i => run (store_verify_token s t now ttl v i) (VerifyOut STORE_TOKEN_UNKNOWN blank_info)
  | DeleteToken t => run (store_delete_token s t) ()
  | DeleteTokensForHandle u h => run (store_delete_tokens_for_handle s u h) ()
  | DeleteTokensForUser u => run (store_delete_tokens_for_user s u) ()
  | AddLoginCode c u h hs st i e => run (store_add_login_code s c u h hs st i e) ()
  | ConsumeLoginCode c st now v uc hc =>
      run (store_consume_login_code_ex s c st now v uc hc) (ConsumeOut STORE_CODE_UNKNOWN None None)
  | RecoveryReplace u ps now => run (store_recovery_replace s u ps now) 0
  | RecoveryConsume i u t now e ra => run (store_recovery_consume_ex s i u t now e ra) 0
  | NoteFailure u now th ls => run (store_recovery_note_failure s u now th ls) (false, 0)
  | EnrollViaTicket t u h pk l now => run (store_enroll_via_ticket s t u h pk l now) ()
  | Sweep now cs => run (store_sweep s now cs) (SweepCounts 0 0 0)
  end.

(** Any number of operations, one after the other. *)
Definition perform_all `{Engine} `{Clock} `{StoreCrypto} (s : option store_t) (ops : list store_op) (c : conn) : conn :=
  fold_left (fun c op => (perform s op c).2) ops c.

(** No transaction is open between operations. *)
Definition idle (c : conn) : Prop := work c = None.

Lemma idle_view c : idle c -> view c = disk c.
Proof. unfold idle, view. by intros ->. Qed.

(** ** What every operation of the store respects

    [Respected s A R] asks of [R] what one has to know about a relation to carry
    it through the operations of the store [s] that add no hash outside [A]:
    each of the SQL statements respects it, and so does appending an audit row
    about identifiers of legal size. *)

Definition small_id (id : option blob) : Prop := blen (bytes_of id) <= STORE_ID_MAX.

(** The hash an operation stores for a new token, login code or ticket is one
    of [A]. *)
Definition adds (A : blob -> Prop) (op : store_op) : Prop :=
  match op with
  | AddToken h _ _ _ _ _ _ | AddLoginCode h _ _ _ _ _ _ | RecoveryConsume _ _ h _ _ _ => A (bytes_of h)
  | _ => True
  end.

Class Respected `{Engine} `{StoreCrypto} (s : store_t) (A : blob -> Prop) (R : relation db) : Prop := {
  respected_order :: PreOrder R;
  respect_insert_user : forall id role now, respects R (insert_user id role now);
  respect_user_status : forall id st at_ reason, respects R (update_user_status id st at_ reason);
  respect_recovery : forall id f, respects R (update_recovery id f);
  respect_insert_device : forall h u l now via by_, respects R (insert_device h u l now via by_);
  respect_device_revoked : forall h now by_ reason, respects R (update_device_revoked h now by_ reason);
  respect_last_seen : forall h now, respects R (update_last_seen h now);
  respect_insert_key : forall h pk now, respects R (insert_key h pk (pk_fingerprint pk) now);
  respect_key_superseded : forall i now hsid, respects R (update_key_superseded i now hsid);
  respect_keys_revoked : forall h now, respects R (update_keys_revoked h now);
  respect_insert_token : forall t u h hs i e l, A t -> respects R (insert_token t u h hs i e l);
  respect_token_verified : forall t now idle, respects R (update_token_verified t now idle);
  respect_delete_tokens : forall P `{!forall t, Decision (P t)}, respects R (delete_tokens P);
  respect_insert_code : forall c u h hs st i e, A c -> respects R (insert_login_code c u h hs st i e);
  respect_code_used : forall c now, respects R (update_code_used c now);
  respect_sweep_codes : forall now, respects R (sweep_codes now);
  respect_supersede : forall u now, respects R (supersede_recovery u now);
  respect_insert_recovery : forall u p now, respects R (insert_recovery u p now);
  respect_recovery_used : forall i u now, respects R (update_recovery_used i u now);
  respect_insert_ticket : forall e u i x, A e -> respects R (insert_ticket e u i x);
  respect_ticket_used : forall e now, respects R (update_ticket_used e now);
  respect_sweep_tickets : forall now, respects R (sweep_tickets now);
  respect_audit : forall O ev u h de now, small_id u -> small_id h ->
    grows R (audit_append s ev u h de now : T O unit) }.

#[export] Hint Resolve respect_insert_user respect_user_status respect_recovery respect_insert_device
  respect_device_revoked respect_last_seen respect_insert_key respect_key_superseded respect_keys_revoked
  respect_insert_token respect_token_verified respect_delete_tokens respect_insert_code respect_code_used
  respect_sweep_codes respect_supersede respect_insert_recovery respect_recovery_used respect_insert_ticket
  respect_ticket_used respect_sweep_tickets : store.
#[export] Hint Unfold clear_recovery bump_failures lock_recovery sweep_tokens : store.

Section building_blocks.
Context (R : relation db) `{!PreOrder R}.

Lemma grows_tx_begin {O} : grows R (tx_begin : T O unit).
Proof. unfold tx_begin. grows_code. Qed.
Lemma grows_tx_commit {O} : grows R (tx_commit : T O unit).
Proof. unfold tx_commit. grows_code. Qed.
Lemma grows_abandon {O A} e : grows R (abandon e : T O A).
Proof. unfold abandon. grows_code. Qed.
#[local] Hint Resolve grows_tx_begin grows_tx_commit grows_abandon : store.

Lemma grows_transaction {O A} (m : T O A) : grows R m -> grows R (transaction m).
Proof. intros Hm. unfold transaction. grows_code. Qed.
Lemma grows_prepare {O} : grows R (prepare : T O unit).
Proof. unfold prepare. grows_code. Qed.
Lemma grows_bind_params {O} : grows R (bind_params : T O unit).
Proof. unfold bind_params. grows_code. Qed.
#[local] Hint Resolve grows_prepare grows_bind_params : store.
Lemma grows_select {O A} (q : db -> list A) : grows R (select q : T O _).
Proof. unfold select. grows_code. Qed.
#[local] Hint Resolve grows_select : store.
Lemma grows_step_opt {O A} (q : db -> list A) : grows R (step_opt q : T O _).
Proof. unfold step_opt. grows_code. Qed.
Lemma grows_step_done {O} s : respects R s -> grows R (step_done s : T O _).
Proof. intros. unfold step_done. grows_code. Qed.
Lemma grows_step_unique {O} s : respects R s -> grows R (step_unique s : T O _).
Proof. intros. unfold step_unique. grows_code. Qed.
#[local] Hint Resolve grows_step_opt grows_step_done grows_step_unique : store.
Lemma grows_select_opt {O A} (q : db -> list A) : grows R (select_opt q : T O _).
Proof. unfold select_opt. grows_code. Qed.
Lemma grows_write_db {O} s : respects R s -> grows R (write_db s : T O _).
Proof. intros. unfold write_db. grows_code. Qed.
Lemma grows_write_unique {O} s : respects R s -> grows R (write_unique s : T O _).
Proof. intros. unfold write_unique. grows_code. Qed.
#[local] Hint Resolve grows_select_opt grows_write_db grows_write_unique : store.
Lemma grows_write_found {O} s : respects R s -> grows R (write_found s : T O _).
Proof. intros. unfold write_found. grows_code. Qed.
#[local] Hint Resolve grows_write_found : store.
Lemma grows_copy {O} col cap : grows R (copy_blob_col col cap : T O _).
Proof. unfold copy_blob_col. grows_code. Qed.
Lemma grows_role {O} t : grows R (role_from_text t : T O _).
Proof. unfold role_from_text. grows_code. Qed.
#[local] Hint Resolve grows_copy grows_role : store.

Lemma grows_audit_head {O} : grows R (audit_head : T O _).
Proof. unfold audit_head. grows_code. Qed.
#[local] Hint Resolve grows_audit_head : store.

(** A relation every inserted audit row respects is respected by appending. *)
Lemma grows_any_audit `{StoreCrypto} {O} s ev u h de now :
  (forall r, respects R (insert_audit r)) -> grows R (audit_append s ev u h de now : T O unit).
Proof. intros Hr. unfold audit_append. grows_code. Qed.

Lemma grows_guard {O A} b e (f : unit -> T O A) : (b = true -> grows R (f ())) -> grows R (check b e ≫= f).
Proof.
  intros Hf. destruct b; [|by intros o c r o' c' [= <- <- <-] HR].
  intros o c r o' c' H. exact (Hf eq_refl o c r o' c' H).
Qed.

(** What the values a function produces have in common. *)
Definition yields {O A} (m : T O A) (Q : A -> Prop) : Prop :=
  forall o c a o' c', m o c = (inr a, o', c') -> Q a.

Lemma grows_bind_post {O A B} (Q : A -> Prop) (m : T O A) (f : A -> T O B) :
  yields m Q -> grows R m -> (forall a, Q a -> grows R (f a)) -> grows R (m ≫= f).
Proof.
  intros HQ Hm Hf o c r o' c'. unfold mbind, T_bind.
  destruct (m o c) as [[[e|a] o1] c1] eqn:E; intros Hr HR.
  - injection Hr as <- <- <-. by eapply Hm.
  - destruct (Hm _ _ _ _ _ E HR) as [H1 H2]. destruct (Hf a (HQ _ _ _ _ _ E) _ _ _ _ _ Hr H2).
    split; [by etrans|done].
Qed.

End building_blocks.

#[export] Hint Resolve grows_tx_begin grows_tx_commit grows_abandon grows_prepare grows_bind_params grows_select grows_step_opt grows_step_done grows_step_unique grows_select_opt grows_write_db grows_write_unique grows_write_found grows_copy grows_role grows_audit_head : store.

Lemma id_ok_small id : id_ok id = true -> small_id id.
Proof. unfold small_id. destruct id; simpl; [|done]. intros [_ ?%Z.leb_le]%andb_true_iff. done. Qed.
Lemma id_ok_bytes id : id_ok id = true -> small_id (Some (bytes_of id)).
Proof. apply id_ok_small. Qed.
Lemma small_none : small_id None.
Proof. by vm_compute. Qed.
#[export] Hint Resolve id_ok_small id_ok_bytes small_none : store.

Lemma user_of_handle_yields {O} h : yields (try (user_of_handle h STORE_ID_MAX) : T O _)
  (fun r => match r with inr u => small_id (Some u) | inl _ => True end).
Proof.
  intros o c a o' c'. unfold try. destruct (user_of_handle h STORE_ID_MAX o c) as [[[e|u] o1] c1] eqn:E;
    intros [= <- <- <-]; [done|].
  unfold user_of_handle, mbind, T_bind in E. destruct (select _ o c) as [[[e|rc] o2] c2]; [done|].
  destruct rc as [v| |]; [|done..]. destruct (_ && _) eqn:Eb in E; [|done]. injection E as <- _ _.
  apply andb_true_iff in Eb as [_ ?%Z.leb_le]. done.
Qed.

Lemma copy_yields {O} col cap : yields (copy_blob_col col cap : T O _) (fun b => blen b <= cap).
Proof.
  intros o c b o' c'. unfold copy_blob_col. destruct (cap <? blen col) eqn:E; [done|].
  intros [= <- _ _]. by apply Z.ltb_ge.
Qed.

(** Follows the code like [grow], remembering the guards passed. *)
Ltac guarded :=
  match goal with
  | |- grows _ (mbind _ (check ?b _)) =>
      let H := fresh "G" in
      apply grows_guard; [typeclasses eauto|intros H; repeat (apply andb_true_iff in H as [H ?])]
  | |- grows _ _ => grow
  end.
Ltac guarded_code := repeat (cbv zeta; guarded).

(** A property every operation keeps. *)
Definition keeps (P : db -> Prop) (d d' : db) : Prop := P d -> P d'.

#[global] Instance keeps_order P : PreOrder (keeps P).
Proof. split; [by intros d ?|]. intros d1 d2 d3 H1 H2 H. unfold keeps in *. auto. Qed.

(** One goal for each effect a statement can have; statements on tables that
    [keeps P] does not look at are done. *)
Ltac each_effect :=
  let d := fresh "d" in let d' := fresh "d'" in let n := fresh "n" in
  intros d d' n; unfold insert_user, update_user_status, update_recovery, insert_device,
    update_device_revoked, update_last_seen, insert_key, update_key_superseded, update_keys_revoked, insert_token,
    update_token_verified, delete_tokens, insert_login_code, update_code_used, sweep_codes, supersede_recovery,
    insert_recovery, update_recovery_used, insert_ticket, update_ticket_used, sweep_tickets, insert_audit;
  repeat case_match; intros [= <- <-]; try exact (fun Hc => Hc).
Ltac each_statement := split; [apply _|intros; try (apply (grows_any_audit _); intros); each_effect ..].

Section respected.
Context `{EN : Engine} `{CK : Clock} `{SC : StoreCrypto} (s : store_t) (A : blob -> Prop) (R : relation db) `{!Respected s A R}.
#[local] Hint Resolve respect_audit : store.

Lemma grows_add_user_locked {O} u r : small_id (Some u) -> grows R (add_user_locked s u r : T O unit).
Proof. intros. unfold add_user_locked. grows_code. Qed.
Lemma grows_active_key_of {O} h : grows R (active_key_of h : T O _).
Proof. unfold active_key_of. grows_code. Qed.
Lemma grows_pk_exists {O} pk : grows R (pk_exists pk : T O _).
Proof. unfold pk_exists. grows_code. Qed.
Lemma grows_owned {O} h u : grows R (device_owned_by h u : T O _).
Proof. unfold device_owned_by. grows_code. Qed.
#[local] Hint Resolve grows_add_user_locked grows_active_key_of grows_pk_exists grows_owned : store.
Lemma grows_enroll_locked {O} h u pk via by_ l now : small_id (Some h) -> small_id (Some u) ->
  grows R (enroll_device_locked s h u pk via by_ l now : T O _).
Proof. intros. unfold enroll_device_locked. grows_code. Qed.
Lemma grows_user_of_handle {O} h cap : grows R (user_of_handle h cap : T O _).
Proof. unfold user_of_handle. grows_code. Qed.
Lemma grows_both_active {O} h : grows R (device_and_user_active h : T O _).
Proof. unfold device_and_user_active. grows_code. Qed.
Lemma grows_revoke_locked {O} h by_ reason now : small_id (Some h) ->
  grows R (revoke_device_locked s h by_ reason now : T O _).
Proof. intros. unfold revoke_device_locked. grows_code. Qed.
#[local] Hint Resolve grows_enroll_locked grows_user_of_handle grows_both_active grows_revoke_locked : store.
Lemma grows_rotate_audit {O} h drop now : small_id (Some h) -> grows R (rotate_audit s h drop now : T O unit).
Proof.
  intros Hh. eapply grows_bind_post; [typeclasses eauto|apply user_of_handle_yields|grow; grow|].
  intros [e|u] Hu; apply respect_audit; auto with store.
Qed.
Lemma grows_rotate_rows h npk old hsid drop now : grows R (rotate_rows h npk old hsid drop now).
Proof. unfold rotate_rows. grows_code. Qed.
#[local] Hint Resolve grows_rotate_audit grows_rotate_rows : store.
Lemma grows_rotate_locked h npk old hsid drop now : small_id (Some h) ->
  grows R (rotate_locked s h npk old hsid drop now).
Proof. intros. unfold rotate_locked. grows_code. Qed.
Lemma grows_insert_codes {O} u hs now : grows R (insert_codes u hs now : T O _).
Proof. induction hs; simpl; grows_code. Qed.
Lemma grows_revoke_loop {O} u now g n : grows R (revoke_loop s u now g n : T O _).
Proof.
  revert n. induction g; intros n; simpl; guarded_code.
  apply grows_revoke_locked. by apply Z.leb_le.
Qed.
#[local] Hint Resolve grows_rotate_locked grows_insert_codes grows_revoke_loop : store.
Lemma grows_ticket_body {O} e u h pk l now : small_id (Some h) -> grows R (ticket_body s e u h pk l now : T O _).
Proof.
  intros Hh. unfold ticket_body. apply grows_bind; [typeclasses eauto|grow|intros [e0|]; [|grow]].
  eapply grows_bind_post; [typeclasses eauto|apply copy_yields|grow|intros ? ?]. grows_code.
Qed.
Lemma grows_read_code h uc hc : grows R (read_login_code h uc hc).
Proof. unfold read_login_code. grows_code. Qed.
Lemma grows_code_verdict v : grows R (code_verdict v).
Proof. unfold code_verdict. grows_code. Qed.
#[local] Hint Resolve grows_ticket_body grows_read_code grows_code_verdict : store.

Ltac grows_op :=
  repeat (cbv zeta; first [guarded | match goal with |- grows _ (transaction _) => apply grows_transaction; [typeclasses eauto|] end]).

Lemma grows_enroll_ex h u ro pk via b l : grows R (store_enroll_device_ex (Some s) h u ro pk via b l).
Proof. unfold store_enroll_device_ex. grows_op. Qed.

Lemma grows_revoke {O} h b r : grows R (store_revoke_device (Some s) h b r : T O unit).
Proof. unfold store_revoke_device. grows_op. Qed.

Lemma run_grows {O B} (m : T O B) o c : grows R m -> R (disk c) (view c) ->
  R (disk c) (disk (run m o c).2) /\ R (disk (run m o c).2) (view (run m o c).2).
Proof.
  intros Hm HR. unfold run. destruct (m o c) as [[r o'] c'] eqn:E. by eapply Hm.
Qed.

Lemma perform_grows op c : adds A op -> R (disk c) (view c) ->
  R (disk c) (disk (perform (Some s) op c).2) /\ R (disk (perform (Some s) op c).2) (view (perform (Some s) op c).2).
Proof.
  intros Hadds. destruct op; simpl in Hadds; apply run_grows;
    unfold store_add_user, store_disable_user, store_enable_user, set_user_status, store_enroll_device,
      store_enroll_device_ex, store_rotate_key, store_revoke_device, store_touch_last_seen, store_add_token,
      store_verify_token, store_delete_token, store_delete_tokens_for_handle, store_delete_tokens_for_user,
      store_add_login_code, store_consume_login_code_ex, store_recovery_replace, store_recovery_consume_ex,
      store_recovery_note_failure, store_enroll_via_ticket, store_sweep;
    grows_op.
Qed.

Lemma perform_all_grows ops c : Forall (adds A) ops -> R (disk c) (view c) ->
  R (disk c) (disk (perform_all (Some s) ops c)) /\
  R (disk (perform_all (Some s) ops c)) (view (perform_all (Some s) ops c)).
Proof.
  intros Ha. revert c. induction Ha as [|op ops Hop _ IH]; intros c HR; simpl; [done|].
  destruct (perform_grows op c Hop HR) as [H1 H2]. destruct (IH _ H2) as [H3 H4].
  split; [by etrans|done].
Qed.

End respected.

Lemma adds_any ops : Forall (adds (fun _ => True)) ops.
Proof. apply Forall_true. by intros []. Qed.

(** ** What a successful read saw

    A call that produced a value met no failure: the connection is as it was
    but for the schedule. *)

Definition same_db (c c' : conn) : Prop := disk c' = disk c /\ work c' = work c /\ reads c' = reads c.

#[global] Instance same_db_order : PreOrder same_db.
Proof. split; [by repeat split|]. intros a b c (?&?&?) (?&?&?). repeat split; congruence. Qed.

Lemma same_db_view c c' : same_db c c' -> view c' = view c.
Proof. unfold view. by intros (-> & -> & _). Qed.

Lemma bind_inr {O A B} (m : T O A) (f : A -> T O B) o c b o2 c2 :
  (m ≫= f) o c = (inr b, o2, c2) -> exists a o1 c1, m o c = (inr a, o1, c1) /\ f a o1 c1 = (inr b, o2, c2).
Proof. unfold mbind, T_bind. destruct (m o c) as [[[e|a] o1] c1]; [done|eauto]. Qed.

Lemma check_inr {O} b e (o : O) c u o' c' : check b e o c = (inr u, o', c') -> b = true /\ o' = o /\ c' = c.
Proof. destruct b; by intros [= <- <-]. Qed.

Lemma engine_true c c' : engine c = (true, c') -> same_db c c'.
Proof. unfold engine. destruct (faults c) as [|[| |] ?]; intros [= <-]; done. Qed.

Lemma sqlite_inr {O} (o : O) c o' c' : sqlite o c = (inr true, o', c') -> o' = o /\ same_db c c'.
Proof.
  unfold sqlite. destruct (engine c) as [b c1] eqn:E. intros [= -> <- <-]. by apply engine_true in E.
Qed.

Lemma prepare_inr {O} (o : O) c u o' c' : prepare o c = (inr u, o', c') -> o' = o /\ same_db c c'.
Proof. intros ([] & o1 & c1 & H1 & (?&->&->)%check_inr)%bind_inr; [|done]. by apply sqlite_inr in H1. Qed.

Lemma step_row_inr {O A} (q : db -> list A) (o : O) c rc o' c' : step_row q o c = (inr rc, o', c') -> rc <> ROW_ERROR ->
  o' = o /\ same_db c c' /\ rc = match q (view c) with a :: _ => ROW a | [] => NO_ROW end.
Proof.
  unfold step_row. destruct (engine c) as [b c1] eqn:E. intros [= <- <- <-] Hrc.
  destruct b; [|done]. apply engine_true in E. by rewrite (same_db_view _ _ E).
Qed.

Lemma step_opt_inr {O A} (q : db -> list A) (o : O) c row o' c' : step_opt q o c = (inr row, o', c') ->
  o' = o /\ same_db c c' /\ row = head (q (view c)).
Proof.
  intros (rc & o1 & c1 & H1 & H2)%bind_inr.
  destruct rc as [a| |]; [injection H2 as <- <- <-..|done]; apply step_row_inr in H1 as (-> & Hs & Hq); try done;
    destruct (q (view c)); naive_solver.
Qed.

Lemma select_opt_inr {O A} (q : db -> list A) (o : O) c row o' c' : select_opt q o c = (inr row, o', c') ->
  o' = o /\ same_db c c' /\ row = head (q (view c)).
Proof.
  intros (? & ? & c1 & [-> H1]%prepare_inr & H)%bind_inr.
  apply bind_inr in H as (? & ? & c2 & [-> H2]%prepare_inr & H).
  apply step_opt_inr in H as (-> & H3 & ->).
  assert (same_db c c2) as Hs by by etrans. split_and!; [done|by etrans|by rewrite (same_db_view _ _ Hs)].
Qed.

Lemma copy_inr {O} col cap (o : O) c b o' c' :
  copy_blob_col col cap o c = (inr b, o', c') -> b = col /\ blen col <= cap /\ o' = o /\ c' = c.
Proof. unfold copy_blob_col. case_match eqn:E; [done|]. intros [= <- <- <-]. repeat split; lia. Qed.

(** A write either reached the engine in the state the caller left, or failed. *)
Lemma write_db_cases {O} s (o : O) c r o' c' : write_db s o c = (r, o', c') -> o' = o /\
  ((exists e, r = inl e /\ disk c' = disk c /\ (work c' = work c \/ work c' = None)) \/
   (exists n d', r = inr n /\ s (view c) = Applied d' n /\
      disk c' = disk (put_view d' c) /\ work c' = work (put_view d' c))).
Proof.
  unfold write_db, prepare, bind_params, step_done, mbind, T_bind, sqlite, step_write.
  destruct (engine c) as [b1 c1] eqn:E1. destruct b1; [apply engine_true in E1|apply engine_same in E1 as [? ?]].
  2:{ intros [= <- <- <-]. naive_solver. }
  simpl. destruct (engine c1) as [b2 c2] eqn:E2. destruct b2; [apply engine_true in E2|apply engine_same in E2 as [? ?]].
  2:{ destruct E1 as (?&?&?). intros [= <- <- <-]. split; [done|]. left. eexists. split_and!; [done|congruence|].
      naive_solver congruence. }
  simpl. destruct (engine c2) as [b3 c3] eqn:E3. destruct b3; [apply engine_true in E3|apply engine_same in E3 as [? ?]].
  2:{ destruct E1 as (?&?&?), E2 as (?&?&?). intros [= <- <- <-]. split; [done|]. left. eexists.
      split_and!; [done|congruence|]. naive_solver congruence. }
  assert (same_db c c3) as Hs by (etrans; [exact E1|]; by etrans).
  rewrite (same_db_view _ _ Hs). destruct Hs as (Hd & Hw & _).
  destruct (s (view c)) as [d' n| |] eqn:Es; intros [= <- <- <-]; split; try done.
  - right. exists n, d'. unfold put_view. rewrite Hw. destruct (work c); simpl; auto.
  - left. eauto.
  - left. eauto.
Qed.

(** Code that only reads, whatever its engine calls answer. *)
Definition observes {O A} (m : T O A) : Prop := forall o c r o' c', m o c = (r, o', c') ->
  disk c' = disk c /\ (work c' = work c \/ work c' = None).

Lemma observes_bind {O A B} (m : T O A) (f : A -> T O B) :
  observes m -> (forall a, observes (f a)) -> observes (m ≫= f).
Proof.
  intros Hm Hf o c r o' c'. unfold mbind, T_bind. destruct (m o c) as [[[e|a] o1] c1] eqn:E; intros H;
    apply Hm in E as [Hd Hw].
  - by injection H as <- <- <-.
  - apply Hf in H as [Hd' Hw']. split; [congruence|]. destruct Hw as [Hw|Hw], Hw' as [Hw'|Hw']; naive_solver congruence.
Qed.

Lemma observes_done {O A} (m : T O A) : (forall o c, (m o c).2 = c) -> observes m.
Proof. intros Hm o c r o' c' H. specialize (Hm o c). rewrite H in Hm. simpl in Hm. subst. auto. Qed.

Lemma observes_engine {O A} (f : bool -> conn -> store_status_t + A) :
  observes (fun (o : O) c => let '(b, c') := engine c in (f b c', o, c')).
Proof.
  intros o c r o' c'. destruct (engine c) as [b c1] eqn:E. intros [= <- <- <-].
  apply engine_same in E as [? [?|[_ ?]]]; auto.
Qed.

Lemma observes_prepare {O} : observes (prepare : T O unit).
Proof.
  apply observes_bind; [apply (observes_engine (fun b _ => inr b))|]. intros []; by apply observes_done.
Qed.

Lemma observes_select {O A} (q : db -> list A) : observes (select q : T O _).
Proof.
  apply observes_bind; [apply observes_prepare|intros _]. apply observes_bind; [apply observes_prepare|intros _].
  apply (observes_engine (fun b c => inr (if b then match q (view c) with a :: _ => ROW a | [] => NO_ROW end else ROW_ERROR))).
Qed.

Lemma observes_user_of_handle {O} h cap : observes (user_of_handle h cap : T O _).
Proof.
  apply observes_bind; [apply observes_select|]. intros [v| |]; [|by apply observes_done..].
  destruct (_ && _); by apply observes_done.
Qed.
