(* ===== verification/StoreHistory.v ===== *)
(** * What no sequence of store operations undoes

    Two relations carried through every operation of the store, whatever
    fails: the schema's constraints hold ([schema_ok]), and rows only evolve
    ([evolves]): the audit log is appended to, users, devices, keys and recovery
    codes are never deleted, a revoked device stays revoked, a retired key stays
    retired and a spent recovery code stays spent. *)

From S2P Require Import Prelude StoreDb StoreTx Store StoreAuth StoreLogic.

(** ** Tables that grow *)

Section rows.
Context {A K : Type} (key : A -> K) (step : relation A).

(** The old rows, each taken to a [step]-related one, then rows with new keys. *)
Definition extends (l l' : list A) : Prop :=
  exists l1 new, l' = l1 ++ new /\ Forall2 step l l1 /\ (forall a, a ∈ new -> key a ∉ key <$> l).

Lemma extends_refl `{!Reflexive step} l : extends l l.
Proof. exists l, []. rewrite app_nil_r. split_and!; [done|reflexivity|by intros a ?%not_elem_of_nil]. Qed.

Lemma extends_insert `{!Reflexive step} l a : key a ∉ key <$> l -> extends l (l ++ [a]).
Proof.
  intros Ha. exists l, [a]. split_and!; [done|reflexivity|].
  intros b ->%list_elem_of_singleton. done.
Qed.

Lemma extends_set_where `{!Reflexive step} P `{!forall a, Decision (P a)} f l :
  (forall a, P a -> step a (f a)) -> extends l (set_where P f l).
Proof.
  intros Hf. exists (set_where P f l), []. rewrite app_nil_r. split_and!; [done| |by intros a ?%not_elem_of_nil].
  unfold set_where. apply Forall2_fmap_r, Forall_Forall2_diag, Forall_true. intros a. simpl. case_decide; auto.
Qed.

Context (step_key : forall a b, step a b -> key b = key a).

Lemma step_keys l l1 : Forall2 step l l1 -> key <$> l1 = key <$> l.
Proof. induction 1; simpl; f_equal; auto. Qed.

Lemma extends_trans `{!Transitive step} l l' l'' : extends l l' -> extends l' l'' -> extends l l''.
Proof.
  intros (l1 & new & -> & H1 & F1) (l2 & new2 & -> & H2 & F2).
  apply Forall2_app_inv_l in H2 as (l2a & l2b & Ha & Hb & ->).
  exists l2a, (l2b ++ new2). rewrite app_assoc. split_and!; [done|by etrans|].
  intros a [Hin|Hin]%elem_of_app.
  - apply (list_elem_of_fmap_2 key) in Hin. rewrite (step_keys _ _ Hb) in Hin.
    apply list_elem_of_fmap in Hin as (b & -> & Hb'). by apply F1.
  - intros Hk. apply (F2 a Hin). rewrite fmap_app, elem_of_app, (step_keys _ _ H1). by left.
Qed.

(** An old row survives, and a row with its key is its descendant when keys
    are unique. *)
Lemma extends_row l l' a : extends l l' -> a ∈ l -> exists b, b ∈ l' /\ step a b.
Proof.
  intros (l1 & new & -> & H1 & _) Ha. apply list_elem_of_lookup in Ha as [i Hi].
  destruct (Forall2_lookup_l _ _ _ _ _ H1 Hi) as (b & Hb & Hs). exists b. split; [|done].
  apply elem_of_app. left. by eapply list_elem_of_lookup_2.
Qed.

Lemma key_unique l a b : NoDup (key <$> l) -> a ∈ l -> b ∈ l -> key a = key b -> a = b.
Proof.
  intros Hn (i & Hi)%list_elem_of_lookup (j & Hj)%list_elem_of_lookup Hk.
  assert (i = j) as ->; [|congruence].
  eapply NoDup_lookup; [exact Hn| |]; rewrite list_lookup_fmap; [by rewrite Hi|rewrite Hj; simpl; congruence].
Qed.

Lemma extends_descendant l l' a b :
  extends l l' -> NoDup (key <$> l') -> a ∈ l -> b ∈ l' -> key b = key a -> step a b.
Proof.
  intros He Hn Ha Hb Hk. destruct (extends_row _ _ _ He Ha) as (b' & Hb' & Hs).
  by rewrite (key_unique l' b b' Hn Hb Hb') by (rewrite (step_key _ _ Hs); done).
Qed.

End rows.

(** Updates that leave a column alone, and deletions. *)
Section columns.
Context {A B : Type} (P : A -> Prop) `{!forall a, Decision (P a)} (g : A -> B).

Lemma set_where_column f l : (forall a, g (f a) = g a) -> g <$> set_where P f l = g <$> l.
Proof.
  intros Hf. unfold set_where. rewrite <- list_fmap_compose. apply list_fmap_ext.
  intros i a _. simpl. case_decide; auto.
Qed.

Lemma drop_where_column l : g <$> drop_where P l `sublist_of` g <$> l.
Proof. apply fmap_sublist, sublist_filter. Qed.

Lemma set_where_Forall (Q : A -> Prop) f l :
  (forall a, P a -> Q a -> Q (f a)) -> Forall Q l -> Forall Q (set_where P f l).
Proof.
  intros Hf Hl. unfold set_where. apply Forall_fmap. eapply Forall_impl; [exact Hl|].
  intros a Ha. simpl. case_decide; auto.
Qed.

Lemma drop_where_Forall (Q : A -> Prop) l : Forall Q l -> Forall Q (drop_where P l).
Proof. rewrite !Forall_forall. intros Hl a [_ Ha]%list_elem_of_filter. by apply Hl. Qed.

End columns.

Lemma NoDup_snoc {A} (l : list A) a : NoDup l -> a ∉ l -> NoDup (l ++ [a]).
Proof.
  intros Hl Ha. apply NoDup_app. split_and!; [done|intros x Hx ->%list_elem_of_singleton; done|apply NoDup_singleton].
Qed.

Lemma Forall_snoc_2 {A} (P : A -> Prop) l a : Forall P l -> P a -> Forall P (l ++ [a]).
Proof. intros. apply Forall_app; auto. Qed.

(** ** Row identifiers *)

Lemma foldr_max_le i l x : x ∈ i :: l -> x <= foldr Z.max i l.
Proof.
  induction l as [|j l IH]; simpl.
  - intros ->%list_elem_of_singleton. lia.
  - rewrite !elem_of_cons in *. intros [->|[->|Hx]]; [|lia|]; etrans; try apply IH; auto; lia.
Qed.

Lemma rowid_fresh `{EngineLaw} l i : rowid l = Some i -> i ∉ l.
Proof.
  unfold rowid. destruct l as [|j l]; [by intros _ ?%not_elem_of_nil|].
  case_match eqn:Hm.
  - intros [= <-] Hin%foldr_max_le. lia.
  - apply spare_fresh.
Qed.

(** ** Evolution *)

Definition user_step (u u' : user_row) : Prop :=
  u_id u' = u_id u /\ u_role u' = u_role u /\ u_created_at u' = u_created_at u.
Definition device_step (v v' : device_row) : Prop :=
  d_handle v' = d_handle v /\ d_user v' = d_user v /\ d_label v' = d_label v /\
  d_enrolled_at v' = d_enrolled_at v /\ d_enrolled_via v' = d_enrolled_via v /\
  (d_status v = REVOKED -> d_status v' = REVOKED).
Definition key_step (k k' : key_row) : Prop :=
  k_id k' = k_id k /\ k_handle k' = k_handle k /\ k_pk k' = k_pk k /\ k_fp k' = k_fp k /\
  k_valid_from k' = k_valid_from k /\ (k_status k <> ACTIVE -> k_status k' <> ACTIVE).
Definition recovery_step (r r' : recovery_row) : Prop :=
  r_id r' = r_id r /\ r_user r' = r_user r /\ r_pwhash r' = r_pwhash r /\ r_issued_at r' = r_issued_at r /\
  (is_Some (r_used_at r) -> r_used_at r' = r_used_at r /\ r_used_from r' = r_used_from r).

#[global] Instance user_step_order : PreOrder user_step.
Proof. split; [done|]. intros a b c (?&?&?) (?&?&?). repeat split; congruence. Qed.
#[global] Instance device_step_order : PreOrder device_step.
Proof. split; [done|]. intros a b c (?&?&?&?&?&?) (?&?&?&?&?&?). repeat split; try congruence; auto. Qed.
#[global] Instance key_step_order : PreOrder key_step.
Proof. split; [done|]. intros a b c (?&?&?&?&?&?) (?&?&?&?&?&?). repeat split; try congruence; auto. Qed.
#[global] Instance recovery_step_order : PreOrder recovery_step.
Proof.
  split; [done|]. intros a b c (?&?&?&?&Hab) (?&?&?&?&Hbc). repeat split; try congruence;
    destruct (Hab ltac:(done)) as [E1 E2]; destruct Hbc as [E3 E4]; congruence.
Qed.

(** One database can follow from another. *)
Definition evolves (d d' : db) : Prop :=
  extends u_id user_step (users d) (users d') /\
  extends d_handle device_step (devices d) (devices d') /\
  extends k_pk key_step (device_keys d) (device_keys d') /\
  extends r_id recovery_step (recovery_codes d) (recovery_codes d') /\
  audit d `prefix_of` audit d'.

#[global] Instance evolves_order : PreOrder evolves.
Proof.
  split.
  - intros d. split_and!; try apply extends_refl; try apply _; done.
  - intros d1 d2 d3 (?&?&?&?&?) (?&?&?&?&?). split_and!; try (eapply extends_trans; eauto); try apply _;
      try by intros ? ? (?&_). { by intros ? ? (?&?&?&_). } by etrans.
Qed.

(** A statement that changes one table keeps the others. *)
Ltac evolve_one :=
  split_and!; simpl; try (apply extends_refl; apply _); try done;
  try (apply extends_set_where; [apply _|intros ? ?]; repeat split; simpl; auto; try done);
  try (apply extends_insert; [apply _|first [by simpl|by apply rowid_fresh]]);
  try (by apply prefix_app_r);
  try by (unfold unused_of, is_Some in *; naive_solver).

#[global] Instance evolves_respected `{EngineLaw} `{StoreCrypto} s A : Respected s A evolves.
Proof. each_statement; evolve_one. Qed.

(** ** The constraints of the schema *)

Definition CHECKED_USER (u : user_row) : Prop := u_role u ∈ [OPERATOR; USER] /\ u_status u ∈ [ACTIVE; DISABLED].

Record schema_ok (d : db) : Prop := SchemaOk {
  users_unique : NoDup (u_id <$> users d);
  users_checked : Forall CHECKED_USER (users d);
  devices_unique : NoDup (d_handle <$> devices d);
  devices_owned : Forall (fun v => d_user v ∈ u_id <$> users d) (devices d);
  devices_checked : Forall (fun v => d_status v ∈ [ACTIVE; REVOKED]) (devices d);
  keys_unique : NoDup (k_id <$> device_keys d);
  pks_unique : NoDup (k_pk <$> device_keys d);
  fps_unique : NoDup (k_fp <$> device_keys d);
  keys_owned : Forall (fun k => k_handle k ∈ d_handle <$> devices d) (device_keys d);
  keys_checked : Forall (fun k => k_status k ∈ [ACTIVE; SUPERSEDED; REVOKED]) (device_keys d);
  one_active_key : forall h, (length (active_keys h d) <= 1)%nat;
  codes_unique : NoDup (c_hash <$> login_codes d);
  tokens_unique : NoDup (t_hash <$> tokens d);
  recovery_unique : NoDup (r_id <$> recovery_codes d);
  tickets_unique : NoDup (e_hash <$> enroll_tickets d);
  audit_unique : NoDup (a_seq <$> audit d) }.

Lemma empty_schema_ok : schema_ok empty_db.
Proof. split; simpl; try constructor; intros; simpl; lia. Qed.

(** Retiring keys leaves each handle no more active ones. *)
Lemma retire_active P `{!forall k, Decision (P k)} st now hs (l : list key_row) h :
  st <> ACTIVE ->
  (length (filter (fun k => k_handle k = h /\ k_status k = ACTIVE) (set_where P (retire_row st now hs) l))
   <= length (filter (fun k => k_handle k = h /\ k_status k = ACTIVE) l))%nat.
Proof.
  intros Hst. induction l as [|k l IH]; simpl; [done|].
  rewrite !filter_cons. simpl. repeat case_decide; simpl in *; try lia; naive_solver.
Qed.

Lemma active_keys_snoc (l : list key_row) k h :
  filter (fun k => k_handle k = h /\ k_status k = ACTIVE) (l ++ [k]) =
  filter (fun k => k_handle k = h /\ k_status k = ACTIVE) l ++
  (if decide (k_handle k = h /\ k_status k = ACTIVE) then [k] else []).
Proof. rewrite filter_app, filter_cons, filter_nil. done. Qed.

(** The tables a statement leaves alone keep their constraints; unique columns
    survive updates of other columns, deletions and checked insertions. *)
Ltac keep_schema :=
  let S := fresh "S" in
  intros S; destruct S; split; simpl; try assumption;
  rewrite ?fmap_app; try rewrite set_where_column by (intros; reflexivity); try assumption;
  try (apply NoDup_snoc; [assumption|first [assumption|by apply rowid_fresh]]);
  try (eapply sublist_NoDup; [|apply drop_where_column]; assumption);
  try (apply Forall_snoc_2; [assumption|]);
  try (apply set_where_Forall; [|assumption]);
  try match goal with H : Forall ?P ?l |- Forall _ ?l =>
        solve [apply (Forall_impl P); [exact H|]; intros ? ?; apply elem_of_app; by left] end;
  try (intros; unfold CHECKED_USER in *; destruct_and?; simpl; split; solve [assumption|constructor]);
  try (intros; simpl in *; set_solver).

Lemma insert_key_schema `{EngineLaw} h pk fp now : respects (keeps schema_ok) (insert_key h pk fp now).
Proof.
  intros d d' n. unfold insert_key. repeat case_match; intros [= <- <-]. keep_schema.
  - simpl. by apply dec_stable.
  - intros h'. unfold active_keys. simpl. rewrite active_keys_snoc, length_app.
    pose proof (one_active_key0 h') as Hone. unfold active_keys in *.
    simpl. destruct (decide (h = h' /\ ACTIVE = ACTIVE)) as [[-> _]|_]; simpl; [|lia].
    by destruct (filter _ _); simpl; [lia|].
Qed.

Lemma retire_schema P `{!forall k, Decision (P k)} st now hs d :
  st ∈ [SUPERSEDED; REVOKED] -> (keeps schema_ok) d (with_keys (set_where P (retire_row st now hs) (device_keys d)) d).
Proof.
  intros Hst. keep_schema. intros h. etrans; [apply retire_active; set_solver|apply one_active_key0].
Qed.
#[global] Instance keeps_schema_respected `{EngineLaw} `{StoreCrypto} s A : Respected s A (keeps schema_ok).
Proof.
  split; [apply _|intros; try (apply (grows_any_audit _); intros); try apply insert_key_schema; each_effect;
    try (apply retire_schema; set_solver); keep_schema ..].
Qed.

(** ** The lookup that authenticates *)

Lemma active_join_in h d x : x ∈ active_join h d -> exists k v u,
  k ∈ device_keys d /\ v ∈ devices d /\ u ∈ users d /\
  k_handle k = h /\ d_handle v = h /\ u_id u = d_user v /\
  k_status k = ACTIVE /\ d_status v = ACTIVE /\ u_status u = ACTIVE /\ x = (k_pk k, u_id u, u_role u).
Proof.
  unfold active_join. intros (k & Hx & [[Hh Hk] Hin]%list_elem_of_filter)%list_elem_of_bind.
  apply list_elem_of_bind in Hx as (v & Hx & [[Hv1 Hv2] Hv]%list_elem_of_filter).
  apply list_elem_of_bind in Hx as (u & ->%list_elem_of_singleton & [[Hu1 Hu2] Hu]%list_elem_of_filter).
  exists k, v, u. repeat split; congruence.
Qed.

(** What the lookup returns is one row of each table, all three active. *)
Lemma lookup_active_inr {O} s h po uc wr (o : O) c pk uid role o' c' :
  store_lookup_active s h po uc wr o c = (inr (pk, uid, role), o', c') -> exists k v u,
  k ∈ device_keys (view c) /\ v ∈ devices (view c) /\ u ∈ users (view c) /\
  k_handle k = bytes_of h /\ d_handle v = bytes_of h /\ u_id u = d_user v /\
  k_status k = ACTIVE /\ d_status v = ACTIVE /\ u_status u = ACTIVE /\ pk = k_pk k.
Proof.
  unfold store_lookup_active. destruct s; [|done].
  intros (? & ? & ? & (_&->&->)%check_inr & H)%bind_inr.
  apply bind_inr in H as (row & o1 & c1 & (-> & Hs & ->)%select_opt_inr & H).
  destruct (head (active_join _ _)) as [[[pk1 uid1] role1]|] eqn:Eh; [|done].
  apply bind_inr in H as (pk2 & ? & ? & (-> & _ & -> & ->)%copy_inr & H).
  apply bind_inr in H as (? & ? & ? & (_&->&->)%check_inr & H).
  apply bind_inr in H as (uid2 & ? & ? & _ & H). apply bind_inr in H as (role2 & ? & ? & _ & [= <- <- <- _ _]).
  destruct (active_join_in (bytes_of h) (view c) (pk1, uid1, role1)) as (k & v & u & ?); [|naive_solver].
  destruct (active_join _ _); [done|]. injection Eh as ->. by left.
Qed.

Section history.
Context `{EL : EngineLaw} `{CK : Clock} `{SC : StoreCrypto}.

Lemma perform_all_relates (R : relation db) s A `{!Respected s A R} ops c : Forall (adds A) ops -> idle c ->
  R (disk c) (disk (perform_all (Some s) ops c)).
Proof. intros Ha Hi. apply (perform_all_grows s A R); [done|]. by rewrite idle_view. Qed.

Lemma perform_all_view (R : relation db) s A `{!Respected s A R} ops c : Forall (adds A) ops -> idle c ->
  R (disk c) (view (perform_all (Some s) ops c)).
Proof.
  intros Ha Hi. destruct (perform_all_grows s A R ops c Ha) as [H1 H2]; [by rewrite idle_view|]. by etrans.
Qed.

(** What a statement run after the operations sees. *)
Lemma later s ops c : idle c -> schema_ok (disk c) ->
  schema_ok (view (perform_all (Some s) ops c)) /\ evolves (disk c) (view (perform_all (Some s) ops c)).
Proof.
  intros Hi Hs. split; [exact (perform_all_view (keeps schema_ok) s _ ops c (adds_any ops) Hi Hs)|exact (perform_all_view evolves s _ ops c (adds_any ops) Hi)].
Qed.

(** C8: Starting from a database that satisfies the schema, and whatever engine
    calls fail or abort on the way, after any sequence of store operations the
    committed database satisfies every constraint of the schema and follows
    from the initial one: the audit log has only been appended to, no user,
    device, key or recovery code has been deleted or changed its identity, and
    revocation, key retirement and code use have not been undone. *)
Theorem store_history s ops c : idle c -> schema_ok (disk c) ->
  schema_ok (disk (perform_all (Some s) ops c)) /\ evolves (disk c) (disk (perform_all (Some s) ops c)).
Proof.
  intros Hi Hs. split; [|exact (perform_all_relates evolves s _ ops c (adds_any ops) Hi)].
  exact (perform_all_relates (keeps schema_ok) s _ ops c (adds_any ops) Hi Hs).
Qed.

(** Once a device is revoked, no later sequence of operations makes its row
    active again. *)
Lemma revoked_stays s ops c v v' :
  idle c -> schema_ok (disk c) -> v ∈ devices (disk c) -> d_status v = REVOKED ->
  v' ∈ devices (view (perform_all (Some s) ops c)) -> d_handle v' = d_handle v -> d_status v' = REVOKED.
Proof.
  intros Hi Hs Hv Hr Hv' Hh. destruct (later s ops c Hi Hs) as [Hs' (_ & He & _)].
  assert (device_step v v') as (_&_&_&_&_&Hst); [|by apply Hst].
  eapply (extends_descendant d_handle); eauto using devices_unique. by intros ?? (?&_).
Qed.

(** Once a key is superseded or revoked, no later sequence of operations,
    with any failures, makes the lookup return it, for any handle. *)
Theorem retired_key_never_returned {O} s ops c k h po uc wr (o : O) pk uid role o' c' :
  idle c -> schema_ok (disk c) -> k ∈ device_keys (disk c) -> k_status k <> ACTIVE ->
  store_lookup_active (Some s) h po uc wr o (perform_all (Some s) ops c) = (inr (pk, uid, role), o', c') ->
  pk <> k_pk k.
Proof.
  intros Hi Hs Hk Hst H ->.
  apply lookup_active_inr in H as (k' & v & u & Hk' & _ & _ & _ & _ & _ & Ha & _ & _ & Hpk).
  assert (key_step k k') as (_&_&_&_&_&Hr); [|by apply Hr].
  destruct (later s ops c Hi Hs) as [Hs' (_ & _ & He & _)].
  eapply (extends_descendant k_pk); eauto using pks_unique. by intros ?? (?&?&?&_).
Qed.

End history.
