(* ===== verification/StoreAtomic.v ===== *)
(** * All or nothing

    Under any schedule of failures an operation of the store does what it would
    have done without them, or returns an error and leaves the committed
    database as it was.  [reader], [body] and [atomic] are the three shapes the
    argument has: code that does not write, code inside the caller's
    transaction, and a whole operation. *)

From S2P Require Import Prelude StoreDb StoreTx Store StoreAuth StoreLogic.

(** The same connection with no failure to come. *)
Definition calm (c : conn) : conn := Conn (disk c) (work c) [] (reads c).

(** [m] ran on [c] exactly as it runs without failures. *)
Definition undisturbed {O A} (m : T O A) (o : O) (c : conn) (r : store_status_t + A) (o' : O) (c' : conn) : Prop :=
  m o (calm c) = (r, o', calm c').

Definition reader {O A} (m : T O A) : Prop := forall o c r o' c', m o c = (r, o', c') ->
  disk c' = disk c /\
  ((undisturbed m o c r o' c' /\ work c' = work c) \/
   (r = inl STORE_ERR_DB /\ (work c' = work c \/ work c' = None))).

Definition body {O A} (m : T O A) : Prop := forall o c r o' c', is_Some (work c) -> m o c = (r, o', c') ->
  disk c' = disk c /\ ((undisturbed m o c r o' c' /\ is_Some (work c')) \/ r = inl STORE_ERR_DB).

Definition atomic {O A} (m : T O A) : Prop := forall o c r o' c', idle c -> m o c = (r, o', c') ->
  idle c' /\ (forall e, r = inl e -> disk c' = disk c) /\ (undisturbed m o c r o' c' \/ status r = STORE_ERR_DB).

Lemma engine_cases c b c' : engine c = (b, c') ->
  disk c' = disk c /\ reads c' = reads c /\
  ((b = true /\ work c' = work c) \/ (b = false /\ (work c' = work c \/ work c' = None))).
Proof. unfold engine. destruct (faults c) as [|[| |] fs]; intros [= <- <-]; simpl; naive_solver. Qed.

Lemma engine_calm c : engine (calm c) = (true, calm c).
Proof. done. Qed.

Lemma calm_eq c c' : disk c' = disk c -> work c' = work c -> reads c' = reads c -> calm c' = calm c.
Proof. unfold calm. by intros -> -> ->. Qed.

(** ** Readers *)

Lemma reader_ret {O A} (a : A) : reader (mret (M := T O) a).
Proof. intros o c r o' c' [= <- <- <-]. split; [done|by left]. Qed.
Lemma reader_fail {O A} e : reader (fail e : T O A).
Proof. intros o c r o' c' [= <- <- <-]. split; [done|by left]. Qed.
Lemma reader_check {O} b e : reader (check b e : T O unit).
Proof. destruct b; [apply reader_ret | apply reader_fail]. Qed.
Lemma reader_set_out {O} (f : O -> O) : reader (set_out f).
Proof. intros o c r o' c' [= <- <- <-]. split; [done|by left]. Qed.
Lemma reader_now `{Clock} {O} : reader (now_unix : T O Z).
Proof. intros o c r o' c' [= <- <- <-]. split; [done|by left]. Qed.

Lemma reader_bind {O A B} (m : T O A) (f : A -> T O B) :
  reader m -> (forall a, reader (f a)) -> reader (m ≫= f).
Proof.
  intros Hm Hf o c r o2 c2. unfold undisturbed, mbind, T_bind. destruct (m o c) as [[r1 o1] c1] eqn:E. intros H.
  apply Hm in E as [Hd [[Hu Hw]|[-> Hw]]]; [rewrite Hu|injection H as <- <- <-; auto].
  destruct r1 as [e|a]; [injection H as <- <- <-; auto|].
  apply Hf in H as [Hd2 H2]. rewrite Hd2, Hd, Hw in *. auto.
Qed.

Lemma reader_engine {O} : reader (b ← (sqlite : T O bool); check b STORE_ERR_DB).
Proof.
  intros o c r o' c'. unfold undisturbed, mbind, T_bind, sqlite. rewrite engine_calm.
  destruct (engine c) as [b c1] eqn:E. apply engine_cases in E as (Hd & Hr & [[-> Hw]|[-> Hw]]);
    intros [= <- <- <-]; split; auto.
  left. simpl. by rewrite (calm_eq c c1).
Qed.

Lemma reader_prepare {O} : reader (prepare : T O unit).
Proof. apply reader_engine. Qed.
Lemma reader_bind_params {O} : reader (bind_params : T O unit).
Proof. apply reader_engine. Qed.

Lemma reader_step_opt {O A} (q : db -> list A) : reader (step_opt q : T O _).
Proof.
  intros o c r o' c'. unfold undisturbed, step_opt, mbind, T_bind, step_row. rewrite engine_calm.
  destruct (engine c) as [b c1] eqn:E. apply engine_cases in E as (Hd & Hr & [[-> Hw]|[-> Hw]]);
    [|intros [= <- <- <-]; auto].
  replace (view (calm c)) with (view c1) by (unfold view; simpl; by rewrite Hd, Hw).
  rewrite <- (calm_eq c c1) by done.
  destruct (q (view c1)); intros [= <- <- <-]; auto.
Qed.

Create HintDb atomic.
#[export] Hint Resolve reader_ret reader_fail reader_check reader_set_out reader_now reader_prepare reader_bind_params
  reader_step_opt : atomic.

Ltac read :=
  match goal with
  | |- reader (mbind _ _) => apply reader_bind; [|intros ?]
  | |- reader (match ?x with _ => _ end) => destruct x
  | |- reader _ => solve [auto with atomic]
  end.
Ltac reads_code := repeat (cbv zeta; read).

Lemma reader_select_opt {O A} (q : db -> list A) : reader (select_opt q : T O _).
Proof. unfold select_opt. reads_code. Qed.
Lemma reader_copy {O} col cap : reader (copy_blob_col col cap : T O _).
Proof. unfold copy_blob_col. reads_code. Qed.
Lemma reader_head {O} : reader (audit_head : T O _).
Proof. unfold audit_head. reads_code; auto using reader_copy with atomic. Qed.
#[export] Hint Resolve reader_select_opt reader_copy reader_head : atomic.

(** ** Code inside a transaction *)

Lemma reader_body {O A} (m : T O A) : reader m -> body m.
Proof.
  intros Hm o c r o' c' Hw H. apply Hm in H as [Hd [[Hu ->]|[-> _]]]; auto.
Qed.

Lemma body_bind {O A B} (m : T O A) (f : A -> T O B) : body m -> (forall a, body (f a)) -> body (m ≫= f).
Proof.
  intros Hm Hf o c r o2 c2 Hw. unfold undisturbed, mbind, T_bind. destruct (m o c) as [[r1 o1] c1] eqn:E. intros H.
  apply Hm in E as [Hd [[Hu Hw1]| ->]]; [rewrite Hu|injection H as <- <- <-; auto|done].
  destruct r1 as [e|a]; [injection H as <- <- <-; auto|].
  apply Hf in H as [Hd2 H2]; [|done]. rewrite Hd2, Hd. auto.
Qed.

Lemma step_write_cases {O} s (o : O) c r o' c' : step_write s o c = (r, o', c') -> is_Some (work c) ->
  o' = o /\ disk c' = disk c /\
  ((step_write s o (calm c) = (r, o, calm c') /\ is_Some (work c')) \/ r = inr WRITE_ERROR).
Proof.
  unfold step_write. rewrite engine_calm. destruct (engine c) as [b c1] eqn:E. intros H Hw.
  apply engine_cases in E as (Hd & Hr & [[-> Hw1]|[-> Hw1]]); [|by injection H as <- <- <-; auto].
  replace (view (calm c)) with (view c1) by (unfold view; simpl; by rewrite Hd, Hw1).
  destruct Hw as [d0 Hw]. rewrite Hw in Hw1.
  destruct (s (view c1)) as [d n| |]; injection H as <- <- <-; split_and!; auto; try (left; split); eauto.
  - unfold put_view. by rewrite Hw1.
  - unfold put_view. simpl. rewrite Hw, Hw1. unfold calm. simpl. by rewrite Hd, Hr.
  - unfold put_view. rewrite Hw1. simpl. eauto.
  - by rewrite (calm_eq c c1) by congruence.
Qed.

Lemma body_step_done {O} s : body (step_done s : T O _).
Proof.
  intros o c r o' c' Hw. unfold undisturbed, step_done, mbind, T_bind.
  destruct (step_write s o c) as [[r1 o1] c1] eqn:E. intros H.
  apply step_write_cases in E as (-> & Hd & [[Hu Hw1]| ->]); [rewrite Hu|by injection H as <- <- <-; auto|done].
  destruct r1 as [e|[n| |]]; injection H as <- <- <-; auto.
Qed.

Lemma body_step_unique {O} s : body (step_unique s : T O _).
Proof.
  intros o c r o' c' Hw. unfold undisturbed, step_unique, mbind, T_bind.
  destruct (step_write s o c) as [[r1 o1] c1] eqn:E. intros H.
  apply step_write_cases in E as (-> & Hd & [[Hu Hw1]| ->]); [rewrite Hu|by injection H as <- <- <-; auto|done].
  destruct r1 as [e|[n| |]]; injection H as <- <- <-; auto.
Qed.

#[export] Hint Resolve reader_body body_step_done body_step_unique : atomic.

Ltac in_tx :=
  match goal with
  | |- body (mbind _ _) => apply body_bind; [|intros ?]
  | |- body (match ?x with _ => _ end) => destruct x
  | |- body _ => solve [auto with atomic]
  end.
Ltac tx_code := repeat (cbv zeta; in_tx).

Lemma body_write_db {O} s : body (write_db s : T O _).
Proof. unfold write_db. tx_code. Qed.
Lemma body_write_unique {O} s : body (write_unique s : T O _).
Proof. unfold write_unique. tx_code. Qed.
#[export] Hint Resolve body_write_db body_write_unique : atomic.
Lemma body_write_found {O} s : body (write_found s : T O _).
Proof. unfold write_found. tx_code. Qed.
#[export] Hint Resolve body_write_found : atomic.

Section bodies.
Context `{EN : Engine} `{CK : Clock} `{SC : StoreCrypto}.

Lemma body_audit_append {O} s ev u h de now : body (audit_append s ev u h de now : T O unit).
Proof. unfold audit_append. tx_code. Qed.
#[local] Hint Resolve body_audit_append : atomic.
Lemma body_add_user {O} s u r : body (add_user_locked s u r : T O unit).
Proof. unfold add_user_locked. tx_code. Qed.
Lemma body_active_key {O} h : body (active_key_of h : T O _).
Proof. unfold active_key_of. tx_code. Qed.
Lemma body_pk_exists {O} pk : body (pk_exists pk : T O _).
Proof. unfold pk_exists. tx_code. Qed.
Lemma body_owned {O} h u : body (device_owned_by h u : T O _).
Proof. unfold device_owned_by. tx_code. Qed.
#[local] Hint Resolve body_add_user body_active_key body_pk_exists body_owned : atomic.
Lemma body_enroll {O} s h u pk via by_ l now : body (enroll_device_locked s h u pk via by_ l now : T O _).
Proof. unfold enroll_device_locked. tx_code. Qed.
Lemma body_revoke {O} s h by_ reason now : body (revoke_device_locked s h by_ reason now : T O _).
Proof. unfold revoke_device_locked. tx_code. Qed.
#[local] Hint Resolve body_enroll body_revoke : atomic.
Lemma body_insert_codes {O} u hs now : body (insert_codes u hs now : T O _).
Proof. induction hs; simpl; tx_code. Qed.
Lemma body_revoke_loop {O} s u now g n : body (revoke_loop s u now g n : T O _).
Proof. revert n. induction g; intros n; simpl; tx_code. Qed.
#[local] Hint Resolve body_insert_codes body_revoke_loop : atomic.
Lemma body_ticket {O} s e u h pk l now : body (ticket_body s e u h pk l now : T O _).
Proof. unfold ticket_body. tx_code. Qed.
Lemma body_read_code h uc hc : body (read_login_code h uc hc).
Proof. unfold read_login_code. tx_code. Qed.
#[local] Hint Resolve body_ticket body_read_code : atomic.

(** ** Whole operations *)

Lemma atomic_reader {O A} (m : T O A) : reader m -> atomic m.
Proof.
  intros Hm o c r o' c' Hi H. unfold idle in *. apply Hm in H as [Hd [[Hu Hw]|[-> Hw]]].
  - split_and!; [congruence|auto..].
  - split_and!; [destruct Hw; congruence|auto..].
Qed.

Lemma atomic_after {O A B} (m : T O A) (f : A -> T O B) :
  reader m -> (forall a, atomic (f a)) -> atomic (m ≫= f).
Proof.
  intros Hm Hf o c r o2 c2 Hi. unfold undisturbed, mbind, T_bind. destruct (m o c) as [[r1 o1] c1] eqn:E. intros H.
  unfold idle in *. apply Hm in E as [Hd [[Hu Hw]|[-> Hw]]]; [rewrite Hu|].
  - destruct r1 as [e|a]; [injection H as <- <- <-; split_and!; [congruence|auto..]|].
    apply Hf in H as [Hi2 H2]; [|unfold idle; congruence]. rewrite Hd in H2. auto.
  - injection H as <- <- <-. split_and!; [destruct Hw; congruence|auto..].
Qed.

(** How a transaction ends: [finish m] from inside one. *)
Definition finish {O A} (m : T O A) : Prop := forall o c r o' c', is_Some (work c) -> m o c = (r, o', c') ->
  idle c' /\ (forall e, r = inl e -> disk c' = disk c) /\ (undisturbed m o c r o' c' \/ status r = STORE_ERR_DB).

(** A last step that cannot fail, such as a write to an out parameter. *)
Lemma atomic_then {O A} (m : T O A) (f : A -> O -> O) : atomic m -> atomic (a ← m; set_out (f a)).
Proof.
  intros Hm o c r o2 c2 Hi. unfold undisturbed, mbind, T_bind. destruct (m o c) as [[r1 o1] c1] eqn:E. intros H.
  apply Hm in E as (Hi1 & Hd & Hu); [|done]. destruct r1; injection H as <- <- <-; split_and!; eauto; try (by intros ? ?);
    destruct Hu as [Hu|Hu]; auto; left; by rewrite Hu.
Qed.

Lemma finish_then {O A} (m : T O A) (f : A -> O -> O) : finish m -> finish (a ← m; set_out (f a)).
Proof.
  intros Hm o c r o2 c2 Hi. unfold undisturbed, mbind, T_bind. destruct (m o c) as [[r1 o1] c1] eqn:E. intros H.
  apply Hm in E as (Hi1 & Hd & Hu); [|done]. destruct r1; injection H as <- <- <-; split_and!; eauto; try (by intros ? ?);
    destruct Hu as [Hu|Hu]; auto; left; by rewrite Hu.
Qed.

Lemma finish_abandon {O A} e : finish (abandon e : T O A).
Proof. intros o c r o' c' Hw [= <- <- <-]. split_and!; [done..|by left]. Qed.

Lemma finish_rollback {O} : finish (tx_rollback : T O unit).
Proof. intros o c r o' c' Hw [= <- <- <-]. split_and!; [done..|by left]. Qed.

Lemma finish_commit {O} : finish (tx_commit : T O unit).
Proof.
  intros o c r o' c' [d Hw]. unfold undisturbed, tx_commit, mbind, T_bind, commit. rewrite engine_calm. simpl. intros H.
  destruct (engine c) as [b c1] eqn:E. rewrite Hw.
  apply engine_cases in E as (Hd & Hr & [[-> Hw1]|[-> Hw1]]).
  - rewrite Hw1, Hw in H. injection H as <- <- <-. split_and!; [done..|]. left. unfold calm. simpl. by rewrite Hr.
  - injection H as <- <- <-. split_and!; [done..|]. by right.
Qed.

(** [m] only gives up: nothing is committed, the status is [STORE_ERR_DB]. *)
Definition gives_up {O A} (m : T O A) : Prop := forall o c r o' c', m o c = (r, o', c') ->
  idle c' /\ status r = STORE_ERR_DB /\ disk c' = disk c.

Lemma abandon_gives_up {O A} : gives_up (abandon STORE_ERR_DB : T O A).
Proof. by intros o c r o' c' [= <- <- <-]. Qed.

(** A body run with its status caught, and an ending chosen by it. *)
Lemma finish_try {O A B} (m : T O A) (k : store_status_t + A -> T O B) :
  body m -> (forall r, finish (k r)) -> gives_up (k (inl STORE_ERR_DB)) -> finish (r ← try m; k r).
Proof.
  intros Hm Hk Hdb o c r o' c' Hw. unfold undisturbed, mbind, T_bind, try.
  destruct (m o c) as [[r1 o1] c1] eqn:E. intros H.
  apply Hm in E as [Hd [[Hu Hw1]| ->]]; [rewrite Hu| |done].
  - apply Hk in H as (Hi & Hd' & Hu'); [|done]. rewrite <- Hd. auto.
  - apply Hdb in H as (? & ? & Hd'). split_and!; [done|congruence|by right].
Qed.

Lemma atomic_begin {O B} (m : T O B) : finish m -> atomic (_ ← tx_begin; m).
Proof.
  intros Hm o c r o' c' Hi. unfold undisturbed, tx_begin, mbind, T_bind, begin_immediate.
  rewrite engine_calm. simpl. destruct (engine c) as [b c1] eqn:E. unfold idle in Hi. rewrite Hi.
  apply engine_cases in E as (Hd & Hr & [[-> Hw]|[-> Hw]]).
  2:{ intros [= <- <- <-]. unfold idle. split_and!; [destruct Hw; congruence|done|by right]. }
  rewrite Hw, Hi. simpl. set (c2 := Conn (disk c1) (Some (disk c1)) (faults c1) (reads c1)).
  replace (Conn (disk c) (Some (disk c)) [] (reads c)) with (calm c2) by (unfold calm; simpl; by rewrite Hd, Hr).
  intros H. apply Hm in H as (Hi' & Hd' & Hu); [|by eexists]. simpl in Hd'. rewrite Hd in Hd'. auto.
Qed.

Lemma atomic_transaction {O A} (m : T O A) : body m -> atomic (transaction m).
Proof.
  intros Hm. apply atomic_begin, finish_try; [done| |apply abandon_gives_up].
  intros [e|a]; [apply finish_abandon|]. intros o c r o' c' Hw. unfold undisturbed, mbind, T_bind.
  destruct (tx_commit o c) as [[r1 o1] c1] eqn:E. intros H. apply finish_commit in E as (Hi & Hd & Hu); [|done].
  destruct r1; injection H as <- <- <-; split_and!; eauto; try (by intros ? ?); destruct Hu as [Hu|Hu]; auto; left; by rewrite Hu.
Qed.

(** Any transaction, whatever its body: it may not begin; it may end without
    committing; or the database it was in becomes the committed one. *)
Lemma transaction_cases {O A} (m : T O A) o c r o' c' : idle c -> transaction m o c = (r, o', c') -> idle c' /\
  ((exists e, r = inl e /\ disk c' = disk c) \/
   exists c1 r2 o2 c2, disk c1 = disk c /\ work c1 = Some (disk c) /\ reads c1 = reads c /\ m o c1 = (r2, o2, c2) /\
     ((exists e, r = inl e /\ disk c' = disk c2) \/
      (exists a, r2 = inr a /\ r = inr a /\ work c2 = Some (disk c')))).
Proof.
  unfold idle, transaction, tx_begin, begin_immediate, mbind, T_bind. intros Hi.
  destruct (engine c) as [b c1] eqn:E. apply engine_cases in E as (Hd & Hr & [[-> Hw]|[-> Hw]]).
  2:{ intros [= <- <- <-]. split; [destruct Hw; congruence|]. left. by eexists. }
  rewrite Hw, Hi. simpl. set (c2 := Conn _ _ _ _). unfold try.
  destruct (m o c2) as [[r2 o2] c3] eqn:E3. intros H.
  assert (work c' = None /\ ((exists e, r = inl e /\ disk c' = disk c3) \/
    (exists a, r2 = inr a /\ r = inr a /\ work c3 = Some (disk c')))) as [Hi' Hc].
  { destruct r2 as [e|a]; [injection H as <- <- <-; eauto|].
    unfold tx_commit, commit, mbind, T_bind in H. destruct (engine c3) as [b c4] eqn:E4.
    apply engine_cases in E4 as (Hd4 & Hr4 & [[-> Hw4]|[-> Hw4]]).
    - rewrite Hw4 in H. destruct (work c3) as [w|]; injection H as <- <- <-; eauto 10.
    - injection H as <- <- <-. eauto 10. }
  split; [done|]. right. exists c2, r2, o2, c3. split_and!; [done|by simpl; rewrite Hd|done..].
Qed.

(** A single statement outside a transaction. *)
Lemma atomic_step_done {O} s : atomic (step_done s : T O _).
Proof.
  intros o c r o' c' Hi. unfold undisturbed, step_done, mbind, T_bind, step_write. rewrite engine_calm.
  unfold idle in Hi. destruct (engine c) as [b c1] eqn:E.
  apply engine_cases in E as (Hd & Hr & [[-> Hw]|[-> Hw]]).
  2:{ intros [= <- <- <-]. unfold idle. split_and!; [destruct Hw; congruence|done|by right]. }
  replace (view (calm c)) with (view c1) by (unfold view; simpl; by rewrite Hd, Hw).
  rewrite Hi in Hw. unfold put_view. simpl. rewrite Hw, Hi.
  destruct (s (view c1)) as [d n| |]; intros [= <- <- <-]; split_and!; try done; auto.
  left. unfold calm. simpl. by rewrite Hr.
Qed.

Lemma atomic_write_db {O} s : atomic (write_db s : T O _).
Proof.
  apply atomic_after; [apply reader_prepare|intros _]. apply atomic_after; [apply reader_bind_params|intros _].
  apply atomic_step_done.
Qed.

#[local] Hint Resolve finish_abandon finish_rollback finish_commit finish_then atomic_then atomic_transaction
  atomic_step_done atomic_write_db atomic_reader : atomic.

Lemma atomic_ret {O A B} (m : T O A) (f : A -> B) : atomic m -> atomic (a ← m; mret (f a)).
Proof.
  intros Hm o c r o2 c2 Hi. unfold undisturbed, mbind, T_bind. destruct (m o c) as [[r1 o1] c1] eqn:E. intros H.
  apply Hm in E as (Hi1 & Hd & Hu); [|done]. destruct r1; injection H as <- <- <-; split_and!; eauto; try (by intros ? ?);
    destruct Hu as [Hu|Hu]; auto; left; by rewrite Hu.
Qed.

Lemma finish_out {O A} (f : O -> O) (m : T O A) : finish m -> finish (_ ← set_out f; m).
Proof. intros Hm o c. apply (Hm (f o) c). Qed.

(** The sweep's error exit also zeroes the counts. *)
Lemma reset_gives_up {O A} (f : O -> O) : gives_up (_ ← tx_rollback; _ ← set_out f; fail STORE_ERR_DB : T O A).
Proof. by intros o c r o' c' [= <- <- <-]. Qed.
Lemma finish_reset {O A} (f : O -> O) e : finish (_ ← tx_rollback; _ ← set_out f; fail e : T O A).
Proof. intros o c r o' c' Hw [= <- <- <-]. split_and!; [done..|by left]. Qed.
#[local] Hint Resolve finish_reset : atomic.

End bodies.

#[export] Hint Resolve body_audit_append body_add_user body_active_key body_pk_exists body_owned body_enroll
  body_revoke body_insert_codes body_revoke_loop body_ticket body_read_code finish_abandon
  finish_rollback finish_commit finish_then atomic_then atomic_transaction atomic_step_done
  atomic_write_db atomic_reader finish_reset : atomic.

(** Follows a whole operation. *)
Ltac whole :=
  match goal with
  | |- atomic (transaction _) => apply atomic_transaction; tx_code
  | |- atomic (mbind _ tx_begin) => apply atomic_begin
  | |- atomic (mbind (fun _ => set_out _) (transaction _)) => apply atomic_then
  | |- atomic (mbind (fun _ => set_out _) (write_db _)) => apply atomic_then
  | |- atomic (mbind (fun _ => mret _) (step_done _)) => apply atomic_ret
  | |- atomic (mbind _ _) => apply atomic_after; [solve [auto with atomic]|intros ?]
  | |- finish (mbind _ (try _)) => apply finish_try; [solve [tx_code]| |solve [apply abandon_gives_up|apply reset_gives_up]]; intros ?
  | |- finish (mbind _ (set_out _)) => apply finish_out
  | |- finish (mbind (fun _ => set_out _) _) => apply finish_then
  | |- atomic (match ?x with _ => _ end) => destruct x
  | |- finish (match ?x with _ => _ end) => destruct x
  | |- atomic _ => solve [auto with atomic]
  | |- finish _ => solve [auto with atomic]
  end.

Ltac whole_code := repeat (cbv zeta; whole).

Section operations.
Context `{EN : Engine} `{CK : Clock} `{SC : StoreCrypto}.

(** The two operations that are not of this shape: the rotation, which reads
    past an error, and [store_enroll_device], which commits on a conflict. *)
Definition plain (op : store_op) : bool :=
  match op with RotateKey _ _ _ _ _ _ => false | EnrollDevice _ _ _ _ _ _ => false | _ => true end.

Lemma run_atomic {O A} (m : T O A) o c st c' : atomic m -> idle c -> run m o c = (st, c') ->
  idle c' /\ (st <> STORE_OK -> disk c' = disk c) /\ (run m o (calm c) = (st, calm c') \/ st = STORE_ERR_DB).
Proof.
  unfold run. intros Hm Hi. destruct (m o c) as [[r o'] c1] eqn:E. intros [= <- <-].
  apply Hm in E as (Hi' & Hd & Hu); [|done]. split_and!; auto; [|destruct Hu as [->|]; auto].
  intros Hst. destruct r as [e|]; [by eapply Hd|done].
Qed.

Lemma add_user_atomic {O} s u r : atomic (store_add_user s u r : T O _).
Proof. unfold store_add_user. whole_code. Qed.
Lemma user_status_atomic {O} s u st b r dt ev : atomic (set_user_status s u st b r dt ev : T O _).
Proof. unfold set_user_status. whole_code. Qed.
Lemma enroll_ex_atomic s h u ro pk via b l : atomic (store_enroll_device_ex s h u ro pk via b l).
Proof. unfold store_enroll_device_ex. whole_code. Qed.
Lemma revoke_atomic {O} s h b r : atomic (store_revoke_device s h b r : T O _).
Proof. unfold store_revoke_device. whole_code. Qed.
Lemma touch_atomic {O} s h : atomic (store_touch_last_seen s h : T O _).
Proof. unfold store_touch_last_seen. whole_code. Qed.
Lemma add_token_atomic {O} s t u h hs i e l : atomic (store_add_token s t u h hs i e l : T O _).
Proof. unfold store_add_token. whole_code. Qed.
Lemma verify_token_atomic s t now ttl v i : atomic (store_verify_token s t now ttl v i).
Proof. unfold store_verify_token. whole_code. Qed.
Lemma delete_token_atomic {O} s t : atomic (store_delete_token s t : T O _).
Proof. unfold store_delete_token. whole_code. Qed.
Lemma delete_handle_atomic {O} s u h : atomic (store_delete_tokens_for_handle s u h : T O _).
Proof. unfold store_delete_tokens_for_handle. whole_code. Qed.
Lemma delete_user_atomic {O} s u : atomic (store_delete_tokens_for_user s u : T O _).
Proof. unfold store_delete_tokens_for_user. whole_code. Qed.
Lemma add_code_atomic {O} s c u h hs st i e : atomic (store_add_login_code s c u h hs st i e : T O _).
Proof. unfold store_add_login_code. whole_code. Qed.
Lemma consume_code_atomic s c st now v uc hc : atomic (store_consume_login_code_ex s c st now v uc hc).
Proof. unfold store_consume_login_code_ex, code_verdict. whole_code. Qed.
Lemma replace_atomic s u ps now : atomic (store_recovery_replace s u ps now).
Proof. unfold store_recovery_replace. whole_code. Qed.
Lemma recovery_consume_atomic s i u t now e ra : atomic (store_recovery_consume_ex s i u t now e ra).
Proof. unfold store_recovery_consume_ex. whole_code. Qed.
Lemma note_failure_atomic s u now th ls : atomic (store_recovery_note_failure s u now th ls).
Proof. unfold store_recovery_note_failure. whole_code. Qed.
Lemma ticket_atomic {O} s t u h pk l now : atomic (store_enroll_via_ticket s t u h pk l now : T O _).
Proof. unfold store_enroll_via_ticket. whole_code. Qed.
Lemma sweep_atomic s now cs : atomic (store_sweep s now cs).
Proof. unfold store_sweep. whole_code. Qed.

Lemma perform_atomic s op c st c' : plain op = true -> idle c -> perform s op c = (st, c') ->
  idle c' /\ (st <> STORE_OK -> disk c' = disk c) /\ (perform s op (calm c) = (st, calm c') \/ st = STORE_ERR_DB).
Proof.
  intros Hop. destruct op; try done; apply run_atomic; clear Hop;
    unfold store_disable_user, store_enable_user;
    auto using add_user_atomic, user_status_atomic, enroll_ex_atomic, revoke_atomic, touch_atomic, add_token_atomic,
      verify_token_atomic, delete_token_atomic, delete_handle_atomic, delete_user_atomic, add_code_atomic,
      consume_code_atomic, replace_atomic, recovery_consume_atomic, note_failure_atomic, ticket_atomic, sweep_atomic.
Qed.

(** ** No operation leaves a transaction open *)

Lemma commit_idle {O} (o : O) c r o' c' : tx_commit o c = (r, o', c') -> idle c'.
Proof.
  unfold tx_commit, commit, mbind, T_bind. destruct (engine c) as [[] c1]; [destruct (work c1)|];
    by intros [= <- <- <-].
Qed.

Lemma commit_outcome {O} (o : O) c r o' c' : tx_commit o c = (r, o', c') ->
  (r = inr () /\ work c = Some (disk c')) \/ (r = inl STORE_ERR_DB /\ disk c' = disk c).
Proof.
  unfold tx_commit, commit, mbind, T_bind. destruct (engine c) as [b c1] eqn:E.
  apply engine_cases in E as (Hd & Hr & [[-> Hw]|[-> Hw]]); [rewrite Hw; destruct (work c)|];
    intros [= <- <- <-]; auto.
Qed.

Lemma enroll_idle {O} s h u pk via b l (o : O) c r o' c' : idle c ->
  store_enroll_device s h u pk via b l o c = (r, o', c') -> idle c'.
Proof.
  intros Hi. unfold store_enroll_device. destruct s as [s|]; [|by intros [= <- <- <-]].
  unfold check, mbind, T_bind. destruct (id_ok h && _ && _); [|by intros [= <- <- <-]]. simpl.
  unfold tx_begin, begin_immediate, mbind, T_bind. destruct (engine c) as [bo c1] eqn:E.
  assert (idle c1) as Hi1 by (unfold idle in *; apply engine_cases in E as (_ & _ & [[_ ?]|[_ [?|?]]]); congruence).
  destruct bo; [|by intros [= <- <- <-]]. rewrite Hi1. simpl. unfold try at 1.
  destruct (enroll_device_locked _ _ _ _ _ _ _ _ _ _) as [[r2 o2] c2].
  destruct r2 as [[]|[]]; try (by intros [= <- <- <-]); [|by apply commit_idle].
  unfold try. destruct (tx_commit o2 c2) as [[r3 o3] c3] eqn:E3. intros [= <- <- <-]. by eapply commit_idle.
Qed.

Lemma rotate_idle s h n old hs dt now o c r o' c' : idle c ->
  store_rotate_key s h n old hs dt now o c = (r, o', c') -> idle c'.
Proof.
  intros Hi. unfold store_rotate_key, mbind, T_bind. simpl. destruct s as [s|]; [|by intros [= <- <- <-]].
  unfold check, mbind, T_bind. destruct (id_ok h && _); [|by intros [= <- <- <-]]. simpl.
  destruct (match hs with Some h => blen h =? STORE_HSID_BYTES | None => true end); [|by intros [= <- <- <-]]. simpl.
  destruct (transaction _ _ c) as [[r1 o1] c1] eqn:E. apply transaction_cases in E as [Hi1 _]; [|done].
  destruct r1; by intros [= <- <- <-].
Qed.

Lemma perform_idle s op c : idle c -> idle (perform s op c).2.
Proof.
  intros Hi. destruct (plain op) eqn:Hp.
  - destruct (perform s op c) as [st c'] eqn:E. by apply perform_atomic in E as [? _].
  - destruct op; try done; simpl; unfold run.
    + destruct (store_enroll_device _ _ _ _ _ _ _ _ c) as [[r o'] c'] eqn:E. by eapply enroll_idle.
    + destruct (store_rotate_key _ _ _ _ _ _ _ _ c) as [[r o'] c'] eqn:E. by eapply rotate_idle.
Qed.

Lemma perform_all_idle s ops c : idle c -> idle (perform_all s ops c).
Proof. revert c. induction ops as [|op ops IH]; intros c Hi; simpl; [done|]. by apply IH, perform_idle. Qed.

(** C9: Every operation but the two above is atomic under any schedule of
    failing and aborting engine calls: no transaction is left open; a status
    other than STORE_OK means that the committed database has not changed; and
    either the operation returned and committed exactly what it does when
    nothing fails, or it returned STORE_ERR_DB. *)
Theorem store_atomic s op c st c' : plain op = true -> idle c -> perform s op c = (st, c') ->
  idle c' /\ (st <> STORE_OK -> disk c' = disk c) /\ (perform s op (calm c) = (st, calm c') \/ st = STORE_ERR_DB).
Proof. apply perform_atomic. Qed.

End operations.
