(* ===== verification/StoreCalm.v ===== *)
(** * Operations without failures, step by step

    On a connection whose schedule is empty every engine call succeeds and an
    operation is a function of the database.  The lemmas here execute the
    store's building blocks on such a connection; [audit_entry] is the row an
    operation appends to the audit log. *)

From stdpp Require Import sorting.
From S2P Require Import Prelude StoreDb StoreTx Store StoreAuth StoreLogic StoreHistory StoreAtomic.

(** A connection at rest, and one inside a transaction. *)
Abbreviation at_rest d n := (Conn d None [] n).
Abbreviation in_tx d w n := (Conn d (Some w) [] n).

Lemma bind_run {O A B} (m : T O A) (f : A -> T O B) o c :
  (m ≫= f) o c =
  match m o c with (inl e, o', c') => (inl e, o', c') | (inr a, o', c') => f a o' c' end.
Proof. done. Qed.

(** A success under failures is a success without them. *)
Lemma atomic_inr {O A} (m : T O A) o c a o' c' : atomic m -> idle c -> m o c = (inr a, o', c') ->
  idle c' /\ m o (at_rest (disk c) (reads c)) = (inr a, o', at_rest (disk c') (reads c')).
Proof.
  intros Hm Hi H. unfold idle in *. apply Hm in H as (Hi' & _ & [Hu|?]); [|done..]. split; [done|].
  unfold undisturbed, calm in Hu. by rewrite Hi, Hi' in Hu.
Qed.

(** A query and a write, in a transaction or not. *)
Lemma select_calm {O A} (q : db -> list A) (o : O) d w n :
  select q o (Conn d w [] n) =
  (inr (match q (default d w) with a :: _ => ROW a | [] => NO_ROW end), o, Conn d w [] n).
Proof. done. Qed.

Lemma select_opt_calm {O A} (q : db -> list A) (o : O) d w n :
  select_opt q o (Conn d w [] n) = (inr (head (q (default d w))), o, Conn d w [] n).
Proof.
  cbv [select_opt mbind T_bind prepare bind_params sqlite engine faults check mret T_ret step_opt step_row view].
  simpl. by destruct (q (default d w)).
Qed.

Lemma write_db_tx {O} s (o : O) d w n :
  write_db s o (in_tx d w n) =
  match s w with Applied w' k => (inr k, o, in_tx d w' n) | _ => (inl STORE_ERR_DB, o, in_tx d w n) end.
Proof.
  cbv [write_db mbind T_bind prepare bind_params sqlite engine faults check mret T_ret step_done step_write view].
  simpl. by destruct (s w).
Qed.

Lemma write_db_auto {O} s (o : O) d n :
  write_db s o (at_rest d n) =
  match s d with Applied d' k => (inr k, o, at_rest d' n) | _ => (inl STORE_ERR_DB, o, at_rest d n) end.
Proof.
  cbv [write_db mbind T_bind prepare bind_params sqlite engine faults check mret T_ret step_done step_write view].
  simpl. by destruct (s d).
Qed.

Lemma write_unique_tx {O} s (o : O) d w n :
  write_unique s o (in_tx d w n) =
  match s w with
  | Applied w' _ => (inr (), o, in_tx d w' n)
  | Constraint => (inl STORE_ERR_CONFLICT, o, in_tx d w n)
  | Full => (inl STORE_ERR_DB, o, in_tx d w n)
  end.
Proof.
  cbv [write_unique mbind T_bind prepare bind_params sqlite engine faults check mret T_ret step_unique step_write view].
  simpl. by destruct (s w).
Qed.

Lemma write_found_tx {O} s (o : O) d w n :
  write_found s o (in_tx d w n) =
  match s w with
  | Applied w' k => (if k =? 0 then inl STORE_ERR_NOT_FOUND else inr k, o, in_tx d w' n)
  | _ => (inl STORE_ERR_DB, o, in_tx d w n)
  end.
Proof.
  unfold write_found. rewrite bind_run, write_db_tx. destruct (s w) as [w' k| |]; [|done..].
  rewrite bind_run. by destruct (k =? 0).
Qed.

(** The transaction frame: the body's outcome decides. *)
Lemma transaction_calm {O A} (m : T O A) (o : O) d n r o' w n' :
  m o (in_tx d d n) = (r, o', in_tx d w n') ->
  transaction m o (at_rest d n) = (r, o', at_rest (match r with inl _ => d | inr _ => w end) n').
Proof.
  intros H. unfold transaction. rewrite bind_run. simpl. rewrite bind_run. unfold try at 1. simpl.
  rewrite H. by destruct r.
Qed.

Lemma transaction_inr {O A} (m : T O A) o d n a o' c' : transaction m o (at_rest d n) = (inr a, o', c') ->
  exists c1, m o (in_tx d d n) = (inr a, o', c1) /\ work c1 = Some (disk c').
Proof.
  unfold transaction. rewrite bind_run. simpl. rewrite bind_run. unfold try.
  destruct (m o (in_tx d d n)) as [[[e|x] o1] c1]; [done|]. rewrite bind_run.
  destruct (tx_commit o1 c1) as [[r2 o2] c2] eqn:E. apply commit_outcome in E as H.
  destruct H as [[-> Hw]|[-> _]]; [|done]. intros [= -> -> ->]. exists c1. split; [|done].
  enough (o1 = o') as -> by done. revert E. unfold tx_commit, mbind, T_bind, commit.
  destruct (engine c1) as [[] c3]; [destruct (work c3)|]; by intros [= -> _].
Qed.

(** ** The audit row *)

Section audit.
Context `{SC : StoreCrypto}.

(** The sequence number and MAC the next row follows. *)
Definition log_head (d : db) : store_status_t + Z * blob :=
  match head (rev (by_seq (audit d))) with
  | None => inr (0, zeros STORE_AUDIT_MAC_BYTES)
  | Some r =>
      if STORE_AUDIT_MAC_BYTES <? blen (a_mac r) then inl STORE_ERR_DB
      else if blen (a_mac r) =? STORE_AUDIT_MAC_BYTES then inr (a_seq r, a_mac r) else inl STORE_ERR_CORRUPT
  end.

Definition audit_entry (s : store_t) (d : db) (event : text) (user_id handle : option blob) (detail : option text)
    (now : Z) : store_status_t + audit_row :=
  match log_head d with
  | inl e => inl e
  | inr (prev, prev_mac) =>
      match audit_mac_input 1024 prev_mac (prev + 1) now (Some event) (bytes_of user_id) (bytes_of handle) detail with
      | None => inl STORE_ERR_ARG
      | Some m => match crypto_auth m (key_audit s) with
                  | None => inl STORE_ERR_CRYPTO
                  | Some mac => inr (AuditRow (prev + 1) now event user_id handle (bytes_of detail) prev_mac mac)
                  end
      end
  end.

#[global] Instance seq_le_total : Total seq_le.
Proof. intros r1 r2. unfold seq_le. lia. Qed.
#[global] Instance seq_le_trans : Transitive seq_le.
Proof. intros r1 r2 r3. unfold seq_le. lia. Qed.

Lemma by_seq_perm l : by_seq l ≡ₚ l.
Proof. apply merge_sort_Permutation. Qed.

(** The head is the row with the largest sequence number. *)
Lemma head_largest l r : head (rev (by_seq l)) = Some r -> r ∈ l /\ forall r', r' ∈ l -> a_seq r' <= a_seq r.
Proof.
  intros H. assert (exists k, by_seq l = k ++ [r]) as [k Hk].
  { destruct (rev (by_seq l)) as [|r0 t] eqn:E; [done|]. injection H as ->.
    exists (rev t). by rewrite <- (rev_involutive (by_seq l)), E. }
  split; [rewrite <- (by_seq_perm l), Hk; set_solver|].
  intros r' Hr'. rewrite <- (by_seq_perm l), Hk in Hr'. apply elem_of_app in Hr' as [Hr'| ->%list_elem_of_singleton]; [|lia].
  pose proof (StronglySorted_merge_sort seq_le l) as Hs. unfold by_seq in Hk. rewrite Hk in Hs.
  by eapply (StronglySorted_app_1_elem_of seq_le k [r]); [exact Hs|exact Hr'|left].
Qed.

Lemma head_none l : head (rev (by_seq l)) = None -> l = [].
Proof.
  intros H. destruct (rev (by_seq l)) eqn:E; [|done]. apply (f_equal (@rev audit_row)) in E.
  rewrite rev_involutive in E. simpl in E. apply Permutation_nil_r. by rewrite <- (by_seq_perm l), E.
Qed.

(** The next sequence number is not taken. *)
Lemma log_head_fresh d prev mac : log_head d = inr (prev, mac) -> prev + 1 ∉ a_seq <$> audit d.
Proof.
  unfold log_head. destruct (head (rev (by_seq (audit d)))) as [r|] eqn:E.
  - apply head_largest in E as [_ Hmax]. repeat case_match; try done. intros [= <- _] (r' & Hr' & Hin)%list_elem_of_fmap.
    apply Hmax in Hin. lia.
  - apply head_none in E as ->. by intros _ ?%not_elem_of_nil.
Qed.

Lemma audit_head_calm {O} (o : O) d w n :
  audit_head o (Conn d w [] n) = (log_head (default d w), o, Conn d w [] n).
Proof.
  unfold audit_head, log_head. rewrite bind_run. simpl. rewrite bind_run.
  cbv [step_opt mbind T_bind step_row engine faults view]. simpl.
  destruct (rev (by_seq (audit (default d w)))) as [|r t]; [done|]. simpl. unfold copy_blob_col.
  destruct (STORE_AUDIT_MAC_BYTES <? blen (a_mac r)); [done|]. simpl.
  by destruct (blen (a_mac r) =? STORE_AUDIT_MAC_BYTES).
Qed.

Lemma audit_entry_error s d ev u h de now e : audit_entry s d ev u h de now = inl e ->
  e <> STORE_OK /\ e <> STORE_ERR_CONFLICT /\ e <> STORE_ERR_NOT_FOUND.
Proof. unfold audit_entry, log_head. repeat case_match; intros; simplify_eq; done. Qed.

Lemma audit_append_calm {O} s ev u h de now (o : O) d w n :
  audit_append s ev u h de now o (in_tx d w n) =
  match audit_entry s w ev u h de now with
  | inl e => (inl e, o, in_tx d w n)
  | inr r => (inr (), o, in_tx d (with_audit (audit w ++ [r]) w) n)
  end.
Proof.
  unfold audit_append, audit_entry. rewrite bind_run, audit_head_calm. simpl.
  destruct (log_head w) as [e|[prev mac]] eqn:E; [done|].
  destruct (audit_mac_input _ _ _ _ _ _ _ _) as [m|]; [|done].
  destruct (crypto_auth m (key_audit s)); [|done].
  rewrite bind_run, write_db_tx. unfold insert_audit. simpl.
  rewrite decide_False by (by eapply log_head_fresh). done.
Qed.

End audit.

(** ** The store's queries *)

Lemma head_is_Some {A} (l : list A) : is_Some (head l) <-> exists a, a ∈ l.
Proof.
  destruct l as [|a l]; simpl; split; [by intros []|by intros (a & ?%not_elem_of_nil)|exists a; left|by eexists].
Qed.

Lemma head_in {A} (l : list A) a : head l = Some a -> a ∈ l.
Proof. destruct l; [done|]. intros [= ->]. left. Qed.

(** The handle's active key as the C code takes it from its row. *)
Definition current_key (handle : blob) (d : db) : store_status_t + option (Z * blob) :=
  match head (active_keys handle d) with
  | None => inr None
  | Some k => if STORE_PK_BYTES <? blen (k_pk k) then inl STORE_ERR_DB
              else if blen (k_pk k) =? STORE_PK_BYTES then inr (Some (k_id k, k_pk k)) else inl STORE_ERR_DAMAGED
  end.

Lemma active_key_calm {O} handle (o : O) d w n :
  active_key_of handle o (Conn d w [] n) = (current_key handle (default d w), o, Conn d w [] n).
Proof.
  unfold active_key_of, current_key. rewrite bind_run, select_opt_calm.
  destruct (head (active_keys handle (default d w))) as [k|]; [|done]. rewrite bind_run. unfold copy_blob_col.
  destruct (STORE_PK_BYTES <? blen (k_pk k)); [done|]. simpl. by destruct (blen (k_pk k) =? STORE_PK_BYTES).
Qed.

Lemma pk_exists_calm {O} pk (o : O) d w n :
  pk_exists pk o (Conn d w [] n) = (inr (bool_decide (pk ∈ k_pk <$> device_keys (default d w))), o, Conn d w [] n).
Proof.
  unfold pk_exists. rewrite bind_run, select_opt_calm. unfold mret, T_ret. do 3 f_equal.
  apply bool_decide_ext. rewrite head_is_Some.
  split; [intros (k & [<- Hk]%list_elem_of_filter); by apply list_elem_of_fmap_2|].
  intros (k & -> & Hk)%list_elem_of_fmap. exists k. by apply list_elem_of_filter.
Qed.

(** Device and user both active. *)
Definition live (handle : blob) (d : db) : Prop :=
  exists v u, v ∈ devices d /\ d_handle v = handle /\ d_status v = ACTIVE /\
              u ∈ users d /\ u_id u = d_user v /\ u_status u = ACTIVE.

Lemma both_active_calm {O} handle (o : O) d w n b o' c' :
  device_and_user_active handle o (Conn d w [] n) = (inr b, o', c') ->
  o' = o /\ c' = Conn d w [] n /\ (b = true <-> live handle (default d w)).
Proof.
  unfold device_and_user_active. rewrite bind_run, select_opt_calm. intros [= <- <- <-].
  split_and!; [done..|]. rewrite bool_decide_eq_true, head_is_Some. split.
  - intros ([] & (v & Hv & [[? ?] ?]%list_elem_of_filter)%list_elem_of_bind).
    apply list_elem_of_bind in Hv as (u & _ & [[? ?] ?]%list_elem_of_filter). exists v, u. by split_and!.
  - intros (v & u & ? & ? & ? & ? & ? & ?). exists (). apply list_elem_of_bind. exists v. split.
    + apply list_elem_of_bind. exists u. split; [by left|by apply list_elem_of_filter].
    + by apply list_elem_of_filter.
Qed.

(** ** An enrollment *)

Section enroll.
Context `{EN : Engine} `{SC : StoreCrypto}.

(** The database with a new device, its first key and the audit row. *)
Definition enrolled (w : db) (h u pk : blob) (via by_ : text) (l : option blob) (now i : Z) (row : audit_row) : db :=
  with_audit (audit w ++ [row])
    (with_keys (device_keys w ++ [KeyRow i h pk (pk_fingerprint pk) ACTIVE now None None])
      (with_devices (devices w ++ [DeviceRow h u l ACTIVE now via by_ None None None None]) w)).

Lemma owned_inr {O} h u (o : O) d w n b o' c' : device_owned_by h u o (in_tx d w n) = (inr b, o', c') ->
  o' = o /\ c' = in_tx d w n /\ (b = true -> exists v, v ∈ devices w /\ d_handle v = h /\ d_user v = u).
Proof.
  unfold device_owned_by. rewrite bind_run, select_opt_calm. intros [= <- <- <-]. split_and!; [done..|].
  rewrite bool_decide_eq_true, head_is_Some. intros (v & [[? ?] ?]%list_elem_of_filter). eauto.
Qed.

(** A key insertion that only a fingerprint or a rowid can stop. *)
Lemma insert_key_new h pk fp now d : h ∈ d_handle <$> devices d -> pk ∉ k_pk <$> device_keys d ->
  active_keys h d = [] ->
  insert_key h pk fp now d =
  if decide (fp ∈ k_fp <$> device_keys d) then Constraint
  else match rowid (k_id <$> device_keys d) with
       | Some i => Applied (with_keys (device_keys d ++ [KeyRow i h pk fp ACTIVE now None None]) d) 1
       | None => Full
       end.
Proof.
  intros Hh Hpk Ha. unfold insert_key. destruct (decide (h ∉ _)); [done|]. destruct (decide (pk ∈ _)); [done|].
  destruct (decide (fp ∈ _)); [done|]. by destruct (decide (active_keys h d <> [])).
Qed.

(** The outcomes of [enroll_device_locked]. *)
Lemma enroll_locked_cases {O} s h u pk via by_ l now (o : O) d w n r o' c' :
  enroll_device_locked s h u pk via by_ l now o (in_tx d w n) = (r, o', c') ->
  exists w', c' = in_tx d w' n /\
  match r with
  | inr true => w' = w /\ (exists k, head (active_keys h w) = Some k /\ memeq (k_pk k) pk STORE_PK_BYTES = true) /\
                exists v, v ∈ devices w /\ d_handle v = h /\ d_user v = u
  | inr false => exists i row, active_keys h w = [] /\ pk ∉ k_pk <$> device_keys w /\ h ∉ d_handle <$> devices w /\
                  u ∈ u_id <$> users w /\ w' = enrolled w h u pk (bytes_of via) (bytes_of by_) l now i row
  | inl STORE_ERR_CONFLICT =>
      with_audit [] w' = with_audit [] w \/
      (pk ∉ k_pk <$> device_keys w /\ pk_fingerprint pk ∈ k_fp <$> device_keys w)
  | inl _ => True
  end.
Proof.
  unfold enroll_device_locked. rewrite bind_run, active_key_calm. simpl. unfold current_key.
  destruct (head (active_keys h w)) as [k|] eqn:Ek.
  - destruct (STORE_PK_BYTES <? _); [intros [= <- <- <-]; eauto|].
    destruct (_ =? _); [|intros [= <- <- <-]; eauto].
    destruct (memeq (k_pk k) pk STORE_PK_BYTES) eqn:Em; rewrite bind_run.
    + destruct (device_owned_by h u o _) as [[[e|b] o1] c1] eqn:Eo.
      { by unfold device_owned_by in Eo; rewrite bind_run, select_opt_calm in Eo. }
      apply owned_inr in Eo as (-> & -> & Ho). destruct b; intros [= <- <- <-]; eauto 10.
    + rewrite audit_append_calm. destruct (audit_entry _ _ _ _ _ _ _) as [er|row]; intros [= <- <- <-]; [|eauto].
      exists w. split; [done|]. destruct er; auto.
  - rewrite bind_run, pk_exists_calm. simpl. destruct (bool_decide (pk ∈ _)) eqn:Hpk; [intros [= <- <- <-]; eauto|].
    apply bool_decide_eq_false in Hpk. rewrite bind_run, write_unique_tx. unfold insert_device.
    destruct (decide (h ∈ _)); [intros [= <- <- <-]; eauto|].
    destruct (decide (u ∈ _)); [|intros [= <- <- <-]; eauto]. rewrite bind_run, write_unique_tx.
    assert (active_keys h w = []) as Ha by by destruct (active_keys h w).
    rewrite insert_key_new; [|simpl; rewrite fmap_app; set_solver|done..]. simpl.
    destruct (decide (pk_fingerprint pk ∈ _)); [intros [= <- <- <-]; eauto|].
    destruct (rowid _) as [i|]; [|intros [= <- <- <-]; eauto].
    rewrite bind_run, audit_append_calm. destruct (audit_entry _ _ _ _ _ _ _) as [er|row] eqn:Er; intros [= <- <- <-].
    + eexists. split; [done|]. apply audit_entry_error in Er. destruct er; naive_solver.
    + eexists. split; [done|]. by exists i, row.
Qed.

End enroll.

(** ** A revocation *)

Section revoke.
Context `{SC : StoreCrypto}.

(** The database with the device, its active key and its tokens revoked. *)
Definition revoked (w : db) (h : blob) (by_ : text) (reason : option blob) (now : Z) (row : audit_row) : db :=
  with_audit (audit w ++ [row])
    (with_tokens (drop_where (fun t => t_handle t = h) (tokens w))
      (with_keys (set_where (fun k => k_handle k = h /\ k_status k = ACTIVE) (retire_row REVOKED now k_superseded_by) (device_keys w))
        (with_devices (set_where (fun v => d_handle v = h) (revoke_row now by_ reason) (devices w)) w))).

Lemma count_where_pos {A} (P : A -> Prop) `{!forall a, Decision (P a)} l :
  count_where P l <> 0 -> exists a, a ∈ l /\ P a.
Proof.
  unfold count_where. intros Hc. destruct (filter P l) as [|a k] eqn:E; [done|].
  exists a. assert (a ∈ filter P l) as [? ?]%list_elem_of_filter by (rewrite E; left). done.
Qed.

Lemma revoke_locked_inr {O} s h by_ reason now (o : O) d w n x o' c' :
  revoke_device_locked s h by_ reason now o (in_tx d w n) = (inr x, o', c') ->
  exists row, o' = o /\ h ∈ d_handle <$> devices w /\ c' = in_tx d (revoked w h (bytes_of by_) reason now row) n.
Proof.
  unfold revoke_device_locked. rewrite bind_run, write_found_tx. simpl.
  destruct (count_where _ _ =? 0) eqn:Ec; [done|]. apply Z.eqb_neq, count_where_pos in Ec as (v & Hv & <-).
  rewrite bind_run, write_db_tx. simpl. rewrite bind_run, write_db_tx. simpl. rewrite audit_append_calm.
  destruct (audit_entry _ _ _ _ _ _ _) as [e|row]; [done|]. intros [= _ <- <-]. exists row.
  split_and!; [done|by apply list_elem_of_fmap_2|done].
Qed.

End revoke.
