(* ===== verification/StoreAudit.v ===== *)
(** * The audit chain

    [store_audit_verify] accepts exactly the chains [chain_ok] describes; every
    operation of the store, whatever fails, keeps the log such a chain; and two
    accepted logs with the same head show the same entries, unless two of their
    rows are a collision of the MAC. *)

From stdpp Require Import sorting.
From S2P Require Import Prelude StoreDb StoreTx Store StoreAuth StoreLogic StoreHistory StoreAtomic StoreCalm.

Section audit.
Context `{SC : StoreCrypto} `{SL : !StoreCryptoLaw SC}.

Definition row_input (r : audit_row) : option (list byte) :=
  audit_mac_input 1024 (a_prev_mac r) (a_seq r) (a_at r) (Some (a_event r)) (bytes_of (a_user r)) (bytes_of (a_handle r))
                  (Some (a_detail r)).

(** One row at its place: numbered, linked, of legal size and MACed. *)
Definition row_ok (s : store_t) (running : blob) (seq : Z) (r : audit_row) : Prop :=
  a_seq r = seq /\ a_prev_mac r = running /\ blen (a_prev_mac r) = STORE_AUDIT_MAC_BYTES /\
  blen (a_mac r) = STORE_AUDIT_MAC_BYTES /\ small_id (a_user r) /\ small_id (a_handle r) /\
  exists m, row_input r = Some m /\ crypto_auth m (key_audit s) = Some (a_mac r).

Fixpoint chain_ok (s : store_t) (running : blob) (seq : Z) (rows : list audit_row) : Prop :=
  match rows with
  | [] => True
  | r :: more => row_ok s running seq r /\ chain_ok s (a_mac r) (seq + 1) more
  end.

(** The chain of a database, in the order the rows were inserted. *)
Definition log_ok (s : store_t) (d : db) : Prop := chain_ok s (zeros STORE_AUDIT_MAC_BYTES) 1 (audit d).

(** ** Verification accepts exactly the chains *)

Lemma memeq_refl a n : memeq a a n = true.
Proof. by apply bool_decide_eq_true. Qed.

Lemma check_row_ok {O} s running seq r (o : O) c :
  row_ok s running seq r -> audit_check_row s running seq r o c = (inr (a_mac r), o, c).
Proof.
  intros (Hs & Hp & Hlp & Hlm & Hu & Hh & m & Hin & Hmac). unfold audit_check_row, small_id, row_input in *.
  rewrite Hin, Hmac, Hlm, Hlp, Hs, Hp, !Z.eqb_refl, !memeq_refl.
  replace (STORE_ID_MAX <? _) with false by (symmetry; by apply Z.ltb_ge).
  by replace (STORE_ID_MAX <? _) with false by (symmetry; by apply Z.ltb_ge).
Qed.

Lemma check_row_inr {O} s running seq r (o : O) c mac o' c' :
  blen running = STORE_AUDIT_MAC_BYTES ->
  audit_check_row s running seq r o c = (inr mac, o', c') -> mac = a_mac r /\ row_ok s running seq r /\ o' = o /\ c' = c.
Proof.
  intros Hl. unfold audit_check_row. intros (? & ? & ? & (Hseq%Z.eqb_eq&->&->)%check_inr & H)%bind_inr.
  apply bind_inr in H as (? & ? & ? & (Hsz%negb_true_iff&->&->)%check_inr & H).
  apply bind_inr in H as (? & ? & ? & ([Hlp%Z.eqb_eq Hlm%Z.eqb_eq]%andb_true_iff&->&->)%check_inr & H).
  apply bind_inr in H as (? & ? & ? & (Hprev&->&->)%check_inr & H). apply memeq_true in Hprev; [|done..].
  apply orb_false_iff in Hsz as [[[Hu%Z.ltb_ge Hh%Z.ltb_ge]%orb_false_iff _]%orb_false_iff _].
  destruct (audit_mac_input _ _ _ _ _ _ _ _) as [m|] eqn:Em; [|done].
  destruct (crypto_auth m (key_audit s)) as [want|] eqn:Ea; [|done].
  apply bind_inr in H as (? & ? & ? & (Hmac&->&->)%check_inr & [= <- <- <-]).
  apply memeq_true in Hmac as ->; [|by eapply auth_len|done].
  split_and!; [done| |done..]. unfold row_ok. split_and!; eauto.
Qed.

Lemma walk_ok {O} s running seq rows (o : O) d w n :
  chain_ok s running seq rows -> audit_walk s running seq rows o (Conn d w [] n) = (inr (), o, Conn d w [] n).
Proof.
  revert running seq. induction rows as [|r rows IH]; intros running seq; [done|]. intros [Hr Hc].
  simpl. rewrite bind_run. simpl. rewrite bind_run. simpl. rewrite bind_run, (check_row_ok _ _ _ _ _ _ Hr). by apply IH.
Qed.

Lemma walk_inr {O} s running seq rows (o : O) c u o' c' :
  blen running = STORE_AUDIT_MAC_BYTES ->
  audit_walk s running seq rows o c = (inr u, o', c') -> chain_ok s running seq rows.
Proof.
  revert running seq o c. induction rows as [|r rows IH]; intros running seq o c Hl; [done|]. simpl.
  intros (ok & ? & ? & _ & H)%bind_inr. apply bind_inr in H as (? & ? & ? & _ & H).
  apply bind_inr in H as (mac & ? & ? & (-> & Hr & -> & ->)%check_row_inr & H); [|done].
  split; [done|]. eapply IH; [|exact H]. by destruct Hr as (_&_&_&?&_).
Qed.

(** ** A chain is in order *)

Lemma chain_seq s running seq rows r : chain_ok s running seq rows -> r ∈ rows -> seq <= a_seq r.
Proof.
  revert running seq. induction rows as [|r0 rows IH]; intros running seq; [by intros _ ?%not_elem_of_nil|].
  intros [(Hs & _) Hc] [->|Hin]%elem_of_cons; [lia|]. apply (IH _ _ Hc) in Hin. lia.
Qed.

Lemma chain_sorted s running seq rows : chain_ok s running seq rows -> StronglySorted seq_le rows.
Proof.
  revert running seq. induction rows as [|r rows IH]; intros running seq; [constructor|].
  intros [(Hs & _) Hc]. constructor; [by eapply IH|]. apply Forall_forall. intros r' Hin.
  apply (chain_seq _ _ _ _ _ Hc) in Hin. unfold seq_le. lia.
Qed.

Lemma chain_unique s running seq rows r1 r2 :
  chain_ok s running seq rows -> r1 ∈ rows -> r2 ∈ rows -> a_seq r1 = a_seq r2 -> r1 = r2.
Proof.
  revert running seq. induction rows as [|r rows IH]; intros running seq; [by intros _ ?%not_elem_of_nil|].
  intros [(Hs & _) Hc] [->|H1]%elem_of_cons [->|H2]%elem_of_cons; [done| | |by eapply IH];
    intros; exfalso; [apply (chain_seq _ _ _ _ _ Hc) in H2|apply (chain_seq _ _ _ _ _ Hc) in H1]; lia.
Qed.

Lemma chain_by_seq s d : log_ok s d -> by_seq (audit d) = audit d.
Proof.
  intros Hc. apply (StronglySorted_unique_strong seq_le).
  - intros r1 r2 H1 H2 L1 L2. rewrite by_seq_perm in H1. eapply chain_unique; eauto. unfold seq_le in *. lia.
  - apply StronglySorted_merge_sort; apply _.
  - by eapply chain_sorted.
  - apply by_seq_perm.
Qed.

(** The last MAC and number of a chain, and its extension by a row. *)
Fixpoint chain_end (running : blob) (seq : Z) (rows : list audit_row) : blob * Z :=
  match rows with [] => (running, seq) | r :: more => chain_end (a_mac r) (seq + 1) more end.

Lemma chain_snoc s running seq rows r : chain_ok s running seq rows ->
  row_ok s (chain_end running seq rows).1 (chain_end running seq rows).2 r -> chain_ok s running seq (rows ++ [r]).
Proof.
  revert running seq. induction rows as [|r0 rows IH]; intros running seq; simpl; [done|].
  intros [H0 Hc] Hr. split; [done|]. by apply IH.
Qed.

Lemma chain_end_last running seq rows r : chain_end running seq (rows ++ [r]) = (a_mac r, seq + blen rows + 1).
Proof.
  revert running seq. induction rows as [|r0 rows IH]; intros running seq; simpl; [f_equal; lia|].
  rewrite IH. f_equal. lia.
Qed.

Lemma chain_last_seq s running seq rows r : chain_ok s running seq (rows ++ [r]) ->
  a_seq r = seq + blen rows /\ blen (a_mac r) = STORE_AUDIT_MAC_BYTES.
Proof.
  revert running seq. induction rows as [|r0 rows IH]; intros running seq; simpl.
  - intros [(-> & _ & _ & ? & _) _]. split; [lia|done].
  - intros [_ H]. apply IH in H as [-> ?]. split; [lia|done].
Qed.

(** The head of the log is where the chain ends. *)
Lemma log_head_ok s d : log_ok s d ->
  log_head d = inr ((chain_end (zeros STORE_AUDIT_MAC_BYTES) 1 (audit d)).2 - 1,
                    (chain_end (zeros STORE_AUDIT_MAC_BYTES) 1 (audit d)).1) /\
  blen (chain_end (zeros STORE_AUDIT_MAC_BYTES) 1 (audit d)).1 = STORE_AUDIT_MAC_BYTES.
Proof.
  intros Hc. unfold log_head. rewrite (chain_by_seq s d Hc). unfold log_ok in Hc.
  destruct (audit d) as [|r rows _] using rev_ind; [done|].
  rewrite rev_app_distr, chain_end_last. simpl.
  apply chain_last_seq in Hc as [Hs Hl]. rewrite Hl, Hs. simpl. split; [|done]. do 2 f_equal. lia.
Qed.

(** ** Every operation keeps the chain *)

Lemma audit_entry_ok s d ev u h de now r : log_ok s d -> small_id u -> small_id h ->
  audit_entry s d ev u h de now = inr r -> log_ok s (with_audit (audit d ++ [r]) d).
Proof.
  intros Hc Hu Hh. unfold audit_entry. destruct (log_head_ok s d Hc) as [-> Hl].
  destruct (audit_mac_input _ _ _ _ _ _ _ _) as [m|] eqn:Em; [|done].
  destruct (crypto_auth m (key_audit s)) as [mac|] eqn:Ea; [|done]. intros [= <-].
  apply chain_snoc; [done|]. unfold row_ok, row_input. simpl. split_and!; try done; [lia|by eapply auth_len|].
  exists m. split; [|done]. rewrite <- Em. unfold audit_mac_input. by destruct de.
Qed.

(** Appending writes the row computed from the log it read, or nothing. *)
Lemma audit_append_cases {O} s ev u h de now (o : O) c r o' c' :
  audit_append s ev u h de now o c = (r, o', c') ->
  (exists e, r = inl e /\ disk c' = disk c /\ (work c' = work c \/ work c' = None)) \/
  (exists row, r = inr () /\ audit_entry s (view c) ev u h de now = inr row /\
     disk c' = disk (put_view (with_audit (audit (view c) ++ [row]) (view c)) c) /\
     work c' = work (put_view (with_audit (audit (view c) ++ [row]) (view c)) c)).
Proof.
  unfold audit_append. rewrite bind_run. destruct (audit_head o c) as [[r1 o1] c1] eqn:E.
  apply reader_head in E as [Hd [[Hu Hw]|[-> Hw]]]; [|intros [= <- <- <-]; eauto 6].
  assert (view c1 = view c) as Hv by (unfold view; by rewrite Hd, Hw).
  unfold undisturbed, calm in Hu. rewrite audit_head_calm in Hu. injection Hu as Hl -> _ _ _. fold (view c) in Hl.
  destruct r1 as [e|[prev mac]]; [intros [= <- <- <-]; eauto 6|]. unfold audit_entry. rewrite Hl.
  destruct (audit_mac_input _ _ _ _ _ _ _ _) as [m|]; [|intros [= <- <- <-]; eauto 6].
  destruct (crypto_auth m (key_audit s)) as [mc|]; [|intros [= <- <- <-]; eauto 6].
  rewrite bind_run. destruct (write_db _ _ c1) as [[r2 o2] c2] eqn:E2.
  apply write_db_cases in E2 as (-> & [(e & -> & Hd2 & Hw2)|(n & d' & -> & Ha & Hd2 & Hw2)]).
  - intros [= <- <- <-]. left. exists e. rewrite Hd2, Hd, <- Hw. auto.
  - intros [= <- <- <-]. right. eexists. split; [done|]. split; [done|]. rewrite Hv in Ha. unfold insert_audit in Ha.
    case_decide; [done|]. injection Ha as <- _. rewrite Hd2, Hw2. unfold put_view. rewrite Hw. by destruct (work c); simpl; rewrite ?Hd.
Qed.

#[global] Instance keeps_log_respected `{EN : Engine} s A : Respected s A (keeps (log_ok s)).
Proof.
  split; [apply _|intros; each_effect ..|].
  intros O ev u h de now Hu Hh o c r o' c' H HR.
  apply audit_append_cases in H as [(e & _ & Hd & Hw)|(row & _ & He & Hd & Hw)].
  - rewrite Hd. unfold view in *. rewrite Hd. split; [done|]. by destruct Hw as [->| ->].
  - assert (keeps (log_ok s) (view c) (with_audit (audit (view c) ++ [row]) (view c))) as Hk
      by (intros Hl; exact (audit_entry_ok s _ ev u h de now row Hl Hu Hh He)).
    assert (view c' = view (put_view (with_audit (audit (view c) ++ [row]) (view c)) c)) as ->
      by (unfold view at 1 3; by rewrite Hd, Hw).
    rewrite Hd. unfold put_view, view in *. destruct (work c); simpl in *; split; try done; by etrans.
Qed.

(** ** The MAC input determines the row *)

Lemma c_str_no_nul t : x00 ∉ c_str t.
Proof.
  induction t as [|b t IH]; simpl; [apply not_elem_of_nil|]. case_decide; [apply not_elem_of_nil|].
  rewrite elem_of_cons. naive_solver.
Qed.

Lemma cut_at_nul (a b r1 r2 : list byte) : x00 ∉ a -> x00 ∉ b -> a ++ x00 :: r1 = b ++ x00 :: r2 -> a = b /\ r1 = r2.
Proof.
  revert b. induction a as [|x a IH]; intros [|y b] Ha Hb; simpl; intros [= ]; subst.
  - done.
  - by destruct Hb; left.
  - by destruct Ha; left.
  - rewrite elem_of_cons in Ha, Hb. destruct (IH b) as [-> ->]; naive_solver.
Qed.

(** A field preceded by its one-byte length. *)
Lemma cut_u8 (a b r1 r2 : list byte) : blen a <= 255 -> blen b <= 255 ->
  u8 (blen a) :: a ++ r1 = u8 (blen b) :: b ++ r2 -> a = b /\ r1 = r2.
Proof. intros Ha Hb [= Hl H]. apply u8_inj in Hl; [|lia..]. apply app_inj_1; [lia|done]. Qed.

Lemma audit_mac_input_some cap p seq at_ e u h d m :
  blen p = STORE_AUDIT_MAC_BYTES -> audit_mac_input cap p seq at_ (Some e) u h (Some d) = Some m ->
  blen u <= 255 /\ blen h <= 255 /\
  m = p ++ be64 seq ++ be64 at_ ++ c_str e ++ x00 :: u8 (blen u) :: u ++ u8 (blen h) :: h ++
      [u8 (Z.shiftr (blen (c_str d)) 8); u8 (blen (c_str d))] ++ c_str d.
Proof.
  intros Hp. unfold audit_mac_input. simpl.
  destruct ((255 <? blen u) || (255 <? blen h) || (0xffff <? blen (c_str d))) eqn:G; [done|].
  apply orb_false_iff in G as [[Hu%Z.ltb_ge Hh%Z.ltb_ge]%orb_false_iff _].
  destruct (cap <? _); [done|]. intros [= <-]. split_and!; [done..|]. by rewrite take_all_z.
Qed.

Lemma be64_inj v w : be64 v = be64 w -> u64 v = u64 w.
Proof. apply be_enc_inj; apply u64_range. Qed.

Lemma audit_mac_input_inj cap p1 s1 t1 e1 u1 h1 d1 p2 s2 t2 e2 u2 h2 d2 m :
  blen p1 = STORE_AUDIT_MAC_BYTES -> blen p2 = STORE_AUDIT_MAC_BYTES ->
  audit_mac_input cap p1 s1 t1 (Some e1) u1 h1 (Some d1) = Some m ->
  audit_mac_input cap p2 s2 t2 (Some e2) u2 h2 (Some d2) = Some m ->
  p1 = p2 /\ u64 s1 = u64 s2 /\ u64 t1 = u64 t2 /\ c_str e1 = c_str e2 /\ u1 = u2 /\ h1 = h2 /\ c_str d1 = c_str d2.
Proof.
  intros Hp1 Hp2 (Hu1 & Hh1 & ->)%audit_mac_input_some (Hu2 & Hh2 & H)%audit_mac_input_some; [|done..].
  apply app_inj_1 in H as [-> H]; [|lia].
  apply app_inj_1 in H as [Hs%be64_inj H]; [|by unfold be64; rewrite !length_be_enc].
  apply app_inj_1 in H as [Ht%be64_inj H]; [|by unfold be64; rewrite !length_be_enc].
  apply cut_at_nul in H as [He H]; [|apply c_str_no_nul..].
  apply cut_u8 in H as [-> H]; [|done..]. apply cut_u8 in H as [-> H]; [|done..].
  by injection H as _ _ Hd.
Qed.

(** ** Two logs with one head *)

(** What the log says: a row without its link and MAC. *)
Definition shown (r : audit_row) : Z * Z * text * blob * blob * text :=
  (a_seq r, u64 (a_at r), c_str (a_event r), bytes_of (a_user r), bytes_of (a_handle r), c_str (a_detail r)).

(** A row of the one log and a row of the other that carry one MAC and were
    MACed over different messages: whoever has the two logs has the collision. *)
Definition forged_rows (s : store_t) (l1 l2 : list audit_row) : Prop :=
  exists r1 r2 m1 m2, r1 ∈ l1 /\ r2 ∈ l2 /\ row_input r1 = Some m1 /\ row_input r2 = Some m2 /\ m1 <> m2 /\
    a_mac r1 = a_mac r2 /\ crypto_auth m1 (key_audit s) = Some (a_mac r1) /\ crypto_auth m2 (key_audit s) = Some (a_mac r1).

Lemma forged_rows_mono s l1 l2 k1 k2 : l1 ⊆ k1 -> l2 ⊆ k2 -> forged_rows s l1 l2 -> forged_rows s k1 k2.
Proof. intros H1 H2 (r1 & r2 & m1 & m2 & Hr1 & Hr2 & H). exists r1, r2, m1, m2. split; [by apply H1|]. split; [by apply H2|done]. Qed.

Lemma rows_bind s p1 n1 r1 p2 n2 r2 : row_ok s p1 n1 r1 -> row_ok s p2 n2 r2 -> a_mac r1 = a_mac r2 ->
  forged_rows s [r1] [r2] \/
  (p1 = p2 /\ u64 n1 = u64 n2 /\ (n1 = n2 -> shown r1 = shown r2)).
Proof.
  intros (<- & <- & Hl1 & _ & _ & _ & m1 & Hi1 & Ha1) (<- & <- & Hl2 & _ & _ & _ & m2 & Hi2 & Ha2) Hmac.
  destruct (decide (m1 = m2)) as [<-|Hne]; [right|left; exists r1, r2, m1, m2; split_and!; try done; [by left..|congruence]].
  destruct (audit_mac_input_inj _ _ _ _ _ _ _ _ _ _ _ _ _ _ _ _ Hl1 Hl2 Hi1 Hi2)
    as (? & ? & Ht & He & Hu & Hh & Hd).
  split_and!; [done..|]. intros Hn. unfold shown. by rewrite Hn, Ht, He, Hu, Hh, Hd.
Qed.

Lemma chain_snoc_inv s running seq rows r : chain_ok s running seq (rows ++ [r]) ->
  chain_ok s running seq rows /\ row_ok s (chain_end running seq rows).1 (seq + blen rows) r.
Proof.
  revert running seq. induction rows as [|r0 rows IH]; intros running seq; simpl.
  - intros [Hr _]. by rewrite Z.add_0_r.
  - intros [H0 H]. apply IH in H as [Hc Hr]. replace (seq + Z.of_nat (S (length rows))) with (seq + 1 + blen rows) by lia.
    done.
Qed.

Lemma chain_binding s running seq l1 l2 :
  length l1 = length l2 -> chain_ok s running seq l1 -> chain_ok s running seq l2 ->
  (chain_end running seq l1).1 = (chain_end running seq l2).1 -> forged_rows s l1 l2 \/ shown <$> l1 = shown <$> l2.
Proof.
  revert l2. induction l1 as [|r1 l1 IH] using rev_ind; intros l2.
  - destruct l2; [auto|done].
  - destruct l2 as [|r2 l2 _] using rev_ind; [rewrite length_app; simpl; lia|].
    rewrite !length_app. simpl. intros Hlen. assert (length l1 = length l2) as Hl by lia.
    intros [Hc1 Hr1]%chain_snoc_inv [Hc2 Hr2]%chain_snoc_inv. rewrite !chain_end_last. simpl. intros Hmac.
    destruct (rows_bind _ _ _ _ _ _ _ Hr1 Hr2 Hmac) as [?|(Hp & _ & Hsh)]; [left; eapply forged_rows_mono; [| |done]; set_solver|].
    destruct (IH l2 Hl Hc1 Hc2 Hp) as [?|Hm]; [left; eapply forged_rows_mono; [| |done]; set_solver|]. right. rewrite !fmap_app, Hm. simpl. by rewrite Hsh by lia.
Qed.

(** ** The theorems *)

Lemma verify_accepts {O} s (o : O) d n : chain_ok s (zeros STORE_AUDIT_MAC_BYTES) 1 (by_seq (audit d)) ->
  store_audit_verify (Some s) o (at_rest d n) = (inr (), o, at_rest d n).
Proof. intros Hc. unfold store_audit_verify. rewrite bind_run. simpl. rewrite bind_run. by apply walk_ok. Qed.

Lemma verify_inr {O} s (o : O) c u o' c' : store_audit_verify (Some s) o c = (inr u, o', c') ->
  chain_ok s (zeros STORE_AUDIT_MAC_BYTES) 1 (by_seq (audit (view c))).
Proof.
  intros (? & ? & c1 & [-> Hs]%prepare_inr & H)%bind_inr.
  apply bind_inr in H as (rows & ? & ? & [= <- <- <-] & H). rewrite (same_db_view _ _ Hs) in H.
  by eapply walk_inr; [|exact H].
Qed.

Lemma head_mac_inr {O} s (o : O) c mac o' c' : store_audit_head_mac (Some s) true o c = (inr mac, o', c') ->
  forall rows r, by_seq (audit (view c)) = rows ++ [r] -> mac = a_mac r.
Proof.
  intros (? & ? & ? & (_&->&->)%check_inr & H)%bind_inr rows r Hrows.
  apply bind_inr in H as ([seq m] & ? & c1 & H & [= <- _ _]).
  apply bind_inr in H as (? & ? & c2 & [-> Hs]%prepare_inr & H).
  apply bind_inr in H as (row & ? & ? & (-> & _ & ->)%step_opt_inr & H).
  rewrite (same_db_view _ _ Hs), Hrows, rev_app_distr in H. simpl in H.
  apply bind_inr in H as (? & ? & ? & (-> & _ & -> & ->)%copy_inr & H).
  by apply bind_inr in H as (? & ? & ? & (_&->&->)%check_inr & [= _ <- _ _]).
Qed.

Lemma by_seq_last l : l <> [] -> exists k r, by_seq l = k ++ [r].
Proof.
  intros Hl. destruct (exists_last (l := by_seq l)) as (k & r & E); [|eauto].
  intros E. apply Hl, Permutation_nil_r. by rewrite <- (by_seq_perm l), E.
Qed.

Lemma log_kept `{EN : Engine} `{CK : Clock} s ops c : idle c -> log_ok s (disk c) ->
  log_ok s (disk (perform_all (Some s) ops c)).
Proof.
  intros Hi Hc. destruct (perform_all_grows s _ (keeps (log_ok s)) ops c (adds_any ops)) as [H _];
    [by rewrite idle_view|by apply H].
Qed.

(** C14: A log that verifies keeps verifying: after any sequence of store
    operations on it, whatever engine calls fail or abort on the way, walking
    the committed log from the first row accepts every row. *)
Theorem audit_chain_kept `{EN : Engine} `{CK : Clock} {O} s ops c (o : O) n :
  idle c -> log_ok s (disk c) ->
  store_audit_verify (Some s) o (at_rest (disk (perform_all (Some s) ops c)) n) =
  (inr (), o, at_rest (disk (perform_all (Some s) ops c)) n).
Proof.
  intros Hi Hc. pose proof (log_kept s ops c Hi Hc) as Hc'. apply verify_accepts. by rewrite (chain_by_seq s).
Qed.

(** C13: If two logs both verify under the store's key, are not empty and have
    the same head MAC, they show the same entries - number, time, event, user,
    handle and detail, row by row - unless the two logs themselves hold a forgery:
    a row in each with the same MAC, computed over two different messages.  So
    removing, reordering, editing or truncating rows is visible to whoever kept
    the head. *)
Theorem audit_log_binding {O} s (o : O) c1 c2 u1 u2 o1 o2 c1' c2' mac p1 p2 q1 q2 :
  audit (view c1) <> [] -> audit (view c2) <> [] ->
  blen (audit (view c1)) < 2 ^ 63 -> blen (audit (view c2)) < 2 ^ 63 ->
  store_audit_verify (Some s) o c1 = (inr u1, o1, c1') -> store_audit_verify (Some s) o c2 = (inr u2, o2, c2') ->
  store_audit_head_mac (Some s) true o c1 = (inr mac, p1, q1) ->
  store_audit_head_mac (Some s) true o c2 = (inr mac, p2, q2) ->
  shown <$> by_seq (audit (view c1)) = shown <$> by_seq (audit (view c2)) \/
  forged_rows s (by_seq (audit (view c1))) (by_seq (audit (view c2))).
Proof.
  intros Hn1 Hn2 Hb1 Hb2 V1%verify_inr V2%verify_inr M1 M2.
  destruct (by_seq_last _ Hn1) as (l1 & r1 & E1), (by_seq_last _ Hn2) as (l2 & r2 & E2).
  rewrite <- (Permutation_length (by_seq_perm (audit (view c1)))), E1 in Hb1.
  rewrite <- (Permutation_length (by_seq_perm (audit (view c2)))), E2 in Hb2.
  rewrite E1 in *. rewrite E2 in *.
  pose proof (head_mac_inr _ _ _ _ _ _ M1 _ _ E1) as H1. pose proof (head_mac_inr _ _ _ _ _ _ M2 _ _ E2) as H2.
  pose proof (chain_snoc_inv _ _ _ _ _ V1) as [_ R1]. pose proof (chain_snoc_inv _ _ _ _ _ V2) as [_ R2].
  rewrite length_app in Hb1, Hb2. simpl in Hb1, Hb2.
  destruct (rows_bind _ _ _ _ _ _ _ R1 R2) as [?|(_ & Hn & _)]; [congruence|right; eapply forged_rows_mono; [| |done]; set_solver|].
  rewrite !u64_small in Hn by (unfold UINT64_MAX; lia).
  destruct (chain_binding s (zeros STORE_AUDIT_MAC_BYTES) 1 (l1 ++ [r1]) (l2 ++ [r2])) as [?|?]; auto.
  - rewrite !length_app. simpl. lia.
  - rewrite !chain_end_last. simpl. congruence.
Qed.

End audit.
