(* ===== verification/StoreKeys.v ===== *)
(** * Rotating, enrolling and revoking: what is committed, under any failure

    [store_rotate_key] reads past an error when it looks up whom to name in its
    audit row, so it is not of the shape [StoreAtomic] treats; its key and
    token rows are all-or-nothing all the same.  [store_enroll_device] commits
    on a conflict, to keep the audit row of a mismatch. *)

From S2P Require Import Prelude StoreDb StoreTx Store StoreAuth StoreLogic StoreHistory StoreAtomic StoreCalm StoreAudit.

(** Every table but the audit log. *)
Definition tables (d : db) : db := with_audit [] d.

Section keys.
Context `{EL : EngineLaw} `{CK : Clock} `{SC : StoreCrypto}.

(** ** The rotation *)

(** The database after the handle's active key [k] gave way to [new_pk]. *)
Definition rotated (d : db) (handle new_pk : blob) (hsid : option blob) (drop : bool) (now : Z) (k : key_row) (i : Z) : db :=
  let d1 := with_keys (set_where (fun x => k_id x = k_id k) (retire_row SUPERSEDED now (fun _ => hsid)) (device_keys d) ++
                       [KeyRow i handle new_pk (pk_fingerprint new_pk) ACTIVE now None None]) d in
  if drop then with_tokens (drop_where (fun t => t_handle t = handle) (tokens d)) d1 else d1.

(** A rotation that may go ahead: device and user active, the current key [k]
    is the expected one and not the new one, which nobody holds or held. *)
Definition may_rotate (d : db) (handle new_pk : blob) (expect_old : option blob) (k : key_row) : Prop :=
  live handle d /\ head (active_keys handle d) = Some k /\ blen (k_pk k) = STORE_PK_BYTES /\
  memeq (k_pk k) new_pk STORE_PK_BYTES = false /\
  (forall old, expect_old = Some old -> memeq (k_pk k) old STORE_PK_BYTES = true) /\
  new_pk ∉ k_pk <$> device_keys d.

Lemma current_key_inr handle d i pk : current_key handle d = inr (Some (i, pk)) ->
  exists k, head (active_keys handle d) = Some k /\ i = k_id k /\ pk = k_pk k /\ blen (k_pk k) = STORE_PK_BYTES.
Proof.
  unfold current_key. destruct (head _) as [k|]; [|done]. destruct (_ <? _); [done|].
  destruct (_ =? _) eqn:E; [|done]. intros [= <- <-]. exists k. by apply Z.eqb_eq in E.
Qed.

Lemma insert_key_applied h pk fp now d d' n : insert_key h pk fp now d = Applied d' n ->
  exists i, i ∉ k_id <$> device_keys d /\ d' = with_keys (device_keys d ++ [KeyRow i h pk fp ACTIVE now None None]) d.
Proof.
  unfold insert_key. repeat case_match; intros [= <- _]. eexists. split; [by apply rowid_fresh|done].
Qed.

Lemma rotate_rows_inr handle new_pk old hsid drop now o d w n u o' c' :
  rotate_rows handle new_pk old hsid drop now o (in_tx d w n) = (inr u, o', c') ->
  exists k i, may_rotate w handle new_pk old k /\ i ∉ k_id <$> device_keys w /\
    c' = in_tx d (rotated w handle new_pk hsid drop now k i) n.
Proof.
  unfold rotate_rows. intros (lv & ? & ? & (-> & -> & Hl)%both_active_calm & H)%bind_inr.
  apply bind_inr in H as (? & ? & ? & (Hlv&->&->)%check_inr & H). apply Hl in Hlv.
  apply bind_inr in H as (have & ? & ? & Hk & H). rewrite active_key_calm in Hk. injection Hk as Hk <- <-.
  destruct have as [[i pk]|]; [|done]. apply current_key_inr in Hk as (k & Hk & -> & -> & Hlen).
  apply bind_inr in H as (? & ? & ? & (Hne%negb_true_iff&->&->)%check_inr & H).
  apply bind_inr in H as (? & ? & ? & (Hold&->&->)%check_inr & H).
  rewrite bind_run, pk_exists_calm in H. simpl in H.
  apply bind_inr in H as (? & ? & ? & (Hpk%negb_true_iff&->&->)%check_inr & H).
  apply bool_decide_eq_false in Hpk.
  rewrite bind_run, write_db_tx in H. simpl in H.
  rewrite bind_run, write_unique_tx in H. destruct (insert_key _ _ _ _ _) as [w1 m| |] eqn:Ei; [|done..].
  apply insert_key_applied in Ei as (i & Hi & ->). simpl in Hi.
  rewrite set_where_column in Hi by done. exists k, i. split.
  { unfold may_rotate. split_and!; try done. by intros old' ->. }
  split; [done|]. unfold rotated. destruct drop; [|by injection H as _ <- <-].
  rewrite bind_run, write_db_tx in H. by injection H as _ <- <-.
Qed.

Lemma body_rotate_rows h npk old hsid drop now : body (rotate_rows h npk old hsid drop now).
Proof.
  unfold rotate_rows, device_and_user_active. tx_code; auto using body_active_key, body_pk_exists.
Qed.

(** The audit step of a rotation appends one row to the database it sees, which
    is the committed one if an abort hit the search for the user. *)
Lemma rotate_audit_cases {O} s h drop now (o : O) c r o' c' : rotate_audit s h drop now o c = (r, o', c') ->
  (exists e, r = inl e /\ disk c' = disk c) \/
  (r = inr () /\ exists row, a_event row = label "key-rotate" /\
    ((exists w, work c = Some w /\ disk c' = disk c /\ work c' = Some (with_audit (audit w ++ [row]) w)) \/
     (work c' = None /\ disk c' = with_audit (audit (disk c) ++ [row]) (disk c)))).
Proof.
  unfold rotate_audit. rewrite bind_run. unfold try.
  destruct (user_of_handle h STORE_ID_MAX o c) as [[ru ou] cu] eqn:Eu.
  apply observes_user_of_handle in Eu as [Hd Hw].
  intros H. apply audit_append_cases in H as [(e & -> & Hd2 & _)|(row & -> & He & Hd2 & Hw2)].
  - left. exists e. split; [done|congruence].
  - right. split; [done|]. exists row. split.
    { unfold audit_entry in He. by repeat case_match; simplify_eq/=. }
    unfold put_view, view in *. destruct Hw as [Hw|Hw]; rewrite Hw in *; simpl in *.
    + destruct (work c) as [w|]; simpl in *; [left; exists w|right]; split_and!; congruence.
    + right. split; congruence.
Qed.

(** Inside the transaction the committed tables do not change; if the body
    succeeds with the transaction still open, it holds the rotation. *)
Lemma rotate_locked_cases s h npk old hsid drop now o c r o' c' : work c = Some (disk c) ->
  rotate_locked s h npk old hsid drop now o c = (r, o', c') ->
  tables (disk c') = tables (disk c) /\
  (forall u w, r = inr u -> work c' = Some w -> exists k i, may_rotate (disk c) h npk old k /\
     i ∉ k_id <$> device_keys (disk c) /\ tables w = tables (rotated (disk c) h npk hsid drop now k i)).
Proof.
  intros Hw. unfold rotate_locked. rewrite bind_run.
  destruct (rotate_rows _ _ _ _ _ _ _ _) as [[r1 o1] c1] eqn:E.
  apply body_rotate_rows in E as [Hd E]; [|by rewrite Hw; eexists].
  destruct r1 as [e|[]]; [intros [= <- <- <-]; by rewrite Hd|].
  destruct E as [[Hu _]|?]; [|done]. unfold undisturbed, calm in Hu. rewrite Hw in Hu.
  apply rotate_rows_inr in Hu as (k & i & Hk & Hi & Hc). injection Hc as _ Hw1 _.
  intros [(e & -> & Hd2)|(-> & row & _ & [(w & Hww & Hd2 & Hw2)|[Hw2 Hd2]])]%rotate_audit_cases; rewrite Hd2, Hd.
  - done.
  - split; [done|]. intros u w' _ Hw'. rewrite Hw2 in Hw'. injection Hw' as <-.
    exists k, i. split_and!; [done..|]. rewrite Hww in Hw1. by injection Hw1 as ->.
  - split; [done|]. congruence.
Qed.

(** A key rotation is all or nothing, whatever engine calls fail or abort.
    If it returns STORE_OK, the device and its user were active, the replaced
    key was the handle's active one (and the expected one, if one was given),
    the new key was unknown, and the tables are the old ones with the old key
    superseded, the new one active and, if asked for, the handle's tokens gone.
    If it returns an error, every table but the audit log is unchanged. *)
Theorem rotate_all_or_nothing s handle new_pk old hsid drop now o c r o' c' :
  idle c -> store_rotate_key (Some s) handle new_pk old hsid drop now o c = (r, o', c') ->
  idle c' /\
  match r with
  | inl _ => tables (disk c') = tables (disk c)
  | inr _ => exists k i, may_rotate (disk c) (bytes_of handle) (bytes_of new_pk) old k /\
               i ∉ k_id <$> device_keys (disk c) /\
               tables (disk c') = tables (rotated (disk c) (bytes_of handle) (bytes_of new_pk) hsid drop now k i)
  end.
Proof.
  intros Hi. unfold store_rotate_key. rewrite bind_run. simpl. rewrite bind_run. unfold check at 1.
  destruct (id_ok handle && _); [|by intros [= <- <- <-]]. simpl. rewrite bind_run. unfold check at 1.
  destruct (match hsid with Some h => blen h =? STORE_HSID_BYTES | None => true end); [|by intros [= <- <- <-]].
  simpl. rewrite bind_run. destruct (transaction _ _ c) as [[r1 o1] c1] eqn:E. intros H.
  apply transaction_cases in E as [Hi1 E]; [|done].
  destruct E as [(e & -> & Hd)|(c2 & r2 & o2 & c3 & Hd2 & Hw2 & Hr2 & Hm & E)].
  { injection H as <- _ <-. by rewrite Hd. }
  rewrite <- Hd2 in Hw2. apply rotate_locked_cases in Hm as [Hd3 Hw3]; [|done]. rewrite Hd2 in *.
  destruct E as [(e & -> & Hd)|([] & -> & -> & Hw)]; injection H as <- _ <-; split; try done.
  - by rewrite Hd.
  - by eapply Hw3.
Qed.

(** ** The lookup finds what is active *)

Lemma one_active d k k' : schema_ok d -> k ∈ device_keys d -> k' ∈ device_keys d -> k_handle k = k_handle k' ->
  k_status k = ACTIVE -> k_status k' = ACTIVE -> k = k'.
Proof.
  intros Hs Hk Hk' Hh Ha Ha'. pose proof (one_active_key _ Hs (k_handle k)) as Hone.
  assert (k ∈ active_keys (k_handle k) d) as H1 by (by apply list_elem_of_filter).
  assert (k' ∈ active_keys (k_handle k) d) as H2 by (by apply list_elem_of_filter).
  destruct (active_keys (k_handle k) d) as [|x [|y l]]; [by apply not_elem_of_nil in H1| |simpl in Hone; lia].
  apply list_elem_of_singleton in H1 as ->. by apply list_elem_of_singleton in H2 as ->.
Qed.

Lemma role_total {O} t (o : O) c : t ∈ [OPERATOR; USER] -> exists r, role_text r = t /\ role_from_text t o c = (inr r, o, c).
Proof.
  intros [->|[->|?%not_elem_of_nil]%elem_of_cons]%elem_of_cons; [exists STORE_ROLE_OPERATOR|exists STORE_ROLE_USER|done];
    done.
Qed.

Lemma lookup_finds {O} s d k v u (o : O) n : schema_ok d ->
  k ∈ device_keys d -> v ∈ devices d -> u ∈ users d -> d_handle v = k_handle k -> u_id u = d_user v ->
  k_status k = ACTIVE -> d_status v = ACTIVE -> u_status u = ACTIVE ->
  id_ok (Some (k_handle k)) = true -> blen (k_pk k) = STORE_PK_BYTES -> blen (u_id u) <= STORE_ID_MAX ->
  exists r, role_text r = u_role u /\
  store_lookup_active (Some s) (Some (k_handle k)) true (Some STORE_ID_MAX) true o (at_rest d n) =
  (inr (k_pk k, Some (u_id u), Some r), o, at_rest d n).
Proof.
  intros Hs Hk Hv Hu Hvk Huv Hka Hva Hua Hid Hlen Hul.
  assert (head (active_join (k_handle k) d) = Some (k_pk k, u_id u, u_role u)) as Hj.
  { destruct (head (active_join (k_handle k) d)) as [x|] eqn:E.
    - apply head_in, active_join_in in E as (k' & v' & u' & ? & ? & ? & ? & ? & ? & ? & ? & ? & ->).
      rewrite (one_active d k k') by (done || congruence).
      assert (v = v') as -> by (eapply (key_unique d_handle); eauto using devices_unique; congruence).
      by assert (u = u') as -> by (eapply (key_unique u_id); eauto using users_unique; congruence).
    - assert (is_Some (head (active_join (k_handle k) d))) as [? ?]; [|congruence].
      apply head_is_Some. exists (k_pk k, u_id u, u_role u). unfold active_join.
      apply list_elem_of_bind. exists k. split; [|by apply list_elem_of_filter].
      apply list_elem_of_bind. exists v. split; [|by apply list_elem_of_filter].
      apply list_elem_of_bind. exists u. split; [by left|by apply list_elem_of_filter]. }
  destruct (role_total (u_role u) o (at_rest d n)) as (r & Hr & Hrole).
  { pose proof (users_checked _ Hs) as Hc. rewrite Forall_forall in Hc. by apply Hc. }
  exists r. split; [done|]. unfold store_lookup_active. rewrite bind_run. unfold check at 1. simpl bytes_of. rewrite Hid.
  simpl. rewrite bind_run, select_opt_calm. simpl. rewrite Hj. unfold copy_blob_col. rewrite Hlen.
  replace (STORE_ID_MAX <? blen (u_id u)) with false by (symmetry; by apply Z.ltb_ge).
  cbv [mbind T_bind mret T_ret check fail]. simpl. rewrite Hlen, Z.eqb_refl. by rewrite Hrole.
Qed.

(** ** Enrolling *)

Lemma add_user_inr {O} s u ro (o : O) d w n x o' c' : add_user_locked s u ro o (in_tx d w n) = (inr x, o', c') ->
  exists row, u ∉ u_id <$> users w /\ o' = o /\
    c' = in_tx d (with_audit (audit w ++ [row])
                   (with_users (users w ++ [UserRow u (role_text ro) ACTIVE (clock n) None None 0 0]) w)) (S n).
Proof.
  unfold add_user_locked. rewrite bind_run. simpl. rewrite bind_run, write_unique_tx. unfold insert_user.
  destruct (decide (u ∈ _)); [done|]. destruct (decide (role_text ro ∈ _)); [|done].
  rewrite audit_append_calm. destruct (audit_entry _ _ _ _ _ _ _) as [er|row]; [done|].
  intros [= _ <- <-]. by exists row.
Qed.

(** What [store_enroll_device_ex] commits when it enrolls. *)
Lemma enroll_ex_inr s h u ro pk via by_ l o d n x o' c' :
  store_enroll_device_ex (Some s) (Some h) (Some u) ro (Some pk) via by_ l o (at_rest d n) = (inr x, o', c') ->
  id_ok (Some h) = true /\ id_ok (Some u) = true /\
  (idempotent_out o' = true \/
   exists w now n' i row, created_out o' = bool_decide (users_by_id u d = []) /\
     (if created_out o' then exists ua ur, w = with_audit ua (with_users (users d ++ [ur]) d) /\ u_id ur = u /\
                                            u_role ur = role_text ro /\ u_status ur = ACTIVE
      else w = d) /\
     h ∉ d_handle <$> devices w /\
     c' = at_rest (enrolled w h u pk (bytes_of via) (bytes_of by_) l now i row) n').
Proof.
  unfold store_enroll_device_ex. intros (? & ? & ? & (Hids&->&->)%check_inr & H)%bind_inr.
  apply andb_true_iff in Hids as [[Hh Hu]%andb_true_iff _]. split_and!; [done..|].
  rewrite bind_run in H. simpl in H. rewrite bind_run in H. simpl in H. rewrite bind_run in H. unfold try in H.
  rewrite bind_run, select_opt_calm in H. simpl in H.
  destruct (head (users_by_id u d)) as [ur|] eqn:Eu; simpl in H; rewrite bind_run in H.
  - simpl in H. rewrite bind_run in H. simpl in H. rewrite bind_run in H.
    destruct (enroll_device_locked _ _ _ _ _ _ _ _ _ _) as [[r o1] c1] eqn:E.
    apply enroll_locked_cases in E as (w & -> & Hr). destruct r as [e|[]]; [done|injection H as _ <- _; auto|].
    destruct Hr as (i & row & _ & _ & Hfresh & _ & ->). right. injection H as _ <- <-. simpl.
    exists d, (clock n), (S n), i, row. split_and!; auto. by destruct (users_by_id u d).
  - destruct (add_user_locked _ _ _ _ _) as [[[e|[]] oa] ca] eqn:Ea; [done|].
    apply add_user_inr in Ea as (ua & Hu' & -> & ->). rewrite bind_run in H. simpl in H. rewrite bind_run in H.
    destruct (enroll_device_locked _ _ _ _ _ _ _ _ _ _) as [[r o1] c1] eqn:E.
    apply enroll_locked_cases in E as (w & -> & Hr). destruct r as [e|[]]; [done|injection H as _ <- _; auto|].
    destruct Hr as (i & row & _ & _ & Hfresh & _ & ->). right. injection H as _ <- <-. simpl.
    eexists _, _, _, i, row. split_and!; [| |exact Hfresh|reflexivity]; [by destruct (users_by_id u d)|].
    eexists _, _. by split_and!.
Qed.

(** Enrolling makes the device usable, and only that.  When
    [store_enroll_device_ex] returns STORE_OK under any failures and has
    enrolled (the handle did not already hold this key), the user existing and
    active or created by it, then the lookup that authenticates the handle
    returns exactly this key and this user; and a created user has the
    requested role. *)
Theorem enroll_then_lookup {O} s h u ro pk via by_ l o c x o' c' (o2 : O) n :
  idle c -> schema_ok (disk c) -> blen pk = STORE_PK_BYTES ->
  store_enroll_device_ex (Some s) (Some h) (Some u) ro (Some pk) via by_ l o c = (inr x, o', c') ->
  idempotent_out o' = false ->
  (created_out o' = false -> exists ur, ur ∈ users (disk c) /\ u_id ur = u /\ u_status ur = ACTIVE) ->
  exists r, (created_out o' = true -> r = ro) /\
    store_lookup_active (Some s) (Some h) true (Some STORE_ID_MAX) true o2 (at_rest (disk c') n) =
    (inr (pk, Some u, Some r), o2, at_rest (disk c') n).
Proof.
  intros Hi Hs Hpk H Hid Hact.
  assert (schema_ok (disk c')) as Hs'.
  { destruct (grows_enroll_ex s (fun _ => True) (keeps schema_ok) _ _ _ _ _ _ _ _ _ _ _ _ H) as [Hg _];
      [by rewrite idle_view|by apply Hg]. }
  apply atomic_inr in H as [_ H]; [|apply enroll_ex_atomic|done].
  pose proof (enroll_ex_inr _ _ _ _ _ _ _ _ _ _ _ _ _ _ H) as (Hh & Hu & [?|(w & now & n' & i & row & Hc & Hw & Hf & Hd)]);
    [congruence|]. injection Hd as Hd _.
  assert (exists ur, ur ∈ users (disk c') /\ u_id ur = u /\ u_status ur = ACTIVE /\
     (created_out o' = true -> u_role ur = role_text ro)) as (ur & Hur & Hui & Hua & Hrole).
  { rewrite Hd. simpl. destruct (created_out o').
    - destruct Hw as (ua & ur & -> & ? & ? & ?). exists ur. simpl. set_solver.
    - subst w. destruct (Hact eq_refl) as (ur & ? & ? & ?). by exists ur. }
  rewrite Hd in Hur, Hs'. rewrite Hd.
  destruct (lookup_finds (O := O) s _ (KeyRow i h pk (pk_fingerprint pk) ACTIVE now None None)
    (DeviceRow h u l ACTIVE now (bytes_of via) (bytes_of by_) None None None None) ur o2 n Hs') as (r & Hr & Hl);
    simpl; try done; [set_solver..|rewrite Hui; exact (id_ok_small (Some u) Hu)|].
  exists r. rewrite Hui in Hl. split; [|done]. intros Hcr. rewrite Hrole in Hr by done. by destruct r, ro.
Qed.

(** Two different keys with one fingerprint, one of them on record. *)
Definition fp_collision (d : db) (pk : blob) : Prop :=
  exists k, k ∈ device_keys d /\ k_fp k = pk_fingerprint pk /\ k_pk k <> pk.

(** A refused [store_enroll_device] enrolls nothing, whatever fails: every
    table but the audit log (which may have gained the row of a mismatch) is
    unchanged.  The exception is a key whose SHA-256 fingerprint is on record
    for another key: the operation commits on a conflict, and the device row
    is written before the key row is refused. *)
Theorem enroll_device_refusal {O} s h u pk via by_ l (o : O) c e o' c' :
  idle c -> store_enroll_device (Some s) (Some h) (Some u) (Some pk) via by_ l o c = (inl e, o', c') ->
  tables (disk c') = tables (disk c) \/ fp_collision (disk c) pk.
Proof.
  intros Hi. unfold store_enroll_device. rewrite bind_run. unfold check at 1.
  destruct (id_ok _ && _ && _); [|intros [= _ _ <-]; auto]. simpl. rewrite bind_run.
  unfold tx_begin, begin_immediate. unfold mbind at 1, T_bind at 1. destruct (engine c) as [bo c1] eqn:E.
  apply engine_cases in E as (Hd & Hr & [[-> Hw]|[-> Hw]]); [|intros [= _ _ <-]; rewrite Hd; auto].
  rewrite Hw, Hi. simpl. rewrite bind_run. simpl. rewrite bind_run. unfold try at 1.
  set (c2 := Conn _ (Some _) _ _).
  destruct (enroll_device_locked _ _ _ _ _ _ _ _ _ c2) as [[r2 o2] c3] eqn:E2.
  apply body_enroll in E2 as [Hd3 E2]; [|by eexists]. simpl in Hd3. rewrite Hd in Hd3.
  assert (forall o4 (er : store_status_t) o5 c5, (abandon er : T O unit) o4 c3 = (inl e, o5, c5) ->
    tables (disk c5) = tables (disk c)) as Hab by (intros ? ? ? ? [= _ _ <-]; simpl; by rewrite Hd3).
  destruct r2 as [e2|[]]; [|done|].
  2:{ intros [[? _]|[_ Hd4]]%commit_outcome; [done|]. left. by rewrite Hd4, Hd3. }
  destruct (decide (e2 = STORE_ERR_CONFLICT)) as [->|He]; [|destruct e2; try done; eauto].
  rewrite bind_run. unfold try. destruct (tx_commit o2 c3) as [[r4 o4] c4] eqn:E4. intros [= _ _ <-].
  apply commit_outcome in E4 as [[_ Hw4]|[_ Hd4]]; [|left; by rewrite Hd4, Hd3].
  destruct E2 as [[Hu _]|?]; [|done]. unfold undisturbed, calm in Hu. simpl in Hu.
  apply enroll_locked_cases in Hu as (w' & Hc3 & Hr2). injection Hc3 as _ Hc3 _. rewrite Hw4 in Hc3.
  injection Hc3 as ->. rewrite Hd in Hr2. destruct Hr2 as [?|[Hpk (k & Hk1 & Hk2)%list_elem_of_fmap]]; [by left|].
  right. exists k. split_and!; [done..|]. intros Heq. apply Hpk. rewrite <- Heq. by apply list_elem_of_fmap_2.
Qed.

End keys.
