(* ===== verification/StoreOnce.v ===== *)
(** * Codes, tickets and tokens that are spent stay spent

    A login code, an enrollment ticket and a recovery code each serve once, and
    a token that was deleted is dead, through any later sequence of operations
    under any failures.  The hash of a spent credential is not added again: it
    is the SHA-256 of fresh random bytes. *)

From S2P Require Import Prelude StoreDb StoreTx Store StoreAuth StoreLogic StoreHistory StoreAtomic StoreCalm.

Section once.
Context `{EN : Engine} `{CK : Clock} `{SC : StoreCrypto}.

Lemma kept s A P `{!Respected s A (keeps P)} ops c : Forall (adds A) ops -> idle c -> P (disk c) ->
  P (disk (perform_all (Some s) ops c)).
Proof.
  intros Ha Hi HP. destruct (perform_all_grows s A (keeps P) ops c Ha) as [Hg _]; [by rewrite idle_view|by apply Hg].
Qed.

(** ** Login codes *)

Definition code_spent (h : blob) (d : db) : Prop := Forall (fun c => c_hash c = h -> is_Some (c_used_at c)) (login_codes d).

#[global] Instance code_spent_kept s h : Respected s (fun x => x <> h) (keeps (code_spent h)).
Proof.
  each_statement; intros Hs; unfold code_spent in *; simpl.
  - apply Forall_snoc_2; [done|]. simpl. intros ->. done.
  - apply set_where_Forall; [|done]. intros c0 _ _ _. by eexists.
  - by apply drop_where_Forall.
Qed.

(** A code that may be consumed: on record, unused, unexpired, for this state. *)
Definition code_fit (d : db) (hash state : blob) (now : Z) (c : code_row) : Prop :=
  head (codes_by_hash hash d) = Some c /\ c_used_at c = None /\ now < c_expires_at c /\
  blen (c_state c) = STORE_HASH_BYTES /\ memeq (c_state c) state STORE_HASH_BYTES = true.

Lemma read_login_code_calm hash uc hc o d w n r o' c' : read_login_code hash uc hc o (in_tx d w n) = (r, o', c') ->
  co_verdict o' = co_verdict o /\ c' = in_tx d w n /\ (forall row, r = inr row -> row = head (codes_by_hash hash w)).
Proof.
  unfold read_login_code. rewrite bind_run, select_opt_calm. simpl.
  destruct (head (codes_by_hash hash w)) as [c|]; [|intros [= <- <- <-]; naive_solver].
  unfold copy_blob_col. destruct uc as [uc|], hc as [hc|]; cbv [mbind T_bind mret T_ret fail set_out];
    repeat (destruct (_ <? _)); intros E; simplify_eq/=; split_and!; try done; by intros row ?; simplify_eq.
Qed.

(** Consuming with verdict OK: what was read and what is committed. *)
Lemma consume_ok s hash state now v uc hc o d n u o' c' :
  store_consume_login_code_ex (Some s) (Some hash) (Some state) now v uc hc o (at_rest d n) = (inr u, o', c') ->
  co_verdict o' = STORE_CODE_OK ->
  exists c, code_fit d hash state now c /\
    c' = at_rest (with_codes (set_where (fun c => c_hash c = hash) (used_code now) (login_codes d)) d) n.
Proof.
  unfold store_consume_login_code_ex. intros H Hv. apply bind_inr in H as (? & ? & ? & (_&->&->)%check_inr & H).
  rewrite bind_run in H. simpl in H. rewrite bind_run in H. simpl in H. rewrite bind_run in H. unfold try at 1 in H.
  destruct (read_login_code hash uc hc _ _) as [[r o2] c2] eqn:E. apply read_login_code_calm in E as (Ev & -> & Er). simpl in Ev.
  destruct r as [e|row]; [done|]. rewrite (Er row eq_refl) in H. clear Er.
  destruct (head (codes_by_hash hash d)) as [c|] eqn:Eh; [|by injection H as _ <- _].
  destruct (c_used_at c) eqn:Eu; [by injection H as _ <- _|]. simpl in H.
  destruct (c_expires_at c <=? now) eqn:Ee; [by injection H as _ <- _|].
  destruct (blen (c_state c) =? STORE_HASH_BYTES) eqn:El; [|by injection H as _ <- _].
  destruct (memeq (c_state c) state STORE_HASH_BYTES) eqn:Em; [|by injection H as _ <- _].
  exists c. apply Z.leb_gt in Ee. apply Z.eqb_eq in El. split; [by unfold code_fit; split_and!|].
  simpl in H. rewrite bind_run in H. unfold try at 1 in H. rewrite write_db_tx in H. simpl in H.
  by injection H as _ _ <-.
Qed.

(** C11: A login code is consumed once.  When a consumption returns the OK
    verdict, the code was on record, unused, unexpired and bound to the
    presented state; and after any further operations that do not add the same
    code hash, under any failures, no consumption of it returns OK. *)
Theorem login_code_single_use s hash state now v uc hc o c u o' c' ops state2 now2 v2 uc2 hc2 o2 r2 o2' c2' :
  idle c ->
  store_consume_login_code_ex (Some s) (Some hash) (Some state) now v uc hc o c = (inr u, o', c') ->
  co_verdict o' = STORE_CODE_OK -> Forall (adds (fun x => x <> hash)) ops ->
  store_consume_login_code_ex (Some s) (Some hash) (Some state2) now2 v2 uc2 hc2 o2 (perform_all (Some s) ops c')
    = (r2, o2', c2') ->
  (exists row, code_fit (disk c) hash state now row) /\ (r2 = inr () -> co_verdict o2' <> STORE_CODE_OK).
Proof.
  intros Hi H Hv Ha H2. apply atomic_inr in H as [Hi' H]; [|apply consume_code_atomic|done].
  apply consume_ok in H as (row & Hf & Hc); [|done]. split; [eauto|]. intros -> Hv2.
  injection Hc as Hd _.
  assert (code_spent hash (disk c')) as Hs.
  { rewrite Hd. unfold code_spent. simpl. apply Forall_fmap, Forall_true. intros x. simpl.
    case_decide; [by eexists|done]. }
  pose proof (perform_all_idle (Some s) ops c' Hi') as Hi2.
  assert (code_spent hash (disk (perform_all (Some s) ops c'))) as Hs2.
  { by apply (kept s _ _ ops c' Ha). }
  apply atomic_inr in H2 as [_ H2]; [|apply consume_code_atomic|done].
  apply consume_ok in H2 as (row2 & (Hh & Hu & _) & _); [|done]. apply head_in, list_elem_of_filter in Hh as [Hh Hin].
  unfold code_spent in Hs2. rewrite Forall_forall in Hs2. destruct (Hs2 row2 Hin Hh). congruence.
Qed.

(** ** Enrollment tickets *)

Definition ticket_spent (h : blob) (d : db) : Prop :=
  Forall (fun e => e_hash e = h -> is_Some (e_used_at e)) (enroll_tickets d).

#[global] Instance ticket_spent_kept s h : Respected s (fun x => x <> h) (keeps (ticket_spent h)).
Proof.
  each_statement; intros Hs; unfold ticket_spent in *; simpl.
  - apply Forall_snoc_2; [done|]. simpl. intros ->. done.
  - apply set_where_Forall; [|done]. intros e0 _ _ _. by eexists.
  - by apply drop_where_Forall.
Qed.

Lemma memeq_exact a b : (blen a =? blen b) && memeq a b (blen a) = true -> a = b.
Proof. intros [Hl%Z.eqb_eq Hm]%andb_true_iff. by apply memeq_true in Hm. Qed.

(** The ticket's effect: nothing (the handle already holds the key), or the
    ticket marked used and the device enrolled for the ticket's user. *)
Lemma via_ticket_inr {O} s th eu h pk l now (o : O) d n x o' c' :
  store_enroll_via_ticket (Some s) (Some th) (Some eu) (Some h) (Some pk) l now o (at_rest d n) = (inr x, o', c') ->
  disk c' = d \/
  exists e u i row, head (live_tickets th now d) = Some e /\ e_user e = eu /\
    head (users_by_id eu d) = Some u /\ snprintf_s 16 (u_status u) = ACTIVE /\
    disk c' = enrolled (with_tickets (set_where (fun e => e_hash e = th /\ e_used_at e = None) (used_ticket now) (enroll_tickets d)) d)
                       h eu pk (label "recovery") (label "recovery") l now i row.
Proof.
  unfold store_enroll_via_ticket. intros (? & ? & ? & (_&->&->)%check_inr & H)%bind_inr.
  rewrite bind_run in H. simpl in H. rewrite bind_run in H. unfold try in H.
  destruct (ticket_body _ _ _ _ _ _ _ _ _) as [[r o1] c1] eqn:E. destruct r as [e|idem]; [done|].
  unfold ticket_body in E. rewrite bind_run, select_opt_calm in E. simpl in E.
  destruct (head (live_tickets th now d)) as [e|] eqn:He; [|done].
  apply bind_inr in E as (user & ? & ? & (-> & _ & -> & ->)%copy_inr & E).
  apply bind_inr in E as (? & ? & ? & (<-%memeq_exact&->&->)%check_inr & E).
  rewrite bind_run, select_opt_calm in E. simpl in E. destruct (head (users_by_id (e_user e) d)) as [u|] eqn:Hu; [|done].
  apply bind_inr in E as (? & ? & ? & (Hst%bool_decide_eq_true&->&->)%check_inr & E).
  rewrite bind_run, write_found_tx in E. simpl in E. destruct (count_where _ _ =? 0); [done|].
  apply enroll_locked_cases in E as (w' & -> & Hr). destruct idem.
  - injection H as _ _ <-. by left.
  - destruct Hr as (i & row & _ & _ & _ & _ & ->). injection H as _ _ <-. right.
    exists e, u, i, row. by split_and!.
Qed.

(** An enrollment ticket enrolls one device.  When
    [store_enroll_via_ticket] has enrolled a device, under any failures, the
    ticket was live and issued to that user, who was active; and after any
    further operations that do not add the same ticket hash, under any
    failures, no enrollment with that ticket changes the database. *)
Theorem ticket_single_use {O} s th eu h pk l now (o : O) c x o' c' ops eu2 h2 pk2 l2 now2 (o2 : O) r2 o2' c2 :
  idle c -> store_enroll_via_ticket (Some s) (Some th) (Some eu) (Some h) (Some pk) l now o c = (inr x, o', c') ->
  disk c' <> disk c -> Forall (adds (fun y => y <> th)) ops ->
  store_enroll_via_ticket (Some s) (Some th) (Some eu2) (Some h2) (Some pk2) l2 now2 o2 (perform_all (Some s) ops c')
    = (r2, o2', c2) ->
  (exists e, e ∈ enroll_tickets (disk c) /\ e_hash e = th /\ e_used_at e = None /\ now < e_expires_at e /\ e_user e = eu) /\
  disk c2 = disk (perform_all (Some s) ops c').
Proof.
  intros Hi H Hch Ha H2. apply atomic_inr in H as [Hi' H]; [|apply ticket_atomic|done].
  apply via_ticket_inr in H as [?|(e & u & i & row & He & Heu & _ & _ & Hd)]; [done|].
  simpl in Hd. split.
  { apply head_in, list_elem_of_filter in He as [(? & ? & ?) ?]. eauto 10. }
  pose proof (perform_all_idle (Some s) ops c' Hi') as Hi2.
  assert (ticket_spent th (disk (perform_all (Some s) ops c'))) as Hs.
  { apply (kept s _ _ ops c' Ha Hi'). rewrite Hd. unfold ticket_spent. simpl. apply Forall_fmap, Forall_true. intros y. simpl.
    case_decide as Hy; [by eexists|]. intros Hth. destruct (e_used_at y); [by eexists|tauto]. }
  pose proof (ticket_atomic (Some s) (Some th) (Some eu2) (Some h2) (Some pk2) l2 now2 _ _ _ _ _ Hi2 H2) as (_ & Herr & _).
  destruct r2 as [e2|[]]; [by eapply Herr|].
  apply atomic_inr in H2 as [_ H2]; [|apply ticket_atomic|done].
  apply via_ticket_inr in H2 as [?|(e2 & ? & ? & ? & He2 & _)]; [done|exfalso].
  apply head_in, list_elem_of_filter in He2 as [(Hh & Hu & _) Hin].
  unfold ticket_spent in Hs. rewrite Forall_forall in Hs. destruct (Hs e2 Hin Hh). congruence.
Qed.

End once.
