(* ===== verification/StoreTokens.v ===== *)
(** * Tokens: when one verifies, and what ends it

    [store_verify_token] answers OK exactly for a token on record whose device
    and user are active and whose two deadlines lie ahead; the idle deadline
    then moves, never past the absolute one.  Revoking a device ends its keys
    and tokens for good; disabling a user ends the user's tokens. *)

From S2P Require Import Prelude StoreDb StoreTx Store StoreAuth StoreLogic StoreHistory StoreAtomic StoreCalm StoreAudit StoreKeys.

Section tokens.
Context `{EL : EngineLaw} `{CK : Clock} `{SC : StoreCrypto}.

(** A token that stands at time [now], with its device and user. *)
Definition token_live (d : db) (hash : blob) (now : Z) (t : token_row) (v : device_row) (u : user_row) : Prop :=
  t ∈ tokens d /\ t_hash t = hash /\ v ∈ devices d /\ d_handle v = t_handle t /\ d_status v = ACTIVE /\
  u ∈ users d /\ u_id u = t_user t /\ u_status u = ACTIVE /\ now < t_expires_at t /\ now < t_idle_expires_at t.

Lemma device_active_iff d v : schema_ok d -> v ∈ devices d -> is_active (Some (d_status v)) = true <-> d_status v = ACTIVE.
Proof.
  intros Hs Hv. pose proof (devices_checked _ Hs) as Hc. rewrite Forall_forall in Hc. specialize (Hc v Hv).
  apply elem_of_cons in Hc as [->|[->|?%not_elem_of_nil]%elem_of_cons]; done.
Qed.

Lemma user_active_iff d u : schema_ok d -> u ∈ users d -> is_active (Some (u_status u)) = true <-> u_status u = ACTIVE.
Proof.
  intros Hs Hu. pose proof (users_checked _ Hs) as Hc. rewrite Forall_forall in Hc. destruct (Hc u Hu) as [_ Hst].
  apply elem_of_cons in Hst as [->|[->|?%not_elem_of_nil]%elem_of_cons]; done.
Qed.

Lemma left_join_some {A} (l : list A) a : Some a ∈ left_join l <-> a ∈ l.
Proof.
  destruct l as [|b l]; [split; [by intros ?%list_elem_of_singleton|by intros ?%not_elem_of_nil]|].
  change (left_join (b :: l)) with (Some <$> (b :: l)). split; [by intros (x & [= ->] & Hx)%list_elem_of_fmap|].
  apply list_elem_of_fmap_2.
Qed.

Lemma token_join_in hash d t v u : (t, v, u) ∈ token_join hash d <->
  t ∈ tokens d /\ t_hash t = hash /\
  v ∈ left_join (filter (fun v => d_handle v = t_handle t) (devices d)) /\
  u ∈ left_join (filter (fun u => u_id u = t_user t) (users d)).
Proof.
  unfold token_join. rewrite list_elem_of_bind. split.
  - intros (t' & Hx & [? ?]%list_elem_of_filter). apply list_elem_of_bind in Hx as (v' & Hx & ?).
    apply list_elem_of_bind in Hx as (u' & [= -> -> ->]%list_elem_of_singleton & ?). by split_and!.
  - intros (? & ? & ? & ?). exists t. split; [|by apply list_elem_of_filter].
    apply list_elem_of_bind. exists v. split; [|done]. apply list_elem_of_bind. exists u. split; [by left|done].
Qed.

Lemma left_join_unique {A} (l : list A) a x : a ∈ l -> (forall b, b ∈ l -> b = a) -> x ∈ left_join l -> x = Some a.
Proof.
  intros Ha Hl. destruct l as [|b l]; [by apply not_elem_of_nil in Ha|].
  change (left_join (b :: l)) with (Some <$> (b :: l)). intros (y & -> & Hy)%list_elem_of_fmap. f_equal. by apply Hl.
Qed.

Lemma token_join_head hash d now t v x : schema_ok d -> token_live d hash now t v x ->
  head (token_join hash d) = Some (t, Some v, Some x).
Proof.
  intros Hs (Ht & Hh & Hv & Hvh & _ & Hx & Hxu & _).
  assert (is_Some (head (token_join hash d))) as [[[t' dv] us] Hj].
  { apply head_is_Some. exists (t, Some v, Some x). apply token_join_in. rewrite !left_join_some, !list_elem_of_filter. done. }
  rewrite Hj. apply head_in, token_join_in in Hj as (Ht' & Hh' & Hdv & Hus).
  assert (t' = t) as -> by (eapply (key_unique t_hash); eauto using tokens_unique; congruence).
  assert (dv = Some v) as ->.
  { eapply left_join_unique; [|  |exact Hdv]; [by apply list_elem_of_filter|]. intros y [? ?]%list_elem_of_filter.
    eapply (key_unique d_handle); eauto using devices_unique; congruence. }
  assert (us = Some x) as ->; [|done].
  eapply left_join_unique; [|  |exact Hus]; [by apply list_elem_of_filter|]. intros y [? ?]%list_elem_of_filter.
  eapply (key_unique u_id); eauto using users_unique; congruence.
Qed.

(** The outcome of a check without failures, row by row. *)
Lemma verify_calm s hash now ttl v i o d n r o' c' :
  store_verify_token (Some s) (Some hash) now ttl v i o (at_rest d n) = (r, o', c') -> r <> inl STORE_ERR_ARG ->
  match head (token_join hash d) with
  | None => vo_verdict o' = STORE_TOKEN_UNKNOWN /\ c' = at_rest d n
  | Some (t, dv, us) =>
      if is_active (d_status <$> dv) && is_active (u_status <$> us) && (now <? t_expires_at t) && (now <? t_idle_expires_at t)
      then vo_verdict o' = STORE_TOKEN_OK /\
           c' = at_rest (with_tokens (set_where (fun t => t_hash t = hash)
                  (verified_row now (slide_idle now ttl (t_expires_at t) (t_idle_expires_at t))) (tokens d)) d) n
      else vo_verdict o' <> STORE_TOKEN_OK /\ c' = at_rest d n
  end.
Proof.
  unfold store_verify_token. rewrite bind_run. unfold check at 1. simpl. destruct v; [|by intros [= <- _ _]]. intros H _. simpl in H.
  rewrite bind_run in H. simpl in H. rewrite bind_run, select_opt_calm in H. simpl in H.
  destruct (head (token_join hash d)) as [[[t dv] us]|]; [|by injection H as _ <- <-].
  rewrite bind_run in H. simpl in H. rewrite !Z.leb_antisym in H.
  destruct (is_active (d_status <$> dv)); simpl in *; [|by injection H as _ <- <-].
  destruct (is_active (u_status <$> us)); simpl in *; [|by injection H as _ <- <-].
  destruct (now <? t_expires_at t); simpl in *; [|by injection H as _ <- <-].
  destruct (now <? t_idle_expires_at t); simpl in *; [|by injection H as _ <- <-].
  rewrite bind_run, write_db_auto in H. simpl in H. by injection H as _ <- <-.
Qed.

Lemma verify_token_spec s hash now ttl i o c u o' c' :
  idle c -> schema_ok (disk c) ->
  store_verify_token (Some s) (Some hash) now ttl true i o c = (inr u, o', c') ->
  (vo_verdict o' = STORE_TOKEN_OK <-> exists t v x, token_live (disk c) hash now t v x) /\
  (vo_verdict o' <> STORE_TOKEN_OK -> disk c' = disk c) /\
  (forall t v x, token_live (disk c) hash now t v x -> exists idle',
     disk c' = with_tokens (set_where (fun t => t_hash t = hash) (verified_row now idle') (tokens (disk c))) (disk c) /\
     idle' = (if 0 <? ttl then Z.min (now + ttl) (t_expires_at t) else t_idle_expires_at t)).
Proof.
  intros Hi Hs H. apply atomic_inr in H as [_ H]; [|apply verify_token_atomic|done].
  apply verify_calm in H; [|done].
  assert (forall t v x, token_live (disk c) hash now t v x ->
    vo_verdict o' = STORE_TOKEN_OK /\ disk c' = with_tokens (set_where (fun t => t_hash t = hash)
      (verified_row now (slide_idle now ttl (t_expires_at t) (t_idle_expires_at t))) (tokens (disk c))) (disk c)) as Hlive.
  { intros t v x Hl. rewrite (token_join_head _ _ _ _ _ _ Hs Hl) in H.
    destruct Hl as (_ & _ & Hv & _ & Hva & Hx & _ & Hxa & He & Hid).
    change (d_status <$> Some v) with (Some (d_status v)) in H. change (u_status <$> Some x) with (Some (u_status x)) in H.
    rewrite (proj2 (device_active_iff _ _ Hs Hv) Hva), (proj2 (user_active_iff _ _ Hs Hx) Hxa) in H.
    apply Z.ltb_lt in He, Hid. rewrite He, Hid in H. destruct H as [? [= ->]]. done. }
  split_and!.
  - split; [|intros (t & v & x & Hl); by eapply Hlive]. intros Hok.
    destruct (head (token_join hash (disk c))) as [[[t dv] us]|] eqn:Ej; [|destruct H; congruence].
    apply head_in, token_join_in in Ej as (Ht & Hh & Hdv & Hus).
    destruct (is_active (d_status <$> dv)) eqn:E1, (is_active (u_status <$> us)) eqn:E2, (now <? t_expires_at t) eqn:E3,
      (now <? t_idle_expires_at t) eqn:E4; simpl in H; try by destruct H.
    destruct dv as [v|]; [|done]. destruct us as [x|]; [|done]. simpl in *. apply left_join_some, list_elem_of_filter in Hdv as [? Hv], Hus as [? Hx].
    apply device_active_iff with (d := disk c) in E1; [|done..]. apply user_active_iff with (d := disk c) in E2; [|done..].
    apply Z.ltb_lt in E3, E4. exists t, v, x. by unfold token_live; split_and!.
  - intros Hno. destruct (head _) as [[[t dv] us]|]; [|by destruct H as [_ [= ->]]].
    destruct (_ && _); destruct H as [? [= ->]]; done.
  - intros t v x Hl. eexists. split; [by eapply Hlive|]. unfold slide_idle. destruct (0 <? ttl); [|done].
    destruct (t_expires_at t <? now + ttl) eqn:E; [apply Z.ltb_lt in E|apply Z.ltb_ge in E]; lia.
Qed.

(** C15: A token check that does not fail answers OK exactly when the token is on
    record, its device and its user are active, and both deadlines lie ahead.
    It then records the time and moves the idle deadline, never past the
    absolute one; on any other verdict nothing changes.  Under any failures. *)
Theorem verify_token_exact s hash now ttl i o c u o' c' :
  idle c -> schema_ok (disk c) ->
  store_verify_token (Some s) (Some hash) now ttl true i o c = (inr u, o', c') ->
  (vo_verdict o' = STORE_TOKEN_OK <-> exists t v x, token_live (disk c) hash now t v x) /\
  (vo_verdict o' <> STORE_TOKEN_OK -> disk c' = disk c) /\
  (forall t v x, token_live (disk c) hash now t v x -> exists idle',
     disk c' = with_tokens (set_where (fun t => t_hash t = hash) (verified_row now idle') (tokens (disk c))) (disk c) /\
     idle' = (if 0 <? ttl then Z.min (now + ttl) (t_expires_at t) else t_idle_expires_at t)).
Proof. apply verify_token_spec. Qed.

(** ** Revocation *)

Lemma revoke_inr {O} s h by_ reason (o : O) d n x o' c' :
  store_revoke_device (Some s) (Some h) by_ reason o (at_rest d n) = (inr x, o', c') ->
  exists row, h ∈ d_handle <$> devices d /\ disk c' = revoked d h (bytes_of by_) reason (clock n) row.
Proof.
  unfold store_revoke_device. intros (? & ? & ? & (_&->&->)%check_inr & H)%bind_inr.
  apply transaction_inr in H as (c1 & H & Hw). rewrite bind_run in H. simpl in H.
  apply revoke_locked_inr in H as (row & _ & Hh & ->). injection Hw as Hw. eauto.
Qed.

Lemma retired_no_active d h by_ reason now row : active_keys h (revoked d h by_ reason now row) = [].
Proof.
  apply elem_of_nil_inv. intros k [[Hk Ha] Hin]%list_elem_of_filter. simpl in Hin.
  apply list_elem_of_fmap in Hin as (k0 & -> & _). case_decide as Hd; simpl in *; [done|tauto].
Qed.

(** C10: Revoking a device is final.  After [store_revoke_device] returned
    STORE_OK, under any failures, the handle has no active key and no token
    left; and after any further sequence of operations under any failures the
    lookup that authenticates never returns a key for the handle, and no token
    of the handle verifies. *)
Theorem revocation_final {O} s h by_ reason (o : O) c x o' c' ops :
  idle c -> schema_ok (disk c) -> store_revoke_device (Some s) (Some h) by_ reason o c = (inr x, o', c') ->
  active_keys h (disk c') = [] /\ Forall (fun t => t_handle t <> h) (tokens (disk c')) /\
  (forall po uc wr (o2 : O) r o2' c2,
     store_lookup_active (Some s) (Some h) po uc wr o2 (perform_all (Some s) ops c') = (r, o2', c2) -> exists e, r = inl e) /\
  (forall hash now ttl i o2 u o2' c2,
     store_verify_token (Some s) (Some hash) now ttl true i o2 (perform_all (Some s) ops c') = (inr u, o2', c2) ->
     vo_verdict o2' = STORE_TOKEN_OK ->
     exists t, t ∈ tokens (disk (perform_all (Some s) ops c')) /\ t_hash t = hash /\ t_handle t <> h).
Proof.
  intros Hi Hs H. assert (schema_ok (disk c')) as Hs'.
  { destruct (grows_revoke s (fun _ => True) (keeps schema_ok) _ _ _ _ _ _ _ _ H) as [Hg _];
      [by rewrite idle_view|by apply Hg]. }
  apply atomic_inr in H as [Hi' H]; [|apply revoke_atomic|done].
  apply revoke_inr in H as (row & (v & -> & Hv)%list_elem_of_fmap & Hd). simpl in Hd.
  pose proof (perform_all_idle (Some s) ops c' Hi') as Hi2.
  destruct (later s ops c' Hi' Hs') as [Hs2 _]. rewrite idle_view in Hs2 by done.
  set (v' := revoke_row (clock (reads c)) (bytes_of by_) reason v).
  assert (v' ∈ devices (disk c')) as Hv'.
  { rewrite Hd. simpl. apply list_elem_of_fmap. exists v. by rewrite decide_True. }
  split_and!.
  - rewrite Hd. apply retired_no_active.
  - rewrite Hd. simpl. apply Forall_forall. by intros t [? _]%list_elem_of_filter.
  - intros po uc wr o2 [e|[[pk uid] role]] o2' c2 Hl; [eauto|exfalso].
    apply lookup_active_inr in Hl as (k & w & y & _ & Hw & _ & _ & Hh & _ & _ & Ha & _).
    rewrite (revoked_stays s ops c' v' w) in Ha; done.
  - intros hash now ttl i o2 u o2' c2 Hver Hok.
    destruct (verify_token_spec _ _ _ _ _ _ _ _ _ _ Hi2 Hs2 Hver) as [[Hlive _] _].
    destruct (Hlive Hok) as (t & w & y & Ht & Hth & Hw & Hwh & Hwa & _). exists t. split_and!; [done..|].
    intros Heq. rewrite (revoked_stays s ops c' v' w) in Hwa; try done; [by rewrite idle_view|].
    rewrite Hwh. done.
Qed.

End tokens.
