(* ===== verification/StoreRecovery.v ===== *)
(** * Recovery: codes, lockout and revoke=all

    A recovery code serves once and yields one ticket; reissuing leaves exactly
    the new codes unused, which bounds the verification loop; [revoke=all]
    revokes the user's active devices, up to the loop's guard; failures count
    up to the lock. *)

From stdpp Require Import sorting.
From S2P Require Import Prelude StoreDb StoreTx Store StoreAuth StoreLogic StoreHistory StoreAtomic StoreCalm StoreAudit StoreOnce.

Section recovery.
Context `{EL : EngineLaw} `{CK : Clock} `{SC : StoreCrypto}.

(** ** Revoking all devices of a user *)

Definition active_of (user : blob) (d : db) : list device_row :=
  filter (fun v => d_user v = user /\ d_status v = ACTIVE) (devices d).

Lemma set_where_cons {A} (P : A -> Prop) `{!forall a, Decision (P a)} f a l :
  set_where P f (a :: l) = (if decide (P a) then f a else a) :: set_where P f l.
Proof. done. Qed.

Lemma set_where_none {A} (P : A -> Prop) `{!forall a, Decision (P a)} f l :
  (forall a, a ∈ l -> ~ P a) -> set_where P f l = l.
Proof.
  intros Hl. induction l as [|a l IH]; [done|]. rewrite set_where_cons, decide_False by (apply Hl; left).
  f_equal. apply IH. intros b Hb. apply Hl. by right.
Qed.

(** Revoking one active device takes exactly it from the active ones. *)
Lemma revoke_one user now by_ reason (l : list device_row) v :
  NoDup (d_handle <$> l) -> v ∈ l -> d_user v = user -> d_status v = ACTIVE ->
  S (length (filter (fun x => d_user x = user /\ d_status x = ACTIVE)
       (set_where (fun x => d_handle x = d_handle v) (revoke_row now by_ reason) l))) =
  length (filter (fun x => d_user x = user /\ d_status x = ACTIVE) l).
Proof.
  intros Hn Hv Hu Ha. induction l as [|x l IH]; [by apply not_elem_of_nil in Hv|].
  rewrite fmap_cons in Hn. apply NoDup_cons in Hn as [Hx Hn]. rewrite set_where_cons, !filter_cons.
  apply elem_of_cons in Hv as [->|Hv].
  - rewrite (decide_True (P := d_handle x = d_handle x)) by done.
    rewrite decide_False by (by intros [_ ?]). rewrite decide_True by done. rewrite set_where_none; [done|].
    intros y Hy Heq. apply Hx. rewrite <- Heq. by apply list_elem_of_fmap_2.
  - rewrite (decide_False (P := d_handle x = d_handle v)).
    2:{ intros Heq. apply Hx. rewrite Heq. by apply list_elem_of_fmap_2. }
    specialize (IH Hn Hv). case_decide; cbn [length]; lia.
Qed.

(** An update of rows outside a selection leaves the selection alone. *)
Lemma filter_set_where {A} (P Q : A -> Prop) `{!forall a, Decision (P a)} `{!forall a, Decision (Q a)} f l :
  (forall a, a ∈ l -> P a -> ~ Q a /\ ~ Q (f a)) -> filter Q (set_where P f l) = filter Q l.
Proof.
  intros Hl. induction l as [|a l IH]; [done|]. rewrite set_where_cons, !filter_cons, IH; [|set_solver].
  destruct (decide (P a)) as [Ha|]; [|done]. destruct (Hl a (list_elem_of_here _ _) Ha). by rewrite !decide_False.
Qed.

(** What the loop leaves alone. *)
Definition loop_frame (w w' : db) : Prop :=
  users w' = users w /\ recovery_codes w' = recovery_codes w /\ enroll_tickets w' = enroll_tickets w /\ login_codes w' = login_codes w.

(** The devices with the handles [gone] are revoked with their keys and tokens;
    every other row of the three tables is as it was. *)
Definition all_revoked (gone : list blob) (now : Z) (w w' : db) : Prop :=
  devices w' = set_where (fun v => d_handle v ∈ gone) (revoke_row now (label "recovery") (Some (label "recovery revoke=all"))) (devices w) /\
  device_keys w' = set_where (fun k => k_handle k ∈ gone /\ k_status k = ACTIVE) (retire_row REVOKED now k_superseded_by) (device_keys w) /\
  tokens w' = drop_where (fun t => t_handle t ∈ gone) (tokens w).

Lemma set_where_after {A} (P Q R : A -> Prop) `{!forall a, Decision (P a)} `{!forall a, Decision (Q a)} `{!forall a, Decision (R a)} f l :
  (forall a, P a -> ~ Q (f a)) -> (forall a, R a <-> P a \/ Q a) -> set_where Q f (set_where P f l) = set_where R f l.
Proof.
  intros HQ HR. unfold set_where. rewrite <-list_fmap_compose. apply list_fmap_ext. intros i a _. cbn. specialize (HQ a). specialize (HR a).
  destruct (decide (P a)); repeat case_decide; tauto || done.
Qed.

Lemma all_revoked_nil now w w' : devices w' = devices w -> device_keys w' = device_keys w -> tokens w' = tokens w -> all_revoked [] now w w'.
Proof.
  intros Hd Hk Ht. unfold all_revoked, drop_where. rewrite Hd, Hk, Ht. rewrite !set_where_none by (intros ? _; set_solver). split_and!; try done.
  clear Ht. induction (tokens w) as [|t l IH]; [done|]. rewrite filter_cons_True by (cbn; apply not_elem_of_nil). by f_equal.
Qed.

Lemma all_revoked_cons h gone now row w w' : h ∉ gone ->
  all_revoked gone now (revoked w h (label "recovery") (Some (label "recovery revoke=all")) now row) w' -> all_revoked (h :: gone) now w w'.
Proof.
  intros Hh (Hd & Hk & Ht). unfold all_revoked. rewrite Hd, Hk, Ht. cbn [revoked devices device_keys tokens with_audit with_tokens with_keys with_devices].
  split; [|split].
  - apply set_where_after; [|set_solver]. intros v. cbn. by intros ->.
  - apply set_where_after; [by intros k _ [_ ?]|]. intros k. rewrite elem_of_cons. tauto.
  - unfold drop_where. rewrite list_filter_filter. apply list_filter_iff. intros t. rewrite elem_of_cons. tauto.
Qed.

Lemma all_revoked_others user gone now w w' : NoDup (d_handle <$> devices w) -> gone ⊆ d_handle <$> active_of user w -> all_revoked gone now w w' ->
  filter (fun v => d_user v <> user) (devices w') = filter (fun v => d_user v <> user) (devices w).
Proof.
  intros Hn Hg (-> & _). apply filter_set_where. intros v Hv Hgv. simpl.
  apply Hg, list_elem_of_fmap in Hgv as (x & Hx & [[Hu _] Hin]%list_elem_of_filter).
  rewrite (key_unique _ _ _ _ Hn Hv Hin Hx). tauto.
Qed.

Lemma revoke_loop_inr {O} s user now g k (o : O) d w n m o' c' : NoDup (d_handle <$> devices w) ->
  revoke_loop s user now g k o (in_tx d w n) = (inr m, o', c') ->
  exists w' gone, o' = o /\ c' = in_tx d w' n /\ loop_frame w w' /\ all_revoked gone now w w' /\
    NoDup gone /\ gone ⊆ d_handle <$> active_of user w /\
    length gone = (g `min` length (active_of user w))%nat /\ m = k + Z.of_nat (length gone) /\
    length (active_of user w') = (length (active_of user w) - g)%nat.
Proof.
  revert k w m. induction g as [|g IH]; intros k w m Hn; cbn [revoke_loop].
  - intros [= <- <- <-]. exists w, []. split_and!; try done; [by apply all_revoked_nil|constructor|set_solver|cbn; lia|lia].
  - rewrite bind_run, select_opt_calm. simpl. destruct (head (some_active_device user w)) as [v|] eqn:Ev.
    + apply head_in in Ev. unfold some_active_device in Ev. rewrite scan_perm in Ev. apply list_elem_of_filter in Ev as [[Hu Ha] Hv].
      intros (? & ? & ? & (_&->&->)%check_inr & H)%bind_inr. rewrite bind_run in H.
      destruct (revoke_device_locked _ _ _ _ _ _ _) as [[[e|[]] o1] c1] eqn:Er; [done|].
      apply revoke_locked_inr in Er as (row & -> & _ & ->).
      apply IH in H as (w' & gone & -> & -> & Hf & Hall & Hnd & Hsub & Hlen & -> & Hl); [|cbn; by rewrite set_where_column].
      pose proof (revoke_one user now (label "recovery") (Some (label "recovery revoke=all")) (devices w) v Hn Hv Hu Ha) as Hone.
      assert (forall x, x ∈ active_of user (revoked w (d_handle v) (label "recovery") (Some (label "recovery revoke=all")) now row) ->
                d_handle x <> d_handle v /\ x ∈ active_of user w) as Hact.
      { intros z [[Hxu Hxa] (y & -> & Hy)%list_elem_of_fmap]%list_elem_of_filter. case_decide as Hyv; [done|]. split; [done|]. by apply list_elem_of_filter. }
      exists w', (d_handle v :: gone). unfold active_of in *. simpl in *.
      assert (d_handle v ∉ gone) as Hv' by (intros (z & Hx & [Hne _]%Hact)%Hsub%list_elem_of_fmap; by rewrite <-Hx in Hne).
      rewrite <- Hone. split_and!; try done; [by eapply all_revoked_cons|by constructor| |lia..].
      intros h [->|Hh]%elem_of_cons; [by apply list_elem_of_fmap_2, list_elem_of_filter|].
      apply Hsub, list_elem_of_fmap in Hh as (z & -> & [_ Hx]%Hact). by apply list_elem_of_fmap_2.
    + intros [= <- <- <-]. exists w, []. assert (active_of user w = []) as Hnil.
      { unfold some_active_device in Ev. destruct (scan (filter _ _)) eqn:E; [|done].
        apply Permutation_nil_r. by rewrite <- (scan_perm _ (active_of user w)), <- E. }
      rewrite Hnil. simpl. split_and!; try done; [by apply all_revoked_nil|apply NoDup_nil_2|lia].
Qed.

(** ** A recovery code serves once *)

Definition recovery_spent (i : Z) (d : db) : Prop :=
  i ∈ r_id <$> recovery_codes d /\ Forall (fun r => r_id r = i -> is_Some (r_used_at r)) (recovery_codes d).

#[global] Instance recovery_spent_kept s i : Respected s (fun _ => True) (keeps (recovery_spent i)).
Proof.
  each_statement; intros [Hi Hs]; unfold recovery_spent in *; simpl.
  - rewrite set_where_column by done. split; [done|]. apply set_where_Forall; [|done]. intros ? _ _ _. by eexists.
  - rewrite fmap_app. split; [set_solver|]. apply Forall_snoc_2; [done|]. simpl. intros <-.
    by apply rowid_fresh in H.
  - rewrite set_where_column by done. split; [done|]. apply set_where_Forall; [|done]. intros ? _ _ _. by eexists.
Qed.

(** The rows written before the devices are revoked. *)
Definition redeemed (d : db) (i : Z) (user ticket : blob) (now expires : Z) : db :=
  with_tickets (enroll_tickets d ++ [TicketRow ticket user now expires None])
    (with_users (set_where (fun u => u_id u = user) (set_recovery 0 0) (users d))
      (with_recovery (set_where (fun r => r_id r = i /\ unused_of user r) (used_recovery now (label "recovery-use"))
                                (recovery_codes d)) d)).

Lemma recovery_consume_inr s i user ticket now expires ra o d n x o' c' : NoDup (d_handle <$> devices d) ->
  store_recovery_consume_ex (Some s) i (Some user) (Some ticket) now expires ra o (at_rest d n) = (inr x, o', c') ->
  exists r w row, r ∈ recovery_codes d /\ r_id r = i /\ unused_of user r /\
    ticket ∉ e_hash <$> enroll_tickets d /\ disk c' = with_audit (audit w ++ [row]) w /\
    if ra then exists gone, loop_frame (redeemed d i user ticket now expires) w /\ all_revoked gone now d w /\
               NoDup gone /\ gone ⊆ d_handle <$> active_of user d /\ o' = Z.of_nat (length gone) /\
               length gone = (revoke_guard `min` length (active_of user d))%nat /\
               length (active_of user w) = (length (active_of user d) - revoke_guard)%nat
    else o' = 0 /\ w = redeemed d i user ticket now expires.
Proof.
  intros Hn (? & ? & ? & [= _ <- <-] & H)%bind_inr.
  apply bind_inr in H as (? & ? & ? & (_&->&->)%check_inr & H). apply bind_inr in H as (m & o1 & c1 & H & Hs).
  injection Hs as _ <- <-. apply transaction_inr in H as (c2 & H & Hw).
  change (bytes_of (Some user)) with user in H. change (bytes_of (Some ticket)) with ticket in H.
  rewrite bind_run, write_found_tx in H. cbv beta iota delta [update_recovery_used] in H.
  destruct (count_where _ _ =? 0) eqn:Ec; [done|].
  apply Z.eqb_neq, count_where_pos in Ec as (r & Hr & Hi & Hu).
  rewrite bind_run, write_db_tx in H. cbv beta iota delta [clear_recovery update_recovery] in H.
  rewrite bind_run, write_unique_tx in H. unfold insert_ticket in H.
  destruct (decide (ticket ∈ _)) as [|Ht]; [done|]. cbv beta iota in H. change (with_tickets _ _) with (redeemed d i user ticket now expires) in H.
  exists r. destruct ra; rewrite bind_run in H.
  - destruct (revoke_loop _ _ _ _ _ _ _) as [[[er|k] o2] c3] eqn:El; [done|].
    apply revoke_loop_inr in El as (w & gone & -> & -> & Hf & Hall & Hnd & Hsub & Hlen & Hk & Hl); [|done]. rewrite bind_run, audit_append_calm in H.
    destruct (audit_entry _ _ _ _ _ _ _) as [er|row]; [done|]. injection H as <- <- <-. injection Hw as <-.
    exists w, row. split_and!; try done. exists gone. by split_and!.
  - simpl in H. rewrite bind_run, audit_append_calm in H.
    destruct (audit_entry _ _ _ _ _ _ _) as [er|row]; [done|]. injection H as <- <- <-. injection Hw as <-.
    by exists (redeemed d i user ticket now expires), row.
Qed.

(** C12: A recovery code is redeemed once, and to the end.  When
    [store_recovery_consume_ex] returns OK, under any failures, the code was on
    record and unused for that user and its ticket is on record; and after any
    further operations, under any failures, no call redeems that code again,
    for any user. *)
Theorem recovery_code_single_use s i user ticket now expires ra o c x o' c' ops user2 ticket2 now2 expires2 ra2 o2 r2 o2' c2 :
  idle c -> schema_ok (disk c) ->
  store_recovery_consume_ex (Some s) i (Some user) (Some ticket) now expires ra o c = (inr x, o', c') ->
  store_recovery_consume_ex (Some s) i (Some user2) (Some ticket2) now2 expires2 ra2 o2 (perform_all (Some s) ops c')
    = (r2, o2', c2) ->
  (exists r, r ∈ recovery_codes (disk c) /\ r_id r = i /\ unused_of user r) /\
  TicketRow ticket user now expires None ∈ enroll_tickets (disk c') /\
  r2 <> inr () /\ disk c2 = disk (perform_all (Some s) ops c').
Proof.
  intros Hi Hok H H2.
  assert (perform_all (Some s) ops c' = perform_all (Some s) (RecoveryConsume i (Some user) (Some ticket) now expires ra :: ops) c) as Hall.
  { change (store_recovery_consume_ex (Some s) i (Some user) (Some ticket) now expires ra 0 c = (inr x, o', c')) in H.
    unfold perform_all. cbn [fold_left perform]. unfold run. by rewrite H. }
  apply atomic_inr in H as [Hi' H]; [|apply recovery_consume_atomic|done].
  apply recovery_consume_inr in H as (r & w & row & Hr & Hri & Hu & _ & Hd & Hw); [|apply Hok]. simpl in Hd.
  assert (recovery_codes w = recovery_codes (redeemed (disk c) i user ticket now expires) /\
          enroll_tickets w = enroll_tickets (redeemed (disk c) i user ticket now expires)) as [Hrc Htk].
  { destruct ra; [destruct Hw as (gone & (_ & ? & ? & _) & _); done|by destruct Hw as [_ ->]]. }
  split; [eauto|]. split; [rewrite Hd; simpl; rewrite Htk; simpl; set_solver|].
  assert (recovery_spent i (disk c')) as Hs.
  { rewrite Hd. split; simpl; rewrite Hrc; simpl.
    - rewrite set_where_column by done. rewrite <- Hri. by apply list_elem_of_fmap_2.
    - unfold set_where. apply Forall_fmap, Forall_forall. intros r' Hr'. simpl. case_decide as Hc; [by eexists|].
      intros Heq. exfalso. apply Hc. rewrite (key_unique r_id _ r' r (recovery_unique _ Hok) Hr' Hr) by congruence. done. }
  pose proof (perform_all_idle (Some s) ops c' Hi') as Hi2.
  apply (kept s _ _ ops c' (adds_any _) Hi') in Hs as [_ Hs]. rewrite Forall_forall in Hs.
  pose proof (recovery_consume_atomic (Some s) i (Some user2) (Some ticket2) now2 expires2 ra2 _ _ _ _ _ Hi2 H2) as (_ & Herr & _).
  destruct r2 as [e2|[]]; [split; [done|by eapply Herr]|exfalso].
  apply atomic_inr in H2 as [_ H2]; [|apply recovery_consume_atomic|done].
  apply recovery_consume_inr in H2 as (r2 & _ & _ & Hr2 & Hi3 & [_ Hu2] & _).
  - destruct (Hs r2 Hr2 Hi3). congruence.
  - rewrite Hall. apply devices_unique. exact (perform_all_relates (keeps schema_ok) s _ _ c (adds_any _) Hi Hok).
Qed.

(** C20: What redeeming a code with revoke=all does to the devices.  When it
    returns OK, under any failures, there are as many distinct handles as it
    reports, the number of the user's active devices but at most 1024, each of
    them an active device of the user, such that exactly these devices are
    marked revoked, exactly their active keys are revoked and exactly their
    tokens deleted: every other row of the three tables is as it was.  Other
    users' devices are among these.  So with no more than 1024 active devices
    none stays active, and beyond that the rest does; and the user's failure count and lock are cleared. *)
Theorem recovery_revokes_devices s i user ticket now expires o c x o' c' : idle c -> schema_ok (disk c) ->
  store_recovery_consume_ex (Some s) i (Some user) (Some ticket) now expires true o c = (inr x, o', c') ->
  (exists gone, NoDup gone /\ gone ⊆ d_handle <$> active_of user (disk c) /\ blen gone = o' /\
     o' = Z.of_nat (revoke_guard `min` length (active_of user (disk c))) /\ all_revoked gone now (disk c) (disk c')) /\
  Z.of_nat (length (active_of user (disk c'))) = Z.of_nat (length (active_of user (disk c))) - o' /\
  ((length (active_of user (disk c)) <= revoke_guard)%nat -> active_of user (disk c') = []) /\
  filter (fun v => d_user v <> user) (devices (disk c')) = filter (fun v => d_user v <> user) (devices (disk c)) /\
  Forall (fun u => u_id u = user -> u_fail_count u = 0 /\ u_locked_until u = 0) (users (disk c')).
Proof.
  intros Hi Hok H. apply atomic_inr in H as [Hi' H]; [|apply recovery_consume_atomic|done].
  apply recovery_consume_inr in H as (r & w & row & _ & _ & _ & _ & Hd & gone & (Hu & _) & Hall & Hnd & Hsub & -> & Hlen & Hl); [|apply Hok].
  simpl in Hd. rewrite Hd. change (active_of user (with_audit _ w)) with (active_of user w).
  split_and!; [exists gone; split_and!; try done; lia|lia| |eapply all_revoked_others; [apply Hok|done..]|].
  - intros Hle. apply length_zero_iff_nil. lia.
  - cbn [users with_audit]. rewrite Hu. cbn [redeemed users with_tickets with_users].
    unfold set_where. apply Forall_fmap, Forall_true. intros u. simpl. by case_decide.
Qed.

(** ** The lock after failed attempts *)

(** The user's failure count and lock. *)
Definition recovery_state (user : blob) (d : db) : option (Z * Z) :=
  (fun u => (u_fail_count u, u_locked_until u)) <$> head (users_by_id user d).

Lemma filter_set_where_id {A B} (key : A -> B) `{!EqDecision B} (k : B) f (l : list A) : (forall a, key (f a) = key a) ->
  filter (fun a => key a = k) (set_where (fun a => key a = k) f l) = f <$> filter (fun a => key a = k) l.
Proof.
  intros Hf. induction l as [|a l IH]; [done|]. rewrite set_where_cons, !filter_cons, IH.
  destruct (decide (key a = k)); [rewrite decide_True by (by rewrite Hf)|rewrite decide_False by done]; done.
Qed.

Lemma set_recovery_state user f d :
  recovery_state user (with_users (set_where (fun u => u_id u = user) (fun u => set_recovery (f u).1 (f u).2 u) (users d)) d)
  = f <$> head (users_by_id user d).
Proof.
  unfold recovery_state, users_by_id. cbn [users with_users]. rewrite filter_set_where_id by done.
  destruct (filter _ _); [done|]. simpl. by destruct (f _).
Qed.

Lemma note_failure_inr s user now th ls o d n x o' c' :
  store_recovery_note_failure (Some s) (Some user) now th ls o (at_rest d n) = (inr x, o', c') ->
  exists k l, recovery_state user d = Some (k, l) /\
    if th <=? int32 (k + 1) then o' = (true, now + ls) /\ recovery_state user (disk c') = Some (0, now + ls)
    else o' = (false, 0) /\ recovery_state user (disk c') = Some (k + 1, l).
Proof.
  intros (? & ? & ? & (_&->&->)%check_inr & H)%bind_inr. apply bind_inr in H as (? & ? & ? & [= _ <- <-] & H).
  apply transaction_inr in H as (c2 & H & Hw). change (bytes_of (Some user)) with user in H.
  rewrite bind_run, write_found_tx in H. cbv beta iota delta [bump_failures update_recovery] in H.
  destruct (count_where _ _ =? 0); [done|]. rewrite bind_run, select_opt_calm in H.
  pose proof (set_recovery_state user (fun u => (u_fail_count u + 1, u_locked_until u)) d) as Hst. cbv beta in Hst, H.
  revert H Hst. generalize (with_users (set_where (fun u => u_id u = user)
    (fun u => set_recovery (u_fail_count u + 1, u_locked_until u).1 (u_fail_count u + 1, u_locked_until u).2 u) (users d)) d).
  intros w H Hst. change (default d (Some w)) with w in H. unfold recovery_state at 1 in Hst.
  destruct (head (users_by_id user w)) as [u1|] eqn:E1; [|done].
  unfold recovery_state at 1. destruct (head (users_by_id user d)) as [u|]; [|done]. injection Hst as Hk Hl.
  exists (u_fail_count u), (u_locked_until u). split; [done|]. rewrite <- Hk. destruct (th <=? int32 (u_fail_count u1)) eqn:Et.
  - rewrite bind_run, write_db_tx in H. cbv beta iota delta [lock_recovery update_recovery] in H.
    rewrite bind_run in H. cbv beta iota delta [set_out] in H. rewrite audit_append_calm in H.
    destruct (audit_entry _ _ _ _ _ _ _) as [er|row]; [done|]. injection H as _ <- <-. injection Hw as <-. split; [done|].
    etrans; [exact (set_recovery_state user (fun _ => (0, now + ls)) w)|]. by rewrite E1.
  - rewrite audit_append_calm in H.
    destruct (audit_entry _ _ _ _ _ _ _) as [er|row]; [done|]. injection H as _ <- <-. injection Hw as <-. split; [done|].
    unfold recovery_state. change (users_by_id user (with_audit _ w)) with (users_by_id user w). rewrite E1. by rewrite <- Hl.
Qed.

(** Failed attempts noted at the given times, each reporting whether it
    locked; a call that returns an error is retried or given up. *)
Inductive failures_noted (s : store_t) (user : blob) (th ls : Z) : conn -> list Z -> conn -> list (bool * Z) -> Prop :=
| noted_none c : failures_noted s user th ls c [] c []
| noted_one c now o out c1 nows c' outs :
    store_recovery_note_failure (Some s) (Some user) now th ls o c = (inr (), out, c1) ->
    failures_noted s user th ls c1 nows c' outs -> failures_noted s user th ls c (now :: nows) c' (out :: outs)
| noted_error c now o e out c1 nows c' outs :
    store_recovery_note_failure (Some s) (Some user) now th ls o c = (inl e, out, c1) ->
    failures_noted s user th ls c1 nows c' outs -> failures_noted s user th ls c nows c' outs.

Lemma int32_small z : 0 <= z < 2 ^ 31 -> int32 z = z.
Proof. intros Hz. unfold int32. rewrite Z.mod_small; lia. Qed.

(** The count below the threshold, and the attempt that reaches it. *)
Definition counted (th ls k l : Z) (nows : list Z) (outs : list (bool * Z)) (st : option (Z * Z)) : Prop :=
  let len := Z.of_nat (length nows) in
  (k + len < th -> outs = replicate (length nows) (false, 0) /\ st = Some (k + len, l)) /\
  (k + len = th -> exists now, last nows = Some now /\
    outs = replicate (length nows - 1) (false, 0) ++ [(true, now + ls)] /\ st = Some (0, now + ls)).

Lemma failures_count s user th ls c nows c' outs : th < 2 ^ 31 -> failures_noted s user th ls c nows c' outs ->
  forall k l, idle c -> recovery_state user (disk c) = Some (k, l) -> 0 <= k < th ->
  k + Z.of_nat (length nows) <= th -> idle c' /\ counted th ls k l nows outs (recovery_state user (disk c')).
Proof.
  intros Hth. induction 1 as [c|c now o out c1 nows c' outs H _ IH|c now o e out c1 nows c' outs H _ IH]; intros k l Hi Hst Hk Hle.
  - split; [done|]. split; simpl; intros ?; [|lia]. rewrite Hst. split; [done|]. do 2 f_equal. lia.
  - apply atomic_inr in H as [Hi' H]; [|apply note_failure_atomic|done].
    apply note_failure_inr in H as (k' & l' & Hst' & H). cbn [disk] in Hst', H. rewrite Hst in Hst'. injection Hst' as <- <-.
    rewrite int32_small in H by lia. cbn [length] in *. destruct (th <=? k + 1) eqn:Et; destruct H as [-> Hst1].
    + destruct nows as [|? ?]; [|cbn [length] in *; lia].
      destruct (IH 0 (now + ls) Hi' Hst1 ltac:(lia) ltac:(simpl; lia)) as [Hc [Hlt _]].
      destruct Hlt as [-> Hst2]; [simpl; lia|]. split; [done|]. split; simpl; intros ?; [lia|]. by exists now.
    + destruct (IH (k + 1) l Hi' Hst1 ltac:(lia) ltac:(lia)) as [Hc [Hlt Heq]]. split; [done|]. split; cbn [length]; intros Hs.
      * destruct Hlt as [-> Hst2]; [lia|]. split; [done|]. rewrite Hst2. do 2 f_equal. lia.
      * destruct Heq as (x & Hx & -> & Hst2); [lia|]. exists x. destruct nows as [|y nows]; [done|].
        split_and!; [done| |done]. cbn [length]. by replace (S (S (length nows)) - 1)%nat with (S (S (length nows) - 1))%nat by lia.
  - pose proof (note_failure_atomic (Some s) (Some user) now th ls _ _ _ _ _ Hi H) as (Hi' & Hd & _).
    apply IH; [done| |done..]. by rewrite (Hd e).
Qed.

(** Failed recovery attempts lock the user.  From a count of zero, the
    attempts before the [threshold]-th report no lock and the [threshold]-th
    reports the lock until its time plus [lock_seconds], whatever engine
    failures make calls return errors in between; the lock state then read is
    locked at exactly the times before that, with the count back at zero. *)
Theorem recovery_lockout {O} s user th ls c nows c' outs l : th < 2 ^ 31 -> 0 < th ->
  failures_noted s user th ls c nows c' outs -> idle c -> recovery_state user (disk c) = Some (0, l) ->
  Z.of_nat (length nows) = th -> id_ok (Some user) = true ->
  exists now, last nows = Some now /\ outs = replicate (length nows - 1) (false, 0) ++ [(true, now + ls)] /\
    forall t (o : O), store_recovery_lock_state (Some s) (Some user) t true o (calm c') =
                (inr (t <? now + ls, now + ls, 0), o, calm c').
Proof.
  intros Hth Hpos H Hi Hst Hlen Hid. destruct (failures_count _ _ _ _ _ _ _ _ Hth H 0 l Hi Hst) as [Hi' [_ Heq]]; [lia..|].
  destruct Heq as (now & Hnow & Houts & Hst'); [lia|]. exists now. split_and!; [done..|]. intros t o.
  unfold store_recovery_lock_state, calm. unfold idle in Hi'. rewrite Hi', bind_run, Hid. simpl.
  rewrite bind_run, select_opt_calm. unfold recovery_state in Hst'. change (default (disk c') None) with (disk c').
  change (bytes_of (Some user)) with user. destruct (head (users_by_id user (disk c'))) as [u|]; [|done].
  injection Hst' as -> ->. done.
Qed.

(** ** Issuing a new set of codes *)

Lemma insert_codes_inr {O} user hashes now (o : O) d w n x o' c' :
  insert_codes user hashes now o (in_tx d w n) = (inr x, o', c') ->
  exists rows, o' = o /\ c' = in_tx d (with_recovery (recovery_codes w ++ rows) w) n /\
    r_pwhash <$> rows = (fun h => Some (bytes_of h)) <$> hashes /\ Forall (unused_of user) rows.
Proof.
  revert w. induction hashes as [|h hashes IH]; intros w; cbn [insert_codes].
  - intros [= _ <- <-]. exists []. rewrite app_nil_r. split_and!; [done|by destruct w|done|constructor].
  - rewrite bind_run, write_db_tx. unfold insert_recovery. destruct (rowid _) as [i|]; [|done].
    intros (rows & -> & -> & Hp & Hu)%IH. cbn [recovery_codes with_recovery].
    eexists (RecoveryRow i user (Some (bytes_of h)) now None None :: rows). split_and!; [done| | |by constructor].
    + by rewrite <- app_assoc.
    + by rewrite !fmap_cons, Hp.
Qed.

Lemma filter_none {A} (P : A -> Prop) `{!forall a, Decision (P a)} l : Forall (fun a => ~ P a) l -> filter P l = [].
Proof. induction 1 as [|a l Ha _ IH]; [done|]. by rewrite filter_cons, decide_False. Qed.

Lemma filter_every {A} (P : A -> Prop) `{!forall a, Decision (P a)} l : Forall P l -> filter P l = l.
Proof. induction 1 as [|a l Ha _ IH]; [done|]. by rewrite filter_cons, decide_True, IH. Qed.

Lemma replace_spec s user hashes now o c x o' c' : idle c ->
  store_recovery_replace (Some s) (Some user) (Some hashes) now o c = (inr x, o', c') ->
  r_pwhash <$> filter (unused_of user) (recovery_codes (disk c')) = hashes /\
  o' = count_where (unused_of user) (recovery_codes (disk c)) /\
  filter (fun r => r_user r <> user) (recovery_codes (disk c')) = filter (fun r => r_user r <> user) (recovery_codes (disk c)).
Proof.
  intros Hi H. apply atomic_inr in H as [Hi' H]; [|apply replace_atomic|done].
  apply bind_inr in H as (? & ? & ? & (_&->&->)%check_inr & H).
  apply bind_inr in H as (? & ? & ? & (Hall%bool_decide_eq_true&->&->)%check_inr & H).
  apply bind_inr in H as (? & ? & ? & [= _ <- <-] & H). apply transaction_inr in H as (c2 & H & Hw).
  change (bytes_of (Some user)) with user in H. rewrite bind_run, select_opt_calm in H.
  apply bind_inr in H as (? & ? & ? & (_&->&->)%check_inr & H). rewrite bind_run, write_db_tx in H.
  cbv beta iota delta [supersede_recovery] in H. rewrite bind_run in H. cbv beta iota delta [set_out] in H.
  rewrite bind_run in H. destruct (insert_codes _ _ _ _ _) as [[[er|[]] o2] c3] eqn:Ei; [done|].
  apply insert_codes_inr in Ei as (rows & -> & -> & Hp & Hu). rewrite audit_append_calm in H.
  destruct (audit_entry _ _ _ _ _ _ _) as [er|row]; [done|]. injection H as _ <- <-. injection Hw as Hw.
  cbn [disk] in Hw. rewrite <- Hw. cbn [recovery_codes with_audit with_recovery]. rewrite !filter_app. split_and!; [|done|].
  - rewrite filter_none, (filter_every _ rows) by (done || (apply Forall_fmap, Forall_true; intros r; simpl;
      case_decide as Hr; [by intros [_ ?]|done])).
    rewrite app_nil_l, Hp. clear -Hall. induction Hall as [|h hs [y ->] _ IH]; [done|]. by rewrite fmap_cons, IH.
  - rewrite filter_set_where by (intros r _ [Hr _]; split; intros []; done).
    rewrite (filter_none _ rows), app_nil_r; [done|]. eapply Forall_impl; [exact Hu|]. by intros r [Hr _] [].
Qed.

(** Issuing recovery codes replaces the whole set.  When
    [store_recovery_replace] returns OK, under any failures, the user's unused
    codes are exactly the new ones, in order; the reported number is that of
    the codes superseded; and other users' codes are untouched. *)
Theorem recovery_replace_exact s user hashes now o c x o' c' : idle c ->
  store_recovery_replace (Some s) (Some user) (Some hashes) now o c = (inr x, o', c') ->
  r_pwhash <$> filter (unused_of user) (recovery_codes (disk c')) = hashes /\
  o' = count_where (unused_of user) (recovery_codes (disk c)) /\
  filter (fun r => r_user r <> user) (recovery_codes (disk c')) = filter (fun r => r_user r <> user) (recovery_codes (disk c)).
Proof. apply replace_spec. Qed.

End recovery.
