(* ===== verification/StoreOpen.v ===== *)
(** * Opening the account store

    [store_open] with its meta table, and the accessors of the opened handle.
    The out state of the monad is the world of the primitives: the identifier
    and the decoy key are drawn from it.  The schema's [CREATE TABLE IF NOT
    EXISTS] leaves existing tables alone, and a table that does not exist is an
    empty one.  [sodium_init] and [calloc] are the results of those calls. *)

From S2P Require Import Prelude Extern Crypto StoreDb StoreTx Store StoreAuth StoreLogic StoreHistory StoreAtomic StoreCalm StoreAudit StoreOnce.

Definition STORE_SCHEMA_VERSION : Z := 1.
Definition AUDIT_LABEL : text := label "mldsa-authd/v1/audit-mac".
Definition LOG_LABEL : text := label "mldsa-authd/v1/log-pseudonym".

(** An int64_t from its two's complement. *)
Definition int64 (u : Z) : Z := (u + 2 ^ 63) mod 2 ^ 64 - 2 ^ 63.

Definition meta_rows (key : text) (d : db) : list blob := snd <$> filter (fun m => m.1 = key) (meta d).

(** [*found] and what was copied. *)
Definition meta_get {O} (key : text) (cap : Z) : T O (option blob) :=
  row ← select_opt (meta_rows key);
  match row with
  | None => mret None
  | Some v => v ← copy_blob_col v cap; mret (Some v)
  end.

Definition meta_put {O} (key : text) (val : blob) : T O unit := _ ← write_db (replace_meta key val); mret ().

Section open.
Context `{EV : Env}.

(** An effectful call of the primitives. *)
Definition draw {A} (m : M A) : T world A := fun w c => let '(a, w') := m w in (inr a, w', c).

(** [exec_simple] with a statement that changes no rows. *)
Definition exec_simple {O} : T O unit := b ← sqlite; check b STORE_ERR_DB.

Definition read_version {O} : T O unit :=
  v ← meta_get (label "schema_version") 8;
  match v with
  | Some v =>
      _ ← check (blen v =? 8) STORE_ERR_SCHEMA;
      check (int64 (be_dec v) <=? STORE_SCHEMA_VERSION) STORE_ERR_SCHEMA
  | None => meta_put (label "schema_version") (be64 STORE_SCHEMA_VERSION)
  end.

Definition read_store_id : T world blob :=
  v ← meta_get (label "store_id") STORE_STORE_ID_BYTES;
  match v with
  | None =>
      id ← draw (randombytes_buf STORE_STORE_ID_BYTES);
      _ ← meta_put (label "store_id") id;
      mret id
  | Some id => _ ← check (blen id =? STORE_STORE_ID_BYTES) STORE_ERR_DAMAGED; mret id
  end.

Definition read_decoy_pk : T world blob :=
  v ← meta_get (label "decoy_pk") STORE_PK_BYTES;
  match v with
  | None =>
      kp ← draw (mldsa_keypair_generate (Some (MldsaKeypair (zeros MLDSA_PUBLIC_KEY_BYTES) None)));
      match kp with
      | (0, Some kp) =>
          let pk := ztake STORE_PK_BYTES (dsa_pub kp) in
          _ ← meta_put (label "decoy_pk") pk;
          mret pk
      | _ => fail STORE_ERR_CRYPTO
      end
  | Some pk => _ ← check (blen pk =? STORE_PK_BYTES) STORE_ERR_DAMAGED; mret pk
  end.

(** A key of the store under [info], in memory that must be had first. *)
Definition derive_key (len : Z) (kek store_id : blob) (info : text) : T world blob :=
  mem ← draw (secure_mem_alloc len);
  _ ← check (bool_decide (is_Some mem)) STORE_ERR_CRYPTO;
  match kex_hkdf_sha256 len kek store_id info with
  | Some k => mret k
  | None => fail STORE_ERR_CRYPTO
  end.

Definition store_open (path kek : option blob) (out : bool) (sodium_init : Z) (calloc : bool) : T world store_t :=
  _ ← check (bool_decide (is_Some path) && bool_decide (is_Some kek) && out) STORE_ERR_ARG;
  _ ← check (0 <=? sodium_init) STORE_ERR_CRYPTO;
  _ ← check calloc STORE_ERR_CRYPTO;
  opened ← sqlite;
  _ ← check opened STORE_ERR_IO;
  _ ← exec_simple;                          (* PRAGMA journal_mode=WAL *)
  _ ← exec_simple;                          (* PRAGMA synchronous=FULL *)
  _ ← exec_simple;                          (* PRAGMA foreign_keys=ON *)
  _ ← exec_simple;                          (* STORE_SCHEMA_SQL *)
  ids ← transaction (_ ← read_version; id ← read_store_id; pk ← read_decoy_pk; mret (id, pk));
  key_audit ← derive_key STORE_AUDIT_MAC_BYTES (bytes_of kek) ids.1 AUDIT_LABEL;
  key_log ← derive_key STORE_LOG_KEY_BYTES (bytes_of kek) ids.1 LOG_LABEL;
  mret (Store key_audit key_log ids.1 ids.2).

End open.

(** ** The accessors *)

Definition store_get_store_id (s : option store_t) (out : bool) : store_status_t + blob :=
  match s with Some s => if out then inr (store_id s) else inl STORE_ERR_ARG | None => inl STORE_ERR_ARG end.

Definition store_get_decoy_pk (s : option store_t) (out : bool) : store_status_t + blob :=
  match s with Some s => if out then inr (decoy_pk s) else inl STORE_ERR_ARG | None => inl STORE_ERR_ARG end.

(** The status and [out], which a failure leaves zeroed. *)
Definition store_log_pseudonym `{StoreCrypto} (s : option store_t) (id : option blob) (id_len : Z) (out : bool)
    : store_status_t * option blob :=
  let zeroed := if out then Some (zeros STORE_PSEUDONYM_BYTES) else None in
  match s with
  | None => (STORE_ERR_ARG, zeroed)
  | Some s =>
      if negb out || (bool_decide (id = None) && (0 <? id_len)) then (STORE_ERR_ARG, zeroed)
      else match crypto_generichash 16 (ztake id_len (bytes_of id)) (key_log s) with
           | Some h => (STORE_OK, Some (ztake STORE_PSEUDONYM_BYTES h))
           | None => (STORE_ERR_CRYPTO, zeroed)
           end
  end.

(** ** What opening does *)

(** The value under a key of the meta table. *)
Definition meta_value (key : text) (d : db) : option blob := head (meta_rows key d).

(** Everything but the meta table. *)
Definition contents (d : db) : db := with_meta [] d.

Lemma meta_value_put k v k' d :
  meta_value k' (with_meta (drop_where (fun m => m.1 = k) (meta d) ++ [(k, v)]) d) =
  if decide (k' = k) then Some v else meta_value k' d.
Proof.
  unfold meta_value, meta_rows. cbn [meta with_meta]. rewrite filter_app. unfold drop_where. rewrite list_filter_filter.
  rewrite filter_cons, filter_nil. cbn [fst]. case_decide as Hk; [subst k'|].
  - rewrite (list_filter_iff _ (fun _ => False)); [|intros []; naive_solver]. rewrite decide_True by done.
    replace (filter (fun _ => False) (meta d)) with (@nil (text * blob)); [done|].
    induction (meta d) as [|x l IH]; [done|]. rewrite filter_cons. by case_decide.
  - rewrite decide_False, app_nil_r by done. f_equal. f_equal. apply list_filter_iff. intros []; naive_solver.
Qed.

Section opening.
Context `{EV : Env}.

Lemma meta_get_calm {O} key cap (o : O) d w n :
  meta_get key cap o (in_tx d w n) =
  (match meta_value key w with
   | None => inr None
   | Some v => if cap <? blen v then inl STORE_ERR_DB else inr (Some v)
   end, o, in_tx d w n).
Proof.
  unfold meta_get. rewrite bind_run, select_opt_calm. change (default d (Some w)) with w. fold (meta_value key w).
  destruct (meta_value key w) as [v|]; [|done]. rewrite bind_run. unfold copy_blob_col. by destruct (cap <? blen v).
Qed.

Lemma meta_put_calm {O} key v (o : O) d w n :
  meta_put key v o (in_tx d w n) =
  (inr (), o, in_tx d (with_meta (drop_where (fun m => m.1 = key) (meta w) ++ [(key, v)]) w) n).
Proof. unfold meta_put. by rewrite bind_run, write_db_tx. Qed.

(** Only the entry under [key] may be new. *)
Definition entry_set (key : text) (w w' : db) : Prop :=
  contents w' = contents w /\ (forall k, k <> key -> meta_value k w' = meta_value k w) /\
  (is_Some (meta_value key w) -> w' = w).

Lemma entry_set_refl key w : entry_set key w w.
Proof. done. Qed.

Lemma entry_set_put key v w : meta_value key w = None ->
  entry_set key w (with_meta (drop_where (fun m => m.1 = key) (meta w) ++ [(key, v)]) w).
Proof.
  intros Hn. split_and!; [done| |rewrite Hn; by intros []]. intros k Hk. rewrite meta_value_put. by rewrite decide_False.
Qed.

Lemma read_version_inr {O} (o : O) d w n x o' c' : read_version o (in_tx d w n) = (inr x, o', c') ->
  exists w', o' = o /\ c' = in_tx d w' n /\ entry_set (label "schema_version") w w'.
Proof.
  unfold read_version. rewrite bind_run, meta_get_calm. destruct (meta_value _ w) as [v|] eqn:E.
  - destruct (8 <? blen v); [done|]. intros (? & ? & ? & (_&->&->)%check_inr & (_&->&->)%check_inr)%bind_inr. eauto using entry_set_refl.
  - rewrite meta_put_calm. intros [= _ <- <-]. eauto using entry_set_put.
Qed.

Lemma read_store_id_inr w0 d w n id w1 c' : read_store_id w0 (in_tx d w n) = (inr id, w1, c') ->
  exists w', c' = in_tx d w' n /\ entry_set (label "store_id") w w' /\ meta_value (label "store_id") w' = Some id.
Proof.
  unfold read_store_id. rewrite bind_run, meta_get_calm. destruct (meta_value _ w) as [v|] eqn:E.
  - destruct (STORE_STORE_ID_BYTES <? blen v); [done|]. intros (? & ? & ? & (_&->&->)%check_inr & [= -> <- <-])%bind_inr.
    eauto using entry_set_refl.
  - rewrite bind_run. unfold draw. destruct (randombytes_buf _ w0) as [r w2]. rewrite bind_run, meta_put_calm.
    intros [= <- <- <-]. eexists. split; [done|]. split; [by apply entry_set_put|]. rewrite meta_value_put. by rewrite decide_True.
Qed.

Lemma read_decoy_inr w0 d w n pk w1 c' : read_decoy_pk w0 (in_tx d w n) = (inr pk, w1, c') ->
  exists w', c' = in_tx d w' n /\ entry_set (label "decoy_pk") w w' /\ meta_value (label "decoy_pk") w' = Some pk.
Proof.
  unfold read_decoy_pk. rewrite bind_run, meta_get_calm. destruct (meta_value _ w) as [v|] eqn:E.
  - destruct (STORE_PK_BYTES <? blen v); [done|]. intros (? & ? & ? & (_&->&->)%check_inr & [= -> <- <-])%bind_inr.
    eauto using entry_set_refl.
  - rewrite bind_run. unfold draw. destruct (mldsa_keypair_generate _ w0) as [[[] [kp|]] w2]; try done.
    rewrite bind_run, meta_put_calm.
    intros [= <- <- <-]. eexists. split; [done|]. split; [by apply entry_set_put|]. rewrite meta_value_put. by rewrite decide_True.
Qed.

Lemma draw_reader {A} (m : M A) : reader (draw m).
Proof.
  intros o c r o' c'. unfold undisturbed, draw. destruct (m o) as [a w]. intros [= <- <- <-]. split; [done|by left].
Qed.
#[local] Hint Resolve draw_reader : atomic.

Lemma identity_body : body (_ ← read_version; id ← read_store_id; pk ← read_decoy_pk; mret (id, pk)).
Proof. unfold read_version, read_store_id, read_decoy_pk, meta_get, meta_put. tx_code. Qed.

(** Entries that are there stay as they are. *)
Definition meta_kept (d d' : db) : Prop := forall k, is_Some (meta_value k d) -> meta_value k d' = meta_value k d.

Lemma entry_kept key w w' : entry_set key w w' -> meta_kept w w'.
Proof.
  intros (_ & Ho & Hs) k Hk. destruct (decide (k = key)) as [->|]; [|by apply Ho]. by rewrite (Hs Hk).
Qed.

Lemma meta_kept_trans d d' d'' : meta_kept d d' -> meta_kept d' d'' -> meta_kept d d''.
Proof. intros H1 H2 k Hk. rewrite H2; rewrite H1; done. Qed.

Lemma identity_inr w0 d n id pk w1 c' :
  transaction (_ ← read_version; id ← read_store_id; pk ← read_decoy_pk; mret (id, pk)) w0 (at_rest d n) = (inr (id, pk), w1, c') ->
  contents (disk c') = contents d /\ meta_kept d (disk c') /\
  meta_value (label "store_id") (disk c') = Some id /\ meta_value (label "decoy_pk") (disk c') = Some pk.
Proof.
  intros (c1 & H & Hw)%transaction_inr. rewrite bind_run in H.
  destruct (read_version _ _) as [[[e|[]] o1] c2] eqn:Ev; [done|]. apply read_version_inr in Ev as (wv & -> & -> & Hv). rewrite bind_run in H.
  destruct (read_store_id _ _) as [[[e|i] o2] c3] eqn:Ei; [done|]. apply read_store_id_inr in Ei as (wi & -> & Hi & Mi). rewrite bind_run in H.
  destruct (read_decoy_pk _ _) as [[[e|k] o3] c4] eqn:Ek; [done|]. apply read_decoy_inr in Ek as (wk & -> & Hk & Mk).
  injection H as -> -> -> <-. injection Hw as <-. split_and!; [| | |done].
  - by rewrite (proj1 Hk), (proj1 Hi), (proj1 Hv).
  - eapply meta_kept_trans; [|eapply meta_kept_trans]; eapply entry_kept; eassumption.
  - destruct Hk as (_ & Ho & _). by rewrite Ho.
Qed.

(** The handle a store opens as, under [kek]. *)
Definition opens_as (kek : blob) (d : db) (s : store_t) : Prop :=
  meta_value (label "store_id") d = Some (store_id s) /\ meta_value (label "decoy_pk") d = Some (decoy_pk s) /\
  kex_hkdf_sha256 STORE_AUDIT_MAC_BYTES kek (store_id s) AUDIT_LABEL = Some (key_audit s) /\
  kex_hkdf_sha256 STORE_LOG_KEY_BYTES kek (store_id s) LOG_LABEL = Some (key_log s).

Lemma opens_as_unique kek d s s' : opens_as kek d s -> opens_as kek d s' -> s = s'.
Proof. destruct s, s'. unfold opens_as. simpl. intros (? & ? & ? & ?) (? & ? & ? & ?). simplify_eq. congruence. Qed.

Lemma derive_inr len kek id info w c k w' c' : derive_key len kek id info w c = (inr k, w', c') ->
  c' = c /\ kex_hkdf_sha256 len kek id info = Some k.
Proof.
  unfold derive_key. rewrite bind_run. unfold draw. destruct (secure_mem_alloc len w) as [m w1].
  intros (? & ? & ? & (_&->&->)%check_inr & H)%bind_inr. destruct (kex_hkdf_sha256 len kek id info); [|done].
  by injection H as -> _ ->.
Qed.

Lemma exec_inr {O} (o : O) c u o' c' : exec_simple o c = (inr u, o', c') -> o' = o /\ same_db c c'.
Proof. apply prepare_inr. Qed.

Lemma store_open_inr p kek out si ca w c s w' c' : idle c -> store_open p kek out si ca w c = (inr s, w', c') ->
  idle c' /\ contents (disk c') = contents (disk c) /\ meta_kept (disk c) (disk c') /\ opens_as (bytes_of kek) (disk c') s.
Proof.
  intros Hi H. unfold store_open in H. apply bind_inr in H as (? & ? & ? & (_&->&->)%check_inr & H).
  apply bind_inr in H as (? & ? & ? & (_&->&->)%check_inr & H).
  apply bind_inr in H as (? & ? & ? & (_&->&->)%check_inr & H).
  apply bind_inr in H as (b & ? & c0 & Hb & H). apply bind_inr in H as (? & ? & ? & (->&->&->)%check_inr & H).
  apply sqlite_inr in Hb as [-> Hs]. apply bind_inr in H as (? & ? & ? & (->&S0)%exec_inr & H).
  apply bind_inr in H as (? & ? & ? & (->&S1)%exec_inr & H).
  apply bind_inr in H as (? & ? & ? & (->&S2)%exec_inr & H).
  apply bind_inr in H as (? & ? & ? & (->&S3)%exec_inr & H).
  apply bind_inr in H as ([id pk] & w1 & c1 & Ht & H).
  match type of Ht with _ ?cc = _ => assert (same_db c cc) as Hc by (repeat (etrans; [eassumption|]); reflexivity) end.
  apply atomic_inr in Ht as [Hi1 Ht]; [|apply atomic_transaction, identity_body|].
  2:{ unfold idle in *. destruct Hc as (_ & -> & _). done. }
  apply identity_inr in Ht as (Hcon & Hk & M1 & M2). cbn [disk] in *. destruct Hc as (Hd & _). rewrite Hd in *.
  apply bind_inr in H as (ka & ? & ? & [-> Ka]%derive_inr & H). apply bind_inr in H as (kl & ? & ? & [-> Kl]%derive_inr & H).
  injection H as <- _ <-. by split_and!.
Qed.

(** ** Closing and opening again *)

Context `{EL : EngineLaw} `{CK : Clock} `{SCL : StoreCryptoLaw}.

#[global] Instance meta_respected s m : Respected s (fun _ => True) (keeps (fun d => meta d = m)).
Proof. each_statement; by intros. Qed.

(** [store_close]: the connection goes, what was committed stays.  The next
    process meets failures of its own. *)
Definition reopened (fs : list fault) (c : conn) : conn := Conn (disk c) None fs (reads c).

(** C17: A store opens as itself.  After opening a store, any operations on it
    and a close, opening it again with the same key gives the same handle:
    store identifier, decoy key, audit key and pseudonym key, whatever fails on
    the way.  So the audit log of a store that was empty when first opened
    verifies under the later handle. *)
Theorem store_reopens {O} p kek out si ca w c s w1 c1 ops fs p2 out2 si2 ca2 w2 s2 w3 c3 (o : O) n :
  idle c -> store_open p (Some kek) out si ca w c = (inr s, w1, c1) ->
  store_open p2 (Some kek) out2 si2 ca2 w2 (reopened fs (perform_all (Some s) ops c1)) = (inr s2, w3, c3) ->
  s2 = s /\ contents (disk c3) = contents (disk (perform_all (Some s) ops c1)) /\
  (audit (disk c) = [] -> store_audit_verify (Some s2) o (at_rest (disk c3) n) = (inr (), o, at_rest (disk c3) n)).
Proof.
  intros Hi (Hi1 & Hc1 & _ & Ha1)%store_open_inr (_ & Hc3 & Hk3 & Ha3)%store_open_inr; [|done..]. cbn [disk reopened] in *.
  pose proof (perform_all_relates (keeps (fun d => meta d = meta (disk c1))) s _ ops c1 (adds_any ops) Hi1 eq_refl) as Hm.
  assert (opens_as kek (disk (perform_all (Some s) ops c1)) s) as Ha2.
  { unfold opens_as, meta_value, meta_rows. rewrite Hm. exact Ha1. }
  assert (opens_as kek (disk c3) s) as Ha4.
  { destruct Ha2 as (M1 & M2 & ? & ?). split_and!; [rewrite Hk3; [done|by rewrite M1]|rewrite Hk3; [done|by rewrite M2]|done..]. }
  pose proof (opens_as_unique _ _ _ _ Ha3 Ha4) as ->. split_and!; [done..|]. intros Hnil.
  apply (f_equal audit) in Hc3, Hc1. cbn [contents audit with_meta] in Hc3, Hc1.
  assert (log_ok s (disk c3)) as Hlog.
  { unfold log_ok. rewrite Hc3. apply (log_kept s ops c1 Hi1). unfold log_ok. by rewrite Hc1, Hnil. }
  apply verify_accepts. by rewrite (chain_by_seq s).
Qed.

Lemma draw_grows {A} R `{!PreOrder R} (m : M A) : grows R (draw m).
Proof. intros o c r o' c'. unfold draw. destruct (m o) as [a w]. by intros [= _ _ <-] ?. Qed.

Definition same_accounts (d d' : db) : Prop := contents d' = contents d.
#[global] Instance same_accounts_order : PreOrder same_accounts.
Proof. split; [done|]. unfold same_accounts. intros d1 d2 d3 H1 H2. congruence. Qed.
Lemma respects_replace_meta k v : respects same_accounts (replace_meta k v).
Proof. by intros d d' n [= <- _]. Qed.
#[local] Hint Resolve draw_grows respects_replace_meta : store.

(** Opening a store never touches an account: whatever it returns and
    whatever fails, every table but the identity entries of the meta table is
    as it was. *)
Theorem store_open_preserves p kek out si ca w c r w' c' : idle c ->
  store_open p kek out si ca w c = (r, w', c') -> contents (disk c') = contents (disk c).
Proof.
  intros Hi H. enough (grows same_accounts (store_open p kek out si ca)) as Hg.
  { destruct (Hg _ _ _ _ _ H) as [? _]; [by rewrite idle_view|done]. }
  unfold store_open, exec_simple, read_version, read_store_id, read_decoy_pk, derive_key, meta_get, meta_put.
  grows_code. apply (grows_transaction _). grows_code.
Qed.

End opening.
