(* ===== verification/Tokens.v ===== *)
(** * Session tokens ([apps/authd/tokens.c])

    Issuing a token, and its lifetime in the store.  The out state is the world
    the token is drawn from and the buffer [token_out]. *)

From S2P Require Import Prelude Extern StoreDb StoreTx Store StoreAuth StoreLogic StoreHistory StoreAtomic StoreCalm StoreAudit StoreKeys StoreOnce StoreTokens.

Definition TOKEN_BYTES : Z := 32.
Definition TOKEN_TTL_USER_S : Z := 12 * 3600.
Definition TOKEN_IDLE_TTL_USER_S : Z := 1 * 3600.
Definition TOKEN_TTL_OPERATOR_S : Z := 8 * 3600.
Definition TOKEN_IDLE_TTL_OPERATOR_S : Z := 30 * 60.

Definition tokens_ttl_s (role : store_role_t) : Z :=
  match role with STORE_ROLE_OPERATOR => TOKEN_TTL_OPERATOR_S | STORE_ROLE_USER => TOKEN_TTL_USER_S end.

Definition tokens_idle_ttl_s (role : store_role_t) : Z :=
  match role with STORE_ROLE_OPERATOR => TOKEN_IDLE_TTL_OPERATOR_S | STORE_ROLE_USER => TOKEN_IDLE_TTL_USER_S end.

Section tokens.
Context `{EV : Env} `{SC : StoreCrypto}.

Record issue_out := IssueOut { io_world : world; io_token : list byte }.

(** The value is [*issued_out] and [*expires_out]. *)
Definition tokens_issue (s : option store_t) (role : store_role_t) (user_id handle hsid : option blob) (now : Z)
    (token_out : bool) : T issue_out (Z * Z) :=
  _ ← check (bool_decide (is_Some s) && token_out) STORE_ERR_ARG;
  _ ← set_out (fun o => let '(t, w) := randombytes_buf TOKEN_BYTES (io_world o) in IssueOut w t);
  token ← (fun o c => (inr (io_token o), o, c));
  let expires := now + tokens_ttl_s role in
  let idle := now + tokens_idle_ttl_s role in
  r ← try (store_add_token s (Some (crypto_hash_sha256 token)) user_id handle hsid now expires idle);
  match r with
  | inl e => _ ← set_out (fun o => IssueOut (io_world o) (zeros TOKEN_BYTES)); fail e
  | inr _ => mret (now, expires)
  end.

End tokens.

(** ** The row of a token *)

Section lifetime.
Context `{EV : Env} `{EL : EngineLaw} `{CK : Clock} `{SC : StoreCrypto}.

(** The token's absolute deadline is [e]. *)
Definition deadline (h : blob) (e : Z) (d : db) : Prop := Forall (fun t => t_hash t = h -> t_expires_at t = e) (tokens d).

#[global] Instance deadline_kept s h e : Respected s (fun x => x <> h) (keeps (deadline h e)).
Proof.
  each_statement; intros Hs; unfold deadline in *; simpl.
  - apply Forall_snoc_2; [done|]. simpl. by intros ->.
  - by apply set_where_Forall.
  - by apply drop_where_Forall.
Qed.

Lemma add_token_inr {O} s h u hd hs i e l (o : O) d n x o' c' :
  store_add_token (Some s) (Some h) u hd hs i e l o (at_rest d n) = (inr x, o', c') ->
  o' = o /\ h ∉ t_hash <$> tokens d /\
  c' = at_rest (with_tokens (tokens d ++ [TokenRow h (bytes_of u) (bytes_of hd) hs i e l None]) d) n.
Proof.
  intros (? & ? & ? & (_&->&->)%check_inr & H)%bind_inr. revert H.
  destruct (decide (h ∈ t_hash <$> tokens d)) as [Hin|Hin].
  - erewrite transaction_calm; [|rewrite write_unique_tx; unfold insert_token; simpl; by rewrite decide_True]. done.
  - erewrite transaction_calm; [|rewrite write_unique_tx; unfold insert_token; simpl; by rewrite decide_False]. by intros [= _ <- <-].
Qed.

Lemma tokens_issue_inr s role u h hs now to o c i e o' c' : idle c ->
  tokens_issue (Some s) role u h hs now to o c = (inr (i, e), o', c') ->
  exists t w, randombytes_buf TOKEN_BYTES (io_world o) = (t, w) /\ o' = IssueOut w t /\ i = now /\ e = now + tokens_ttl_s role /\
    idle c' /\ crypto_hash_sha256 t ∉ t_hash <$> tokens (disk c) /\
    disk c' = with_tokens (tokens (disk c) ++ [TokenRow (crypto_hash_sha256 t) (bytes_of u) (bytes_of h) hs now
                             (now + tokens_ttl_s role) (now + tokens_idle_ttl_s role) None]) (disk c).
Proof.
  intros Hi (? & ? & ? & (_&->&->)%check_inr & H)%bind_inr. rewrite bind_run in H. cbn [set_out] in H.
  destruct (randombytes_buf TOKEN_BYTES (io_world o)) as [t w] eqn:Er. rewrite bind_run in H. cbv beta iota zeta in H.
  rewrite bind_run in H. unfold try in H. cbn [io_token] in H.
  destruct (store_add_token _ _ _ _ _ _ _ _ _ _) as [[[er|[]] o1] c1] eqn:Ea; [done|]. injection H as <- <- <- <-.
  apply atomic_inr in Ea as [Hi' Ea]; [|apply add_token_atomic|done].
  apply add_token_inr in Ea as (-> & Hn & [= Hd _]). exists t, w. by split_and!.
Qed.

Lemma schema_add_token r d : schema_ok d -> t_hash r ∉ t_hash <$> tokens d -> schema_ok (with_tokens (tokens d ++ [r]) d).
Proof. intros [] Hn. split; simpl; try done. rewrite fmap_app. by apply NoDup_snoc. Qed.

(** C16: A token lives as long as its role allows.  When issuing returns OK,
    under any failures, the buffer holds the drawn token and the reported
    deadline is the role's lifetime away.  In the store this leaves, with the
    device and the user active, it verifies at every time within the idle
    period; and after any further operations that do not add the same hash,
    under any failures, it verifies at no time from that deadline on, however
    often it was verified. *)
Theorem token_lifetime s role u h hs now to o c i e o' c' : idle c -> schema_ok (disk c) ->
  tokens_issue (Some s) role (Some u) (Some h) hs now to o c = (inr (i, e), o', c') ->
  let hash := crypto_hash_sha256 (io_token o') in
  io_token o' = (randombytes_buf TOKEN_BYTES (io_world o)).1 /\ i = now /\ e = now + tokens_ttl_s role /\
  (forall v x t ttl inf o2 a o2' c2, v ∈ devices (disk c) -> d_handle v = h -> d_status v = ACTIVE ->
     x ∈ users (disk c) -> u_id x = u -> u_status x = ACTIVE -> t < now + tokens_idle_ttl_s role ->
     store_verify_token (Some s) (Some hash) t ttl true inf o2 c' = (inr a, o2', c2) -> vo_verdict o2' = STORE_TOKEN_OK) /\
  (forall ops t ttl inf o2 a o2' c2, Forall (adds (fun y => y <> hash)) ops ->
     store_verify_token (Some s) (Some hash) t ttl true inf o2 (perform_all (Some s) ops c') = (inr a, o2', c2) ->
     vo_verdict o2' = STORE_TOKEN_OK -> t < e).
Proof.
  intros Hi Hs H. destruct (tokens_issue_inr _ _ _ _ _ _ _ _ _ _ _ _ _ Hi H) as (tk & w & Er & -> & -> & -> & Hi' & Hn & Hd).
  assert (schema_ok (disk c')) as Hs' by (rewrite Hd; by apply schema_add_token). cbn [io_token]. rewrite Er. cbv zeta. split_and!; [done..| |].
  - intros v x t ttl inf o2 a o2' c2 Hv Hvh Hva Hx Hxu Hxa Ht Hver.
    apply (verify_token_spec s _ _ _ _ _ _ _ _ _ Hi' Hs') in Hver as [Hok _]. apply Hok.
    eexists _, v, x. unfold token_live. rewrite Hd. cbn [tokens devices users with_tokens].
    split_and!; [apply elem_of_app; right; by left|done..| |done]. cbn [t_expires_at].
    destruct role; unfold tokens_ttl_s, tokens_idle_ttl_s, TOKEN_TTL_OPERATOR_S, TOKEN_TTL_USER_S, TOKEN_IDLE_TTL_OPERATOR_S, TOKEN_IDLE_TTL_USER_S in *; lia.
  - intros ops t ttl inf o2 a o2' c2 Ha Hver Hok.
    assert (deadline (crypto_hash_sha256 tk) (now + tokens_ttl_s role) (disk (perform_all (Some s) ops c'))) as Hdl.
    { apply (kept s _ _ ops c' Ha Hi'). unfold deadline. rewrite Hd. cbn [tokens with_tokens]. apply Forall_snoc_2; [|done].
      apply Forall_forall. intros y Hy Hh. by destruct Hn; rewrite <- Hh; apply list_elem_of_fmap_2. }
    pose proof (perform_all_relates (keeps schema_ok) s _ ops c' (adds_any ops) Hi' Hs') as Hs2.
    apply (verify_token_spec s _ _ _ _ _ _ _ _ _ (perform_all_idle _ ops c' Hi') Hs2) in Hver as [Hiff _].
    apply Hiff in Hok as (y & v & x & Hy & Hh & _ & _ & _ & _ & _ & _ & Hlt & _).
    unfold deadline in Hdl. rewrite Forall_forall in Hdl. by rewrite <- (Hdl y Hy Hh).
Qed.

(** A token the store did not accept is never handed out: when issuing
    returns an error, the committed database is unchanged and the buffer is
    zeroed, or untouched when the arguments were refused. *)
Theorem token_withheld s role u h hs now to o c e o' c' : idle c ->
  tokens_issue s role u h hs now to o c = (inl e, o', c') ->
  disk c' = disk c /\ (io_token o' = zeros TOKEN_BYTES \/ (o' = o /\ e = STORE_ERR_ARG)).
Proof.
  intros Hi. unfold tokens_issue. rewrite bind_run. unfold check at 1.
  destruct (bool_decide (is_Some s) && to); [|intros [= <- <- <-]; auto]. cbv beta iota delta [mret T_ret].
  rewrite bind_run. cbv beta iota delta [set_out]. rewrite bind_run. cbv beta iota zeta. rewrite bind_run. unfold try.
  destruct (store_add_token _ _ _ _ _ _ _ _ _ c) as [[[er|[]] o1] c1] eqn:Ea; [|done]. intros [= <- <- <-].
  apply add_token_atomic in Ea as (_ & Hd & _); [|done]. split; [by eapply Hd|by left].
Qed.

End lifetime.
