(* ===== verification/Recovery.v ===== *)
(** * Recovery codes ([apps/authd/recovery.c])

    Making codes and tickets, and matching what a user types against the
    unused codes of the store.  libsodium's password hash is a parameter;
    hashing allocates memory, so it threads the world. *)

From stdpp Require Import sorting.
From S2P Require Import Prelude Extern Base32 StoreDb StoreTx Store StoreAuth StoreLogic StoreHistory StoreAtomic StoreCalm StoreAudit StoreOnce StoreRecovery.

Definition RECOVERY_TICKET_BYTES : Z := 32.
Definition crypto_pwhash_STRBYTES : Z := 128.

(** [crypto_pwhash_str] and [crypto_pwhash_str_verify]: a password, the cost,
    and the string form of the hash without its NUL. *)
Class PwHash `{Env} := {
  crypto_pwhash_str : list byte -> Z -> Z -> world -> option text * world;
  crypto_pwhash_str_verify : text -> list byte -> world -> bool * world }.

(** As documented: the string fits its buffer and is a C string, and it
    verifies against the password it was made from. *)
Class PwHashLaw `{PH : PwHash} := {
  pwhash_text : forall pw ops mem w s w', crypto_pwhash_str pw ops mem w = (Some s, w') ->
    blen s < crypto_pwhash_STRBYTES /\ x00 ∉ s;
  pwhash_verify : forall pw ops mem w s w', crypto_pwhash_str pw ops mem w = (Some s, w') ->
    forall w2, (crypto_pwhash_str_verify s pw w2).1 = true }.

Section recovery.
Context `{EV : Env} `{PH : !PwHash} `{SC : StoreCrypto}.

(** The result with [code_out] and [hash_out] as the call leaves them. *)
Definition recovery_make_code (code_out hash_out : bool) (ops mem : Z) : M (Z * option (list byte) * option (list byte)) :=
  if negb (code_out && hash_out) then mret (-1, None, None) else
  let code0 := zeros (BASE32_CODE_CHARS + 1) in
  let hash0 := zeros crypto_pwhash_STRBYTES in
  raw ← randombytes_buf BASE32_CODE_BYTES;
  match base32_encode (Some raw) BASE32_CODE_BYTES (Some code0) (BASE32_CODE_CHARS + 1) with
  | (true, Some code) =>
      h ← crypto_pwhash_str (ztake BASE32_CODE_CHARS code) ops mem;
      match h with
      | Some h => mret (0, Some code, Some (poke 0 h hash0))
      | None => mret (-1, Some code0, Some hash0)
      end
  | (_, code) => mret (-1, code, Some hash0)
  end.

Definition recovery_make_ticket : M (list byte * list byte) :=
  ticket ← randombytes_buf RECOVERY_TICKET_BYTES;
  mret (ticket, crypto_hash_sha256 ticket).

(** [match_ctx_t], with the world the hashing threads. *)
Record match_ctx_t := MatchCtx { mc_code_id : Z; mc_found : bool; mc_tried : Z; mc_world : world }.

Definition try_one (canonical : list byte) (c : match_ctx_t) (code_id : Z) (pwhash_str : text) : bool * match_ctx_t :=
  let '(ok, w) := crypto_pwhash_str_verify pwhash_str canonical (mc_world c) in
  if ok : bool then (true, MatchCtx code_id true (mc_tried c + 1) w)
  else (false, MatchCtx (mc_code_id c) (mc_found c) (mc_tried c + 1) w).

(** The result of [recovery_find_match]: what it returns, [*code_id_out] when
    set, and [*tried_out]. *)
Record match_out := MatchOut { mo_result : Z; mo_code_id : option Z; mo_tried : Z }.

Definition recovery_find_match (s : option store_t) (user_id typed : option blob) (typed_len : Z) (code_id_out : bool)
    (w : world) (c : conn) : match_out * world * conn :=
  if negb (bool_decide (is_Some s) && bool_decide (is_Some user_id) && bool_decide (is_Some typed) && code_id_out)
  then (MatchOut (-1) None 0, w, c) else
  match base32_normalize typed typed_len (Some (zeros (BASE32_CODE_CHARS + 1))) with
  | (true, Some canonical) =>
      let '(r, x, c') := store_list_unused_recovery_codes s user_id (Some (try_one (ztake BASE32_CODE_CHARS canonical)))
                           (MatchCtx 0 false 0 w) c in
      (match r with
       | inl _ => MatchOut (-1) None (mc_tried x)
       | inr _ => if mc_found x then MatchOut 1 (Some (mc_code_id x)) (mc_tried x) else MatchOut 0 None (mc_tried x)
       end, mc_world x, c')
  | _ => (MatchOut 0 None 0, w, c)
  end.

End recovery.

(** ** Walking the codes *)

(** The rows visited up to the first that stops. *)
Fixpoint visit_all {X R} (visit : X -> R -> bool * X) (rows : list R) (x : X) : X :=
  match rows with
  | [] => x
  | r :: more => let '(stop, x') := visit x r in if stop : bool then x' else visit_all visit more x'
  end.

(** A walk that meets a failure has visited some of the rows. *)
Lemma walk_visits {X R} (visit : X -> R -> bool * X) rows x c r x' c' : walk visit rows x c = (r, x', c') ->
  disk c' = disk c /\ (exists n, x' = visit_all visit (take n rows) x) /\ (r = inr () -> x' = visit_all visit rows x).
Proof.
  revert x c. induction rows as [|a rows IH]; intros x c; cbn [walk]; rewrite bind_run; unfold sqlite;
    destruct (engine c) as [b c1] eqn:E; apply engine_cases in E as (Hd & _ & _); rewrite bind_run; destruct b.
  - intros [= <- <- <-]. split_and!; [done|by exists 0%nat|done].
  - intros [= <- <- <-]. split_and!; [done|by exists 0%nat|done].
  - cbn [check mret T_ret]. rewrite bind_run. unfold visiting. cbn [visit_all]. destruct (visit x a) as [[] x1] eqn:Ev.
    + intros [= <- <- <-]. split_and!; [done| |done]. exists 1%nat. simpl. by rewrite Ev.
    + intros (Hd2 & (n & Hn) & Hr)%IH. split_and!; [congruence| |done]. exists (S n). simpl. by rewrite Ev.
  - intros [= <- <- <-]. split_and!; [done|by exists 0%nat|done].
Qed.

Section matching.
Context `{EV : Env} `{PH : !PwHash} `{SC : StoreCrypto}.

(** The loop body of the walk. *)
Definition visitor (canonical : list byte) (x : match_ctx_t) (r : recovery_row) : bool * match_ctx_t :=
  match r_pwhash r with None => (false, x) | Some h => try_one canonical x (r_id r) (c_str h) end.

(** The code of the row verifies, in some state of the world. *)
Definition matches (canonical : list byte) (r : recovery_row) : Prop :=
  exists h w, r_pwhash r = Some h /\ (crypto_pwhash_str_verify (c_str h) canonical w).1 = true.

Lemma visit_tried canonical rows x :
  mc_tried x <= mc_tried (visit_all (visitor canonical) rows x) <= mc_tried x + blen rows.
Proof.
  revert x. induction rows as [|r rows IH]; intros x; cbn [visit_all]; [cbn; lia|].
  unfold visitor at 1 3, try_one. destruct (r_pwhash r) as [h|].
  - destruct (crypto_pwhash_str_verify _ _ _) as [[] w]; cbn [mc_tried length]; [lia|].
    specialize (IH (MatchCtx (mc_code_id x) (mc_found x) (mc_tried x + 1) w)). cbn [mc_tried] in IH. lia.
  - specialize (IH x). cbn [length]. lia.
Qed.

Lemma visit_found canonical rows x : mc_found x = false -> mc_found (visit_all (visitor canonical) rows x) = true ->
  exists r, r ∈ rows /\ matches canonical r /\ mc_code_id (visit_all (visitor canonical) rows x) = r_id r.
Proof.
  revert x. induction rows as [|r rows IH]; intros x Hx; cbn [visit_all]; [congruence|].
  unfold visitor at 1 3, try_one. destruct (r_pwhash r) as [h|] eqn:Eh.
  - destruct (crypto_pwhash_str_verify _ _ _) as [[] w] eqn:Ev.
    + intros _. exists r. split_and!; [left| |done]. exists h, (mc_world x). by rewrite Ev.
    + intros Hf. apply IH in Hf as (r' & ? & ? & ?); [|done]. exists r'. split_and!; [by right|done..].
  - intros Hf. apply IH in Hf as (r' & ? & ? & ?); [|done]. exists r'. split_and!; [by right|done..].
Qed.

Lemma visit_complete canonical rows x r h : r ∈ rows -> r_pwhash r = Some h ->
  (forall w, (crypto_pwhash_str_verify (c_str h) canonical w).1 = true) -> mc_found (visit_all (visitor canonical) rows x) = true.
Proof.
  intros Hr Eh Hv. revert x. induction rows as [|a rows IH]; intros x; [by apply not_elem_of_nil in Hr|]. cbn [visit_all].
  apply elem_of_cons in Hr as [<-|Hr].
  - unfold visitor at 1, try_one. rewrite Eh. specialize (Hv (mc_world x)). by destruct (crypto_pwhash_str_verify _ _ _) as [[] w].
  - specialize (IH Hr). unfold visitor at 1, try_one. destruct (r_pwhash a); [|done].
    by destruct (crypto_pwhash_str_verify _ _ _) as [[] w].
Qed.

Lemma unused_codes_in user d r : r ∈ unused_codes user d <-> r ∈ recovery_codes d /\ unused_of user r.
Proof. unfold unused_codes. rewrite (merge_sort_Permutation code_newer). rewrite list_elem_of_filter. tauto. Qed.

Lemma unused_codes_length user d : blen (unused_codes user d) = count_where (unused_of user) (recovery_codes d).
Proof. unfold unused_codes, count_where. by rewrite (Permutation_length (merge_sort_Permutation code_newer _)). Qed.

Lemma prepare_run {O} (o : O) c : exists b c1, prepare o c = (if b : bool then inr () else inl STORE_ERR_DB, o, c1) /\
  disk c1 = disk c /\ (b = true -> view c1 = view c).
Proof.
  unfold prepare, mbind, T_bind, sqlite. destruct (engine c) as [b c1] eqn:E. exists b, c1.
  apply engine_cases in E as (Hd & _ & Hw). split_and!; [by destruct b|done|].
  intros ->. unfold view. destruct Hw as [[_ ->]|[? _]]; [by rewrite Hd|done].
Qed.

Lemma list_unused_visits s user (canonical : list byte) x c r x' c' :
  store_list_unused_recovery_codes (Some s) (Some user) (Some (try_one canonical)) x c = (r, x', c') ->
  disk c' = disk c /\ (exists n, x' = visit_all (visitor canonical) (take n (unused_codes user (view c))) x) /\
  (r = inr () -> x' = visit_all (visitor canonical) (unused_codes user (view c)) x).
Proof.
  unfold store_list_unused_recovery_codes. rewrite bind_run. unfold check at 1.
  destruct (id_ok (Some user)); [|intros [= <- <- <-]; split_and!; [done|by exists 0%nat|done]]. cbv beta iota delta [mret T_ret].
  rewrite bind_run. destruct (prepare_run x c) as (b & c1 & -> & Hd & Hv).
  destruct b; [|intros [= <- <- <-]; split_and!; [done|by exists 0%nat|done]].
  rewrite bind_run. change bind_params with (@prepare match_ctx_t). destruct (prepare_run x c1) as (b & c2 & -> & Hd2 & Hv2).
  destruct b; [|intros [= <- <- <-]; split_and!; [congruence|by exists 0%nat|done]].
  rewrite bind_run. cbv beta iota delta [peek_view]. rewrite (Hv2 eq_refl), (Hv eq_refl).
  intros (Hd3 & Hx & Hr)%walk_visits. split_and!; [congruence|exact Hx|exact Hr].
Qed.

(** What [recovery_find_match] does on arguments it takes. *)
Lemma find_match_cases s user typed w c out w' c' :
  recovery_find_match (Some s) (Some user) (Some typed) (blen typed) true w c = (out, w', c') ->
  disk c' = disk c /\
  ((forall code, blen code = BASE32_CODE_CHARS -> ~ Forall2 spells (filter (fun a => is_hyphen a = false) typed) code) /\
    out = MatchOut 0 None 0 \/
   exists code, blen code = BASE32_CODE_CHARS /\ Forall2 spells (filter (fun a => is_hyphen a = false) typed) code /\
     0 <= mo_tried out <= count_where (unused_of user) (recovery_codes (view c)) /\
     (mo_result out = 1 -> exists r, r ∈ recovery_codes (view c) /\ unused_of user r /\ matches code r /\
                                     mo_code_id out = Some (r_id r))).
Proof.
  unfold recovery_find_match. cbn [negb andb]. rewrite !bool_decide_true by eauto. cbn [negb andb].
  destruct (base32_normalize _ _ _) as [ok out0] eqn:En. apply normalize_inv in En; [|done]. destruct ok; cycle 1.
  { intros [= <- <- <-]. auto. }
  destruct En as (code & Hc & -> & Hf).
  replace (ztake BASE32_CODE_CHARS (code ++ [x00])) with code
    by (symmetry; apply take_app_length'; unfold BASE32_CODE_CHARS in *; lia).
  destruct (store_list_unused_recovery_codes _ _ _ _ _) as [[r x] c1] eqn:El.
  apply list_unused_visits in El as (Hd & (n & Hn) & Hr). intros [= <- _ <-]. split; [done|right]. exists code. do 2 (split; [done|]). split.
  - pose proof (visit_tried code (take n (unused_codes user (view c))) (MatchCtx 0 false 0 w)) as Ht. rewrite <- Hn in Ht.
    assert (mo_tried (match r with inl _ => MatchOut (-1) None (mc_tried x) | inr _ =>
      if mc_found x then MatchOut 1 (Some (mc_code_id x)) (mc_tried x) else MatchOut 0 None (mc_tried x) end) = mc_tried x) as ->
      by (by destruct r; [|destruct (mc_found x)]).
    cbn [mc_tried] in Ht. rewrite length_take in Ht. pose proof (unused_codes_length user (view c)). lia.
  - destruct r as [e|[]]; [done|]. rewrite (Hr eq_refl). destruct (mc_found _) eqn:Ef; [|done]. intros _.
    apply visit_found in Ef as (r & [Hin Hu]%unused_codes_in & Hm & Hid); [|done]. exists r. cbn [mo_code_id]. by rewrite Hid.
Qed.

(** C19: Matching a recovery code is sound and its cost is bounded.  Text that
    spells no code costs nothing and matches nothing; otherwise at most one
    password hash is computed for each unused code of the user, under any
    failures; a match names an unused code of that user that verifies against
    what was typed; and the store is only read. *)
Theorem recovery_match_sound s user typed w c out w' c' :
  recovery_find_match (Some s) (Some user) (Some typed) (blen typed) true w c = (out, w', c') ->
  disk c' = disk c /\
  ((forall code, blen code = BASE32_CODE_CHARS -> ~ Forall2 spells (filter (fun a => is_hyphen a = false) typed) code) /\
    out = MatchOut 0 None 0 \/
   exists code, blen code = BASE32_CODE_CHARS /\ Forall2 spells (filter (fun a => is_hyphen a = false) typed) code /\
     0 <= mo_tried out <= count_where (unused_of user) (recovery_codes (view c)) /\
     (mo_result out = 1 -> exists r, r ∈ recovery_codes (view c) /\ unused_of user r /\ matches code r /\
                                     mo_code_id out = Some (r_id r))).
Proof. apply find_match_cases. Qed.

(** ** From the code on paper back to its row *)

Lemma walk_calm {X R} (visit : X -> R -> bool * X) rows x d n :
  walk visit rows x (at_rest d n) = (inr (), visit_all visit rows x, at_rest d n).
Proof.
  revert x. induction rows as [|r rows IH]; intros x; [done|]. cbn [walk]. rewrite bind_run. cbn [sqlite engine faults].
  rewrite bind_run. cbv beta iota delta [check mret T_ret]. rewrite bind_run. unfold visiting. cbn [visit_all].
  destruct (visit x r) as [[] x1]; [done|apply IH].
Qed.

Lemma list_unused_calm s user (canonical : list byte) x d n : id_ok (Some user) = true ->
  store_list_unused_recovery_codes (Some s) (Some user) (Some (try_one canonical)) x (at_rest d n) =
  (inr (), visit_all (visitor canonical) (unused_codes user d) x, at_rest d n).
Proof.
  intros Hid. unfold store_list_unused_recovery_codes. rewrite bind_run, Hid. cbv beta iota delta [check mret T_ret].
  rewrite bind_run. change (prepare x (at_rest d n)) with (@inr store_status_t unit (), x, at_rest d n). cbv iota.
  rewrite bind_run. change (bind_params x (at_rest d n)) with (@inr store_status_t unit (), x, at_rest d n). cbv iota.
  rewrite bind_run. cbv beta iota delta [peek_view]. apply walk_calm.
Qed.

Lemma c_str_stop h l : x00 ∉ h -> c_str (h ++ x00 :: l) = h.
Proof. induction h as [|b h IH]; [done|]. intros Hn. cbn. rewrite decide_False, IH; set_solver. Qed.

Lemma c_str_id h : x00 ∉ h -> c_str h = h.
Proof. induction h as [|b h IH]; [done|]. intros Hn. cbn. rewrite decide_False, IH; set_solver. Qed.

Lemma c_str_buffer h : x00 ∉ h -> blen h < crypto_pwhash_STRBYTES -> c_str (poke 0 h (zeros crypto_pwhash_STRBYTES)) = h.
Proof.
  intros Hn Hl. rewrite poke_0. unfold crypto_pwhash_STRBYTES in *. unfold zeros. rewrite drop_replicate.
  destruct (Z.to_nat 128 - length h)%nat eqn:E; [lia|]. by apply c_str_stop.
Qed.

Context `{SZ : !EnvSizes EV} `{PL : !PwHashLaw}.

Lemma make_code_inv ops mem w code hash w' :
  recovery_make_code true true ops mem w = (0, Some code, Some hash, w') ->
  exists raw w1, blen raw = BASE32_CODE_BYTES /\ code = code_of raw ++ [x00] /\
    crypto_pwhash_str (code_of raw) ops mem w1 = (Some (c_str hash), w').
Proof.
  unfold recovery_make_code. cbn [negb andb]. rewrite M_bind_unfold.
  pose proof (randombytes_len BASE32_CODE_BYTES w ltac:(done)) as Hraw.
  destruct (randombytes_buf BASE32_CODE_BYTES w) as [raw w1]. cbn [fst snd] in *.
  assert (blen (code_of raw) = BASE32_CODE_CHARS) as Hc by (rewrite length_code, Hraw; done).
  assert (base32_encode (Some raw) BASE32_CODE_BYTES (Some (zeros (BASE32_CODE_CHARS + 1))) (BASE32_CODE_CHARS + 1) =
          (true, Some (code_of raw ++ [x00]))) as ->.
  { pose proof (encode_value raw (zeros (BASE32_CODE_CHARS + 1)) (BASE32_CODE_CHARS + 1)) as He. rewrite Hraw in He.
    rewrite He by done. do 2 f_equal. apply poke_0_full. unfold zeros. rewrite length_app, length_replicate. cbn [length]. lia. }
  replace (ztake BASE32_CODE_CHARS (code_of raw ++ [x00])) with (code_of raw) by (symmetry; apply take_app_length'; lia).
  rewrite M_bind_unfold. destruct (crypto_pwhash_str _ _ _ w1) as [[h|] w2] eqn:Eh; cbn [fst snd]; [|done].
  intros [= <- <- <-]. exists raw, w1. split_and!; [done..|]. apply pwhash_text in Eh as Ht. destruct Ht as [Hl Hn].
  by rewrite c_str_buffer.
Qed.

Context `{EL : EngineLaw} `{CK : Clock}.

(** C18: A code on paper finds its row.  When a code was made and its hash is in
    a set that was issued to the user, under any failures, then whatever
    accepted spelling of it the user types, the match succeeds, names an unused
    code of that user, and computes at most one hash per issued code. *)
Theorem recovery_roundtrip ops mem w code hash w' s user hashes now o c x o' c' typed w2 :
  recovery_make_code true true ops mem w = (0, Some code, Some hash, w') ->
  idle c -> store_recovery_replace (Some s) (Some user) (Some hashes) now o c = (inr x, o', c') -> Some (c_str hash) ∈ hashes ->
  id_ok (Some user) = true -> Forall2 spells (filter (fun a => is_hyphen a = false) typed) (ztake BASE32_CODE_CHARS code) ->
  let out := (recovery_find_match (Some s) (Some user) (Some typed) (blen typed) true w2 (at_rest (disk c') (reads c'))).1.1 in
  mo_result out = 1 /\ mo_tried out <= blen hashes /\
  exists r, r ∈ recovery_codes (disk c') /\ unused_of user r /\ mo_code_id out = Some (r_id r).
Proof.
  intros (raw & w1 & Hraw & -> & Hh)%make_code_inv Hi Hrep Hin Hid Hf.
  assert (blen (code_of raw) = BASE32_CODE_CHARS) as Hc by (rewrite length_code, Hraw; done).
  assert (ztake BASE32_CODE_CHARS (code_of raw ++ [x00]) = code_of raw) as Ht by (apply take_app_length'; lia). rewrite Ht in Hf.
  apply replace_spec in Hrep as (Hset & _ & _); [|done].
  destruct (recovery_find_match _ _ _ _ _ _ _) as [[out w3] c3] eqn:E. cbv zeta. cbn [fst snd].
  assert (mo_result out = 1) as Hone.
  { unfold recovery_find_match in E. rewrite !bool_decide_true in E by eauto. cbn [negb andb] in E.
    rewrite (proj2 (normalize_iff typed (zeros (BASE32_CODE_CHARS + 1)) _ eq_refl Hc) Hf), Ht, list_unused_calm in E by done. cbv beta iota in E.
    assert (Some (c_str hash) ∈ r_pwhash <$> filter (unused_of user) (recovery_codes (disk c'))) as (r & Er & Hr)%list_elem_of_fmap
      by (by rewrite Hset).
    apply list_elem_of_filter in Hr as [Hu Hr]. symmetry in Er.
    rewrite (visit_complete _ _ _ r (c_str hash)) in E; [by injection E as <- _ _|by apply unused_codes_in|done|].
    intros w4. apply pwhash_text in Hh as Hx. destruct Hx as [_ Hx]. rewrite c_str_id by done. by eapply pwhash_verify. }
  split; [done|]. apply find_match_cases in E as (_ & [[_ ->]|(code' & _ & _ & [_ Htr] & Hsome)]); [done|].
  change (view (at_rest (disk c') (reads c'))) with (disk c') in *. destruct (Hsome Hone) as (r & ? & ? & _ & ?). split; [|eauto].
  unfold count_where in Htr. apply (f_equal length) in Hset. rewrite length_fmap in Hset. by rewrite <- Hset.
Qed.

End matching.
