(* ===== verification/StoreDemo.v ===== *)
(** * Witnesses for the account store

    A concrete engine, clock and cryptography, a store built by its own
    operations, and the theorems of the [Store*] files applied to it: their
    hypotheses hold there, failures included. *)

From S2P Require Import Prelude StoreDb StoreTx Store StoreAuth StoreLogic StoreHistory StoreAtomic StoreCalm StoreAudit StoreKeys StoreOnce StoreTokens StoreRecovery.

(** Rows in insertion order; no spare rowid; a clock that ticks. *)
#[export] Instance toy_engine : Engine := {| scan A l := l; spare_rowid _ := None |}.
#[export] Instance toy_engine_law : EngineLaw toy_engine.
Proof. split; [done|]. by intros ? ? ?. Qed.
#[export] Instance toy_clock : Clock := fun n => 1000 + Z.of_nat n.

(** A checksum for a MAC, and a prefix for a hash. *)
Definition toy_sum (m : list byte) : Z := fold_left (fun a b => (a * 257 + bz b + 1) mod 2 ^ 61) m 0.
#[export] Instance toy_store_crypto : StoreCrypto := {|
  crypto_auth m k := Some (be_enc 32 (toy_sum (m ++ k)));
  crypto_hash_sha256 m := ztake 32 (m ++ zeros 32);
  crypto_generichash n m k := Some (ztake n (m ++ zeros n)) |}.
#[export] Instance toy_store_crypto_law : StoreCryptoLaw toy_store_crypto.
Proof. split. intros m k a H. apply (inj Some) in H. rewrite <- H. by rewrite length_be_enc. Qed.

(** An operation that succeeds, with its outcome named by projection. *)
Lemma ran {O A} (m : T O A) o c a : (m o c).1.1 = inr a -> m o c = (inr a, (m o c).1.2, (m o c).2).
Proof. by destruct (m o c) as [[[e|x] o'] c']; [|intros [= ->]]. Qed.

Definition st : store_t := Store (zeros 32) (zeros 32) (zeros 16) [].
Definition alice : blob := label "alice".
Definition laptop : blob := label "laptop".
Definition phone : blob := label "phone".
Definition pk1 : blob := repeat x01 (Z.to_nat STORE_PK_BYTES).
Definition pk2 : blob := repeat x02 (Z.to_nat STORE_PK_BYTES).
Definition pk3 : blob := repeat x03 (Z.to_nat STORE_PK_BYTES).
Definition hash (b : byte) : blob := repeat b 32.

(** The out parameters before a call. *)
Definition eo : enroll_out := EnrollOut false false.
Definition co : consume_out := ConsumeOut STORE_CODE_UNKNOWN None None.
Definition vo : verify_out := VerifyOut STORE_TOKEN_UNKNOWN blank_info.

(** A first device, a rotated key, a token, a login code and recovery codes. *)
Definition setup : list store_op := [
  EnrollDeviceEx (Some laptop) (Some alice) STORE_ROLE_USER (Some pk1) (Some (label "bootstrap")) None None;
  RotateKey (Some laptop) (Some pk2) (Some pk1) None true 2000;
  AddToken (Some (hash x0a)) (Some alice) (Some laptop) None 2000 9000 5000;
  AddLoginCode (Some (hash x0b)) (Some alice) (Some laptop) None (Some (hash x0c)) 2000 3000;
  RecoveryReplace (Some alice) (Some [Some (label "argon2-1"); Some (label "argon2-2")]) 2000].

Definition fresh : conn := Conn empty_db None [] 0.
Definition demo : conn := perform_all (Some st) setup fresh.

(** The same store with engine calls about to fail. *)
Definition failing (fs : list fault) (c : conn) : conn := Conn (disk c) (work c) fs (reads c).

Lemma demo_idle : idle demo.
Proof. by apply perform_all_idle. Qed.
Lemma demo_schema : schema_ok (disk demo).
Proof. exact (perform_all_relates (keeps schema_ok) st _ setup fresh (adds_any _) eq_refl empty_schema_ok). Qed.

Lemma store_history_witness :
  schema_ok (disk (perform_all (Some st) setup (failing [Fine; Fails; Fine; Aborts] fresh))) /\
  evolves empty_db (disk (perform_all (Some st) setup (failing [Fine; Fails; Fine; Aborts] fresh))).
Proof. by apply (store_history st setup (failing [Fine; Fails; Fine; Aborts] fresh)); [|apply empty_schema_ok]. Defined.

(** The key the rotation superseded. *)
Definition old_key : key_row := KeyRow 1 laptop pk1 (hash x01) SUPERSEDED 1001 (Some 2000) None.
Abbreviation lookup_laptop := (store_lookup_active (Some st) (Some laptop) true (Some STORE_ID_MAX) true).
Definition later_ops : list store_op := [Sweep 2500 true; TouchLastSeen (Some laptop)].

Lemma retired_key_never_returned_witness :
  (lookup_laptop () (perform_all (Some st) later_ops demo)).1.1 = inr (pk2, Some alice, Some STORE_ROLE_USER) /\
  pk2 <> k_pk old_key.
Proof.
  assert ((lookup_laptop () (perform_all (Some st) later_ops demo)).1.1 = inr (pk2, Some alice, Some STORE_ROLE_USER)) as H
    by (vm_compute; reflexivity).
  split; [exact H|].
  assert (old_key ∈ device_keys (disk demo)) as Hin by (apply (list_elem_of_lookup_2 _ 0); vm_compute; reflexivity).
  assert (k_status old_key <> ACTIVE) as Hst by done.
  pose proof (ran _ _ _ _ H) as E.
  exact (retired_key_never_returned st later_ops demo old_key _ _ _ _ () _ _ _ _ _ demo_idle demo_schema Hin Hst E).
Defined.

(** An outcome that is an error, and any outcome. *)
Lemma refused {O A} (m : T O A) o c e : (m o c).1.1 = inl e -> m o c = (inl e, (m o c).1.2, (m o c).2).
Proof. by destruct (m o c) as [[[er|x] o'] c']; [intros [= ->]|]. Qed.
Lemma outcome {O A} (m : T O A) o c : m o c = ((m o c).1.1, (m o c).1.2, (m o c).2).
Proof. by destruct (m o c) as [[r o'] c']. Qed.

Ltac by_vm := vm_compute; reflexivity.

Lemma failing_idle fs c : idle c -> idle (failing fs c).
Proof. done. Qed.

Abbreviation storm := (failing [Fine; Fine; Fine; Fine; Fine; Aborts] demo).

(** The sweep loses its transaction half way and reports it. *)
Lemma store_atomic_witness :
  (perform (Some st) (Sweep 6000 true) storm).1 = STORE_ERR_DB /\
  idle (perform (Some st) (Sweep 6000 true) storm).2 /\
  disk (perform (Some st) (Sweep 6000 true) storm).2 = disk storm.
Proof.
  assert ((perform (Some st) (Sweep 6000 true) storm).1 = STORE_ERR_DB) as H by by_vm. split; [exact H|].
  pose proof (store_atomic (Some st) (Sweep 6000 true) storm _ _ eq_refl (failing_idle _ _ demo_idle) (surjective_pairing _)) as (Hi & Hd & _).
  split; [exact Hi|]. apply Hd. rewrite H. done.
Defined.

(** A rotation from the key the client names to a new one. *)
Abbreviation rotate_laptop := (store_rotate_key (Some st) (Some laptop) (Some pk3) (Some pk2) None true 2600).

Lemma rotate_all_or_nothing_witness :
  idle (rotate_laptop (RotateOut 0 0) demo).2 /\
  exists k i, may_rotate (disk demo) laptop pk3 (Some pk2) k /\ i ∉ k_id <$> device_keys (disk demo) /\
    tables (disk (rotate_laptop (RotateOut 0 0) demo).2) = tables (rotated (disk demo) laptop pk3 None true 2600 k i).
Proof.
  assert ((rotate_laptop (RotateOut 0 0) demo).1.1 = inr ()) as H by by_vm. pose proof (ran _ _ _ _ H) as E.
  exact (rotate_all_or_nothing st _ _ _ _ _ _ _ _ _ _ _ demo_idle E).
Defined.

Lemma audit_chain_kept_witness :
  store_audit_verify (Some st) () (at_rest (disk (perform_all (Some st) setup fresh)) 0) =
  (inr (), (), at_rest (disk (perform_all (Some st) setup fresh)) 0).
Proof. exact (audit_chain_kept st setup fresh () 0 eq_refl I). Defined.

(** The log of the store and that of a later state without new entries. *)
Definition seen : conn := perform_all (Some st) [TouchLastSeen (Some laptop)] demo.

Lemma audit_log_binding_witness :
  shown <$> by_seq (audit (view demo)) = shown <$> by_seq (audit (view seen)) \/
  forged_rows st (by_seq (audit (view demo))) (by_seq (audit (view seen))).
Proof.
  assert ((store_audit_verify (Some st) () demo).1.1 = inr ()) as V1 by by_vm.
  assert ((store_audit_verify (Some st) () seen).1.1 = inr ()) as V2 by by_vm.
  assert (exists mac, (store_audit_head_mac (Some st) true () demo).1.1 = inr mac /\
                      (store_audit_head_mac (Some st) true () seen).1.1 = inr mac) as (mac & M1 & M2)
    by (eexists; split; by_vm).
  pose proof (ran _ _ _ _ V1) as E1. pose proof (ran _ _ _ _ V2) as E2.
  pose proof (ran _ _ _ _ M1) as F1. pose proof (ran _ _ _ _ M2) as F2.
  refine (audit_log_binding st () demo seen _ _ _ _ _ _ mac _ _ _ _ _ _ _ _ E1 E2 F1 F2); vm_compute; done.
Defined.

(** A second device for the same user, looked up at once. *)
Abbreviation enroll_phone :=
  (store_enroll_device_ex (Some st) (Some phone) (Some alice) STORE_ROLE_USER (Some pk3) (Some (label "user")) None None).

Lemma alice_active : exists ur, ur ∈ users (disk demo) /\ u_id ur = alice /\ u_status ur = ACTIVE.
Proof.
  exists (UserRow alice USER ACTIVE 1000 None None 0 0). split; [|done]. apply (list_elem_of_lookup_2 _ 0). by_vm.
Qed.

Lemma enroll_then_lookup_witness : exists r,
  store_lookup_active (Some st) (Some phone) true (Some STORE_ID_MAX) true () (at_rest (disk (enroll_phone eo demo).2) 0) =
  (inr (pk3, Some alice, Some r), (), at_rest (disk (enroll_phone eo demo).2) 0).
Proof.
  assert ((enroll_phone eo demo).1.1 = inr ()) as H by by_vm. pose proof (ran _ _ _ _ H) as E.
  assert (idempotent_out (enroll_phone eo demo).1.2 = false) as Hid by by_vm.
  assert (blen pk3 = STORE_PK_BYTES) as Hpk by by_vm.
  destruct (enroll_then_lookup st phone alice STORE_ROLE_USER pk3 _ _ _ eo demo () _ _ () 0 demo_idle demo_schema Hpk E Hid
              (fun _ => alice_active)) as (r & _ & Hl).
  exists r. exact Hl.
Defined.

(** A known handle presenting another key is refused. *)
Abbreviation enroll_impostor :=
  (store_enroll_device (Some st) (Some laptop) (Some alice) (Some pk3) (Some (label "user")) None None).

Lemma enroll_device_refusal_witness :
  tables (disk (enroll_impostor () demo).2) = tables (disk demo) \/ fp_collision (disk demo) pk3.
Proof.
  assert ((enroll_impostor () demo).1.1 = inl STORE_ERR_CONFLICT) as H by by_vm. pose proof (refused _ _ _ _ H) as E.
  exact (enroll_device_refusal st laptop alice pk3 _ _ _ () demo _ _ _ demo_idle E).
Defined.

(** The login code consumed, and presented again after the sweep. *)
Abbreviation consume_code := (store_consume_login_code_ex (Some st) (Some (hash x0b)) (Some (hash x0c)) 2500 true (Some 64) (Some 64)).

Lemma login_code_single_use_witness :
  (exists row, code_fit (disk demo) (hash x0b) (hash x0c) 2500 row) /\
  ((consume_code co (perform_all (Some st) later_ops (consume_code co demo).2)).1.1 = inr () ->
   co_verdict (consume_code co (perform_all (Some st) later_ops (consume_code co demo).2)).1.2 <> STORE_CODE_OK).
Proof.
  assert ((consume_code co demo).1.1 = inr ()) as H by by_vm. pose proof (ran _ _ _ _ H) as E.
  assert (co_verdict (consume_code co demo).1.2 = STORE_CODE_OK) as Hv by by_vm.
  assert (Forall (adds (fun x => x <> hash x0b)) later_ops) as Ha by (repeat constructor).
  exact (login_code_single_use st _ _ _ _ _ _ co demo () _ _ later_ops _ _ _ _ _ co _ _ _ demo_idle E Hv Ha (outcome _ _ _)).
Defined.

(** The token of the first device, and that device revoked. *)
Abbreviation verify_demo := (store_verify_token (Some st) (Some (hash x0a)) 2500 600 true true).

Lemma verify_token_exact_witness :
  (exists t v x, token_live (disk demo) (hash x0a) 2500 t v x) /\ vo_verdict (verify_demo vo demo).1.2 = STORE_TOKEN_OK.
Proof.
  assert ((verify_demo vo demo).1.1 = inr ()) as H by by_vm. pose proof (ran _ _ _ _ H) as E.
  assert (vo_verdict (verify_demo vo demo).1.2 = STORE_TOKEN_OK) as Hv by by_vm. split; [|exact Hv].
  destruct (verify_token_exact st _ _ _ _ vo demo () _ _ demo_idle demo_schema E) as (Hok & _). apply Hok. exact Hv.
Defined.

Abbreviation revoke_laptop := (store_revoke_device (Some st) (Some laptop) (Some (label "op")) None).

Lemma revocation_final_witness :
  active_keys laptop (disk (revoke_laptop () demo).2) = [] /\
  exists e, (lookup_laptop () (perform_all (Some st) later_ops (revoke_laptop () demo).2)).1.1 = inl e.
Proof.
  assert ((revoke_laptop () demo).1.1 = inr ()) as H by by_vm. pose proof (ran _ _ _ _ H) as E.
  destruct (revocation_final st laptop _ _ () demo () _ _ later_ops demo_idle demo_schema E) as (Hk & _ & Hl & _).
  split; [exact Hk|]. exact (Hl _ _ _ _ _ _ _ (outcome _ _ _)).
Defined.

(** A recovery code redeemed with revoke=all, its ticket, and the ticket spent. *)
Abbreviation redeem := (store_recovery_consume_ex (Some st) 1 (Some alice) (Some (hash x0d)) 2700 3300 true).

Lemma recovery_code_single_use_witness :
  (exists r, r ∈ recovery_codes (disk demo) /\ r_id r = 1 /\ unused_of alice r) /\
  (redeem 0 (perform_all (Some st) later_ops (redeem 0 demo).2)).1.1 <> inr ().
Proof.
  assert ((redeem 0 demo).1.1 = inr ()) as H by by_vm. pose proof (ran _ _ _ _ H) as E.
  destruct (recovery_code_single_use st 1 alice _ _ _ _ 0 demo () _ _ later_ops alice _ _ _ _ 0 _ _ _ demo_idle demo_schema E
              (outcome redeem 0 (perform_all (Some st) later_ops (redeem 0 demo).2))) as (Hr & _ & Hn & _).
  split; [exact Hr|exact Hn].
Defined.

Lemma one_element {A} (l : list A) : blen l = 1 -> exists a, l = [a].
Proof. destruct l as [|a [|? ?]]; simpl; [done|by exists a|lia]. Qed.

Lemma recovery_revokes_devices_witness :
  (redeem 0 demo).1.2 = 1 /\ active_of alice (disk (redeem 0 demo).2) = [] /\
  exists h, all_revoked [h] 2700 (disk demo) (disk (redeem 0 demo).2).
Proof.
  assert ((redeem 0 demo).1.1 = inr ()) as H by by_vm. pose proof (ran _ _ _ _ H) as E.
  destruct (recovery_revokes_devices st 1 alice _ _ _ 0 demo () _ _ demo_idle demo_schema E) as ((gone & _ & _ & Hl & Ho & Hg) & _ & Ha & _).
  assert ((redeem 0 demo).1.2 = 1) as H1 by (rewrite Ho; by_vm). rewrite H1 in Hl.
  split; [exact H1|]. split; [apply Ha; vm_compute; lia|]. destruct (one_element gone Hl) as [h Hh]. rewrite Hh in Hg. exists h. exact Hg.
Defined.

Abbreviation spend_ticket :=
  (store_enroll_via_ticket (Some st) (Some (hash x0d)) (Some alice) (Some phone) (Some pk3) None 2800).
Definition ticketed : conn :=
  perform_all (Some st) (setup ++ [RecoveryConsume 1 (Some alice) (Some (hash x0d)) 2700 3300 true]) fresh.
Lemma ticketed_idle : idle ticketed.
Proof. by apply perform_all_idle. Qed.

Lemma ticket_single_use_witness :
  (exists e, e ∈ enroll_tickets (disk ticketed) /\ e_hash e = hash x0d /\ e_used_at e = None /\ 2800 < e_expires_at e /\ e_user e = alice) /\
  disk (spend_ticket () (perform_all (Some st) later_ops (spend_ticket () ticketed).2)).2 =
  disk (perform_all (Some st) later_ops (spend_ticket () ticketed).2).
Proof.
  assert ((spend_ticket () ticketed).1.1 = inr ()) as H by by_vm. pose proof (ran _ _ _ _ H) as E.
  assert (disk (spend_ticket () ticketed).2 <> disk ticketed) as Hch.
  { intros Heq. apply (f_equal (fun d => length (devices d))) in Heq. vm_compute in Heq. discriminate Heq. }
  assert (Forall (adds (fun x => x <> hash x0d)) later_ops) as Ha by (repeat constructor).
  exact (ticket_single_use st _ alice phone pk3 _ _ () ticketed () _ _ later_ops alice phone pk3 _ _ () _ _ _ ticketed_idle E Hch Ha
           (outcome _ _ _)).
Defined.

(** Two failures with a threshold of two, an engine failure in between. *)
Abbreviation note now := (store_recovery_note_failure (Some st) (Some alice) now 2 3600).
Abbreviation flaky := (failing (replicate 13 Fine ++ [Fails]) demo).
Abbreviation noted1 := (note 2700 (false, 0) flaky).2.
Abbreviation noted2 := (note 2800 (false, 0) (note 2750 (false, 0) noted1).2).2.

Lemma recovery_lockout_witness :
  store_recovery_lock_state (Some st) (Some alice) 6399 true () (calm noted2) = (inr (6399 <? 6400, 6400, 0), (), calm noted2).
Proof.
  assert ((note 2700 (false, 0) flaky).1.1 = inr ()) as H1 by by_vm.
  assert ((note 2750 (false, 0) noted1).1.1 = inl STORE_ERR_DB) as H2 by by_vm.
  assert ((note 2800 (false, 0) (note 2750 (false, 0) noted1).2).1.1 = inr ()) as H3 by by_vm.
  assert (recovery_state alice (disk flaky) = Some (0, 0)) as Hs by by_vm.
  destruct (recovery_lockout (O := unit) st alice 2 3600 flaky [2700; 2800] noted2 _ 0
    eq_refl eq_refl (noted_one _ _ _ _ _ _ _ _ _ _ _ _ (ran _ _ _ _ H1)
      (noted_error _ _ _ _ _ _ _ _ _ _ _ _ _ (refused _ _ _ _ H2)
        (noted_one _ _ _ _ _ _ _ _ _ _ _ _ (ran _ _ _ _ H3) (noted_none _ _ _ _ _))))
    (failing_idle _ _ demo_idle) Hs eq_refl eq_refl) as (now & [= <-] & _ & Hl).
  exact (Hl 6399 ()).
Defined.

Lemma recovery_replace_exact_witness :
  r_pwhash <$> filter (unused_of alice)
    (recovery_codes (disk (store_recovery_replace (Some st) (Some alice) (Some [Some (label "argon2-3")]) 2900 0 demo).2)) =
  [Some (label "argon2-3")].
Proof.
  assert ((store_recovery_replace (Some st) (Some alice) (Some [Some (label "argon2-3")]) 2900 0 demo).1.1 = inr ()) as H by by_vm.
  pose proof (ran _ _ _ _ H) as E. exact (proj1 (recovery_replace_exact st alice _ 2900 0 demo () _ _ demo_idle E)).
Defined.

(** A rotation that fails can still leave its audit row.  When the read of
    the device's owner, whose error [store_rotate_key] ignores, makes SQLite
    roll the transaction back, the audit row that follows is written outside
    of it: the call returns an error and the key is not rotated, but the log
    has a committed "key-rotate" entry, and it verifies. *)
Example rotate_orphan_entry :
  let c' := (rotate_laptop (RotateOut 0 0) (failing (replicate 21 Fine ++ [Aborts]) demo)).2 in
  (rotate_laptop (RotateOut 0 0) (failing (replicate 21 Fine ++ [Aborts]) demo)).1.1 = inl STORE_ERR_DB /\
  tables (disk c') = tables (disk demo) /\
  length (audit (disk c')) = S (length (audit (disk demo))) /\
  a_event <$> last (audit (disk c')) = Some (label "key-rotate") /\
  (store_audit_verify (Some st) () c').1.1 = inr ().
Proof. cbv zeta. split_and!; by_vm. Qed.
