(* ===== verification/AccountDemo.v ===== *)
(** * Witnesses for opening the store, tokens and recovery codes

    The concrete store of [StoreDemo] over the concrete environment: a store
    opened, used and opened again, a token issued and refused, and a recovery
    code made, issued and typed in lower case. *)

From S2P Require Import Prelude Extern Toy Crypto Base32 StoreDb StoreTx Store StoreAuth StoreLogic StoreHistory StoreAtomic StoreCalm StoreAudit StoreKeys StoreOnce StoreTokens StoreRecovery StoreOpen Tokens Recovery StoreDemo.

(** A hash that shows the password without NULs. *)
Definition toy_pwhash (pw : list byte) : text := ztake 64 (filter (fun b => b <> x00) pw).
#[export] Instance toy_pw : PwHash := {|
  crypto_pwhash_str pw ops mem w := (Some (toy_pwhash pw), w);
  crypto_pwhash_str_verify s pw w := (bool_decide (s = toy_pwhash pw), w) |}.
#[export] Instance toy_pw_law : PwHashLaw.
Proof.
  split.
  - intros pw ops mem w s w' H. injection H as <- <-. unfold toy_pwhash, crypto_pwhash_STRBYTES. split; [rewrite length_take; lia|].
    intros Hin%elem_of_take. destruct Hin as (i & Hi & _). apply list_elem_of_lookup_2, list_elem_of_filter in Hi as [? _]. done.
  - intros pw ops mem w s w' H w2. injection H as <- <-. by apply bool_decide_eq_true.
Qed.

Definition kek : blob := hash x0e.
Definition w0 : world := 7.
Abbreviation open_store := (store_open (Some (label "/var/lib/authd.db")) (Some kek) true 0 true).

(** The first opening of a new store, with a first user and device; then the
    file opened again, after a failure. *)
Definition handle0 : store_t := match (open_store w0 fresh).1.1 with inr s => s | inl _ => st end.
Abbreviation used_store := (perform_all (Some handle0) setup (open_store w0 fresh).2).

Lemma store_reopens_witness :
  store_audit_verify (Some handle0) () (at_rest (disk (open_store w0 (reopened [Fine; Fine] used_store)).2) 0) =
  (inr (), (), at_rest (disk (open_store w0 (reopened [Fine; Fine] used_store)).2) 0).
Proof.
  assert ((open_store w0 fresh).1.1 = inr handle0) as H by by_vm.
  assert ((open_store w0 (reopened [Fine; Fine] used_store)).1.1 = inr handle0) as H2 by by_vm.
  pose proof (ran _ _ _ _ H) as E. pose proof (ran _ _ _ _ H2) as E2.
  destruct (store_reopens (Some (label "/var/lib/authd.db")) kek true 0 true w0 fresh handle0 _ _ setup [Fine; Fine]
    (Some (label "/var/lib/authd.db")) true 0 true w0 handle0 _ _ () 0%nat eq_refl E E2) as (_ & _ & Hv).
  exact (Hv eq_refl).
Defined.

(** COMMIT fails while the identity is first written. *)
Lemma store_open_preserves_witness :
  contents (disk (open_store w0 (failing (replicate 12 Fine ++ [Fails]) fresh)).2) = contents empty_db.
Proof.
  exact (store_open_preserves _ _ _ _ _ w0 (failing (replicate 12 Fine ++ [Fails]) fresh) _ _ _ eq_refl (outcome _ _ _)).
Defined.

(** A token for the enrolled device. *)
Abbreviation issue := (tokens_issue (Some st) STORE_ROLE_USER (Some alice) (Some laptop) None 3000 true).
Definition blank : issue_out := IssueOut 9 [].

Lemma token_lifetime_witness :
  vo_verdict (store_verify_token (Some st) (Some (crypto_hash_sha256 (io_token (issue blank demo).1.2))) 6599 600 true true vo
                (issue blank demo).2).1.2 = STORE_TOKEN_OK /\
  (issue blank demo).1.1 = inr (3000, 46200).
Proof.
  assert ((issue blank demo).1.1 = inr (3000, 46200)) as H by by_vm. split; [|exact H]. pose proof (ran _ _ _ _ H) as E.
  destruct (token_lifetime st STORE_ROLE_USER alice laptop None 3000 true blank demo _ _ _ _ demo_idle demo_schema E)
    as (_ & _ & _ & Hv & _).
  assert ((store_verify_token (Some st) (Some (crypto_hash_sha256 (io_token (issue blank demo).1.2))) 6599 600 true true vo
             (issue blank demo).2).1.1 = inr ()) as H2 by by_vm.
  pose proof (ran _ _ _ _ H2) as E2. destruct alice_active as (x & Hx & Hxu & Hxa).
  refine (Hv (DeviceRow laptop alice None ACTIVE 1001 (label "bootstrap") [] None None None None) x _ _ _ _ _ _ _ _ eq_refl eq_refl
            Hx Hxu Hxa _ E2); [|by_vm].
  apply (list_elem_of_lookup_2 _ 0). by_vm.
Defined.

(** The same token again, as a stuck random source would draw it. *)
Lemma token_withheld_witness :
  disk (issue blank (issue blank demo).2).2 = disk (issue blank demo).2 /\
  io_token (issue blank (issue blank demo).2).1.2 = zeros TOKEN_BYTES.
Proof.
  assert ((issue blank (issue blank demo).2).1.1 = inl STORE_ERR_CONFLICT) as H by by_vm. pose proof (refused _ _ _ _ H) as E.
  assert (idle (issue blank demo).2) as Hi by by_vm.
  destruct (token_withheld _ _ _ _ _ _ _ _ _ _ _ _ Hi E) as [Hd [Hz|[_ He]]]; [|discriminate He].
  split; [exact Hd|exact Hz].
Defined.

(** A code, the set it is issued in, and the code typed in lower case. *)
Abbreviation made := (recovery_make_code true true 2 67108864 w0).
Definition code_text : text := label "0W3GE1R70W3GE1R7".
Definition code_hash_buf : list byte := poke 0 code_text (zeros 128).
Abbreviation reissue :=
  (store_recovery_replace (Some st) (Some alice) (Some [Some (label "argon2-3"); Some (c_str code_hash_buf)]) 2900 0 demo).
Definition typed_code : text := label "ow3g-elr7-0w3g-e1r7".

Lemma typed_spells : Forall2 spells (filter (fun a => is_hyphen a = false) typed_code) code_text.
Proof. vm_compute filter. repeat constructor; vm_compute; auto 10 using list_elem_of_here, list_elem_of_further. Qed.

Lemma recovery_roundtrip_witness :
  mo_result (recovery_find_match (Some st) (Some alice) (Some typed_code) 19 true w0
               (at_rest (disk reissue.2) (reads reissue.2))).1.1 = 1.
Proof.
  assert (made = (0, Some (code_text ++ [x00]), Some code_hash_buf, 8)) as Hm by by_vm.
  assert (reissue.1.1 = inr ()) as H by by_vm. pose proof (ran _ _ _ _ H) as E.
  assert (Some (c_str code_hash_buf) ∈ [Some (label "argon2-3"); Some (c_str code_hash_buf)]) as Hin by (right; left).
  destruct (recovery_roundtrip 2 67108864 w0 _ _ _ st alice _ 2900 0 demo () _ _ typed_code w0 Hm demo_idle E Hin eq_refl typed_spells)
    as (Hr & _).
  exact Hr.
Defined.

(** An engine failure after the first code was tried. *)
Abbreviation flaky_store := (failing [Fine; Fine; Fine; Fails] (StoreDemo.demo)).
Lemma recovery_match_sound_witness :
  0 <= mo_tried (recovery_find_match (Some st) (Some alice) (Some typed_code) (blen typed_code) true w0 flaky_store).1.1 <= 2.
Proof.
  pose proof (recovery_match_sound st alice typed_code w0 flaky_store _ _ _
    (eq_trans (surjective_pairing _) (f_equal (fun p => (p, _)) (surjective_pairing _)))) as (_ & [[Hno _]|(code & _ & _ & Ht & _)]).
  - destruct (Hno code_text eq_refl typed_spells).
  - exact Ht.
Defined.
