(* ===== verification/AuthdLog.v ===== *)
(** * The daemon's journal ([apps/authd/authd_log.c])

    Every logging entry point of the daemon is a constructor of [log_call] and
    [authd_log] is the line it prints, if its level is enabled.  [inet_ntop]
    and the pseudonym callback are parameters.  Shown: every call prints
    exactly one line whatever bytes a peer chose for its identifier, and the
    privacy modes reveal of an identifier or an address only what they say. *)

From Stdlib Require Import Strings.Ascii.
From stdpp Require Import pretty.
From S2P Require Import Prelude StoreDb ProxyV2.

(** ** Text *)

Definition NL : byte := x0a.

(** [%zu], [%lu], [%llu] of a nonnegative number; [%ld], [%lld]. *)
Definition dec (n : Z) : text := label (pretty (Z.to_N n)).
Definition sdec (n : Z) : text := if n <? 0 then label "-" ++ dec (- n) else dec n.

(** [hexd[n & 0x0f]] with [hexd = "0123456789abcdef"] *)
Definition hexd (n : Z) : byte := byte_at (label "0123456789abcdef") (Z.land n 15).
Definition hex_lower (l : list byte) : text := b ← l; [hexd (Z.shiftr (bz b) 4); hexd (bz b)].

(** One line cannot be taken for two. *)
Definition clean (t : text) : Prop := NL ∉ t.

Lemma clean_app s t : clean (s ++ t) <-> clean s /\ clean t.
Proof. unfold clean. rewrite elem_of_app. tauto. Qed.
Lemma clean_cons b t : clean (b :: t) <-> b <> NL /\ clean t.
Proof. unfold clean. rewrite elem_of_cons. naive_solver. Qed.
Lemma clean_nil : clean [].
Proof. apply not_elem_of_nil. Qed.
Lemma clean_label s : bool_decide (clean (label s)) = true -> clean (label s).
Proof. apply bool_decide_eq_true_1. Qed.

Lemma clean_forall (P : byte -> Prop) (l : text) : ~ P NL -> Forall P l -> clean l.
Proof. intros HP HF Hin. rewrite Forall_forall in HF. eauto. Qed.

Definition is_digit (b : byte) : Prop := 48 <= bz b <= 57.

Lemma label_cons a s : label (String a s) = Ascii.byte_of_ascii a :: label s.
Proof. reflexivity. Qed.

Lemma pretty_go_digits x s : Forall is_digit (label s) -> Forall is_digit (label (pretty_N_go x s)).
Proof.
  revert s. induction (N.lt_wf_0 x) as [x _ IH]; intros s Hs.
  destruct (decide (x = 0)%N) as [->|Hx]; [by rewrite pretty_N_go_0|].
  rewrite pretty_N_go_step by lia. apply IH; [apply N.div_lt; lia|].
  rewrite label_cons. constructor; [|done].
  unfold pretty_N_char, is_digit. repeat case_match; vm_compute; split; discriminate.
Qed.

Lemma dec_digits n : Forall is_digit (dec n).
Proof.
  unfold dec, pretty, pretty_N. destruct (decide _).
  - constructor; [|constructor]. vm_compute. split; discriminate.
  - apply pretty_go_digits. constructor.
Qed.

Lemma dec_clean n : clean (dec n).
Proof. apply (clean_forall is_digit); [|apply dec_digits]. unfold is_digit. vm_compute. intros [H _]. by apply H. Qed.

Lemma sdec_clean n : clean (sdec n).
Proof. unfold sdec. case_match; [apply clean_cons; split; [done|]|]; apply dec_clean. Qed.

Lemma hexd_clean n : hexd n <> NL.
Proof.
  unfold hexd. assert (0 <= Z.land n 15 < 16) as Hr.
  { change 15 with (Z.ones 4). rewrite Z.land_ones by lia. by apply Z.mod_pos_bound. }
  generalize dependent (Z.land n 15). intros k Hk.
  assert (k = 0 \/ k = 1 \/ k = 2 \/ k = 3 \/ k = 4 \/ k = 5 \/ k = 6 \/ k = 7 \/ k = 8 \/ k = 9 \/ k = 10 \/ k = 11
          \/ k = 12 \/ k = 13 \/ k = 14 \/ k = 15) as H by lia.
  repeat destruct H as [-> | H]; [..|subst k]; discriminate.
Qed.

Lemma hex_lower_clean l : clean (hex_lower l).
Proof.
  induction l as [|b l IH]; [apply clean_nil|].
  change (hex_lower (b :: l)) with ([hexd (Z.shiftr (bz b) 4); hexd (bz b)] ++ hex_lower l).
  apply clean_app. split; [|done].
  apply clean_cons; split; [apply hexd_clean|]. apply clean_cons; split; [apply hexd_clean|apply clean_nil].
Qed.

(** ** Configuration *)

Inductive authd_log_level_t := AUTHD_LOG_ERROR | AUTHD_LOG_WARN | AUTHD_LOG_INFO.
Inductive authd_log_ids_t := AUTHD_LOG_IDS_FULL | AUTHD_LOG_IDS_HASHED | AUTHD_LOG_IDS_OFF.
Inductive authd_log_ip_t := AUTHD_LOG_IP_FULL | AUTHD_LOG_IP_PREFIX | AUTHD_LOG_IP_OFF.

Definition AUTHD_LOG_PSEUDONYM_BYTES : Z := 8.
Definition ID_FIELD_MAX : Z := 64.

(** [g_min], [g_ids], [g_ip] and [g_pseud] with its context: the pseudonym of
    an identifier, or a failure. *)
Record log_config := LogConfig {
  g_min : authd_log_level_t; g_ids : authd_log_ids_t; g_ip : authd_log_ip_t;
  g_pseud : option (list byte -> option (list byte)) }.

Definition level_name (l : authd_log_level_t) : text :=
  match l with
  | AUTHD_LOG_ERROR => label "error"
  | AUTHD_LOG_WARN => label "warn"
  | AUTHD_LOG_INFO => label "info"
  end.

Definition level_rank (l : authd_log_level_t) : Z :=
  match l with AUTHD_LOG_ERROR => 0 | AUTHD_LOG_WARN => 1 | AUTHD_LOG_INFO => 2 end.

Definition enabled (g : log_config) (l : authd_log_level_t) : bool := level_rank l <=? level_rank (g_min g).

(** The modes are enumerations, so a value outside either cannot be written. *)
Definition authd_log_set_privacy (g : log_config) (ids : authd_log_ids_t) (ip : authd_log_ip_t)
    (fn : option (list byte -> option (list byte))) : Z * log_config :=
  match ids, fn with
  | AUTHD_LOG_IDS_HASHED, None => (-1, g)
  | _, _ => (0, LogConfig (g_min g) ids ip fn)
  end.

Definition authd_log_ids_name (m : authd_log_ids_t) : text :=
  match m with
  | AUTHD_LOG_IDS_FULL => label "full"
  | AUTHD_LOG_IDS_HASHED => label "hashed"
  | AUTHD_LOG_IDS_OFF => label "off"
  end.

Definition authd_log_ip_name (m : authd_log_ip_t) : text :=
  match m with
  | AUTHD_LOG_IP_FULL => label "full"
  | AUTHD_LOG_IP_PREFIX => label "prefix"
  | AUTHD_LOG_IP_OFF => label "off"
  end.

Definition word_is (v : option text) (w : text) : bool :=
  match v with Some v => (blen v =? blen w) && memeq v w (blen w) | None => false end.

Definition authd_log_ids_parse (v : option text) : option authd_log_ids_t :=
  if word_is v (label "full") then Some AUTHD_LOG_IDS_FULL
  else if word_is v (label "hashed") then Some AUTHD_LOG_IDS_HASHED
  else if word_is v (label "off") then Some AUTHD_LOG_IDS_OFF else None.

Definition authd_log_ip_parse (v : option text) : option authd_log_ip_t :=
  if word_is v (label "full") then Some AUTHD_LOG_IP_FULL
  else if word_is v (label "prefix") then Some AUTHD_LOG_IP_PREFIX
  else if word_is v (label "off") then Some AUTHD_LOG_IP_OFF else None.

(** ** Calls *)

Inductive log_call :=
| authd_log_event (lvl : authd_log_level_t) (event : text)
| authd_log_slot (lvl : authd_log_level_t) (event : text) (slot : Z)
| authd_log_slot_detail (lvl : authd_log_level_t) (event : text) (slot : Z) (detail : text)
| authd_log_slot_id (lvl : authd_log_level_t) (event : text) (slot : Z) (id : list byte)
| authd_log_slot_addr (lvl : authd_log_level_t) (event : text) (slot : Z) (addr : authd_addr_t) (detail : text)
| authd_log_local (lvl : authd_log_level_t) (event cmd : text) (uid pid : Z) (detail : text)
| authd_log_fp (lvl : authd_log_level_t) (event : text) (fp : list byte)
| authd_log_num (lvl : authd_log_level_t) (event key : text) (value : Z).

Definition call_level (k : log_call) : authd_log_level_t :=
  match k with
  | authd_log_event l _ | authd_log_slot l _ _ | authd_log_slot_detail l _ _ _ | authd_log_slot_id l _ _ _
  | authd_log_slot_addr l _ _ _ _ | authd_log_local l _ _ _ _ _ | authd_log_fp l _ _ | authd_log_num l _ _ _ => l
  end.

(** [inet_ntop]: an address family and its bytes to text. *)
Class InetNtop := inet_ntop : Z -> list byte -> option text.
(** Its documented alphabet: decimal and hexadecimal digits, dots and colons. *)
Class InetNtopLaw (IN : InetNtop) := inet_ntop_clean : forall af a t, inet_ntop af a = Some t -> clean t.

Section render.
Context `{IN : InetNtop}.

Definition authd_addr_str (a : authd_addr_t) : text :=
  if aa_family a =? 0 then label "none"
  else let af := if aa_family a =? 4 then 4 else 6 in
       default (label "unprintable") (inet_ntop af (aa_addr a)).

(** The copy with its host part zeroed, and the suffix that says so. *)
Definition addr_prefix (a : authd_addr_t) : authd_addr_t * text :=
  let keep n := AuthdAddr (aa_family a) (poke n (zeros (blen (aa_addr a) - n)) (aa_addr a)) in
  if aa_family a =? 4 then (keep 3, label "/24")
  else if aa_family a =? 6 then (keep 6, label "/48") else (a, []).

(** The bytes outside printable ASCII. *)
Definition escape (c : byte) : byte := if (32 <=? bz c) && (bz c <=? 126) then c else u8 46.
Definition escape_cmd (c : byte) : byte :=
  if (32 <=? bz c) && (bz c <=? 126) && negb (bz c =? 32) then c else u8 46.

Definition id_field (id : list byte) : text :=
  (escape <$> ztake ID_FIELD_MAX id) ++ (if ID_FIELD_MAX <? blen id then label "~" else []).

Definition pseudonym (g : log_config) (id : list byte) : text :=
  match g_pseud g with
  | None => label "unavailable"
  | Some fn => match fn id with Some p => hex_lower (ztake AUTHD_LOG_PSEUDONYM_BYTES p) | None => label "unavailable" end
  end.

(** [safe[32]]: at most 31 characters of the command name. *)
Definition cmd_field (cmd : text) : text := escape_cmd <$> ztake 31 cmd.

Definition log_body (g : log_config) (k : log_call) : text :=
  match k with
  | authd_log_event l ev => level_name l ++ label " event=" ++ ev
  | authd_log_slot l ev slot => level_name l ++ label " event=" ++ ev ++ label " slot=" ++ dec slot
  | authd_log_slot_detail l ev slot d =>
      level_name l ++ label " event=" ++ ev ++ label " slot=" ++ dec slot ++ label " detail=" ++ d
  | authd_log_slot_id l ev slot id =>
      level_name l ++ label " event=" ++ ev ++ label " slot=" ++ dec slot ++
      match g_ids g with
      | AUTHD_LOG_IDS_OFF => []
      | AUTHD_LOG_IDS_HASHED => label " idh=" ++ pseudonym g id
      | AUTHD_LOG_IDS_FULL => label " id=" ++ id_field id
      end
  | authd_log_slot_addr l ev slot a d =>
      level_name l ++ label " event=" ++ ev ++ label " slot=" ++ dec slot ++
      match g_ip g with
      | AUTHD_LOG_IP_OFF => []
      | AUTHD_LOG_IP_PREFIX => let '(a, suffix) := addr_prefix a in label " src=" ++ authd_addr_str a ++ suffix
      | AUTHD_LOG_IP_FULL => label " src=" ++ authd_addr_str a
      end ++ label " detail=" ++ d
  | authd_log_local l ev cmd uid pid d =>
      level_name l ++ label " event=" ++ ev ++ label " cmd=" ++ cmd_field cmd ++ label " uid=" ++ dec uid ++
      label " pid=" ++ (if 0 <? pid then dec pid else label "unavailable") ++ label " detail=" ++ d
  | authd_log_fp l ev fp => level_name l ++ label " event=" ++ ev ++ label " fp=" ++ hex_lower fp
  | authd_log_num l ev key v => level_name l ++ label " event=" ++ ev ++ label " " ++ key ++ label "=" ++ dec v
  end.

(** The bytes a call writes to the journal. *)
Definition authd_log (g : log_config) (k : log_call) : text :=
  if enabled g (call_level k) then log_body g k ++ [NL] else [].

(** ** One line per call *)

(** The words a caller passes as [event], [detail] and [key] are literals. *)
Definition literals (k : log_call) : list text :=
  match k with
  | authd_log_event _ ev | authd_log_slot _ ev _ | authd_log_slot_id _ ev _ _ | authd_log_fp _ ev _ => [ev]
  | authd_log_slot_detail _ ev _ d | authd_log_slot_addr _ ev _ _ d | authd_log_local _ ev _ _ _ d => [ev; d]
  | authd_log_num _ ev key _ => [ev; key]
  end.

Lemma escape_range c : 32 <= bz (escape c).
Proof. unfold escape. case_match eqn:E; [|by vm_compute]. apply andb_true_iff in E as [?%Z.leb_le _]. lia. Qed.

Lemma escape_cmd_range c : 32 <= bz (escape_cmd c).
Proof.
  unfold escape_cmd. case_match eqn:E; [|by vm_compute].
  apply andb_true_iff in E as [[?%Z.leb_le _]%andb_true_iff _]. lia.
Qed.

Lemma printable_clean (l : text) : Forall (fun b => 32 <= bz b) l -> clean l.
Proof. apply (clean_forall (fun b => 32 <= bz b)). vm_compute. intros H. by apply H. Qed.

Lemma id_field_clean id : clean (id_field id).
Proof.
  apply printable_clean, Forall_app. split.
  - apply Forall_fmap, Forall_true. intros c. apply escape_range.
  - case_match; [by constructor|constructor].
Qed.

Lemma cmd_field_clean cmd : clean (cmd_field cmd).
Proof. apply printable_clean, Forall_fmap, Forall_true. intros c. apply escape_cmd_range. Qed.

Lemma pseudonym_clean g id : clean (pseudonym g id).
Proof. unfold pseudonym. repeat case_match; (apply hex_lower_clean || by apply clean_label). Qed.

Lemma level_clean l : clean (level_name l).
Proof. by destruct l; apply clean_label. Qed.

Context `{!InetNtopLaw IN}.

Lemma addr_str_clean a : clean (authd_addr_str a).
Proof.
  unfold authd_addr_str. case_match; [by apply clean_label|].
  match goal with |- context [inet_ntop ?f ?b] => destruct (inet_ntop f b) eqn:E end; simpl.
  - by eapply inet_ntop_clean.
  - by apply clean_label.
Qed.

Lemma suffix_clean a : clean (addr_prefix a).2.
Proof. unfold addr_prefix. repeat case_match; (apply clean_nil || by apply clean_label). Qed.

Lemma log_body_clean g k : Forall clean (literals k) -> clean (log_body g k).
Proof.
  destruct k; cbn [log_body literals]; intros Hl; rewrite ?Forall_cons, ?Forall_nil in Hl; destruct_and?;
    repeat case_match; simplify_eq;
    repeat match goal with
    | |- clean (_ ++ _) => apply clean_app; split
    | |- clean (label _) => by apply clean_label
    | H : addr_prefix ?a = (_, ?s) |- clean ?s => replace s with (addr_prefix a).2 by (by rewrite H)
    | _ => first [assumption | apply level_clean | apply dec_clean | apply id_field_clean | apply cmd_field_clean
                  | apply pseudonym_clean | apply addr_str_clean | apply suffix_clean | apply hex_lower_clean | apply clean_nil]
    end.
Qed.

(** The journal of any sequence of calls has exactly one line per call at
    an enabled level, whatever identifiers, addresses, command names and
    numbers the peers supplied: no logged value can forge a line. *)
Theorem journal_lines (g : log_config) (ks : list log_call) :
  Forall (fun k => Forall clean (literals k)) ks ->
  length (filter (fun b => b = NL) (concat (authd_log g <$> ks))) =
  length (filter (fun k => enabled g (call_level k) = true) ks).
Proof.
  induction 1 as [|k ks Hk _ IH]; [done|].
  rewrite fmap_cons, concat_cons, filter_app, length_app, IH, filter_cons. unfold authd_log.
  destruct (enabled g (call_level k)) eqn:E.
  - rewrite decide_True by done. rewrite filter_app, length_app.
    replace (filter (fun b => b = NL) (log_body g k)) with (@nil byte); [done|].
    symmetry. apply elem_of_nil_inv. intros b [-> Hb]%list_elem_of_filter. by destruct (log_body_clean g k Hk).
  - rewrite decide_False by done. done.
Qed.

(** What two addresses have in common once their host parts are zeroed. *)
Definition same_prefix (a b : authd_addr_t) : Prop :=
  aa_family a = aa_family b /\ blen (aa_addr a) = 16 /\ blen (aa_addr b) = 16 /\
  (aa_family a = 4 -> ztake 3 (aa_addr a) = ztake 3 (aa_addr b)) /\
  (aa_family a = 6 -> ztake 6 (aa_addr a) = ztake 6 (aa_addr b)) /\
  (aa_family a <> 4 -> aa_family a <> 6 -> aa_addr a = aa_addr b).

Lemma poke_tail n (l : list byte) : 0 <= n <= blen l -> poke n (zeros (blen l - n)) l = ztake n l ++ zeros (blen l - n).
Proof.
  intros Hn. unfold poke. rewrite length_zeros by lia. replace (n + (blen l - n)) with (blen l) by lia.
  by rewrite Nat2Z.id, drop_all, app_nil_r.
Qed.

Lemma addr_prefix_same a b : same_prefix a b -> addr_prefix a = addr_prefix b.
Proof.
  intros (Hf & Ha & Hb & H4 & H6 & Ho). unfold addr_prefix. rewrite <-Hf.
  destruct (Z.eqb_spec (aa_family a) 4); [rewrite !poke_tail, Ha, Hb, H4 by lia; done|].
  destruct (Z.eqb_spec (aa_family a) 6); [rewrite !poke_tail, Ha, Hb, H6 by lia; done|].
  destruct a as [fa la], b as [fb lb]. simpl in *. by rewrite Hf, Ho by congruence.
Qed.

End render.

(** C25: What the privacy modes hide.  With identifiers off a line says nothing
    of the identifier and with hashed identifiers only its pseudonym; with
    addresses off a line says nothing of the address and with prefixes only the
    first 24 bits of an IPv4 and 48 bits of an IPv6 address. *)
Theorem log_privacy `{InetNtop} (g : log_config) (lvl : authd_log_level_t) (event detail : text) (slot : Z) :
  (forall id id', g_ids g = AUTHD_LOG_IDS_OFF \/
      (g_ids g = AUTHD_LOG_IDS_HASHED /\ forall f, g_pseud g = Some f -> f id = f id') ->
     authd_log g (authd_log_slot_id lvl event slot id) = authd_log g (authd_log_slot_id lvl event slot id')) /\
  (forall a b, g_ip g = AUTHD_LOG_IP_OFF \/ (g_ip g = AUTHD_LOG_IP_PREFIX /\ same_prefix a b) ->
     authd_log g (authd_log_slot_addr lvl event slot a detail) = authd_log g (authd_log_slot_addr lvl event slot b detail)).
Proof.
  unfold authd_log, log_body, pseudonym. cbn [call_level]. split.
  - intros id id' [-> | [-> Hp]]; [done|]. destruct (g_pseud g); [by rewrite (Hp _ eq_refl)|done].
  - intros a b [-> | [-> Hs]]; [done|]. by rewrite (addr_prefix_same a b Hs).
Qed.
