(* ===== verification/Slot.v ===== *)
(** * Connection slots ([apps/authd/evloop.h])

    What the event loop and its callbacks share: one slot of a pool, holding
    the descriptor, the buffered transport and the lifecycle flags of the
    connection it serves.  [slot->user] points to the connection record of the
    same index or is NULL. *)

From S2P Require Import Prelude ConnIo.

Inductive slot_state_t := SLOT_FREE | SLOT_ACTIVE | SLOT_DRAINING.
Inductive slot_kind_t := SLOT_KIND_PROTO | SLOT_KIND_LOCAL.
Inductive ev_action_t := EV_ACTION_CONTINUE | EV_ACTION_CLOSE.

#[global] Instance slot_state_eq_dec : EqDecision slot_state_t.
Proof. solve_decision. Defined.
#[global] Instance slot_kind_eq_dec : EqDecision slot_kind_t.
Proof. solve_decision. Defined.
#[global] Instance ev_action_eq_dec : EqDecision ev_action_t.
Proof. solve_decision. Defined.

(** [(uid_t)-1] and [0] of a peer that is not known. *)
Record listener_peer_t := Peer { peer_uid : Z; peer_pid : Z }.
Definition UID_NONE : Z := 2 ^ 32 - 1.
Definition peer_none : listener_peer_t := Peer UID_NONE 0.

Record authd_slot_t := Slot {
  sl_fd : Z;                     (* -1 when free *)
  sl_kind : slot_kind_t;
  sl_peer : listener_peer_t;
  sl_is_admin : bool;
  sl_addr_settled : bool;
  sl_addr_admitted : bool;
  sl_state : slot_state_t;
  sl_io : conn_io_t;
  sl_deadline_ms : Z;
  sl_opened_ms : Z;
  sl_index : Z;
  sl_user : option Z }.

Definition sl_set_io io s : authd_slot_t :=
  Slot (sl_fd s) (sl_kind s) (sl_peer s) (sl_is_admin s) (sl_addr_settled s) (sl_addr_admitted s) (sl_state s) io
       (sl_deadline_ms s) (sl_opened_ms s) (sl_index s) (sl_user s).
Definition sl_set_user u s : authd_slot_t :=
  Slot (sl_fd s) (sl_kind s) (sl_peer s) (sl_is_admin s) (sl_addr_settled s) (sl_addr_admitted s) (sl_state s) (sl_io s)
       (sl_deadline_ms s) (sl_opened_ms s) (sl_index s) u.
Definition sl_set_settled b s : authd_slot_t :=
  Slot (sl_fd s) (sl_kind s) (sl_peer s) (sl_is_admin s) b (sl_addr_admitted s) (sl_state s) (sl_io s)
       (sl_deadline_ms s) (sl_opened_ms s) (sl_index s) (sl_user s).
Definition sl_set_admitted b s : authd_slot_t :=
  Slot (sl_fd s) (sl_kind s) (sl_peer s) (sl_is_admin s) (sl_addr_settled s) b (sl_state s) (sl_io s)
       (sl_deadline_ms s) (sl_opened_ms s) (sl_index s) (sl_user s).
Definition sl_set_state st s : authd_slot_t :=
  Slot (sl_fd s) (sl_kind s) (sl_peer s) (sl_is_admin s) (sl_addr_settled s) (sl_addr_admitted s) st (sl_io s)
       (sl_deadline_ms s) (sl_opened_ms s) (sl_index s) (sl_user s).
Definition sl_set_deadline d s : authd_slot_t :=
  Slot (sl_fd s) (sl_kind s) (sl_peer s) (sl_is_admin s) (sl_addr_settled s) (sl_addr_admitted s) (sl_state s) (sl_io s)
       d (sl_opened_ms s) (sl_index s) (sl_user s).
