(* ===== verification/AuthdConn.v ===== *)
(** * The daemon's connections ([apps/authd/authd_conn.c])

    The per-connection protocol state machine: which key is pinned before the
    handshake begins, the handshake itself, the login code that opens the
    session, key rotation inside it, and the teardown.  It composes the
    handshake library, the record layer, the account store, the rate limiter
    and the buffered transport.

    [app->now_ms] is memory that the library reads back through the clock
    callback [authd_app_clock], so it is a cell of the world the library calls
    thread (class [AppClock]).  The busy wait of the pin's time floor takes the
    number of clock reads it may make, [spins]. *)

From S2P Require Import Prelude Extern Crypto Transcript Pending Handshake Session ProxyV2 RateLimit AuthMsg Ws ConnIo StoreDb StoreTx Store StoreAuth StoreOpen AuthdLog Slot.

(** ** Constants *)
Definition AUTHD_LOGIN_CODE_TTL_S : Z := 60.
Definition AUTHD_PIN_FLOOR_NS : Z := 50000.
Definition TOKEN_SWEEP_INTERVAL_MS : Z := 60000.
Definition AUTHMSG_ERR_NOT_PERMITTED : Z := 2.
Definition AUTHMSG_ERR_REJECTED : Z := 3.

#[global] Instance authmsg_status_eq_dec : EqDecision authmsg_status_t.
Proof. solve_decision. Defined.

(** ** State *)

Inductive conn_stage_t :=
| CONN_STAGE_FREE | CONN_STAGE_AWAIT_CH | CONN_STAGE_AWAIT_CA | CONN_STAGE_SERVING | CONN_STAGE_CLOSING.

#[global] Instance conn_stage_eq_dec : EqDecision conn_stage_t.
Proof. solve_decision. Defined.

Record authd_conn_t `{Env} := AuthdConn {
  c_stage : conn_stage_t;
  c_hs : handshake_ctx_t;
  c_sess : session_t;
  c_pin_pk : list byte;
  c_pin_set : bool;
  c_handle : list byte;
  c_handle_len : Z;
  c_user_id : list byte;
  c_user_id_len : Z;
  c_handshake_id : list byte;
  c_hsid_set : bool;
  c_decoy : bool;
  c_hs_live : bool;
  c_rotated : bool }.
#[global] Arguments AuthdConn {_} _ _ _ _ _ _ _ _ _ _ _ _ _ _.

Inductive app_counter :=
| logins_issued | rotations | recoveries_issued | recoveries_used | recovery_kdf_calls | decoy_pins
| refused_no_address | refused_rate | handshakes_failed | swept_tokens | swept_codes | swept_tickets.
#[global] Instance app_counter_eq_dec : EqDecision app_counter.
Proof. solve_decision. Defined.

(** The settings the main program fixes at start. *)
Record app_policy := AppPolicy {
  pad_bucket : Z; rotation_due_age_s : Z; code_ttl_s : Z;
  recovery_ops : Z; recovery_mem : Z; recovery_lock_threshold : Z; recovery_lock_seconds : Z;
  ticket_ttl_s : Z; started_ms : Z }.

Record authd_app_t `{Env} := App {
  conns : list authd_conn_t;
  app_store : option store_t;
  server_kp : option mldsa_keypair_t;
  server_id : list byte;
  pending : option handshake_pending_store_t;
  rl : option ratelimit_t;
  policy : app_policy;
  next_sweep_ms : Z;
  app_now_unix : Z;
  counters : app_counter -> Z }.
#[global] Arguments App {_} _ _ _ _ _ _ _ _ _ _.

(** The cell [app->now_ms] of the world, which the main loop writes before each
    turn and nothing else writes. *)
Class AppClock (E : Env) := {
  now_ms : world -> Z;
  push_now_ms : Z -> world -> world }.

Section conn.
Context `{E : Env}.
Implicit Types (c : authd_conn_t) (a : authd_app_t).

(** Field updates. *)
Definition c_set_stage st c := AuthdConn st (c_hs c) (c_sess c) (c_pin_pk c) (c_pin_set c) (c_handle c) (c_handle_len c) (c_user_id c) (c_user_id_len c) (c_handshake_id c) (c_hsid_set c) (c_decoy c) (c_hs_live c) (c_rotated c).
Definition c_set_hs hs c := AuthdConn (c_stage c) hs (c_sess c) (c_pin_pk c) (c_pin_set c) (c_handle c) (c_handle_len c) (c_user_id c) (c_user_id_len c) (c_handshake_id c) (c_hsid_set c) (c_decoy c) (c_hs_live c) (c_rotated c).
Definition c_set_sess s c := AuthdConn (c_stage c) (c_hs c) s (c_pin_pk c) (c_pin_set c) (c_handle c) (c_handle_len c) (c_user_id c) (c_user_id_len c) (c_handshake_id c) (c_hsid_set c) (c_decoy c) (c_hs_live c) (c_rotated c).
Definition c_set_pin pk c := AuthdConn (c_stage c) (c_hs c) (c_sess c) pk true (c_handle c) (c_handle_len c) (c_user_id c) (c_user_id_len c) (c_handshake_id c) (c_hsid_set c) (c_decoy c) (c_hs_live c) (c_rotated c).
Definition c_set_handle h n c := AuthdConn (c_stage c) (c_hs c) (c_sess c) (c_pin_pk c) (c_pin_set c) h n (c_user_id c) (c_user_id_len c) (c_handshake_id c) (c_hsid_set c) (c_decoy c) (c_hs_live c) (c_rotated c).
Definition c_set_user u n c := AuthdConn (c_stage c) (c_hs c) (c_sess c) (c_pin_pk c) (c_pin_set c) (c_handle c) (c_handle_len c) u n (c_handshake_id c) (c_hsid_set c) (c_decoy c) (c_hs_live c) (c_rotated c).
Definition c_set_hsid h c := AuthdConn (c_stage c) (c_hs c) (c_sess c) (c_pin_pk c) (c_pin_set c) (c_handle c) (c_handle_len c) (c_user_id c) (c_user_id_len c) h true (c_decoy c) (c_hs_live c) (c_rotated c).
Definition c_set_decoy b c := AuthdConn (c_stage c) (c_hs c) (c_sess c) (c_pin_pk c) (c_pin_set c) (c_handle c) (c_handle_len c) (c_user_id c) (c_user_id_len c) (c_handshake_id c) (c_hsid_set c) b (c_hs_live c) (c_rotated c).
Definition c_set_live b c := AuthdConn (c_stage c) (c_hs c) (c_sess c) (c_pin_pk c) (c_pin_set c) (c_handle c) (c_handle_len c) (c_user_id c) (c_user_id_len c) (c_handshake_id c) (c_hsid_set c) (c_decoy c) b (c_rotated c).
Definition c_set_rotated c := AuthdConn (c_stage c) (c_hs c) (c_sess c) (c_pin_pk c) (c_pin_set c) (c_handle c) (c_handle_len c) (c_user_id c) (c_user_id_len c) (c_handshake_id c) (c_hsid_set c) (c_decoy c) (c_hs_live c) true.

Definition a_set_conns l a := App l (app_store a) (server_kp a) (server_id a) (pending a) (rl a) (policy a) (next_sweep_ms a) (app_now_unix a) (counters a).
Definition a_set_pending p a := App (conns a) (app_store a) (server_kp a) (server_id a) p (rl a) (policy a) (next_sweep_ms a) (app_now_unix a) (counters a).
Definition a_set_rl r a := App (conns a) (app_store a) (server_kp a) (server_id a) (pending a) r (policy a) (next_sweep_ms a) (app_now_unix a) (counters a).
Definition a_set_sweep t a := App (conns a) (app_store a) (server_kp a) (server_id a) (pending a) (rl a) (policy a) t (app_now_unix a) (counters a).
Definition a_set_unix t a := App (conns a) (app_store a) (server_kp a) (server_id a) (pending a) (rl a) (policy a) (next_sweep_ms a) t (counters a).
(** [app->k += n] on [uint64_t]. *)
Definition a_count k n a := App (conns a) (app_store a) (server_kp a) (server_id a) (pending a) (rl a) (policy a) (next_sweep_ms a) (app_now_unix a) (fun j => if decide (j = k) then u64 (counters a j + n) else counters a j).

(** A connection record of zero bytes, as the pool is allocated. *)
Definition conn_zero : authd_conn_t :=
  AuthdConn CONN_STAGE_FREE ctx_failed_zero session_zero (zeros STORE_PK_BYTES) false (zeros Store.STORE_ID_MAX) 0
    (zeros Store.STORE_ID_MAX) 0 (zeros STORE_HSID_BYTES) false false false false.

End conn.

(** ** Effects

    A handler acts on the application, one slot, that slot's connection record,
    the store's connection, the world and the journal. *)

Record st `{Env} := St {
  s_app : authd_app_t; s_slot : authd_slot_t; s_c : authd_conn_t; s_db : conn; s_w : world; s_log : list log_call }.
#[global] Arguments St {_} _ _ _ _ _ _.

Definition D `{Env} (A : Type) : Type := st -> A * st.
#[global] Instance D_ret `{Env} : MRet D := fun A x s => (x, s).
#[global] Instance D_bind `{Env} : MBind D := fun A B f m s => let '(x, s') := m s in f x s'.

Section effects.
Context `{E : Env}.

Definition get_app : D authd_app_t := fun s => (s_app s, s).
Definition get_slot : D authd_slot_t := fun s => (s_slot s, s).
Definition get_c : D authd_conn_t := fun s => (s_c s, s).
Definition on_app (f : authd_app_t -> authd_app_t) : D unit := fun s =>
  ((), St (f (s_app s)) (s_slot s) (s_c s) (s_db s) (s_w s) (s_log s)).
Definition on_slot (f : authd_slot_t -> authd_slot_t) : D unit := fun s =>
  ((), St (s_app s) (f (s_slot s)) (s_c s) (s_db s) (s_w s) (s_log s)).
Definition on_c (f : authd_conn_t -> authd_conn_t) : D unit := fun s =>
  ((), St (s_app s) (s_slot s) (f (s_c s)) (s_db s) (s_w s) (s_log s)).
(** A call of the library. *)
Definition lib {A} (m : M A) : D A := fun s =>
  let '(x, w) := m (s_w s) in (x, St (s_app s) (s_slot s) (s_c s) (s_db s) w (s_log s)).
(** A call of the store, with its out parameters initially [o]. *)
Definition sql {O A} (o : O) (m : T O A) : D ((store_status_t + A) * O) := fun s =>
  let '(r, o', k) := m o (s_db s) in ((r, o'), St (s_app s) (s_slot s) (s_c s) k (s_w s) (s_log s)).
Definition log (k : log_call) : D unit := fun s =>
  ((), St (s_app s) (s_slot s) (s_c s) (s_db s) (s_w s) (s_log s ++ [k])).
Definition bump (k : app_counter) : D unit := on_app (a_count k 1).

(** The journal's events about this slot. *)
Definition log_slot (l : authd_log_level_t) (ev : string) : D unit := s ← get_slot; log (authd_log_slot l (label ev) (sl_index s)).
Definition log_detail (l : authd_log_level_t) (ev why : string) : D unit :=
  s ← get_slot; log (authd_log_slot_detail l (label ev) (sl_index s) (label why)).
Definition log_id (l : authd_log_level_t) (ev : string) (id : list byte) : D unit :=
  s ← get_slot; log (authd_log_slot_id l (label ev) (sl_index s) id).
Definition log_addr (l : authd_log_level_t) (ev : string) (addr : authd_addr_t) (d : text) : D unit :=
  s ← get_slot; log (authd_log_slot_addr l (label ev) (sl_index s) addr d).

End effects.

(** ** The handlers *)

Definition ratelimit_verdict_name (v : ratelimit_verdict_t) : text :=
  label (match v with
         | RATELIMIT_ALLOW => "allow"
         | RATELIMIT_DENY_CONNS => "too-many-connections"
         | RATELIMIT_DENY_ADDR => "rate-limited"
         | RATELIMIT_DENY_GLOBAL => "global-rate-limited"
         | RATELIMIT_DENY_TABLE => "limiter-table-full"
         | RATELIMIT_DENY_NO_ADDR => "no-client-address"
         end).

Section handlers.
Context `{E : Env} `{AC : !AppClock E} `{EN : Engine} `{CK : Clock} `{SC : StoreCrypto}.
Context (spins : nat).

Definition authd_app_clock : M Z := fun w => (now_ms w, w).

Definition conn_of (a : authd_app_t) (slot : authd_slot_t) : option authd_conn_t :=
  if blen (conns a) <=? sl_index slot then None else conns a !! Z.to_nat (sl_index slot).

(** The pinned key, for the one identity the connection speaks for. *)
Definition authd_conn_pin_lookup (c : option authd_conn_t) (id : option (list byte)) : option (list byte) :=
  match c, id with
  | Some c, Some id =>
    if negb (c_pin_set c) || (blen id =? 0) || negb (blen id =? c_handle_len c) then None
    else if negb (memeq id (c_handle c) (blen id)) then None else Some (c_pin_pk c)
  | _, _ => None
  end.

Definition conn_reset : D unit :=
  _ ← on_c (fun c => c_set_sess (default session_zero (session_wipe (Some (c_sess c)))) c);
  c ← get_c;
  _ ← (if c_hs_live c then
         a ← get_app;
         r ← lib (handshake_ctx_wipe (Some (c_hs c)) (pending a));
         _ ← on_app (a_set_pending r.2);
         on_c (fun c => c_set_live false (c_set_hs (default ctx_failed_zero r.1) c))
       else mret ());
  on_c (fun c => AuthdConn CONN_STAGE_FREE (c_hs c) (c_sess c) (zeros STORE_PK_BYTES) false (zeros Store.STORE_ID_MAX) 0
                   (zeros Store.STORE_ID_MAX) 0 (zeros STORE_HSID_BYTES) false false (c_hs_live c) false).

Definition authd_conn_bind : D unit :=
  _ ← conn_reset;
  _ ← on_c (c_set_sess session_zero);
  _ ← on_c (c_set_stage CONN_STAGE_AWAIT_CH);
  on_slot (fun s => sl_set_user (Some (sl_index s)) s).

(** [conn_io_queue(&slot->io, ...)]: its status, the slot updated. *)
Definition queue (payload : list byte) (len : Z) : D conn_io_status_t :=
  s ← get_slot;
  let '(cs, io) := conn_io_queue (Some (sl_io s)) (Some payload) len in
  _ ← on_slot (sl_set_io (default (sl_io s) io));
  mret cs.

(** Two objects of one function do not overlap: the addresses below are far
    enough apart for the sizes involved. *)
Definition CONTENT_ADDR : Z := 0.
Definition RECORD_ADDR : Z := 2 ^ 20.

Definition queue_sealed (content : list byte) (content_len : Z) : D Z :=
  c ← get_c;
  r ← lib (session_seal (Some (c_sess c)) (Some (Buffer CONTENT_ADDR content)) content_len
             (Some (Buffer RECORD_ADDR (zeros AUTHD_MAX_RECORD))) AUTHD_MAX_RECORD (Some 0));
  let '(ss, sess, rec, rec_len) := r in
  _ ← on_c (c_set_sess (default (c_sess c) sess));
  if negb (bool_decide (ss = SESSION_OK)) then mret (-1) else
  cs ← queue (default [] (buf_bytes <$> rec)) (default 0 rec_len);
  mret (if bool_decide (cs = CONN_IO_OK) then 0 else -1).

Definition fail_with_error (code : Z) (why : string) : D ev_action_t :=
  let '(es, content, n) := authmsg_encode_error (Some (zeros AUTHMSG_ERROR_CONTENT_LEN)) AUTHMSG_ERROR_CONTENT_LEN (Some 0) (u8 code) in
  _ ← (if bool_decide (es = AUTHMSG_OK) then queue_sealed (default [] content) (default 0 n) else mret 0);
  _ ← log_detail AUTHD_LOG_INFO "record-refused" why;
  _ ← on_c (c_set_stage CONN_STAGE_CLOSING);
  mret EV_ACTION_CLOSE.

(** *** The pin *)

Definition mono_ns : M (option Z) :=
  r ← clock_gettime;
  mret (match r with Some (s, ns) => Some (u64 (u64 (u64 s * 1000000000) + u64 ns)) | None => None end).

(** The wait: until the floor has passed or the clock fails. *)
Fixpoint pin_wait (n : nat) (t0 t : Z) : M Z :=
  if u64 (t - t0) <? AUTHD_PIN_FLOOR_NS then
    match n with
    | O => mret t
    | S n => r ← mono_ns; match r with Some t' => pin_wait n t0 t' | None => mret t end
    end
  else mret t.

(** [pin], [pk] and the user id buffer with its length. *)
Definition authd_conn_resolve_pin (handle user_id : list byte) (user_id_len : Z) : D (Z * list byte * list byte * Z) :=
  a ← get_app;
  t0 ← lib mono_ns;
  r ← sql () (store_lookup_active (app_store a) (Some handle) true (Some Store.STORE_ID_MAX) false);
  let res := match r.1 with
             | inr (pk, uid, _) => Some (0, pk, poke 0 (bytes_of uid) user_id, blen (bytes_of uid))
             | inl _ => match store_get_decoy_pk (app_store a) true with
                        | inr pk => Some (1, pk, user_id, 0)
                        | inl _ => None
                        end
             end in
  match res with
  | None => mret (-1, zeros STORE_PK_BYTES, user_id, user_id_len)
  | Some res =>
    _ ← match t0 with
        | Some t0 => t ← lib mono_ns; match t with Some t => _ ← lib (pin_wait spins t0 t); mret () | None => mret () end
        | None => mret ()
        end;
    mret res
  end.

(** *** AWAIT_CH *)

(** The end of [on_client_hello]: the ServerHello is made and queued. *)
Definition send_server_hello : D ev_action_t :=
  a ← get_app;
  c ← get_c;
  r ← lib (handshake_responder_create_server_hello (Some (c_hs c)) (pending a) (Some (zeros AUTHD_FRAME_MAX))
             AUTHD_FRAME_MAX (Some 0));
  let '(hst, hs, ps, sh, sh_len) := r in
  _ ← on_c (c_set_hs (default (c_hs c) hs));
  _ ← on_app (a_set_pending ps);
  if negb (bool_decide (hst = HANDSHAKE_OK)) then
    _ ← log_detail AUTHD_LOG_WARN "server-hello-failed"
          (if bool_decide (hst = HANDSHAKE_ERR_RESOURCE_EXHAUSTED) then "ledger-full" else "kex");
    _ ← bump handshakes_failed;
    mret EV_ACTION_CLOSE
  else
  cs ← queue (default [] sh) (default 0 sh_len);
  if negb (bool_decide (cs = CONN_IO_OK)) then mret EV_ACTION_CLOSE else
  _ ← on_c (c_set_stage CONN_STAGE_AWAIT_CA);
  mret EV_ACTION_CONTINUE.

(** The middle of [on_client_hello]: the pin is set, the ClientHello accepted. *)
Definition answer_client_hello (payload : list byte) : D ev_action_t :=
  a ← get_app;
  c ← get_c;
  r ← lib (handshake_responder_init_ext (Some (c_hs c)) (Some (server_id a)) (server_kp a)
             (Some (fun id => mret (authd_conn_pin_lookup (Some c) (Some id)))) (pending a));
  _ ← on_c (c_set_hs (default (c_hs c) r.2));
  if negb (bool_decide (r.1 = HANDSHAKE_OK)) then
    _ ← log_slot AUTHD_LOG_ERROR "responder-init-failed"; mret EV_ACTION_CLOSE
  else
  _ ← on_c (c_set_live true);
  c ← get_c;
  r ← lib (handshake_responder_accept_client_hello (Some (c_hs c)) (Some payload));
  _ ← on_c (c_set_hs (default (c_hs c) r.2));
  if negb (bool_decide (r.1 = HANDSHAKE_OK)) then
    _ ← log_slot AUTHD_LOG_INFO "client-hello-rejected";
    _ ← bump handshakes_failed;
    mret EV_ACTION_CLOSE
  else
  send_server_hello.

Definition on_client_hello (payload : list byte) : D ev_action_t :=
  let '(rc, ch, _) := decode_client_hello (Some payload) (Some client_hello_zero) (Some 0) in
  let ch := default client_hello_zero ch in
  if negb (rc =? 0) then
    _ ← log_slot AUTHD_LOG_INFO "client-hello-malformed";
    _ ← bump handshakes_failed;
    mret EV_ACTION_CLOSE
  else
  let id := ztake (ch_id_len ch) (ch_id ch) in
  c ← get_c;
  r ← authd_conn_resolve_pin id (c_user_id c) (c_user_id_len c);
  let '(pin, pk, user_id, user_id_len) := r in
  _ ← on_c (c_set_user user_id user_id_len);
  if pin <? 0 then _ ← log_slot AUTHD_LOG_ERROR "decoy-unavailable"; mret EV_ACTION_CLOSE else
  _ ← (if pin =? 0 then on_c (c_set_decoy false)
       else _ ← on_c (fun c => c_set_user (c_user_id c) 0 (c_set_decoy true c)); bump decoy_pins);
  _ ← on_c (fun c => c_set_handle (poke 0 id (c_handle c)) (ch_id_len ch) c);
  _ ← log_id AUTHD_LOG_INFO "client-hello" id;
  _ ← on_c (c_set_pin pk);
  answer_client_hello payload.

(** *** AWAIT_CA *)

Definition handle_of (c : authd_conn_t) : list byte := ztake (c_handle_len c) (c_handle c).
Definition user_of (c : authd_conn_t) : list byte := ztake (c_user_id_len c) (c_user_id c).

(** Is the active key older than the configured cadence?  The age is a
    difference of [int64_t]. *)
Definition rotation_due : D bool :=
  a ← get_app;
  c ← get_c;
  if rotation_due_age_s (policy a) =? 0 then mret false else
  r ← sql () (store_active_key_age (app_store a) (Some (handle_of c)) true);
  mret (match r.1 with
        | inr valid_from => rotation_due_age_s (policy a) <=? app_now_unix a - valid_from
        | inl _ => false
        end).

(** The [state] of the WebSocket URL; the empty string on a raw listener. *)
Definition slot_state (s : authd_slot_t) : list byte :=
  if bool_decide (c_mode (sl_io s) = CONN_IO_MODE_WS)
  then ztake (ws_state_len (c_ws (sl_io s))) (ws_state (c_ws (sl_io s))) else [].

Definition issue_login_code : D Z :=
  a ← get_app;
  c ← get_c;
  let '(hst, hsid) := handshake_get_handshake_id (Some (c_hs c)) in
  if negb (bool_decide (hst = HANDSHAKE_OK)) then mret (-1) else
  let lim := default limits_zero (session_default_limits (Some limits_zero)) in
  let lim := SessionLimits (sl_rekey_after_messages lim) (sl_reject_after_messages lim) (sl_rekey_after_ms lim)
               (sl_reject_after_ms lim) (pad_bucket (policy a)) in
  r ← lib (session_init_from_handshake (Some (c_sess c)) (Some (c_hs c)) (Some lim) (Some authd_app_clock) (pending a));
  let '(ss, sess, hs, ps) := r in
  _ ← on_c (fun c => c_set_hs (default (c_hs c) hs) (c_set_sess (default (c_sess c) sess) c));
  _ ← on_app (a_set_pending ps);
  if negb (bool_decide (ss = SESSION_OK)) then mret (-1) else
  _ ← on_c (c_set_live false);
  _ ← on_c (c_set_hsid hsid);
  due ← rotation_due;
  code ← lib (randombytes_buf AUTHMSG_CODE_BYTES);
  let expires := u64 (app_now_unix a + code_ttl_s (policy a)) in
  let m := LoginCode (u8 (if due : bool then AUTHMSG_FLAG_ROTATION_DUE else 0)) code expires in
  slot ← get_slot;
  let code_hash := crypto_hash_sha256 code in
  let state_hash := crypto_hash_sha256 (slot_state slot) in
  c ← get_c;
  r ← sql () (store_add_login_code (app_store a) (Some code_hash) (Some (user_of c)) (Some (handle_of c)) (Some hsid)
                (Some state_hash) (app_now_unix a) (int64 expires));
  match r.1 with
  | inr _ =>
    let '(es, content, n) := authmsg_encode_login_code (Some (zeros AUTHMSG_LOGIN_CODE_CONTENT_LEN))
                               AUTHMSG_LOGIN_CODE_CONTENT_LEN (Some 0) (Some m) in
    if negb (bool_decide (es = AUTHMSG_OK)) then mret (-1) else
    q ← queue_sealed (default [] content) (default 0 n);
    mret (if q =? 0 then 0 else -1)
  | inl _ => mret (-1)
  end.

Definition retryable (hst : handshake_status_t) : bool :=
  match hst with
  | HANDSHAKE_ERR_MALFORMED | HANDSHAKE_ERR_HANDSHAKE_ID_MISMATCH | HANDSHAKE_ERR_SIGNATURE => true
  | _ => false
  end.

Definition on_client_auth (payload : list byte) : D ev_action_t :=
  a ← get_app;
  c ← get_c;
  r ← lib (handshake_responder_verify_client_auth (Some (c_hs c)) (pending a) (Some payload));
  let '(hst, hs, ps) := r in
  _ ← on_c (c_set_hs (default (c_hs c) hs));
  _ ← on_app (a_set_pending ps);
  if negb (bool_decide (hst = HANDSHAKE_OK)) then
    if retryable hst then _ ← log_slot AUTHD_LOG_INFO "client-auth-retryable"; mret EV_ACTION_CONTINUE
    else
      _ ← log_slot AUTHD_LOG_INFO "client-auth-failed";
      _ ← bump handshakes_failed;
      mret EV_ACTION_CLOSE
  else
  c ← get_c;
  let '(fst_, hs) := handshake_responder_finish (Some (c_hs c)) in
  _ ← on_c (c_set_hs (default (c_hs c) hs));
  if negb (bool_decide (fst_ = HANDSHAKE_OK)) || negb (handshake_is_peer_confirmed hs) then
    _ ← bump handshakes_failed; mret EV_ACTION_CLOSE
  else
  c ← get_c;
  if c_decoy c || (c_user_id_len c =? 0) then
    _ ← log_slot AUTHD_LOG_ERROR "authenticated-without-identity"; mret EV_ACTION_CLOSE
  else
  rc ← issue_login_code;
  if negb (rc =? 0) then _ ← log_slot AUTHD_LOG_ERROR "login-code-failed"; mret EV_ACTION_CLOSE else
  c ← get_c;
  _ ← sql () (store_touch_last_seen (app_store a) (Some (handle_of c)));
  _ ← bump logins_issued;
  slot ← get_slot;
  now ← lib authd_app_clock;
  _ ← (if sl_addr_admitted slot then
         on_app (fun a => a_set_rl (ratelimit_refund (rl a) (Some (conn_io_client_addr (Some (sl_io slot)))) now) a)
       else mret ());
  _ ← log_id AUTHD_LOG_INFO "login-code-issued" (handle_of c);
  _ ← on_c (c_set_stage CONN_STAGE_SERVING);
  mret EV_ACTION_CONTINUE.

(** *** SERVING *)

Definition DIGEST_BYTES : Z := 32.

Definition on_rotate (pt : list byte) : D ev_action_t :=
  a ← get_app;
  c ← get_c;
  if c_rotated c then fail_with_error AUTHMSG_ERR_NOT_PERMITTED "rotate-already-done" else
  if negb (c_hsid_set c) || c_decoy c then fail_with_error AUTHMSG_ERR_NOT_PERMITTED "rotate-no-session-binding" else
  let '(ds, m) := authmsg_decode_rotate (Some pt) (Some rotate_zero) in
  let m := default rotate_zero m in
  if negb (bool_decide (ds = AUTHMSG_OK)) then fail_with_error AUTHMSG_ERR_MALFORMED "rotate-malformed" else
  match authd_conn_pin_lookup (Some c) (Some (handle_of c)) with
  | None => fail_with_error AUTHMSG_ERR_INTERNAL "rotate-no-pin"
  | Some pk_old =>
    let reject := fail_with_error AUTHMSG_ERR_REJECTED in
    let field p n := default [] (follow pt p n) in
    let pk_new := field (rt_pk_new m) MLDSA_PUBLIC_KEY_BYTES in
    if negb (rt_handle_len m =? c_handle_len c) ||
       negb (memeq (field (rt_handle m) (rt_handle_len m)) (c_handle c) (c_handle_len c))
    then reject "rotate-wrong-handle"%string else
    let digest lbl := authmsg_rotate_digest (Some (zeros DIGEST_BYTES)) (Some lbl) (Some (c_handshake_id c)) (rt_flags m)
                        (Some (c_handle c)) (c_handle_len c) (Some pk_old) (Some pk_new) in
    let '(gs, d_old) := digest AUTHMSG_LABEL_ROTATE_OLD in
    if negb (bool_decide (gs = AUTHMSG_OK)) then reject "rotate-digest"%string else
    v ← lib (mldsa_verify (default [] d_old) (field (rt_sig_old m) (rt_sig_old_len m)) (Some pk_old));
    if negb (v =? 0) then reject "rotate-sig-old"%string else
    let '(gs, d_new) := digest AUTHMSG_LABEL_ROTATE_NEW in
    if negb (bool_decide (gs = AUTHMSG_OK)) then reject "rotate-digest"%string else
    v ← lib (mldsa_verify (default [] d_new) (field (rt_sig_new m) (rt_sig_new_len m)) (Some pk_new));
    if negb (v =? 0) then reject "rotate-sig-new"%string else
    let drop := negb (Z.land (bz (rt_flags m)) AUTHMSG_FLAG_ROTATE_DROP_TOKENS =? 0) in
    r ← sql (RotateOut 0 0) (store_rotate_key (app_store a) (Some (handle_of c)) (Some pk_new) (Some pk_old)
                               (Some (c_handshake_id c)) drop (app_now_unix a));
    match r.1 with
    | inl rs =>
      if bool_decide (rs = STORE_ERR_DB) then fail_with_error AUTHMSG_ERR_INTERNAL "rotate-store-error"
      else reject "rotate-store-refused"%string
    | inr _ =>
      let rotated_at := rotated_at_out r.2 in
      let dropped := dropped_out r.2 in
      let fp_old := crypto_hash_sha256 pk_old in
      let fp_new := crypto_hash_sha256 pk_new in
      _ ← log (authd_log_fp AUTHD_LOG_INFO (label "rotate-fp-old") fp_old);
      _ ← log (authd_log_fp AUTHD_LOG_INFO (label "rotate-fp-new") fp_new);
      _ ← log_id AUTHD_LOG_INFO "rotate" (handle_of c);
      _ ← (if 0 <? dropped then log (authd_log_num AUTHD_LOG_INFO (label "rotate-tokens-dropped") (label "count") dropped)
           else mret ());
      let cap := AUTHMSG_ROTATE_ACK_CONTENT_LEN Store.STORE_ID_MAX in
      let '(es, ack, n) := authmsg_encode_rotate_ack (Some (zeros cap)) cap (Some 0) (Some (c_handle c)) (c_handle_len c)
                             (Some fp_new) (u64 rotated_at) in
      q ← (if bool_decide (es = AUTHMSG_OK) then queue_sealed (default [] ack) (default 0 n) else mret (-1));
      if negb (q =? 0) then fail_with_error AUTHMSG_ERR_INTERNAL "rotate-ack-failed" else
      _ ← on_c c_set_rotated;
      _ ← bump rotations;
      mret EV_ACTION_CONTINUE
    end
  end.

Definition on_record (payload : list byte) : D ev_action_t :=
  if AUTHD_MAX_RECORD <? blen payload then fail_with_error AUTHMSG_ERR_MALFORMED "record-over-cap" else
  c ← get_c;
  r ← lib (session_open (Some (c_sess c)) (Some (Buffer CONTENT_ADDR payload)) (Some (Buffer RECORD_ADDR (zeros AUTHD_MAX_RECORD)))
             AUTHD_MAX_RECORD (Some 0));
  let '(ss, sess, pt, pt_len) := r in
  _ ← on_c (c_set_sess (default (c_sess c) sess));
  if negb (bool_decide (ss = SESSION_OK)) then
    _ ← log_slot AUTHD_LOG_INFO "record-rejected";
    _ ← on_c (c_set_stage CONN_STAGE_CLOSING);
    mret EV_ACTION_CLOSE
  else
  let pt := ztake (default 0 pt_len) (default [] (buf_bytes <$> pt)) in
  let '(as_, op) := authmsg_peek_op (Some pt) (Some x00) in
  let op := bz (default x00 op) in
  if negb (bool_decide (as_ = AUTHMSG_OK)) then fail_with_error AUTHMSG_ERR_MALFORMED "empty-content" else
  if op =? AUTHMSG_OP_BYE then
    if negb (blen pt =? AUTHMSG_BYE_CONTENT_LEN) then fail_with_error AUTHMSG_ERR_MALFORMED "bye-bad-length" else
    _ ← log_slot AUTHD_LOG_INFO "bye";
    _ ← on_c (c_set_stage CONN_STAGE_CLOSING);
    mret EV_ACTION_CLOSE
  else if op =? AUTHMSG_OP_ROTATE then on_rotate pt
  else fail_with_error AUTHMSG_ERR_NOT_PERMITTED "op-not-permitted".

(** ** The callbacks of the event loop *)

Definition on_frame_body (payload : list byte) : D ev_action_t :=
  slot ← get_slot;
  c ← get_c;
  _ ← (if negb (bool_decide (sl_user slot = Some (sl_index slot))) || bool_decide (c_stage c = CONN_STAGE_FREE)
       then authd_conn_bind else mret ());
  c ← get_c;
  match c_stage c with
  | CONN_STAGE_AWAIT_CH => on_client_hello payload
  | CONN_STAGE_AWAIT_CA => on_client_auth payload
  | CONN_STAGE_SERVING => on_record payload
  | _ => mret EV_ACTION_CLOSE
  end.

(** What the callbacks act on besides the slot they are given. *)
Record sys := Sys { y_app : authd_app_t; y_db : conn; y_w : world; y_log : list log_call }.

(** Runs a handler on the connection record of a slot. *)
Definition run_conn {A} (slot : authd_slot_t) (c : authd_conn_t) (m : D A) (y : sys) : A * authd_slot_t * sys :=
  let '(x, s) := m (St (y_app y) slot c (y_db y) (y_w y) (y_log y)) in
  (x, s_slot s,
   Sys (a_set_conns (<[Z.to_nat (sl_index slot) := s_c s]> (conns (s_app s))) (s_app s)) (s_db s) (s_w s) (s_log s)).

Definition authd_conn_on_frame (slot : authd_slot_t) (payload : option (list byte)) (y : sys)
    : ev_action_t * authd_slot_t * sys :=
  match conn_of (y_app y) slot, payload with
  | Some c, Some payload => run_conn slot c (on_frame_body payload) y
  | _, _ => (EV_ACTION_CLOSE, slot, y)
  end.

Definition y_logged (k : log_call) (y : sys) : sys := Sys (y_app y) (y_db y) (y_w y) (y_log y ++ [k]).
Definition y_on_app (f : authd_app_t -> authd_app_t) (y : sys) : sys := Sys (f (y_app y)) (y_db y) (y_w y) (y_log y).

Definition authd_conn_on_addr (slot : authd_slot_t) (y : sys) : ev_action_t * authd_slot_t * sys :=
  let addr := conn_io_client_addr (Some (sl_io slot)) in
  let logged l ev d := y_logged (authd_log_slot_addr l (label ev) (sl_index slot) addr d) in
  if aa_family addr =? 0 then
    (EV_ACTION_CLOSE, sl_set_io (default (sl_io slot) (conn_io_ws_silence (Some (sl_io slot)))) slot,
     logged AUTHD_LOG_WARN "refused-no-client-address"%string (label "fail-closed") (y_on_app (a_count refused_no_address 1) y))
  else
  match rl (y_app y) with
  | None => (EV_ACTION_CONTINUE, slot, logged AUTHD_LOG_INFO "client-address"%string (label "unlimited") y)
  | Some r =>
    let '(v, r') := ratelimit_admit (Some r) (Some addr) (now_ms (y_w y)) in
    let y := y_on_app (a_set_rl r') y in
    match v with
    | RATELIMIT_ALLOW =>
      (EV_ACTION_CONTINUE, sl_set_admitted true slot, logged AUTHD_LOG_INFO "client-address"%string (label "admitted") y)
    | _ =>
      let code := match v with RATELIMIT_DENY_TABLE => 503 | _ => 429 end in
      (EV_ACTION_CLOSE, sl_set_io (default (sl_io slot) (conn_io_ws_refuse (Some (sl_io slot)) code).2) slot,
       logged AUTHD_LOG_WARN "refused-rate-limited"%string (ratelimit_verdict_name v) (y_on_app (a_count refused_rate 1) y))
    end
  end.

Definition authd_conn_on_close (slot : authd_slot_t) (y : sys) : authd_slot_t * sys :=
  let '(_, slot, y) := match conn_of (y_app y) slot with
                       | Some c => run_conn slot c conn_reset y
                       | None => ((), slot, y)
                       end in
  let addr := conn_io_client_addr (Some (sl_io slot)) in
  let '(slot, y) := if sl_addr_admitted slot && is_some (rl (y_app y)) then
                      (sl_set_admitted false slot, y_on_app (fun a => a_set_rl (ratelimit_release (rl a) (Some addr)) a) y)
                    else (slot, y) in
  (sl_set_user None slot, y).

(** ** The periodic sweep *)

Definition authd_app_maybe_sweep (y : sys) : sys :=
  let a := y_app y in
  let now := now_ms (y_w y) in
  match app_store a with
  | None => y
  | Some _ =>
    if negb (next_sweep_ms a =? 0) && (now <? next_sweep_ms a) then y else
    let y := y_on_app (a_set_sweep (u64 (now + TOKEN_SWEEP_INTERVAL_MS))) y in
    let '(r, sc, k) := store_sweep (app_store a) (app_now_unix a) true (SweepCounts 0 0 0) (y_db y) in
    let y := Sys (y_app y) k (y_w y) (y_log y) in
    match r with
    | inl _ => y_logged (authd_log_event AUTHD_LOG_WARN (label "sweep-failed")) y
    | inr _ =>
      let y := y_on_app (fun a => a_count swept_tickets (sw_tickets sc) (a_count swept_codes (sw_login_codes sc)
                                    (a_count swept_tokens (sw_tokens sc) a))) y in
      if (sw_tokens sc =? 0) && (sw_login_codes sc =? 0) && (sw_tickets sc =? 0) then y else
      y_logged (authd_log_num AUTHD_LOG_INFO (label "swept") (label "tickets") (sw_tickets sc))
        (y_logged (authd_log_num AUTHD_LOG_INFO (label "swept") (label "codes") (sw_login_codes sc))
          (y_logged (authd_log_num AUTHD_LOG_INFO (label "swept") (label "tokens") (sw_tokens sc)) y))
    end
  end.

End handlers.

(** ** Symbolic execution of the handlers *)

Section run.
Context `{E : Env}.
Context {A : Type}.
Implicit Types (a : authd_app_t) (c : authd_conn_t) (sl : authd_slot_t) (k : conn) (w : world) (lg : list log_call).

Lemma D_bind_unfold {B} (f : B -> D A) (m : D B) s : (m ≫= f) s = f (m s).1 (m s).2.
Proof. unfold mbind, D_bind. by destruct (m s). Qed.

Lemma D_bind_assoc {B C} (f : B -> D C) (g : C -> D A) (m : D B) s : ((m ≫= f) ≫= g) s = (m ≫= fun x => f x ≫= g) s.
Proof. unfold mbind, D_bind. by destruct (m s). Qed.

Lemma run_ret {B} (f : B -> D A) x s : (mret x ≫= f) s = f x s.
Proof. done. Qed.
Lemma run_get_app (f : authd_app_t -> D A) a sl c k w lg :
  (get_app ≫= f) (St a sl c k w lg) = f a (St a sl c k w lg).
Proof. done. Qed.
Lemma run_get_slot (f : authd_slot_t -> D A) a sl c k w lg :
  (get_slot ≫= f) (St a sl c k w lg) = f sl (St a sl c k w lg).
Proof. done. Qed.
Lemma run_get_c (f : authd_conn_t -> D A) a sl c k w lg :
  (get_c ≫= f) (St a sl c k w lg) = f c (St a sl c k w lg).
Proof. done. Qed.
Lemma run_on_app (f : unit -> D A) g a sl c k w lg :
  (on_app g ≫= f) (St a sl c k w lg) = f () (St (g a) sl c k w lg).
Proof. done. Qed.
Lemma run_bump (f : unit -> D A) n a sl c k w lg :
  (bump n ≫= f) (St a sl c k w lg) = f () (St (a_count n 1 a) sl c k w lg).
Proof. done. Qed.
Lemma run_on_slot (f : unit -> D A) g a sl c k w lg :
  (on_slot g ≫= f) (St a sl c k w lg) = f () (St a (g sl) c k w lg).
Proof. done. Qed.
Lemma run_on_c (f : unit -> D A) g a sl c k w lg :
  (on_c g ≫= f) (St a sl c k w lg) = f () (St a sl (g c) k w lg).
Proof. done. Qed.
Lemma run_lib {B} (f : B -> D A) (m : M B) a sl c k w lg :
  (lib m ≫= f) (St a sl c k w lg) = f (m w).1 (St a sl c k (m w).2 lg).
Proof. unfold mbind, D_bind, lib. cbn. by destruct (m w). Qed.
Lemma run_sql {O B} (f : (store_status_t + B) * O -> D A) o (m : T O B) a sl c k w lg :
  (sql o m ≫= f) (St a sl c k w lg) = f (m o k).1 (St a sl c (m o k).2 w lg).
Proof. unfold mbind, D_bind, sql. cbn. by destruct (m o k) as [[? ?] ?]. Qed.
Lemma run_log (f : unit -> D A) x a sl c k w lg :
  (log x ≫= f) (St a sl c k w lg) = f () (St a sl c k w (lg ++ [x])).
Proof. done. Qed.
Lemma run_log_slot (f : unit -> D A) l ev a sl c k w lg :
  (log_slot l ev ≫= f) (St a sl c k w lg) = f () (St a sl c k w (lg ++ [authd_log_slot l (label ev) (sl_index sl)])).
Proof. done. Qed.
Lemma run_log_detail (f : unit -> D A) l ev y a sl c k w lg :
  (log_detail l ev y ≫= f) (St a sl c k w lg) =
  f () (St a sl c k w (lg ++ [authd_log_slot_detail l (label ev) (sl_index sl) (label y)])).
Proof. done. Qed.
Lemma run_log_id (f : unit -> D A) l ev y a sl c k w lg :
  (log_id l ev y ≫= f) (St a sl c k w lg) =
  f () (St a sl c k w (lg ++ [authd_log_slot_id l (label ev) (sl_index sl) y])).
Proof. done. Qed.
Lemma run_queue (f : conn_io_status_t -> D A) p n a sl c k w lg :
  (queue p n ≫= f) (St a sl c k w lg) =
  f (conn_io_queue (Some (sl_io sl)) (Some p) n).1
    (St a (sl_set_io (default (sl_io sl) (conn_io_queue (Some (sl_io sl)) (Some p) n).2) sl) c k w lg).
Proof.
  unfold queue. rewrite D_bind_assoc. unfold mbind, D_bind, get_slot. cbn [fst snd s_slot].
  by destruct (conn_io_queue _ _ _).
Qed.

End run.

(** One step of a handler in an explicit state. *)
Ltac drun :=
  first
    [ rewrite run_get_c | rewrite run_get_app | rewrite run_get_slot | rewrite run_on_c | rewrite run_on_app | rewrite run_on_slot
    | rewrite run_lib | rewrite run_sql | rewrite run_log_slot | rewrite run_log_id | rewrite run_log_detail | rewrite run_log
    | rewrite run_bump | rewrite run_queue | rewrite run_ret | rewrite D_bind_assoc ].

(** ** What the handlers leave alone

    A preorder on states that every step of a handler respects is respected by
    the handler.  A handler needs only the steps it makes. *)

Create HintDb moves.

Section moves.
Context `{E : Env} `{AC : !AppClock E} `{EN : Engine} `{CK : Clock} `{SC : StoreCrypto}.
Context (spins : nat) (Q : relation st) `{!PreOrder Q}.

Definition moves {A} (m : D A) : Prop := forall s, Q s (m s).2.

Lemma moves_bind {A B} (f : A -> D B) (m : D A) : moves m -> (forall x, moves (f x)) -> moves (m ≫= f).
Proof. intros Hm Hf s. rewrite D_bind_unfold. etransitivity; [apply Hm|apply Hf]. Qed.
Lemma moves_ret {A} (x : A) : moves (mret x).
Proof. intros s. reflexivity. Qed.
Lemma moves_get_app : moves get_app.
Proof. intros s. reflexivity. Qed.
Lemma moves_get_slot : moves get_slot.
Proof. intros s. reflexivity. Qed.
Lemma moves_get_c : moves get_c.
Proof. intros s. reflexivity. Qed.

Hypothesis moves_on_slot : forall f, moves (on_slot f).
Hypothesis moves_c_sess : forall x, moves (on_c (c_set_sess x)).
Hypothesis moves_c_closing : moves (on_c (c_set_stage CONN_STAGE_CLOSING)).
Hypothesis moves_c_rotated : moves (on_c c_set_rotated).
Hypothesis moves_lib : forall A (m : M A), moves (lib m).
Hypothesis moves_log : forall k, moves (log k).
Hypothesis moves_pending : forall p, moves (on_app (a_set_pending p)).
Hypothesis moves_bump : forall k, moves (bump k).
Hypothesis moves_rl : forall f, moves (on_app (fun a => a_set_rl (f a) a)).
Hypothesis moves_lookup : forall st h, moves (sql () (store_lookup_active st h true (Some Store.STORE_ID_MAX) false)).
Hypothesis moves_age : forall st h, moves (sql () (store_active_key_age st h true)).
Hypothesis moves_add_code : forall st code u h hs state i e, moves (sql () (store_add_login_code st code u h hs state i e)).
Hypothesis moves_touch : forall st h, moves (sql () (store_touch_last_seen st h)).
Hypothesis moves_rotate_key : forall st h pk old hs drop now,
  moves (sql (RotateOut 0 0) (store_rotate_key st h pk old hs drop now)).

#[local] Hint Resolve moves_ret moves_get_app moves_get_slot moves_get_c moves_on_slot moves_c_sess moves_c_closing moves_c_rotated moves_lib
  moves_log moves_pending moves_bump moves_rl moves_lookup moves_age moves_add_code moves_touch moves_rotate_key : moves.

(** Walks through a handler. *)
Ltac walk := repeat first [ solve [auto with moves] | apply moves_bind; [|intros] | case_match | progress cbv zeta ].

Lemma moves_log_slot l ev : moves (log_slot l ev).
Proof. unfold log_slot. walk. Qed.
Lemma moves_log_detail l ev y : moves (log_detail l ev y).
Proof. unfold log_detail. walk. Qed.
Lemma moves_log_id l ev y : moves (log_id l ev y).
Proof. unfold log_id. walk. Qed.
Lemma moves_queue p n : moves (queue p n).
Proof. unfold queue. walk. Qed.
#[local] Hint Resolve moves_log_slot moves_log_detail moves_log_id moves_queue : moves.
Lemma moves_queue_sealed p n : moves (queue_sealed p n).
Proof. unfold queue_sealed. walk. Qed.
#[local] Hint Resolve moves_queue_sealed : moves.
Lemma moves_fail code why : moves (fail_with_error code why).
Proof. unfold fail_with_error. walk. Qed.
#[local] Hint Resolve moves_fail : moves.
Lemma moves_on_rotate p : moves (on_rotate p).
Proof. unfold on_rotate. walk. Qed.
#[local] Hint Resolve moves_on_rotate : moves.
Lemma moves_record p : moves (on_record p).
Proof. unfold on_record. walk. Qed.
#[local] Hint Resolve moves_record : moves.

Hypothesis moves_c_stage : forall x, moves (on_c (c_set_stage x)).
Hypothesis moves_c_hs : forall x, moves (on_c (c_set_hs x)).
Hypothesis moves_c_live : forall x, moves (on_c (c_set_live x)).
Hypothesis moves_c_hsid : forall x, moves (on_c (c_set_hsid x)).
#[local] Hint Resolve moves_c_stage moves_c_hs moves_c_live moves_c_hsid : moves.

Lemma moves_rotation_due : moves rotation_due.
Proof. unfold rotation_due. walk. Qed.
#[local] Hint Resolve moves_rotation_due : moves.
Lemma moves_send : moves send_server_hello.
Proof. unfold send_server_hello. walk. Qed.
#[local] Hint Resolve moves_send : moves.
Lemma moves_answer p : moves (answer_client_hello p).
Proof. unfold answer_client_hello. walk. Qed.
#[local] Hint Resolve moves_answer : moves.
Lemma moves_c_keys (f g : authd_conn_t -> _) : moves (on_c (fun c => c_set_hs (f c) (c_set_sess (g c) c))).
Proof. intros [a sl c k w lg]. etransitivity; [apply (moves_c_sess (g c))|apply (moves_c_hs (f c))]. Qed.
#[local] Hint Resolve moves_c_keys : moves.
Lemma moves_issue : moves issue_login_code.
Proof. unfold issue_login_code. walk. Qed.
#[local] Hint Resolve moves_issue : moves.
Lemma moves_auth p : moves (on_client_auth p).
Proof. unfold on_client_auth. walk. Qed.
#[local] Hint Resolve moves_auth : moves.

Hypothesis moves_on_c : forall f, moves (on_c f).
#[local] Hint Resolve moves_on_c : moves.

Lemma moves_reset : moves conn_reset.
Proof. unfold conn_reset. walk. Qed.
#[local] Hint Resolve moves_reset : moves.
Lemma moves_conn_bind : moves authd_conn_bind.
Proof. unfold authd_conn_bind. walk. Qed.
Lemma moves_resolve h u n : moves (authd_conn_resolve_pin spins h u n).
Proof. unfold authd_conn_resolve_pin. walk. Qed.
#[local] Hint Resolve moves_conn_bind moves_resolve : moves.
Lemma moves_hello p : moves (on_client_hello spins p).
Proof. unfold on_client_hello. walk. Qed.
#[local] Hint Resolve moves_hello : moves.
Lemma moves_frame p : moves (on_frame_body spins p).
Proof. unfold on_frame_body. walk. Qed.

End moves.

(** A handler changes the application by registering in the ledger, counting
    and the rate limiter only. *)
Section moves_app.
Context `{E : Env} `{AC : !AppClock E} `{EN : Engine} `{CK : Clock} `{SC : StoreCrypto}.
Context (spins : nat) (Q : relation authd_app_t) `{!PreOrder Q}.

#[local] Instance app_preorder : PreOrder (fun s s' : st => Q (s_app s) (s_app s')).
Proof. split; [intros s|intros s1 s2 s3 ? ?; etransitivity; eauto]. reflexivity. Qed.

Lemma lib_app {A} (m : M A) s : s_app (lib m s).2 = s_app s.
Proof. unfold lib. by destruct (m (s_w s)). Qed.
Lemma sql_app {O A} (o : O) (m : T O A) s : s_app (sql o m s).2 = s_app s.
Proof. unfold sql. by destruct (m o (s_db s)) as [[? ?] ?]. Qed.

Lemma frame_app p s :
  (forall p a, Q a (a_set_pending p a)) -> (forall k n a, Q a (a_count k n a)) -> (forall r a, Q a (a_set_rl r a)) ->
  Q (s_app s) (s_app (on_frame_body spins p s).2).
Proof.
  intros Hp Hc Hr. revert s. change (moves (fun s s' => Q (s_app s) (s_app s')) (on_frame_body spins p)).
  apply moves_frame; [apply _|..]; try (intros; intros s; rewrite ?lib_app, ?sql_app; reflexivity).
  - intros q s. apply Hp.
  - intros k s. apply Hc.
  - intros f s. apply Hr.
Qed.
End moves_app.
