(* ===== verification/HandshakePin.v ===== *)
(** * The responder's handshake does not depend on the pinned key

    Until a ClientAuth verifies, nothing the responder's side of the handshake
    sends, stores or returns depends on which public key it authenticates the
    peer against. *)

From S2P Require Import Prelude Extern Crypto Transcript Pending Handshake HandshakeProps.

(** ** Handshake contexts that differ in the pinned key only *)

Section pinned.
Context `{E : Env}.
Implicit Types (c : handshake_ctx_t) (ps : option handshake_pending_store_t).

Definition pinned (f : option (list byte -> M (option (list byte)))) (pk : option (list byte)) c : handshake_ctx_t :=
  HandshakeCtx _ (hc_role c) (hc_state c) (hc_local_id c) (hc_local_id_len c) (hc_local_keypair c) (hc_keystore c) f
    (hc_pending c) (hc_peer_id c) (hc_peer_id_len c) pk (hc_session_id c) (hc_ch_bytes c) (hc_ch_len c)
    (hc_peer_eph_pub c) (hc_handshake_id c) (hc_th_client_auth c) (hc_eph c) (hc_kem c) (hc_peer_mlkem_ct c)
    (hc_ss_kem c) (hc_session_keys c) (hc_keys_committed c).

Lemma pinned_self c : pinned (hc_lookup_fn c) (hc_peer_pk c) c = c.
Proof. by destruct c. Qed.

(** The setters and the other fields do not see the pin. *)
Lemma pinned_set_state f pk c x : set_state (pinned f pk c) x = pinned f pk (set_state c x).
Proof. done. Qed.
Lemma pinned_set_pending f pk c x : set_pending (pinned f pk c) x = pinned f pk (set_pending c x).
Proof. done. Qed.
Lemma pinned_set_session_id f pk c x : set_session_id (pinned f pk c) x = pinned f pk (set_session_id c x).
Proof. done. Qed.
Lemma pinned_set_peer_eph_pub f pk c x : set_peer_eph_pub (pinned f pk c) x = pinned f pk (set_peer_eph_pub c x).
Proof. done. Qed.
Lemma pinned_set_handshake_id f pk c x : set_handshake_id (pinned f pk c) x = pinned f pk (set_handshake_id c x).
Proof. done. Qed.
Lemma pinned_set_th_client_auth f pk c x : set_th_client_auth (pinned f pk c) x = pinned f pk (set_th_client_auth c x).
Proof. done. Qed.
Lemma pinned_set_eph f pk c x : set_eph (pinned f pk c) x = pinned f pk (set_eph c x).
Proof. done. Qed.
Lemma pinned_set_kem f pk c x : set_kem (pinned f pk c) x = pinned f pk (set_kem c x).
Proof. done. Qed.
Lemma pinned_set_peer_mlkem_ct f pk c x : set_peer_mlkem_ct (pinned f pk c) x = pinned f pk (set_peer_mlkem_ct c x).
Proof. done. Qed.
Lemma pinned_set_ss_kem f pk c x : set_ss_kem (pinned f pk c) x = pinned f pk (set_ss_kem c x).
Proof. done. Qed.
Lemma pinned_set_peer f pk c x y : set_peer (pinned f pk c) x y = pinned f pk (set_peer c x y).
Proof. done. Qed.
Lemma pinned_set_ch f pk c x y : set_ch (pinned f pk c) x y = pinned f pk (set_ch c x y).
Proof. done. Qed.
Lemma pinned_set_keys f pk c x y : set_keys (pinned f pk c) x y = pinned f pk (set_keys c x y).
Proof. done. Qed.
Lemma pinned_hc_role f pk c : hc_role (pinned f pk c) = hc_role c.
Proof. done. Qed.
Lemma pinned_hc_state f pk c : hc_state (pinned f pk c) = hc_state c.
Proof. done. Qed.
Lemma pinned_hc_local_id f pk c : hc_local_id (pinned f pk c) = hc_local_id c.
Proof. done. Qed.
Lemma pinned_hc_local_id_len f pk c : hc_local_id_len (pinned f pk c) = hc_local_id_len c.
Proof. done. Qed.
Lemma pinned_hc_local_keypair f pk c : hc_local_keypair (pinned f pk c) = hc_local_keypair c.
Proof. done. Qed.
Lemma pinned_hc_keystore f pk c : hc_keystore (pinned f pk c) = hc_keystore c.
Proof. done. Qed.
Lemma pinned_hc_pending f pk c : hc_pending (pinned f pk c) = hc_pending c.
Proof. done. Qed.
Lemma pinned_hc_peer_id f pk c : hc_peer_id (pinned f pk c) = hc_peer_id c.
Proof. done. Qed.
Lemma pinned_hc_peer_id_len f pk c : hc_peer_id_len (pinned f pk c) = hc_peer_id_len c.
Proof. done. Qed.
Lemma pinned_hc_session_id f pk c : hc_session_id (pinned f pk c) = hc_session_id c.
Proof. done. Qed.
Lemma pinned_hc_ch_bytes f pk c : hc_ch_bytes (pinned f pk c) = hc_ch_bytes c.
Proof. done. Qed.
Lemma pinned_hc_ch_len f pk c : hc_ch_len (pinned f pk c) = hc_ch_len c.
Proof. done. Qed.
Lemma pinned_hc_peer_eph_pub f pk c : hc_peer_eph_pub (pinned f pk c) = hc_peer_eph_pub c.
Proof. done. Qed.
Lemma pinned_hc_handshake_id f pk c : hc_handshake_id (pinned f pk c) = hc_handshake_id c.
Proof. done. Qed.
Lemma pinned_hc_th_client_auth f pk c : hc_th_client_auth (pinned f pk c) = hc_th_client_auth c.
Proof. done. Qed.
Lemma pinned_hc_eph f pk c : hc_eph (pinned f pk c) = hc_eph c.
Proof. done. Qed.
Lemma pinned_hc_kem f pk c : hc_kem (pinned f pk c) = hc_kem c.
Proof. done. Qed.
Lemma pinned_hc_peer_mlkem_ct f pk c : hc_peer_mlkem_ct (pinned f pk c) = hc_peer_mlkem_ct c.
Proof. done. Qed.
Lemma pinned_hc_ss_kem f pk c : hc_ss_kem (pinned f pk c) = hc_ss_kem c.
Proof. done. Qed.
Lemma pinned_hc_session_keys f pk c : hc_session_keys (pinned f pk c) = hc_session_keys c.
Proof. done. Qed.
Lemma pinned_hc_keys_committed f pk c : hc_keys_committed (pinned f pk c) = hc_keys_committed c.
Proof. done. Qed.
#[local] Hint Rewrite pinned_set_state pinned_set_pending pinned_set_session_id pinned_set_peer_eph_pub pinned_set_handshake_id pinned_set_th_client_auth pinned_set_eph pinned_set_kem pinned_set_peer_mlkem_ct pinned_set_ss_kem pinned_set_peer pinned_set_ch pinned_set_keys pinned_hc_role pinned_hc_state pinned_hc_local_id pinned_hc_local_id_len pinned_hc_local_keypair pinned_hc_keystore pinned_hc_pending pinned_hc_peer_id pinned_hc_peer_id_len pinned_hc_session_id pinned_hc_ch_bytes pinned_hc_ch_len pinned_hc_peer_eph_pub pinned_hc_handshake_id pinned_hc_th_client_auth pinned_hc_eph pinned_hc_kem pinned_hc_peer_mlkem_ct pinned_hc_ss_kem pinned_hc_session_keys pinned_hc_keys_committed : pinned.

Lemma pinned_fail_ctx f pk c why : fail_ctx (pinned f pk c) why = ((fail_ctx c why).1, pinned f pk (fail_ctx c why).2).
Proof. done. Qed.

(** Follows both sides of an equation between a run and the same run with
    another pin. *)
Ltac pin_step :=
  first
    [ done
    | progress autorewrite with pinned
    | progress cbn [fst snd negb default fmap option_fmap option_map id]
    | match goal with
      | |- context [(?m ≫= _) ?w] => rewrite !(M_bind_unfold _ _ w); destruct (m w) eqn:?
      | |- context [match ?x with _ => _ end] => is_var x; destruct x
      | |- context [let '_ := ?x in _] => is_var x; destruct x
      | |- (if ?b then _ else _) _ = _ => destruct b eqn:?
      | |- (match ?b with _ => _ end) _ = _ => destruct b eqn:?
      end ].

Lemma create_pinned f pk c ps out cap len w :
  handshake_responder_create_server_hello (Some (pinned f pk c)) ps out cap len w =
  let '((st, oc, ps', o, n), w') := handshake_responder_create_server_hello (Some c) ps out cap len w in
  ((st, pinned f pk <$> oc, ps', o, n), w').
Proof.
  unfold handshake_responder_create_server_hello, fail_out_ps.
  change (check_call (Some (pinned f pk c))) with (check_call (Some c)).
  cbv zeta. repeat pin_step.
Qed.

(** The signature of a ClientAuth does not verify under [pk] over the digest
    the ledger holds for this handshake. *)
Definition signature_fails (pk : list byte) c ps (b : list byte) w : Prop :=
  forall ps' digest w1 msg n,
    handshake_pending_get_digest ps (hc_handshake_id c) w = ((PENDING_OK, ps', digest), w1) ->
    decode_client_auth (Some b) (Some client_auth_zero) (Some 0) = (0, Some msg, n) ->
    OQS_SIG_verify digest (ztake (ca_sig_len msg) (ca_sig msg)) pk = false.

Lemma decode_client_auth_some b n : decode_client_auth (Some b) (Some client_auth_zero) (Some 0) = (0, None, n) -> False.
Proof. unfold decode_client_auth. repeat case_match; naive_solver. Qed.

Lemma decode_client_hello_some b n : decode_client_hello (Some b) (Some client_hello_zero) (Some 0) = (0, None, n) -> False.
Proof. unfold decode_client_hello. repeat case_match; naive_solver. Qed.

Lemma verify_fails digest sig pk w :
  OQS_SIG_verify digest sig pk = false -> mldsa_verify digest sig (Some pk) w = (-1, (OQS_SIG_new w).2).
Proof. intros Hf. unfold mldsa_verify. rewrite M_bind_unfold, Hf. by destruct (OQS_SIG_new w) as [[?|] ?]. Qed.

Lemma verify_pinned f f' pk pk' c ps b w :
  signature_fails pk c ps b w -> signature_fails pk' c ps b w ->
  handshake_responder_verify_client_auth (Some (pinned f' (Some pk') c)) ps (Some b) w =
  let '((st, oc, ps'), w') := handshake_responder_verify_client_auth (Some (pinned f (Some pk) c)) ps (Some b) w in
  ((st, pinned f' (Some pk') <$> oc, ps'), w').
Proof.
  unfold handshake_responder_verify_client_auth, fail_ps. intros H H'.
  change (check_call (Some (pinned f' (Some pk') c))) with (check_call (Some c)).
  change (check_call (Some (pinned f (Some pk) c))) with (check_call (Some c)).
  destruct (check_call _ _ _); try done.
  destruct (decode_client_auth _ _ _) as [[rc msg] n] eqn:Ed.
  destruct (Z.eqb_spec rc 0) as [-> | ?]; [|done]. cbn [negb].
  rewrite !pinned_hc_handshake_id. destruct (memeq _ _ _); [|done]. cbn [negb].
  rewrite !M_bind_unfold. destruct (handshake_pending_get_digest _ _ w) as [[[pst ps1] digest] w1] eqn:Eg. cbn [fst snd].
  destruct (bool_decide_reflect (pst = PENDING_OK)) as [-> | ?]; [|done]. cbn [negb].
  destruct msg as [msg|]; [|by apply decode_client_auth_some in Ed].
  rewrite !M_bind_unfold. cbn [hc_peer_pk pinned default id].
  rewrite !verify_fails by eauto. cbn [fst snd Z.eqb negb].
  rewrite !M_bind_unfold. destruct (handshake_pending_record_failure _ _ _) as [[pst2 ps2] w2]. cbn [fst snd].
  by destruct (bool_decide _).
Qed.

Lemma verify_refused pk c ps b w :
  hc_peer_pk c = Some pk -> signature_fails pk c ps b w ->
  (handshake_responder_verify_client_auth (Some c) ps (Some b) w).1.1.1 <> HANDSHAKE_OK.
Proof.
  intros Hpk Hf. unfold handshake_responder_verify_client_auth, fail_ps.
  destruct (check_call _ _ _); try done.
  destruct (decode_client_auth _ _ _) as [[rc msg] n] eqn:Ed.
  destruct (Z.eqb_spec rc 0) as [-> | ?]; [|done]. cbn [negb].
  destruct (memeq _ _ _); [|done]. cbn [negb].
  rewrite M_bind_unfold. destruct (handshake_pending_get_digest _ _ w) as [[[pst ps1] digest] w1] eqn:Eg. cbn [fst snd].
  destruct (bool_decide_reflect (pst = PENDING_OK)) as [-> | ?]; cbn [negb]; [|by destruct pst].
  destruct msg as [msg|]; [|by apply decode_client_auth_some in Ed].
  rewrite M_bind_unfold, Hpk. cbn [default id]. rewrite verify_fails by eauto. cbn [fst snd Z.eqb negb].
  rewrite M_bind_unfold. destruct (handshake_pending_record_failure _ _ _) as [[pst2 ps2] w2]. cbn [fst snd].
  destruct (bool_decide _); [done|]. by destruct pst2.
Qed.

(** Contexts that agree on everything but the pin. *)
Definition hs_sim c1 c2 : Prop := pinned None None c1 = pinned None None c2.

Lemma hs_sim_pinned f pk c : hs_sim c (pinned f pk c).
Proof. done. Qed.

Lemma hs_sim_elim c1 c2 : hs_sim c1 c2 -> c2 = pinned (hc_lookup_fn c2) (hc_peer_pk c2) c1.
Proof. unfold hs_sim, pinned. destruct c1, c2; cbn. by intros [=]; subst. Qed.

Lemma init_sim c1 c2 sid kp f1 f2 ps w :
  let '(r1, w1) := handshake_responder_init_ext (Some c1) sid kp (Some f1) ps w in
  let '(r2, w2) := handshake_responder_init_ext (Some c2) sid kp (Some f2) ps w in
  w1 = w2 /\ r1.1 = r2.1 /\ exists h1 h2, r1.2 = Some h1 /\ r2.2 = Some h2 /\ hs_sim h1 h2 /\
  (r1.1 = HANDSHAKE_OK -> hc_lookup_fn h1 = Some f1 /\ hc_lookup_fn h2 = Some f2).
Proof.
  unfold handshake_responder_init_ext, responder_init_impl, init_common. cbn [is_some xorb].
  destruct sid as [sid|]; [|naive_solver].
  destruct (_ || _); [naive_solver|]. rewrite !M_bind_unfold. destruct (secure_mem_alloc _ w) as [[k|] w1]; naive_solver.
Qed.

Lemma accept_sim c1 c2 f1 f2 pk1 pk2 b w :
  hs_sim c1 c2 -> hc_lookup_fn c1 = Some f1 -> hc_lookup_fn c2 = Some f2 ->
  (forall ch n, decode_client_hello (Some b) (Some client_hello_zero) (Some 0) = (0, Some ch, n) ->
     f1 (ztake (ch_id_len ch) (ch_id ch)) = mret (Some pk1) /\ f2 (ztake (ch_id_len ch) (ch_id ch)) = mret (Some pk2)) ->
  let '(r1, w1) := handshake_responder_accept_client_hello (Some c1) (Some b) w in
  let '(r2, w2) := handshake_responder_accept_client_hello (Some c2) (Some b) w in
  w1 = w2 /\ r1.1 = r2.1 /\ exists h1 h2, r1.2 = Some h1 /\ r2.2 = Some h2 /\ hs_sim h1 h2 /\
  (r1.1 = HANDSHAKE_OK -> hc_peer_pk h1 = Some pk1 /\ hc_peer_pk h2 = Some pk2).
Proof.
  intros Hs F1 F2 Hf. rewrite (hs_sim_elim _ _ Hs). unfold handshake_responder_accept_client_hello.
  change (check_call (Some (pinned (hc_lookup_fn c2) (hc_peer_pk c2) c1))) with (check_call (Some c1)).
  destruct (check_call _ _ _) eqn:Ec; try (cbn; naive_solver).
  destruct (decode_client_hello _ _ _) as [[rc msg] n] eqn:Ed.
  destruct (_ || _) eqn:Eb; [cbn; naive_solver|].
  apply orb_false_iff in Eb as [Er _]. apply negb_false_iff, Z.eqb_eq in Er as ->.
  destruct msg as [ch|]; [|by apply decode_client_hello_some in Ed].
  destruct (Hf _ _ eq_refl) as [H1 H2].
  rewrite !M_bind_unfold. unfold resolve_peer_pk. cbn [pinned hc_lookup_fn default id]. rewrite F1, F2.
  unfold id in *. rewrite H1, H2. cbn. naive_solver.
Qed.

Lemma verify_sim c1 c2 pk1 pk2 ps b w :
  hs_sim c1 c2 -> hc_peer_pk c1 = Some pk1 -> hc_peer_pk c2 = Some pk2 ->
  signature_fails pk1 c1 ps b w -> signature_fails pk2 c2 ps b w ->
  exists st oh1 oh2 ps' w',
    handshake_responder_verify_client_auth (Some c1) ps (Some b) w = ((st, oh1, ps'), w') /\
    handshake_responder_verify_client_auth (Some c2) ps (Some b) w = ((st, oh2, ps'), w') /\
    st <> HANDSHAKE_OK /\ hs_sim (default c1 oh1) (default c2 oh2) /\
    hc_peer_pk (default c1 oh1) = Some pk1 /\ hc_peer_pk (default c2 oh2) = Some pk2.
Proof.
  intros Hs P1 P2 F1 F2. pose proof (hs_sim_elim _ _ Hs) as E2.
  assert (signature_fails pk2 c1 ps b w) as F2' by (rewrite E2 in F2; exact F2).
  pose proof (verify_refused pk1 c1 ps b w P1 F1) as Hne.
  pose proof (verify_pinned (hc_lookup_fn c1) (hc_lookup_fn c1) pk1 pk1 c1 ps b w F1 F1) as V1.
  pose proof (verify_pinned (hc_lookup_fn c1) (hc_lookup_fn c2) pk1 pk2 c1 ps b w F1 F2') as V2.
  rewrite <-P1, pinned_self in V1, V2. rewrite <-P2, <-E2 in V2.
  destruct (handshake_responder_verify_client_auth (Some c1) ps (Some b) w) as [[[st oh] ps'] w'].
  injection V1 as V1. eexists st, oh, _, ps', w'. split; [done|]. split; [exact V2|]. split; [done|].
  destruct oh as [h|]; cbn [default fmap option_fmap option_map] in *; [|done].
  injection V1 as ->. by rewrite P1, P2.
Qed.
End pinned.
