(* ===== verification/AuthdDecoy.v ===== *)
(** * The decoy pin is indistinguishable ([apps/authd/authd_conn.c])

    An identity that is not active (unknown, revoked, superseded, disabled) is
    pinned to the store's decoy key.  Shown: as long as the peer's signatures
    do not verify, everything it, the journal and the rest of the daemon can
    see of a connection is the same whatever the store says about the
    identity. *)

From S2P Require Import Prelude Extern Crypto Transcript Pending Handshake HandshakeProps HandshakePin Session ProxyV2 RateLimit AuthMsg Ws ConnIo StoreDb StoreTx Store StoreAuth StoreOpen AuthdLog Slot AuthdConn.

(** ** What a connection shows *)

Section sim.
Context `{E : Env} `{AC : !AppClock E} `{EN : Engine} `{CK : Clock} `{SC : StoreCrypto}.
Context (spins : nat).
Implicit Types (s : st) (a : authd_app_t) (c : authd_conn_t).

(** Everything but the pin, whose user it is and whether it is the decoy. *)
Definition hide_c c : authd_conn_t :=
  AuthdConn (c_stage c) (pinned None None (c_hs c)) (c_sess c) [] (c_pin_set c) (c_handle c) (c_handle_len c) [] 0
    (c_handshake_id c) (c_hsid_set c) false (c_hs_live c) (c_rotated c).

(** Two applications that agree on everything but the count of decoy pins. *)
Record same_app a1 a2 : Prop := {
  sa_conns : conns a1 = conns a2; sa_store : app_store a1 = app_store a2; sa_kp : server_kp a1 = server_kp a2;
  sa_id : server_id a1 = server_id a2; sa_pending : pending a1 = pending a2; sa_rl : rl a1 = rl a2;
  sa_policy : policy a1 = policy a2; sa_sweep : next_sweep_ms a1 = next_sweep_ms a2;
  sa_unix : app_now_unix a1 = app_now_unix a2;
  sa_counters : forall k, k <> decoy_pins -> counters a1 k = counters a2 k }.

(** Two states that nobody but the store can tell apart: the databases are
    arbitrary, the slot with its queued bytes, the world, the journal and the
    rest of the application are the same. *)
Record alike s1 s2 : Prop := {
  al_app : same_app (s_app s1) (s_app s2);
  al_slot : s_slot s1 = s_slot s2;
  al_w : s_w s1 = s_w s2;
  al_log : s_log s1 = s_log s2;
  al_c : hide_c (s_c s1) = hide_c (s_c s2) }.

(** The peer has not authenticated, and the key the handshake verifies against
    is the pin. *)
Definition pin_held c : Prop :=
  match c_stage c with
  | CONN_STAGE_AWAIT_CA => hc_peer_pk (c_hs c) = Some (c_pin_pk c)
  | CONN_STAGE_SERVING => False
  | _ => True
  end.

(** The world after a pin was resolved: the clock was read and waited for. *)
Definition pin_world w : world :=
  let '(t0, w1) := mono_ns w in
  match t0 with
  | None => w1
  | Some t0 => let '(t, w2) := mono_ns w1 in match t with Some t => (pin_wait spins t0 t w2).2 | None => w2 end
  end.

(** The store's answer about an identity. *)
Abbreviation looked_up a handle k :=
  (store_lookup_active (app_store a) (Some handle) true (Some Store.STORE_ID_MAX) false () k).

(** The pin for that answer. *)
Definition pin_of (st0 : store_t) (r : store_status_t + blob * option blob * option store_role_t) (u : list byte)
    : Z * list byte * list byte * Z :=
  match r with
  | inr (pk, uid, _) => (0, pk, poke 0 (bytes_of uid) u, blen (bytes_of uid))
  | inl _ => (1, decoy_pk st0, u, 0)
  end.

Lemma resolve_run handle u n a slot c k w lg st0 :
  app_store a = Some st0 ->
  authd_conn_resolve_pin spins handle u n (St a slot c k w lg) =
  (pin_of st0 (looked_up a handle k).1.1 u, St a slot c (looked_up a handle k).2 (pin_world w) lg).
Proof.
  intros Hs. unfold authd_conn_resolve_pin, pin_world, pin_of. do 3 drun. rewrite Hs.
  destruct (mono_ns w) as [t0 w1], (store_lookup_active _ _ _ _ _ _ _) as [[[e | [[pk uid] role]] o] k']; cbn [fst snd];
    cbv beta iota zeta; cbn [store_get_decoy_pk];
    (destruct t0 as [t0|]; [|done]; do 2 drun; destruct (mono_ns w1) as [[t|] w2]; [|done]; cbn [fst snd]; by do 2 drun).
Qed.

(** The updates the handlers make keep two connections alike. *)
Lemma hide_hs c1 c2 : hide_c c1 = hide_c c2 -> hs_sim (c_hs c1) (c_hs c2).
Proof. intros He. exact (f_equal c_hs He). Qed.

Lemma hide_eq {A} (f : authd_conn_t -> A) c1 c2 : (forall c, f c = f (hide_c c)) -> hide_c c1 = hide_c c2 -> f c1 = f c2.
Proof. intros Hf He. by rewrite (Hf c1), (Hf c2), He. Qed.

Lemma hide_set_hs h1 h2 c1 c2 : hs_sim h1 h2 -> hide_c c1 = hide_c c2 -> hide_c (c_set_hs h1 c1) = hide_c (c_set_hs h2 c2).
Proof.
  unfold hs_sim. intros Hh He. unfold hide_c. cbn. rewrite Hh.
  by rewrite (hide_eq c_stage c1 c2), (hide_eq c_sess c1 c2), (hide_eq c_pin_set c1 c2), (hide_eq c_handle c1 c2),
    (hide_eq c_handle_len c1 c2), (hide_eq c_handshake_id c1 c2), (hide_eq c_hsid_set c1 c2), (hide_eq c_hs_live c1 c2),
    (hide_eq c_rotated c1 c2).
Qed.

Lemma hide_map (f : authd_conn_t -> authd_conn_t) c1 c2 :
  (forall c, hide_c (f c) = hide_c (f (hide_c c))) -> hide_c c1 = hide_c c2 -> hide_c (f c1) = hide_c (f c2).
Proof. intros Hf He. by rewrite (Hf c1), (Hf c2), He. Qed.

Lemma same_count k n a1 a2 : same_app a1 a2 -> same_app (a_count k n a1) (a_count k n a2).
Proof. intros []. split; cbn; try done. intros j Hj. case_match; by rewrite ?sa_counters0. Qed.

Lemma same_set_pending p a1 a2 : same_app a1 a2 -> same_app (a_set_pending p a1) (a_set_pending p a2).
Proof. intros []. by split. Qed.

(** The results of two runs: the same action, states alike, both connections
    holding their pins. *)
Definition outcomes_alike (r1 r2 : ev_action_t * st) : Prop :=
  r1.1 = r2.1 /\ alike r1.2 r2.2 /\ pin_held (s_c r1.2) /\ pin_held (s_c r2.2).

Lemma outcomes_intro x a1 a2 sl c1 c2 k1 k2 w lg :
  same_app a1 a2 -> hide_c c1 = hide_c c2 -> pin_held c1 -> pin_held c2 ->
  outcomes_alike (x, St a1 sl c1 k1 w lg) (x, St a2 sl c2 k2 w lg).
Proof. intros. by split_and!. Qed.

Lemma pin_held_hello c : c_stage c = CONN_STAGE_AWAIT_CH -> pin_held c.
Proof. unfold pin_held. by intros ->. Qed.

Lemma send_sim a1 a2 sl c1 c2 k1 k2 w lg :
  same_app a1 a2 -> hide_c c1 = hide_c c2 -> c_stage c1 = CONN_STAGE_AWAIT_CH ->
  hc_peer_pk (c_hs c1) = Some (c_pin_pk c1) -> hc_peer_pk (c_hs c2) = Some (c_pin_pk c2) ->
  outcomes_alike (send_server_hello (St a1 sl c1 k1 w lg)) (send_server_hello (St a2 sl c2 k2 w lg)).
Proof.
  intros Ha Hc Hst P1 P2. unfold send_server_hello.
  rewrite !run_get_app, !run_get_c, !run_lib, <-(sa_pending _ _ Ha).
  assert (c_stage c2 = CONN_STAGE_AWAIT_CH) as Hst2 by (rewrite <-Hst; symmetry; by apply (hide_eq c_stage)).
  pose proof (create_pinned (hc_lookup_fn (c_hs c1)) (hc_peer_pk (c_hs c1)) (c_hs c1) (pending a1) (Some (zeros AUTHD_FRAME_MAX))
    AUTHD_FRAME_MAX (Some 0) w) as E1. rewrite pinned_self in E1.
  pose proof (create_pinned (hc_lookup_fn (c_hs c2)) (hc_peer_pk (c_hs c2)) (c_hs c1) (pending a1) (Some (zeros AUTHD_FRAME_MAX))
    AUTHD_FRAME_MAX (Some 0) w) as E2. rewrite <-(hs_sim_elim _ _ (hide_hs _ _ Hc)) in E2. rewrite E2. clear E2.
  destruct (handshake_responder_create_server_hello (Some (c_hs c1)) _ _ _ _ w) as [[[[[hst oh] ps] sh] n] w1].
  injection E1 as E1. cbn [fst snd]. rewrite !run_on_c, !run_on_app.
  set (h1 := default (c_hs c1) oh). set (h2 := default (c_hs c2) (pinned _ _ <$> oh)).
  assert (hs_sim h1 h2) as Hh by (destruct oh; [done|]; by apply hide_hs).
  assert (hc_peer_pk h1 = Some (c_pin_pk c1) /\ hc_peer_pk h2 = Some (c_pin_pk c2)) as [Q1 Q2].
  { split; destruct oh as [h|]; try done. unfold h1. cbn in E1 |- *. injection E1 as ->. done. }
  clearbody h1 h2. pose proof (hide_set_hs _ _ _ _ Hh Hc) as Hc'.
  pose proof (same_set_pending ps _ _ Ha) as Ha'.
  destruct (bool_decide_reflect (hst = HANDSHAKE_OK)) as [-> | Hne]; cbn [negb].
  - rewrite !run_queue. destruct (conn_io_queue _ _ _) as [cs io]; cbn [fst snd].
    destruct (bool_decide _); cbn [negb]; [rewrite !run_on_c|]; apply outcomes_intro; try done.
    + by apply (hide_map (c_set_stage _)).
    + apply pin_held_hello; cbn; congruence.
    + apply pin_held_hello; cbn; congruence.
  - rewrite !run_log_detail, !run_bump. apply outcomes_intro; [by apply same_count|done|..];
      apply pin_held_hello; cbn; congruence.
Qed.

Lemma answer_sim payload a1 a2 sl c1 c2 k1 k2 w lg :
  same_app a1 a2 -> hide_c c1 = hide_c c2 -> c_stage c1 = CONN_STAGE_AWAIT_CH ->
  (forall ch n, decode_client_hello (Some payload) (Some client_hello_zero) (Some 0) = (0, Some ch, n) ->
     authd_conn_pin_lookup (Some c1) (Some (ztake (ch_id_len ch) (ch_id ch))) = Some (c_pin_pk c1) /\
     authd_conn_pin_lookup (Some c2) (Some (ztake (ch_id_len ch) (ch_id ch))) = Some (c_pin_pk c2)) ->
  outcomes_alike (answer_client_hello payload (St a1 sl c1 k1 w lg)) (answer_client_hello payload (St a2 sl c2 k2 w lg)).
Proof.
  intros Ha Hc Hst Hpin. unfold answer_client_hello.
  rewrite !run_get_app, !run_get_c, !run_lib, <-(sa_id _ _ Ha), <-(sa_kp _ _ Ha), <-(sa_pending _ _ Ha).
  assert (c_stage c2 = CONN_STAGE_AWAIT_CH) as Hst2 by (rewrite <-Hst; symmetry; by apply (hide_eq c_stage)).
  set (f1 := fun id => mret (authd_conn_pin_lookup (Some c1) (Some id))).
  set (f2 := fun id => mret (authd_conn_pin_lookup (Some c2) (Some id))).
  pose proof (init_sim (c_hs c1) (c_hs c2) (Some (server_id a1)) (server_kp a1) f1 f2 (pending a1) w) as Hi.
  destruct (handshake_responder_init_ext _ _ _ (Some f1) _ w) as [[st1 oh1] w1],
    (handshake_responder_init_ext _ _ _ (Some f2) _ w) as [[st2 oh2] w2]; cbn [fst snd] in *.
  destruct Hi as (<- & <- & h1 & h2 & -> & -> & Hh & Hf). cbn [default id].
  rewrite !run_on_c.
  assert (forall h, pin_held (c_set_hs h c1) /\ pin_held (c_set_hs h c2)) as Hp
    by (intros h; split; apply pin_held_hello; cbn; congruence).
  destruct (bool_decide_reflect (st1 = HANDSHAKE_OK)) as [-> | Hne]; cbn [negb];
    [|rewrite !run_log_slot; apply outcomes_intro; by auto using hide_set_hs || apply Hp].
  destruct (Hf eq_refl) as [F1 F2]. rewrite !run_on_c, !run_get_c, !run_lib.
  pose proof (accept_sim h1 h2 f1 f2 (c_pin_pk c1) (c_pin_pk c2) payload w1 Hh F1 F2) as Hacc.
  cbn [c_hs c_set_live c_set_hs].
  destruct (handshake_responder_accept_client_hello (Some h1) _ w1) as [[st1 oh1] w2],
    (handshake_responder_accept_client_hello (Some h2) _ w1) as [[st2 oh2] w3]; cbn [fst snd] in *.
  destruct Hacc as (<- & <- & g1 & g2 & -> & -> & Hg & Hpk).
  { intros ch n Hd. unfold f1, f2. destruct (Hpin ch n Hd) as [-> ->]. done. }
  cbn [default id]. rewrite !run_on_c.
  assert (hide_c (c_set_hs g1 (c_set_live true (c_set_hs h1 c1))) = hide_c (c_set_hs g2 (c_set_live true (c_set_hs h2 c2)))) as Hc'
    by (apply hide_set_hs; [done|]; apply (hide_map (c_set_live true)); [done|]; by apply hide_set_hs).
  destruct (bool_decide_reflect (st1 = HANDSHAKE_OK)) as [-> | Hne]; cbn [negb].
  - destruct (Hpk eq_refl). by apply send_sim.
  - rewrite !run_log_slot, !run_bump. apply outcomes_intro; [by apply same_count|done|..];
      apply pin_held_hello; cbn; congruence.
Qed.

(** The pin just set answers for the identity it was set for. *)
Lemma pin_lookup_set pk id c :
  0 < blen id -> authd_conn_pin_lookup (Some (c_set_pin pk (c_set_handle (poke 0 id (c_handle c)) (blen id) c))) (Some id) = Some pk.
Proof.
  intros Hid. cbn. rewrite Z.eqb_refl, (proj2 (Z.eqb_neq (blen id) 0)) by lia. cbn.
  unfold memeq. rewrite take_poke_0, bool_decide_true; [done|]. rewrite Nat2Z.id. apply firstn_all.
Qed.

Lemma hello_id_len b ch n :
  decode_client_hello (Some b) (Some client_hello_zero) (Some 0) = (0, Some ch, n) ->
  blen (ztake (ch_id_len ch) (ch_id ch)) = ch_id_len ch /\ 0 < ch_id_len ch.
Proof.
  destruct (decode_client_hello_cases b) as [(m & -> & Hv & Hp & _) | ->]; [|done]. intros [= <- <-].
  destruct Hv as [[] Hok]. unfold Transcript.id_ok, WIRE_ID_MIN_LEN, WIRE_ID_MAX_LEN in *. rewrite length_take. lia.
Qed.

(** A connection, and the application, once the pin for an identity was set. *)
Definition pin_conn (st0 : store_t) (r : store_status_t + blob * option blob * option store_role_t) (id : list byte) c : authd_conn_t :=
  let set pk c := c_set_pin pk (c_set_handle (poke 0 id (c_handle c)) (blen id) c) in
  match r with
  | inr (pk, uid, _) => set pk (c_set_decoy false (c_set_user (poke 0 (bytes_of uid) (c_user_id c)) (blen (bytes_of uid)) c))
  | inl _ => set (decoy_pk st0) (c_set_user (c_user_id c) 0 (c_set_decoy true (c_set_user (c_user_id c) 0 c)))
  end.

Definition pin_app (r : store_status_t + blob * option blob * option store_role_t) a : authd_app_t :=
  match r with inr _ => a | inl _ => a_count decoy_pins 1 a end.

(** A well-formed ClientHello: the pin is resolved for its identity and the
    handshake takes over. *)
Lemma hello_run payload ch n a sl c k w lg st0 :
  decode_client_hello (Some payload) (Some client_hello_zero) (Some 0) = (0, Some ch, n) -> app_store a = Some st0 ->
  let id := ztake (ch_id_len ch) (ch_id ch) in
  let r := (looked_up a id k).1.1 in
  on_client_hello spins payload (St a sl c k w lg) =
  answer_client_hello payload
    (St (pin_app r a) sl (pin_conn st0 r id c) (looked_up a id k).2 (pin_world w)
        (lg ++ [authd_log_slot_id AUTHD_LOG_INFO (label "client-hello") (sl_index sl) id])).
Proof.
  intros Hd Hs. destruct (hello_id_len _ _ _ Hd) as [Hlen Hpos]. unfold on_client_hello. rewrite Hd. cbn [Z.eqb negb default id].
  rewrite run_get_c, D_bind_unfold, (resolve_run _ _ _ _ _ _ _ _ _ st0 Hs). cbn [fst snd].
  destruct (looked_up a _ k) as [[[e | [[pk uid] role]] o] k']; cbn [fst snd pin_of];
    rewrite run_on_c; cbn [Z.ltb Z.compare Z.eqb]; repeat drun; rewrite <-Hlen at 2; done.
Qed.

Lemma pin_conn_lookup st0 r id c : 0 < blen id ->
  authd_conn_pin_lookup (Some (pin_conn st0 r id c)) (Some id) = Some (c_pin_pk (pin_conn st0 r id c)).
Proof. intros Hid. unfold pin_conn. destruct r as [e | [[pk uid] role]]; by rewrite pin_lookup_set. Qed.

Lemma pin_conn_alike st0 r1 r2 id c1 c2 : hide_c c1 = hide_c c2 -> hide_c (pin_conn st0 r1 id c1) = hide_c (pin_conn st0 r2 id c2).
Proof.
  intros Hc. transitivity (hide_c (c_set_pin [] (c_set_handle (poke 0 id (c_handle c1)) (blen id) c1))).
  - by destruct r1 as [e | [[pk uid] role]].
  - rewrite (hide_map (fun c => c_set_pin [] (c_set_handle (poke 0 id (c_handle c)) (blen id) c)) c1 c2) by done.
    by destruct r2 as [e | [[pk uid] role]].
Qed.

Lemma pin_app_alike r1 r2 a1 a2 : same_app a1 a2 -> same_app (pin_app r1 a1) (pin_app r2 a2).
Proof. intros []. destruct r1, r2; split; cbn; try done; intros j Hj; rewrite ?decide_False by done; auto. Qed.

Lemma hello_sim payload a1 a2 sl c1 c2 k1 k2 w lg st0 :
  same_app a1 a2 -> app_store a1 = Some st0 -> hide_c c1 = hide_c c2 -> c_stage c1 = CONN_STAGE_AWAIT_CH ->
  outcomes_alike (on_client_hello spins payload (St a1 sl c1 k1 w lg)) (on_client_hello spins payload (St a2 sl c2 k2 w lg)).
Proof.
  intros Ha Hs Hc Hst.
  destruct (decode_client_hello_cases payload) as [(ch & Hd & _) | Hd].
  - destruct (hello_id_len _ _ _ Hd) as [Hlen Hpos].
    rewrite (hello_run _ _ _ _ _ _ _ _ _ st0 Hd Hs), (hello_run _ _ _ a2 _ _ _ _ _ st0 Hd) by (by rewrite <-(sa_store _ _ Ha)).
    apply answer_sim; [by apply pin_app_alike|by apply pin_conn_alike|..].
    + rewrite <-Hst. destruct (looked_up a1 _ k1).1.1 as [e | [[pk uid] role]]; done.
    + rewrite Hd. intros ch' n' [= <- <-]. rewrite !pin_conn_lookup by lia. done.
  - unfold on_client_hello. rewrite Hd. cbn [Z.eqb negb]. rewrite !run_log_slot, !run_bump.
    apply outcomes_intro; [by apply same_count|done|..]; apply pin_held_hello; [congruence|].
    by rewrite (hide_eq c_stage c2 c1) by done.
Qed.

(** A ClientAuth whose signature verifies under neither pin. *)
Lemma auth_sim payload a1 a2 sl c1 c2 k1 k2 w lg :
  same_app a1 a2 -> hide_c c1 = hide_c c2 -> c_stage c1 = CONN_STAGE_AWAIT_CA -> pin_held c1 -> pin_held c2 ->
  signature_fails (c_pin_pk c1) (c_hs c1) (pending a1) payload w ->
  signature_fails (c_pin_pk c2) (c_hs c2) (pending a2) payload w ->
  outcomes_alike (on_client_auth payload (St a1 sl c1 k1 w lg)) (on_client_auth payload (St a2 sl c2 k2 w lg)).
Proof.
  intros Ha Hc Hst P1 P2 F1 F2. unfold on_client_auth.
  assert (c_stage c2 = CONN_STAGE_AWAIT_CA) as Hst2 by (rewrite <-Hst; symmetry; by apply (hide_eq c_stage)).
  unfold pin_held in P1, P2. rewrite Hst in P1. rewrite Hst2 in P2.
  rewrite !run_get_app, !run_get_c, !run_lib, <-(sa_pending _ _ Ha) in *.
  destruct (verify_sim _ _ _ _ _ _ _ (hide_hs _ _ Hc) P1 P2 F1 F2) as (st & o1 & o2 & ps & w' & -> & -> & Hne & Hh & Q1 & Q2).
  cbn [fst snd]. rewrite !run_on_c, !run_on_app, bool_decide_false by done. cbn [negb].
  pose proof (hide_set_hs _ _ _ _ Hh Hc) as Hc'. pose proof (same_set_pending ps _ _ Ha) as Ha'.
  assert (pin_held (c_set_hs (default (c_hs c1) o1) c1)) by (unfold pin_held; cbn; by rewrite Hst).
  assert (pin_held (c_set_hs (default (c_hs c2) o2) c2)) by (unfold pin_held; cbn; by rewrite Hst2).
  destruct (retryable st); rewrite !run_log_slot, ?run_bump; apply outcomes_intro; by auto using same_count.
Qed.

Lemma wipe_sim h1 h2 ps w : hs_sim h1 h2 -> handshake_ctx_wipe (Some h1) ps w = handshake_ctx_wipe (Some h2) ps w.
Proof. intros Hs. by rewrite (hs_sim_elim _ _ Hs). Qed.

(** A reset connection with the handshake context it is left with. *)
Definition reset_conn h live : authd_conn_t :=
  AuthdConn CONN_STAGE_FREE h session_zero (zeros STORE_PK_BYTES) false (zeros Store.STORE_ID_MAX) 0
    (zeros Store.STORE_ID_MAX) 0 (zeros STORE_HSID_BYTES) false false live false.

Lemma reset_run a sl c k w lg :
  conn_reset (St a sl c k w lg) =
  if c_hs_live c then
    let '((oh, ps), w') := handshake_ctx_wipe (Some (c_hs c)) (pending a) w in
    ((), St (a_set_pending ps a) sl (reset_conn (default ctx_failed_zero oh) false) k w' lg)
  else ((), St a sl (reset_conn (c_hs c) false) k w lg).
Proof.
  unfold conn_reset. rewrite run_on_c, run_get_c. cbn [c_hs_live c_set_sess c_hs session_wipe default id].
  destruct (c_hs_live c) eqn:El; [|by rewrite run_ret; cbn; unfold reset_conn; rewrite <-El].
  rewrite D_bind_assoc, run_get_app, D_bind_assoc, run_lib, D_bind_assoc, run_on_app, run_on_c.
  by destruct (handshake_ctx_wipe _ _ w) as [[oh ps] w'].
Qed.

Lemma bind_sim a1 a2 sl c1 c2 k1 k2 w lg :
  same_app a1 a2 -> hide_c c1 = hide_c c2 ->
  exists b1 b2 sl' d1 d2 w',
    authd_conn_bind (St a1 sl c1 k1 w lg) = ((), St b1 sl' d1 k1 w' lg) /\
    authd_conn_bind (St a2 sl c2 k2 w lg) = ((), St b2 sl' d2 k2 w' lg) /\
    same_app b1 b2 /\ app_store b1 = app_store a1 /\ hide_c d1 = hide_c d2 /\ c_stage d1 = CONN_STAGE_AWAIT_CH.
Proof.
  intros Ha Hc. pose proof (hide_hs _ _ Hc) as Hh. pose proof (hide_eq c_hs_live c1 c2 (fun _ => eq_refl) Hc) as Hl.
  unfold authd_conn_bind. rewrite !D_bind_unfold, !reset_run, <-Hl, <-(sa_pending _ _ Ha), (wipe_sim _ _ _ _ Hh).
  destruct (c_hs_live c1).
  - destruct (handshake_ctx_wipe _ _ w) as [[oh ps] w']. cbn [fst snd].
    eexists _, _, _, _, _, _. do 2 (split; [reflexivity|]). by split_and!; [apply same_set_pending|..].
  - cbn [fst snd]. eexists _, _, _, _, _, _. do 2 (split; [reflexivity|]). split_and!; try done.
    unfold hide_c. cbn. by rewrite Hh.
Qed.

(** The signature of this frame, if it is taken as a ClientAuth, does not verify
    under the connection's pin. *)
Definition not_proven s (payload : list byte) : Prop :=
  c_stage (s_c s) = CONN_STAGE_AWAIT_CA -> signature_fails (c_pin_pk (s_c s)) (c_hs (s_c s)) (pending (s_app s)) payload (s_w s).

Lemma frame_sim payload s1 s2 st0 :
  alike s1 s2 -> app_store (s_app s1) = Some st0 -> pin_held (s_c s1) -> pin_held (s_c s2) ->
  not_proven s1 payload -> not_proven s2 payload ->
  outcomes_alike (on_frame_body spins payload s1) (on_frame_body spins payload s2).
Proof.
  destruct s1 as [a1 sl c1 k1 w lg], s2 as [a2 sl2 c2 k2 w2 lg2]. intros [Ha Hsl Hw Hlg Hc] Hs P1 P2 N1 N2. cbn in *. subst sl2 w2 lg2.
  unfold on_frame_body. rewrite !run_get_slot, !run_get_c.
  pose proof (hide_eq c_stage c1 c2 (fun _ => eq_refl) Hc) as Hst. rewrite <-Hst.
  destruct (_ || _) eqn:Eb.
  - destruct (bind_sim a1 a2 sl c1 c2 k1 k2 w lg Ha Hc) as (b1 & b2 & sl' & d1 & d2 & w' & E1 & E2 & Hb & Hbs & Hd & Hds).
    rewrite !D_bind_unfold, E1, E2. cbn [fst snd get_c s_c].
    rewrite <-(hide_eq c_stage d1 d2) by done. rewrite Hds. apply (hello_sim _ _ _ _ _ _ _ _ _ _ st0); congruence.
  - rewrite !run_ret, !run_get_c, <-Hst. unfold not_proven in *. cbn in *. rewrite <-Hst in N2.
    destruct (c_stage c1) eqn:Es; try (by apply outcomes_intro).
    + by apply (hello_sim _ _ _ _ _ _ _ _ _ _ st0).
    + apply auth_sim; auto.
    + by unfold pin_held in P1; rewrite Es in P1.
Qed.

(** ** A whole connection *)

(** What happens between two frames of a connection, the same in both runs: the
    loop moves bytes, the clock advances, other connections are served.  What
    other connections make of the application does not depend on the count of
    decoy pins. *)
Record between := Between {
  b_app : authd_app_t -> authd_app_t; b_slot : authd_slot_t -> authd_slot_t;
  b_w : world -> world; b_log : list log_call -> list log_call;
  b_app_ok : forall a1 a2, same_app a1 a2 -> same_app (b_app a1) (b_app a2);
  b_store : forall a, app_store (b_app a) = app_store a }.

(** One turn: what happens meanwhile, then a frame.  The database is what it has
    become by then. *)
Definition turn_state (b : between) (k : conn) s : st :=
  St (b_app b (s_app s)) (b_slot b (s_slot s)) (s_c s) k (b_w b (s_w s)) (b_log b (s_log s)).

(** What anybody sees of a turn: the action, the slot with the bytes it has to
    send, the world, the journal and the rate limiter. *)
Definition seen (r : ev_action_t * st) : ev_action_t * authd_slot_t * world * list log_call * option ratelimit_t :=
  (r.1, s_slot r.2, s_w r.2, s_log r.2, rl (s_app r.2)).

Fixpoint probe (script : list (between * conn * list byte)) s
    : list (ev_action_t * authd_slot_t * world * list log_call * option ratelimit_t) * st :=
  match script with
  | [] => ([], s)
  | (b, k, frame) :: script =>
    let r := on_frame_body spins frame (turn_state b k s) in
    let '(l, s') := probe script r.2 in (seen r :: l, s')
  end.

(** No frame of the script carries a signature that verifies under the pin. *)
Fixpoint unproven (script : list (between * conn * list byte)) s : Prop :=
  match script with
  | [] => True
  | (b, k, frame) :: script =>
    not_proven (turn_state b k s) frame /\ unproven script (on_frame_body spins frame (turn_state b k s)).2
  end.

(** The same frames and the same surroundings, with the databases of another
    store. *)
Definition with_dbs (script : list (between * conn * list byte)) (ks : list conn) : list (between * conn * list byte) :=
  zip_with (fun '(b, _, frame) k => (b, k, frame)) script ks.

Lemma frame_keeps_store frame s : app_store (s_app (on_frame_body spins frame s).2) = app_store (s_app s).
Proof.
  assert (PreOrder (fun a b => app_store a = app_store b)) by (split; [by intros a|intros a b c; apply eq_trans]).
  symmetry. by apply (frame_app spins (fun a b => app_store a = app_store b)).
Qed.

Lemma probe_alike script ks s1 s2 st0 :
  length ks = length script -> alike s1 s2 -> app_store (s_app s1) = Some st0 -> pin_held (s_c s1) -> pin_held (s_c s2) ->
  unproven script s1 -> unproven (with_dbs script ks) s2 ->
  (probe script s1).1 = (probe (with_dbs script ks) s2).1.
Proof.
  revert ks s1 s2. induction script as [|[[b k] frame] script IH]; intros [|k2 ks] s1 s2 Hlen Hal Hs P1 P2 U1 U2; try done.
  destruct U1 as [N1 U1], U2 as [N2 U2]. cbn [with_dbs zip_with probe] in *.
  assert (alike (turn_state b k s1) (turn_state b k2 s2)) as Hal'.
  { destruct Hal as [Ha Hsl Hw Hlg Hc]. unfold turn_state. split; cbn; try congruence. by apply b_app_ok. }
  assert (app_store (s_app (turn_state b k s1)) = Some st0) as Hs' by (cbn; by rewrite b_store).
  destruct (frame_sim frame _ _ st0 Hal' Hs' P1 P2 N1 N2) as (Eact & Hal2 & Q1 & Q2).
  assert (app_store (s_app (on_frame_body spins frame (turn_state b k s1)).2) = Some st0) as Hs2.
  { rewrite frame_keeps_store. done. }
  pose proof (IH ks _ _ ltac:(cbn in Hlen; lia) Hal2 Hs2 Q1 Q2 U1 U2) as HI.
  assert (seen (on_frame_body spins frame (turn_state b k s1)) = seen (on_frame_body spins frame (turn_state b k2 s2))) as ->.
  { unfold seen. destruct Hal2 as [Ha2 Hsl2 Hw2 Hlg2 _]. by rewrite Eact, Hsl2, Hw2, Hlg2, (sa_rl _ _ Ha2). }
  unfold with_dbs in HI. destruct (probe script _) as [l1 t1], (probe (zip_with _ script ks) _) as [l2 t2]. cbn [fst] in *. by subst l2.
Qed.

(** C22: A peer that cannot sign for the identity it claims learns nothing about
    it.  Two fresh connections to daemons that differ only in their databases
    (in one the identity is active, in the other unknown, revoked, superseded or
    disabled) behave the same over any number of frames, as long as no
    signature verifies under either pin: the same actions, the same bytes to
    send, the same journal, the same world and the same rate limiter. *)
Theorem decoy_indistinguishable a sl k1 k2 w lg st0 script ks :
  length ks = length script -> app_store a = Some st0 ->
  unproven script (St a sl conn_zero k1 w lg) -> unproven (with_dbs script ks) (St a sl conn_zero k2 w lg) ->
  (probe script (St a sl conn_zero k1 w lg)).1 = (probe (with_dbs script ks) (St a sl conn_zero k2 w lg)).1.
Proof. intros Hlen Hs U1 U2. by apply (probe_alike _ _ _ _ st0). Qed.

End sim.
