(* ===== verification/AuthdGate.v ===== *)
(** * What a login takes ([apps/authd/authd_conn.c])

    The history of one connection record: any frames, in any states of the rest
    of the daemon, from the zeroed pool.  A login code is written for the device
    and user whose active key was pinned at the ClientHello and signed the
    handshake, and for nobody else; a key is replaced only inside such a session
    and only with both keys' signatures; and a closed connection is zero
    bytes again. *)

From S2P Require Import Prelude Extern Crypto Transcript Pending Handshake HandshakeProps HandshakeRun Session RateLimit AuthMsg ConnIo StoreDb StoreTx Store StoreAuth StoreOpen StoreLogic StoreHistory StoreKeys AuthdLog Slot AuthdConn HandshakePin AuthdDecoy.

(** ** How the database moves under a handler *)

Section gate.
Context `{E : Env} `{ES : !EnvSizes E} `{AC : !AppClock E} `{EN : Engine} `{CK : Clock} `{SC : StoreCrypto}.
Context (spins : nat).
Implicit Types (s : st) (a : authd_app_t) (c : authd_conn_t) (d : db) (k : conn).

(** The committed tables, and those of an open transaction, move along [R]. *)
Definition moved (R : relation db) k k' : Prop := R (disk k) (view k) -> R (disk k) (disk k') /\ R (disk k') (view k').

#[local] Instance moved_order R `{!PreOrder R} : PreOrder (fun s s' => moved R (s_db s) (s_db s')).
Proof.
  split; [intros s HR; by split|]. intros s1 s2 s3 H1 H2 HR. destruct (H1 HR) as [H3 H4].
  destruct (H2 H4). split; [by etrans|done].
Qed.

Lemma moved_refl R `{!PreOrder R} k : moved R k k.
Proof. intros HR. by split. Qed.

Lemma lib_db {A} (m : M A) s : s_db (lib m s).2 = s_db s.
Proof. unfold lib. by destruct (m (s_w s)). Qed.

Lemma sql_moves R {O A} (o : O) (m : T O A) : grows R m -> moves (fun s s' => moved R (s_db s) (s_db s')) (sql o m).
Proof. intros Hm s. unfold sql. destruct (m o (s_db s)) as [[r o'] k] eqn:Em. cbn. intros HR. by eapply Hm. Qed.

Definition codes_same d d' : Prop := login_codes d' = login_codes d.
(** The keys of the devices and the bearer tokens. *)
Definition keys_same d d' : Prop := device_keys d' = device_keys d /\ tokens d' = tokens d.
(** At most one login code was added, [row], whose hash was new. *)
Definition code_added (row : code_row) d d' : Prop :=
  login_codes d' = login_codes d \/
  (c_hash row ∉ (c_hash <$> login_codes d) /\ login_codes d' = login_codes d ++ [row]).

#[local] Instance codes_same_order : PreOrder codes_same.
Proof. split; [by intros d|]. intros d1 d2 d3. unfold codes_same. congruence. Qed.
#[local] Instance keys_same_order : PreOrder keys_same.
Proof. split; [by intros d|]. intros d1 d2 d3 [? ?] [? ?]. split; congruence. Qed.
#[local] Instance code_added_order row : PreOrder (code_added row).
Proof.
  split; [by left|]. intros d1 d2 d3 [H1|[N1 H1]] [H2|[N2 H2]].
  - left. congruence.
  - right. by rewrite <-H1.
  - right. by rewrite H2.
  - destruct N2. rewrite H1, fmap_app. apply elem_of_app. right. by left.
Qed.

(** Follows the code of a store operation. *)
Ltac grows_all := repeat (cbv zeta; first
  [ grow | apply grows_transaction; [apply _|] | apply grows_any_audit; [apply _|done] ]).

Section store_moves.
Context (R : relation db) `{!PreOrder R} (same : forall d d', login_codes d' = login_codes d -> device_keys d' = device_keys d -> tokens d' = tokens d -> R d d').

Lemma grows_lookup st h po uc wr : grows R (store_lookup_active st h po uc wr : T unit _).
Proof. unfold store_lookup_active. grows_code. Qed.
Lemma grows_age st h b : grows R (store_active_key_age st h b : T unit _).
Proof. unfold store_active_key_age. grows_code. Qed.
Lemma grows_touch st h : grows R (store_touch_last_seen st h : T unit _).
Proof.
  assert (forall h now, respects R (update_last_seen h now)) by (intros; intros d d' n; unfold update_last_seen; intros [= <- <-]; by apply same).
  unfold store_touch_last_seen. grows_code.
Qed.
End store_moves.

Lemma codes_rotate st h pk old hs drop now : grows codes_same (store_rotate_key st h pk old hs drop now).
Proof.
  assert (forall r, respects codes_same (insert_audit r)) by (intros; each_effect; done).
  assert (forall h pk f now, respects codes_same (insert_key h pk f now)) by (intros; each_effect; done).
  assert (forall i now hs, respects codes_same (update_key_superseded i now hs)) by (intros; each_effect; done).
  assert (forall P `{!forall t, Decision (P t)}, respects codes_same (delete_tokens P)) by (intros; each_effect; done).
  unfold store_rotate_key, rotate_locked, rotate_rows, rotate_audit, device_and_user_active, active_key_of, pk_exists,
    user_of_handle. grows_all.
Qed.

Lemma keys_add_code st code u h hs state i e : grows keys_same (store_add_login_code st code u h hs state i e : T unit _).
Proof.
  assert (forall code u h hs state i e, respects keys_same (insert_login_code code u h hs state i e)) by (intros; each_effect; done).
  unfold store_add_login_code. grows_all.
Qed.

Lemma code_add_code st code u h hs state i e :
  grows (code_added (CodeRow (bytes_of code) (bytes_of u) (bytes_of h) hs (bytes_of state) i e None))
    (store_add_login_code st code u h hs state i e : T unit _).
Proof.
  assert (respects (code_added (CodeRow (bytes_of code) (bytes_of u) (bytes_of h) hs (bytes_of state) i e None))
    (insert_login_code (bytes_of code) (bytes_of u) (bytes_of h) hs (bytes_of state) i e)).
  { intros d d' n. unfold insert_login_code. case_decide; [done|]. intros [= <- <-]. by right. }
  unfold store_add_login_code. grows_all.
Qed.

(** The steps that are no store operation. *)
Ltac unmoved := try (intros; intros s; cbv beta; rewrite ?lib_db; solve [exact (moved_refl _ _)]).

(** Off the path of a login nothing touches the login codes. *)
Lemma hello_codes payload s : moved codes_same (s_db s) (s_db (on_client_hello spins payload s).2).
Proof.
  revert s. apply moves_hello with (Q := fun s s' => moved codes_same (s_db s) (s_db s')); try apply _;
    unmoved; intros; by apply sql_moves, grows_lookup, _.
Qed.
Lemma record_codes payload s : moved codes_same (s_db s) (s_db (on_record payload s).2).
Proof.
  revert s. apply moves_record with (Q := fun s s' => moved codes_same (s_db s) (s_db s')); try apply _;
    unmoved; intros; apply sql_moves, codes_rotate.
Qed.

Lemma moved_trans R `{!PreOrder R} k1 k2 k3 : moved R k1 k2 -> moved R k2 k3 -> moved R k1 k3.
Proof. intros H1 H2 HR. destruct (H1 HR) as [H3 H4]. destruct (H2 H4). split; [by etrans|done]. Qed.

(** Sealing and queueing a message does not touch the database. *)
#[local] Instance same_db_preorder : PreOrder (fun s s' => s_db s' = s_db s).
Proof. split; [by intros s|]. intros s1 s2 s3. congruence. Qed.
Lemma queue_sealed_db p n s : s_db (queue_sealed p n s).2 = s_db s.
Proof.
  revert s. apply moves_queue_sealed with (Q := fun s s' => s_db s' = s_db s); try apply _;
    intros; intros s; cbv beta; by rewrite ?lib_db.
Qed.

Lemma rotation_due_run a sl c k w lg : exists b k',
  rotation_due (St a sl c k w lg) = (b, St a sl c k' w lg) /\ forall R, PreOrder R -> moved R k k'.
Proof.
  unfold rotation_due. rewrite run_get_app, run_get_c. destruct (_ =? 0).
  { eexists _, k. split; [done|]. intros R HR. exact (moved_refl R k). }
  rewrite run_sql. eexists _, _. split; [done|]. intros R HR.
  pose proof (sql_moves R () (store_active_key_age (app_store a) (Some (handle_of c)) true) (grows_age R _ _ _) (St a sl c k w lg)) as Hm.
  unfold sql in Hm. cbn [s_db] in Hm. by destruct (store_active_key_age _ _ _ _ _) as [[r o] k'].
Qed.

(** The login code a connection is given: for its user and handle, bound to the
    handshake and to the state of the browser's URL. *)
Definition login_row a sl c (hsid code : list byte) : code_row :=
  CodeRow (crypto_hash_sha256 code) (user_of c) (handle_of c) (Some hsid) (crypto_hash_sha256 (slot_state sl))
    (app_now_unix a) (int64 (u64 (app_now_unix a + code_ttl_s (policy a)))) None.

Lemma issue_codes a sl c k w lg :
  let s' := (issue_login_code (St a sl c k w lg)).2 in
  s_db s' = k \/
  exists hsid code, handshake_get_handshake_id (Some (c_hs c)) = (HANDSHAKE_OK, hsid) /\
    moved (code_added (login_row a sl c hsid code)) k (s_db s').
Proof.
  cbv zeta. unfold issue_login_code. rewrite run_get_app, run_get_c.
  destruct (handshake_get_handshake_id _) as [hst hsid].
  destruct (bool_decide_reflect (hst = HANDSHAKE_OK)) as [->|]; cbn [negb]; [|by left].
  rewrite run_lib. destruct (session_init_from_handshake _ _ _ _ _ w) as [[[[ss sess] hs] ps] w1]. cbn [fst snd].
  rewrite run_on_c, run_on_app. destruct (bool_decide (ss = SESSION_OK)); cbn [negb]; [|by left].
  rewrite !run_on_c, D_bind_unfold.
  edestruct rotation_due_run as (due & k' & -> & Hk'). cbn [fst snd].
  rewrite run_lib, run_get_slot, run_get_c, run_sql. right. exists hsid, (randombytes_buf AUTHMSG_CODE_BYTES w1).1.
  split; [done|].
  set (code := (randombytes_buf _ w1).1). set (w2 := (randombytes_buf _ w1).2).
  match goal with |- context [store_add_login_code ?x ?h ?u ?d ?i ?y ?n ?e () k'] =>
    pose proof (code_add_code x h u d i y n e () k') as Hadd; destruct (store_add_login_code x h u d i y n e () k') as [[r o] k2] end.
  assert (moved (code_added (login_row a sl c hsid code)) k k2) as Hm.
  { eapply moved_trans; [apply _|apply Hk', _|]. intros HR. by apply (Hadd r o k2). }
  cbn [fst snd]. destruct r as [e|?]; [done|]. destruct (authmsg_encode_login_code _ _ _ _) as [[es content] n].
  destruct (bool_decide (es = AUTHMSG_OK)); cbn [negb]; [|done]. rewrite D_bind_unfold.
  match goal with |- context [queue_sealed ?p ?m ?s] => pose proof (queue_sealed_db p m s) as Hq; destruct (queue_sealed p m s) end.
  cbn in *. by rewrite Hq.
Qed.

Lemma touch_moves R `{!PreOrder R} st0 h (o : unit) k :
  (forall d d', login_codes d' = login_codes d -> device_keys d' = device_keys d -> tokens d' = tokens d -> R d d') ->
  moved R k (store_touch_last_seen st0 h o k).2.
Proof.
  intros HR Hk. pose proof (grows_touch R HR st0 h o k) as Hg.
  destruct (store_touch_last_seen _ _ _ _) as [[r o'] k']. by eapply Hg.
Qed.

(** A ClientAuth leaves the login codes alone, or it was accepted for a
    connection with an identity. *)
Lemma auth_codes payload a sl c k w lg :
  let s' := (on_client_auth payload (St a sl c k w lg)).2 in
  moved codes_same k (s_db s') \/
  exists hs ps w' hs' hsid code,
    handshake_responder_verify_client_auth (Some (c_hs c)) (pending a) (Some payload) w = ((HANDSHAKE_OK, hs, ps), w') /\
    handshake_responder_finish (Some (default (c_hs c) hs)) = (HANDSHAKE_OK, hs') /\
    handshake_get_handshake_id (Some (default (default (c_hs c) hs) hs')) = (HANDSHAKE_OK, hsid) /\
    c_decoy c = false /\ c_user_id_len c <> 0 /\
    moved (code_added (login_row a sl c hsid code)) k (s_db s').
Proof.
  cbv zeta. unfold on_client_auth. rewrite run_get_app, run_get_c, run_lib.
  destruct (handshake_responder_verify_client_auth _ _ _ w) as [[[hst hs] ps] w1]. cbn [fst snd].
  rewrite run_on_c, run_on_app.
  destruct (bool_decide_reflect (hst = HANDSHAKE_OK)) as [->|]; cbn [negb];
    [|left; destruct (retryable hst); exact (moved_refl _ k)].
  rewrite run_get_c. cbn [c_hs c_set_hs].
  destruct (handshake_responder_finish _) as [fs hs'] eqn:Hf. rewrite run_on_c.
  destruct (bool_decide_reflect (fs = HANDSHAKE_OK)) as [->|]; cbn [negb orb]; [|left; exact (moved_refl _ k)].
  destruct (handshake_is_peer_confirmed _); cbn [negb]; [|left; exact (moved_refl _ k)].
  rewrite run_get_c. cbn [c_decoy c_user_id_len c_set_hs].
  destruct (c_decoy c) eqn:Hd; cbn [orb]; [left; exact (moved_refl _ k)|].
  destruct (Z.eqb_spec (c_user_id_len c) 0); [left; exact (moved_refl _ k)|].
  rewrite D_bind_unfold.
  match goal with |- context [issue_login_code (St ?x ?y ?z k w1 lg)] => pose proof (issue_codes x y z k w1 lg) as Hi;
    cbv zeta in Hi; destruct (issue_login_code (St x y z k w1 lg)) as [rc [a1 sl1 c1 k1 w2 lg1]] end.
  cbn [fst snd s_db] in *. destruct (rc =? 0); cbn [negb].
  2:{ destruct Hi as [->|(hsid & code & H1 & H2)]; [left; exact (moved_refl _ k)|right]. by eexists _, _, _, _, _, _. }
  rewrite run_get_c, run_sql, run_bump, run_get_slot, run_lib.
  set (s2 := (store_touch_last_seen _ _ _ _).2).
  assert (forall R, PreOrder R -> (forall d d', login_codes d' = login_codes d -> device_keys d' = device_keys d ->
    tokens d' = tokens d -> R d d') -> moved R k1 s2) as Ht by (intros R HR1 HR2; by apply touch_moves).
  match goal with |- context [s_db ?x] => assert (s_db x = s2) as ->
    by (destruct (sl_addr_admitted sl1); rewrite D_bind_unfold; done) end.
  destruct Hi as [->|(hsid & code & H1 & H2)]; [left; by apply Ht; [apply _|]|right].
  eexists _, _, _, _, hsid, code. split_and!; try done.
  eapply moved_trans; [apply _|exact H2|]. apply Ht; [apply _|by left].
Qed.

(** ** The history of a connection record *)

(** In the tables [d], the handle [h] has the active key [pk] of an active
    device of the active user [uid]. *)
Definition active_identity d (h pk uid : list byte) : Prop := exists key v u,
  key ∈ device_keys d /\ v ∈ devices d /\ u ∈ users d /\
  k_handle key = h /\ d_handle v = h /\ u_id u = d_user v /\
  k_status key = ACTIVE /\ d_status v = ACTIVE /\ u_status u = ACTIVE /\ pk = k_pk key /\ uid = u_id u.

(** A frame with the tables it was handled in. *)
Abbreviation history := (list (db * list byte)).

(** One of the frames was a ClientHello of [h], when that was the case. *)
Definition greeted (hist : history) (h pk uid : list byte) : Prop := exists d p ch n,
  (d, p) ∈ hist /\ decode_client_hello (Some p) (Some client_hello_zero) (Some 0) = (0, Some ch, n) /\
  h = ztake (ch_id_len ch) (ch_id ch) /\ active_identity d h pk uid.

(** The record, from the zeroed pool through frames and teardowns; whatever else
    the daemon did in between. *)
Inductive lived : history -> authd_conn_t -> Prop :=
| lived_fresh : lived [] conn_zero
| lived_frame hist s payload x s' :
    lived hist (s_c s) -> on_frame_body spins payload s = (x, s') -> lived (hist ++ [(view (s_db s), payload)]) (s_c s')
| lived_close hist s s' : lived hist (s_c s) -> conn_reset s = ((), s') -> lived hist (s_c s').

(** The pin is set for the handle, and unless it is the decoy it was that
    handle's active key at the ClientHello. *)
Definition has_pin hist c : Prop :=
  c_pin_set c = true /\ 0 < c_handle_len c <= Store.STORE_ID_MAX /\
  (c_decoy c = false -> greeted hist (handle_of c) (c_pin_pk c) (user_of c)).

Record conn_inv hist c : Prop := {
  ci_handle : blen (c_handle c) = Store.STORE_ID_MAX;
  ci_user : blen (c_user_id c) = Store.STORE_ID_MAX;
  ci_dead : c_hs_live c = false -> c_hs c = ctx_failed_zero;
  ci_pin : c_stage c = CONN_STAGE_AWAIT_CA \/ c_stage c = CONN_STAGE_SERVING -> has_pin hist c;
  ci_armed : c_stage c = CONN_STAGE_AWAIT_CA -> hc_state (c_hs c) = HANDSHAKE_STATE_SERVER_HELLO_CREATED ->
    ctx_live (c_hs c) /\ hc_role (c_hs c) = HANDSHAKE_ROLE_RESPONDER /\ hc_peer_pk (c_hs c) = Some (c_pin_pk c) }.

Lemma conn_inv_zero hist : conn_inv hist conn_zero.
Proof. split; try done; [by vm_compute..|]. by intros [|]. Qed.

Lemma conn_inv_more hist x c : conn_inv hist c -> conn_inv (hist ++ [x]) c.
Proof.
  intros []. split; try done. intros Hst. destruct (ci_pin0 Hst) as (? & ? & Hg). split; [done|]. split; [done|].
  intros Hd. destruct (Hg Hd) as (d & p & ch & n & Hin & ?). exists d, p, ch, n.
  split; [apply elem_of_app; by left|done].
Qed.

(** A teardown leaves the record as the pool was allocated. *)
Lemma reset_zero hist s : conn_inv hist (s_c s) -> s_c (conn_reset s).2 = conn_zero.
Proof.
  intros Hc. destruct s as [a sl c k w lg]. rewrite reset_run. cbn in Hc. destruct (c_hs_live c) eqn:El.
  - unfold handshake_ctx_wipe. destruct (_ && _ && _); [|done]. rewrite M_bind_unfold.
    by destruct (handshake_pending_cancel _ _ w) as [[? ?] ?].
  - cbn. by rewrite (ci_dead _ _ Hc).
Qed.

Lemma bind_zero hist s : conn_inv hist (s_c s) -> exists a sl w,
  authd_conn_bind s = ((), St a sl (c_set_stage CONN_STAGE_AWAIT_CH conn_zero) (s_db s) w (s_log s)).
Proof.
  intros Hc. pose proof (reset_zero _ _ Hc) as Hz. destruct s as [a sl c k w lg]. unfold authd_conn_bind. rewrite D_bind_unfold.
  rewrite reset_run in *. destruct (c_hs_live c).
  - destruct (handshake_ctx_wipe _ _ w) as [[oh ps] w']. cbn [fst snd s_c] in *. rewrite Hz. by eexists _, _, _.
  - cbn [fst snd s_c] in *. rewrite Hz. by eexists _, _, _.
Qed.

(** *** ClientHello *)

Lemma lookup_identity st0 h cap (o : unit) k pk uid role o' k' :
  store_lookup_active st0 (Some h) true (Some cap) false o k = (inr (pk, uid, role), o', k') ->
  exists u, uid = Some u /\ blen u <= cap /\ active_identity (view k) h pk u.
Proof.
  unfold store_lookup_active. destruct st0; [|done].
  intros (? & ? & ? & (_&->&->)%check_inr & H)%bind_inr.
  apply bind_inr in H as (row & o1 & c1 & (-> & Hs & ->)%select_opt_inr & H).
  destruct (head (active_join _ _)) as [[[pk1 uid1] role1]|] eqn:Eh; [|done].
  apply bind_inr in H as (pk2 & ? & ? & (-> & _ & -> & ->)%copy_inr & H).
  apply bind_inr in H as (? & ? & ? & (_&->&->)%check_inr & H).
  apply bind_inr in H as (uid2 & ? & ? & Hu & H). apply bind_inr in Hu as (u & ? & ? & (-> & Hcap & -> & ->)%copy_inr & [= <- <- <-]).
  apply bind_inr in H as (role2 & ? & ? & _ & [= <- <- <- _ _]).
  exists uid1. split_and!; [done..|].
  destruct (active_join_in h (view k) (pk1, uid1, role1)) as (ky & v & us & ?); [|exists ky, v, us; naive_solver].
  cbn in Eh. destruct (active_join _ _); [done|]. injection Eh as ->. by left.
Qed.

Lemma conn_inv_quiet hist c : blen (c_handle c) = Store.STORE_ID_MAX -> blen (c_user_id c) = Store.STORE_ID_MAX ->
  (c_hs_live c = false -> c_hs c = ctx_failed_zero) -> c_stage c <> CONN_STAGE_AWAIT_CA -> c_stage c <> CONN_STAGE_SERVING ->
  conn_inv hist c.
Proof. split; try done. by intros [|]. Qed.

Lemma init_ext_cases h0 lid kp f ps w r w' :
  handshake_responder_init_ext (Some h0) (Some lid) kp (Some f) ps w = (r, w') ->
  (r.1 <> HANDSHAKE_OK /\ r.2 = Some ctx_failed_zero) \/
  (exists h, r = (HANDSHAKE_OK, Some h) /\ ctx_live h /\ hc_state h = HANDSHAKE_STATE_NEW /\
     hc_role h = HANDSHAKE_ROLE_RESPONDER /\ hc_lookup_fn h = Some f).
Proof.
  unfold handshake_responder_init_ext, responder_init_impl. intros H.
  mopen H; [rewrite M_ret_unfold in H; apply pair_equal_spec in H as [<- _]; by left|].
  rewrite !orb_false_iff, !negb_false_iff, !id_len_valid_ok in Heqb. destruct Heqb as [[[Hid _] _] _].
  mopen H. destruct x as [st1 c1]. cbv beta iota zeta in H.
  apply init_common_live in Hcall as [[-> ->]|(-> & Hl & Hs & Hr & _ & _ & _ & _ & Hf & _)];
    [rewrite bool_decide_eq_false_2 in H by done|rewrite bool_decide_eq_true_2 in H by done|done..];
    cbn [negb] in H; rewrite M_ret_unfold in H; apply pair_equal_spec in H as [<- _]; [by left|].
  right. exists (set_pending c1 true). split_and!; try done. by destruct Hl as [[]].
Qed.

Lemma send_inv hist a sl c k w lg :
  c_stage c = CONN_STAGE_AWAIT_CH -> blen (c_handle c) = Store.STORE_ID_MAX -> blen (c_user_id c) = Store.STORE_ID_MAX ->
  has_pin hist c -> c_hs_live c = true ->
  ctx_live (c_hs c) -> hc_role (c_hs c) = HANDSHAKE_ROLE_RESPONDER -> hc_state (c_hs c) = HANDSHAKE_STATE_CLIENT_HELLO_ACCEPTED ->
  hc_peer_pk (c_hs c) = Some (c_pin_pk c) ->
  conn_inv hist (s_c (send_server_hello (St a sl c k w lg)).2).
Proof.
  intros Hst Hh Hu Hp Hlv Hl Hr Hs Hpk. unfold send_server_hello. rewrite run_get_app, run_get_c, run_lib.
  destruct (handshake_responder_create_server_hello _ _ _ _ _ w) as [r w1] eqn:Hc. cbn [fst snd].
  assert (forall h, conn_inv hist (c_set_hs h c)) as Hq by (intros h; apply conn_inv_quiet; cbn; congruence).
  apply create_server_hello_cases in Hc as
    [(st1 & oc & ps' & (? & _ & _ & Ht & _) & _ & ->)|[->|(ch & sh & sk & ss & ps' & _ & _ & _ & _ & ->)]]; try done;
    rewrite run_on_c, run_on_app; cbn [default id].
  - rewrite bool_decide_false by (by intros ->). exact (Hq _).
  - exact (Hq _).
  - rewrite bool_decide_true by done. cbn [negb]. rewrite run_queue. destruct (bool_decide _); cbn [negb]; [|exact (Hq _)].
    pose proof (after_server_hello_sent_live (c_hs c) ch sh sk ss Hl Hr Hs) as Hl'.
    change (conn_inv hist (c_set_stage CONN_STAGE_AWAIT_CA (c_set_hs (after_server_hello_sent (c_hs c) ch sh sk ss) c))).
    split; cbn; try done. congruence.
Qed.

Lemma answer_inv hist payload a sl c k w lg :
  c_stage c = CONN_STAGE_AWAIT_CH -> blen (c_handle c) = Store.STORE_ID_MAX -> blen (c_user_id c) = Store.STORE_ID_MAX ->
  (c_hs_live c = false -> c_hs c = ctx_failed_zero) -> has_pin hist c ->
  (forall ch n, decode_client_hello (Some payload) (Some client_hello_zero) (Some 0) = (0, Some ch, n) ->
     authd_conn_pin_lookup (Some c) (Some (ztake (ch_id_len ch) (ch_id ch))) = Some (c_pin_pk c)) ->
  conn_inv hist (s_c (answer_client_hello payload (St a sl c k w lg)).2).
Proof.
  intros Hst Hh Hu Hdead Hp Hpin. unfold answer_client_hello. rewrite run_get_app, run_get_c, run_lib.
  destruct (handshake_responder_init_ext _ _ _ _ _ w) as [r w1] eqn:Hi. cbn [fst snd]. rewrite run_on_c.
  apply init_ext_cases in Hi as [[Hne Hz]|(h & -> & Hl & Hs & Hr & Hf)].
  { rewrite bool_decide_false by done. rewrite Hz.
    change (conn_inv hist (c_set_hs ctx_failed_zero c)). apply conn_inv_quiet; cbn; rewrite ?Hst; done. }
  rewrite bool_decide_true by done. cbn [negb default id snd]. rewrite run_on_c, run_get_c, run_lib. cbn [c_hs c_set_live c_set_hs].
  destruct (handshake_responder_accept_client_hello _ _ w1) as [r w2] eqn:Ha. cbn [fst snd]. rewrite run_on_c.
  pose proof (decode_client_hello_cases payload) as Hd.
  apply accept_client_hello_cases in Ha as [(? & _ & _ & Ht & _)|(msg & pk & Hv & Hpad & -> & Hres & ->)]; try done.
  { rewrite bool_decide_false by (by intros He; rewrite He in Ht).
    change (conn_inv hist (c_set_hs (default h r.2) (c_set_live true (c_set_hs h c)))). apply conn_inv_quiet; cbn; rewrite ?Hst; done. }
  rewrite bool_decide_true by done. cbn [negb default id snd]. unfold resolve_peer_pk in Hres. rewrite Hf in Hres.
  apply pair_equal_spec in Hres as [Hres _].
  assert (pk = c_pin_pk c) as ->.
  { destruct Hd as [(m & Hd & Hvm & _ & Hw)|Hd]; cycle 1.
    - pose proof (decode_client_hello_fields_complete msg Hv) as Hc. unfold decode_client_hello in Hd. by rewrite Hc in Hd.
    - destruct (client_hello_wire_fields msg m Hv Hvm Hw) as (_ & Hid & _). rewrite Hid, (Hpin m _ Hd) in Hres. by injection Hres. }
  assert (blen (client_hello_wire msg) <= CLIENT_HELLO_MAX_ENCODED_LEN)
    by (rewrite length_client_hello_wire by done; by apply client_hello_fits).
  apply send_inv; try done. by apply after_client_hello_live.
Qed.

Lemma resolve_none handle u n a slot c k w lg : app_store a = None -> exists k' w',
  authd_conn_resolve_pin spins handle u n (St a slot c k w lg) = ((-1, zeros STORE_PK_BYTES, u, n), St a slot c k' w' lg).
Proof. intros Hs. unfold authd_conn_resolve_pin. do 3 drun. rewrite Hs. by eexists _, _. Qed.

Lemma hello_id_ok b ch n : decode_client_hello (Some b) (Some client_hello_zero) (Some 0) = (0, Some ch, n) ->
  let id := ztake (ch_id_len ch) (ch_id ch) in blen id = ch_id_len ch /\ 0 < blen id <= Store.STORE_ID_MAX.
Proof.
  destruct (decode_client_hello_cases b) as [(m & -> & Hv & Hp & _) | ->]; [|done]. intros [= <- <-]. cbv zeta.
  destruct Hv as [[] Hok]. unfold Transcript.id_ok, WIRE_ID_MIN_LEN, WIRE_ID_MAX_LEN, Store.STORE_ID_MAX in *.
  rewrite length_take. lia.
Qed.

(** The store's answer about an identity. *)
Abbreviation looked_up a handle k :=
  (store_lookup_active (app_store a) (Some handle) true (Some Store.STORE_ID_MAX) false () k).

(** What a resolved pin makes of a connection. *)
Lemma pin_conn_inv hist s payload ch n st0 : conn_inv hist (s_c s) -> c_stage (s_c s) = CONN_STAGE_AWAIT_CH ->
  decode_client_hello (Some payload) (Some client_hello_zero) (Some 0) = (0, Some ch, n) ->
  let id := ztake (ch_id_len ch) (ch_id ch) in
  let c := pin_conn st0 (looked_up (s_app s) id (s_db s)).1.1 id (s_c s) in
  c_stage c = CONN_STAGE_AWAIT_CH /\ blen (c_handle c) = Store.STORE_ID_MAX /\ blen (c_user_id c) = Store.STORE_ID_MAX /\
  (c_hs_live c = false -> c_hs c = ctx_failed_zero) /\ has_pin (hist ++ [(view (s_db s), payload)]) c.
Proof.
  intros [Hh Hu Hd _ _] Hst Hdec. destruct (hello_id_ok _ _ _ Hdec) as [Hlen Hid]. cbv zeta.
  set (id := ztake _ _) in *.
  assert (blen (poke 0 id (c_handle (s_c s))) = Store.STORE_ID_MAX) as Hp by (rewrite length_poke; lia).
  destruct (looked_up _ _ _) as [[[e | [[pk uid] role]] o] k'] eqn:El; cbn [fst snd pin_conn]; [done|].
  apply lookup_identity in El as (u & -> & Hul & Ha). unfold has_pin, handle_of, user_of. cbn -[poke take].
  rewrite !take_poke_0. split_and!; try done; try lia; [rewrite length_poke; lia|].
  intros _. exists (view (s_db s)), payload, ch, n. split_and!; try done. apply elem_of_app. right. by left.
Qed.

Lemma hello_inv hist payload s : conn_inv hist (s_c s) -> c_stage (s_c s) = CONN_STAGE_AWAIT_CH ->
  conn_inv (hist ++ [(view (s_db s), payload)]) (s_c (on_client_hello spins payload s).2).
Proof.
  intros Hc Hst. destruct (decode_client_hello_cases payload) as [(ch & Hd & _) | Hd]; cycle 1.
  { unfold on_client_hello. rewrite Hd. exact (conn_inv_more _ _ _ Hc). }
  destruct (app_store (s_app s)) as [st0|] eqn:Hs; cycle 1.
  { destruct s as [a sl c k w lg]. cbn [s_app s_c] in *. unfold on_client_hello. rewrite Hd. cbn [Z.eqb negb default id]. rewrite run_get_c, D_bind_unfold.
    edestruct resolve_none as (k' & w' & ->); [done|]. apply conn_inv_more.
    change (conn_inv hist (c_set_user (c_user_id c) (c_user_id_len c) c)). by destruct c. }
  destruct (pin_conn_inv _ s _ _ _ st0 Hc Hst Hd) as (H1 & H2 & H3 & H4 & H5). destruct (hello_id_ok _ _ _ Hd) as [_ Hid].
  destruct s as [a sl c k w lg]. rewrite (hello_run _ _ _ _ _ _ _ _ _ _ st0 Hd Hs).
  apply answer_inv; try done. intros ch' n'. rewrite Hd. intros [= <- <-]. by rewrite pin_conn_lookup by lia.
Qed.

(** *** ClientAuth *)

(** The fields that say whose connection it is. *)
Definition same_pin c c' : Prop :=
  c_handle c' = c_handle c /\ c_handle_len c' = c_handle_len c /\ c_user_id c' = c_user_id c /\
  c_user_id_len c' = c_user_id_len c /\ c_pin_pk c' = c_pin_pk c /\ c_pin_set c' = c_pin_set c /\ c_decoy c' = c_decoy c.

#[local] Instance same_pin_order : PreOrder (fun s s' => same_pin (s_c s) (s_c s')).
Proof. split; [by intros s|]. intros s1 s2 s3 (?&?&?&?&?&?&?) (?&?&?&?&?&?&?). repeat split; congruence. Qed.

Lemma has_pin_same hist c c' : same_pin c c' -> has_pin hist c -> has_pin hist c'.
Proof. unfold same_pin, has_pin, handle_of, user_of. intros (-> & -> & -> & -> & -> & -> & ->). done. Qed.

Lemma lib_c {A} (m : M A) s : s_c (lib m s).2 = s_c s.
Proof. unfold lib. by destruct (m (s_w s)). Qed.
Lemma sql_c {O A} (o : O) (m : T O A) s : s_c (sql o m s).2 = s_c s.
Proof. unfold sql. by destruct (m o (s_db s)) as [[? ?] ?]. Qed.

Lemma auth_pin payload s : same_pin (s_c s) (s_c (on_client_auth payload s).2).
Proof.
  revert s. apply moves_auth with (Q := fun s s' => same_pin (s_c s) (s_c s')); try apply _;
    intros; intros s; cbv beta; rewrite ?lib_c, ?sql_c; by repeat split.
Qed.

(** Verifying a ClientAuth in a context that, if it waits for one, is live. *)
Lemma verify_auth h ps b w st1 oh ps' w' :
  (hc_state h = HANDSHAKE_STATE_SERVER_HELLO_CREATED -> ctx_live h /\ hc_role h = HANDSHAKE_ROLE_RESPONDER) ->
  handshake_responder_verify_client_auth (Some h) ps (Some b) w = ((st1, oh, ps'), w') ->
  exists h', oh = Some h' /\
  (h' = h \/ hc_state h = HANDSHAKE_STATE_SERVER_HELLO_CREATED) /\
  ((st1 <> HANDSHAKE_OK /\ (h' = h \/ hc_state h' = HANDSHAKE_STATE_FAILED)) \/
   (st1 = HANDSHAKE_OK /\ hc_state h = HANDSHAKE_STATE_SERVER_HELLO_CREATED /\ exists msg digest pk ssx ssk keys,
      client_auth_accepted h ps b msg digest pk ssx ssk keys w /\ h' = after_client_auth h keys)).
Proof.
  intros Harm H. destruct (right_call (CallVerifyClientAuth (Some b)) h) as [[Hr Hs]|Hbad]; cycle 1.
  { apply check_call_bad in Hbad. unfold handshake_responder_verify_client_auth in H. cbn [call_role call_state] in Hbad.
    rewrite Hbad in H. injection H as <- <- _ _. eexists. split; [done|]. split; [by left|]. left. by split; [|left]. }
  cbn [call_role call_state] in Hr, Hs. destruct (Harm Hs) as [Hl _].
  apply verify_client_auth_cases in H as
    [[[= -> -> ->]|[= -> -> ->]]|[[[= -> ->] _]|[[(c1 & Hsz & _ & Ht & Ho) _]|(msg & dg & pk & sx & sk & keys & Ha & [= -> ->] & _)]]];
    try done; try (eexists; split; [done|]; split; [by left|]; left; by split; [|left]).
  - cbn in Ht, Ho. eexists. split; [exact Ho|]. split; [by right|]. left. split; [by intros He; rewrite He in Ht|]. by right.
  - eexists. split; [done|]. split; [by right|]. right. by eauto 10.
Qed.

Lemma wipe_zero h ps w : (handshake_ctx_wipe (Some h) ps w).1.1 = Some ctx_failed_zero.
Proof. unfold handshake_ctx_wipe. destruct (_ && _ && _); [|done]. rewrite M_bind_unfold. done. Qed.

Lemma session_init_hs x0 h lim f ps w ss sess hs ps' w' :
  session_init_from_handshake (Some x0) (Some h) lim f ps w = ((ss, sess, hs, ps'), w') ->
  (ss = SESSION_OK /\ hs = Some ctx_failed_zero) \/ (ss <> SESSION_OK /\ hs = Some h).
Proof.
  unfold session_init_from_handshake. intros H.
  mopens H; rewrite ?M_ret_unfold in H; simplify_eq; try (by right). left. split; [done|].
  match goal with Hw : handshake_ctx_wipe _ _ ?v = (?r, _) |- _ => pose proof (wipe_zero h ps v) as Hz; by rewrite Hw in Hz end.
Qed.

(** The handshake context of a connection, and whether it is in use. *)
Definition same_hs c c' : Prop := c_stage c' = c_stage c /\ c_hs c' = c_hs c /\ c_hs_live c' = c_hs_live c.
#[local] Instance same_hs_order : PreOrder (fun s s' => same_hs (s_c s) (s_c s')).
Proof. split; [by intros s|]. intros s1 s2 s3 (?&?&?) (?&?&?). repeat split; congruence. Qed.

Lemma queue_sealed_hs p n s : same_hs (s_c s) (s_c (queue_sealed p n s).2).
Proof.
  revert s. apply moves_queue_sealed with (Q := fun s s' => same_hs (s_c s) (s_c s')); try apply _;
    intros; intros s; cbv beta; rewrite ?lib_c; by repeat split.
Qed.

Lemma issue_hs a sl c k w lg :
  let c' := s_c (issue_login_code (St a sl c k w lg)).2 in
  c_stage c' = c_stage c /\ ((c_hs c' = c_hs c /\ c_hs_live c' = c_hs_live c) \/ c_hs c' = ctx_failed_zero).
Proof.
  cbv zeta. unfold issue_login_code. rewrite run_get_app, run_get_c.
  destruct (handshake_get_handshake_id _) as [hst hsid].
  destruct (bool_decide (hst = HANDSHAKE_OK)); cbn [negb]; [|by split; [|left]].
  rewrite run_lib. destruct (session_init_from_handshake _ _ _ _ _ w) as [[[[ss sess] hs] ps] w1] eqn:Hi. cbn [fst snd].
  rewrite run_on_c, run_on_app. apply session_init_hs in Hi as [[-> ->]|[Hne ->]]; cycle 1.
  { rewrite bool_decide_false by done. by split; [|left]. }
  rewrite bool_decide_true by done. cbn [negb default id]. rewrite !run_on_c, D_bind_unfold.
  edestruct rotation_due_run as (due & k' & -> & _). cbn [fst snd].
  rewrite run_lib, run_get_slot, run_get_c, run_sql.
  destruct (store_add_login_code _ _ _ _ _ _ _ _ _ _) as [[[e|?] o] k2]; cbn [fst snd]; [by split; [|right]|].
  destruct (authmsg_encode_login_code _ _ _ _) as [[es content] n].
  destruct (bool_decide (es = AUTHMSG_OK)); cbn [negb]; [|by split; [|right]]. rewrite D_bind_unfold.
  match goal with |- context [queue_sealed ?p ?m ?s] => destruct (queue_sealed_hs p m s) as (Q1 & Q2 & _); destruct (queue_sealed p m s) end.
  cbn in *. by split; [|right].
Qed.

Lemma finish_hs h : exists h', (handshake_responder_finish (Some h)).2 = Some h' /\
  (h' = h \/ hc_state h' = HANDSHAKE_STATE_ESTABLISHED).
Proof. unfold handshake_responder_finish. destruct (check_call _ _ _); eexists; (split; [done|]); auto. Qed.

Lemma auth_hs payload a sl c k w lg :
  (hc_state (c_hs c) = HANDSHAKE_STATE_SERVER_HELLO_CREATED -> ctx_live (c_hs c) /\ hc_role (c_hs c) = HANDSHAKE_ROLE_RESPONDER) ->
  let c' := s_c (on_client_auth payload (St a sl c k w lg)).2 in
  (c_stage c' = c_stage c \/ c_stage c' = CONN_STAGE_SERVING) /\
  (c_hs c' = c_hs c \/ hc_state (c_hs c') <> HANDSHAKE_STATE_SERVER_HELLO_CREATED) /\
  (c_hs_live c' = c_hs_live c \/ c_hs c' = ctx_failed_zero) /\
  (c_hs c' = c_hs c \/ hc_state (c_hs c) = HANDSHAKE_STATE_SERVER_HELLO_CREATED).
Proof.
  intros Harm. cbv zeta. unfold on_client_auth. rewrite run_get_app, run_get_c, run_lib.
  destruct (handshake_responder_verify_client_auth _ _ _ w) as [[[hst hs] ps] w1] eqn:Hv. cbn [fst snd].
  rewrite run_on_c, run_on_app. apply verify_auth in Hv as (h & -> & Hw & Hh); [|done]. cbn [default id].
  destruct Hh as [[Hne Hh]|(-> & Hshc & msg & dg & pk & sx & sk & keys & Ha & ->)].
  { rewrite bool_decide_false by done. cbn [negb].
    assert (h = c_hs c \/ hc_state h <> HANDSHAKE_STATE_SERVER_HELLO_CREATED) by (destruct Hh as [->| ->]; auto).
    destruct (retryable hst); (split; [by left|split; [done|split; [by left|done]]]). }
  rewrite bool_decide_true by done. cbn [negb]. rewrite run_get_c. cbn [c_hs c_set_hs].
  set (h1 := after_client_auth (c_hs c) keys). pose proof (finish_hs h1) as Hf.
  destruct (handshake_responder_finish _) as [fs hs']. destruct Hf as (h2 & Hh2 & Hf). cbn in Hh2. subst hs'. rewrite run_on_c.
  cbn [default id].
  assert (hc_state h2 <> HANDSHAKE_STATE_SERVER_HELLO_CREATED) as Hns by (by destruct Hf as [->| ->]).
  destruct (_ || _); [by split; [left|split; [right|split; [left|right]]]|]. rewrite run_get_c. cbn [c_decoy c_user_id_len c_set_hs].
  destruct (_ || _); [by split; [left|split; [right|split; [left|right]]]|].
  rewrite D_bind_unfold.
  match goal with |- context [issue_login_code (St ?x ?y ?z k w1 lg)] => pose proof (issue_hs x y z k w1 lg) as Hi;
    cbv zeta in Hi; destruct (issue_login_code (St x y z k w1 lg)) as [rc [a1 sl1 c1 k1 w2 lg1]] end.
  cbn [fst snd s_c c_stage c_hs c_hs_live c_set_hs] in *. destruct Hi as [Hst Hi].
  assert ((c_hs c1 = c_hs c \/ hc_state (c_hs c1) <> HANDSHAKE_STATE_SERVER_HELLO_CREATED) /\
    (c_hs_live c1 = c_hs_live c \/ c_hs c1 = ctx_failed_zero)) as Hc1
    by (destruct Hi as [[-> ->]| ->]; auto).
  destruct Hc1. destruct (rc =? 0); cbn [negb]; [|by split_and!; auto].
  rewrite run_get_c, run_sql, run_bump, run_get_slot, run_lib.
  destruct (sl_addr_admitted sl1); rewrite D_bind_unfold; split_and!; auto.
Qed.

Lemma auth_inv hist payload s : conn_inv hist (s_c s) -> c_stage (s_c s) = CONN_STAGE_AWAIT_CA ->
  conn_inv hist (s_c (on_client_auth payload s).2).
Proof.
  intros [Hh Hu Hd Hp Ha] Hst. pose proof (auth_pin payload s) as Hs. destruct s as [a sl c k w lg]. cbn [s_c] in *.
  destruct (auth_hs payload a sl c k w lg) as (H1 & H2 & H3 & H4); [intros Hc; by destruct (Ha Hst Hc) as (? & ? & _)|].
  set (c' := s_c _) in *. pose proof Hs as (E1 & _ & E3 & _ & E5 & _ & _). split; rewrite ?E1, ?E3; try done.
  - intros Hl. destruct H3 as [H3|?]; [|done]. assert (c_hs c = ctx_failed_zero) as Hz by (apply Hd; congruence).
    destruct H4 as [->|H4]; [done|]. by rewrite Hz in H4.
  - intros _. eapply has_pin_same; [exact Hs|]. apply Hp. by left.
  - intros Hst' Hc'. destruct H2 as [He|?]; [|done]. rewrite E5, He in *. by apply Ha.
Qed.

(** *** Records and whole frames *)

Definition record_step c c' : Prop :=
  same_pin c c' /\ c_hs c' = c_hs c /\ c_hs_live c' = c_hs_live c /\ (c_stage c' = c_stage c \/ c_stage c' = CONN_STAGE_CLOSING).
#[local] Instance record_step_order : PreOrder (fun s s' => record_step (s_c s) (s_c s')).
Proof.
  split; [intros s; split_and!; by repeat split || left|].
  intros s1 s2 s3 (P1 & ? & ? & S1) (P2 & ? & ? & S2). split_and!; try congruence; [exact (transitivity (R := fun s s' => same_pin (s_c s) (s_c s')) P1 P2)|].
  destruct S2 as [->|]; [done|by right].
Qed.

Lemma record_conn payload s : record_step (s_c s) (s_c (on_record payload s).2).
Proof.
  revert s. apply moves_record with (Q := fun s s' => record_step (s_c s) (s_c s')); try apply _;
    intros; intros s; cbv beta; rewrite ?lib_c, ?sql_c; split_and!; solve [by repeat split|by left|by right].
Qed.

Lemma record_inv hist payload s : conn_inv hist (s_c s) -> c_stage (s_c s) = CONN_STAGE_SERVING ->
  conn_inv hist (s_c (on_record payload s).2).
Proof.
  intros [Hh Hu Hd Hp _] Hst. destruct (record_conn payload s) as (Hs & H1 & H2 & H3). set (c' := s_c _.2) in *.
  pose proof Hs as (E1 & _ & E3 & _). split; rewrite ?E1, ?E3, ?H1, ?H2; try done.
  - intros _. eapply has_pin_same; [exact Hs|]. apply Hp. by right.
  - destruct H3 as [-> | ->]; congruence.
Qed.

Lemma frame_inv hist payload s : conn_inv hist (s_c s) ->
  conn_inv (hist ++ [(view (s_db s), payload)]) (s_c (on_frame_body spins payload s).2).
Proof.
  intros Hc. unfold on_frame_body.
  assert (forall s1, s_db s1 = s_db s -> conn_inv hist (s_c s1) ->
    conn_inv (hist ++ [(view (s_db s), payload)]) (s_c ((c ← get_c;
      match c_stage c with
      | CONN_STAGE_AWAIT_CH => on_client_hello spins payload
      | CONN_STAGE_AWAIT_CA => on_client_auth payload
      | CONN_STAGE_SERVING => on_record payload
      | _ => mret EV_ACTION_CLOSE
      end) s1).2)) as Hrest.
  { intros s1 <- Hc1. destruct s1 as [a sl c k w lg]. rewrite run_get_c. destruct (c_stage c) eqn:Hst;
      [by apply conn_inv_more|by apply hello_inv|apply conn_inv_more; by apply auth_inv|apply conn_inv_more; by apply record_inv|by apply conn_inv_more]. }
  destruct s as [a sl c k w lg]. rewrite run_get_slot, run_get_c. destruct (_ || _); [|by apply Hrest].
  rewrite D_bind_unfold. destruct (bind_zero hist (St a sl c k w lg) Hc) as (a1 & sl1 & w1 & ->). apply Hrest; [done|].
  by apply conn_inv_quiet; try by vm_compute.
Qed.

Lemma lived_inv hist c : lived hist c -> conn_inv hist c.
Proof.
  induction 1 as [|hist s payload x s' _ IH Hf|hist s s' _ IH Hr].
  - apply conn_inv_zero.
  - pose proof (frame_inv hist payload s IH) as Hi. by rewrite Hf in Hi.
  - pose proof (reset_zero hist s IH) as Hz. rewrite Hr in Hz. cbn in Hz. rewrite Hz. apply conn_inv_zero.
Qed.

(** ** The gates *)

Lemma moved_idle R `{!PreOrder R} k k' : idle k -> moved R k k' -> R (disk k) (disk k').
Proof. intros Hi Hm. apply Hm. rewrite idle_view by done. reflexivity. Qed.

(** The frame is handled by the stage it meets, after a bind if need be. *)
Lemma frame_stage hist payload s : conn_inv hist (s_c s) ->
  let r := on_frame_body spins payload s in
  r = (EV_ACTION_CLOSE, s) \/
  (exists s1, s_db s1 = s_db s /\ r = on_client_hello spins payload s1) \/
  (c_stage (s_c s) = CONN_STAGE_AWAIT_CA /\ r = on_client_auth payload s) \/
  (c_stage (s_c s) = CONN_STAGE_SERVING /\ r = on_record payload s).
Proof.
  intros Hc. cbv zeta. unfold on_frame_body. destruct s as [a sl c k w lg]. rewrite run_get_slot, run_get_c. destruct (_ || _).
  - rewrite D_bind_unfold. destruct (bind_zero hist (St a sl c k w lg) Hc) as (a1 & sl1 & w1 & ->). right. left.
    by exists (St a1 sl1 (c_set_stage CONN_STAGE_AWAIT_CH conn_zero) k w1 lg).
  - rewrite run_ret, run_get_c. cbn [s_c]. destruct (c_stage c); eauto 6.
Qed.

(** The id the finished context reports is the handshake's. *)
Lemma finish_id h hs hsid : handshake_responder_finish (Some h) = (HANDSHAKE_OK, hs) ->
  handshake_get_handshake_id (Some (default h hs)) = (HANDSHAKE_OK, hsid) -> hsid = hc_handshake_id h.
Proof.
  unfold handshake_responder_finish, handshake_get_handshake_id. destruct (check_call _ _ _); [|done..].
  intros [= <-]. cbn [default id]. destruct (_ || _); [done|]. by intros [= <-].
Qed.

(** C23: The login gate.  Over every history of a connection record and whatever
    the rest of the daemon did in between: if a frame changes the login codes,
    then exactly one row is added, its hash was unused, and it is made out to the
    handle and user whose key was the active one of an active device of an active
    user when the connection's ClientHello named that handle; the frame is a
    ClientAuth for this very handshake, whose signature verifies under that key
    over the digest the ledger holds; the row is bound to the handshake and to the
    state of the browser's URL and expires after the configured time. *)
Theorem login_gate hist s payload x s' :
  lived hist (s_c s) -> idle (s_db s) -> on_frame_body spins payload s = (x, s') ->
  login_codes (disk (s_db s')) <> login_codes (disk (s_db s)) ->
  let c := s_c s in let hid := hc_handshake_id (c_hs c) in
  c_stage c = CONN_STAGE_AWAIT_CA /\ greeted hist (handle_of c) (c_pin_pk c) (user_of c) /\
  exists msg digest ps w1 code,
    payload = client_auth_wire msg /\ ca_handshake_id msg = hid /\
    handshake_pending_get_digest (pending (s_app s)) hid (s_w s) = ((PENDING_OK, ps, digest), w1) /\
    OQS_SIG_verify digest (ztake (ca_sig_len msg) (ca_sig msg)) (c_pin_pk c) = true /\
    crypto_hash_sha256 code ∉ (c_hash <$> login_codes (disk (s_db s))) /\
    login_codes (disk (s_db s')) = login_codes (disk (s_db s)) ++ [login_row (s_app s) (s_slot s) c hid code].
Proof.
  intros Hl%lived_inv Hi Hf Hne. cbv zeta.
  destruct (frame_stage _ payload s Hl) as [Hr|[(s1 & Hdb & Hr)|[[Hst Hr]|[Hst Hr]]]]; rewrite Hf in Hr.
  - by injection Hr as -> ->.
  - destruct Hne. pose proof (hello_codes payload s1) as Hm. rewrite <-Hr, Hdb in Hm. by apply (moved_idle codes_same).
  - destruct s as [a sl c k w lg]. cbn [s_c s_db s_app s_slot s_w] in *.
    destruct (auth_codes payload a sl c k w lg) as [Hm|(hs & ps & w' & hs' & hsid & code & Hv & Hfin & Hid & Hd & Hu & Hm)].
    { destruct Hne. rewrite <-Hr in Hm. by apply (moved_idle codes_same). }
    destruct (ci_pin _ _ Hl (or_introl Hst)) as (_ & _ & Hg). split; [done|]. split; [by apply Hg|].
    apply verify_auth in Hv as (h & -> & _ & [[? _]|(_ & Hshc & msg & dg & pk & sx & sk & keys & Ha & ->)]);
      [done| |intros Hc; by destruct (ci_armed _ _ Hl Hst Hc) as (? & ? & _)].
    destruct (ci_armed _ _ Hl Hst Hshc) as (_ & _ & Hpk), Ha as [_ Hw Hh (ps1 & w1 & Hdg) Hpk' Hsig _ _ _].
    apply (finish_id _ _ _ Hfin) in Hid as ->.
    rewrite <-Hr in Hm. apply (moved_idle (code_added _)) in Hm as [?|[Hn Hrow]]; [done| |done].
    exists msg, dg, ps1, w1, code. split_and!; try done. by rewrite Hpk in Hpk'; injection Hpk' as ->.
  - destruct Hne. pose proof (record_codes payload s) as Hm. rewrite <-Hr in Hm. by apply (moved_idle codes_same).
Qed.

(** Teardown.  Whatever a connection went through, closing it leaves its
    record exactly as the pool was allocated: the handshake secrets, the session
    keys, the pin and the identity are gone, so the next peer on the slot finds
    nothing of the previous one. *)
Theorem teardown_clean hist s : lived hist (s_c s) -> s_c (conn_reset s).2 = conn_zero.
Proof. intros Hl%lived_inv. by apply (reset_zero hist). Qed.

(** *** Rotation *)

Lemma hello_keys payload s : moved keys_same (s_db s) (s_db (on_client_hello spins payload s).2).
Proof.
  revert s. apply moves_hello with (Q := fun s s' => moved keys_same (s_db s) (s_db s')); try apply _;
    unmoved; intros; by apply sql_moves, grows_lookup, _.
Qed.
Lemma auth_keys payload s : moved keys_same (s_db s) (s_db (on_client_auth payload s).2).
Proof.
  revert s. apply moves_auth with (Q := fun s s' => moved keys_same (s_db s) (s_db s')); try apply _;
    unmoved; intros; apply sql_moves; [by apply grows_age, _|apply keys_add_code|by apply grows_touch; [apply _|]].
Qed.
Lemma fail_db code why s : s_db (fail_with_error code why s).2 = s_db s.
Proof.
  revert s. apply moves_fail with (Q := fun s s' => s_db s' = s_db s); try apply _;
    intros; intros s; cbv beta; by rewrite ?lib_db.
Qed.

(** A ROTATE of the plaintext [pt] that both keys signed, for this session and
    this handle. *)
Record rotation_signed c (pt : list byte) (m : authmsg_rotate_t) (pk_new : list byte) : Prop := {
  rs_once : c_rotated c = false;
  rs_real : c_hsid_set c = true /\ c_decoy c = false;
  rs_decoded : authmsg_decode_rotate (Some pt) (Some rotate_zero) = (AUTHMSG_OK, Some m);
  rs_new : pk_new = default [] (follow pt (rt_pk_new m) MLDSA_PUBLIC_KEY_BYTES);
  rs_handle : rt_handle_len m = c_handle_len c /\
    ztake (c_handle_len c) (default [] (follow pt (rt_handle m) (rt_handle_len m))) = handle_of c;
  rs_old_sig : exists dg, authmsg_rotate_digest (Some (zeros DIGEST_BYTES)) (Some AUTHMSG_LABEL_ROTATE_OLD) (Some (c_handshake_id c))
      (rt_flags m) (Some (c_handle c)) (c_handle_len c) (Some (c_pin_pk c)) (Some pk_new) = (AUTHMSG_OK, dg) /\
    OQS_SIG_verify (default [] dg) (default [] (follow pt (rt_sig_old m) (rt_sig_old_len m))) (c_pin_pk c) = true;
  rs_new_sig : exists dg, authmsg_rotate_digest (Some (zeros DIGEST_BYTES)) (Some AUTHMSG_LABEL_ROTATE_NEW) (Some (c_handshake_id c))
      (rt_flags m) (Some (c_handle c)) (c_handle_len c) (Some (c_pin_pk c)) (Some pk_new) = (AUTHMSG_OK, dg) /\
    OQS_SIG_verify (default [] dg) (default [] (follow pt (rt_sig_new m) (rt_sig_new_len m))) pk_new = true }.

Definition drops_tokens (m : authmsg_rotate_t) : bool := negb (Z.land (bz (rt_flags m)) AUTHMSG_FLAG_ROTATE_DROP_TOKENS =? 0).

Lemma verified msg sig pk w : negb ((mldsa_verify msg sig (Some pk) w).1 =? 0) = false -> OQS_SIG_verify msg sig pk = true.
Proof.
  unfold mldsa_verify. rewrite M_bind_unfold. destruct (OQS_SIG_new w) as [[sig0|] w1]; [|done]. cbn.
  by destruct (OQS_SIG_verify msg sig pk).
Qed.

Lemma pin_lookup_some c h pk : authd_conn_pin_lookup (Some c) (Some h) = Some pk -> pk = c_pin_pk c.
Proof. cbn. destruct (_ || _); [done|]. destruct (negb _); [done|]. by intros [= <-]. Qed.

Lemma rotate_run pt a sl c k w lg :
  let k' := s_db (on_rotate pt (St a sl c k w lg)).2 in
  k' = k \/
  exists m pk_new, rotation_signed c pt m pk_new /\
    k' = (store_rotate_key (app_store a) (Some (handle_of c)) (Some pk_new) (Some (c_pin_pk c)) (Some (c_handshake_id c))
            (drops_tokens m) (app_now_unix a) (RotateOut 0 0) k).2.
Proof.
  cbv zeta. unfold on_rotate. rewrite run_get_app, run_get_c.
  destruct (c_rotated c) eqn:H1; [left; apply fail_db|].
  destruct (_ || _) eqn:H2; [left; apply fail_db|]. apply orb_false_iff in H2 as [H2%negb_false_iff H3].
  destruct (authmsg_decode_rotate _ _) as [ds m0] eqn:Hdec.
  destruct (bool_decide_reflect (ds = AUTHMSG_OK)) as [->|]; cbn [negb]; [|left; apply fail_db].
  assert (exists m, m0 = Some m) as [m ->] by (unfold authmsg_decode_rotate in Hdec; repeat case_match; simplify_eq; eauto).
  cbn [default id].
  destruct (authd_conn_pin_lookup _ _) as [pk_old|] eqn:Hpin; [|left; apply fail_db].
  apply pin_lookup_some in Hpin as ->.
  destruct (_ || _) eqn:H4; [left; apply fail_db|].
  apply orb_false_iff in H4 as [H4%negb_false_iff%Z.eqb_eq H5%negb_false_iff].
  set (pk_new := default [] (follow pt (rt_pk_new m) MLDSA_PUBLIC_KEY_BYTES)) in *.
  destruct (authmsg_rotate_digest _ (Some AUTHMSG_LABEL_ROTATE_OLD) _ _ _ _ _ _) as [g1 d1] eqn:Hg1.
  destruct (bool_decide_reflect (g1 = AUTHMSG_OK)) as [->|]; cbn [negb]; [|left; apply fail_db].
  rewrite run_lib. destruct (negb _) eqn:Hv1; [left; apply fail_db|]. apply verified in Hv1.
  destruct (authmsg_rotate_digest _ (Some AUTHMSG_LABEL_ROTATE_NEW) _ _ _ _ _ _) as [g2 d2] eqn:Hg2.
  destruct (bool_decide_reflect (g2 = AUTHMSG_OK)) as [->|]; cbn [negb]; [|left; apply fail_db].
  rewrite run_lib. destruct (negb _) eqn:Hv2; [left; apply fail_db|]. apply verified in Hv2.
  rewrite run_sql. right. exists m, pk_new. split.
  { split; try done; [split; [done|]|by exists d1|by exists d2]. unfold memeq in H5. by apply bool_decide_eq_true in H5. }
  fold (drops_tokens m). destruct (store_rotate_key _ _ _ _ _ _ _ _ _) as [[[e|u] o] k']; cbn [fst snd].
  { destruct (bool_decide _); apply fail_db. }
  rewrite !run_log, run_log_id, D_bind_unfold.
  match goal with |- context [(if ?b then log ?l else _) ?s] => set (s2 := ((if b then log l else mret ()) s).2);
    assert (s_db s2 = k') as Hs2 by (unfold s2; by destruct b); etransitivity; [|exact Hs2]; clear Hs2; clearbody s2 end.
  destruct (authmsg_encode_rotate_ack _ _ _ _ _ _ _) as [[es ack] n]. rewrite D_bind_unfold.
  match goal with |- context [(if bool_decide ?P then queue_sealed ?p ?q else _) s2] =>
    set (r3 := (if bool_decide P then queue_sealed p q else mret (-1)) s2);
    assert (s_db r3.2 = s_db s2) as Hr3 by (unfold r3; destruct (bool_decide P); [apply queue_sealed_db|done]); etransitivity; [|exact Hr3]; clear Hr3; clearbody r3 end.
  destruct (negb _); [apply fail_db|done].
Qed.

(** The plaintext of a record under the connection's session. *)
Definition opened c (payload pt : list byte) w : Prop := exists sess rec n w',
  session_open (Some (c_sess c)) (Some (Buffer CONTENT_ADDR payload)) (Some (Buffer RECORD_ADDR (zeros AUTHD_MAX_RECORD)))
    AUTHD_MAX_RECORD (Some 0) w = ((SESSION_OK, sess, rec, n), w') /\
  pt = ztake (default 0 n) (default [] (buf_bytes <$> rec)).

Lemma record_run payload a sl c k w lg :
  let k' := s_db (on_record payload (St a sl c k w lg)).2 in
  k' = k \/
  exists pt m pk_new, opened c payload pt w /\ rotation_signed c pt m pk_new /\
    k' = (store_rotate_key (app_store a) (Some (handle_of c)) (Some pk_new) (Some (c_pin_pk c)) (Some (c_handshake_id c))
            (drops_tokens m) (app_now_unix a) (RotateOut 0 0) k).2.
Proof.
  cbv zeta. unfold on_record. destruct (_ <? _); [left; apply fail_db|]. rewrite run_get_c, run_lib.
  destruct (session_open _ _ _ _ _ w) as [[[[ss sess] rec] n] w1] eqn:Ho. cbn [fst snd]. rewrite run_on_c.
  destruct (bool_decide_reflect (ss = SESSION_OK)) as [->|]; cbn [negb]; [|by left].
  destruct (authmsg_peek_op _ _) as [as_ op].
  destruct (bool_decide (as_ = AUTHMSG_OK)); cbn [negb]; [|left; apply fail_db].
  destruct (_ =? AUTHMSG_OP_BYE); [destruct (negb _); [left; apply fail_db|by left]|].
  destruct (_ =? AUTHMSG_OP_ROTATE); [|left; apply fail_db].
  edestruct rotate_run as [H|(m & pk & Hs & H)]; [left; exact H|right]. eexists _, m, pk.
  split; [by eexists _, _, _, _|]. by destruct Hs.
Qed.

(** C24: The rotation gate.  Over every history of a connection record: if a frame
    changes the device keys or the bearer tokens, the connection is serving the
    handle whose active key was pinned at its ClientHello, it has not rotated
    before, the frame is a record of its session whose plaintext is a ROTATE
    naming that handle and session, signed by the pinned key and by the new one;
    the pinned key was still the handle's active key, the new one was held by
    nobody, and the tables are the old ones with exactly that key replaced and,
    if the message asks for it, the handle's tokens gone. *)
Theorem rotate_gate `{EL : !EngineLaw EN} hist s payload x s' :
  lived hist (s_c s) -> idle (s_db s) -> on_frame_body spins payload s = (x, s') ->
  device_keys (disk (s_db s')) <> device_keys (disk (s_db s)) \/ StoreDb.tokens (disk (s_db s')) <> StoreDb.tokens (disk (s_db s)) ->
  let c := s_c s in
  c_stage c = CONN_STAGE_SERVING /\ greeted hist (handle_of c) (c_pin_pk c) (user_of c) /\
  exists pt m pk_new key i, opened c payload pt (s_w s) /\ rotation_signed c pt m pk_new /\
    may_rotate (disk (s_db s)) (handle_of c) pk_new (Some (c_pin_pk c)) key /\
    tables (disk (s_db s')) = tables (rotated (disk (s_db s)) (handle_of c) pk_new (Some (c_handshake_id c)) (drops_tokens m)
                                        (app_now_unix (s_app s)) key i).
Proof.
  intros Hl%lived_inv Hi Hf Hne. cbv zeta.
  assert (keys_same (disk (s_db s)) (disk (s_db s')) -> False) as Hno by (intros [? ?]; by destruct Hne).
  destruct (frame_stage _ payload s Hl) as [Hr|[(s1 & Hdb & Hr)|[[Hst Hr]|[Hst Hr]]]]; rewrite Hf in Hr.
  - by injection Hr as -> ->; destruct Hne.
  - destruct Hno. pose proof (hello_keys payload s1) as Hm. rewrite <-Hr, Hdb in Hm. by apply (moved_idle keys_same).
  - destruct Hno. pose proof (auth_keys payload s) as Hm. rewrite <-Hr in Hm. by apply (moved_idle keys_same).
  - destruct s as [a sl c k w lg]. cbn [s_c s_db s_app s_slot s_w] in *.
    destruct (record_run payload a sl c k w lg) as [Hk|(pt & m & pk & Ho & Hs & Hk)]; rewrite <-Hr in Hk; cbn [snd] in Hk.
    { destruct Hno. by rewrite Hk. }
    destruct (ci_pin _ _ Hl (or_intror Hst)) as (_ & _ & Hg). split; [done|]. split; [by apply Hg, Hs|].
    exists pt, m, pk.
    destruct (app_store a) as [st0|]; [|by destruct Hno; rewrite Hk].
    destruct (store_rotate_key _ _ _ _ _ _ _ _ _) as [[r o] k'] eqn:Er. cbn [snd] in Hk. subst k'.
    apply rotate_all_or_nothing in Er as [_ Er]; [|done]. destruct r as [e|u].
    { destruct Hno. injection Er as _ _ ? ?. by split. }
    destruct Er as (key & i & Hmay & _ & Ht). by exists key, i.
Qed.
End gate.
