(* ===== verification/AuthdDemo.v ===== *)
(** * A concrete connection to the daemon

    Alice's laptop logs in and rotates its key in the toy environment, over a
    store that knows it; the theorems about the daemon's connections are
    applied to the states the run goes through. *)

From S2P Require Import Prelude WireInt Extern Toy Crypto Transcript Keystore Pending Handshake HandshakeProps HandshakeRun HandshakeDemo Session ProxyV2 RateLimit AuthMsg ConnIo ConnIoProps StoreDb StoreTx Store StoreAuth StoreLogic StoreKeys StoreDemo AuthdLog Slot AuthdConn HandshakePin AuthdDecoy AuthdGate.

(** The loop's clock is the world itself. *)
#[export] Instance toy_app_clock : AppClock toy_env := {| now_ms w := w; push_now_ms t _ := t |}.

(** The store after the device was enrolled. *)
Definition alice_pk : list byte := toy_fill 1952 1.
Definition known : conn :=
  perform_all (Some StoreDemo.st)
    [EnrollDeviceEx (Some (label "alice")) (Some (label "user-a")) STORE_ROLE_USER (Some alice_pk) (Some (label "bootstrap")) None None]
    StoreDemo.fresh.

Definition demo_policy : app_policy := AppPolicy 16 0 60 1 1 5 60 600 0.
Definition demo_app : authd_app_t :=
  App [conn_zero] (Some StoreDemo.st) (Some (demo_kp 2)) (label "bob") (Some demo_store) None demo_policy 0 5000 (fun _ => 0).
Definition demo_slot : authd_slot_t :=
  Slot 7 SLOT_KIND_PROTO peer_none false true false SLOT_ACTIVE (conn_start conn_io_zero CONN_IO_MODE_FRAME false) 0 0 0 None.

(** The bytes a slot has to send, without the frame header; the slot once they
    are sent. *)
Definition sent (s : authd_slot_t) : list byte := ztake (c_out_len (sl_io s) - 4) (zdrop 4 (c_out (sl_io s))).
Definition flushed (s : AuthdConn.st) : AuthdConn.st :=
  St (s_app s) (sl_set_user (Some 0) demo_slot) (s_c s) (s_db s) (s_w s) (s_log s).

(** The ClientHello, with its answer. *)
Definition t0 : AuthdConn.st := St demo_app demo_slot conn_zero known 50 [].
Definition hello_frame : list byte := default [] (wire_of step1).
Definition r1 := on_frame_body 0 hello_frame t0.
Definition t1 : AuthdConn.st := flushed r1.2.

(** The ClientAuth. *)
Definition alice_sh := call_result (CallVerifyServerHello (Some (sent (s_slot r1.2)))) alice1 None 13.
Definition alice_auth := call_result auth_call (default alice1 (ctx_of alice_sh)) None 14.
Definition auth_frame : list byte := default [] (wire_of alice_auth).
Definition r2 := on_frame_body 0 auth_frame t1.
Definition t2 : AuthdConn.st := flushed r2.2.

Lemma run_to_auth : (r1.1, r2.1, c_stage (s_c t2)) = (EV_ACTION_CONTINUE, EV_ACTION_CONTINUE, CONN_STAGE_SERVING).
Proof. vm_compute. reflexivity. Qed.

Lemma lived_flushed n hist s : lived n hist (s_c s) -> lived n hist (s_c (flushed s)).
Proof. done. Qed.
Lemma lived_next n hist s frame : lived n hist (s_c s) ->
  lived n (hist ++ [(view (s_db s), frame)]) (s_c (on_frame_body n frame s).2).
Proof. intros Hl. eapply lived_frame; [exact Hl|]. apply surjective_pairing. Qed.
Lemma lived_t1 : lived 0 [(view (s_db t0), hello_frame)] (s_c t1).
Proof. unfold t1, r1. apply lived_flushed, (lived_next 0 []), lived_fresh. Qed.
Lemma lived_t2 : lived 0 [(view (s_db t0), hello_frame); (view (s_db t1), auth_frame)] (s_c t2).
Proof. unfold t2, r2. apply lived_flushed, (lived_next 0 [_]), lived_t1. Qed.

Lemma t1_idle : idle (s_db t1).
Proof. vm_compute. reflexivity. Qed.
Lemma t2_idle : idle (s_db t2).
Proof. vm_compute. reflexivity. Qed.

Lemma r2_eq : on_frame_body 0 auth_frame t1 = (r2.1, r2.2).
Proof. unfold r2. apply surjective_pairing. Qed.

Lemma login_gate_witness :
  c_stage (s_c t1) = CONN_STAGE_AWAIT_CA /\
  greeted [(view (s_db t0), hello_frame)] (handle_of (s_c t1)) (c_pin_pk (s_c t1)) (user_of (s_c t1)) /\
  exists code, login_codes (disk (s_db r2.2)) =
    login_codes (disk (s_db t1)) ++ [login_row (s_app t1) (s_slot t1) (s_c t1) (hc_handshake_id (c_hs (s_c t1))) code].
Proof.
  assert (Hn : length (login_codes (disk (s_db r2.2))) = 1%nat) by (vm_compute; reflexivity).
  assert (Ho : length (login_codes (disk (s_db t1))) = 0%nat) by (vm_compute; reflexivity).
  destruct (login_gate 0 _ t1 auth_frame r2.1 r2.2 lived_t1 t1_idle r2_eq)
    as (Hs & Hg & msg & dg & ps & w1 & code & _ & _ & _ & _ & _ & Hrow).
  - intros He. rewrite He, Ho in Hn. discriminate Hn.
  - split; [exact Hs|]. split; [exact Hg|]. exists code. exact Hrow.
Defined.

Lemma teardown_clean_witness : s_c (conn_reset t2).2 = conn_zero.
Proof. apply (teardown_clean 0 _ t2 lived_t2). Defined.

(** The rotation: Alice's end of the session seals a ROTATE signed by both
    keys. *)
Definition alice_done : handshake_ctx_t :=
  default ctx_failed_zero (ctx_of (call_result CallInitiatorFinish (default ctx_failed_zero (ctx_of alice_auth)) None 30)).
Definition alice_sess : session_t :=
  default session_zero (session_init_from_handshake (Some session_zero) (Some alice_done) (Some (SessionLimits 100 200 1000 2000 16))
    (Some demo_clock) None 40).1.1.1.2.
Definition new_pk : list byte := toy_fill 1952 9.
Definition rotate_sig (lbl pk : list byte) : list byte :=
  toy_sign pk (default [] (authmsg_rotate_digest (Some (zeros 32)) (Some lbl) (Some (handshake_get_handshake_id (Some alice_done)).2) x01
    (Some (label "alice")) 5 (Some alice_pk) (Some new_pk)).2).
Definition rotate_msg :=
  authmsg_encode_rotate (Some (zeros 9000)) 9000 (Some 0) x01 (Some (label "alice")) 5 (Some new_pk)
    (Some (rotate_sig AUTHMSG_LABEL_ROTATE_OLD alice_pk)) 3309 (Some (rotate_sig AUTHMSG_LABEL_ROTATE_NEW new_pk)) 3309.
Definition rotate_sealed :=
  session_seal (Some alice_sess) (Some (Buffer 0 (default [] rotate_msg.1.2))) (default 0 rotate_msg.2)
    (Some (Buffer (2 ^ 20) (zeros 10000))) 10000 (Some 0) 41.
Definition rotate_frame : list byte :=
  ztake (default 0 rotate_sealed.1.2) (default [] (buf_bytes <$> rotate_sealed.1.1.2)).
Definition r3 := on_frame_body 0 rotate_frame t2.

Lemma run_rotate : (rotate_msg.1.1, rotate_sealed.1.1.1.1, r3.1, k_pk <$> device_keys (disk (s_db r3.2))) =
  (AUTHMSG_OK, SESSION_OK, EV_ACTION_CONTINUE, [alice_pk; new_pk]).
Proof. vm_compute. reflexivity. Qed.

Lemma r3_eq : on_frame_body 0 rotate_frame t2 = (r3.1, r3.2).
Proof. unfold r3. apply surjective_pairing. Qed.

Lemma rotate_gate_witness :
  c_stage (s_c t2) = CONN_STAGE_SERVING /\
  exists pt m pk key i, rotation_signed (s_c t2) pt m pk /\
    tables (disk (s_db r3.2)) = tables (rotated (disk (s_db t2)) (handle_of (s_c t2)) pk (Some (c_handshake_id (s_c t2))) (drops_tokens m)
      (app_now_unix (s_app t2)) key i).
Proof.
  assert (Hn : length (device_keys (disk (s_db r3.2))) = 2%nat) by (vm_compute; reflexivity).
  assert (Ho : length (device_keys (disk (s_db t2))) = 1%nat) by (vm_compute; reflexivity).
  destruct (rotate_gate 0 _ t2 rotate_frame r3.1 r3.2 lived_t2 t2_idle r3_eq)
    as (Hs & _ & pt & m & pk & key & i & _ & Hr & _ & Ht).
  - left. intros He. rewrite He, Ho in Hn. discriminate Hn.
  - split; [exact Hs|]. exists pt, m, pk, key, i. split; [exact Hr|exact Ht].
Defined.

(** A peer that knows the name and has no key: the device is enrolled in one
    store and unknown to the other. *)
Definition idle_turn : between := Between (fun a => a) (fun _ => sl_set_user (Some 0) demo_slot) (fun w => w) (fun l => l)
  (fun a1 a2 Ha => Ha) (fun a => eq_refl).
Definition forged_frame : list byte := poke (blen auth_frame - 1) [x55] auth_frame.
Definition probing : list (between * conn * list byte) := [(idle_turn, known, hello_frame); (idle_turn, known, forged_frame)].

Lemma fails_at pk (c : handshake_ctx_t) ps b w dg msg :
  (handshake_pending_get_digest ps (hc_handshake_id c) w).1.2 = dg ->
  (decode_client_auth (Some b) (Some client_auth_zero) (Some 0)).1.2 = Some msg ->
  OQS_SIG_verify dg (ztake (ca_sig_len msg) (ca_sig msg)) pk = false -> signature_fails pk c ps b w.
Proof. intros Hd Hm Hv ps' digest w1 msg' n H1 H2. rewrite H1 in Hd. rewrite H2 in Hm. cbn in *. by simplify_eq. Qed.

Ltac unproved := split; [intros Hs; vm_compute in Hs; discriminate Hs|]; split; [|exact I]; intros _;
  eapply fails_at; [reflexivity|vm_compute; reflexivity|vm_compute; reflexivity].

Lemma probe_known : unproven 0 probing t0.
Proof. unproved. Qed.
Definition t0' : AuthdConn.st := St demo_app demo_slot conn_zero StoreDemo.fresh 50 [].
Lemma probe_unknown : unproven 0 (with_dbs probing [StoreDemo.fresh; StoreDemo.fresh]) t0'.
Proof. unproved. Qed.

Lemma decoy_indistinguishable_witness :
  (probe 0 probing t0).1 = (probe 0 (with_dbs probing [StoreDemo.fresh; StoreDemo.fresh]) t0').1.
Proof.
  exact (decoy_indistinguishable 0 demo_app demo_slot known StoreDemo.fresh 50 [] StoreDemo.st probing
    [StoreDemo.fresh; StoreDemo.fresh] eq_refl eq_refl probe_known probe_unknown).
Defined.

(** ** The journal *)

#[export] Instance toy_ntop : InetNtop := fun _ a => Some (hex_lower (ztake 4 a)).
#[export] Instance toy_ntop_law : InetNtopLaw toy_ntop.
Proof.
  intros af a t Ht. apply (inj Some) in Ht as <-. apply hex_lower_clean.
Qed.

Definition demo_log : log_config := LogConfig AUTHD_LOG_WARN AUTHD_LOG_IDS_HASHED AUTHD_LOG_IP_PREFIX (Some (fun id => Some (ztake 2 id))).
Definition demo_calls : list log_call := [
  authd_log_slot_id AUTHD_LOG_ERROR (label "client-hello") 0 [x61; x0a; x22];
  authd_log_slot_addr AUTHD_LOG_WARN (label "client-address") 0 (AuthdAddr 4 (repeat x0a 16)) (label "admitted");
  authd_log_slot AUTHD_LOG_INFO (label "tick") 0].

Lemma journal_lines_witness : length (filter (fun b => b = NL) (concat (authd_log demo_log <$> demo_calls))) = 2%nat.
Proof.
  etransitivity; [apply (journal_lines demo_log demo_calls)|reflexivity].
  repeat constructor; unfold clean; vm_compute; intros H; repeat (apply elem_of_cons in H as [H|H]; [discriminate H|]); by apply elem_of_nil in H.
Defined.

Lemma log_privacy_witness :
  authd_log demo_log (authd_log_slot_addr AUTHD_LOG_WARN (label "client-address") 0 (AuthdAddr 4 (repeat x0a 16)) (label "admitted")) =
  authd_log demo_log (authd_log_slot_addr AUTHD_LOG_WARN (label "client-address") 0 (AuthdAddr 4 (repeat x0a 3 ++ repeat x0b 13)) (label "admitted")).
Proof.
  apply (log_privacy demo_log AUTHD_LOG_WARN (label "client-address") (label "admitted") 0). right. split; [reflexivity|].
  repeat split; intros; done.
Defined.
