(* ===== verification/EvLoop.v ===== *)
(** * The event loop ([apps/authd/evloop.c], and [listener_accept_ex] of [listener.c])

    One thread polls the listeners and two fixed pools of slots, reads and
    writes without blocking, hands complete frames and lines to the callbacks
    and expires deadlines.  A slot is named by its pool and index, as the C
    code names it by its address.

    The system calls are parameters (class [OS]); a computation of the loop
    acts on the loop, the application behind the callbacks, the world and the
    journal, and is [None] when it runs out of fuel: the loops that restart an
    interrupted call, drain a listener or serve a buffer take the number of
    rounds they may make. *)

From S2P Require Import Prelude Extern Handshake ProxyV2 Ws WsUpgrade ConnIo StoreTx AuthdLog Slot AuthdConn.

(** ** Constants *)
Definition AUTHD_SLOTS_MAX : Z := 4096.
Definition AUTHD_LOCAL_SLOTS_MAX : Z := 64.
Definition AUTHD_MAX_LISTENERS : Z := 4.
Definition AUTHD_SLOTS_POLL_MAX : Z := AUTHD_SLOTS_MAX + AUTHD_LOCAL_SLOTS_MAX.
Definition LISTENER_MAX_ALLOW : Z := 8.
Definition READ_CHUNK : Z := 4096.
Definition POLLIN : Z := 1.
Definition POLLOUT : Z := 4.
Definition POLLERR : Z := 8.
Definition POLLHUP : Z := 16.
Definition POLLNVAL : Z := 32.
Definition O_NONBLOCK : Z := 2048.
Definition FD_CLOEXEC : Z := 1.

(** ** System calls *)

(** What [read], [write], [accept] and [poll] can return. *)
Inductive io_result (A : Type) := IO_OK (x : A) | IO_AGAIN | IO_INTR | IO_ERR.
Arguments IO_OK {_} _.
Arguments IO_AGAIN {_}.
Arguments IO_INTR {_}.
Arguments IO_ERR {_}.

Class OS (E : Env) := {
  os_read : Z -> Z -> M (io_result (list byte));       (* the empty list at the end of the stream *)
  os_write : Z -> list byte -> M (io_result Z);
  os_poll : list (Z * Z) -> Z -> M (io_result (list Z));
  os_accept : Z -> M (io_result Z);
  os_close : Z -> M unit;
  os_getfl : Z -> M (option Z);
  os_setfl : Z -> Z -> M bool;
  os_getfd : Z -> M (option Z);
  os_setfd : Z -> Z -> M bool;
  os_peercred : Z -> M (option (Z * Z)) }.

(** Documented: descriptors are not negative; [read] returns at most what was
    asked for, [write] at most what was given, [poll] one answer per entry. *)
Class OSLaw (E : Env) {SY : OS E} : Prop := {
  os_read_le : forall fd n w b w', 0 <= n -> os_read fd n w = (IO_OK b, w') -> blen b <= n;
  os_write_le : forall fd p w n w', os_write fd p w = (IO_OK n, w') -> 0 <= n <= blen p;
  os_poll_len : forall ps t w l w', os_poll ps t w = (IO_OK l, w') -> length l = length ps;
  os_accept_fd : forall fd w c w', os_accept fd w = (IO_OK c, w') -> 0 <= c }.

(** ** State *)

Inductive listener_status_t :=
| LISTENER_OK | LISTENER_ERR_ARG | LISTENER_ERR_SOCKET | LISTENER_ERR_BIND | LISTENER_ERR_LISTEN | LISTENER_ERR_PATH
| LISTENER_AGAIN | LISTENER_ERR_PEER.

(** One entry of the [listen_*] arrays. *)
Record listener_t := Listener {
  li_fd : Z; li_kind : slot_kind_t; li_is_admin : bool; li_ws : bool; li_proxy : bool; li_allow : list Z }.

Inductive ev_counter :=
| ev_accepted | refused_no_slot | closed_deadline | closed_protocol | closed_peer | local_accepted
| local_refused_no_slot | closed_refused_addr.
#[global] Instance ev_counter_eq_dec : EqDecision ev_counter.
Proof. solve_decision. Defined.

Record evloop_t := EvLoop {
  ev_slots : list authd_slot_t;
  ev_in_use : Z;
  ev_local : list authd_slot_t;       (* empty until [evloop_set_local] *)
  ev_local_in_use : Z;
  ev_listeners : list listener_t;
  ev_handshake_ms : Z;
  ev_idle_ms : Z;
  ev_stopping : bool;
  ev_has_close : bool;                (* [on_close != NULL] *)
  ev_has_addr : bool;                 (* [on_addr != NULL] *)
  ev_count : ev_counter -> Z }.

Definition ev_set_pool (k : slot_kind_t) l ev : evloop_t :=
  EvLoop (if k then l else ev_slots ev) (ev_in_use ev) (if k then ev_local ev else l) (ev_local_in_use ev) (ev_listeners ev)
    (ev_handshake_ms ev) (ev_idle_ms ev) (ev_stopping ev) (ev_has_close ev) (ev_has_addr ev) (ev_count ev).
Definition ev_set_use (k : slot_kind_t) n ev : evloop_t :=
  EvLoop (ev_slots ev) (if k then n else ev_in_use ev) (ev_local ev) (if k then ev_local_in_use ev else n) (ev_listeners ev)
    (ev_handshake_ms ev) (ev_idle_ms ev) (ev_stopping ev) (ev_has_close ev) (ev_has_addr ev) (ev_count ev).
Definition ev_set_listeners l ev : evloop_t :=
  EvLoop (ev_slots ev) (ev_in_use ev) (ev_local ev) (ev_local_in_use ev) l
    (ev_handshake_ms ev) (ev_idle_ms ev) (ev_stopping ev) (ev_has_close ev) (ev_has_addr ev) (ev_count ev).
Definition ev_set_stopping ev : evloop_t :=
  EvLoop (ev_slots ev) (ev_in_use ev) (ev_local ev) (ev_local_in_use ev) (ev_listeners ev)
    (ev_handshake_ms ev) (ev_idle_ms ev) true (ev_has_close ev) (ev_has_addr ev) (ev_count ev).
Definition ev_set_has_addr ev : evloop_t :=
  EvLoop (ev_slots ev) (ev_in_use ev) (ev_local ev) (ev_local_in_use ev) (ev_listeners ev)
    (ev_handshake_ms ev) (ev_idle_ms ev) (ev_stopping ev) (ev_has_close ev) true (ev_count ev).
(** [ev->k++] on [uint64_t]. *)
Definition ev_bump k ev : evloop_t :=
  EvLoop (ev_slots ev) (ev_in_use ev) (ev_local ev) (ev_local_in_use ev) (ev_listeners ev)
    (ev_handshake_ms ev) (ev_idle_ms ev) (ev_stopping ev) (ev_has_close ev) (ev_has_addr ev)
    (fun j => if decide (j = k) then u64 (ev_count ev j + 1) else ev_count ev j).

Definition pool (k : slot_kind_t) ev : list authd_slot_t := if k then ev_slots ev else ev_local ev.
Definition in_use (k : slot_kind_t) ev : Z := if k then ev_in_use ev else ev_local_in_use ev.

(** ** Set-up *)

Definition slot_zero (k : slot_kind_t) (i : nat) : authd_slot_t :=
  let io := default conn_io_zero (conn_io_reset (Some conn_io_zero)) in
  let io := match k with SLOT_KIND_LOCAL => default io (conn_io_set_mode (Some io) CONN_IO_MODE_LINE) | SLOT_KIND_PROTO => io end in
  Slot (-1) k (Peer 0 0) false false false SLOT_FREE io 0 0 (Z.of_nat i) None.

Definition evloop_init (n_slots handshake_ms idle_ms : Z) (has_close : bool) : option evloop_t :=
  if (n_slots =? 0) || (AUTHD_SLOTS_MAX <? n_slots) then None else
  Some (EvLoop (slot_zero SLOT_KIND_PROTO <$> seq 0 (Z.to_nat n_slots)) 0 [] 0 [] handshake_ms idle_ms false has_close false (fun _ => 0)).

Definition evloop_set_on_addr (ev : option evloop_t) : Z * option evloop_t :=
  match ev with None => (-1, None) | Some ev => (0, Some (ev_set_has_addr ev)) end.

Definition evloop_set_local (ev : evloop_t) (n_local : Z) : Z * evloop_t :=
  if (n_local =? 0) || (AUTHD_LOCAL_SLOTS_MAX <? n_local) then (-1, ev)
  else (0, ev_set_pool SLOT_KIND_LOCAL (slot_zero SLOT_KIND_LOCAL <$> seq 0 (Z.to_nat n_local)) ev).

Definition add_listener (ev : evloop_t) (l : listener_t) : Z * evloop_t :=
  (0, ev_set_listeners (ev_listeners ev ++ [l]) ev).

Definition evloop_add_local_listener (ev : evloop_t) (fd : Z) (allow : list Z) (is_admin : bool) : Z * evloop_t :=
  if (fd <? 0) || (AUTHD_MAX_LISTENERS <=? blen (ev_listeners ev)) || (blen (ev_local ev) =? 0) || (LISTENER_MAX_ALLOW <? blen allow)
  then (-1, ev) else add_listener ev (Listener fd SLOT_KIND_LOCAL is_admin false false allow).

Definition add_proto_listener (ev : evloop_t) (fd : Z) (allow : list Z) (is_ws proxy_v2 : bool) : Z * evloop_t :=
  if (fd <? 0) || (AUTHD_MAX_LISTENERS <=? blen (ev_listeners ev)) || (LISTENER_MAX_ALLOW <? blen allow)
  then (-1, ev) else add_listener ev (Listener fd SLOT_KIND_PROTO false is_ws (is_ws && proxy_v2) allow).

Definition evloop_add_listener (ev : evloop_t) (fd require_uid : Z) : Z * evloop_t :=
  add_proto_listener ev fd (if require_uid =? UID_NONE then [] else [require_uid]) false false.

Definition evloop_add_ws_listener (ev : evloop_t) (fd : Z) (allow : list Z) (proxy_v2 : bool) : Z * evloop_t :=
  add_proto_listener ev fd allow true proxy_v2.

Definition evloop_active (ev : option evloop_t) : Z := match ev with None => 0 | Some ev => ev_in_use ev end.
Definition evloop_local_active (ev : option evloop_t) : Z := match ev with None => 0 | Some ev => ev_local_in_use ev end.

Definition evloop_stop (ev : evloop_t) : evloop_t :=
  let drain s := if bool_decide (sl_state s = SLOT_ACTIVE) then sl_set_state SLOT_DRAINING s else s in
  let ev := ev_set_stopping ev in
  let ev := ev_set_pool SLOT_KIND_PROTO (drain <$> ev_slots ev) ev in
  ev_set_pool SLOT_KIND_LOCAL (drain <$> ev_local ev) ev.

(** ** Effects *)

Record lst `{Env} := Lst { v_ev : evloop_t; v_sys : sys }.
#[global] Arguments Lst {_} _ _.

Definition V `{Env} (A : Type) : Type := lst -> option (A * lst).
#[global] Instance V_ret `{Env} : MRet V := fun A x v => Some (x, v).
#[global] Instance V_bind `{Env} : MBind V := fun A B f m v => match m v with Some (x, v') => f x v' | None => None end.

(** A slot: its pool and index. *)
Definition slot_ref : Type := slot_kind_t * nat.

(** The callbacks: when a slot is released; when a frame is complete, the
    client's address is decided, a line is complete.  The last is given the
    slot's name, since it may close slots of the other pool. *)
Class OnClose (E : Env) := on_close : authd_slot_t -> sys -> authd_slot_t * sys.
Class OnInput (E : Env) := {
  on_frame : authd_slot_t -> option (list byte) -> sys -> ev_action_t * authd_slot_t * sys;
  on_addr : authd_slot_t -> sys -> ev_action_t * authd_slot_t * sys;
  on_line : slot_ref -> list byte -> V ev_action_t }.

Section loop.
Context `{E : Env} `{SY : !OS E}.

Definition out_of_fuel {A} : V A := fun _ => None.
Definition get_ev : V evloop_t := fun v => Some (v_ev v, v).
Definition on_ev (f : evloop_t -> evloop_t) : V unit := fun v => Some ((), Lst (f (v_ev v)) (v_sys v)).
Definition os {A} (m : M A) : V A := fun v =>
  let y := v_sys v in
  let '(x, w) := m (y_w y) in Some (x, Lst (v_ev v) (Sys (y_app y) (y_db y) w (y_log y))).
Definition note (k : log_call) : V unit := fun v => Some ((), Lst (v_ev v) (y_logged k (v_sys v))).

Definition slot_at (r : slot_ref) : V authd_slot_t := fun v =>
  match pool r.1 (v_ev v) !! r.2 with Some s => Some (s, v) | None => None end.
Definition put_slot (r : slot_ref) (f : authd_slot_t -> authd_slot_t) : V unit :=
  on_ev (fun ev => ev_set_pool r.1 (alter f r.2 (pool r.1 ev)) ev).

(** A call that is restarted while a signal interrupts it. *)
Fixpoint restarted {A} (n : nat) (call : M (io_result A)) : V (io_result A) :=
  match n with
  | O => out_of_fuel
  | S n => r ← os call; match r with IO_INTR => restarted n call | _ => mret r end
  end.

(** ** Accepting *)

Definition set_nonblock_cloexec (fd : Z) : V Z :=
  fl ← os (os_getfl fd);
  match fl with
  | None => mret (-1)
  | Some fl =>
    ok ← os (os_setfl fd (Z.lor fl O_NONBLOCK));
    if negb ok then mret (-1) else
    fd_fl ← os (os_getfd fd);
    match fd_fl with
    | None => mret (-1)
    | Some fd_fl => ok ← os (os_setfd fd (Z.lor fd_fl FD_CLOEXEC)); mret (if ok : bool then 0 else -1)
    end
  end.

Definition peer_creds (fd : Z) : V (Z * listener_peer_t) :=
  c ← os (os_peercred fd);
  mret (match c with Some (uid, pid) => (0, Peer uid pid) | None => (-1, peer_none) end).

(** The status, [*out_fd] and [*peer_out]. *)
Definition listener_accept_ex (n : nat) (listen_fd : Z) (allow : list Z) : V (listener_status_t * Z * listener_peer_t) :=
  if (listen_fd <? 0) || (LISTENER_MAX_ALLOW <? blen allow) then mret (LISTENER_ERR_ARG, -1, peer_none) else
  c ← restarted n (os_accept listen_fd);
  match c with
  | IO_AGAIN => mret (LISTENER_AGAIN, -1, peer_none)
  | IO_OK c =>
    nb ← set_nonblock_cloexec c;
    if negb (nb =? 0) then _ ← os (os_close c); mret (LISTENER_ERR_SOCKET, -1, peer_none) else
    p ← peer_creds c;
    let '(rc, p) := p in
    match allow with
    | [] => mret (LISTENER_OK, c, p)
    | _ =>
      if negb (rc =? 0) then _ ← os (os_close c); mret (LISTENER_ERR_PEER, -1, peer_none) else
      if negb (bool_decide (peer_uid p ∈ allow)) then _ ← os (os_close c); mret (LISTENER_ERR_PEER, -1, peer_none) else
      mret (LISTENER_OK, c, p)
    end
  | _ => mret (LISTENER_ERR_SOCKET, -1, peer_none)
  end.

Fixpoint first_free (i : nat) (l : list authd_slot_t) : option nat :=
  match l with
  | [] => None
  | s :: l => if bool_decide (sl_state s = SLOT_FREE) then Some i else first_free (S i) l
  end.

Definition take_slot (k : slot_kind_t) : V (option slot_ref) :=
  ev ← get_ev; mret ((fun i => (k, i)) <$> first_free 0 (pool k ev)).

Definition deadline_after (now ms : Z) : Z := if 0 <? ms then u64 (now + ms) else 0.

(** The slot of a connection just accepted. *)
Definition opened_slot (l : listener_t) (cfd : Z) (peer : listener_peer_t) (now : Z) (ev : evloop_t) (s : authd_slot_t) : authd_slot_t :=
  let io := conn_io_reset (Some (sl_io s)) in
  let io := conn_io_set_mode io (match li_kind l with
                                 | SLOT_KIND_LOCAL => CONN_IO_MODE_LINE
                                 | SLOT_KIND_PROTO => if li_ws l then CONN_IO_MODE_WS else CONN_IO_MODE_FRAME
                                 end) in
  let io := default (sl_io s) (conn_io_set_proxy io (li_proxy l)) in
  match li_kind l with
  | SLOT_KIND_LOCAL =>
    Slot cfd SLOT_KIND_LOCAL peer (li_is_admin l) false false SLOT_ACTIVE io (deadline_after now (ev_idle_ms ev)) now (sl_index s) None
  | SLOT_KIND_PROTO =>
    Slot cfd SLOT_KIND_PROTO (sl_peer s) (sl_is_admin s) false false SLOT_ACTIVE io (deadline_after now (ev_handshake_ms ev)) now
      (sl_index s) None
  end.

Fixpoint accept_ready (n : nat) (li : nat) (now : Z) : V unit :=
  match n with
  | O => out_of_fuel
  | S m =>
    ev ← get_ev;
    if ev_stopping ev then mret () else
    match ev_listeners ev !! li with
    | None => mret ()
    | Some l =>
      a ← listener_accept_ex n (li_fd l) (li_allow l);
      let '(st, cfd, peer) := a in
      match st with
      | LISTENER_AGAIN => mret ()
      | LISTENER_ERR_PEER =>
        _ ← on_ev (ev_bump closed_peer);
        _ ← note (authd_log_event AUTHD_LOG_WARN (label "listener-peer-rejected"));
        accept_ready m li now
      | LISTENER_OK =>
        let k := li_kind l in
        r ← take_slot k;
        match r with
        | None =>
          _ ← os (os_close cfd);
          _ ← (match k with
               | SLOT_KIND_LOCAL => _ ← on_ev (ev_bump local_refused_no_slot);
                                    note (authd_log_event AUTHD_LOG_WARN (label "local-accept-refused-no-slot"))
               | SLOT_KIND_PROTO => _ ← on_ev (ev_bump refused_no_slot);
                                    note (authd_log_event AUTHD_LOG_WARN (label "accept-refused-no-slot"))
               end);
          accept_ready m li now
        | Some r =>
          _ ← put_slot r (opened_slot l cfd peer now ev);
          s ← slot_at r;
          _ ← on_ev (fun ev => ev_set_use k (in_use k ev + 1) ev);
          _ ← (match k with
               | SLOT_KIND_LOCAL => _ ← on_ev (ev_bump local_accepted);
                                    note (authd_log_slot AUTHD_LOG_INFO (label "local-accepted") (sl_index s))
               | SLOT_KIND_PROTO => _ ← on_ev (ev_bump ev_accepted);
                                    note (authd_log_slot AUTHD_LOG_INFO (label "accepted") (sl_index s))
               end);
          accept_ready m li now
        end
      | _ => mret ()
      end
    end
  end.

(** ** Closing *)

Section closing.
Context `{OC : !OnClose E}.

(** A callback that is given a slot, by its address, and the application. *)
Definition called {A} (f : authd_slot_t -> sys -> A * authd_slot_t * sys) (r : slot_ref) : V A :=
  fun v =>
    match pool r.1 (v_ev v) !! r.2 with
    | None => None
    | Some s => let '(x, s', y) := f s (v_sys v) in
                Some (x, Lst (ev_set_pool r.1 (<[r.2 := s']> (pool r.1 (v_ev v))) (v_ev v)) y)
    end.

(** The slot after its connection was closed. *)
Definition closed_slot (s : authd_slot_t) : authd_slot_t :=
  let io := default (sl_io s) (conn_io_reset (Some (sl_io s))) in
  let io := match sl_kind s with
            | SLOT_KIND_LOCAL => default io (conn_io_set_mode (Some io) CONN_IO_MODE_LINE)
            | SLOT_KIND_PROTO => io
            end in
  Slot (if 0 <=? sl_fd s then -1 else sl_fd s) (sl_kind s) peer_none false false false SLOT_FREE io 0 0 (sl_index s) None.

Definition evloop_close_slot (r : slot_ref) : V unit :=
  s ← slot_at r;
  if bool_decide (sl_state s = SLOT_FREE) then mret () else
  ev ← get_ev;
  _ ← (if ev_has_close ev then called (fun s y => let '(s, y) := on_close s y in ((), s, y)) r else mret ());
  s ← slot_at r;
  _ ← (if 0 <=? sl_fd s then os (os_close (sl_fd s)) else mret ());
  _ ← put_slot r closed_slot;
  on_ev (fun ev => if 0 <? in_use (sl_kind s) ev then ev_set_use (sl_kind s) (in_use (sl_kind s) ev - 1) ev else ev).

Fixpoint close_each (k : slot_kind_t) (ix : list nat) : V unit :=
  match ix with
  | [] => mret ()
  | i :: ix =>
    s ← slot_at (k, i);
    _ ← (if bool_decide (sl_state s = SLOT_FREE) then mret () else evloop_close_slot (k, i));
    close_each k ix
  end.

Definition evloop_close_all : V unit :=
  ev ← get_ev;
  _ ← close_each SLOT_KIND_PROTO (seq 0 (length (ev_slots ev)));
  close_each SLOT_KIND_LOCAL (seq 0 (length (ev_local ev))).

End closing.

(** ** One iteration *)

Section iteration.
Context `{B64 : WsUpgrade.Base64}.
Context `{OC : !OnClose E} `{OI : !OnInput E}.

(** The next complete line or frame of a slot. *)
Definition next_input (s : authd_slot_t) : option (list byte) * authd_slot_t :=
  let '(p, io) := match sl_kind s with
                  | SLOT_KIND_LOCAL => conn_io_next_line (Some (sl_io s))
                  | SLOT_KIND_PROTO => conn_io_next_frame (Some (sl_io s))
                  end in
  (p, sl_set_io (default (sl_io s) io) s).

(** The slot once what was served is consumed and its deadline is armed again. *)
Definition served (now : Z) (ev : evloop_t) (s : authd_slot_t) : authd_slot_t :=
  let io := match sl_kind s with
            | SLOT_KIND_LOCAL => conn_io_consume_line (Some (sl_io s))
            | SLOT_KIND_PROTO => conn_io_consume_frame (Some (sl_io s))
            end in
  sl_set_deadline (deadline_after now (ev_idle_ms ev)) (sl_set_io (default (sl_io s) io) s).

Fixpoint serve_buffered (n : nat) (r : slot_ref) (now : Z) : V unit :=
  match n with
  | O => out_of_fuel
  | S n =>
    s ← slot_at r;
    let '(p, s1) := next_input s in
    _ ← put_slot r (fun _ => s1);
    match p with
    | None => mret ()
    | Some payload =>
      act ← match sl_kind s1 with
            | SLOT_KIND_LOCAL => on_line r payload
            | SLOT_KIND_PROTO => called (fun s y => on_frame s (Some payload) y) r
            end;
      ev ← get_ev;
      _ ← put_slot r (served now ev);
      if bool_decide (act = EV_ACTION_CLOSE) then put_slot r (sl_set_state SLOT_DRAINING) else
      s ← slot_at r;
      if 0 <? conn_io_pending (Some (sl_io s)) then mret () else serve_buffered n r now
    end
  end.

Definition protocol_error (s : authd_slot_t) (cs : conn_io_status_t) : V Z :=
  _ ← on_ev (ev_bump closed_protocol);
  _ ← note (authd_log_slot_detail AUTHD_LOG_WARN (label "closed-protocol") (sl_index s) (label (conn_io_status_name cs)));
  mret (-1).

(** Asks about the client's address once it is decided; [true] to refuse. *)
Definition settle_addr (r : slot_ref) : V bool :=
  s ← slot_at r;
  ev ← get_ev;
  if negb (sl_addr_settled s) && conn_io_proxy_settled (Some (sl_io s)) then
    _ ← put_slot r (sl_set_settled true);
    if ev_has_addr ev then act ← called on_addr r; mret (bool_decide (act = EV_ACTION_CLOSE)) else mret false
  else mret false.

(** What was read from the slot's descriptor. *)
Definition slot_received (n : nat) (r : slot_ref) (b : list byte) (now : Z) : V Z :=
  s ← slot_at r;
  let '(cs, io) := conn_io_push (Some (sl_io s)) (Some b) (blen b) in
  _ ← put_slot r (sl_set_io (default (sl_io s) io));
  if negb (bool_decide (cs = CONN_IO_OK)) then protocol_error s cs else
  refused ← settle_addr r;
  if refused : bool then
    _ ← on_ev (ev_bump closed_refused_addr);
    _ ← put_slot r (sl_set_state SLOT_DRAINING);
    mret 0
  else
  _ ← serve_buffered n r now;
  mret 0.

Definition slot_readable (n : nat) (r : slot_ref) (now : Z) : V Z :=
  s ← slot_at r;
  let room := conn_io_in_room (Some (sl_io s)) in
  if room =? 0 then protocol_error s CONN_IO_ERR_OVERFLOW else
  b ← restarted n (os_read (sl_fd s) (if room <? READ_CHUNK then room else READ_CHUNK));
  match b with
  | IO_OK b => if blen b =? 0 then mret (-1) else slot_received n r b now
  | IO_AGAIN => mret 0
  | _ => mret (-1)
  end.

Definition slot_writable (n : nat) (r : slot_ref) : V Z :=
  s ← slot_at r;
  let pending := conn_io_pending (Some (sl_io s)) in
  if pending =? 0 then mret (if bool_decide (sl_state s = SLOT_DRAINING) then -1 else 0) else
  k ← restarted n (os_write (sl_fd s) (ztake pending (default [] (conn_io_pending_ptr (Some (sl_io s))))));
  match k with
  | IO_AGAIN => mret 0
  | IO_OK k =>
    _ ← put_slot r (fun s => sl_set_io (default (sl_io s) (conn_io_sent (Some (sl_io s)) k)) s);
    s ← slot_at r;
    mret (if (conn_io_pending (Some (sl_io s)) =? 0) && bool_decide (sl_state s = SLOT_DRAINING) then -1 else 0)
  | _ => mret (-1)
  end.

Definition pool_max (k : slot_kind_t) : Z := if k then AUTHD_SLOTS_MAX else AUTHD_LOCAL_SLOTS_MAX.

(** The entries of one pool: descriptor, events and slot. *)
Fixpoint gather (k : slot_kind_t) (ix : list nat) (taken : Z) : V (list (Z * Z * slot_ref)) :=
  match ix with
  | [] => mret []
  | i :: ix =>
    if negb (taken <? pool_max k) then mret [] else
    s ← slot_at (k, i);
    if bool_decide (sl_state s = SLOT_FREE) || (sl_fd s <? 0) then gather k ix taken else
    let pending := conn_io_pending (Some (sl_io s)) in
    if bool_decide (sl_state s = SLOT_DRAINING) && (pending =? 0) then
      _ ← evloop_close_slot (k, i); gather k ix taken
    else
    let events := if 0 <? pending then POLLOUT else if bool_decide (sl_state s = SLOT_ACTIVE) then POLLIN else 0 in
    rest ← gather k ix (taken + 1);
    mret ((sl_fd s, events, (k, i)) :: rest)
  end.

Definition has (re bit : Z) : bool := negb (Z.land re bit =? 0).

Definition serve_slot (n : nat) (r : slot_ref) (re now : Z) : V unit :=
  s ← slot_at r;
  closed ← (if has re POLLOUT || (has re POLLHUP && (0 <? conn_io_pending (Some (sl_io s)))) then
              rc ← slot_writable n r;
              if rc <? 0 then _ ← evloop_close_slot r; mret true else
              s ← slot_at r;
              if bool_decide (sl_state s = SLOT_ACTIVE) && (conn_io_pending (Some (sl_io s)) =? 0)
              then _ ← serve_buffered n r now; mret false else mret false
            else mret false);
  closed ← (if negb closed && has re POLLIN then
              rc ← slot_readable n r now;
              if rc <? 0 then _ ← evloop_close_slot r; mret true else mret false
            else mret (closed : bool));
  closed ← (if negb closed && has re (Z.lor POLLERR POLLNVAL) then _ ← evloop_close_slot r; mret true
            else mret (closed : bool));
  s ← slot_at r;
  if negb closed && has re POLLHUP && (conn_io_pending (Some (sl_io s)) =? 0) then evloop_close_slot r else mret ().

(** The slots with an answer of [poll]; the number that were active. *)
Fixpoint serve_slots (n : nat) (l : list (slot_ref * Z)) (now : Z) : V Z :=
  match l with
  | [] => mret 0
  | (r, re) :: l =>
    s ← slot_at r;
    a ← (if bool_decide (sl_state s = SLOT_FREE) || (re =? 0) then mret 0 else _ ← serve_slot n r re now; mret 1);
    b ← serve_slots n l now;
    mret (a + b)
  end.

Fixpoint accept_each (n : nat) (l : list (nat * Z)) (now : Z) : V Z :=
  match l with
  | [] => mret 0
  | (i, re) :: l =>
    a ← (if has re POLLIN then _ ← accept_ready n i now; mret 1 else mret 0);
    b ← accept_each n l now;
    mret (a + b)
  end.

Fixpoint expire (k : slot_kind_t) (ix : list nat) (now : Z) : V Z :=
  match ix with
  | [] => mret 0
  | i :: ix =>
    s ← slot_at (k, i);
    a ← (if bool_decide (sl_state s = SLOT_FREE) || (sl_deadline_ms s =? 0) then mret 0 else
         if sl_deadline_ms s <=? now then
           _ ← on_ev (ev_bump closed_deadline);
           _ ← note (authd_log_slot AUTHD_LOG_INFO (label "closed-deadline") (sl_index s));
           _ ← evloop_close_slot (k, i);
           mret 1
         else mret 0);
    b ← expire k ix now;
    mret (a + b)
  end.

(** The poll set: the listeners, then the slots of both pools. *)
Definition poll_set : V (list (Z * Z) * list (Z * Z * slot_ref)) :=
  ev ← get_ev;
  let ls := if ev_stopping ev then [] else filter (fun p => 0 <= p.1) ((fun l => (li_fd l, POLLIN)) <$> ev_listeners ev) in
  p ← gather SLOT_KIND_PROTO (seq 0 (length (ev_slots ev))) 0;
  l ← gather SLOT_KIND_LOCAL (seq 0 (length (ev_local ev))) 0;
  mret (ls, p ++ l).

Definition evloop_run_once (n : nat) (timeout now : Z) : V Z :=
  ps ← poll_set;
  let '(ls, sl) := ps in
  let all := ls ++ ((fun e => e.1) <$> sl) in
  r ← (match all with [] => mret (IO_OK []) | _ => restarted n (os_poll all timeout) end);
  match r with
  | IO_OK re =>
    a ← accept_each n (zip (seq 0 (length ls)) re) now;
    b ← serve_slots n (zip ((fun e => e.2) <$> sl) (drop (length ls) re)) now;
    ev ← get_ev;
    c ← expire SLOT_KIND_PROTO (seq 0 (length (ev_slots ev))) now;
    d ← expire SLOT_KIND_LOCAL (seq 0 (length (ev_local ev))) now;
    mret (a + b + c + d)
  | _ => mret (-1)
  end.

End iteration.
End loop.
