(* ===== verification/EvLoopProps.v ===== *)
(** * The event loop keeps its books

    What the loop needs of its callbacks is a class, and against it every
    iteration keeps the pools well formed: the counters count, free slots hold
    nothing, open ones have a descriptor and well-formed buffers.  On top of
    that, the poll arrays never overflow and leave no open slot out, and no open
    slot outlives its deadline. *)

From S2P Require Import Prelude Extern Handshake ProxyV2 Ws WsUpgrade ConnIo ConnIoProps StoreTx AuthdLog Slot AuthdConn EvLoop.

(** ** The invariant *)

Definition open (s : authd_slot_t) : Prop := sl_state s <> SLOT_FREE.
#[global] Instance open_dec s : Decision (open s).
Proof. unfold open. apply _. Defined.

(** What may be asked of every slot besides: something about its deadline that
    holds of free slots and of deadlines armed at [now]. *)
Class DeadlineProp (P : authd_slot_t -> Prop) (now hs idle : Z) : Prop := {
  dp_free : forall s, sl_state s = SLOT_FREE -> P s;
  dp_same : forall s s', P s -> sl_deadline_ms s' = sl_deadline_ms s -> (open s' -> open s) -> P s';
  dp_armed : forall s, sl_deadline_ms s = deadline_after now hs \/ sl_deadline_ms s = deadline_after now idle -> P s }.

Definition anything (s : authd_slot_t) : Prop := True.
#[global] Instance anything_deadline now hs idle : DeadlineProp anything now hs idle.
Proof. by split. Qed.

(** What never changes while the loop runs. *)
Record same_setup (ev ev' : evloop_t) : Prop := {
  ss_len : forall k, length (pool k ev') = length (pool k ev);
  ss_listeners : ev_listeners ev' = ev_listeners ev;
  ss_handshake : ev_handshake_ms ev' = ev_handshake_ms ev;
  ss_idle : ev_idle_ms ev' = ev_idle_ms ev }.

#[global] Instance same_setup_order : PreOrder same_setup.
Proof. split; [by intros ev|]. intros e1 e2 e3 [] []. split; intros; congruence. Qed.

Lemma pool_set k k' l ev : pool k (ev_set_pool k' l ev) = if decide (k = k') then l else pool k ev.
Proof. by destruct k, k'. Qed.
Lemma pool_use k k' n ev : pool k (ev_set_use k' n ev) = pool k ev.
Proof. by destruct k. Qed.
Lemma use_set k k' n ev : in_use k (ev_set_use k' n ev) = if decide (k = k') then n else in_use k ev.
Proof. by destruct k, k'. Qed.
Lemma use_pool k k' l ev : in_use k (ev_set_pool k' l ev) = in_use k ev.
Proof. by destruct k. Qed.

Lemma alter_insert {A} (f : A -> A) i (l : list A) x : l !! i = Some x -> alter f i l = <[i := f x]> l.
Proof. revert i. induction l as [|y l IH]; intros [|i]; try done; cbn; [by intros [= ->]|]. intros Hi. f_equal. by apply IH. Qed.

Section invariant.
Context (P : authd_slot_t -> Prop) (hs idle : Z).

(** A slot of pool [k] with index [i]. *)
Record slot_ok (k : slot_kind_t) (i : nat) (s : authd_slot_t) : Prop := {
  so_kind : sl_kind s = k;
  so_index : sl_index s = Z.of_nat i;
  so_free : sl_state s = SLOT_FREE -> sl_fd s = -1 /\ sl_addr_admitted s = false /\ sl_user s = None;
  so_fd : open s -> 0 <= sl_fd s;
  so_io : cio_ok (sl_io s);
  so_deadline : P s }.

Definition busy (l : list authd_slot_t) : nat := length (filter open l).

Record ev_ok (ev : evloop_t) : Prop := {
  eo_slots : forall k i s, pool k ev !! i = Some s -> slot_ok k i s;
  eo_use : forall k, in_use k ev = Z.of_nat (busy (pool k ev));
  eo_max : blen (ev_slots ev) <= AUTHD_SLOTS_MAX;
  eo_local_max : blen (ev_local ev) <= AUTHD_LOCAL_SLOTS_MAX;
  eo_listeners : blen (ev_listeners ev) <= AUTHD_MAX_LISTENERS;
  eo_listen : Forall (fun l => 0 <= li_fd l) (ev_listeners ev);
  eo_hs : ev_handshake_ms ev = hs;
  eo_idle : ev_idle_ms ev = idle }.

Lemma busy_insert l i s s' : l !! i = Some s ->
  Z.of_nat (busy (<[i := s']> l)) =
  Z.of_nat (busy l) - (if decide (open s) then 1 else 0) + (if decide (open s') then 1 else 0).
Proof.
  unfold busy. revert i. induction l as [|x l IH]; intros [|i] Hi; [done|done|..].
  - injection Hi as ->. change (<[0%nat := s']> (s :: l)) with (s' :: l). rewrite !filter_cons. repeat case_decide; cbn [length]; lia.
  - change (<[S i := s']> (x :: l)) with (x :: <[i := s']> l). rewrite !filter_cons. specialize (IH i Hi).
    repeat case_decide; cbn [length]; lia.
Qed.

(** One slot of a pool changes, and the count with it. *)
Lemma ev_ok_insert ev k i s s' n : ev_ok ev -> pool k ev !! i = Some s -> slot_ok k i s' ->
  n = in_use k ev - (if decide (open s) then 1 else 0) + (if decide (open s') then 1 else 0) ->
  ev_ok (ev_set_use k n (ev_set_pool k (<[i := s']> (pool k ev)) ev)).
Proof.
  intros [Hs Hu Hm Hl Hli Hlf] Hi Hok ->. split; [|intros k'|..].
  - intros k' j s1. rewrite pool_use, pool_set. case_decide as Hk; [subst k'|by apply Hs].
    intros [(-> & <- & _)|[_ H]]%list_lookup_insert_Some; [done|by apply Hs].
  - rewrite use_set, pool_use, pool_set, use_pool. case_decide as Hk; [subst k'|by apply Hu].
    rewrite (busy_insert _ _ _ _ Hi). rewrite Hu. lia.
  - destruct k; cbn; by rewrite ?length_insert.
  - destruct k; cbn; by rewrite ?length_insert.
  - by destruct k.
  - by destruct k.
  - by destruct k.
  - by destruct k.
Qed.

Lemma set_use_same k ev : ev_set_use k (in_use k ev) ev = ev.
Proof. by destruct ev, k. Qed.

Lemma ev_ok_put ev k i s s' : ev_ok ev -> pool k ev !! i = Some s -> slot_ok k i s' -> (open s <-> open s') ->
  ev_ok (ev_set_pool k (<[i := s']> (pool k ev)) ev).
Proof.
  intros Hev Hi Hok Ho. rewrite <-(set_use_same k (ev_set_pool _ _ _)), use_pool.
  eapply ev_ok_insert; [done|done|done|]. repeat case_decide; lia || tauto.
Qed.

End invariant.

(** ** What the loop asks of its callbacks *)

(** The input side of a connection. *)
Definition same_input (io io' : conn_io_t) : Prop :=
  c_mode io' = c_mode io /\ c_in io' = c_in io /\ c_in_len io' = c_in_len io /\ c_frame_len io' = c_frame_len io /\
  c_line_total io' = c_line_total io /\ c_failed io' = c_failed io.

(** A callback may queue a reply and leave notes on the slot: it does not touch
    the descriptor, the state, the deadline or the input. *)
Record answers (s s' : authd_slot_t) : Prop := {
  an_fd : sl_fd s' = sl_fd s; an_kind : sl_kind s' = sl_kind s; an_state : sl_state s' = sl_state s;
  an_index : sl_index s' = sl_index s; an_deadline : sl_deadline_ms s' = sl_deadline_ms s;
  an_input : same_input (sl_io s) (sl_io s'); an_io : cio_ok (sl_io s) -> cio_ok (sl_io s') }.

Section laws.
Context `{E : Env}.

(** A step of the loop. *)
Definition loop_step (P : authd_slot_t -> Prop) (hs idle : Z) (v v' : lst) : Prop :=
  ev_ok P hs idle (v_ev v) -> ev_ok P hs idle (v_ev v') /\ same_setup (v_ev v) (v_ev v').

Class OnCloseLaw `{OC : !OnClose E} : Prop := on_close_slot : forall s y, answers s (on_close s y).1.

Class OnInputLaw `{OI : !OnInput E} : Prop := {
  on_frame_slot : forall s p y, answers s (on_frame s p y).1.2;
  on_addr_slot : forall s y, answers s (on_addr s y).1.2;
  (** a line is answered on its slot; of the others it only closes some *)
  on_line_step : forall P now hs idle `{!DeadlineProp P now hs idle} i p v x v',
    on_line (SLOT_KIND_LOCAL, i) p v = Some (x, v') -> loop_step P hs idle v v';
  on_line_slot : forall i p v x v' s, on_line (SLOT_KIND_LOCAL, i) p v = Some (x, v') -> ev_local (v_ev v) !! i = Some s ->
    exists s', ev_local (v_ev v') !! i = Some s' /\ answers s s' }.

#[global] Instance loop_step_order P hs idle : PreOrder (loop_step P hs idle).
Proof.
  split; [by intros v Hv|]. intros v1 v2 v3 H1 H2 Hv. destruct (H1 Hv) as [Hv2 S1]. destruct (H2 Hv2) as [Hv3 S2].
  split; [done|by etrans].
Qed.

(** *** Runs *)

Lemma V_bind_some {A B} (f : A -> V B) (m : V A) v y v' : (m ≫= f) v = Some (y, v') ->
  exists x v1, m v = Some (x, v1) /\ f x v1 = Some (y, v').
Proof. unfold mbind, V_bind. destruct (m v) as [[x v1]|]; [|done]. eauto. Qed.

Lemma V_ret_some {A} (x y : A) (v v' : lst) : (mret x : V A) v = Some (y, v') -> y = x /\ v' = v.
Proof. by intros [= -> ->]. Qed.
Lemma slot_at_some r v s v' : slot_at r v = Some (s, v') -> v' = v /\ pool r.1 (v_ev v) !! r.2 = Some s.
Proof. unfold slot_at. destruct (_ !! _); [|done]. by intros [= -> ->]. Qed.
Lemma get_ev_some v ev v' : get_ev v = Some (ev, v') -> v' = v /\ ev = v_ev v.
Proof. by intros [= -> ->]. Qed.
Lemma on_ev_some f v x v' : on_ev f v = Some (x, v') -> v' = Lst (f (v_ev v)) (v_sys v).
Proof. by intros [= _ <-]. Qed.
Lemma os_some {A} (m : M A) v x v' : os m v = Some (x, v') -> v_ev v' = v_ev v /\ x = (m (y_w (v_sys v))).1.
Proof. unfold os. destruct (m _) as [z w]. by intros [= -> <-]. Qed.
Lemma note_some k v x v' : note k v = Some (x, v') -> v_ev v' = v_ev v.
Proof. by intros [= _ <-]. Qed.
Lemma put_slot_some r f v x v' s : put_slot r f v = Some (x, v') -> pool r.1 (v_ev v) !! r.2 = Some s ->
  v_ev v' = ev_set_pool r.1 (<[r.2 := f s]> (pool r.1 (v_ev v))) (v_ev v) /\ pool r.1 (v_ev v') !! r.2 = Some (f s).
Proof.
  unfold put_slot. intros -> %on_ev_some Hs. cbn [v_ev]. rewrite (alter_insert _ _ _ _ Hs). split; [done|].
  rewrite pool_set, decide_True by done. apply list_lookup_insert_eq. by eapply lookup_lt_Some.
Qed.

Definition along (R : relation lst) {A} (m : V A) : Prop := forall v x v', m v = Some (x, v') -> R v v'.

Lemma along_bind (R : relation lst) `{!PreOrder R} {A B} (f : A -> V B) (m : V A) :
  along R m -> (forall x, along R (f x)) -> along R (m ≫= f).
Proof. intros Hm Hf v y v' (x & v1 & H1 & H2)%V_bind_some. etrans; [by eapply Hm|by eapply Hf]. Qed.
Lemma along_ret (R : relation lst) `{!PreOrder R} {A} (x : A) : along R (mret x : V A).
Proof. by intros v y v' [_ ->]%V_ret_some. Qed.
Lemma along_fuel (R : relation lst) {A} : along R (out_of_fuel : V A).
Proof. done. Qed.

Lemma slot_at_run r v s : pool r.1 (v_ev v) !! r.2 = Some s -> slot_at r v = Some (s, v).
Proof. unfold slot_at. by intros ->. Qed.

(** Steps that leave the pools alone. *)
Definition quiet (v v' : lst) : Prop := conns (y_app (v_sys v')) = conns (y_app (v_sys v)) /\ exists count, v_ev v' = EvLoop (ev_slots (v_ev v)) (ev_in_use (v_ev v)) (ev_local (v_ev v))
  (ev_local_in_use (v_ev v)) (ev_listeners (v_ev v)) (ev_handshake_ms (v_ev v)) (ev_idle_ms (v_ev v)) (ev_stopping (v_ev v))
  (ev_has_close (v_ev v)) (ev_has_addr (v_ev v)) count.

#[global] Instance quiet_order : PreOrder quiet.
Proof.
  split; [intros v; split; [done|]; exists (ev_count (v_ev v)); by destruct (v_ev v)|].
  intros v1 v2 v3 [A1 [c1 H1]] [A2 [c2 H2]]. split; [congruence|]. exists c2. by rewrite H2, H1.
Qed.

Lemma quiet_same v v' : v_ev v' = v_ev v -> conns (y_app (v_sys v')) = conns (y_app (v_sys v)) -> quiet v v'.
Proof. intros He Ha. split; [done|]. exists (ev_count (v_ev v)). rewrite He. by destruct (v_ev v). Qed.

Lemma quiet_pool v v' k : quiet v v' -> pool k (v_ev v') = pool k (v_ev v).
Proof. intros [_ [c ->]]. by destruct k. Qed.

Lemma quiet_os {A} (m : M A) : along quiet (os m).
Proof. intros v x v' H. unfold os in H. destruct (m _) as [z w]. injection H as _ <-. by apply quiet_same. Qed.
Lemma quiet_note k : along quiet (note k).
Proof. intros v x v' H. unfold note in H. injection H as _ <-. by apply quiet_same. Qed.
Lemma quiet_bump k : along quiet (on_ev (ev_bump k)).
Proof. intros v x v' ->%on_ev_some. split; [done|by eexists]. Qed.
Lemma quiet_get_ev : along quiet get_ev.
Proof. by intros v x v' [-> _]%get_ev_some. Qed.
Lemma quiet_slot_at r : along quiet (slot_at r).
Proof. by intros v x v' [-> _]%slot_at_some. Qed.
Lemma quiet_restarted {A} n (m : M (io_result A)) : along quiet (restarted n m).
Proof.
  induction n as [|n IH]; [apply along_fuel|]. cbn [restarted]. apply along_bind; [apply _|apply quiet_os|].
  intros []; try apply along_ret; apply _ || apply IH.
Qed.

End laws.

Create HintDb loop.
#[export] Hint Resolve along_fuel quiet_os quiet_note quiet_bump quiet_get_ev quiet_slot_at quiet_restarted : loop.
#[export] Hint Extern 2 (along _ (mret _)) => apply along_ret; apply _ : loop.

(** Follows a computation of the loop. *)
Ltac loops := repeat first [ solve [auto with loop] | apply along_bind; [apply _| |intros] | case_match | progress cbv zeta ].

Section accept_quiet.
Context `{E : Env} `{SY : !OS E}.
Lemma quiet_accept n fd allow : along quiet (listener_accept_ex n fd allow).
Proof. unfold listener_accept_ex, set_nonblock_cloexec, peer_creds. loops. Qed.
End accept_quiet.
#[export] Hint Resolve quiet_accept : loop.

(** ** Every iteration keeps the pools *)

(** The slot [r] is in use. *)
Definition open_at `{Env} (r : slot_ref) (v : lst) : Prop := exists s, pool r.1 (v_ev v) !! r.2 = Some s /\ open s.

(** The slots know their names. *)
Definition named (ev : evloop_t) : Prop := forall k i s, pool k ev !! i = Some s -> sl_kind s = k /\ sl_index s = Z.of_nat i.

(** What may be kept along with the pools: an invariant of the loop and the
    application behind the callbacks. *)
Class LoopInv {E : Env} {SY : OS E} {OC : OnClose E} {OI : OnInput E} (J : lst -> Prop) : Prop := {
  inv_quiet : forall v v', quiet v v' -> J v -> J v';
  inv_use : forall v k n, J v -> J (Lst (ev_set_use k n (v_ev v)) (v_sys v));
  inv_slot : forall v r s s', pool r.1 (v_ev v) !! r.2 = Some s -> (open s -> open s') -> J v ->
    J (Lst (ev_set_pool r.1 (<[r.2 := s']> (pool r.1 (v_ev v))) (v_ev v)) (v_sys v));
  inv_stop : forall v, J v -> J (Lst (evloop_stop (v_ev v)) (v_sys v));
  inv_frame : forall v i s p act v', pool SLOT_KIND_PROTO (v_ev v) !! i = Some s -> open s -> named (v_ev v) ->
    called (fun s y => on_frame s (Some p) y) (SLOT_KIND_PROTO, i) v = Some (act, v') -> J v -> J v';
  inv_addr : forall v r act v', open_at r v -> named (v_ev v) -> called on_addr r v = Some (act, v') -> J v -> J v';
  inv_line : forall i p v act v', on_line (SLOT_KIND_LOCAL, i) p v = Some (act, v') -> named (v_ev v) -> J v -> J v';
  inv_close : forall r v x v', evloop_close_slot r v = Some (x, v') -> named (v_ev v) -> J v -> J v' }.

Definition no_inv `{Env} (v : lst) : Prop := True.
#[global] Instance no_inv_kept `{E : Env} `{!OS E} `{!OnClose E} `{!OnInput E} : LoopInv no_inv.
Proof. by split. Qed.

Section pools.
Context `{E : Env} `{SY : !OS E} `{OSL : !OSLaw E} `{OC : !OnClose E} `{OCL : !OnCloseLaw} `{OI : !OnInput E} `{OIL : !OnInputLaw}.
Context `{B64 : Base64} `{B64L : !Base64Law B64}.
Context (P : authd_slot_t -> Prop) (now hs idle : Z) `{DP : !DeadlineProp P now hs idle}.
Context (J : lst -> Prop) `{JI : !LoopInv J}.

Abbreviation sok := (slot_ok P).

Record good (v : lst) : Prop := { gd_ok :> ev_ok P hs idle (v_ev v); gd_inv : J v }.
Definition step (v v' : lst) : Prop := good v -> good v' /\ same_setup (v_ev v) (v_ev v').

#[global] Instance step_order : PreOrder step.
Proof.
  split; [by intros v Hv|]. intros v1 v2 v3 H1 H2 Hv. destruct (H1 Hv) as [Hv2 S1]. destruct (H2 Hv2) as [Hv3 S2].
  split; [done|by etrans].
Qed.

Lemma good_named v : good v -> named (v_ev v).
Proof. intros Hg k i s Hs. destruct (eo_slots _ _ _ _ Hg _ _ _ Hs). done. Qed.

Lemma ok_quiet v v' : quiet v v' -> loop_step P hs idle v v'.
Proof.
  intros [_ [c Hq]] [Hs Hu Hm Hl Hli Hlf Hh Hi]. assert (forall k, pool k (v_ev v') = pool k (v_ev v)) as Hp by (intros []; by rewrite Hq).
  assert (forall k, in_use k (v_ev v') = in_use k (v_ev v)) as Hn by (intros []; by rewrite Hq).
  split; split; try (intros k; rewrite ?Hn, ?Hp; auto; apply Hs); by rewrite Hq.
Qed.
Lemma step_quiet v v' : quiet v v' -> step v v'.
Proof. intros Hq [Hg Hj]. destruct (ok_quiet _ _ Hq Hg). split; [|done]. split; [done|by eapply inv_quiet]. Qed.

Lemma same_setup_put ev k i s : same_setup ev (ev_set_pool k (<[i := s]> (pool k ev)) ev).
Proof. split; [|by destruct k..]. intros k'. rewrite pool_set. case_decide as Hk; [subst k'|done]. by rewrite length_insert. Qed.
Lemma same_setup_use ev k n : same_setup ev (ev_set_use k n ev).
Proof. split; [|by destruct k..]. intros k'. by rewrite pool_use. Qed.

Lemma put_lst r f v x v' s : put_slot r f v = Some (x, v') -> pool r.1 (v_ev v) !! r.2 = Some s ->
  v' = Lst (ev_set_pool r.1 (<[r.2 := f s]> (pool r.1 (v_ev v))) (v_ev v)) (v_sys v).
Proof. unfold put_slot. intros -> %on_ev_some Hs. by rewrite (alter_insert _ _ _ _ Hs). Qed.

(** What the invariant says of a slot that a callback answered on. *)
Lemma answers_ok k i s s' : answers s s' -> open s -> sok k i s -> sok k i s'.
Proof.
  intros [] Ho [Hk Hi Hf Hfd Hio Hd]. unfold open in *. split; [congruence|congruence|congruence|..].
  - intros _. rewrite an_fd0. auto.
  - auto.
  - eapply dp_same; [done|done|]. unfold open. congruence.
Qed.
Lemma answers_open s s' : answers s s' -> (open s <-> open s').
Proof. intros []. unfold open. by rewrite an_state0. Qed.

(** The slot [r] stays in use. *)
Definition step_at (r : slot_ref) (v v' : lst) : Prop :=
  good v -> open_at r v -> good v' /\ same_setup (v_ev v) (v_ev v') /\ open_at r v'.

#[global] Instance step_at_order r : PreOrder (step_at r).
Proof.
  split; [done|]. intros v1 v2 v3 H1 H2 Hg Hv. destruct (H1 Hg Hv) as (G1 & S1 & O1).
  destruct (H2 G1 O1) as (G2 & S2 & O2). split; [done|]. split; [by etrans|done].
Qed.

Lemma at_quiet r {A} (m : V A) : along quiet m -> along (step_at r) m.
Proof.
  intros Hm v x v' H%Hm Hg (s & Hs & Ho). destruct (step_quiet _ _ H Hg) as [Hg' Hs']. split; [done|]. split; [done|].
  exists s. by rewrite (quiet_pool _ _ _ H).
Qed.

Lemma put_at r f v x v' s :
  put_slot r f v = Some (x, v') -> pool r.1 (v_ev v) !! r.2 = Some s ->
  (sok r.1 r.2 s -> open s -> sok r.1 r.2 (f s)) -> (open s -> open (f s)) -> step_at r v v'.
Proof.
  intros Hp Hs Hf Ho Hg (s0 & Hs0 & Hop). assert (s0 = s) as -> by congruence.
  destruct (put_slot_some _ _ _ _ _ _ Hp Hs) as [_ Hs']. rewrite (put_lst _ _ _ _ _ _ Hp Hs) in *. split; [split|split; [apply same_setup_put|]].
  - eapply ev_ok_put; [apply Hg|done| |split; [by apply Ho|done]]. apply Hf; [|done]. by apply (eo_slots _ _ _ _ Hg).
  - eapply inv_slot; [done|by intros _; apply Ho|apply Hg].
  - exists (f s). split; [done|by apply Ho].
Qed.

Lemma at_put r f : (forall s, sok r.1 r.2 s -> open s -> sok r.1 r.2 (f s)) -> (forall s, open s -> open (f s)) ->
  along (step_at r) (put_slot r f).
Proof.
  intros Hf Ho v x v' Hp Hg Hv. destruct Hv as (s & Hs & Hop). eapply put_at; [done|done|apply Hf|apply Ho|done|by exists s].
Qed.

Abbreviation ok v := (ev_ok P hs idle (v_ev v)).

Lemma ok_called r {A} (f : authd_slot_t -> sys -> A * authd_slot_t * sys) v x v' :
  (forall s y, answers s (f s y).1.2) -> called f r v = Some (x, v') -> ok v -> open_at r v ->
  ok v' /\ same_setup (v_ev v) (v_ev v') /\ open_at r v'.
Proof.
  intros Hf Hc Hg (s & Hs & Hop). unfold called in Hc. rewrite Hs in Hc.
  specialize (Hf s (v_sys v)). destruct (f s (v_sys v)) as [[x1 s1] y1]. injection Hc as _ <-. cbn [fst snd] in Hf.
  split; [|split; [apply same_setup_put|]].
  - eapply ev_ok_put; [done|done| |by apply answers_open].
    apply (answers_ok _ _ _ _ Hf Hop). by apply (eo_slots _ _ _ _ Hg).
  - exists s1. split; [|by apply (answers_open s s1)]. cbn [v_ev]. rewrite pool_set, decide_True by done.
    apply list_lookup_insert_eq. by eapply lookup_lt_Some.
Qed.
Lemma at_called r {A} (f : authd_slot_t -> sys -> A * authd_slot_t * sys) :
  (forall s y, answers s (f s y).1.2) ->
  (forall v x v', good v -> open_at r v -> called f r v = Some (x, v') -> J v') -> along (step_at r) (called f r).
Proof.
  intros Hf Hj v x v' Hc Hg Ho. destruct (ok_called _ _ _ _ _ Hf Hc Hg Ho) as (Hok & Hset & Ho'). split; [|done]. split; [done|by eapply Hj].
Qed.
Lemma at_frame i p : along (step_at (SLOT_KIND_PROTO, i)) (called (fun s y => on_frame s (Some p) y) (SLOT_KIND_PROTO, i)).
Proof.
  apply at_called; [intros; apply on_frame_slot|]. intros v x v' Hg (s & Hs & Ho) Hc. eapply inv_frame; [done|done|by apply good_named|exact Hc|apply Hg].
Qed.
Lemma at_addr r : along (step_at r) (called on_addr r).
Proof.
  apply at_called; [intros; apply on_addr_slot|]. intros v x v' Hg Ho Hc. eapply inv_addr; [done|by apply good_named|exact Hc|apply Hg].
Qed.

(** What the loop itself does to an open slot. *)
Lemma sok_io k i s io : sok k i s -> cio_ok io -> sok k i (sl_set_io io s).
Proof. intros [] Hio. split; try done. eapply dp_same; done. Qed.
Lemma sok_settled k i s b : sok k i s -> sok k i (sl_set_settled b s).
Proof. intros []. split; try done. eapply dp_same; done. Qed.
Lemma sok_draining k i s : sok k i s -> open s -> sok k i (sl_set_state SLOT_DRAINING s).
Proof. intros [] Ho. split; try done; [by intros _; apply so_fd0|]. eapply dp_same; done. Qed.

Lemma next_input_io s : cio_ok (sl_io s) -> exists io, (next_input s).2 = sl_set_io io s /\ cio_ok io.
Proof.
  intros (d & q & Hc). unfold next_input. destruct (sl_kind s).
  - destruct (next_frame_keeps _ _ _ Hc) as (c' & He & Hc'). destruct (conn_io_next_frame _) as [p io]. cbn in He |- *. subst io.
    exists c'. split; [done|by exists d, q].
  - destruct (next_line_keeps _ _ _ Hc) as (c' & He & Hc'). destruct (conn_io_next_line _) as [p io]. cbn in He |- *. subst io.
    exists c'. split; [done|by exists d, q].
Qed.

Lemma served_ok ev k i s : ev_idle_ms ev = idle -> sok k i s -> sok k i (served now ev s).
Proof.
  intros Hi Hs. destruct (so_io _ _ _ _ Hs) as (d & q & Hc).
  assert (cio_ok (default (sl_io s) (match sl_kind s with SLOT_KIND_LOCAL => conn_io_consume_line (Some (sl_io s))
                                     | SLOT_KIND_PROTO => conn_io_consume_frame (Some (sl_io s)) end))) as Hio.
  { destruct (sl_kind s).
    - destruct (consume_frame_keeps _ _ _ Hc) as (c' & d' & -> & Hc'). by exists d', q.
    - destruct (consume_line_keeps _ _ _ Hc) as (c' & d' & -> & Hc'). by exists d', q. }
  destruct Hs. unfold served. split; try done. apply dp_armed. right. cbn. by rewrite Hi.
Qed.

Lemma at_serve_buffered n r : along (step_at r) (serve_buffered n r now).
Proof.
  induction n as [|n IH]; [apply along_fuel|]. intros v x v' H Hg Hv. cbn [serve_buffered] in H.
  apply V_bind_some in H as (s & v1 & [-> Hs]%slot_at_some & H). destruct (eo_slots _ _ _ _ Hg _ _ _ Hs) as [Hk _ _ _ Hio _].
  destruct (next_input_io s Hio) as (io & Hn & Hio'). destruct (next_input s) as [p s1]. cbn in Hn. subst s1.
  apply V_bind_some in H as ([] & v1 & Hp & H). revert Hg Hv. change (step_at r v v'). etrans.
  { eapply put_at; [exact Hp|exact Hs| |done]. intros Hok _. by apply sok_io. }
  destruct (put_slot_some _ _ _ _ _ _ Hp Hs) as [_ Hs1]. clear Hp Hs Hio Hio' v. change (sl_kind (sl_set_io io s)) with (sl_kind s) in H.
  revert v1 x v' H Hs1. destruct p as [p|]; [|by intros v x v' [_ ->]%V_ret_some]. intros v1 x v' H _. revert v1 x v' H.
  apply along_bind; [apply _| |intros act].
  { destruct r as [k i]. cbn [fst] in Hk. rewrite Hk. destruct k; [apply at_frame|].
    intros v x v' H Hg (s0 & Hs0 & Ho). destruct (on_line_step _ _ _ _ _ _ _ _ _ H Hg) as [Hg' Hset].
    split; [split; [done|eapply inv_line; [exact H|by apply good_named|apply Hg]]|]. split; [done|].
    destruct (on_line_slot _ _ _ _ _ _ H Hs0) as (s' & Hs' & Ha). exists s'. split; [done|by apply (answers_open s0)]. }
  intros v x v' H Hg. apply V_bind_some in H as (ev & v0 & [-> ->]%get_ev_some & H). pose proof (eo_idle _ _ _ _ Hg) as Hi.
  revert Hg. change (step_at r v v'). apply V_bind_some in H as ([] & v1 & Hp & H). etrans.
  { eapply (at_put r (served now (v_ev v))); [|done|exact Hp]. intros s0 Hs0 _. by apply served_ok. }
  clear Hp Hi. revert v1 x v' H. case_bool_decide; [apply at_put; [apply sok_draining|done]|].
  apply along_bind; [apply _|apply at_quiet, quiet_slot_at|]. intros s0. destruct (0 <? _); [apply along_ret, _|apply IH].
Qed.

Lemma at_protocol_error r s cs : along (step_at r) (protocol_error s cs).
Proof. apply at_quiet. unfold protocol_error. loops. Qed.

Lemma at_settle_addr r : along (step_at r) (settle_addr r).
Proof.
  unfold settle_addr. apply along_bind; [apply _|apply at_quiet, quiet_slot_at|]. intros s.
  apply along_bind; [apply _|apply at_quiet, quiet_get_ev|]. intros ev. destruct (_ && _); [|apply along_ret, _].
  apply along_bind; [apply _|apply at_put; [intros; by apply sok_settled|done]|]. intros _. destruct (ev_has_addr ev); [|apply along_ret, _].
  apply along_bind; [apply _|apply at_addr|]. intros act. apply along_ret, _.
Qed.

Lemma at_received n r b : along (step_at r) (slot_received n r b now).
Proof.
  intros v x v' H Hg Hv. unfold slot_received in H. apply V_bind_some in H as (s & v1 & [-> Hs]%slot_at_some & H).
  destruct (eo_slots _ _ _ _ Hg _ _ _ Hs) as [_ _ _ _ (d & q & Hio) _].
  destruct (push_keeps _ _ _ b Hio) as (c' & d' & Hpush & Hc'). destruct (conn_io_push _ _ _) as [cs io]. cbn in Hpush. subst io.
  apply V_bind_some in H as ([] & v1 & Hp & H). revert Hg Hv. change (step_at r v v'). etrans.
  { eapply put_at; [exact Hp|exact Hs| |done]. intros Hok _. apply sok_io; [done|by exists d', q]. }
  clear Hp Hs. revert v1 x v' H. destruct (negb _); [apply at_protocol_error|].
  apply along_bind; [apply _|apply at_settle_addr|]. intros [].
  - apply along_bind; [apply _|apply at_quiet, quiet_bump|]. intros _.
    apply along_bind; [apply _|apply at_put; [apply sok_draining|done]|]. intros _. apply along_ret, _.
  - apply along_bind; [apply _|apply at_serve_buffered|]. intros _. apply along_ret, _.
Qed.

Lemma at_readable n r : along (step_at r) (slot_readable n r now).
Proof.
  unfold slot_readable. apply along_bind; [apply _|apply at_quiet, quiet_slot_at|]. intros s. cbv zeta.
  destruct (_ =? 0); [apply at_protocol_error|]. apply along_bind; [apply _|apply at_quiet, quiet_restarted|]. intros [b| | |]; try apply along_ret, _.
  destruct (_ =? 0); [apply along_ret, _|apply at_received].
Qed.

Lemma restarted_some {A} n (m : M (io_result A)) v x v' : restarted n m v = Some (x, v') ->
  exists w, (m w).1 = x /\ x <> IO_INTR.
Proof.
  revert v. induction n as [|n IH]; [done|]. intros v H. cbn [restarted] in H. apply V_bind_some in H as (y & v1 & Hy & H).
  apply os_some in Hy as [_ ->]. destruct (m (y_w (v_sys v))).1 eqn:Hm; [..|by eapply IH|]; apply V_ret_some in H as [-> _]; by eexists.
Qed.

Lemma at_writable n r : along (step_at r) (slot_writable n r).
Proof.
  unfold slot_writable. apply along_bind; [apply _|apply at_quiet, quiet_slot_at|]. intros s. cbv zeta.
  destruct (_ =? 0); [apply along_ret, _|]. intros v x v' H. apply V_bind_some in H as (k & v1 & Hk & H).
  assert (match k with IO_OK k => 0 <= k | _ => True end) as Hk0.
  { apply restarted_some in Hk as (w & Hk & _). destruct k as [k| | |]; try done.
    destruct (os_write _ _ w) as [y w'] eqn:He. cbn in Hk. subst y. eapply os_write_le. exact He. }
  etrans; [eapply (at_quiet r _ (quiet_restarted n _)); exact Hk|]. clear Hk. revert v1 x v' H. destruct k as [k| | |]; try apply along_ret, _.
  apply along_bind; [apply _|apply at_put; [|done]|intros _].
  - intros s0 Hs _. destruct (so_io _ _ _ _ Hs) as (d & q & Hc). apply sok_io; [done|].
    destruct (sent_keeps _ _ _ k Hc Hk0) as (c' & q' & -> & Hc'). by exists d, q'.
  - apply along_bind; [apply _|apply at_quiet, quiet_slot_at|]. intros s0. apply along_ret, _.
Qed.

(** *** Closing *)

Lemma sok_closed k i s : sok k i s -> open s -> sok k i (closed_slot s).
Proof.
  intros [Hk Hi Hf Hfd Hio Hd] Ho. split; [done|done| |done| |by apply dp_free].
  - intros _. cbn. rewrite (proj2 (Z.leb_le _ _) (Hfd Ho)). done.
  - exists [], []. cbn. destruct (sl_kind s); [apply (cio_zero (c_mode conn_io_zero))|apply cio_zero].
Qed.

(** Only the slot [r] changes. *)
Definition only (r : slot_ref) (v v' : lst) : Prop :=
  forall r', r' <> r -> pool r'.1 (v_ev v') !! r'.2 = pool r'.1 (v_ev v) !! r'.2.
#[global] Instance only_order r : PreOrder (only r).
Proof. split; [done|]. intros v1 v2 v3 H1 H2 r' Hr. by rewrite H2, H1. Qed.

Lemma only_quiet r {A} (m : V A) : along quiet m -> along (only r) m.
Proof. intros Hm v x v' H%Hm r' _. by rewrite (quiet_pool _ _ _ H). Qed.
Lemma pool_insert_ne (r r' : slot_ref) s ev : r' <> r ->
  pool r'.1 (ev_set_pool r.1 (<[r.2 := s]> (pool r.1 ev)) ev) !! r'.2 = pool r'.1 ev !! r'.2.
Proof.
  intros Hne. rewrite pool_set. case_decide as Hk; [|done]. rewrite Hk. apply list_lookup_insert_ne. intros Hi. apply Hne.
  destruct r, r'. cbn in *. congruence.
Qed.
Lemma only_called r {A} (f : authd_slot_t -> sys -> A * authd_slot_t * sys) : along (only r) (called f r).
Proof.
  intros v x v' Hc r' Hr. unfold called in Hc. destruct (_ !! _) as [s|]; [|done]. destruct (f s _) as [[x1 s1] y1]. injection Hc as _ <-.
  by apply pool_insert_ne.
Qed.
Lemma only_put r f v x v' s : put_slot r f v = Some (x, v') -> pool r.1 (v_ev v) !! r.2 = Some s -> only r v v'.
Proof. intros Hp Hs r' Hr. destruct (put_slot_some _ _ _ _ _ _ Hp Hs) as [-> _]. by apply pool_insert_ne. Qed.

Definition free_at (r : slot_ref) (v : lst) : Prop := exists s, pool r.1 (v_ev v) !! r.2 = Some s /\ sl_state s = SLOT_FREE.

Lemma closed_free s : ~ open (closed_slot s).
Proof. intros Ho. by apply Ho. Qed.

Lemma use_positive v k i s : ok v -> pool k (v_ev v) !! i = Some s -> open s -> 0 < in_use k (v_ev v).
Proof.
  intros Hg Hs Ho. rewrite (eo_use _ _ _ _ Hg k). pose proof (busy_insert _ _ _ (closed_slot s) Hs) as Hb.
  rewrite (decide_True (P := open s)), (decide_False (P := open (closed_slot s))) in Hb by (done || apply closed_free). lia.
Qed.

(** The end of [evloop_close_slot]. *)
Lemma close_end r v x v' s :
  (put_slot r closed_slot ≫= λ _ : (), on_ev (fun ev => if 0 <? in_use (sl_kind s) ev
     then ev_set_use (sl_kind s) (in_use (sl_kind s) ev - 1) ev else ev)) v = Some (x, v') ->
  pool r.1 (v_ev v) !! r.2 = Some s -> open s -> ok v ->
  ok v' /\ same_setup (v_ev v) (v_ev v') /\ free_at r v' /\ only r v v'.
Proof.
  intros H Hs Ho Hg. apply V_bind_some in H as ([] & v1 & Hp & ->%on_ev_some). pose proof (eo_slots _ _ _ _ Hg _ _ _ Hs) as Hok.
  pose proof (only_put _ _ _ _ _ _ Hp Hs) as Honly. destruct (put_slot_some _ _ _ _ _ _ Hp Hs) as [He Hs1].
  rewrite (so_kind _ _ _ _ Hok). rewrite He, use_pool. rewrite (proj2 (Z.ltb_lt _ _) (use_positive _ _ _ _ Hg Hs Ho)).
  cbn [v_ev]. split; [|split; [|split]].
  - eapply ev_ok_insert; [done|done|by apply sok_closed|]. rewrite (decide_True (P := open s)), (decide_False (P := open (closed_slot s))) by (done || apply closed_free). lia.
  - etrans; [apply same_setup_put|apply same_setup_use].
  - exists (closed_slot s). split; [|done]. cbn [v_ev]. rewrite pool_use. by rewrite <-He.
  - intros r' Hr. cbn [v_ev]. rewrite pool_use. rewrite <-He. by apply Honly.
Qed.

Lemma ok_close_slot r v x v' : evloop_close_slot r v = Some (x, v') -> ok v ->
  ok v' /\ same_setup (v_ev v) (v_ev v') /\ free_at r v' /\ only r v v'.
Proof.
  intros H Hg. unfold evloop_close_slot in H. apply V_bind_some in H as (s & v1 & [-> Hs]%slot_at_some & H).
  case_bool_decide as Hf; [apply V_ret_some in H as [_ ->]; split; [done|split; [done|split; [by exists s|done]]]|].
  apply V_bind_some in H as (ev & v1 & [-> ->]%get_ev_some & H). apply V_bind_some in H as ([] & v1 & Hc & H).
  assert ((ok v1 /\ same_setup (v_ev v) (v_ev v1) /\ open_at r v1) /\ only r v v1) as [(Hg1 & Hset & s1 & Hs1 & Ho1) Honly].
  { revert Hc. destruct (ev_has_close _); [|intros [_ ->]%V_ret_some; split; [split; [done|split; [done|by exists s]]|done]]. intros Hc. split; [|eapply only_called, Hc].
    apply (fun Ha => ok_called r _ _ _ _ Ha Hc Hg (ex_intro _ s (conj Hs Hf))). intros s0 y. pose proof (on_close_slot s0 y) as Ha. by destruct (on_close s0 y). }
  clear Hc.
  apply V_bind_some in H as (s2 & v2 & [-> Hs2]%slot_at_some & H). assert (s2 = s1) as -> by congruence.
  apply V_bind_some in H as ([] & v2 & Hc & H).
  assert (quiet v1 v2) as Hq by (revert Hc; destruct (0 <=? _); [apply quiet_os|by intros [_ ->]%V_ret_some]).
  destruct (ok_quiet _ _ Hq Hg1) as [Hg2 Hset2]. rewrite <-(quiet_pool _ _ r.1 Hq) in Hs1.
  destruct (close_end _ _ _ _ _ H Hs1 Ho1 Hg2) as (Hg' & Hset' & Hfree & Honly').
  split; [done|]. split; [etrans; [done|by etrans]|]. split; [done|].
  etrans; [done|]. etrans; [|done]. intros r' _. by rewrite (quiet_pool _ _ _ Hq).
Qed.

Lemma close_slot r v x v' : evloop_close_slot r v = Some (x, v') -> good v ->
  good v' /\ same_setup (v_ev v) (v_ev v') /\ free_at r v' /\ only r v v'.
Proof.
  intros H Hg. destruct (ok_close_slot _ _ _ _ H Hg) as (Hok & Hset & Hf & Ho). split; [|done]. split; [done|].
  eapply inv_close; [exact H|by apply good_named|apply Hg].
Qed.

(** Slots are only freed. *)
Definition freed (v v' : lst) : Prop := forall k i s, pool k (v_ev v') !! i = Some s -> open s -> pool k (v_ev v) !! i = Some s.
#[global] Instance freed_order : PreOrder freed.
Proof. split; [by intros v k i s|]. intros v1 v2 v3 H1 H2 k i s Hs Ho. auto. Qed.

Definition frees (v v' : lst) : Prop := good v -> good v' /\ same_setup (v_ev v) (v_ev v') /\ freed v v'.
#[global] Instance frees_order : PreOrder frees.
Proof.
  split; [by intros v Hg|]. intros v1 v2 v3 H1 H2 Hg. destruct (H1 Hg) as (G1 & S1 & F1). destruct (H2 G1) as (G2 & S2 & F2).
  split; [done|]. split; by etrans.
Qed.
Lemma frees_quiet {A} (m : V A) : along quiet m -> along frees m.
Proof.
  intros Hm v x v' H%Hm Hg. destruct (step_quiet _ _ H Hg). split; [done|]. split; [done|]. intros k i s. by rewrite (quiet_pool _ _ _ H).
Qed.
Lemma frees_close r : along frees (evloop_close_slot r).
Proof.
  intros v x v' H Hg. destruct (close_slot _ _ _ _ H Hg) as (Hg' & Hs & (s0 & Hs0 & Hf) & Honly). split; [done|]. split; [done|].
  intros k i s Hi Ho. destruct (decide ((k, i) = r)) as [<-|Hne]; [cbn in Hs0; congruence|]. specialize (Honly (k, i) Hne). cbn in Honly. by rewrite <-Honly.
Qed.

(** *** The poll set *)

(** What a slot is polled for. *)
Definition wanted (s : authd_slot_t) : Z :=
  if 0 <? conn_io_pending (Some (sl_io s)) then POLLOUT else if bool_decide (sl_state s = SLOT_ACTIVE) then POLLIN else 0.

(** The entries made of the slots [ix] of pool [k]: one for each that is open. *)
Definition gathered (k : slot_kind_t) (ix : list nat) (v : lst) (l : list (Z * Z * slot_ref)) : Prop :=
  l = omap (fun i => s ← pool k (v_ev v) !! i; if decide (open s) then Some (sl_fd s, wanted s, (k, i)) else None) ix.

(** Slots outside of [ix] are left alone. *)
Definition kept (k : slot_kind_t) (ix : list nat) (v v' : lst) : Prop :=
  forall k' i, k' <> k \/ i ∉ ix -> pool k' (v_ev v') !! i = pool k' (v_ev v) !! i.

Lemma kept_cons k i ix v v1 v' : (forall r', r' <> (k, i) -> pool r'.1 (v_ev v1) !! r'.2 = pool r'.1 (v_ev v) !! r'.2) ->
  kept k ix v1 v' -> kept k (i :: ix) v v'.
Proof.
  intros H1 H2 k' j Hj. rewrite H2 by (destruct Hj as [?|Hj]; [by left|right; contradict Hj; by right]).
  apply (H1 (k', j)). intros [= -> ->]. destruct Hj as [Hj|Hj]; [done|]. apply Hj. by left.
Qed.

Lemma gather_spec k ix : forall taken v l v', gather k ix taken v = Some (l, v') -> good v -> NoDup ix ->
  0 <= taken -> taken + blen ix <= pool_max k ->
  frees v v' /\ gathered k ix v' l /\ blen l <= blen ix /\ kept k ix v v'.
Proof.
  induction ix as [|i ix IH]; intros taken v l v' H Hg Hnd Ht Hm.
  { apply V_ret_some in H as [-> ->]. done. }
  cbn [gather] in H. apply NoDup_cons in Hnd as [Hi Hnd]. cbn [length] in Hm |- *. rewrite (proj2 (Z.ltb_lt _ _)) in H by lia.
  cbn [negb] in H. apply V_bind_some in H as (s & v1 & [-> Hs]%slot_at_some & H). cbn [fst snd] in Hs.
  pose proof (eo_slots _ _ _ _ Hg _ _ _ Hs) as Hok. unfold gathered. cbn [omap list_omap].
  destruct (_ || _) eqn:E1; [|apply orb_false_iff in E1 as [E1%bool_decide_eq_false _]; destruct (_ && _) eqn:E2].
  - apply IH in H as (Hf & -> & Hl & Hk); [|done|done|lia|lia]. split; [done|]. split; [|split; [lia|by apply (kept_cons _ _ _ _ v)]].
    rewrite Hk, Hs by (by right). cbn. rewrite decide_False; [done|]. intros Ho.
    apply orb_prop in E1 as [E1%bool_decide_eq_true|E1%Z.ltb_lt]; [done|]. pose proof (so_fd _ _ _ _ Hok Ho). lia.
  - apply V_bind_some in H as ([] & v1 & Hc & H). pose proof (frees_close _ _ _ _ Hc) as Hf1.
    destruct (close_slot _ _ _ _ Hc Hg) as (Hg1 & _ & (s1 & Hs1 & Hfree) & Honly). cbn [fst snd] in Hs1.
    apply IH in H as (Hf & -> & Hl & Hk); [|done|done|lia|lia]. split; [by etrans|]. split; [|split; [lia|by apply (kept_cons _ _ _ _ v1)]].
    rewrite Hk, Hs1 by (by right). cbn. rewrite decide_False; [done|]. by intros Ho.
  - apply V_bind_some in H as (rest & v1 & H & [-> ->]%V_ret_some).
    apply IH in H as (Hf & -> & Hl & Hk); [|done|done|lia|lia]. split; [done|].
    split; [|split; [cbn [length]; lia|by apply (kept_cons _ _ _ _ v)]]. rewrite Hk, Hs by (by right). cbn. by rewrite decide_True.
Qed.

Lemma listeners_polled ls : Forall (fun l => 0 <= li_fd l) ls ->
  filter (fun p : Z * Z => 0 <= p.1) ((fun l => (li_fd l, POLLIN)) <$> ls) = (fun l => (li_fd l, POLLIN)) <$> ls.
Proof. induction 1 as [|l ls Hl _ IH]; [done|]. rewrite fmap_cons, filter_cons_True by done. by rewrite IH. Qed.

Lemma poll_spec v ls sl v' : poll_set v = Some ((ls, sl), v') -> good v ->
  frees v v' /\ ls = (if ev_stopping (v_ev v) then [] else (fun l => (li_fd l, POLLIN)) <$> ev_listeners (v_ev v)) /\
  blen sl <= AUTHD_SLOTS_POLL_MAX /\
  exists p l, sl = p ++ l /\ gathered SLOT_KIND_PROTO (seq 0 (length (ev_slots (v_ev v)))) v' p /\
              gathered SLOT_KIND_LOCAL (seq 0 (length (ev_local (v_ev v)))) v' l.
Proof.
  intros H Hg. unfold poll_set in H. apply V_bind_some in H as (ev & v0 & [-> ->]%get_ev_some & H). cbv zeta in H.
  apply V_bind_some in H as (p & v1 & Hp & H). apply V_bind_some in H as (l & v2 & Hl & H). apply V_ret_some in H as [[= -> ->] ->].
  pose proof (eo_max _ _ _ _ Hg) as Hm. pose proof (eo_local_max _ _ _ _ Hg) as Hlm. pose proof (eo_listen _ _ _ _ Hg) as Hli.
  apply gather_spec in Hp as (F1 & G1 & L1 & K1); [|done|apply NoDup_seq|lia|rewrite length_seq; cbn; lia]. destruct (F1 Hg) as (Hg1 & _ & _).
  apply gather_spec in Hl as (F2 & G2 & L2 & K2); [|done|apply NoDup_seq|lia|rewrite length_seq; cbn; lia]. rewrite length_seq in L1, L2.
  split; [by etrans|]. split; [|split].
  - destruct (ev_stopping _); [done|]. by apply listeners_polled.
  - rewrite length_app. unfold AUTHD_SLOTS_POLL_MAX. lia.
  - exists p, l. split; [done|]. split; [|done]. unfold gathered in *. rewrite G1.
    assert (pool SLOT_KIND_PROTO (v_ev v2) = pool SLOT_KIND_PROTO (v_ev v1)) as ->; [|done].
    apply list_eq. intros i. apply K2. by left.
Qed.

(** *** Serving *)

(** A part of [serve_slot]: it answers whether the slot was closed. *)
Definition closing_at (r : slot_ref) (m : V bool) : Prop := forall v x v', m v = Some (x, v') -> good v -> open_at r v ->
  good v' /\ same_setup (v_ev v) (v_ev v') /\ (x = false -> open_at r v').

Lemma closing_at_ret r b : closing_at r (mret b).
Proof. by intros v x v' [-> ->]%V_ret_some. Qed.
Lemma closing_at_keep r m : along (step_at r) m -> closing_at r m.
Proof. intros Hm v x v' H Hg Ho. destruct (Hm _ _ _ H Hg Ho) as (? & ? & ?). done. Qed.
Lemma closing_at_close r : closing_at r (_ ← evloop_close_slot r; mret true).
Proof.
  intros v x v' H Hg Ho. apply V_bind_some in H as ([] & v2 & Hc & [-> ->]%V_ret_some).
  by destruct (close_slot _ _ _ _ Hc Hg) as (Hg2 & Hs2 & _).
Qed.
Lemma closing_at_io r (m : V Z) k : along (step_at r) m -> closing_at r k ->
  closing_at r (rc ← m; if rc <? 0 then _ ← evloop_close_slot r; mret true else k).
Proof.
  intros Hm Hk v x v' H Hg Ho. apply V_bind_some in H as (rc & v1 & H1 & H). destruct (Hm _ _ _ H1 Hg Ho) as (Hg1 & Hs1 & Ho1).
  assert (closing_at r (if rc <? 0 then _ ← evloop_close_slot r; mret true else k)) as Hb by (destruct (_ <? 0); [apply closing_at_close|done]).
  destruct (Hb _ _ _ H Hg1 Ho1) as (Hg2 & Hs2 & Ho2). split; [done|]. split; [by etrans|done].
Qed.
Lemma closing_at_bind r (m : V bool) (k : bool -> V bool) : closing_at r m -> closing_at r (k false) -> k true = mret true ->
  closing_at r (m ≫= k).
Proof.
  intros Hm Hk Ht v x v' H Hg Ho. apply V_bind_some in H as ([] & v1 & H1 & H); destruct (Hm _ _ _ H1 Hg Ho) as (Hg1 & Hs1 & Ho1).
  - rewrite Ht in H. by apply V_ret_some in H as [-> ->].
  - destruct (Hk _ _ _ H Hg1 (Ho1 eq_refl)) as (Hg2 & Hs2 & Ho2). split; [done|]. split; [by etrans|done].
Qed.

(** Everything but the last test of [serve_slot]. *)
Definition serve_events (n : nat) (r : slot_ref) (re : Z) (s : authd_slot_t) : V bool :=
  closed ← (closed ← (if has re POLLOUT || (has re POLLHUP && (0 <? conn_io_pending (Some (sl_io s)))) then
              rc ← slot_writable n r;
              if rc <? 0 then _ ← evloop_close_slot r; mret true else
              s ← slot_at r;
              if bool_decide (sl_state s = SLOT_ACTIVE) && (conn_io_pending (Some (sl_io s)) =? 0)
              then _ ← serve_buffered n r now; mret false else mret false
            else mret false);
            if negb closed && has re POLLIN then
              rc ← slot_readable n r now;
              if rc <? 0 then _ ← evloop_close_slot r; mret true else mret false
            else mret (closed : bool));
  if negb closed && has re (Z.lor POLLERR POLLNVAL) then _ ← evloop_close_slot r; mret true else mret (closed : bool).

Lemma V_bind_assoc {A B C} (m : V A) (f : A -> V B) (g : B -> V C) v : ((m ≫= f) ≫= g) v = (m ≫= (λ x, f x ≫= g)) v.
Proof. unfold mbind, V_bind. by destruct (m v) as [[]|]. Qed.

Lemma V_bind_ext {A B} (m : V A) (f g : A -> V B) v : (forall x v, f x v = g x v) -> (m ≫= f) v = (m ≫= g) v.
Proof. intros Hf. unfold mbind, V_bind. by destruct (m v) as [[]|]. Qed.

Lemma serve_slot_eq n r re v : serve_slot n r re now v = (s ← slot_at r; closed ← serve_events n r re s; s ← slot_at r;
  if negb closed && has re POLLHUP && (conn_io_pending (Some (sl_io s)) =? 0) then evloop_close_slot r else mret ()) v.
Proof.
  unfold serve_slot. apply V_bind_ext. intros s v1. unfold serve_events. by rewrite !V_bind_assoc.
Qed.

Lemma serve_events_at n r re s : closing_at r (serve_events n r re s).
Proof.
  unfold serve_events. apply closing_at_bind; [apply closing_at_bind|..]; try done.
  - destruct (_ || _); [|apply closing_at_ret]. apply closing_at_io; [apply at_writable|]. apply closing_at_keep.
    apply along_bind; [apply _|apply at_quiet, quiet_slot_at|]. intros s0. destruct (_ && _); [|apply along_ret, _].
    apply along_bind; [apply _|apply at_serve_buffered|]. intros _. apply along_ret, _.
  - cbn [negb andb]. destruct (has _ _); [|apply closing_at_ret]. apply closing_at_io; [apply at_readable|apply closing_at_ret].
  - cbn [negb andb]. destruct (has _ _); [apply closing_at_close|apply closing_at_ret].
Qed.

Lemma step_close r : along step (evloop_close_slot r).
Proof. intros v x v' H Hg. by destruct (close_slot _ _ _ _ H Hg) as (? & ? & _). Qed.

Lemma step_serve_slot n r re v x v' : serve_slot n r re now v = Some (x, v') -> open_at r v -> step v v'.
Proof.
  rewrite serve_slot_eq. intros H Ho Hg. apply V_bind_some in H as (s & v1 & [-> Hs]%slot_at_some & H).
  apply V_bind_some in H as (c & v1 & Hc & H). destruct (serve_events_at _ _ _ _ _ _ _ Hc Hg Ho) as (Hg1 & Hs1 & _).
  apply V_bind_some in H as (s1 & v2 & [-> _]%slot_at_some & H). destruct (_ && _); [|by apply V_ret_some in H as [_ ->]].
  destruct (step_close _ _ _ _ H Hg1). split; [done|by etrans].
Qed.

Lemma step_serve_slots n l : along step (serve_slots n l now).
Proof.
  induction l as [|[r re] l IH]; [apply along_ret, _|]. intros v x v' H. cbn [serve_slots] in H.
  apply V_bind_some in H as (s & v1 & [-> Hs]%slot_at_some & H). apply V_bind_some in H as (a & v1 & Ha & H).
  apply V_bind_some in H as (b & v2 & Hb & [_ ->]%V_ret_some). etrans; [|by eapply IH]. clear Hb.
  destruct (_ || _) eqn:E1; [by apply V_ret_some in Ha as [_ ->]|]. apply V_bind_some in Ha as ([] & v3 & Ha & [_ ->]%V_ret_some).
  eapply step_serve_slot; [exact Ha|]. exists s. split; [done|]. by apply orb_false_iff in E1 as [E1%bool_decide_eq_false _].
Qed.

(** *** Accepting *)

Lemma accept_fd n fd allow v st c p v' : listener_accept_ex n fd allow v = Some ((st, c, p), v') -> st = LISTENER_OK -> 0 <= c.
Proof.
  intros H ->. unfold listener_accept_ex in H. destruct (_ || _); [by apply V_ret_some in H as [[=] _]|].
  apply V_bind_some in H as (x & v1 & Hx & H). apply restarted_some in Hx as (w & Hx & _).
  destruct x as [x| | |]; try by apply V_ret_some in H as [[=] _].
  assert (0 <= x) as Hx0 by (destruct (os_accept fd w) as [y w'] eqn:He; cbn in Hx; subst y; by eapply os_accept_fd).
  apply V_bind_some in H as (nb & v2 & _ & H).
  destruct (negb _); [by apply V_bind_some in H as ([] & v3 & _ & [[=] _]%V_ret_some)|].
  apply V_bind_some in H as ([rc q] & v3 & _ & H). destruct allow as [|a allow]; [by apply V_ret_some in H as [[= -> ->] _]|].
  destruct (negb _); [by apply V_bind_some in H as ([] & v4 & _ & [[=] _]%V_ret_some)|].
  destruct (negb _); [by apply V_bind_some in H as ([] & v4 & _ & [[=] _]%V_ret_some)|]. by apply V_ret_some in H as [[= -> ->] _].
Qed.

Lemma first_free_some l : forall i j, first_free i l = Some j -> exists k s, j = (i + k)%nat /\ l !! k = Some s /\ sl_state s = SLOT_FREE.
Proof.
  induction l as [|s l IH]; [done|]. intros i j. cbn [first_free]. case_bool_decide as Hf.
  - intros [= <-]. exists 0%nat, s. split; [lia|done].
  - intros (k & s' & -> & Hk & Hs)%IH. exists (S k), s'. split; [lia|done].
Qed.

Lemma opened_ok l c peer ev i s : sok (li_kind l) i s -> ev_handshake_ms ev = hs -> ev_idle_ms ev = idle -> 0 <= c ->
  sok (li_kind l) i (opened_slot l c peer now ev s) /\ open (opened_slot l c peer now ev s).
Proof.
  intros [Hk Hi Hf Hfd Hio Hd] Hh Hid Hc.
  assert (sl_io (opened_slot l c peer now ev s) = conn_start (sl_io s) (match li_kind l with
    | SLOT_KIND_LOCAL => CONN_IO_MODE_LINE | SLOT_KIND_PROTO => if li_ws l then CONN_IO_MODE_WS else CONN_IO_MODE_FRAME end) (li_proxy l)) as Hio'
    by (unfold opened_slot; by destruct (li_kind l)).
  assert (cio_ok (sl_io (opened_slot l c peer now ev s))) as Hok by (rewrite Hio'; eexists _, _; apply cio_start). clear Hio'.
  unfold opened_slot in *. destruct (li_kind l); (split; [|done]); split; try done; apply dp_armed; cbn; rewrite ?Hh, ?Hid; auto.
Qed.

(** A connection is given a free slot, and the count goes up. *)
Lemma step_opened l c peer ev i s v v1 : pool (li_kind l) (v_ev v) !! i = Some s -> sl_state s = SLOT_FREE -> 0 <= c ->
  ev_handshake_ms ev = ev_handshake_ms (v_ev v) -> ev_idle_ms ev = ev_idle_ms (v_ev v) ->
  put_slot (li_kind l, i) (opened_slot l c peer now ev) v = Some ((), v1) ->
  step v (Lst (ev_set_use (li_kind l) (in_use (li_kind l) (v_ev v1) + 1) (v_ev v1)) (v_sys v1)).
Proof.
  intros Hs Hf Hc Hh Hi Hp Hg. rewrite (put_lst _ _ _ _ _ _ Hp Hs). rewrite (eo_hs _ _ _ _ Hg) in Hh. rewrite (eo_idle _ _ _ _ Hg) in Hi.
  destruct (opened_ok l c peer ev i s) as [Hok Ho]; [by apply (eo_slots _ _ _ _ Hg)|done|done|done|].
  cbn [v_ev v_sys fst snd]. split; [|etrans; [apply same_setup_put|apply same_setup_use]]. split.
  - eapply ev_ok_insert; [apply Hg|done|done|]. rewrite use_pool, (decide_False (P := open s)), decide_True by (done || by intros Ho').
    lia.
  - apply (inv_use (Lst _ _)). apply (inv_slot v (li_kind l, i) s); [done|done|apply Hg].
Qed.

Lemma along_quiet_step {A} (m : V A) : along quiet m -> along step m.
Proof. intros Hm v x v' H%Hm. by apply step_quiet. Qed.

Lemma step_accept n li : along step (accept_ready n li now).
Proof.
  induction n as [|n IH]; [apply along_fuel|]. intros v x v' H. cbn [accept_ready] in H.
  apply V_bind_some in H as (ev & v1 & [-> ->]%get_ev_some & H). destruct (ev_stopping _); [by apply V_ret_some in H as [_ ->]|].
  destruct (_ !! li) as [l|]; [|by apply V_ret_some in H as [_ ->]]. apply V_bind_some in H as ([[st c] peer] & v1 & Ha & H).
  pose proof (accept_fd _ _ _ _ _ _ _ _ Ha) as Hfd. pose proof (quiet_accept _ _ _ _ _ _ Ha) as Hq. clear Ha.
  etrans; [by apply step_quiet|]. destruct st; try by apply V_ret_some in H as [_ ->].
  - apply V_bind_some in H as (r & v2 & Hr & H). unfold take_slot in Hr. apply V_bind_some in Hr as (ev & v3 & [-> ->]%get_ev_some & Hr).
    apply V_ret_some in Hr as [-> ->]. destruct (first_free _ _) as [i|] eqn:Hi; cbn [fmap option_fmap option_map] in H.
    + apply first_free_some in Hi as (i0 & s & -> & Hs & Hf). apply V_bind_some in H as ([] & v2 & Hp & H).
      apply V_bind_some in H as (s1 & v3 & [-> _]%slot_at_some & H). apply V_bind_some in H as ([] & v3 & ->%on_ev_some & H).
      etrans; [eapply step_opened; [exact Hs|exact Hf|by apply Hfd| | |exact Hp]; by destruct Hq as [_ [cnt ->]]|]. revert H.
      generalize (Lst (ev_set_use (li_kind l) (in_use (li_kind l) (v_ev v2) + 1) (v_ev v2)) (v_sys v2)). intros v3 H. revert v3 x v' H.
      apply along_bind; [apply _| |intros _; apply IH]. apply along_quiet_step. loops.
    + revert v1 x v' H Hq Hi. intros v1 x v' H _ _. revert v1 x v' H. apply along_bind; [apply _|apply along_quiet_step, quiet_os|intros _].
      apply along_bind; [apply _| |intros _; apply IH]. apply along_quiet_step. loops.
  - clear Hq. revert v1 x v' H. apply along_bind; [apply _|apply along_quiet_step, quiet_bump|intros _].
    apply along_bind; [apply _|apply along_quiet_step, quiet_note|intros _; apply IH].
Qed.

Lemma step_accept_each n l : along step (accept_each n l now).
Proof.
  induction l as [|[i re] l IH]; [apply along_ret, _|]. cbn [accept_each]. apply along_bind; [apply _| |intros a].
  - destruct (has _ _); [|apply along_ret, _]. apply along_bind; [apply _|apply step_accept|intros _; apply along_ret, _].
  - apply along_bind; [apply _|apply IH|intros b; apply along_ret, _].
Qed.

(** *** Deadlines *)

Definition timely (s : authd_slot_t) : Prop := sl_deadline_ms s = 0 \/ now < sl_deadline_ms s.

Lemma expire_spec k ix v c v' : expire k ix now v = Some (c, v') -> good v ->
  frees v v' /\ 0 <= c /\ forall i s, i ∈ ix -> pool k (v_ev v') !! i = Some s -> open s -> timely s.
Proof.
  revert v c. induction ix as [|i ix IH]; intros v c H Hg.
  { apply V_ret_some in H as [-> ->]. split; [done|]. split; [lia|]. by intros i s ?%not_elem_of_nil. }
  cbn [expire] in H. apply V_bind_some in H as (s & v1 & [-> Hs]%slot_at_some & H). apply V_bind_some in H as (a & v1 & Ha & H).
  apply V_bind_some in H as (b & v2 & Hb & [-> ->]%V_ret_some).
  assert (frees v v1 /\ 0 <= a /\ forall s, pool k (v_ev v1) !! i = Some s -> open s -> timely s) as (F1 & A1 & T1).
  { destruct (_ || _) eqn:E1; [|destruct (_ <=? now) eqn:E2].
    - apply V_ret_some in Ha as [-> ->]. split; [done|]. split; [done|]. cbn in Hs. rewrite Hs. intros ? [= <-] Ho. left.
      apply orb_prop in E1 as [E1%bool_decide_eq_true|E1%Z.eqb_eq]; [by destruct Ho|done].
    - apply V_bind_some in Ha as ([] & v3 & H1 & Ha). apply V_bind_some in Ha as ([] & v4 & H2 & Ha).
      apply V_bind_some in Ha as ([] & v5 & Hc & [-> ->]%V_ret_some).
      assert (frees v v4) as Hf by (etrans; [eapply frees_quiet; [apply quiet_bump|exact H1]|eapply frees_quiet; [apply quiet_note|exact H2]]).
      split; [etrans; [exact Hf|by eapply frees_close]|]. split; [done|]. destruct (Hf Hg) as (Hg4 & _ & _).
      destruct (close_slot _ _ _ _ Hc Hg4) as (_ & _ & (s0 & Hs0 & Hfree) & _). cbn in Hs0. rewrite Hs0. intros ? [= <-] Ho. by destruct Ho.
    - apply V_ret_some in Ha as [-> ->]. split; [done|]. split; [done|]. cbn in Hs. rewrite Hs. intros ? [= <-] Ho. right. lia. }
  destruct (F1 Hg) as (Hg1 & _ & _). destruct (IH _ _ Hb Hg1) as (F2 & B2 & T2). split; [by etrans|]. split; [lia|].
  intros j s' [->|Hj]%elem_of_cons Hs' Ho; [|by eapply T2]. destruct (F2 Hg1) as (_ & _ & Hfr). by apply T1; [apply Hfr|].
Qed.

Lemma step_frees v v' : frees v v' -> step v v'.
Proof. intros H Hg. by destruct (H Hg) as (? & ? & _). Qed.

Lemma run_once_spec n timeout v rc v' : evloop_run_once n timeout now v = Some (rc, v') -> good v ->
  good v' /\ same_setup (v_ev v) (v_ev v') /\
  (0 <= rc -> forall k i s, pool k (v_ev v') !! i = Some s -> open s -> timely s).
Proof.
  intros H Hg. unfold evloop_run_once in H. apply V_bind_some in H as ([ls sl] & v1 & Hp & H).
  destruct (poll_spec _ _ _ _ Hp Hg) as (F1 & _). clear Hp. cbv zeta in H. apply V_bind_some in H as (r & v2 & Hr & H).
  assert (quiet v1 v2) as Hq.
  { revert Hr. destruct (ls ++ _); [by intros [_ ->]%V_ret_some|apply quiet_restarted]. }
  clear Hr. destruct (step_frees _ _ F1 Hg) as [Hg1 S1]. destruct (step_quiet _ _ Hq Hg1) as [Hg2 S2]. assert (same_setup (v_ev v) (v_ev v2)) as S02 by (by etrans).
  destruct r as [re| | |]; try by apply V_ret_some in H as [-> ->].
  apply V_bind_some in H as (a & v3 & Ha & H). apply V_bind_some in H as (b & v4 & Hb & H).
  destruct (step_accept_each _ _ _ _ _ Ha Hg2) as [Hg3 S3]. destruct (step_serve_slots _ _ _ _ _ Hb Hg3) as [Hg4 S4]. clear Ha Hb.
  apply V_bind_some in H as (ev & v5 & [-> ->]%get_ev_some & H). apply V_bind_some in H as (c & v5 & Hc & H).
  apply V_bind_some in H as (d & v6 & Hd & [_ ->]%V_ret_some). destruct (expire_spec _ _ _ _ _ Hc Hg4) as (F5 & _ & T5).
  destruct (F5 Hg4) as (Hg5 & S5 & _). destruct (expire_spec _ _ _ _ _ Hd Hg5) as (F6 & _ & T6). destruct (F6 Hg5) as (Hg6 & S6 & Fr6).
  split; [done|]. split; [by repeat (etrans; [eassumption|])|]. intros _ k i s Hs Ho. pose proof (lookup_lt_Some _ _ _ Hs) as Hlt.
  destruct k.
  - pose proof (Fr6 _ _ _ Hs Ho) as Hs5. apply (T5 i); [|done|done]. apply elem_of_seq. split; [lia|].
    pose proof (lookup_lt_Some _ _ _ Hs5) as Hl. rewrite (ss_len _ _ S5) in Hl. cbn in Hl |- *. lia.
  - apply (T6 i); [|done|done]. apply elem_of_seq. split; [lia|]. rewrite (ss_len _ _ S6), (ss_len _ _ S5) in Hlt. cbn in Hlt |- *. lia.
Qed.

Lemma step_close_each k ix : along step (close_each k ix).
Proof.
  induction ix as [|i ix IH]; [apply along_ret, _|]. cbn [close_each]. apply along_bind; [apply _|apply along_quiet_step, quiet_slot_at|intros s].
  apply along_bind; [apply _| |intros _; apply IH]. case_bool_decide; [apply along_ret, _|apply step_close].
Qed.
End pools.

(** ** Runs *)

(** The loop as it is set up, before the first iteration. *)
Inductive set_up (hs idle : Z) : evloop_t -> Prop :=
| set_up_init n c ev : evloop_init n hs idle c = Some ev -> set_up hs idle ev
| set_up_addr ev : set_up hs idle ev -> set_up hs idle (ev_set_has_addr ev)
| set_up_local ev n : set_up hs idle ev -> set_up hs idle (evloop_set_local ev n).2
| set_up_local_listener ev fd allow adm : set_up hs idle ev -> set_up hs idle (evloop_add_local_listener ev fd allow adm).2
| set_up_listener ev fd uid : set_up hs idle ev -> set_up hs idle (evloop_add_listener ev fd uid).2
| set_up_ws ev fd allow px : set_up hs idle ev -> set_up hs idle (evloop_add_ws_listener ev fd allow px).2.

Lemma ev_ok_weaken (P Q : authd_slot_t -> Prop) hs idle ev : (forall s, P s -> Q s) -> ev_ok P hs idle ev -> ev_ok Q hs idle ev.
Proof. intros HPQ [Hs Hu Hm Hl Hli Hlf Hh Hi]. split; try done. intros k i s Hk. destruct (Hs _ _ _ Hk). split; auto. Qed.

Lemma busy_free l : (forall (i : nat) s, l !! i = Some s -> sl_state s = SLOT_FREE) -> busy l = 0%nat.
Proof.
  intros Hl. unfold busy. induction l as [|s l IH]; [done|]. rewrite filter_cons_False; [|intros Ho; apply Ho, (Hl 0%nat); done].
  apply IH. intros i s' Hi. by apply (Hl (S i)).
Qed.

Definition freshly (s : authd_slot_t) : Prop := sl_state s = SLOT_FREE.

Lemma slot_zero_ok k i : slot_ok freshly k i (slot_zero k i).
Proof.
  split; try done. exists [], []. unfold slot_zero. destruct k; cbn; [apply (cio_zero (c_mode conn_io_zero))|apply cio_zero].
Qed.

Lemma fresh_pool k n i s : (slot_zero k <$> seq 0 n) !! i = Some s -> s = slot_zero k i.
Proof. intros (j & -> & [-> _]%lookup_seq)%list_lookup_fmap_Some. done. Qed.

(** A fresh pool of at most its maximum. *)
Lemma ev_ok_fresh_pool hs idle ev k n : ev_ok freshly hs idle ev -> Z.of_nat n <= pool_max k ->
  ev_ok freshly hs idle (ev_set_pool k (slot_zero k <$> seq 0 n) ev).
Proof.
  intros [Hs Hu Hm Hl Hli Hlf Hh Hi] Hn. assert (forall k i s, pool k ev !! i = Some s -> sl_state s = SLOT_FREE) as Hfree
    by (intros k' i s Hk; apply (so_deadline _ _ _ _ (Hs _ _ _ Hk))).
  split; [| |destruct k; cbn in *; rewrite ?length_fmap, ?length_seq; lia..|by destruct k|by destruct k|by destruct k].
  - intros k' i s. rewrite pool_set. case_decide as Hk; [subst k'|apply Hs]. intros ->%fresh_pool. apply slot_zero_ok.
  - intros k'. rewrite use_pool, Hu, pool_set. case_decide as Hk; [subst k'|done]. rewrite (busy_free (pool k ev)) by apply Hfree.
    rewrite busy_free; [done|]. by intros i s ->%fresh_pool.
Qed.

Lemma ev_ok_listener hs idle ev l : ev_ok freshly hs idle ev -> 0 <= li_fd l -> blen (ev_listeners ev) < AUTHD_MAX_LISTENERS ->
  ev_ok freshly hs idle (ev_set_listeners (ev_listeners ev ++ [l]) ev).
Proof.
  intros [Hs Hu Hm Hl Hli Hlf Hh Hi] Hfd Hn. split; try done; [|cbn; by apply Forall_app; split; [|apply Forall_singleton]].
  cbn. rewrite length_app. cbn. lia.
Qed.

Lemma set_up_proto hs idle ev fd allow ws px : ev_ok freshly hs idle ev -> ev_ok freshly hs idle (add_proto_listener ev fd allow ws px).2.
Proof. intros IH. unfold add_proto_listener. destruct (_ || _) eqn:E1; [done|]. apply ev_ok_listener; [done|cbn; lia|lia]. Qed.

Lemma set_up_ok hs idle ev : set_up hs idle ev -> ev_ok freshly hs idle ev.
Proof.
  induction 1 as [n c ev H|ev H IH|ev n H IH|ev fd allow adm H IH|ev fd uid H IH|ev fd allow px H IH].
  - unfold evloop_init in H. destruct (_ || _) eqn:E1; [done|]. injection H as <-.
    apply (ev_ok_fresh_pool hs idle (EvLoop [] 0 [] 0 [] hs idle false c false (fun _ => 0)) SLOT_KIND_PROTO); [|cbn; unfold AUTHD_SLOTS_MAX in *; lia].
    split; first [done | by intros [] | by constructor].
  - by destruct IH.
  - unfold evloop_set_local. destruct (_ || _) eqn:E1; [done|]. apply ev_ok_fresh_pool; [done|cbn; unfold AUTHD_LOCAL_SLOTS_MAX in *; lia].
  - unfold evloop_add_local_listener. destruct (_ || _) eqn:E1; [done|]. apply ev_ok_listener; [done|cbn; lia|lia].
  - by apply set_up_proto.
  - by apply set_up_proto.
Qed.

(** Asked to stop. *)
Definition drain (s : authd_slot_t) : authd_slot_t := if bool_decide (sl_state s = SLOT_ACTIVE) then sl_set_state SLOT_DRAINING s else s.

Lemma drain_open s : open (drain s) <-> open s.
Proof. unfold drain, open. case_bool_decide as Hs; [|done]. by rewrite Hs. Qed.

Lemma busy_drain l : busy (drain <$> l) = busy l.
Proof.
  unfold busy. induction l as [|s l IH]; [done|]. rewrite fmap_cons, !filter_cons. pose proof (drain_open s).
  repeat case_decide; cbn [length]; tauto || by rewrite IH.
Qed.

Lemma stop_pool k ev : pool k (evloop_stop ev) = drain <$> pool k ev.
Proof. by destruct k. Qed.

Lemma stop_ok P now hs idle ev `{!DeadlineProp P now hs idle} : ev_ok P hs idle ev -> ev_ok P hs idle (evloop_stop ev).
Proof.
  intros [Hs Hu Hm Hl Hli Hlf Hh Hi]. split; try done; [| |cbn; by rewrite length_fmap..].
  - intros k i s. rewrite stop_pool. intros (s0 & -> & Hs0)%list_lookup_fmap_Some. specialize (Hs _ _ _ Hs0). unfold drain.
    case_bool_decide as Ha; [|done]. apply (sok_draining P now hs idle); [done|]. unfold open. by rewrite Ha.
  - intros k. rewrite stop_pool, busy_drain, <-Hu. by destruct k.
Qed.

(** The deadline of an open slot is armed, no further than a timeout after [now]. *)
Definition within (now hs idle : Z) (s : authd_slot_t) : Prop := open s -> 0 < sl_deadline_ms s <= now + Z.max hs idle.

Lemma within_prop now hs idle : 0 <= now -> 0 < hs -> 0 < idle -> now + Z.max hs idle < 2 ^ 64 ->
  DeadlineProp (within now hs idle) now hs idle.
Proof.
  intros Hn Hh Hi Hm. split.
  - intros s Hs Ho. by destruct Ho.
  - intros s s' Hs Hd Ho Ho'. rewrite Hd. auto.
  - intros s Hd _. unfold deadline_after in Hd. rewrite !(proj2 (Z.ltb_lt 0 _)) in Hd by done.
    unfold u64 in Hd. rewrite !Z.mod_small in Hd by lia. lia.
Qed.

Section reached.
Context `{E : Env} `{SY : !OS E} `{OSL : !OSLaw E} `{OC : !OnClose E} `{OCL : !OnCloseLaw} `{OI : !OnInput E} `{OIL : !OnInputLaw}.
Context `{B64 : Base64} `{B64L : !Base64Law B64}.

(** The application the daemon starts with: no connection is bound. *)
Definition idle_conns (y : sys) : Prop := Forall (fun c => c_stage c = CONN_STAGE_FREE) (conns (y_app y)).

(** A loop in use, at a time: set up, then iterated at times that do not go
    back, asked to stop, or torn down.  Between iterations the main program
    acts on the application (it pushes the clock, sweeps the store). *)
Inductive reached (hs idle : Z) : Z -> lst -> Prop :=
| reached_start ev y : set_up hs idle ev -> idle_conns y -> reached hs idle 0 (Lst ev y)
| reached_once t n timeout now v rc v' : reached hs idle t v -> t <= now -> now + Z.max hs idle < 2 ^ 64 ->
    evloop_run_once n timeout now v = Some (rc, v') -> reached hs idle now v'
| reached_main t v y : reached hs idle t v -> conns (y_app y) = conns (y_app (v_sys v)) -> reached hs idle t (Lst (v_ev v) y)
| reached_stop t v : reached hs idle t v -> reached hs idle t (Lst (evloop_stop (v_ev v)) (v_sys v))
| reached_close t v v' : reached hs idle t v -> evloop_close_all v = Some ((), v') -> reached hs idle t v'.

Lemma reached_inv (J : lst -> Prop) `{JI : !LoopInv J} hs idle t v : 0 < hs -> 0 < idle -> Z.max hs idle < 2 ^ 64 ->
  (forall ev y, idle_conns y -> J (Lst ev y)) -> reached hs idle t v ->
  0 <= t /\ t + Z.max hs idle < 2 ^ 64 /\ good (within t hs idle) hs idle J v.
Proof.
  intros Hh Hi Hm Hj. induction 1 as [ev y Hev Hy|t n timeout now v rc v' _ (Ht & Hb & IH) Hn Hbn Hr|t v y _ (Ht & Hb & IH) Hc
    |t v _ (Ht & Hb & IH)|t v v' _ (Ht & Hb & IH) Hr].
  - split; [done|]. split; [done|]. split; [|by apply Hj]. eapply ev_ok_weaken; [|by apply set_up_ok]. intros s Hs Ho. by destruct Ho.
  - split; [lia|]. split; [done|]. pose proof (within_prop now hs idle ltac:(lia) Hh Hi Hbn) as Hp.
    apply (run_once_spec _ _ _ _ J _ _ _ _ _ Hr). destruct IH as [IH IJ]. split; [|done].
    eapply ev_ok_weaken; [|exact IH]. intros s Hs Ho. specialize (Hs Ho). lia.
  - split; [done|]. split; [done|]. destruct IH as [IH IJ]. split; [done|]. eapply inv_quiet; [|exact IJ]. by apply quiet_same.
  - split; [done|]. split; [done|]. pose proof (within_prop t hs idle Ht Hh Hi Hb). destruct IH as [IH IJ].
    split; [by eapply stop_ok|by apply inv_stop].
  - split; [done|]. split; [done|]. pose proof (within_prop t hs idle Ht Hh Hi Hb) as Hp. unfold evloop_close_all in Hr.
    apply V_bind_some in Hr as (ev & v0 & [-> ->]%get_ev_some & Hr). apply V_bind_some in Hr as ([] & v1 & H1 & H2).
    destruct (step_close_each _ t _ _ J _ _ _ _ _ H1 IH) as [H _]. by apply (step_close_each _ t _ _ J _ _ _ _ _ H2).
Qed.

Lemma reached_ok hs idle t v : 0 < hs -> 0 < idle -> Z.max hs idle < 2 ^ 64 -> reached hs idle t v ->
  0 <= t /\ t + Z.max hs idle < 2 ^ 64 /\ ev_ok (within t hs idle) hs idle (v_ev v).
Proof. intros Hh Hi Hm Hv. destruct (reached_inv no_inv _ _ _ _ Hh Hi Hm ltac:(done) Hv) as (? & ? & [? _]). done. Qed.

(** C28: whatever the peers send and whatever order of iterations, stop and
    teardown the daemon has been through, the two pools are as [evloop.h]
    describes them: the counters are the numbers of slots in use, which never
    exceed the pools; a slot has its pool's kind and its own index; a free slot
    has no descriptor, no verdict on an address and no session; an open one has
    a descriptor, well-formed buffers (what is not data is zero) and a deadline
    armed no further than a timeout ahead. *)
Theorem loop_invariant hs idle t v : 0 < hs -> 0 < idle -> Z.max hs idle < 2 ^ 64 -> reached hs idle t v ->
  ev_ok (within t hs idle) hs idle (v_ev v).
Proof. intros Hh Hi Hm Hv. by apply reached_ok. Qed.

(** C29: an iteration at time [now] that does not fail leaves no connection open
    past its deadline, in either pool, and every deadline is at most a timeout
    away: a peer that goes silent is closed by the first iteration after its
    handshake or idle timeout. *)
Theorem deadlines_enforced hs idle t v n timeout now rc v' : 0 < hs -> 0 < idle -> Z.max hs idle < 2 ^ 64 ->
  reached hs idle t v -> t <= now -> now + Z.max hs idle < 2 ^ 64 ->
  evloop_run_once n timeout now v = Some (rc, v') -> 0 <= rc ->
  forall k i s, pool k (v_ev v') !! i = Some s -> open s -> now < sl_deadline_ms s <= now + Z.max hs idle.
Proof.
  intros Hh Hi Hm Hv Ht Hb Hr Hrc k i s Hs Ho. destruct (reached_ok _ _ _ _ Hh Hi Hm Hv) as (Ht0 & _ & Hok).
  pose proof (within_prop now hs idle ltac:(lia) Hh Hi Hb) as Hp.
  assert (ev_ok (within now hs idle) hs idle (v_ev v)) as Hok' by (eapply ev_ok_weaken; [|exact Hok]; intros s0 H0 Ho0; specialize (H0 Ho0); lia).
  destruct (run_once_spec _ _ _ _ no_inv _ _ _ _ _ Hr ltac:(by split)) as (Hok2 & _ & Htime).
  pose proof (so_deadline _ _ _ _ (eo_slots _ _ _ _ Hok2 _ _ _ Hs) Ho) as Hw. destruct (Htime Hrc _ _ _ Hs Ho); lia.
Qed.

Lemma gathered_elem k n v l i s : gathered k (seq 0 n) v l -> length (pool k (v_ev v)) = n -> pool k (v_ev v) !! i = Some s ->
  (open s <-> (sl_fd s, wanted s, (k, i)) ∈ l).
Proof.
  intros -> Hn Hs. rewrite list_elem_of_omap. split.
  - intros Ho. exists i. split; [apply elem_of_seq; pose proof (lookup_lt_Some _ _ _ Hs); lia|]. rewrite Hs. cbn. by rewrite decide_True.
  - intros (j & _ & Hj). destruct (pool k (v_ev v) !! j) as [s'|] eqn:Hs'; [|done]. cbn in Hj. case_decide; [|done].
    injection Hj as _ _ ->. congruence.
Qed.
Lemma gathered_kind k k' n v l i x : gathered k (seq 0 n) v l -> (x, (k', i)) ∈ l -> k' = k.
Proof.
  intros -> (j & _ & Hj)%list_elem_of_omap. destruct (_ !! j) as [s|]; [|done]. cbn in Hj. case_decide; [|done]. by injection Hj.
Qed.

(** C30: the poll set never overruns the arrays of [evloop_run_once], whatever
    the sizes of the two pools, and leaves nothing out: while the loop is not
    stopping every listener is in it at its own index, and a slot is in it, for
    output while a reply is pending and for input otherwise, exactly when it is
    open. *)
Theorem poll_set_complete hs idle t v ls sl v' : 0 < hs -> 0 < idle -> Z.max hs idle < 2 ^ 64 -> reached hs idle t v ->
  poll_set v = Some ((ls, sl), v') ->
  blen (ls ++ ((fun e => e.1) <$> sl)) <= AUTHD_MAX_LISTENERS + AUTHD_SLOTS_POLL_MAX /\ blen sl <= AUTHD_SLOTS_POLL_MAX /\
  ls = (if ev_stopping (v_ev v) then [] else (fun l => (li_fd l, POLLIN)) <$> ev_listeners (v_ev v)) /\
  forall k i s, pool k (v_ev v') !! i = Some s -> (open s <-> (sl_fd s, wanted s, (k, i)) ∈ sl).
Proof.
  intros Hh Hi Hm Hv Hp. destruct (reached_ok _ _ _ _ Hh Hi Hm Hv) as (Ht & Hb & Hok). pose proof (within_prop t hs idle Ht Hh Hi Hb) as HP.
  assert (good (within t hs idle) hs idle no_inv v) as Hg by (by split).
  destruct (poll_spec _ t _ _ no_inv _ _ _ _ Hp Hg) as (F & -> & Hsl & p & l & -> & Gp & Gl). destruct (F Hg) as (_ & Hset & _).
  split; [|split; [done|split; [done|]]].
  - rewrite length_app, length_fmap. pose proof (eo_listeners _ _ _ _ Hok). destruct (ev_stopping _); rewrite ?length_fmap; cbn [length]; unfold AUTHD_MAX_LISTENERS in *; lia.
  - intros k i s Hs. rewrite elem_of_app. pose proof (ss_len _ _ Hset k) as Hn. destruct k.
    + rewrite <-(gathered_elem _ _ _ _ _ _ Gp Hn Hs). split; [by left|]. intros [Ho|Hx]; [done|]. by apply (gathered_kind _ _ _ _ _ _ _ Gl) in Hx.
    + rewrite <-(gathered_elem _ _ _ _ _ _ Gl Hn Hs). split; [by right|]. intros [Hx|Ho]; [|done]. by apply (gathered_kind _ _ _ _ _ _ _ Gp) in Hx.
Qed.
End reached.
