(* ===== verification/EvLoopTotal.v ===== *)
(** * What an iteration of the event loop may do without end

    The loops of [evloop_run_once] that have no bound of their own restart an
    interrupted call, accept until the listener is empty and serve a buffer
    until it is.  The first ends when signals do not interrupt the call again
    and again ([few_interrupts]); the last because every input served is taken
    out of a bounded buffer.  The second ends when the system has no further
    connection to hand out: nothing in the loop bounds it. *)

From S2P Require Import Prelude Extern Handshake ProxyV2 Ws WsUpgrade ConnIo ConnIoProps StoreTx AuthdLog Slot AuthdConn EvLoop EvLoopProps.

(** The callback for a line comes to an end; the others are functions. *)
Class LinesEnd (E : Env) {OI : OnInput E} : Prop :=
  on_line_ends : forall i p v, is_Some (ev_local (v_ev v) !! i) -> exists x v', on_line (SLOT_KIND_LOCAL, i) p v = Some (x, v').

Section total.
Context `{E : Env} `{SY : !OS E}.

(** ** Interruptions *)

(** [m] is interrupted at most [k] times in a row. *)
Fixpoint intr_le {A} (k : nat) (m : M (io_result A)) (w : world) : Prop :=
  match m w with
  | (IO_INTR, w') => match k with O => False | S k => intr_le k m w' end
  | _ => True
  end.

Record few_interrupts (k : nat) : Prop := {
  fi_read : forall fd n w, intr_le k (os_read fd n) w;
  fi_write : forall fd p w, intr_le k (os_write fd p) w;
  fi_poll : forall ps t w, intr_le k (os_poll ps t) w }.

(** ** Coming to an end *)

Definition ends {A} (m : V A) (v : lst) : Prop := exists x v', m v = Some (x, v').

Lemma ends_bind {A B} (m : V A) (f : A -> V B) v : ends m v -> (forall x v', m v = Some (x, v') -> ends (f x) v') -> ends (m ≫= f) v.
Proof. intros (x & v1 & Hm) Hf. destruct (Hf _ _ Hm) as (y & v2 & H2). exists y, v2. unfold mbind, V_bind. by rewrite Hm. Qed.
Lemma ends_run {A B} (m : V A) (f : A -> V B) v x v' : m v = Some (x, v') -> ends (f x) v' -> ends (m ≫= f) v.
Proof. intros Hm Hf. apply ends_bind; [by exists x, v'|]. intros y v1 Hy. rewrite Hm in Hy. by injection Hy as <- <-. Qed.
Lemma ends_ret {A} (x : A) v : ends (mret x) v.
Proof. by exists x, v. Qed.
Lemma ends_get_ev v : ends get_ev v.
Proof. by exists (v_ev v), v. Qed.
Lemma ends_on_ev f v : ends (on_ev f) v.
Proof. by eexists _, _. Qed.
Lemma ends_put r f v : ends (put_slot r f) v.
Proof. apply ends_on_ev. Qed.
Lemma ends_note k v : ends (note k) v.
Proof. by eexists _, _. Qed.
Lemma ends_os {A} (m : M A) v : ends (os m) v.
Proof. unfold ends, os. destruct (m _) as [x w]. by eexists _, _. Qed.

Definition valid (r : slot_ref) (v : lst) : Prop := (r.2 < length (pool r.1 (v_ev v)))%nat.
Lemma valid_setup r v v' : same_setup (v_ev v) (v_ev v') -> valid r v -> valid r v'.
Proof. intros Hs. unfold valid. by rewrite (ss_len _ _ Hs). Qed.
Lemma valid_quiet r v v' : quiet v v' -> valid r v -> valid r v'.
Proof. intros Hq. unfold valid. by rewrite (quiet_pool _ _ _ Hq). Qed.
Lemma ends_slot_at r v : valid r v -> ends (slot_at r) v.
Proof. intros [s Hs]%lookup_lt_is_Some. exists s, v. by rewrite (slot_at_run _ _ _ Hs). Qed.

Lemma ends_restarted {A} (m : M (io_result A)) k n v : (forall w, intr_le k m w) -> (k < n)%nat -> ends (restarted n m) v.
Proof.
  intros Hi. specialize (Hi (y_w (v_sys v))). revert n v Hi. induction k as [|k IH]; intros [|n] v Hi Hn; [lia| |lia|];
    cbn [restarted]; unfold mbind, V_bind, ends, os; cbn [intr_le] in Hi; destruct (m (y_w (v_sys v))) as [[x| | |] w]; try done; try by eexists _, _.
  apply IH; [exact Hi|lia].
Qed.
End total.

Create HintDb ends.
#[export] Hint Resolve ends_ret ends_get_ev ends_on_ev ends_put ends_note ends_os : ends.

Ltac ending := repeat first [ solve [auto with ends] | apply ends_bind; [|intros] | case_match | progress cbv zeta ].

Section iteration.
Context `{E : Env} `{SY : !OS E} `{OSL : !OSLaw E}.
Context `{OC : !OnClose E} `{OCL : !OnCloseLaw} `{OI : !OnInput E} `{OIL : !OnInputLaw} `{LE : !LinesEnd E}.
Context `{B64 : Base64} `{B64L : !Base64Law B64}.
Context (now hs idle : Z) (kmax n : nat).
Hypothesis Hintr : few_interrupts kmax.
Hypothesis Hrounds : (kmax < n)%nat.
Hypothesis Hbuffer : AUTHD_IN_BUF_BYTES < Z.of_nat n.

Abbreviation sane := (good anything hs idle no_inv).

Lemma ends_called r {A} (f : authd_slot_t -> sys -> A * authd_slot_t * sys) v : valid r v -> ends (called f r) v.
Proof. intros [s Hs]%lookup_lt_is_Some. unfold ends, called. rewrite Hs. destruct (f s (v_sys v)) as [[x s1] y]. by eexists _, _. Qed.

Lemma valid_called r r' {A} (f : authd_slot_t -> sys -> A * authd_slot_t * sys) v x v' : called f r v = Some (x, v') -> valid r' v -> valid r' v'.
Proof.
  unfold called. destruct (_ !! _) as [s|]; [|done]. destruct (f s _) as [[x1 s1] y1]. intros [= _ <-] Hv.
  by eapply valid_setup; [apply same_setup_put|].
Qed.

Lemma valid_put r r' f v x v' : put_slot r f v = Some (x, v') -> valid r' v -> valid r' v'.
Proof.
  intros ->%on_ev_some Hv. unfold valid in *. cbn [v_ev]. rewrite pool_set. case_decide as Hk; [|done]. rewrite <-Hk. by rewrite length_alter.
Qed.

Lemma ends_close r v : valid r v -> ends (evloop_close_slot r) v.
Proof.
  intros Hv. unfold evloop_close_slot. apply ends_bind; [by apply ends_slot_at|]. intros s v1 [-> _]%slot_at_some.
  case_bool_decide; [apply ends_ret|]. apply ends_bind; [apply ends_get_ev|]. intros ev v1 [-> ->]%get_ev_some.
  apply ends_bind; [destruct (ev_has_close _); [by apply ends_called|apply ends_ret]|].
  intros [] v1 Hc. assert (valid r v1) as Hv1 by (revert Hc; destruct (ev_has_close _); [intros Hc; by eapply valid_called|by intros [_ ->]%V_ret_some]).
  apply ends_bind; [by apply ends_slot_at|]. intros s1 v2 _. ending.
Qed.

(** *** Input served is taken out of the buffer *)

Lemma note_header_len c : c_in_len (note_header c).2 = c_in_len c.
Proof. unfold note_header. by repeat case_match. Qed.

Lemma next_line_consumed c p c1 c2 d q : cio c d q -> conn_io_next_line (Some c) = (Some p, Some c1) -> same_input c1 c2 ->
  exists c3, conn_io_consume_line (Some c2) = Some c3 /\ c_in_len c3 < c_in_len c.
Proof.
  intros Hc H (_ & _ & Hl & _ & Ht & _). unfold conn_io_next_line in H. destruct (_ || _); [done|]. destruct (memchr _ _) as [i|] eqn:Hi; [|done].
  apply memchr_range in Hi. injection H as _ <-. cbn in Hl, Ht. pose proof (cio_in_len _ _ _ Hc) as Hd. rewrite length_take in Hi.
  unfold conn_io_consume_line. rewrite Hl, Ht. rewrite (proj2 (Z.eqb_neq _ _)), (proj2 (Z.ltb_ge _ _)) by lia. eexists. split; [done|]. cbn. lia.
Qed.

Lemma next_frame_consumed c p c1 c2 d q : cio c d q -> conn_io_next_frame (Some c) = (Some p, Some c1) -> same_input c1 c2 ->
  exists c3, conn_io_consume_frame (Some c2) = Some c3 /\ c_in_len c3 < c_in_len c.
Proof.
  intros Hc H (_ & _ & Hl & Hf & _). unfold conn_io_next_frame in H. destruct (c_failed c); [done|].
  pose proof (note_header_len c) as Hn. pose proof (cio_note_header c d q Hc) as Hc1. destruct (note_header c) as [st c0]. cbn [snd] in Hn, Hc1.
  destruct (negb _); [done|]. destruct (_ =? 0) eqn:E1; [done|]. destruct (_ <? _) eqn:E2; [done|]. injection H as _ <-.
  destruct (cio_frame _ _ _ Hc1) as [Hp _]. unfold conn_io_consume_frame. rewrite Hf, Hl, E1, E2. eexists. split; [done|].
  rewrite note_header_len. cbn. unfold AUTHD_FRAME_HEADER in *. lia.
Qed.

Lemma served_shorter s p s1 s2 ev : cio_ok (sl_io s) -> next_input s = (Some p, s1) -> answers s1 s2 ->
  c_in_len (sl_io (served now ev s2)) < c_in_len (sl_io s).
Proof.
  intros (d & q & Hc) Hn [_ Hk _ _ _ Hin _]. unfold next_input in Hn. unfold served. cbn [sl_set_deadline sl_set_io sl_io].
  destruct (sl_kind s) eqn:Hks.
  - destruct (next_frame_keeps _ _ _ Hc) as (c1 & He & _). destruct (conn_io_next_frame _) as [p' io] eqn:Hf. cbn in He. subst io.
    injection Hn as -> <-. cbn in Hk, Hin. rewrite Hk, Hks. by destruct (next_frame_consumed _ _ _ _ _ _ Hc Hf Hin) as (c3 & -> & ?).
  - destruct (next_line_keeps _ _ _ Hc) as (c1 & He & _). destruct (conn_io_next_line _) as [p' io] eqn:Hf. cbn in He. subst io.
    injection Hn as -> <-. cbn in Hk, Hin. rewrite Hk, Hks. by destruct (next_line_consumed _ _ _ _ _ _ Hc Hf Hin) as (c3 & -> & ?).
Qed.

(** What a callback does to the slot it is called on. *)
Lemma callback_slot r payload v act v' s k : sane v -> pool r.1 (v_ev v) !! r.2 = Some s -> sl_kind s = k ->
  match k with SLOT_KIND_LOCAL => on_line r payload | SLOT_KIND_PROTO => called (fun s y => on_frame s (Some payload) y) r end v = Some (act, v') ->
  exists s', pool r.1 (v_ev v') !! r.2 = Some s' /\ answers s s'.
Proof.
  intros Hg Hs Hk H. destruct (eo_slots _ _ _ _ Hg _ _ _ Hs) as [Hk' _ _ _ _ _]. destruct r as [k0 i]. cbn [fst snd] in *.
  assert (k0 = k) as -> by congruence. destruct k.
  - unfold called in H. cbn [fst snd] in H. rewrite Hs in H. pose proof (on_frame_slot s (Some payload) (v_sys v)) as Ha. destruct (on_frame s (Some payload) (v_sys v)) as [[x1 s1] y1].
    injection H as _ <-. exists s1. split; [|done]. cbn. apply list_lookup_insert_eq. by eapply lookup_lt_Some.
  - by apply (on_line_slot _ _ _ _ _ _ H Hs).
Qed.

Lemma ends_serve_buffered m r v s : sane v -> pool r.1 (v_ev v) !! r.2 = Some s -> open s -> c_in_len (sl_io s) < Z.of_nat m ->
  ends (serve_buffered m r now) v.
Proof.
  revert v s. induction m as [|m IH]; intros v s Hg Hs Ho Hn.
  { destruct (so_io _ _ _ _ (eo_slots _ _ _ _ Hg _ _ _ Hs)) as (d & q & Hc). pose proof (cio_in_len _ _ _ Hc). lia. }
  cbn [serve_buffered]. apply ends_bind; [apply ends_slot_at; by apply lookup_lt_Some in Hs|]. intros s0 v0 [-> Hs0]%slot_at_some.
  assert (s0 = s) as -> by congruence. clear Hs0. pose proof (eo_slots _ _ _ _ Hg _ _ _ Hs) as Hok.
  destruct (next_input_io s (so_io _ _ _ _ Hok)) as (io & Hni & Hio). destruct (next_input s) as [p s1] eqn:Hnext. cbn in Hni.
  apply ends_bind; [apply ends_put|]. intros [] v1 Hp. pose proof (put_slot_some _ _ _ _ _ _ Hp Hs) as [_ Hs1].
  destruct p as [p|]; [|apply ends_ret].
  destruct (put_at _ _ _ no_inv _ _ _ _ _ _ Hp Hs ltac:(intros; subst s1; by apply (sok_io anything now hs idle)) ltac:(by subst s1) Hg (ex_intro _ s (conj Hs Ho)))
    as (Hg1 & _ & _).
  assert (open s1) as Ho1 by (by subst s1). clear Hp Hni Hio io. apply ends_bind.
  { pose proof (eo_slots _ _ _ _ Hg1 _ _ _ Hs1) as Hok1. rewrite (so_kind _ _ _ _ Hok1). destruct r as [k i]. cbn [fst] in *. destruct k.
    - apply ends_called. by apply lookup_lt_Some in Hs1.
    - apply (on_line_ends i p v1). by exists s1. }
  intros act v2 Hact. destruct (callback_slot r p v1 act v2 s1 (sl_kind s1) Hg1 Hs1 eq_refl Hact) as (s2 & Hs2 & Ha).
  assert (sane v2) as Hg2.
  { pose proof (eo_slots _ _ _ _ Hg1 _ _ _ Hs1) as Hok1. rewrite (so_kind _ _ _ _ Hok1) in Hact. destruct r as [k i]. cbn [fst] in *. destruct k.
    - by apply (at_frame anything now hs idle no_inv i p _ _ _ Hact Hg1 (ex_intro _ s1 (conj Hs1 Ho1))).
    - split; [by apply (on_line_step anything now hs idle _ _ _ _ _ Hact Hg1)|done]. }
  assert (open s2) as Ho2 by (by apply (answers_open s1)). pose proof (served_shorter _ _ _ _ (v_ev v2) (so_io _ _ _ _ Hok) Hnext Ha) as Hlt.
  apply ends_bind; [apply ends_get_ev|]. intros ev v3 [-> ->]%get_ev_some. apply ends_bind; [apply ends_put|]. intros [] v3 Hp.
  destruct (put_slot_some _ _ _ _ _ _ Hp Hs2) as [_ Hs3].
  destruct (put_at _ _ _ no_inv _ _ _ _ _ _ Hp Hs2 ltac:(intros; apply (served_ok anything now hs idle); [apply (eo_idle _ _ _ _ Hg2)|done]) ltac:(done) Hg2 (ex_intro _ s2 (conj Hs2 Ho2)))
    as (Hg3 & _ & _).
  case_bool_decide; [apply ends_put|]. apply ends_bind; [apply ends_slot_at; by apply lookup_lt_Some in Hs3|].
  intros s4 v4 [-> Hs4]%slot_at_some. destruct (0 <? _); [apply ends_ret|]. eapply IH; [done|exact Hs3|done|lia].
Qed.

(** *** Fuel enough for an iteration *)

Abbreviation at_ r := (step_at anything hs idle no_inv r).
Abbreviation stp := (step anything hs idle no_inv).

Lemma sane_step v v' : sane v -> stp v v' -> sane v'.
Proof. intros Hg Hs. apply (Hs Hg). Qed.
Lemma sane_at r v v' : sane v -> open_at r v -> at_ r v v' -> sane v' /\ open_at r v'.
Proof. intros Hg Ho Hs. by destruct (Hs Hg Ho) as (? & _ & ?). Qed.
Lemma open_valid r v : open_at r v -> valid r v.
Proof. intros (s & Hs & _). by apply lookup_lt_Some in Hs. Qed.

Lemma ends_sb r v : sane v -> open_at r v -> ends (serve_buffered n r now) v.
Proof.
  intros Hg (s & Hs & Ho). eapply ends_serve_buffered; [done|done|done|].
  destruct (so_io _ _ _ _ (eo_slots _ _ _ _ Hg _ _ _ Hs)) as (d & q & Hc). rewrite (cio_in_len _ _ _ Hc).
  pose proof (proj1 (cio_in _ _ _ Hc)). lia.
Qed.

Lemma ends_protocol_error s cs v : ends (protocol_error s cs) v.
Proof. unfold protocol_error. ending. Qed.

Lemma ends_settle_addr r v : open_at r v -> ends (settle_addr r) v.
Proof.
  intros Ho%open_valid. unfold settle_addr. apply ends_bind; [by apply ends_slot_at|]. intros s v1 [-> _]%slot_at_some.
  apply ends_bind; [apply ends_get_ev|]. intros ev v1 [-> _]%get_ev_some. destruct (_ && _); [|apply ends_ret].
  apply ends_bind; [apply ends_put|]. intros [] v1 Hp. destruct (ev_has_addr ev); [|apply ends_ret].
  apply ends_bind; [apply ends_called; by eapply valid_put|]. intros; apply ends_ret.
Qed.

Lemma received_put r v s v1 b cs io : sane v -> pool r.1 (v_ev v) !! r.2 = Some s -> conn_io_push (Some (sl_io s)) (Some b) (blen b) = (cs, io) ->
  put_slot r (sl_set_io (default (sl_io s) io)) v = Some ((), v1) -> at_ r v v1.
Proof.
  intros Hg Hs Hpush Hp. destruct (so_io _ _ _ _ (eo_slots _ _ _ _ Hg _ _ _ Hs)) as (d & q & Hio).
  destruct (push_keeps _ _ _ b Hio) as (c' & d' & He & Hc'). rewrite Hpush in He. cbn in He. subst io.
  eapply (put_at anything hs idle no_inv); [exact Hp|exact Hs| |done]. intros Hok _. apply (sok_io anything now hs idle); [done|by exists d', q].
Qed.

Lemma ends_received r b v : sane v -> open_at r v -> ends (slot_received n r b now) v.
Proof.
  intros Hn Ho. unfold slot_received. apply ends_bind; [apply ends_slot_at; by apply open_valid|]. intros s v0 [-> Hs]%slot_at_some.
  destruct (conn_io_push _ _ _) as [cs io] eqn:Hpush. apply ends_bind; [apply ends_put|]. intros [] v1 Hp.
  destruct (sane_at _ _ _ Hn Ho (received_put _ _ _ _ _ _ _ Hn Hs Hpush Hp)) as [Hn1 Ho1]. clear Hp Hs.
  destruct (negb _); [apply ends_protocol_error|]. apply ends_bind; [by apply ends_settle_addr|]. intros refused v2 Ha.
  destruct (sane_at _ _ _ Hn1 Ho1 (at_settle_addr anything now hs idle no_inv _ _ _ _ Ha)) as [Hn2 Ho2]. destruct refused; [ending|].
  apply ends_bind; [by apply ends_sb|]. intros; apply ends_ret.
Qed.

Lemma ends_readable r v : sane v -> open_at r v -> ends (slot_readable n r now) v.
Proof.
  intros Hn Ho. unfold slot_readable. apply ends_bind; [apply ends_slot_at; by apply open_valid|]. intros s v0 [-> Hs]%slot_at_some. cbv zeta.
  destruct (_ =? 0); [apply ends_protocol_error|].
  apply ends_bind; [by apply (ends_restarted _ kmax); [apply (fi_read _ Hintr)|]|]. intros b v1 Hb.
  assert (at_ r v v1) as Ha by (eapply (at_quiet _ _ _ no_inv _ _ (quiet_restarted n _)); exact Hb).
  destruct (sane_at _ _ _ Hn Ho Ha) as [Hn1 Ho1]. destruct b; try apply ends_ret. destruct (_ =? 0); [apply ends_ret|by apply ends_received].
Qed.

Lemma ends_writable r v : sane v -> open_at r v -> ends (slot_writable n r) v.
Proof.
  intros Hn Ho. unfold slot_writable. apply ends_bind; [apply ends_slot_at; by apply open_valid|]. intros s v0 [-> Hs]%slot_at_some. cbv zeta.
  destruct (_ =? 0); [apply ends_ret|]. apply ends_bind; [by apply (ends_restarted _ kmax); [apply (fi_write _ Hintr)|]|]. intros b v1 Hb.
  pose proof (valid_quiet r _ _ (quiet_restarted _ _ _ _ _ Hb) (open_valid _ _ Ho)) as Hv. destruct b; try apply ends_ret.
  apply ends_bind; [apply ends_put|]. intros [] v2 Hp. apply ends_bind; [apply ends_slot_at; by eapply valid_put|]. intros; apply ends_ret.
Qed.

(** *** Serving, accepting, expiring *)

(** A part of [serve_slot] that ends. *)
Definition ending_at (r : slot_ref) (m : V bool) : Prop :=
  closing_at anything hs idle no_inv r m /\ forall v, sane v -> open_at r v -> ends m v.

Lemma ending_at_io r (m : V Z) k : along (at_ r) m -> (forall v, sane v -> open_at r v -> ends m v) -> ending_at r k ->
  ending_at r (rc ← m; if rc <? 0 then _ ← evloop_close_slot r; mret true else k).
Proof.
  intros Hm He [Hk1 Hk2]. split; [by apply (closing_at_io anything now hs idle no_inv)|]. intros v Hn Ho. apply ends_bind; [by apply He|]. intros rc v1 H1.
  destruct (sane_at _ _ _ Hn Ho (Hm _ _ _ H1)) as [Hn1 Ho1]. destruct (_ <? 0); [|by apply Hk2].
  apply ends_bind; [by apply ends_close, open_valid|]. intros; apply ends_ret.
Qed.
Lemma ending_at_bind r (m : V bool) (k : bool -> V bool) : ending_at r m -> ending_at r (k false) -> k true = mret true ->
  ending_at r (m ≫= k).
Proof.
  intros [Hm1 Hm2] [Hk1 Hk2] Ht. split; [by apply closing_at_bind|]. intros v Hn Ho. apply ends_bind; [by apply Hm2|]. intros c v1 H1.
  destruct (Hm1 _ _ _ H1 Hn Ho) as (Hg1 & _ & Ho1). destruct c; [rewrite Ht; apply ends_ret|]. apply Hk2; [done|by apply Ho1].
Qed.
Lemma ending_at_ret r b : ending_at r (mret b).
Proof. split; [apply closing_at_ret|]. intros; apply ends_ret. Qed.
Lemma ending_at_close r : ending_at r (_ ← evloop_close_slot r; mret true).
Proof.
  split; [exact (closing_at_close anything now hs idle no_inv r)|]. intros v _ Ho. apply ends_bind; [by apply ends_close, open_valid|]. intros; apply ends_ret.
Qed.

Lemma ends_serve_events r re s : ending_at r (serve_events now n r re s).
Proof.
  unfold serve_events. apply ending_at_bind; [apply ending_at_bind|..]; try done.
  - destruct (_ || _); [|apply ending_at_ret]. apply ending_at_io; [apply (at_writable anything now hs idle no_inv)|apply ends_writable|]. split.
    + apply closing_at_keep. apply along_bind; [apply _|apply (at_quiet anything hs idle no_inv), quiet_slot_at|]. intros s0. destruct (_ && _); [|apply along_ret, _].
      apply along_bind; [apply _|apply (at_serve_buffered anything now hs idle no_inv)|]. intros _. apply along_ret, _.
    + intros v Hn Ho. apply ends_bind; [by apply ends_slot_at, open_valid|]. intros s0 v1 [-> _]%slot_at_some. destruct (_ && _); [|apply ends_ret].
      apply ends_bind; [by apply ends_sb|]. intros; apply ends_ret.
  - cbn [negb andb]. destruct (has _ _); [|apply ending_at_ret]. apply ending_at_io; [apply (at_readable anything now hs idle no_inv)|apply ends_readable|apply ending_at_ret].
  - cbn [negb andb]. destruct (has _ _); [apply ending_at_close|apply ending_at_ret].
Qed.

Lemma ends_serve_slot r re v : sane v -> open_at r v -> ends (serve_slot n r re now) v.
Proof.
  intros Hn Ho. unfold ends. rewrite (serve_slot_eq now). apply ends_bind; [by apply ends_slot_at, open_valid|]. intros s v0 [-> _]%slot_at_some.
  destruct (ends_serve_events r re s) as [Hc He]. apply ends_bind; [by apply He|]. intros c v1 H1.
  destruct (Hc _ _ _ H1 Hn Ho) as (_ & Hset & _). pose proof (valid_setup r _ _ Hset (open_valid _ _ Ho)) as Hv.
  apply ends_bind; [by apply ends_slot_at|]. intros s1 v2 [-> _]%slot_at_some. destruct (_ && _); [by apply ends_close|apply ends_ret].
Qed.

Lemma ends_serve_slots l v : sane v -> Forall (fun p => valid p.1 v) l -> ends (serve_slots n l now) v.
Proof.
  revert v. induction l as [|[r re] l IH]; intros v Hn Hl; [apply ends_ret|]. apply Forall_cons in Hl as [Hr Hl]. cbn [serve_slots].
  apply ends_bind; [by apply ends_slot_at|]. intros s v0 [-> Hs]%slot_at_some. set (m := if _ || _ then _ else _).
  apply ends_bind.
  { unfold m. destruct (_ || _) eqn:E1; [apply ends_ret|]. apply orb_false_iff in E1 as [E1%bool_decide_eq_false _].
    apply ends_bind; [apply ends_serve_slot; [done|by exists s]|]. intros; apply ends_ret. }
  intros a v1 Ha. assert (stp v v1) as Hst.
  { unfold m in Ha. destruct (_ || _) eqn:E1; [by apply V_ret_some in Ha as [_ ->]|]. apply orb_false_iff in E1 as [E1%bool_decide_eq_false _].
    apply V_bind_some in Ha as ([] & v3 & Ha & [_ ->]%V_ret_some). eapply (step_serve_slot anything now hs idle no_inv); [exact Ha|by exists s]. }
  destruct (Hst Hn) as [Hg1 Hset]. apply ends_bind; [|intros; apply ends_ret].
  apply IH; [done|]. eapply Forall_impl; [exact Hl|]. intros p. by apply valid_setup.
Qed.

(** The accepts of an iteration end, or one listener's loop does not. *)
Lemma accept_each_cases l v : ends (accept_each n l now) v \/
  exists l1 i re l2 a v1, l = l1 ++ (i, re) :: l2 /\ accept_each n l1 now v = Some (a, v1) /\ has re POLLIN = true /\ accept_ready n i now v1 = None.
Proof.
  revert v. induction l as [|[i re] l IH]; intros v; [left; apply ends_ret|]. cbn [accept_each].
  set (m := if has re POLLIN then _ else _). destruct (m v) as [[a v1]|] eqn:Hm.
  - destruct (IH v1) as [(b & v2 & Hb)|(l1 & j & re' & l2 & b & v2 & -> & Hb & Hr & Hn)].
    + left. apply (ends_run _ _ _ _ _ Hm), (ends_run _ _ _ _ _ Hb), ends_ret.
    + right. exists ((i, re) :: l1), j, re', l2, (a + b), v2. split; [done|]. split; [|done]. cbn [accept_each]. fold m. unfold mbind, V_bind. by rewrite Hm, Hb.
  - right. exists [], i, re, l, 0, v. split; [done|]. split; [done|]. unfold m in Hm. destruct (has re POLLIN); [|done]. split; [done|].
    unfold mbind, V_bind in Hm. by destruct (accept_ready n i now v) as [[[] v2]|].
Qed.

Definition all_valid (k : slot_kind_t) (ix : list nat) (v : lst) : Prop := Forall (fun i => valid (k, i) v) ix.

Lemma all_valid_setup k ix v v' : same_setup (v_ev v) (v_ev v') -> all_valid k ix v -> all_valid k ix v'.
Proof. intros Hs Hv. eapply Forall_impl; [exact Hv|]. intros i. by apply valid_setup. Qed.

Lemma ends_expire k ix v : sane v -> all_valid k ix v -> ends (expire k ix now) v.
Proof.
  revert v. induction ix as [|i ix IH]; intros v Hg Hv; [apply ends_ret|]. apply Forall_cons in Hv as [Hi Hv]. cbn [expire].
  apply ends_bind; [by apply ends_slot_at|]. intros s v0 [-> _]%slot_at_some. apply ends_bind.
  { destruct (_ || _); [apply ends_ret|]. destruct (_ <=? _); [|apply ends_ret]. apply ends_bind; [apply ends_on_ev|]. intros [] v1 H1.
    apply ends_bind; [apply ends_note|]. intros [] v2 H2. apply ends_bind; [|intros; apply ends_ret]. apply ends_close.
    eapply valid_quiet; [eapply quiet_note, H2|]. by eapply valid_quiet; [eapply quiet_bump, H1|]. }
  intros a v1 Ha. assert (along stp (if bool_decide (sl_state s = SLOT_FREE) || (sl_deadline_ms s =? 0) then mret 0 else
         if sl_deadline_ms s <=? now then
           _ ← on_ev (ev_bump closed_deadline);
           _ ← note (authd_log_slot AUTHD_LOG_INFO (label "closed-deadline") (sl_index s));
           _ ← evloop_close_slot (k, i);
           mret 1
         else mret 0)) as Hst.
  { destruct (_ || _); [apply along_ret, _|]. destruct (_ <=? _); [|apply along_ret, _]. apply along_bind; [apply _|apply (along_quiet_step anything hs idle no_inv), quiet_bump|intros _].
    apply along_bind; [apply _|apply (along_quiet_step anything hs idle no_inv), quiet_note|intros _]. apply along_bind; [apply _|apply (step_close anything now hs idle no_inv)|intros _; apply along_ret, _]. }
  destruct (Hst _ _ _ Ha Hg) as [Hg1 Hset]. apply ends_bind; [|intros; apply ends_ret]. apply IH; [done|by eapply all_valid_setup].
Qed.

Lemma ends_gather k ix taken v : sane v -> all_valid k ix v -> ends (gather k ix taken) v.
Proof.
  revert taken v. induction ix as [|i ix IH]; intros taken v Hg Hv; [apply ends_ret|]. apply Forall_cons in Hv as [Hi Hv]. cbn [gather].
  destruct (negb _); [apply ends_ret|]. apply ends_bind; [by apply ends_slot_at|]. intros s v0 [-> _]%slot_at_some.
  destruct (_ || _); [by apply IH|]. cbv zeta. destruct (_ && _).
  - apply ends_bind; [by apply ends_close|]. intros [] v1 Hc. destruct (step_close anything now hs idle no_inv _ _ _ _ Hc Hg) as [Hg1 Hset].
    apply IH; [done|by eapply all_valid_setup].
  - apply ends_bind; [by apply IH|]. intros; apply ends_ret.
Qed.

Lemma all_valid_seq k v v' m : length (pool k (v_ev v)) = m -> same_setup (v_ev v) (v_ev v') -> all_valid k (seq 0 m) v'.
Proof. intros <- Hs. apply Forall_forall. intros i [_ Hi]%elem_of_seq. unfold valid. cbn. by rewrite (ss_len _ _ Hs). Qed.

Lemma gather_step k ix taken : along stp (gather k ix taken).
Proof.
  revert taken. induction ix as [|i ix IH]; intros taken; [apply along_ret, _|]. cbn [gather]. destruct (negb _); [apply along_ret, _|].
  apply along_bind; [apply _|apply (along_quiet_step anything hs idle no_inv), quiet_slot_at|]. intros s. destruct (_ || _); [apply IH|]. cbv zeta. destruct (_ && _).
  - apply along_bind; [apply _|apply (step_close anything now hs idle no_inv)|]. intros _. apply IH.
  - apply along_bind; [apply _|apply IH|]. intros rest. apply along_ret, _.
Qed.

Lemma ends_poll_set v : sane v -> ends poll_set v.
Proof.
  intros Hg. unfold poll_set. apply ends_bind; [apply ends_get_ev|]. intros ev v0 [-> ->]%get_ev_some. cbv zeta.
  apply ends_bind; [by apply ends_gather; [|apply (all_valid_seq SLOT_KIND_PROTO v)]|]. intros p v1 H1.
  destruct (gather_step _ _ _ _ _ _ H1 Hg) as [Hg1 S1].
  apply ends_bind; [by apply ends_gather; [|apply (all_valid_seq SLOT_KIND_LOCAL v)]|]. intros; apply ends_ret.
Qed.

Lemma gathered_valid k ix v l : gathered k ix v l -> Forall (fun e => valid e.2 v) l.
Proof.
  intros ->. apply Forall_forall. intros e (i & _ & He)%list_elem_of_omap. destruct (pool k (v_ev v) !! i) as [s|] eqn:Hs; [|done].
  cbn in He. case_decide; [|done]. injection He as <-. by apply lookup_lt_Some in Hs.
Qed.

Lemma zip_valid v (l : list (Z * Z * slot_ref)) (re : list Z) : Forall (fun e => valid e.2 v) l ->
  Forall (fun p : slot_ref * Z => valid p.1 v) (zip ((fun e => e.2) <$> l) re).
Proof.
  intros Hl. revert re. induction Hl as [|e l He _ IH]; intros [|x re]; try done. cbn. constructor; [done|apply IH].
Qed.

(** In the iteration that starts in [v], the loop that accepts from listener
    [i] does not end within [n] rounds. *)
Definition accept_stalls (timeout : Z) (v : lst) (i : nat) : Prop :=
  exists ls sl v1 re v2 l1 r l2 a v3,
    poll_set v = Some ((ls, sl), v1) /\
    restarted n (os_poll (ls ++ ((fun e => e.1) <$> sl)) timeout) v1 = Some (IO_OK re, v2) /\
    zip (seq 0 (length ls)) re = l1 ++ (i, r) :: l2 /\ has r POLLIN = true /\
    accept_each n l1 now v2 = Some (a, v3) /\ accept_ready n i now v3 = None.

Lemma run_once_cases timeout v : sane v ->
  ends (evloop_run_once n timeout now) v \/ ev_stopping (v_ev v) = false /\ exists i, accept_stalls timeout v i.
Proof.
  intros Hg. destruct (ends_poll_set v Hg) as ([ls sl] & v1 & Hp).
  destruct (poll_spec anything now hs idle no_inv _ _ _ _ Hp Hg) as (F1 & Hls & _ & p & l & Hsl & Gp & Gl).
  pose proof (sane_step _ _ Hg (step_frees _ _ _ _ _ _ F1)) as Hg1.
  assert (Forall (fun e => valid e.2 v1) sl) as Hv by (rewrite Hsl; apply Forall_app; split; by eapply gathered_valid). clear Gp Gl F1 Hsl p l.
  set (all := ls ++ ((fun e => e.1) <$> sl)).
  set (m := match all with [] => mret (IO_OK []) | _ => restarted n (os_poll all timeout) end).
  assert (along quiet m) as Hmq by (unfold m; destruct all; [apply along_ret, _|apply quiet_restarted]).
  assert (ends m v1) as (r & v2 & Hr)
    by (unfold m; destruct all; [apply ends_ret|by apply (ends_restarted _ kmax); [apply (fi_poll _ Hintr)|]]).
  pose proof (sane_step _ _ Hg1 (step_quiet anything hs idle no_inv _ _ (Hmq _ _ _ Hr))) as Hg2.
  assert (Forall (fun e => valid e.2 v2) sl) as Hv2 by (eapply Forall_impl; [exact Hv|]; intros e; by apply valid_quiet, (Hmq _ _ _ Hr)).
  destruct r as [re| | |]; try by left; apply (ends_run _ _ _ _ _ Hp), (ends_run _ _ _ _ _ Hr), ends_ret.
  destruct (accept_each_cases (zip (seq 0 (length ls)) re) v2) as [(a & v3 & Ha)|(l1 & i & r & l2 & a & v3 & Hz & Ha & Hin & Hn)].
  - left. apply (ends_run _ _ _ _ _ Hp), (ends_run _ _ _ _ _ Hr), (ends_run _ _ _ _ _ Ha).
    destruct (step_accept_each anything now hs idle no_inv _ _ _ _ _ Ha Hg2) as [Hg3 Set3].
    apply ends_bind; [apply ends_serve_slots; [done|]; apply zip_valid; eapply Forall_impl; [exact Hv2|]; intros e; by apply valid_setup|].
    intros b v4 Hb. destruct (step_serve_slots anything now hs idle no_inv _ _ _ _ _ Hb Hg3) as [Hg4 _].
    apply ends_bind; [apply ends_get_ev|]. intros ev v5 [-> ->]%get_ev_some.
    apply ends_bind; [by apply ends_expire; [|apply (all_valid_seq SLOT_KIND_PROTO v4)]|]. intros c v5 Hc.
    destruct (expire_spec anything now hs idle no_inv _ _ _ _ _ Hc Hg4) as (F5 & _). destruct (F5 Hg4) as (Hg5 & Set5 & _).
    apply ends_bind; [by apply ends_expire; [|apply (all_valid_seq SLOT_KIND_LOCAL v4)]|]. intros; apply ends_ret.
  - right. split; [destruct (ev_stopping _); [subst ls; by destruct l1|done]|].
    exists i, ls, sl, v1, re, v2, l1, r, l2, a, v3. split_and!; try done. unfold m in Hr. fold all. destruct all eqn:Hall; [|done].
    unfold all in Hall. apply app_eq_nil in Hall as [-> _]. by destruct l1.
Qed.
End iteration.
