(* ===== verification/LocalReq.v ===== *)
(** * Requests and responses of the local API ([apps/authd/localapi.c])

    A request is one line, [CMD (SP key=value)*]; a reply is text built in a
    buffer of one frame.  Hexadecimal in and out is libsodium's (class [Hex]). *)

From S2P Require Import Prelude WsUpgrade ConnIo StoreDb Store AuthdLog.

Definition LOCALAPI_MAX_KEYS : Z := 12.
Definition AUTHD_LIST_MAX : Z := 24.
Definition CMD_BYTES : Z := 24.
Definition SP : byte := x20.
Definition EQ : byte := x3d.

(** ** libsodium *)

(** [sodium_bin2hex], and [sodium_hex2bin] with no characters to ignore and no
    end pointer: [None] unless the whole text was decoded within [cap] bytes. *)
Class Hex := {
  sodium_bin2hex : list byte -> text;
  sodium_hex2bin : Z -> text -> option (list byte) }.

(** Documented: two characters for each byte, all of them hexadecimal digits;
    decoding undoes encoding, and never exceeds its buffer. *)
Class HexLaw (H : Hex) : Prop := {
  bin2hex_len : forall b, blen (sodium_bin2hex b) = 2 * blen b;
  bin2hex_digits : forall b, Forall (fun c => 48 <= bz c <= 57 \/ 97 <= bz c <= 102) (sodium_bin2hex b);
  hex2bin_bin2hex : forall b cap, blen b <= cap -> sodium_hex2bin cap (sodium_bin2hex b) = Some b;
  hex2bin_cap : forall t b cap, sodium_hex2bin cap t = Some b -> blen b <= cap }.

(** ** The request *)

Record kv_t := KV { kv_key : text; kv_val : text }.
Record req_t := Req { rq_cmd : text; rq_kv : list kv_t }.

(** [line[i] < 0x20u || line[i] > 0x7eu] does not hold. *)
Definition printable (b : byte) : bool := negb ((bz b <? 0x20) || (0x7e <? bz b)).

(** The bytes before the first space, and the rest. *)
Fixpoint token (l : list byte) : list byte * list byte :=
  match l with
  | [] => ([], [])
  | b :: l' => if decide (b = SP) then ([], l) else let '(t, r) := token l' in (b :: t, r)
  end.

Fixpoint skip_spaces (l : list byte) : list byte :=
  match l with
  | [] => []
  | b :: l' => if decide (b = SP) then skip_spaces l' else l
  end.

(** The loop over the pairs; one round uses up at least one byte. *)
Fixpoint parse_pairs (fuel : nat) (l : list byte) (kv : list kv_t) : option (list kv_t) :=
  match fuel, l with
  | _, [] => Some kv
  | O, _ => None
  | S fuel, b :: _ =>
    if negb (bool_decide (b = SP)) then None else
    match skip_spaces l with
    | [] => Some kv
    | l =>
      let '(tok, rest) := token l in
      match memchr tok EQ with
      | None => None
      | Some klen =>
        if klen =? 0 then None else
        if LOCALAPI_MAX_KEYS <=? blen kv then None else
        let key := ztake klen tok in
        if bool_decide (key ∈ kv_key <$> kv) then None else
        parse_pairs fuel rest (kv ++ [KV key (zdrop (klen + 1) tok)])
      end
    end
  end.

Definition parse_request (line : list byte) : option req_t :=
  if blen line =? 0 then None else
  if negb (forallb printable line) then None else
  let '(cmd, rest) := token line in
  if (blen cmd =? 0) || (CMD_BYTES <=? blen cmd) then None else
  kv ← parse_pairs (length line) rest [];
  Some (Req cmd kv).

Definition kv_get (r : req_t) (key : string) : option kv_t :=
  head (filter (fun kv => kv_key kv = label key) (rq_kv r)).

Definition keys_are_known (r : req_t) (allowed : list string) : bool :=
  forallb (fun kv => bool_decide (kv_key kv ∈ label <$> allowed)) (rq_kv r).

(** ** Values *)

Section values.
Context `{HX : Hex}.

(** The decoded value, of at least [min_len] and at most [cap] bytes. *)
Definition get_hex (r : req_t) (key : string) (cap min_len : Z) : option (list byte) :=
  match kv_get r key with
  | None => None
  | Some kv =>
    let n := blen (kv_val kv) in
    if n =? 0 then (if min_len =? 0 then Some [] else None) else
    if negb (n mod 2 =? 0) || (cap <? n / 2) then None else
    match sodium_hex2bin cap (kv_val kv) with
    | None => None
    | Some b => if blen b <? min_len then None else Some b
    end
  end.

Definition id_valid (p : list byte) : bool :=
  if (blen p <? 1) || (Store.STORE_ID_MAX <? blen p) then false else forallb printable p.

(** An identifier: [get_hex(...) == 0 && id_valid(...)]. *)
Definition get_id (r : req_t) (key : string) : option (list byte) :=
  match get_hex r key Store.STORE_ID_MAX 1 with
  | Some b => if id_valid b then Some b else None
  | None => None
  end.

(** An optional value, the empty one when the key is absent. *)
Definition get_opt (r : req_t) (key : string) (cap : Z) : option (list byte) :=
  match kv_get r key with None => Some [] | Some _ => get_hex r key cap 0 end.

(** A value of exactly [n] bytes, in a buffer of [cap]. *)
Definition get_exact (r : req_t) (key : string) (cap n : Z) : option (list byte) :=
  match get_hex r key cap n with
  | Some b => if blen b =? n then Some b else None
  | None => None
  end.

(** A decimal number of 1 to [digits] digits. *)
Fixpoint decimal (l : text) (n : Z) : option Z :=
  match l with
  | [] => Some n
  | c :: l => if (bz c <? 48) || (57 <? bz c) then None else decimal l (n * 10 + (bz c - 48))
  end.

Definition get_num (r : req_t) (key : string) (digits : Z) : option Z :=
  match kv_get r key with
  | None => None
  | Some kv => if (blen (kv_val kv) =? 0) || (digits <? blen (kv_val kv)) then None else decimal (kv_val kv) 0
  end.

(** ** The response *)

Record resp_t := Resp { rs_buf : text; rs_overflow : bool }.
Definition resp_init : resp_t := Resp [] false.

(** [t] is what the format prints; it must leave room for the NUL. *)
Definition resp_add (r : resp_t) (t : text) : resp_t :=
  if rs_overflow r then r else
  if AUTHD_FRAME_MAX - blen (rs_buf r) <=? blen t then Resp (rs_buf r) true else Resp (rs_buf r ++ t) false.

Definition resp_hex (r : resp_t) (p : list byte) : resp_t :=
  if rs_overflow r then r else
  if AUTHD_FRAME_MAX - blen (rs_buf r) <? blen p * 2 + 1 then Resp (rs_buf r) true else
  Resp (rs_buf r ++ sodium_bin2hex p) false.

Definition add (t : text) (r : resp_t) : resp_t := resp_add r t.
Definition hex (p : list byte) (r : resp_t) : resp_t := resp_hex r p.

(** What [send_resp] queues. *)
Definition reply_text (r : resp_t) : text :=
  if rs_overflow r || (blen (rs_buf r) =? 0) then label "ERR code=internal" ++ [NL] else rs_buf r.

Definition err_resp (code : string) : resp_t := add (label "ERR code=" ++ label code ++ [NL]) resp_init.

(** *** Lists *)

Record list_ctx_t := ListCtx { lc_r : resp_t; lc_n : Z; lc_too_many : bool }.
Definition list_start : list_ctx_t := ListCtx resp_init 0 false.

(** One more item, unless there are too many; whether to stop. *)
Definition listed (c : list_ctx_t) (item : resp_t -> resp_t) : bool * list_ctx_t :=
  if AUTHD_LIST_MAX <=? lc_n c then (true, ListCtx (lc_r c) (lc_n c) true) else
  let r := item (lc_r c) in (rs_overflow r, ListCtx r (lc_n c + 1) (lc_too_many c)).

Definition role_name (r : store_role_t) : string := match r with STORE_ROLE_OPERATOR => "operator" | STORE_ROLE_USER => "user" end.

Definition on_device (c : list_ctx_t) (handle lbl : blob) (status : text) (enrolled_at last_seen : Z) (pk_fp : blob)
    : bool * list_ctx_t :=
  listed c (fun r => add [NL] (hex pk_fp (add (label " status=" ++ status ++ label " enrolled=" ++ sdec enrolled_at
    ++ label " last_seen=" ++ sdec last_seen ++ label " fp=") (hex lbl (add (label " label=") (hex handle (add (label "DEVICE handle=") r))))))).

Definition on_user (c : list_ctx_t) (user_id : blob) (role : store_role_t) (status : text) (created_at : Z) : bool * list_ctx_t :=
  listed c (fun r => add (label " role=" ++ label (role_name role) ++ label " status=" ++ status ++ label " created="
    ++ sdec created_at ++ [NL]) (hex user_id (add (label "USER user=") r))).

Definition on_audit (c : list_ctx_t) (seq at_ : Z) (event : text) (user_id handle : blob) (detail : text) : bool * list_ctx_t :=
  listed c (fun r => add (label " detail=" ++ detail ++ [NL]) (hex handle (add (label " handle=") (hex user_id
    (add (label "AUDIT seq=" ++ sdec seq ++ label " at=" ++ sdec at_ ++ label " event=" ++ event ++ label " user=") r))))).

Definition finish_list (c : list_ctx_t) : resp_t :=
  if lc_too_many c then err_resp "too-many" else
  let body := lc_r c in
  let out := add (label "OK count=" ++ dec (lc_n c) ++ [NL]) resp_init in
  if rs_overflow out || rs_overflow body || (AUTHD_FRAME_MAX - blen (rs_buf out) - 5 <? blen (rs_buf body)) then err_resp "too-many" else
  add (label "END" ++ [NL]) (Resp (rs_buf out ++ rs_buf body) false).

End values.
