(* ===== verification/LocalApi.v ===== *)
(** * The local API ([apps/authd/localapi.c])

    The commands the site's own process and the operator's console send over a
    unix socket, one line each, and the tables that say which of the two may
    use which.  A handler acts on the event loop (it replies on the slot the
    line came from, and a revocation closes other slots), the store, the world
    and the journal, so it is a computation of the loop.

    [store_backup] of [store.c] is here as well: it copies the database into a
    file, so it needs the file system (class [FileSys]). *)

From S2P Require Import Prelude Extern Handshake RateLimit WsUpgrade ConnIo StoreDb StoreTx Store StoreAuth StoreOpen Tokens Base32 Recovery AuthdLog Slot AuthdConn EvLoop LocalReq.

Definition RECOVERY_CODES_MAX : Z := 16.
Definition STORE_SCHEMA_VERSION_PUBLIC : Z := 1.

#[global] Instance store_role_eq_dec : EqDecision store_role_t.
Proof. solve_decision. Defined.

(** The calls of a backup: create the file (exclusively, mode 0600), let the
    engine write a snapshot of the database into it, change its mode, remove it. *)
Class FileSys (E : Env) := {
  fs_create : text -> M bool;
  fs_vacuum : text -> db -> M bool;
  fs_chmod : text -> Z -> M bool;
  fs_unlink : text -> M unit }.

Section localapi.
Context `{E : Env} `{AC : !AppClock E} `{EN : Engine} `{CK : Clock} `{SC : StoreCrypto} `{PH : !PwHash}.
Context `{HX : Hex} `{SY : !OS E} `{FS : !FileSys E} `{OC : !OnClose E}.

(** ** Effects *)

Definition get_sys : V sys := fun v => Some (v_sys v, v).
Definition vapp : V authd_app_t := y ← get_sys; mret (y_app y).
Definition on_vapp (f : authd_app_t -> authd_app_t) : V unit := fun v => Some ((), Lst (v_ev v) (y_on_app f (v_sys v))).
(** A call of the store, with its out parameters initially [o]. *)
Definition vsql {O A} (o : O) (m : T O A) : V ((store_status_t + A) * O) := fun v =>
  let y := v_sys v in
  let '(r, o', k) := m o (y_db y) in Some ((r, o'), Lst (v_ev v) (Sys (y_app y) k (y_w y) (y_log y))).
(** A call that hashes as well: it uses the store and the world. *)
Definition vboth {A} (m : world -> conn -> A * world * conn) : V A := fun v =>
  let y := v_sys v in
  let '(x, w, k) := m (y_w y) (y_db y) in Some (x, Lst (v_ev v) (Sys (y_app y) k w (y_log y))).

(** ** Replies *)

Definition send_resp (r : slot_ref) (rs : resp_t) : V ev_action_t :=
  s ← slot_at r;
  let t := reply_text rs in
  _ ← put_slot r (sl_set_io (default (sl_io s) (conn_io_queue (Some (sl_io s)) (Some t) (blen t)).2));
  mret EV_ACTION_CONTINUE.

Definition send_err (r : slot_ref) (code : string) : V ev_action_t := send_resp r (err_resp code).

Definition ok_resp : resp_t := add (label "OK" ++ [NL]) resp_init.

(** ** Handlers *)

Definition h_ping (r : slot_ref) (req : req_t) : V ev_action_t :=
  if negb (blen (rq_kv req) =? 0) then send_err r "malformed" else
  y ← get_sys;
  send_resp r (add (label "OK version=1 schema=" ++ sdec STORE_SCHEMA_VERSION_PUBLIC ++ label " uptime="
    ++ dec (u64 (now_ms (y_w y) - started_ms (policy (y_app y))) / 1000) ++ [NL]) resp_init).

(** *** Enrollment *)

Definition authd_fp_of_pk (pk : blob) : blob := crypto_hash_sha256 pk.

Definition log_req7 (s : authd_slot_t) (handle fp_old fp_new : blob) : V unit :=
  _ ← note (authd_log_slot_id AUTHD_LOG_WARN (label "enroll-key-mismatch") (sl_index s) handle);
  _ ← note (authd_log_fp AUTHD_LOG_WARN (label "enroll-key-mismatch-old") fp_old);
  note (authd_log_fp AUTHD_LOG_WARN (label "enroll-key-mismatch-new") fp_new).

Definition refuse_conflict (r : slot_ref) (handle pk : blob) : V ev_action_t :=
  a ← vapp;
  ls ← vsql () (store_handle_last_key (app_store a) (Some handle) true);
  match ls.1 with
  | inl STORE_ERR_NOT_FOUND => send_err r "pk-in-use"
  | inl _ => send_err r "internal"
  | inr last =>
    if negb (memeq last pk STORE_PK_BYTES) then
      s ← slot_at r;
      _ ← log_req7 s handle (authd_fp_of_pk last) (authd_fp_of_pk pk);
      send_err r "exists-different-key"
    else send_err r "pk-in-use"
  end.

Definition some_if_any (l : blob) : option blob := if 0 <? blen l then Some l else None.

(** [via=recovery] *)
Definition enroll_recovery (r : slot_ref) (role : store_role_t) (user handle pk lbl thash : blob) : V ev_action_t :=
  a ← vapp;
  gu ← vsql () (store_get_user (app_store a) (Some user) true 16);
  match gu.1 with
  | inl STORE_ERR_NOT_FOUND => send_err r "ticket-invalid"
  | inl _ => send_err r "internal"
  | inr (existing, status) =>
    if negb (bool_decide (default role existing = role)) then send_err r "role-mismatch" else
    if negb (bool_decide (default [] status = ACTIVE)) then send_err r "user-disabled" else
    es ← vsql () (store_enroll_via_ticket (app_store a) (Some thash) (Some user) (Some handle) (Some pk) (some_if_any lbl) (app_now_unix a));
    match es.1 with
    | inl STORE_ERR_NOT_FOUND => send_err r "ticket-invalid"
    | inl STORE_ERR_STATE => send_err r "user-disabled"
    | inl STORE_ERR_CONFLICT => refuse_conflict r handle pk
    | inl _ => send_err r "internal"
    | inr _ =>
      let fp := authd_fp_of_pk pk in
      s ← slot_at r;
      _ ← note (authd_log_slot_id AUTHD_LOG_WARN (label "enroll-recovery") (sl_index s) handle);
      _ ← note (authd_log_fp AUTHD_LOG_WARN (label "enroll-recovery-fp") fp);
      send_resp r (add [NL] (hex fp (add (label "OK fp=") resp_init)))
    end
  end.

(** The end of an enrollment that succeeded. *)
Definition enroll_ok (r : slot_ref) (handle pk : blob) (idempotent : bool) : V ev_action_t :=
  let fp := authd_fp_of_pk pk in
  s ← slot_at r;
  _ ← note (authd_log_slot_id AUTHD_LOG_INFO (label (if idempotent then "enroll-idempotent" else "enroll")) (sl_index s) handle);
  _ ← note (authd_log_fp AUTHD_LOG_INFO (label "enroll-fp") fp);
  let rs := hex fp (add (label "OK fp=") resp_init) in
  send_resp r (add [NL] (if idempotent then add (label " idempotent=1") rs else rs)).

(** The user and the enrollment in one transaction. *)
Definition enroll_store (r : slot_ref) (role : store_role_t) (user handle pk lbl : blob) : V ev_action_t :=
  a ← vapp;
  es ← vsql (EnrollOut false false) (store_enroll_device_ex (app_store a) (Some handle) (Some user) role (Some pk)
              (Some (label "site")) (Some (label "local-api")) (some_if_any lbl));
  match es.1 with
  | inl STORE_ERR_CONFLICT => refuse_conflict r handle pk
  | inl _ => send_err r "internal"
  | inr _ => enroll_ok r handle pk (idempotent_out es.2)
  end.

(** [via=site] *)
Definition enroll_site (r : slot_ref) (role : store_role_t) (user handle pk lbl : blob) : V ev_action_t :=
  a ← vapp;
  us ← vsql () (store_get_user (app_store a) (Some user) true 16);
  let go :=
    cur ← vsql () (store_lookup_active (app_store a) (Some handle) true (Some Store.STORE_ID_MAX) false);
    match cur.1 with
    | inl _ => enroll_store r role user handle pk lbl
    | inr (cur, owner, _) =>
      if memeq cur pk STORE_PK_BYTES then
        let owner := default [] owner in
        if negb (blen owner =? blen user) || negb (memeq owner user (blen user)) then enroll_store r role user handle pk lbl
        else enroll_ok r handle pk true
      else
        s ← slot_at r;
        _ ← log_req7 s handle (authd_fp_of_pk cur) (authd_fp_of_pk pk);
        send_err r "exists-different-key"
    end in
  match us.1 with
  | inl STORE_ERR_NOT_FOUND => go
  | inl _ => send_err r "internal"
  | inr (existing, status) =>
    if negb (bool_decide (default role existing = role)) then send_err r "role-mismatch" else
    if negb (bool_decide (default [] status = ACTIVE)) then send_err r "user-disabled" else
    go
  end.

Definition enroll_common (r : slot_ref) (req : req_t) (role : store_role_t) : V ev_action_t :=
  if negb (keys_are_known req ["user"; "handle"; "pk"; "label"; "via"; "ticket"]) then send_err r "malformed" else
  match get_id req "user", get_id req "handle", get_exact req "pk" STORE_PK_BYTES STORE_PK_BYTES, get_opt req "label" Store.STORE_ID_MAX with
  | Some user, Some handle, Some pk, Some lbl =>
    match kv_get req "via" with
    | None => send_err r "malformed"
    | Some via =>
      let via_recovery := bool_decide (kv_val via = label "recovery") in
      let via_site := bool_decide (kv_val via = label "site") in
      if negb via_recovery && negb via_site then send_err r "malformed" else
      let ticket_kv := kv_get req "ticket" in
      if via_site && is_some ticket_kv then send_err r "malformed" else
      if via_recovery && negb (is_some ticket_kv) then send_err r "malformed" else
      if via_recovery then
        match get_exact req "ticket" RECOVERY_TICKET_BYTES RECOVERY_TICKET_BYTES with
        | None => send_err r "malformed"
        | Some ticket => enroll_recovery r role user handle pk lbl (crypto_hash_sha256 ticket)
        end
      else enroll_site r role user handle pk lbl
    end
  | _, _, _, _ => send_err r "malformed"
  end.

Definition h_enroll (r : slot_ref) (req : req_t) : V ev_action_t := enroll_common r req STORE_ROLE_USER.
Definition h_enroll_operator (r : slot_ref) (req : req_t) : V ev_action_t := enroll_common r req STORE_ROLE_OPERATOR.

(** *** Login codes and tokens *)

(** [tokens_issue], which draws the token. *)
Definition vissue (s : option store_t) (role : store_role_t) (user handle : blob) (now : Z) : V ((store_status_t + (Z * Z)) * blob) :=
  vboth (fun w k => let '(r, o, k') := tokens_issue s role (Some user) (Some handle) None now true (IssueOut w (zeros TOKEN_BYTES)) k in
                    ((r, io_token o), io_world o, k')).

Definition token_line (rs : resp_t) (user handle : blob) (role : store_role_t) (issued expires : Z) : resp_t :=
  add (label " role=" ++ label (role_name role) ++ label " issued=" ++ sdec issued ++ label " expires=" ++ sdec expires ++ [NL])
    (hex handle (add (label " handle=") (hex user rs))).

(** The token for the user and handle of a consumed code. *)
Definition exchange_token (r : slot_ref) (user handle : blob) : V ev_action_t :=
  a ← vapp;
  gu ← vsql () (store_get_user (app_store a) (Some user) true 0);
  let role := match gu.1 with inr (Some role, _) => role | _ => STORE_ROLE_USER end in
  t ← vissue (app_store a) role user handle (app_now_unix a);
  match t.1 with
  | inl _ => send_err r "internal"
  | inr (issued, expires) =>
    let rs := token_line (add (label " user=") (hex t.2 (add (label "OK token=") resp_init))) user handle role issued expires in
    s ← slot_at r;
    _ ← note (authd_log_slot_id AUTHD_LOG_INFO (label "exchange") (sl_index s) handle);
    send_resp r rs
  end.

Definition h_exchange (r : slot_ref) (req : req_t) : V ev_action_t :=
  if negb (keys_are_known req ["code"; "state"]) then send_err r "malformed" else
  match get_exact req "code" 64 32 with
  | None => send_err r "malformed"
  | Some code =>
    match get_hex req "state" 256 0 with
    | None => send_err r "malformed"
    | Some state =>
      a ← vapp;
      c ← vsql (ConsumeOut STORE_CODE_UNKNOWN None None)
            (store_consume_login_code_ex (app_store a) (Some (crypto_hash_sha256 code)) (Some (crypto_hash_sha256 state)) (app_now_unix a)
               true (Some Store.STORE_ID_MAX) (Some Store.STORE_ID_MAX));
      match c.1 with
      | inl _ => send_err r "internal"
      | inr _ =>
        match co_verdict c.2 with
        | STORE_CODE_OK => exchange_token r (default [] (co_user c.2)) (default [] (co_handle c.2))
        | STORE_CODE_EXPIRED => send_err r "expired"
        | STORE_CODE_USED => send_err r "used"
        | STORE_CODE_STATE_MISMATCH => send_err r "state-mismatch"
        | STORE_CODE_UNKNOWN => send_err r "unknown"
        end
      end
    end
  end.

Definition verify_reply (r : slot_ref) (o : verify_out) : V ev_action_t :=
  match vo_verdict o with
  | STORE_TOKEN_OK =>
    let i := vo_info o in
    send_resp r (token_line (add (label "OK user=") resp_init) (ti_user_id i) (ti_handle i) (ti_role i) (ti_issued_at i) (ti_expires_at i))
  | STORE_TOKEN_EXPIRED => send_err r "expired"
  | STORE_TOKEN_IDLE_EXPIRED => send_err r "idle-expired"
  | STORE_TOKEN_DEVICE_REVOKED => send_err r "device-revoked"
  | STORE_TOKEN_USER_DISABLED => send_err r "user-disabled"
  | STORE_TOKEN_UNKNOWN => send_err r "unknown"
  end.

Definition h_verify (r : slot_ref) (req : req_t) : V ev_action_t :=
  if negb (keys_are_known req ["token"]) then send_err r "malformed" else
  match get_exact req "token" 64 TOKEN_BYTES with
  | None => send_err r "malformed"
  | Some token =>
    let hash := crypto_hash_sha256 token in
    a ← vapp;
    v ← vsql (VerifyOut STORE_TOKEN_UNKNOWN blank_info) (store_verify_token (app_store a) (Some hash) (app_now_unix a) 0 true true);
    match v.1 with
    | inl _ => send_err r "internal"
    | inr _ =>
      v ← (match vo_verdict v.2 with
           | STORE_TOKEN_OK => vsql v.2 (store_verify_token (app_store a) (Some hash) (app_now_unix a) (tokens_idle_ttl_s (ti_role (vo_info v.2))) true true)
           | _ => mret v
           end);
      verify_reply r v.2
    end
  end.

Definition h_logout (r : slot_ref) (req : req_t) : V ev_action_t :=
  if negb (keys_are_known req ["token"]) then send_err r "malformed" else
  match get_exact req "token" 64 TOKEN_BYTES with
  | None => send_err r "malformed"
  | Some token =>
    a ← vapp;
    d ← vsql () (store_delete_token (app_store a) (Some (crypto_hash_sha256 token)));
    match d.1 with
    | inl _ => send_err r "internal"
    | inr n => send_resp r (add (label "OK deleted=" ++ dec n ++ [NL]) resp_init)
    end
  end.

Definition h_revoke_tokens (r : slot_ref) (req : req_t) : V ev_action_t :=
  if negb (keys_are_known req ["user"; "handle"]) then send_err r "malformed" else
  match get_id req "user" with
  | None => send_err r "malformed"
  | Some user =>
    a ← vapp;
    d ← match kv_get req "handle" with
        | Some _ =>
          match get_id req "handle" with
          | None => mret None
          | Some handle => d ← vsql () (store_delete_tokens_for_handle (app_store a) (Some user) (Some handle)); mret (Some d.1)
          end
        | None => d ← vsql () (store_delete_tokens_for_user (app_store a) (Some user)); mret (Some d.1)
        end;
    match d with
    | None => send_err r "malformed"
    | Some (inl _) => send_err r "internal"
    | Some (inr n) => send_resp r (add (label "OK count=" ++ dec n ++ [NL]) resp_init)
    end
  end.

(** *** Revocation *)

(** The connections bound to a handle or a user ([authd_conn.c]). *)
Fixpoint close_each_matching (ix : list nat) (id : blob) (by_user : bool) : V Z :=
  match ix with
  | [] => mret 0
  | i :: ix =>
    a ← vapp;
    n ← match conns a !! i with
        | None => mret 0
        | Some c =>
          if bool_decide (c_stage c = CONN_STAGE_FREE) then mret 0 else
          let have := if by_user then AuthdConn.c_user_id c else AuthdConn.c_handle c in
          let have_len := if by_user then c_user_id_len c else c_handle_len c in
          if negb (have_len =? blen id) || negb (memeq have id (blen id)) then mret 0 else
          _ ← evloop_close_slot (SLOT_KIND_PROTO, i); mret 1
        end;
    m ← close_each_matching ix id by_user;
    mret (n + m)
  end.

Definition close_matching (id : blob) (by_user : bool) : V Z :=
  if blen id =? 0 then mret 0 else
  a ← vapp;
  ev ← get_ev;
  close_each_matching (seq 0 (Nat.min (length (conns a)) (length (ev_slots ev)))) id by_user.

Definition authd_app_close_handle (handle : blob) : V Z := close_matching handle false.
Definition authd_app_close_user (user_id : blob) : V Z := close_matching user_id true.

Definition h_revoke_device (r : slot_ref) (req : req_t) : V ev_action_t :=
  if negb (keys_are_known req ["handle"; "reason"]) then send_err r "malformed" else
  match get_id req "handle", get_opt req "reason" 256 with
  | Some handle, Some reason =>
    a ← vapp;
    d ← vsql () (store_revoke_device (app_store a) (Some handle) (Some (label "local-api")) (some_if_any reason));
    match d.1 with
    | inl STORE_ERR_NOT_FOUND => send_err r "unknown"
    | inl _ => send_err r "internal"
    | inr _ =>
      closed ← authd_app_close_handle handle;
      s ← slot_at r;
      _ ← note (authd_log_slot_id AUTHD_LOG_WARN (label "device-revoked") (sl_index s) handle);
      _ ← note (authd_log_num AUTHD_LOG_INFO (label "device-revoked") (label "closed") closed);
      send_resp r ok_resp
    end
  | _, _ => send_err r "malformed"
  end.

Definition set_user_status (r : slot_ref) (req : req_t) (disable : bool) : V ev_action_t :=
  if negb (keys_are_known req (if disable then ["user"; "reason"] else ["user"])) then send_err r "malformed" else
  match get_id req "user", (if disable then get_opt req "reason" 256 else Some []) with
  | Some user, Some reason =>
    a ← vapp;
    d ← vsql () (if disable then store_disable_user (app_store a) (Some user) (Some (label "local-api")) (some_if_any reason)
                 else store_enable_user (app_store a) (Some user) (Some (label "local-api")));
    match d.1 with
    | inl STORE_ERR_NOT_FOUND => send_err r "unknown"
    | inl _ => send_err r "internal"
    | inr _ =>
      _ ← (if disable then closed ← authd_app_close_user user;
                           note (authd_log_num AUTHD_LOG_WARN (label "user-disabled") (label "closed") closed)
           else mret ());
      send_resp r ok_resp
    end
  | _, _ => send_err r "malformed"
  end.

Definition h_disable_user (r : slot_ref) (req : req_t) : V ev_action_t := set_user_status r req true.
Definition h_enable_user (r : slot_ref) (req : req_t) : V ev_action_t := set_user_status r req false.

(** *** Lists *)

Definition send_list (r : slot_ref) (l : (store_status_t + unit) * list_ctx_t) : V ev_action_t :=
  match l.1 with inl _ => send_err r "internal" | inr _ => send_resp r (finish_list l.2) end.

Definition h_list_devices (r : slot_ref) (req : req_t) : V ev_action_t :=
  if negb (keys_are_known req ["user"]) then send_err r "malformed" else
  match get_id req "user" with
  | None => send_err r "malformed"
  | Some user => a ← vapp; l ← vsql list_start (store_list_devices (app_store a) (Some user) (Some on_device)); send_list r l
  end.

Definition h_list_users (r : slot_ref) (req : req_t) : V ev_action_t :=
  if negb (blen (rq_kv req) =? 0) then send_err r "malformed" else
  a ← vapp; l ← vsql list_start (store_list_users (app_store a) (Some on_user)); send_list r l.

Definition h_audit_tail (r : slot_ref) (req : req_t) : V ev_action_t :=
  if negb (keys_are_known req ["n"]) then send_err r "malformed" else
  match get_num req "n" 4 with
  | None => send_err r "malformed"
  | Some n =>
    if (n =? 0) || (AUTHD_LIST_MAX <? n) then send_err r "malformed" else
    a ← vapp; l ← vsql list_start (store_audit_tail (app_store a) n (Some on_audit)); send_list r l
  end.

(** *** Backup *)

Definition store_backup (s : option store_t) (dest_path : option text) : V store_status_t :=
  match s, dest_path with
  | Some _, Some path =>
    fd ← os (fs_create path);
    if negb fd then mret STORE_ERR_IO else
    p ← vsql () prepare;
    match p.1 with
    | inl _ => _ ← os (fs_unlink path); mret STORE_ERR_DB
    | inr _ =>
      b ← vsql () bind_params;
      rc ← match b.1 with
           | inl _ => mret STORE_ERR_DB
           | inr _ => y ← get_sys; ok ← os (fs_vacuum path (view (y_db y))); mret (if ok : bool then STORE_OK else STORE_ERR_IO)
           end;
      rc ← (if bool_decide (rc = STORE_OK) then ok ← os (fs_chmod path 0x180); mret (if ok : bool then rc else STORE_ERR_IO) else mret rc);
      _ ← (if bool_decide (rc = STORE_OK) then mret () else os (fs_unlink path));
      mret rc
    end
  | _, _ => mret STORE_ERR_ARG
  end.

Definition h_backup (r : slot_ref) (req : req_t) : V ev_action_t :=
  if negb (keys_are_known req ["path"]) then send_err r "malformed" else
  match get_hex req "path" 511 1 with
  | None => send_err r "malformed"
  | Some path =>
    if negb (forallb printable path) then send_err r "malformed" else
    a ← vapp;
    rc ← store_backup (app_store a) (Some path);
    if negb (bool_decide (rc = STORE_OK)) then send_err r "internal" else
    send_resp r ok_resp
  end.

(** *** Recovery *)

(** [count] codes with their hashes, [None] when one could not be made. *)
Fixpoint make_codes (count : nat) (ops mem : Z) : V (option (list (text * text))) :=
  match count with
  | O => mret (Some [])
  | S count =>
    m ← os (recovery_make_code true true ops mem);
    let '(rc, code, hash) := m in
    if negb (rc =? 0) then mret None else
    rest ← make_codes count ops mem;
    mret (cons (c_str (default [] code), c_str (default [] hash)) <$> rest)
  end.

(** What both recovery commands ask of the user first. *)
Definition recovery_user (r : slot_ref) (user : blob) (go : V ev_action_t) : V ev_action_t :=
  a ← vapp;
  us ← vsql () (store_get_user (app_store a) (Some user) true 16);
  match us.1 with
  | inl STORE_ERR_NOT_FOUND => send_err r "invalid"
  | inl _ => send_err r "internal"
  | inr (role, status) =>
    if negb (bool_decide (default [] status = ACTIVE)) then send_err r "user-disabled" else
    s ← slot_at r;
    if bool_decide (default STORE_ROLE_USER role = STORE_ROLE_OPERATOR) && negb (sl_is_admin s) then send_err r "not-permitted" else
    go
  end.

(** The codes are printed one by one. *)
Definition add_codes (codes : list text) (rs : resp_t) : resp_t :=
  match codes with
  | [] => rs
  | c :: more => fold_left (fun rs c => add (label "," ++ c) rs) more (add c rs)
  end.

Definition recovery_issue (r : slot_ref) (user : blob) (count : Z) : V ev_action_t :=
  a ← vapp;
  m ← make_codes (Z.to_nat count) (recovery_ops (policy a)) (recovery_mem (policy a));
  match m with
  | None => send_err r "internal"
  | Some codes =>
    rs ← vsql 0 (store_recovery_replace (app_store a) (Some user) (Some ((fun c => Some c.2) <$> codes)) (app_now_unix a));
    match rs.1 with
    | inl STORE_ERR_NOT_FOUND => send_err r "invalid"
    | inl _ => send_err r "internal"
    | inr _ =>
      _ ← on_vapp (a_count recoveries_issued 1);
      s ← slot_at r;
      _ ← note (authd_log_slot_id AUTHD_LOG_WARN (label "recovery-issue") (sl_index s) user);
      _ ← note (authd_log_num AUTHD_LOG_INFO (label "recovery-issue") (label "count") count);
      _ ← note (authd_log_num AUTHD_LOG_INFO (label "recovery-issue") (label "superseded") rs.2);
      send_resp r (add [NL] (add_codes ((fun c => c.1) <$> codes) (add (label "OK codes=") resp_init)))
    end
  end.

Definition h_recovery_issue (r : slot_ref) (req : req_t) : V ev_action_t :=
  if negb (keys_are_known req ["user"; "count"]) then send_err r "malformed" else
  match get_id req "user", get_num req "count" 2 with
  | Some user, Some count =>
    if (count =? 0) || (RECOVERY_CODES_MAX <? count) then send_err r "malformed" else
    recovery_user r user (recovery_issue r user count)
  | _, _ => send_err r "malformed"
  end.

(** A code of the user matched: it is spent and a ticket issued. *)
Definition recovery_spend (r : slot_ref) (user : blob) (code_id : Z) (revoke_all : bool) : V ev_action_t :=
  a ← vapp;
  t ← os recovery_make_ticket;
  let '(ticket, thash) := t in
  let expires := app_now_unix a + ticket_ttl_s (policy a) in
  cs ← vsql 0 (store_recovery_consume_ex (app_store a) code_id (Some user) (Some thash) (app_now_unix a) expires revoke_all);
  match cs.1 with
  | inl STORE_ERR_NOT_FOUND => send_err r "invalid"
  | inl _ => send_err r "internal"
  | inr _ =>
    closed ← (if revoke_all then authd_app_close_user user else mret 0);
    _ ← on_vapp (a_count recoveries_used 1);
    s ← slot_at r;
    _ ← note (authd_log_slot_id AUTHD_LOG_WARN (label "recovery-use") (sl_index s) user);
    _ ← note (authd_log_slot_detail AUTHD_LOG_WARN (label "recovery-use") (sl_index s) (label (if revoke_all then "ok revoke=all" else "ok")));
    _ ← (if revoke_all then
           _ ← note (authd_log_num AUTHD_LOG_WARN (label "recovery-use") (label "revoked") cs.2);
           note (authd_log_num AUTHD_LOG_INFO (label "recovery-use") (label "closed") closed)
         else mret ());
    send_resp r (add (label " expires=" ++ sdec expires ++ [NL]) (hex ticket (add (label "OK ticket=") resp_init)))
  end.

(** The lockout is looked at before any code is hashed. *)
Definition recovery_try (r : slot_ref) (user : blob) (typed : text) (revoke_all : bool) : V ev_action_t :=
  a ← vapp;
  l ← vsql () (store_recovery_lock_state (app_store a) (Some user) (app_now_unix a) true);
  match l.1 with
  | inl _ => send_err r "internal"
  | inr (true, _, _) =>
    s ← slot_at r;
    _ ← note (authd_log_slot_detail AUTHD_LOG_WARN (label "recovery-use") (sl_index s) (label "locked"));
    send_err r "locked"
  | inr (false, _, _) =>
    m ← vboth (recovery_find_match (app_store a) (Some user) (Some typed) (blen typed) true);
    _ ← on_vapp (a_count recovery_kdf_calls (mo_tried m));
    if mo_result m <? 0 then send_err r "internal" else
    if mo_result m =? 0 then
      f ← vsql (false, 0) (store_recovery_note_failure (app_store a) (Some user) (app_now_unix a)
                             (recovery_lock_threshold (policy a)) (recovery_lock_seconds (policy a)));
      s ← slot_at r;
      _ ← note (authd_log_slot_id AUTHD_LOG_WARN (label "recovery-use") (sl_index s) user);
      _ ← note (authd_log_slot_detail AUTHD_LOG_WARN (label "recovery-use") (sl_index s)
                  (label (if f.2.1 : bool then "invalid (now locked)" else "invalid")));
      send_err r "invalid"
    else recovery_spend r user (default 0 (mo_code_id m)) revoke_all
  end.

Definition h_recovery_use (r : slot_ref) (req : req_t) : V ev_action_t :=
  if negb (keys_are_known req ["user"; "code"; "revoke"]) then send_err r "malformed" else
  match get_id req "user", kv_get req "code" with
  | Some user, Some code =>
    if (blen (kv_val code) =? 0) || (64 <? blen (kv_val code)) then send_err r "malformed" else
    let revoke := match kv_get req "revoke" with
                  | None => Some false
                  | Some rv => if bool_decide (kv_val rv = label "all") then Some true
                               else if bool_decide (kv_val rv = label "none") then Some false else None
                  end in
    match revoke with
    | None => send_err r "malformed"
    | Some revoke_all => recovery_user r user (recovery_try r user (kv_val code) revoke_all)
    end
  | _, _ => send_err r "malformed"
  end.

(** ** Dispatch *)

Definition SITE_TABLE : list (string * (slot_ref -> req_t -> V ev_action_t)) :=
  [ ("PING", h_ping); ("ENROLL", h_enroll); ("EXCHANGE", h_exchange); ("VERIFY", h_verify); ("LOGOUT", h_logout);
    ("REVOKE-TOKENS", h_revoke_tokens); ("REVOKE-DEVICE", h_revoke_device); ("LIST-DEVICES", h_list_devices);
    ("RECOVERY-ISSUE", h_recovery_issue); ("RECOVERY-USE", h_recovery_use) ]%string.

Definition ADMIN_TABLE : list (string * (slot_ref -> req_t -> V ev_action_t)) :=
  [ ("PING", h_ping); ("ENROLL", h_enroll); ("EXCHANGE", h_exchange); ("VERIFY", h_verify); ("LOGOUT", h_logout);
    ("REVOKE-TOKENS", h_revoke_tokens); ("REVOKE-DEVICE", h_revoke_device); ("LIST-DEVICES", h_list_devices);
    ("RECOVERY-ISSUE", h_recovery_issue); ("RECOVERY-USE", h_recovery_use);
    ("ENROLL-OPERATOR", h_enroll_operator); ("DISABLE-USER", h_disable_user); ("ENABLE-USER", h_enable_user);
    ("LIST-USERS", h_list_users); ("AUDIT-TAIL", h_audit_tail); ("BACKUP", h_backup) ]%string.

Definition handler_of (table : list (string * (slot_ref -> req_t -> V ev_action_t))) (cmd : text)
    : option (slot_ref -> req_t -> V ev_action_t) :=
  snd <$> head (filter (fun e => label e.1 = cmd) table).

Definition localapi_on_line (r : slot_ref) (line : list byte) : V ev_action_t :=
  s ← slot_at r;
  match parse_request line with
  | None =>
    _ ← note (authd_log_local AUTHD_LOG_WARN (label "local-request") (label "?") (peer_uid (sl_peer s)) (peer_pid (sl_peer s)) (label "malformed"));
    send_err r "malformed"
  | Some req =>
    let table := if sl_is_admin s then ADMIN_TABLE else SITE_TABLE in
    _ ← note (authd_log_local AUTHD_LOG_INFO (label "local-request") (rq_cmd req) (peer_uid (sl_peer s)) (peer_pid (sl_peer s))
                (label (if sl_is_admin s then "admin" else "site")));
    match handler_of table (rq_cmd req) with
    | Some h => h r req
    | None => send_err r "not-permitted"
    end
  end.
End localapi.
