(* ===== verification/LocalApiLoop.v ===== *)
(** * A line of the local API, as the event loop sees it

    Whatever the line, its handler comes to an end, answers on its own slot and
    of the others only closes some: the contract of the loop's [on_line]. *)

From S2P Require Import Prelude Extern Handshake RateLimit WsUpgrade ConnIo ConnIoProps StoreDb StoreTx Store StoreAuth StoreOpen Tokens Base32 Recovery AuthdLog Slot AuthdConn EvLoop EvLoopProps LocalReq LocalApi.

(** ** Queueing *)

Lemma same_input_refl c : same_input c c.
Proof. done. Qed.

(** A payload of its own length. *)
Lemma queue_answers c p : let c' := default c (conn_io_queue (Some c) (Some p) (blen p)).2 in
  same_input c c' /\ (cio_ok c -> cio_ok c').
Proof.
  cbv zeta. split.
  - unfold conn_io_queue. repeat case_match; done.
  - intros (d & q & Hc). rewrite (queue_spec _ _ _ _ Hc). destruct (_ || _) eqn:Hl; [by exists d, q|]. case_bool_decide; [|by exists d, q].
    apply orb_false_iff in Hl as [Hz Hm]. eexists d, _. apply (cio_queued _ _ q); [done|lia].
Qed.

#[global] Instance answers_order : PreOrder answers.
Proof.
  split; [done|]. intros s1 s2 s3 [F1 K1 S1 I1 D1 (M1 & B1 & L1 & G1 & T1 & X1) C1] [F2 K2 S2 I2 D2 (M2 & B2 & L2 & G2 & T2 & X2) C2].
  split; [congruence..| |auto]. repeat split; congruence.
Qed.

Lemma answers_queue s p : answers s (sl_set_io (default (sl_io s) (conn_io_queue (Some (sl_io s)) (Some p) (blen p)).2) s).
Proof. destruct (queue_answers (sl_io s) p) as [Hi Hc]. by split. Qed.

Section lines.
Context `{E : Env} `{AC : !AppClock E} `{EN : Engine} `{CK : Clock} `{SC : StoreCrypto} `{PH : !PwHash}.
Context `{HX : Hex} `{SY : !OS E} `{FS : !FileSys E} `{OC : !OnClose E}.

(** ** The slot of the line *)

(** [r] names a slot of the local pool. *)
Implicit Type i : nat.

(** The slot [i] of the local pool is answered, and no other is touched there. *)
Definition line_at (i : nat) (v v' : lst) : Prop :=
  forall s, ev_local (v_ev v) !! i = Some s -> exists s', ev_local (v_ev v') !! i = Some s' /\ answers s s'.

#[global] Instance line_at_order i : PreOrder (line_at i).
Proof.
  split; [intros v s Hs; exists s; by split|]. intros v1 v2 v3 H1 H2 s Hs. destruct (H1 s Hs) as (s1 & Hs1 & A1).
  destruct (H2 s1 Hs1) as (s2 & Hs2 & A2). exists s2. split; [done|by etrans].
Qed.

(** Steps that leave the loop alone. *)
Lemma quiet_vapp : along quiet vapp.
Proof. intros v x v' [= _ <-]. by apply quiet_same. Qed.
Lemma quiet_get_sys : along quiet get_sys.
Proof. intros v x v' [= _ <-]. by apply quiet_same. Qed.
Lemma quiet_on_vapp k n : along quiet (on_vapp (a_count k n)).
Proof. intros v x v' [= _ <-]. by apply quiet_same. Qed.
Lemma quiet_vsql {O A} (o : O) (m : T O A) : along quiet (vsql o m).
Proof. intros v x v' H. unfold vsql in H. destruct (m o _) as [[r o'] k]. injection H as _ <-. by apply quiet_same. Qed.
Lemma quiet_vboth {A} (m : world -> StoreTx.conn -> A * world * StoreTx.conn) : along quiet (vboth m).
Proof. intros v x v' H. unfold vboth in H. destruct (m _ _) as [[r o'] k]. injection H as _ <-. by apply quiet_same. Qed.
Lemma quiet_vissue s role u h t : along quiet (vissue s role u h t).
Proof. apply quiet_vboth. Qed.
Lemma quiet_make_codes n ops mem : along quiet (make_codes n ops mem).
Proof.
  induction n as [|n IH]; cbn [make_codes]; [apply along_ret, _|]. apply along_bind; [apply _|apply quiet_os|]. intros [[rc code] hash].
  destruct (negb _); [apply along_ret, _|]. apply along_bind; [apply _|apply IH|]. intros rest. apply along_ret, _.
Qed.

(** ** A walk through the handlers *)

(** What is known of a step [R] of a handler on the slot [i]: what leaves the
    loop alone is one, so is a reply and so is closing a protocol slot. *)
Section walk.
Context (R : relation lst) `{!PreOrder R} (i : nat).
Hypothesis R_quiet : forall v v', quiet v v' -> R v v'.
Hypothesis R_reply : forall rs, along R (send_resp (SLOT_KIND_LOCAL, i) rs).
Hypothesis R_close : forall j, along R (evloop_close_slot (SLOT_KIND_PROTO, j)).

Lemma R_along {A} (m : V A) : along quiet m -> along R m.
Proof. intros Hm v x v' H%Hm. by apply R_quiet. Qed.

#[local] Hint Extern 1 (along R (send_resp _ _)) => apply R_reply : walk.
#[local] Hint Extern 1 (along R (send_err _ _)) => apply R_reply : walk.
#[local] Hint Extern 1 (along R (evloop_close_slot _)) => apply R_close : walk.
#[local] Hint Extern 1 (along R (mret _)) => apply along_ret, _ : walk.
#[local] Hint Extern 2 (along R _) => apply R_along; solve [ apply quiet_vapp | apply quiet_get_sys | apply quiet_on_vapp | apply quiet_vsql
  | apply quiet_vboth | apply quiet_vissue | apply quiet_make_codes | apply quiet_os | apply quiet_note | apply quiet_get_ev | apply quiet_slot_at ] : walk.

Ltac walk := repeat first [ solve [auto with walk nocore] | apply along_bind; [apply _| |intros] | case_match | progress cbv zeta ].

Abbreviation rr := (SLOT_KIND_LOCAL, i).

Lemma walk_close ix id by_user : along R (close_each_matching ix id by_user).
Proof. induction ix as [|j ix IH]; cbn [close_each_matching]; walk. Qed.
#[local] Hint Extern 1 (along R (close_each_matching _ _ _)) => apply walk_close : walk.
Lemma walk_close_matching id by_user : along R (close_matching id by_user).
Proof. unfold close_matching. walk. Qed.
#[local] Hint Extern 1 (along R (authd_app_close_handle _)) => apply walk_close_matching : walk.
#[local] Hint Extern 1 (along R (authd_app_close_user _)) => apply walk_close_matching : walk.

Lemma walk_req7 s h f g : along R (log_req7 s h f g).
Proof. unfold log_req7. walk. Qed.
#[local] Hint Extern 1 (along R (log_req7 _ _ _ _)) => apply walk_req7 : walk.
Lemma walk_conflict h pk : along R (refuse_conflict rr h pk).
Proof. unfold refuse_conflict. walk. Qed.
#[local] Hint Extern 1 (along R (refuse_conflict _ _ _)) => apply walk_conflict : walk.
Lemma walk_enroll_ok h pk b : along R (enroll_ok rr h pk b).
Proof. unfold enroll_ok. walk. Qed.
#[local] Hint Extern 1 (along R (enroll_ok _ _ _ _)) => apply walk_enroll_ok : walk.
Lemma walk_enroll_store role u h pk l : along R (enroll_store rr role u h pk l).
Proof. unfold enroll_store. walk. Qed.
#[local] Hint Extern 1 (along R (enroll_store _ _ _ _ _ _)) => apply walk_enroll_store : walk.
Lemma walk_enroll req role : along R (enroll_common rr req role).
Proof. unfold enroll_common, enroll_recovery, enroll_site. walk. Qed.
Lemma walk_exchange req : along R (h_exchange rr req).
Proof. unfold h_exchange, exchange_token. walk. Qed.
Lemma walk_verify req : along R (h_verify rr req).
Proof. unfold h_verify, verify_reply. walk. Qed.
Lemma walk_logout req : along R (h_logout rr req).
Proof. unfold h_logout. walk. Qed.
Lemma walk_revoke_tokens req : along R (h_revoke_tokens rr req).
Proof. unfold h_revoke_tokens. walk. Qed.
Lemma walk_revoke_device req : along R (h_revoke_device rr req).
Proof. unfold h_revoke_device. walk. Qed.
Lemma walk_status req b : along R (set_user_status rr req b).
Proof. unfold set_user_status. walk. Qed.
Lemma walk_lists req : along R (h_list_devices rr req) /\ along R (h_list_users rr req) /\ along R (h_audit_tail rr req).
Proof. unfold h_list_devices, h_list_users, h_audit_tail, send_list. split; [|split]; walk. Qed.
Lemma walk_backup req : along R (h_backup rr req).
Proof. unfold h_backup, store_backup. walk. Qed.
Lemma walk_recovery_issue req : along R (h_recovery_issue rr req).
Proof. unfold h_recovery_issue, recovery_user, recovery_issue. walk. Qed.
Lemma walk_recovery_use req : along R (h_recovery_use rr req).
Proof. unfold h_recovery_use, recovery_user, recovery_try, recovery_spend. walk. Qed.

Lemma handler_of_in (table : list (string * (slot_ref -> req_t -> V ev_action_t))) cmd h :
  handler_of table cmd = Some h -> exists name, (name, h) ∈ table /\ cmd = label name.
Proof.
  unfold handler_of. intros ([name h'] & Hh & ->)%fmap_Some. exists name. apply head_Some_elem_of in Hh.
  apply list_elem_of_filter in Hh as [<- Hh]. done.
Qed.

Lemma walk_line line : along R (localapi_on_line rr line).
Proof.
  unfold localapi_on_line. apply along_bind; [apply _|apply R_along, quiet_slot_at|]. intros s. destruct (parse_request line) as [req|]; [|walk].
  cbv zeta. apply along_bind; [apply _|apply R_along, quiet_note|]. intros _. destruct (handler_of _ _) as [h|] eqn:Hh; [|apply R_reply].
  assert (exists name, (name, h) ∈ ADMIN_TABLE) as [name Hin].
  { destruct (sl_is_admin s); apply handler_of_in in Hh as (name & Hin & _); exists name; [done|].
    unfold SITE_TABLE in Hin. unfold ADMIN_TABLE. set_solver. }
  unfold ADMIN_TABLE in Hin. rewrite !elem_of_cons, elem_of_nil in Hin. destruct (walk_lists req) as (? & ? & ?).
  repeat (destruct Hin as [[= _ ->]|Hin]; [first [apply walk_enroll | apply walk_exchange | apply walk_verify | apply walk_logout | apply walk_revoke_tokens | apply walk_revoke_device | apply walk_status | apply walk_backup | apply walk_recovery_issue | apply walk_recovery_use | assumption | unfold h_ping; walk]|]). done.
Qed.
End walk.

(** ** What the loop relies on *)

Lemma only_put_any r f : along (only r) (put_slot r f).
Proof.
  intros v x v' ->%on_ev_some r' Hr. cbn [v_ev]. rewrite pool_set. case_decide as Hk; [|done]. rewrite Hk. apply list_lookup_alter_ne.
  intros Hi. apply Hr. destruct r, r'. cbn in *. congruence.
Qed.

Lemma only_close r : along (only r) (evloop_close_slot r).
Proof.
  unfold evloop_close_slot. apply along_bind; [apply _|apply only_quiet, quiet_slot_at|]. intros s. case_bool_decide; [apply along_ret, _|].
  apply along_bind; [apply _|apply only_quiet, quiet_get_ev|]. intros ev. apply along_bind; [apply _| |intros _].
  { destruct (ev_has_close ev); [apply only_called|apply along_ret, _]. }
  apply along_bind; [apply _|apply only_quiet, quiet_slot_at|]. intros s1. apply along_bind; [apply _| |intros _].
  { destruct (0 <=? _); [apply only_quiet, quiet_os|apply along_ret, _]. }
  apply along_bind; [apply _|apply only_put_any|]. intros _ v x v' ->%on_ev_some r' _. cbn [v_ev]. destruct (0 <? _); [by rewrite pool_use|done].
Qed.

(** Pools keep their lengths. *)
Definition same_len (v v' : lst) : Prop := forall k, length (pool k (v_ev v')) = length (pool k (v_ev v)).
#[global] Instance same_len_order : PreOrder same_len.
Proof. split; [done|]. intros v1 v2 v3 H1 H2 k. by rewrite H2, H1. Qed.
Lemma len_quiet {A} (m : V A) : along quiet m -> along same_len m.
Proof. intros Hm v x v' H%Hm k. by rewrite (quiet_pool _ _ _ H). Qed.

Lemma len_called r {A} (f : authd_slot_t -> sys -> A * authd_slot_t * sys) : along same_len (called f r).
Proof.
  intros v x v' Hc k. unfold called in Hc. destruct (_ !! _) as [s|]; [|done]. destruct (f s _) as [[x1 s1] y1]. injection Hc as _ <-. apply same_setup_put.
Qed.

Lemma len_close r : along same_len (evloop_close_slot r).
Proof.
  unfold evloop_close_slot. apply along_bind; [apply _|apply len_quiet, quiet_slot_at|]. intros s. case_bool_decide; [apply along_ret, _|].
  apply along_bind; [apply _|apply len_quiet, quiet_get_ev|]. intros ev. apply along_bind; [apply _| |intros _].
  { destruct (ev_has_close ev); [apply len_called|apply along_ret, _]. }
  apply along_bind; [apply _|apply len_quiet, quiet_slot_at|]. intros s1. apply along_bind; [apply _| |intros _].
  { destruct (0 <=? _); [apply len_quiet, quiet_os|apply along_ret, _]. }
  apply along_bind; [apply _| |].
  - intros v x v' ->%on_ev_some k. cbn [v_ev]. rewrite pool_set. case_decide as Hk; [|done]. rewrite Hk. apply length_alter.
  - intros _ v x v' ->%on_ev_some k. cbn [v_ev]. destruct (0 <? _); [by rewrite pool_use|done].
Qed.

Lemma line_slot i line : along (line_at i) (localapi_on_line (SLOT_KIND_LOCAL, i) line).
Proof.
  apply walk_line; [apply _|..].
  - intros v v' Hq s Hs. exists s. split; [|done]. change (pool SLOT_KIND_LOCAL (v_ev v') !! i = Some s). by rewrite (quiet_pool _ _ _ Hq).
  - intros rs v x v' H s Hs. unfold send_resp in H. apply V_bind_some in H as (s0 & v1 & [-> Hs0]%slot_at_some & H). cbn [fst snd] in Hs0.
    assert (s0 = s) as -> by (cbn in Hs0; congruence). apply V_bind_some in H as ([] & v1 & Hp & [_ ->]%V_ret_some).
    destruct (put_slot_some _ _ _ _ _ _ Hp Hs0) as [_ Hs']. eexists. split; [exact Hs'|]. apply answers_queue.
  - intros j v x v' H s Hs. exists s. split; [|done]. rewrite <-Hs. exact (only_close _ _ _ _ H (SLOT_KIND_LOCAL, i) ltac:(done)).
Qed.

Lemma line_step `{OCL : !OnCloseLaw} P now hs idle `{DP : !DeadlineProp P now hs idle} i line :
  along (loop_step P hs idle) (localapi_on_line (SLOT_KIND_LOCAL, i) line).
Proof.
  apply walk_line; [apply _|..].
  - intros v v'. apply ok_quiet.
  - intros rs v x v' H Hok. unfold send_resp in H. apply V_bind_some in H as (s & v1 & [-> Hs]%slot_at_some & H).
    apply V_bind_some in H as ([] & v1 & Hp & [_ ->]%V_ret_some). rewrite (put_lst _ _ _ _ _ _ Hp Hs). split; [|apply same_setup_put].
    pose proof (eo_slots _ _ _ _ Hok _ _ _ Hs) as Hsl. eapply ev_ok_put; [done|done| |done].
    apply (sok_io P now hs idle); [done|]. apply queue_answers, Hsl.
  - intros j v x v' H Hok. by destruct (ok_close_slot P now hs idle _ _ _ _ H Hok) as (? & ? & _).
Qed.

(** ** Every line is answered *)

(** A reply as the protocol has it: [OK] or [ERR code=], whole lines, one frame. *)
Definition is_reply (t : text) : Prop :=
  (label "OK" `prefix_of` t \/ label "ERR code=" `prefix_of` t) /\ (exists b, t = b ++ [NL]) /\ 0 < blen t <= AUTHD_FRAME_MAX.

(** A response in the making, and a finished one. *)
Record begun (rs : resp_t) : Prop := {
  bg_fits : rs_overflow rs = false -> blen (rs_buf rs) <= AUTHD_FRAME_MAX;
  bg_head : rs_overflow rs = false -> label "OK" `prefix_of` rs_buf rs \/ label "ERR code=" `prefix_of` rs_buf rs }.
Record whole (rs : resp_t) : Prop := {
  wh_begun : begun rs; wh_end : rs_overflow rs = false -> exists b, rs_buf rs = b ++ [NL] }.

Lemma begun_add rs t : begun rs -> begun (add t rs).
Proof.
  intros [Hf Hh]. unfold add, resp_add. destruct (rs_overflow rs) eqn:Ho; [by split; rewrite Ho|]. destruct (_ <=? _) eqn:Hl; [done|].
  split; intros _; cbn [rs_buf]; [rewrite length_app; lia|]. destruct (Hh eq_refl) as [?|?]; [left|right]; by apply prefix_app_r.
Qed.
Lemma begun_hex `{!HexLaw HX} rs p : begun rs -> begun (hex p rs).
Proof.
  intros [Hf Hh]. unfold hex, resp_hex. destruct (rs_overflow rs) eqn:Ho; [by split; rewrite Ho|]. destruct (_ <? _) eqn:Hl; [done|].
  split; intros _; cbn [rs_buf]; [rewrite length_app, Nat2Z.inj_add, bin2hex_len; lia|]. destruct (Hh eq_refl) as [?|?]; [left|right]; by apply prefix_app_r.
Qed.
Lemma begun_start t : (label "OK" `prefix_of` t \/ label "ERR code=" `prefix_of` t) -> begun (add t resp_init).
Proof.
  intros Ht. unfold add, resp_add. cbn [rs_overflow resp_init rs_buf]. destruct (_ <=? _) eqn:Hl; [done|].
  split; intros _; cbn [rs_buf app]; [|done]. apply Z.leb_gt in Hl. change (blen []) with 0 in Hl. lia.
Qed.
Definition ends_nl (t : text) : Prop := exists b, t = b ++ [NL].
Lemma ends_nl_one : ends_nl [NL].
Proof. by exists []. Qed.
Lemma ends_nl_app a t : ends_nl t -> ends_nl (a ++ t).
Proof. intros [b ->]. exists (a ++ b). by rewrite app_assoc. Qed.

Lemma added_end rs t : ends_nl t -> rs_overflow (add t rs) = false -> exists b, rs_buf (add t rs) = b ++ [NL].
Proof.
  intros [b ->]. unfold add, resp_add. destruct (rs_overflow rs) eqn:Ho; [by rewrite Ho|]. destruct (_ <=? _); [done|].
  intros _. cbn [rs_buf]. eexists. by rewrite app_assoc.
Qed.
Lemma whole_add rs t : begun rs -> ends_nl t -> whole (add t rs).
Proof. intros Hb Ht. split; [by apply begun_add|by apply added_end]. Qed.
Lemma whole_start t : label "OK" `prefix_of` t \/ label "ERR code=" `prefix_of` t -> ends_nl t -> whole (add t resp_init).
Proof. intros Hb Ht. split; [by apply begun_start|by apply added_end]. Qed.

Lemma whole_reply rs : whole rs -> is_reply (reply_text rs).
Proof.
  intros [[Hf Hh] He]. unfold reply_text, is_reply. destruct (rs_overflow rs) eqn:Ho; cbn [orb].
  - split; [right; by eexists|]. split; [by eexists|]. rewrite frame_max. cbn. lia.
  - destruct (He eq_refl) as [b Hb]. rewrite (proj2 (Z.eqb_neq _ _)) by (rewrite Hb, length_app; cbn; lia). split; [by auto|]. split; [by eexists|].
    specialize (Hf eq_refl). rewrite Hb, length_app in *. cbn [length] in *. lia.
Qed.

#[local] Hint Resolve ends_nl_one ends_nl_app begun_add begun_hex : reply.
#[local] Hint Extern 1 (begun (add _ resp_init)) => apply begun_start; left; eexists; cbn; reflexivity : reply.
#[local] Hint Extern 1 (whole (add _ resp_init)) => apply whole_start; [left; eexists; cbn; reflexivity|] : reply.
#[local] Hint Extern 2 (whole (add _ _)) => apply whole_add : reply.
Ltac replied := solve [auto 20 with reply nocore].

Lemma whole_err code : whole (err_resp code).
Proof. apply whole_start; [right; by eexists|replied]. Qed.
Lemma whole_ok : whole ok_resp.
Proof. unfold ok_resp. replied. Qed.
Lemma whole_token `{!HexLaw HX} rs u h role t e : begun rs -> whole (token_line rs u h role t e).
Proof. intros Hb. unfold token_line. replied. Qed.
Lemma begun_codes codes rs : begun rs -> begun (add_codes codes rs).
Proof.
  intros Hb. unfold add_codes. destruct codes as [|c more]; [done|]. assert (begun (add c rs)) as Hc by replied. revert Hc. generalize (add c rs).
  induction more as [|c' more IH]; intros rs' Hc; [done|]. cbn [fold_left]. apply IH. replied.
Qed.
Lemma whole_list c : whole (finish_list c).
Proof.
  unfold finish_list. destruct (lc_too_many c); [apply whole_err|]. set (out := add _ resp_init).
  assert (begun out) as [Hf Hh] by (unfold out; replied). clearbody out. destruct (_ || _) eqn:Hl; [apply whole_err|].
  apply orb_false_iff in Hl as [[Ho Hb]%orb_false_iff Hl]. apply whole_add; [|replied]. specialize (Hf Ho). specialize (Hh Ho).
  split; intros _; cbn [rs_buf]; [rewrite length_app; lia|]. destruct Hh; [left|right]; by apply prefix_app_r.
Qed.

(** *** The handlers end with one reply *)

Section answered.
Context `{HL : !HexLaw HX} (i : nat) (s : authd_slot_t) (n : nat).

(** The line's slot is untouched so far. *)
Definition here (v : lst) : Prop := ev_local (v_ev v) !! i = Some s /\ length (ev_slots (v_ev v)) = n.

Definition runs_here {A} (m : V A) : Prop := forall v, here v -> exists x v', m v = Some (x, v') /\ here v'.
Definition replies (m : V ev_action_t) : Prop := forall v, here v ->
  exists v1 rs v', m v = Some (EV_ACTION_CONTINUE, v') /\ here v1 /\ whole rs /\
                   send_resp (SLOT_KIND_LOCAL, i) rs v1 = Some (EV_ACTION_CONTINUE, v').

Lemma runs_bind {A B} (m : V A) (f : A -> V B) : runs_here m -> (forall x, runs_here (f x)) -> runs_here (m ≫= f).
Proof.
  intros Hm Hf v Hv. destruct (Hm v Hv) as (x & v1 & H1 & Hv1). destruct (Hf x v1 Hv1) as (y & v2 & H2 & Hv2).
  exists y, v2. unfold mbind, V_bind. by rewrite H1.
Qed.
Lemma replies_bind {A} (m : V A) (f : A -> V ev_action_t) : runs_here m -> (forall x, replies (f x)) -> replies (m ≫= f).
Proof.
  intros Hm Hf v Hv. destruct (Hm v Hv) as (x & v1 & H1 & Hv1). destruct (Hf x v1 Hv1) as (v2 & rs & v3 & H2 & H).
  exists v2, rs, v3. unfold mbind, V_bind. by rewrite H1.
Qed.
Lemma runs_ret {A} (x : A) : runs_here (mret x).
Proof. intros v Hv. by exists x, v. Qed.

(** Computations that always run and leave the loop alone. *)
Lemma here_same v v' : v_ev v' = v_ev v -> here v -> here v'.
Proof. unfold here. by intros ->. Qed.
Lemma runs_vapp : runs_here vapp.
Proof. intros v Hv. by eexists _, _. Qed.
Lemma runs_get_sys : runs_here get_sys.
Proof. intros v Hv. by eexists _, _. Qed.
Lemma runs_on_vapp f : runs_here (on_vapp f).
Proof. intros v Hv. by eexists _, _. Qed.
Lemma runs_note k : runs_here (note k).
Proof. intros v Hv. by eexists _, _. Qed.
Lemma runs_vsql {O A} (o : O) (m : T O A) : runs_here (vsql o m).
Proof. intros v Hv. unfold vsql. destruct (m o _) as [[r o'] k]. by eexists _, _. Qed.
Lemma runs_vboth {A} (m : world -> StoreTx.conn -> A * world * StoreTx.conn) : runs_here (vboth m).
Proof. intros v Hv. unfold vboth. destruct (m _ _) as [[x w] k]. by eexists _, _. Qed.
Lemma runs_os {A} (m : M A) : runs_here (os m).
Proof. intros v Hv. unfold os. destruct (m _) as [x w]. by eexists _, _. Qed.
Lemma runs_slot_at : runs_here (slot_at (SLOT_KIND_LOCAL, i)).
Proof. intros v Hv. exists s, v. split; [|done]. apply slot_at_run, Hv. Qed.
Lemma runs_make_codes k ops mem : runs_here (make_codes k ops mem).
Proof.
  induction k as [|k IH]; cbn [make_codes]; [apply runs_ret|]. apply runs_bind; [apply runs_os|]. intros [[rc code] hash].
  destruct (negb _); [apply runs_ret|]. apply runs_bind; [apply IH|]. intros. apply runs_ret.
Qed.

Lemma runs_close j : (j < n)%nat -> runs_here (evloop_close_slot (SLOT_KIND_PROTO, j)).
Proof.
  intros Hj v Hv. assert (exists x v', evloop_close_slot (SLOT_KIND_PROTO, j) v = Some (x, v')) as (x & v' & Hc).
  { unfold evloop_close_slot. destruct (lookup_lt_is_Some_2 (ev_slots (v_ev v)) j) as [s0 Hs0]; [destruct Hv; lia|].
    unfold mbind, V_bind. rewrite (slot_at_run (SLOT_KIND_PROTO, j) v s0 Hs0). case_bool_decide; [by eexists _, _|]. cbn [get_ev].
    assert (exists v1 s1, (if ev_has_close (v_ev v) then called (fun s y => let '(s, y) := on_close s y in ((), s, y)) (SLOT_KIND_PROTO, j) else mret ()) v
              = Some ((), v1) /\ pool SLOT_KIND_PROTO (v_ev v1) !! j = Some s1) as (v1 & s1 & H1 & Hs1).
    { destruct (ev_has_close _); [|by exists v, s0]. unfold called. cbn [fst snd pool]. rewrite Hs0. destruct (on_close s0 (v_sys v)) as [s1 y1].
      eexists _, s1. split; [done|]. cbn. apply list_lookup_insert_eq. by eapply lookup_lt_Some. }
    rewrite H1. rewrite (slot_at_run (SLOT_KIND_PROTO, j) v1 s1 Hs1).
    destruct (0 <=? sl_fd s1); [|by eexists _, _]. unfold os. destruct (os_close _ _) as [u w]. by eexists _, _. }
  exists x, v'. split; [done|]. destruct Hv as [Hs Hn]. split.
  - rewrite <-Hs. exact (only_close _ _ _ _ Hc (SLOT_KIND_LOCAL, i) ltac:(done)).
  - rewrite <-Hn. exact (len_close _ _ _ _ Hc SLOT_KIND_PROTO).
Qed.

Lemma runs_close_each ix id by_user : Forall (fun j => j < n)%nat ix -> runs_here (close_each_matching ix id by_user).
Proof.
  induction 1 as [|j ix Hj _ IH]; cbn [close_each_matching]; [apply runs_ret|]. apply runs_bind; [apply runs_vapp|]. intros a.
  apply runs_bind; [|intros; apply runs_bind; [apply IH|intros; apply runs_ret]]. repeat case_match; try apply runs_ret;
    (apply runs_bind; [by apply runs_close|intros; apply runs_ret]).
Qed.
Lemma runs_close_matching id by_user : runs_here (close_matching id by_user).
Proof.
  unfold close_matching. destruct (_ =? 0); [apply runs_ret|]. apply runs_bind; [apply runs_vapp|]. intros a v Hv. unfold mbind, V_bind. cbn [get_ev].
  apply runs_close_each; [|done]. apply Forall_forall. intros j [_ Hj]%elem_of_seq. destruct Hv as [_ Hn]. lia.
Qed.

Lemma replies_send rs : whole rs -> replies (send_resp (SLOT_KIND_LOCAL, i) rs).
Proof.
  intros Hw v Hv. assert (exists v', send_resp (SLOT_KIND_LOCAL, i) rs v = Some (EV_ACTION_CONTINUE, v')) as [v' H].
  { unfold send_resp, mbind, V_bind. rewrite (slot_at_run (SLOT_KIND_LOCAL, i) v s); [by eexists|apply Hv]. }
  by exists v, rs, v'.
Qed.
Lemma replies_err code : replies (send_err (SLOT_KIND_LOCAL, i) code).
Proof. apply replies_send, whole_err. Qed.
#[local] Opaque send_resp.

#[local] Hint Resolve runs_ret runs_vapp runs_get_sys runs_on_vapp runs_note runs_vsql runs_vboth runs_os runs_slot_at runs_make_codes
  runs_close_matching replies_err whole_ok whole_token begun_codes whole_list whole_err : answer.
#[local] Hint Extern 1 (replies (send_resp _ _)) => apply replies_send : answer.
#[local] Hint Extern 1 (runs_here (authd_app_close_handle _)) => apply runs_close_matching : answer.
#[local] Hint Extern 1 (runs_here (authd_app_close_user _)) => apply runs_close_matching : answer.
#[local] Hint Extern 1 (runs_here (vissue _ _ _ _ _)) => apply runs_vboth : answer.
Ltac answer := repeat first [ solve [auto 20 with answer reply nocore] | apply replies_bind; [|intros] | apply runs_bind; [|intros] | case_match | progress cbv zeta ].

Abbreviation rr := (SLOT_KIND_LOCAL, i).

Lemma runs_req7 sl h f g : runs_here (log_req7 sl h f g).
Proof. unfold log_req7. answer. Qed.
#[local] Hint Resolve runs_req7 : answer.
Lemma replies_conflict h pk : replies (refuse_conflict rr h pk).
Proof. unfold refuse_conflict. answer. Qed.
#[local] Hint Resolve replies_conflict : answer.
Lemma replies_enroll_ok h pk b : replies (enroll_ok rr h pk b).
Proof. unfold enroll_ok. answer. Qed.
#[local] Hint Resolve replies_enroll_ok : answer.
Lemma replies_enroll_store role u h pk l : replies (enroll_store rr role u h pk l).
Proof. unfold enroll_store. answer. Qed.
#[local] Hint Resolve replies_enroll_store : answer.
Lemma replies_enroll req role : replies (enroll_common rr req role).
Proof. unfold enroll_common, enroll_recovery, enroll_site. answer. Qed.
Lemma replies_exchange req : replies (h_exchange rr req).
Proof. unfold h_exchange, exchange_token. answer. Qed.
Lemma replies_verify req : replies (h_verify rr req).
Proof. unfold h_verify, verify_reply. answer. Qed.
Lemma replies_logout req : replies (h_logout rr req).
Proof. unfold h_logout. answer. Qed.
Lemma replies_revoke_tokens req : replies (h_revoke_tokens rr req).
Proof. unfold h_revoke_tokens. answer. Qed.
Lemma replies_revoke_device req : replies (h_revoke_device rr req).
Proof. unfold h_revoke_device. answer. Qed.
Lemma replies_status req b : replies (set_user_status rr req b).
Proof. unfold set_user_status. answer. Qed.
Lemma replies_lists req : replies (h_list_devices rr req) /\ replies (h_list_users rr req) /\ replies (h_audit_tail rr req).
Proof. unfold h_list_devices, h_list_users, h_audit_tail, send_list. split; [|split]; answer. Qed.
Lemma replies_backup req : replies (h_backup rr req).
Proof. unfold h_backup, store_backup. answer. Qed.
Lemma replies_recovery_issue req : replies (h_recovery_issue rr req).
Proof. unfold h_recovery_issue, recovery_user, recovery_issue. answer. Qed.
Lemma replies_recovery_use req : replies (h_recovery_use rr req).
Proof. unfold h_recovery_use, recovery_user, recovery_try, recovery_spend. answer. Qed.
Lemma replies_ping req : replies (h_ping rr req).
Proof. unfold h_ping. answer. Qed.

Lemma replies_line line : replies (localapi_on_line rr line).
Proof.
  unfold localapi_on_line. apply replies_bind; [apply runs_slot_at|]. intros sl. destruct (parse_request line) as [req|]; [|answer].
  cbv zeta. apply replies_bind; [apply runs_note|]. intros _. destruct (handler_of _ _) as [h|] eqn:Hh; [|apply replies_err].
  assert (exists name, (name, h) ∈ ADMIN_TABLE) as [name Hin].
  { destruct (sl_is_admin sl); apply handler_of_in in Hh as (name & Hin & _); exists name; [done|].
    unfold SITE_TABLE in Hin. unfold ADMIN_TABLE. set_solver. }
  unfold ADMIN_TABLE in Hin. rewrite !elem_of_cons, elem_of_nil in Hin. destruct (replies_lists req) as (? & ? & ?).
  repeat (destruct Hin as [[= _ ->]|Hin]; [first [apply replies_enroll | apply replies_exchange | apply replies_verify | apply replies_logout
    | apply replies_revoke_tokens | apply replies_revoke_device | apply replies_status | apply replies_backup | apply replies_recovery_issue
    | apply replies_recovery_use | apply replies_ping | assumption]|]). done.
Qed.
End answered.

Lemma queued_line c t d : c_mode c = CONN_IO_MODE_LINE -> cio c d [] -> 0 < blen t <= AUTHD_FRAME_MAX ->
  exists c', conn_io_queue (Some c) (Some t) (blen t) = (CONN_IO_OK, Some c') /\ waiting c' = t.
Proof.
  intros Hm Hc Ht. rewrite (queue_spec _ _ _ _ Hc). rewrite (proj2 (Z.eqb_neq _ _)), (proj2 (Z.ltb_ge _ _)) by lia. cbn [orb]. eexists. split; [done|].
  pose proof (cio_queued _ _ _ _ Hc Ht) as Hq. unfold waiting. rewrite (out_rest_eq _ _ _ Hq). rewrite Hm. cbn [wire queued_out c_set_out c_out_sent].
  unfold reply_rest, ws_reply_pending, is_ws. cbn [queued_out c_set_out c_mode]. by rewrite Hm.
Qed.

End lines.
