(* ===== verification/Daemon.v ===== *)
(** * The daemon put together ([apps/authd/authd_main.c], [authd_conn.c], [localapi.c])

    The event loop runs with the connection handlers and the local API as its
    callbacks.  Here they discharge what the loop asks of its callbacks, so that
    the loop's theorems are theorems of the daemon; among them what can keep it
    inside one iteration. *)

From S2P Require Import Prelude Extern Crypto Transcript Pending Handshake Session ProxyV2 RateLimit AuthMsg Ws WsUpgrade ConnIo ConnIoProps StoreDb StoreTx Store StoreAuth StoreOpen Tokens Base32 Recovery AuthdLog Slot AuthdConn EvLoop EvLoopProps EvLoopTotal LocalReq LocalApi LocalApiLoop.

(** ** Queueing with a given length *)

(** The buffer holds zeros where a payload falls short of its length. *)
Lemma outbuf_pad q k : 0 <= k -> blen q + k <= AUTHD_OUT_BUF_BYTES -> outbuf (q ++ zeros k) = outbuf q.
Proof.
  intros Hk Hq. unfold outbuf. rewrite <-app_assoc. f_equal. rewrite length_app, Nat2Z.inj_add, length_zeros by lia. unfold zeros.
  rewrite <-replicate_add. f_equal. lia.
Qed.

Lemma queue_pad c d p len : cio c d [] -> blen p < len <= AUTHD_FRAME_MAX ->
  conn_io_queue (Some c) (Some p) len = conn_io_queue (Some c) (Some (p ++ zeros (len - blen p))) len.
Proof.
  intros Hc Hl. set (p' := p ++ zeros (len - blen p)). assert (blen p' = len) as Hp' by (unfold p'; rewrite length_app, Nat2Z.inj_add, length_zeros; lia).
  destruct (cio_out _ _ _ Hc) as [_ Ho]. change (c_out c = outbuf []) in Ho. rewrite frame_max in Hl.
  assert (forall h, blen h <= 14 -> poke 0 (h ++ p) (outbuf []) = poke 0 (h ++ p') (outbuf [])) as Heq.
  { intros h Hh. assert (blen (h ++ p) = blen h + blen p /\ blen (h ++ p') = blen h + len) as [? ?] by (rewrite !length_app; lia).
    rewrite !poke_outbuf by (rewrite out_buf; lia). unfold p'. rewrite app_assoc, outbuf_pad by (rewrite ?out_buf; lia). done. }
  unfold conn_io_queue. destruct (_ || _); [done|]. destruct (negb _); [done|]. rewrite Ho, (take_all_z len p') by done.
  assert (ztake len p = p) as -> by (apply take_ge; lia).
  destruct (c_mode c).
  - rewrite !poke_append, Heq by (done || cbn; lia). done.
  - pose proof (Heq [] ltac:(cbn; lia)) as H0. cbn [app] in H0. by rewrite H0.
  - destruct (_ <? _); [done|]. pose proof (length_server_header (AUTHD_FRAME_HEADER + len) WS_OP_BINARY) as Hh. set (h := ws_server_header _ _) in *.
    rewrite (poke_append h), !(poke_append (h ++ _)), Heq by (rewrite ?length_app; cbn [length len32]; unfold WS_SRV_HDR_MAX, AUTHD_FRAME_HEADER in *; lia). done.
Qed.

Lemma queue_len c d q p len : cio c d q -> 0 <= len -> cio_ok (default c (conn_io_queue (Some c) (Some p) len).2).
Proof.
  intros Hc Hl. assert (forall p', blen p' = len -> cio_ok (default c (conn_io_queue (Some c) (Some p') len).2)) as Hex
    by (intros p' <-; apply queue_answers; by exists d, q).
  destruct (Z.le_gt_cases len (blen p)) as [Hp|Hp].
  { assert (blen (ztake len p) = len) as Hlen by (rewrite length_take; lia). specialize (Hex _ Hlen).
    unfold conn_io_queue in Hex |- *. by rewrite (take_all_z len (ztake len p)) in Hex by done. }
  destruct (decide (len <= AUTHD_FRAME_MAX /\ q = [])) as [[Hm ->]|Hn].
  { rewrite (queue_pad _ d) by (done || lia). apply Hex. rewrite length_app, Nat2Z.inj_add, length_zeros; lia. }
  unfold conn_io_queue. destruct (_ || _) eqn:E1; [by exists d, q|]. apply orb_false_iff in E1 as [_ E1].
  rewrite (cio_out_len _ _ _ Hc). destruct (cio_sent _ _ _ Hc) as [[_ ->]|Hs]; [destruct Hn; split; [lia|done]|].
  rewrite (proj2 (Z.eqb_neq _ _)) by lia. by exists d, q.
Qed.

Lemma queue_keeps s p len : 0 <= len -> answers s (sl_set_io (default (sl_io s) (conn_io_queue (Some (sl_io s)) (Some p) len).2) s).
Proof.
  intros Hl. split; try done; cbn [sl_set_io sl_io].
  - unfold conn_io_queue. repeat case_match; done.
  - intros (d & q & Hc). by eapply queue_len.
Qed.

(** ** The handlers and their slot *)

Section slot_walk.
Context `{E : Env} `{AC : !AppClock E} `{EN : Engine} `{CK : Clock} `{SC : StoreCrypto}.
Context (spins : nat) (Q : relation authd_slot_t) `{!PreOrder Q}.

Definition on_its_slot {A} (m : D A) : Prop := forall s, Q (s_slot s) (s_slot (m s).2).

Lemma slot_bind {A B} (f : A -> D B) (m : D A) : on_its_slot m -> (forall x, on_its_slot (f x)) -> on_its_slot (m ≫= f).
Proof. intros Hm Hf s. rewrite D_bind_unfold. etrans; [apply Hm|apply Hf]. Qed.
Lemma slot_lib {A} (m : M A) : on_its_slot (lib m).
Proof. intros s. unfold lib. by destruct (m (s_w s)). Qed.
Lemma slot_sql {O A} (o : O) (m : T O A) : on_its_slot (sql o m).
Proof. intros s. unfold sql. by destruct (m o (s_db s)) as [[? ?] ?]. Qed.
Lemma slot_ret {A} (x : A) : on_its_slot (mret x).
Proof. by intros s. Qed.
Lemma slot_get_app : on_its_slot get_app. Proof. by intros s. Qed.
Lemma slot_get_slot : on_its_slot get_slot. Proof. by intros s. Qed.
Lemma slot_get_c : on_its_slot get_c. Proof. by intros s. Qed.
Lemma slot_on_app f : on_its_slot (on_app f). Proof. by intros s. Qed.
Lemma slot_on_c f : on_its_slot (on_c f). Proof. by intros s. Qed.
Lemma slot_log k : on_its_slot (log k). Proof. by intros s. Qed.

Hypothesis slot_user : forall s, Q s (sl_set_user (Some (sl_index s)) s).
Hypothesis slot_sealed : forall p n, on_its_slot (queue_sealed p n).
Hypothesis slot_send : on_its_slot send_server_hello.

#[local] Hint Resolve slot_lib slot_sql slot_ret slot_get_app slot_get_slot slot_get_c slot_on_app slot_on_c slot_log slot_sealed slot_send : slotted.
#[local] Hint Extern 1 (on_its_slot (bump _)) => apply slot_on_app : slotted.
Ltac walk := repeat first [ solve [auto with slotted nocore] | apply slot_bind; [|intros] | case_match | progress cbv zeta ].

Lemma slot_log_slot l ev : on_its_slot (log_slot l ev). Proof. unfold log_slot. walk. Qed.
Lemma slot_log_detail l ev y : on_its_slot (log_detail l ev y). Proof. unfold log_detail. walk. Qed.
Lemma slot_log_id l ev y : on_its_slot (log_id l ev y). Proof. unfold log_id. walk. Qed.
#[local] Hint Resolve slot_log_slot slot_log_detail slot_log_id : slotted.
Lemma slot_fail code why : on_its_slot (fail_with_error code why).
Proof. unfold fail_with_error. walk. Qed.
#[local] Hint Resolve slot_fail : slotted.
Lemma slot_record p : on_its_slot (on_record p).
Proof. unfold on_record, on_rotate. walk. Qed.
Lemma slot_answer p : on_its_slot (answer_client_hello p).
Proof. unfold answer_client_hello. walk. Qed.
Lemma slot_auth p : on_its_slot (on_client_auth p).
Proof. unfold on_client_auth, issue_login_code, rotation_due. walk. Qed.
Lemma slot_reset : on_its_slot conn_reset.
Proof. unfold conn_reset. walk. Qed.
#[local] Hint Resolve slot_record slot_answer slot_auth slot_reset : slotted.
Lemma slot_bound : on_its_slot authd_conn_bind.
Proof. unfold authd_conn_bind. walk. intros s. apply slot_user. Qed.
#[local] Hint Resolve slot_bound : slotted.
Lemma slot_hello p : on_its_slot (on_client_hello spins p).
Proof. unfold on_client_hello, authd_conn_resolve_pin. walk. Qed.
#[local] Hint Resolve slot_hello : slotted.
Lemma slot_frame p : on_its_slot (on_frame_body spins p).
Proof. unfold on_frame_body. walk. Qed.
End slot_walk.

(** ** Lengths the handlers queue *)

Section lengths.
Context `{E : Env}.

(** [P] holds of what [m] returns. *)
Definition yields {A} (P : A -> Prop) (m : M A) : Prop := forall w, P (m w).1.
Lemma yields_bind {A B} (P : B -> Prop) (f : A -> M B) (m : M A) : (forall x, yields P (f x)) -> yields P (m ≫= f).
Proof. intros Hf w. rewrite M_bind_unfold. apply Hf. Qed.
Lemma yields_ret {A} (P : A -> Prop) (x : A) : P x -> yields P (mret x).
Proof. by intros Hx w. Qed.

Ltac yielding := repeat first [ apply yields_bind; intros | apply yields_ret; cbn [fst snd default from_option id]; done || lia
  | progress cbv beta iota zeta | match goal with |- yields _ (match ?x with _ => _ end) => destruct x eqn:? end ].

Lemma hello_encoded m o cap rc b n : encode_server_hello m (Some o) cap (Some 0) = (rc, b, n) -> 0 <= default 0 n.
Proof.
  unfold encode_server_hello. intros H. repeat case_match; simplify_eq/=; try lia.
  unfold id_out_of_range, sig_out_of_range, server_hello_unsigned_encoded_len in *. wirelia.
Qed.
#[local] Opaque encode_server_hello encode_server_hello_unsigned decode_client_hello.

Definition len_ok {A B C F} (r : A * B * C * F * option Z) : Prop := 0 <= default 0 r.2.

Lemma hello_len c ps o cap : yields len_ok (handshake_responder_create_server_hello c ps (Some o) cap (Some 0)).
Proof.
  unfold handshake_responder_create_server_hello, fail_out_ps, len_ok. yielding.
  apply yields_ret. cbn. match goal with H : encode_server_hello _ _ _ _ = _ |- _ => exact (hello_encoded _ _ _ _ _ _ H) end.
Qed.

Lemma seal_len s pt n o cap : yields (fun r => 0 <= default 0 r.2) (session_seal s pt n (Some o) cap (Some 0)).
Proof.
  unfold session_seal, terminate. yielding. apply yields_ret. cbn [snd default from_option id].
  match goal with H : negb (_ =? _ + AEAD_TAG_BYTES) = false |- _ => apply negb_false_iff, Z.eqb_eq in H; unfold SESSION_OVERHEAD_BYTES, AEAD_TAG_BYTES in *; lia end.
Qed.
End lengths.

(** ** The callbacks *)

Section callbacks.
Context `{E : Env} `{AC : !AppClock E} `{EN : Engine} `{CK : Clock} `{SC : StoreCrypto} `{PH : !PwHash}.
Context `{HX : Hex} `{SY : !OS E} `{FS : !FileSys E}.
Context (spins : nat).

#[global] Instance authd_on_close : OnClose E := authd_conn_on_close.
Definition authd_on_input : OnInput E := {|
  on_frame := authd_conn_on_frame spins; on_addr := authd_conn_on_addr; on_line := localapi_on_line |}.

Lemma queue_slot p n : 0 <= n -> on_its_slot answers (queue p n).
Proof.
  intros Hn s. unfold queue. rewrite D_bind_unfold. cbn [get_slot fst snd]. pose proof (queue_keeps (s_slot s) p n Hn) as Hq.
  destruct (conn_io_queue _ _ _) as [cs io]. done.
Qed.

Lemma sealed_slot p n : on_its_slot answers (queue_sealed p n).
Proof.
  intros s. unfold queue_sealed. rewrite D_bind_unfold. cbn [get_c fst snd]. rewrite D_bind_unfold. set (seal := session_seal _ _ _ _ _ _).
  assert (0 <= default 0 (seal (s_w s)).1.2) as Hlen by apply (seal_len _ _ _ _ _ (s_w s)). unfold lib. destruct (seal (s_w s)) as [[[[ss sess] rec] len] w].
  cbn [fst snd] in *. clear seal. rewrite D_bind_unfold. cbn [on_c fst snd]. destruct (negb _); [done|]. rewrite D_bind_unfold.
  apply (queue_slot _ _ Hlen (St _ _ _ _ _ _)).
Qed.

Lemma sent_slot : on_its_slot answers send_server_hello.
Proof.
  intros s. unfold send_server_hello. rewrite D_bind_unfold. cbn [get_app fst snd]. rewrite D_bind_unfold. cbn [get_c fst snd]. rewrite D_bind_unfold.
  set (m := handshake_responder_create_server_hello _ _ _ _ _). assert (0 <= default 0 (m (s_w s)).1.2) as Hlen by apply (hello_len _ _ _ _ (s_w s)).
  unfold lib. destruct (m (s_w s)) as [[[[[hst hs] ps] sh] len] w]. cbn [fst snd] in *. clear m. rewrite D_bind_unfold. cbn [on_c fst snd].
  rewrite D_bind_unfold. cbn [on_app fst snd]. destruct (negb _).
  - rewrite D_bind_unfold. unfold log_detail. rewrite !D_bind_unfold. done.
  - rewrite D_bind_unfold. set (s1 := St _ _ _ _ _ _). pose proof (queue_slot (default [] sh) _ Hlen s1) as Hq.
    destruct (queue _ _ s1) as [cs s2]. cbn [fst snd] in Hq |- *. destruct (negb _); [done|]. by rewrite D_bind_unfold.
Qed.

Lemma frame_slot s p y : answers s (authd_conn_on_frame spins s p y).1.2.
Proof.
  unfold authd_conn_on_frame. destruct (conn_of _ _) as [c|]; [|done]. destruct p as [p|]; [|done]. unfold run_conn.
  pose proof (slot_frame spins answers ltac:(done) sealed_slot sent_slot p (St (y_app y) s c (y_db y) (y_w y) (y_log y))) as H.
  by destruct (on_frame_body _ _ _) as [x s'].
Qed.

Lemma set_io_answers s io : same_input (sl_io s) io -> (cio_ok (sl_io s) -> cio_ok io) -> answers s (sl_set_io io s).
Proof. by split. Qed.

Lemma refuse_input c code : same_input c (default c (conn_io_ws_refuse (Some c) code).2).
Proof. unfold conn_io_ws_refuse. destruct (negb _); [done|]. by destruct (ws_refuse _ _) as [st w]. Qed.
Lemma silence_input c : same_input c (default c (conn_io_ws_silence (Some c))).
Proof. unfold conn_io_ws_silence. by destruct (negb _). Qed.

Lemma addr_slot s y : answers s (authd_conn_on_addr s y).1.2.
Proof.
  unfold authd_conn_on_addr. destruct (_ =? 0).
  - apply set_io_answers; [apply silence_input|]. intros (d & q & Hc). destruct (silence_keeps _ _ _ Hc) as (c' & q' & -> & Hc'). by exists d, q'.
  - destruct (rl _) as [rt|]; [|done]. destruct (ratelimit_admit _ _ _) as [v r'].
    assert (forall code, answers s (sl_set_io (default (sl_io s) (conn_io_ws_refuse (Some (sl_io s)) code).2) s)) as Hr; [|destruct v; first [apply Hr | by split]].
    intros code. apply set_io_answers; [apply refuse_input|]. intros (d & q & Hc).
    destruct (refuse_keeps _ _ _ code Hc) as (c' & q' & -> & Hc'). by exists d, q'.
Qed.

Lemma close_answers s y : answers s (authd_conn_on_close s y).1.
Proof.
  unfold authd_conn_on_close. set (m := match conn_of _ _ with Some _ => _ | None => _ end).
  assert (m.1.2 = s) as Hm.
  { unfold m. destruct (conn_of _ _) as [c|]; [|done]. unfold run_conn.
    pose proof (slot_reset eq (St (y_app y) s c (y_db y) (y_w y) (y_log y))) as H. by destruct (conn_reset _) as [x s']. }
  destruct m as [[u s'] y']. cbn in Hm. subst s'. by destruct (_ && _).
Qed.

#[global] Instance authd_on_close_law : OnCloseLaw.
Proof. exact close_answers. Qed.
#[global] Instance authd_on_input_law : OnInputLaw (OI := authd_on_input).
Proof.
  split; cbn [on_frame on_addr on_line authd_on_input].
  - apply frame_slot.
  - apply addr_slot.
  - intros P now hs idle DP i p v x v' H. eapply (line_step P now hs idle), H.
  - intros i p v x v' s H. eapply line_slot, H.
Qed.
End callbacks.

(** ** What can keep the daemon inside one iteration *)

Section iterations.
Context `{E : Env} `{AC : !AppClock E} `{EN : Engine} `{CK : Clock} `{SC : StoreCrypto} `{PH : !PwHash}.
Context `{HX : Hex} `{HL : !HexLaw HX} `{SY : !OS E} `{OSL : !OSLaw E} `{FS : !FileSys E} `{B64 : Base64} `{B64L : !Base64Law B64}.
Context (spins : nat).

#[local] Instance daemon_input : OnInput E := authd_on_input spins.
#[local] Instance daemon_input_law : OnInputLaw (OI := daemon_input) := authd_on_input_law spins.

#[local] Instance daemon_lines_end : LinesEnd E.
Proof. intros i p v [s Hs]. destruct (replies_line i s (length (ev_slots (v_ev v))) p v) as (_ & _ & v' & H & _); [by split|]. by eexists _, v'. Qed.

End iterations.
