(* ===== verification/DaemonLinks.v ===== *)
(** * Connections and their slots

    A connection record that is in use belongs to an open slot of the protocol
    pool, in every state the daemon gets to.  With it, closing the connections
    of a handle or a user reaches all of them, and [REVOKE-DEVICE] leaves no
    record bound to the handle.

    The records are found by the slot's index alone, in both pools; what that
    means for a slot of the local pool is stated as well. *)

From S2P Require Import Prelude Extern Crypto Transcript Pending Handshake Session ProxyV2 RateLimit AuthMsg Ws WsUpgrade ConnIo ConnIoProps StoreDb StoreTx Store StoreAuth StoreOpen StoreLogic StoreHistory StoreAtomic StoreCalm StoreAudit StoreKeys StoreOnce StoreTokens Tokens Base32 Recovery AuthdLog Slot AuthdConn EvLoop EvLoopProps LocalReq LocalApi LocalApiLoop Daemon.

Section links.
Context `{E : Env} `{AC : !AppClock E} `{EN : Engine} `{CK : Clock} `{SC : StoreCrypto} `{PH : !PwHash}.
Context `{HX : Hex} `{SY : !OS E} `{OSL : !OSLaw E} `{FS : !FileSys E} `{B64 : Base64} `{B64L : !Base64Law B64}.
Context (spins : nat).

#[local] Instance input : OnInput E := authd_on_input spins.
#[local] Instance input_law : OnInputLaw (OI := input) := authd_on_input_law spins.

Abbreviation conns_of v := (conns (y_app (v_sys v))).

(** Every record in use has an open slot. *)
Definition linked (v : lst) : Prop := ev_has_close (v_ev v) = true ->
  forall i c, conns_of v !! i = Some c -> c_stage c <> CONN_STAGE_FREE -> open_at (SLOT_KIND_PROTO, i) v.

(** ** The callbacks and the records *)

Lemma frame_conns p s : conns (s_app (on_frame_body spins p s).2) = conns (s_app s).
Proof.
  assert (PreOrder (fun a b => conns a = conns b)) by (split; [by intros a|intros a b c; apply eq_trans]).
  symmetry. by apply (frame_app spins (fun a b => conns a = conns b)).
Qed.

Lemma run_conn_conns {A} slot c (m : D A) y : (forall s, conns (s_app (m s).2) = conns (s_app s)) ->
  conns (y_app (run_conn slot c m y).2) =
  <[Z.to_nat (sl_index slot) := s_c (m (St (y_app y) slot c (y_db y) (y_w y) (y_log y))).2]> (conns (y_app y)).
Proof.
  intros Hm. unfold run_conn. specialize (Hm (St (y_app y) slot c (y_db y) (y_w y) (y_log y))). destruct (m _) as [x s]. cbn in Hm |- *. by rewrite Hm.
Qed.

Lemma on_frame_conns s p y j c' : conns (y_app (authd_conn_on_frame spins s p y).2) !! j = Some c' ->
  j = Z.to_nat (sl_index s) \/ conns (y_app y) !! j = Some c'.
Proof.
  unfold authd_conn_on_frame. destruct (conn_of _ _) as [c|]; [|by right]. destruct p as [p|]; [|by right].
  rewrite run_conn_conns by apply frame_conns. intros [(-> & _ & _)|[_ H]]%list_lookup_insert_Some; [by left|by right].
Qed.

Lemma on_addr_conns s y : conns (y_app (authd_conn_on_addr s y).2) = conns (y_app y).
Proof.
  unfold authd_conn_on_addr. destruct (_ =? 0); [done|]. destruct (rl _) as [rt|]; [|done]. destruct (ratelimit_admit _ _ _) as [v r']. by destruct v.
Qed.

Lemma reset_conns s : conns (s_app (conn_reset s).2) = conns (s_app s).
Proof.
  unfold conn_reset. rewrite !D_bind_unfold. cbn [on_c get_c fst snd]. destruct (c_hs_live _); [|done].
  rewrite !D_bind_unfold. cbn [get_app fst snd]. unfold lib. destruct (handshake_ctx_wipe _ _ _) as [[ctx ps] w]. done.
Qed.
Lemma reset_stage s : c_stage (s_c (conn_reset s).2) = CONN_STAGE_FREE.
Proof.
  unfold conn_reset. rewrite !D_bind_unfold. cbn [on_c get_c fst snd]. destruct (c_hs_live _); [|done].
  rewrite !D_bind_unfold. cbn [get_app fst snd]. unfold lib. destruct (handshake_ctx_wipe _ _ _) as [[ctx ps] w]. done.
Qed.

(** The record of the slot's index is reset, whatever the slot's kind. *)
Lemma on_close_conns s y : 0 <= sl_index s ->
  exists c', c_stage c' = CONN_STAGE_FREE /\
    conns (y_app (authd_conn_on_close s y).2) =
    if sl_index s <? blen (conns (y_app y)) then <[Z.to_nat (sl_index s) := c']> (conns (y_app y)) else conns (y_app y).
Proof.
  intros Hs. unfold authd_conn_on_close, conn_of. destruct (_ <=? _) eqn:Hl.
  { exists conn_zero. split; [done|]. rewrite (proj2 (Z.ltb_ge _ _)) by lia. by destruct (_ && _). }
  destruct (lookup_lt_is_Some_2 (conns (y_app y)) (Z.to_nat (sl_index s))) as [c Hc]; [lia|]. rewrite Hc. rewrite (proj2 (Z.ltb_lt _ _)) by lia.
  pose proof (run_conn_conns s c conn_reset y reset_conns) as Hr. eexists. split; [apply reset_stage|].
  rewrite <-Hr. destruct (run_conn s c conn_reset y) as [[u s'] y']. cbn [snd]. by destruct (_ && _).
Qed.

(** ** Closing a slot, in one look *)

(** [v'] is [v] with the slot [r] replaced by [s']. *)
Definition replaced (r : slot_ref) (s' : authd_slot_t) (v v' : lst) : Prop :=
  ev_has_close (v_ev v') = ev_has_close (v_ev v) /\
  forall k, pool k (v_ev v') = if decide (k = r.1) then <[r.2 := s']> (pool k (v_ev v)) else pool k (v_ev v).

Lemma replaced_quiet v v' : quiet v v' ->
  ev_has_close (v_ev v') = ev_has_close (v_ev v) /\ (forall k, pool k (v_ev v') = pool k (v_ev v)) /\ conns_of v' = conns_of v.
Proof. intros Hq. split; [|split; [intros k; by apply quiet_pool|by apply Hq]]. destruct Hq as [_ [c ->]]. done. Qed.

Lemma has_close_pool k l ev : ev_has_close (ev_set_pool k l ev) = ev_has_close ev.
Proof. by destruct k. Qed.
Lemma has_close_use k l ev : ev_has_close (ev_set_use k l ev) = ev_has_close ev.
Proof. by destruct k. Qed.

(** The end of [evloop_close_slot]. *)
Lemma close_tail r s v x v' : pool r.1 (v_ev v) !! r.2 = Some s ->
  (s ← slot_at r; _ ← (if 0 <=? sl_fd s then os (os_close (sl_fd s)) else mret ()); _ ← put_slot r closed_slot;
   on_ev (fun ev => if 0 <? in_use (sl_kind s) ev then ev_set_use (sl_kind s) (in_use (sl_kind s) ev - 1) ev else ev)) v = Some (x, v') ->
  replaced r (closed_slot s) v v' /\ conns_of v' = conns_of v.
Proof.
  intros Hs H. apply V_bind_some in H as (s2 & v2 & [-> Hs2]%slot_at_some & H). assert (s2 = s) as -> by congruence.
  apply V_bind_some in H as ([] & v2 & Hc & H).
  assert (quiet v v2) as Hq by (revert Hc; destruct (0 <=? _); [apply quiet_os|by intros [_ ->]%V_ret_some]). clear Hc Hs2.
  apply replaced_quiet in Hq as (Hh & Hp & Hc). rewrite <-Hp in Hs. apply V_bind_some in H as ([] & v3 & Hput & ->%on_ev_some).
  rewrite (put_lst _ _ _ _ _ _ Hput Hs). cbn [v_ev v_sys]. split; [|done]. split.
  - rewrite <-Hh. cbn [v_ev]. destruct (0 <? _); by rewrite ?has_close_use, ?has_close_pool.
  - intros k. cbn [v_ev]. destruct (0 <? _); rewrite ?pool_use, pool_set; case_decide as Hk; [by rewrite Hk, Hp|by rewrite Hp|by rewrite Hk, Hp|by rewrite Hp].
Qed.

Lemma close_shape r v x v' : evloop_close_slot r v = Some (x, v') ->
  exists s, pool r.1 (v_ev v) !! r.2 = Some s /\
    (sl_state s = SLOT_FREE /\ v' = v \/
     open s /\ exists s', (sl_state s' = SLOT_FREE /\ sl_kind s' = sl_kind s /\ sl_index s' = sl_index s) /\ replaced r s' v v' /\
       conns_of v' = if ev_has_close (v_ev v) then conns (y_app (authd_conn_on_close s (v_sys v)).2) else conns_of v).
Proof.
  intros H. unfold evloop_close_slot in H. apply V_bind_some in H as (s & v0 & [-> Hs]%slot_at_some & H). exists s. split; [done|].
  case_bool_decide as Hf; [apply V_ret_some in H as [_ ->]; by left|]. right. split; [done|].
  apply V_bind_some in H as (ev & v0 & [-> ->]%get_ev_some & H). apply V_bind_some in H as ([] & v1 & H1 & H).
  pose proof (close_answers s (v_sys v)) as Ha. destruct (ev_has_close (v_ev v)).
  - unfold called in H1. rewrite Hs in H1. change (on_close s (v_sys v)) with (authd_conn_on_close s (v_sys v)) in H1.
    destruct (authd_conn_on_close s (v_sys v)) as [s1 y1]. cbn [fst snd] in *. injection H1 as <-.
    apply (close_tail _ s1) in H as [[Hh Hp] Hc].
    + exists (closed_slot s1). split; [destruct Ha; done|]. split; [|done]. split; [rewrite Hh; apply has_close_pool|].
      intros k. rewrite Hp. cbn [v_ev]. rewrite pool_set. case_decide as Hk; [|done]. by rewrite Hk, list_insert_insert_eq.
    + cbn [v_ev]. rewrite pool_set, decide_True by done. apply list_lookup_insert_eq. by eapply lookup_lt_Some.
  - apply V_ret_some in H1 as [_ ->]. apply (close_tail _ s) in H as [Hr Hc]; [|done]. by exists (closed_slot s).
Qed.

(** ** The invariant *)

Lemma linked_put v k i s s' y : pool k (v_ev v) !! i = Some s -> (open s -> open s') -> conns (y_app y) = conns_of v -> linked v ->
  linked (Lst (ev_set_pool k (<[i := s']> (pool k (v_ev v))) (v_ev v)) y).
Proof.
  intros Hs Ho Hc Hl. unfold linked. cbn [v_ev v_sys]. rewrite has_close_pool, Hc. intros Hh j c Hj Hst.
  destruct (Hl Hh j c Hj Hst) as (s0 & Hs0 & Ho0). cbn [fst snd] in Hs0. unfold open_at. cbn [fst snd v_ev]. rewrite pool_set.
  case_decide as Hk; [|by exists s0]. subst k. rewrite list_lookup_insert. case_decide as Hi; [|by exists s0].
  destruct Hi as [-> _]. assert (s0 = s) as -> by congruence. exists s'. auto.
Qed.

Lemma linked_frame v i s p act v' : pool SLOT_KIND_PROTO (v_ev v) !! i = Some s -> open s -> named (v_ev v) ->
  called (fun s y => on_frame s (Some p) y) (SLOT_KIND_PROTO, i) v = Some (act, v') -> linked v -> linked v'.
Proof.
  intros Hs Ho Hn H Hl. destruct (Hn _ _ _ Hs) as [_ Hi]. unfold called in H. cbn [fst snd] in H. rewrite Hs in H.
  change (on_frame s (Some p) (v_sys v)) with (authd_conn_on_frame spins s (Some p) (v_sys v)) in H.
  pose proof (frame_slot spins s (Some p) (v_sys v)) as Ha. pose proof (on_frame_conns s (Some p) (v_sys v)) as Hc.
  destruct (authd_conn_on_frame _ _ _ _) as [[a s1] y1]. cbn [fst snd] in Ha, Hc. injection H as _ <-.
  unfold linked. cbn [v_ev v_sys]. rewrite has_close_pool. intros Hh j c Hj Hst. unfold open_at. cbn [fst snd v_ev]. rewrite pool_set, decide_True by done.
  rewrite list_lookup_insert. case_decide as Hd; [exists s1; split; [done|]; unfold open; by rewrite (an_state _ _ Ha)|].
  destruct (Hc j c Hj) as [->|Hj']; [|by apply (Hl Hh _ _ Hj')]. destruct Hd. split; [lia|by eapply lookup_lt_Some].
Qed.

Lemma linked_addr v r act v' : open_at r v -> called on_addr r v = Some (act, v') -> linked v -> linked v'.
Proof.
  intros (s & Hs & _) H Hl. unfold called in H. rewrite Hs in H. change (on_addr s (v_sys v)) with (authd_conn_on_addr s (v_sys v)) in H.
  pose proof (addr_slot s (v_sys v)) as Ha. pose proof (on_addr_conns s (v_sys v)) as Hc.
  destruct (authd_conn_on_addr _ _) as [[a s1] y1]. cbn [fst snd] in Ha, Hc. injection H as _ <-. apply (linked_put _ _ _ s); [done| |done|done].
  unfold open. by rewrite (an_state _ _ Ha).
Qed.

Lemma linked_close r v x v' : evloop_close_slot r v = Some (x, v') -> named (v_ev v) -> linked v -> linked v'.
Proof.
  intros H Hn Hl. apply close_shape in H as (s & Hs & [[_ ->]|(Ho & s' & Hs' & [Hh Hp] & Hc)]); [done|].
  destruct (Hn _ _ _ Hs) as [_ Hi]. intros Hh' j c Hj Hst. rewrite Hh in Hh'. rewrite Hh' in Hc.
  destruct (on_close_conns s (v_sys v)) as (c' & Hc' & Hcs); [lia|]. rewrite Hc, Hcs in Hj.
  assert (j <> r.2 /\ conns_of v !! j = Some c \/ blen (conns_of v) <= Z.of_nat j) as [[Hne Hj']|Hb].
  { destruct (_ <? _) eqn:Hlt.
    - apply list_lookup_insert_Some in Hj as [(_ & -> & _)|[Hne Hj]]; [done|]. left. split; [lia|done].
    - destruct (decide (j = r.2)) as [->|]; [right; lia|by left]. }
  2: { destruct (_ <? _); apply lookup_lt_Some in Hj; rewrite ?length_insert in Hj; lia. }
  destruct (Hl Hh' j c Hj' Hst) as (s0 & Hs0 & Ho0). cbn [fst snd] in Hs0. exists s0. cbn [fst snd]. rewrite Hp. split; [|done].
  case_decide as Hk; [|done]. by rewrite list_lookup_insert_ne.
Qed.

Lemma named_close r : along (fun v v' => named (v_ev v) -> named (v_ev v')) (evloop_close_slot r).
Proof.
  intros v x v' H Hn. apply close_shape in H as (s & Hs & [[_ ->]|(Ho & s' & (_ & Hk & Hi) & [Hh Hp] & Hc)]); [done|].
  intros k i s1. rewrite Hp. case_decide as Hd; [|apply Hn]. subst k. rewrite list_lookup_insert. case_decide as Hx; [|apply Hn].
  destruct Hx as [<- _]. intros [= <-]. rewrite Hk, Hi. exact (Hn _ _ _ Hs).
Qed.

(** The invariant in a step of a line's handler. *)
Definition linking (v v' : lst) : Prop := named (v_ev v) /\ linked v -> named (v_ev v') /\ linked v'.
#[local] Instance linking_order : PreOrder linking.
Proof. split; [by intros v H|]. intros v1 v2 v3 H1 H2 H. by apply H2, H1. Qed.

Lemma linked_quiet v v' : quiet v v' -> linked v -> linked v'.
Proof.
  intros (Hh & Hp & Hc)%replaced_quiet Hl Hh' j c. rewrite Hh in Hh'. rewrite Hc. intros Hj Hst.
  destruct (Hl Hh' j c Hj Hst) as (s & Hs & Ho). exists s. by rewrite Hp.
Qed.
Lemma named_quiet v v' : quiet v v' -> named (v_ev v) -> named (v_ev v').
Proof. intros (Hh & Hp & Hc)%replaced_quiet Hn k i s. rewrite Hp. apply Hn. Qed.

Lemma linking_line i p : along linking (localapi_on_line (SLOT_KIND_LOCAL, i) p).
Proof.
  apply walk_line; [apply _|..].
  - intros v v' Hq [Hn Hl]. split; [by eapply named_quiet|by eapply linked_quiet].
  - intros rs v x v' H [Hn Hl]. unfold send_resp in H. apply V_bind_some in H as (s & v1 & [-> Hs]%slot_at_some & H).
    apply V_bind_some in H as ([] & v1 & Hp & [_ ->]%V_ret_some). rewrite (put_lst _ _ _ _ _ _ Hp Hs). split.
    + intros k j s1. cbn [v_ev fst snd]. rewrite pool_set. case_decide as Hk; [|apply Hn]. subst k. rewrite list_lookup_insert.
      case_decide as Hx; [|apply Hn]. destruct Hx as [<- _]. intros [= <-]. exact (Hn _ _ _ Hs).
    + by apply (linked_put _ _ _ s).
  - intros j v x v' H [Hn Hl]. split; [by eapply named_close|by eapply linked_close].
Qed.

#[global] Instance linked_kept : LoopInv (OC := authd_on_close) (OI := input) linked.
Proof.
  split.
  - apply linked_quiet.
  - intros v k n Hl. unfold linked, open_at. cbn [v_ev v_sys]. rewrite has_close_use. intros Hh j c Hj Hst.
    destruct (Hl Hh j c Hj Hst) as (s & Hs & Ho). exists s. by rewrite pool_use.
  - intros v r s s' Hs Ho Hl. by apply (linked_put _ _ _ s).
  - intros v Hl Hh j c Hj Hst. destruct (Hl Hh j c Hj Hst) as (s & Hs & Ho). exists (drain s). cbn [fst snd v_ev] in *.
    rewrite stop_pool, list_lookup_fmap, Hs. split; [done|]. unfold open, drain. by case_bool_decide.
  - apply linked_frame.
  - intros v r act v' Ho _. by apply linked_addr.
  - intros i p v act v' H Hn Hl. by apply (linking_line i p v act v' H).
  - apply linked_close.
Qed.

Lemma reached_linked hs idle t v : 0 < hs -> 0 < idle -> Z.max hs idle < 2 ^ 64 -> reached hs idle t v -> named (v_ev v) /\ linked v.
Proof.
  intros Hh Hi Hm Hv. assert (0 <= t /\ t + Z.max hs idle < 2 ^ 64 /\ good (within t hs idle) hs idle linked v) as (_ & _ & Hg); [apply (reached_inv linked (JI := linked_kept))|]; try done.
  - intros ev y Hy _ i c Hc Hst. destruct Hst. by eapply (proj1 (Forall_lookup _ _) Hy).
  - split; [|apply Hg]. by eapply good_named.
Qed.

(** ** Closing the connections of an identity *)

(** The record speaks for [id]. *)
Definition bound (id : blob) (by_user : bool) (c : authd_conn_t) : Prop :=
  c_stage c <> CONN_STAGE_FREE /\
  (if by_user then c_user_id_len c else c_handle_len c) = blen id /\
  memeq (if by_user then AuthdConn.c_user_id c else AuthdConn.c_handle c) id (blen id) = true.

(** Records are only reset. *)
Definition resets (v v' : lst) : Prop := ev_has_close (v_ev v') = ev_has_close (v_ev v) /\ length (ev_slots (v_ev v')) = length (ev_slots (v_ev v)) /\
  forall j c, conns_of v' !! j = Some c -> conns_of v !! j = Some c \/ c_stage c = CONN_STAGE_FREE.
#[local] Instance resets_order : PreOrder resets.
Proof.
  split; [by intros v; split_and!; auto|]. intros v1 v2 v3 (A1 & B1 & C1) (A2 & B2 & C2). split; [congruence|]. split; [congruence|].
  intros j c [Hc|Hc]%C2; [by apply C1|by right].
Qed.

Lemma close_resets r v x v' : evloop_close_slot r v = Some (x, v') -> named (v_ev v) -> resets v v'.
Proof.
  intros H Hn. pose proof (len_close _ _ _ _ H SLOT_KIND_PROTO) as Hlen. apply close_shape in H as (s & Hs & [[_ ->]|(Ho & s' & Hs' & [Hh Hp] & Hc)]); [reflexivity|].
  split; [done|]. split; [done|]. intros j c. rewrite Hc. destruct (Hn _ _ _ Hs) as [_ Hi]. destruct (ev_has_close (v_ev v)); [|by intros ?; left].
  destruct (on_close_conns s (v_sys v)) as (c' & Hc' & ->); [lia|]. destruct (_ <? _); [|by intros ?; left].
  intros [(_ & -> & _)|[_ Hj]]%list_lookup_insert_Some; [by right|by left].
Qed.

(** A record in use does not outlive its slot. *)
Lemma close_frees i v x v' c : evloop_close_slot (SLOT_KIND_PROTO, i) v = Some (x, v') -> named (v_ev v) -> linked v ->
  ev_has_close (v_ev v) = true -> conns_of v' !! i = Some c -> c_stage c = CONN_STAGE_FREE.
Proof.
  intros H Hn Hl Hh Hc. destruct (decide (c_stage c = CONN_STAGE_FREE)) as [|Hst]; [done|].
  apply close_shape in H as (s & Hs & [[Hf ->]|(Ho & s' & Hs' & [Hh' Hp] & Hcs)]).
  { destruct (Hl Hh i c Hc Hst) as (s0 & Hs0 & Ho0). cbn in Hs, Hs0. by simplify_eq. }
  destruct (Hn _ _ _ Hs) as [_ Hi]. cbn [fst snd] in Hi. rewrite Hcs, Hh in Hc. destruct (on_close_conns s (v_sys v)) as (c' & Hc' & Heq); [lia|].
  rewrite Heq, Hi, Nat2Z.id in Hc. pose proof (lookup_lt_Some _ _ _ Hc) as Hlt. destruct (_ <? _) eqn:Hb; [|lia].
  rewrite list_lookup_insert_eq in Hc by (by rewrite length_insert in Hlt). by simplify_eq.
Qed.

Lemma close_each_spec ix id by_user : forall v n v', close_each_matching ix id by_user v = Some (n, v') ->
  named (v_ev v) -> linked v -> ev_has_close (v_ev v) = true ->
  named (v_ev v') /\ linked v' /\ resets v v' /\ forall i c, i ∈ ix -> conns_of v' !! i = Some c -> ~ bound id by_user c.
Proof.
  induction ix as [|i ix IH]; intros v n v' H Hn Hl Hh.
  { apply V_ret_some in H as [_ ->]. split; [done|]. split; [done|]. split; [reflexivity|]. by intros i c Hi%elem_of_nil. }
  cbn [close_each_matching] in H. apply V_bind_some in H as (a & v0 & [= <- <-] & H). apply V_bind_some in H as (m & v1 & H1 & H).
  apply V_bind_some in H as (k & v2 & H2 & [_ ->]%V_ret_some).
  assert (named (v_ev v1) /\ linked v1 /\ resets v v1 /\ forall c, conns_of v1 !! i = Some c -> ~ bound id by_user c) as (Hn1 & Hl1 & Hr1 & Hb1).
  { destruct (conns_of v !! i) as [c|] eqn:Hc;
    assert ((forall c, conns_of v !! i = Some c -> ~ bound id by_user c) ->
      named (v_ev v) /\ linked v /\ resets v v /\ forall c, conns_of v !! i = Some c -> ~ bound id by_user c) as Hsame by done; [|apply V_ret_some in H1 as [_ ->]; apply Hsame; congruence].
    case_bool_decide as Hf; [apply V_ret_some in H1 as [_ ->]; apply Hsame; intros ? ? [Hb _]; congruence|]. cbv zeta in H1.
    destruct (_ || _) eqn:Hm; [apply V_ret_some in H1 as [_ ->]; apply Hsame|].
    - intros c1 Hc1 (_ & Hlen & Hmem). assert (c1 = c) as -> by congruence. rewrite Hmem, Hlen, Z.eqb_refl in Hm. done.
    - apply V_bind_some in H1 as ([] & v3 & Hcl & [_ ->]%V_ret_some). split; [by eapply named_close|]. split; [by eapply linked_close|].
      split; [by eapply close_resets|]. intros c1 Hc1 [Hb _]. destruct Hb. by eapply close_frees. }
  destruct (IH _ _ _ H2 Hn1 Hl1 (eq_trans (proj1 Hr1) Hh)) as (Hn2 & Hl2 & Hr2 & Hb2). split; [done|]. split; [done|]. split; [by etrans|].
  intros j c [->|Hj]%elem_of_cons Hc; [|by apply (Hb2 j)].
  destruct Hr2 as (_ & _ & Hr2). destruct (Hr2 _ _ Hc) as [Hc1|Hf]; [by apply Hb1|]. by intros [Hb _].
Qed.

Lemma close_matching_spec id by_user v n v' : close_matching id by_user v = Some (n, v') -> 0 < blen id ->
  named (v_ev v) -> linked v -> ev_has_close (v_ev v) = true -> forall i c, conns_of v' !! i = Some c -> ~ bound id by_user c.
Proof.
  intros H Hid Hn Hl Hh i c Hc. unfold close_matching in H. rewrite (proj2 (Z.eqb_neq _ _)) in H by lia.
  apply V_bind_some in H as (a & v0 & [= <- <-] & H). apply V_bind_some in H as (ev & v0 & [-> ->]%get_ev_some & H).
  destruct (close_each_spec _ _ _ _ _ _ H Hn Hl Hh) as (_ & Hl' & (Hh' & Hlen & Hr) & Hb). intros Hbd.
  destruct (decide (i ∈ seq 0 (Nat.min (length (conns_of v)) (length (ev_slots (v_ev v)))))) as [Hi|Hi]; [by eapply Hb|].
  destruct Hbd as [Hst _]. destruct (Hl' (eq_trans Hh' Hh) i c Hc Hst) as (s & Hs & _). cbn [fst snd pool] in Hs. apply lookup_lt_Some in Hs.
  destruct (Hr _ _ Hc) as [Hc'|]; [|done]. apply lookup_lt_Some in Hc'. apply Hi, elem_of_seq. lia.
Qed.

(** The database is not the connections' business. *)
Definition same_db (v v' : lst) : Prop := y_db (v_sys v') = y_db (v_sys v).
#[local] Instance same_db_order : PreOrder same_db.
Proof. split; [done|]. intros v1 v2 v3 H1 H2. by etrans. Qed.

Lemma reset_db s : s_db (conn_reset s).2 = s_db s.
Proof.
  unfold conn_reset. rewrite !D_bind_unfold. cbn [on_c get_c fst snd]. destruct (c_hs_live _); [|done].
  rewrite !D_bind_unfold. cbn [get_app fst snd]. unfold lib. by destruct (handshake_ctx_wipe _ _ _) as [[ctx ps] w].
Qed.
Lemma on_close_db s y : y_db (authd_conn_on_close s y).2 = y_db y.
Proof.
  unfold authd_conn_on_close. destruct (conn_of _ _) as [c|]; [|by destruct (_ && _)]. unfold run_conn.
  pose proof (reset_db (St (y_app y) s c (y_db y) (y_w y) (y_log y))) as H. destruct (conn_reset _) as [u s']. cbn [s_db snd] in H. by destruct (_ && _).
Qed.
Lemma db_os {A} (m : M A) : along same_db (os m).
Proof. intros v x v' H. unfold os in H. destruct (m _) as [y w]. by injection H as _ <-. Qed.

Lemma close_db r : along same_db (evloop_close_slot r).
Proof.
  unfold evloop_close_slot. apply along_bind; [apply _|by intros v s v' [-> _]%slot_at_some|]. intros s. case_bool_decide as Hf; [apply along_ret, _|].
  apply along_bind; [apply _|by intros v ev v' [-> _]%get_ev_some|]. intros ev. apply along_bind; [apply _| |intros _].
  { destruct (ev_has_close ev); [|apply along_ret, _]. intros v x v' H. unfold called in H. destruct (_ !! _) as [s0|]; [|done].
    change (on_close s0 (v_sys v)) with (authd_conn_on_close s0 (v_sys v)) in H. pose proof (on_close_db s0 (v_sys v)) as Hd.
    destruct (authd_conn_on_close _ _) as [s1 y1]. by injection H as _ <-. }
  apply along_bind; [apply _|by intros v s1 v' [-> _]%slot_at_some|]. intros s1. apply along_bind; [apply _| |intros _].
  { destruct (0 <=? _); [apply db_os|apply along_ret, _]. }
  apply along_bind; [apply _|by intros v x v' ->%on_ev_some|]. by intros _ v x v' ->%on_ev_some.
Qed.
Lemma close_matching_db id by_user : along same_db (close_matching id by_user).
Proof.
  unfold close_matching. destruct (_ =? 0); [apply along_ret, _|]. apply along_bind; [apply _|by intros v a v' [= _ <-]|]. intros a.
  apply along_bind; [apply _|by intros v ev v' [-> _]%get_ev_some|]. intros ev. generalize (seq 0 (Nat.min (length (conns a)) (length (ev_slots ev)))).
  intros ix. induction ix as [|i ix IH]; cbn [close_each_matching]; [apply along_ret, _|]. apply along_bind; [apply _|by intros v a0 v' [= _ <-]|].
  intros a0. apply along_bind; [apply _| |intros n; apply along_bind; [apply _|apply IH|intros; apply along_ret, _]].
  destruct (conns a0 !! i) as [c|]; [|apply along_ret, _]. case_bool_decide; [apply along_ret, _|]. cbv zeta. destruct (_ || _); [apply along_ret, _|].
  apply along_bind; [apply _|apply close_db|]. intros _. apply along_ret, _.
Qed.

(** ** What the client reads *)

(** A reply is all that a handler leaves behind last. *)
Lemma send_said i rs v x v' s d s' : send_resp (SLOT_KIND_LOCAL, i) rs v = Some (x, v') -> whole rs ->
  ev_local (v_ev v) !! i = Some s -> c_mode (sl_io s) = CONN_IO_MODE_LINE -> cio (sl_io s) d [] -> ev_local (v_ev v') !! i = Some s' ->
  waiting (sl_io s') = reply_text rs /\ v_sys v' = v_sys v.
Proof.
  intros H Hw Hs Hm Hc Hs'. pose proof (whole_reply _ Hw) as (_ & _ & Ht). destruct (queued_line _ _ _ Hm Hc Ht) as (io & Hq & Hwait).
  unfold send_resp in H. apply V_bind_some in H as (s0 & v1 & [-> Hs0]%slot_at_some & H). assert (s0 = s) as -> by (cbn in Hs0; congruence).
  cbv zeta in H. rewrite Hq in H. apply V_bind_some in H as ([] & v1 & Hp & [_ ->]%V_ret_some). rewrite (put_lst _ _ _ _ _ _ Hp Hs0) in Hs' |- *.
  cbn in Hs'. rewrite list_lookup_insert_eq in Hs' by (by eapply lookup_lt_Some). injection Hs' as <-. by split.
Qed.

Lemma err_not_ok code : ~ label "OK" `prefix_of` reply_text (err_resp code).
Proof.
  unfold err_resp, reply_text, add, resp_add. cbn [rs_overflow resp_init rs_buf]. destruct (_ <=? _); cbn [rs_overflow rs_buf orb app].
  - intros [k Hk]. by vm_compute in Hk.
  - destruct (_ =? 0); intros [k Hk]; by cbn in Hk.
Qed.

Lemma err_said i code v x v' s d s' : send_err (SLOT_KIND_LOCAL, i) code v = Some (x, v') ->
  ev_local (v_ev v) !! i = Some s -> c_mode (sl_io s) = CONN_IO_MODE_LINE -> cio (sl_io s) d [] -> ev_local (v_ev v') !! i = Some s' ->
  ~ label "OK" `prefix_of` waiting (sl_io s').
Proof.
  intros H Hs Hm Hc Hs'. destruct (send_said _ _ _ _ _ _ _ _ H (whole_err code) Hs Hm Hc Hs') as [-> _]. apply err_not_ok.
Qed.

(** ** Revocation *)

(** A line is one of its handler. *)
Lemma line_handler i line req h v s act v' : localapi_on_line (SLOT_KIND_LOCAL, i) line v = Some (act, v') ->
  ev_local (v_ev v) !! i = Some s -> parse_request line = Some req -> handler_of ADMIN_TABLE (rq_cmd req) = Some h ->
  sl_is_admin s = true \/ handler_of SITE_TABLE (rq_cmd req) = Some h ->
  exists v1, v_ev v1 = v_ev v /\ y_db (v_sys v1) = y_db (v_sys v) /\ y_app (v_sys v1) = y_app (v_sys v) /\ h (SLOT_KIND_LOCAL, i) req v1 = Some (act, v').
Proof.
  intros H Hs Hp Ha Hsite. unfold localapi_on_line in H. apply V_bind_some in H as (s0 & v0 & [-> Hs0]%slot_at_some & H).
  assert (s0 = s) as -> by (cbn in Hs0; congruence). rewrite Hp in H. cbv zeta in H. apply V_bind_some in H as ([] & v1 & [= <-] & H).
  assert (handler_of (if sl_is_admin s then ADMIN_TABLE else SITE_TABLE) (rq_cmd req) = Some h) as Hh by (destruct (sl_is_admin s); naive_solver).
  rewrite Hh in H. eexists. split; [|split; [|split; [|exact H]]]; done.
Qed.

Lemma get_id_pos req key b : get_id req key = Some b -> 0 < blen b.
Proof.
  unfold get_id. destruct (get_hex _ _ _ _) as [b'|]; [|done]. destruct (id_valid b') eqn:Hv; [|done]. intros [= ->]. unfold id_valid in Hv.
  destruct (_ || _) eqn:E1; [done|]. lia.
Qed.

(** [REVOKE-DEVICE] when the answer is [OK]: the store revoked the device, then
    the connections were closed. *)
Lemma revoke_ok i req h v act v' s d s' st : h_revoke_device (SLOT_KIND_LOCAL, i) req v = Some (act, v') ->
  ev_local (v_ev v) !! i = Some s -> c_mode (sl_io s) = CONN_IO_MODE_LINE -> cio (sl_io s) d [] ->
  ev_local (v_ev v') !! i = Some s' -> label "OK" `prefix_of` waiting (sl_io s') ->
  get_id req "handle" = Some h -> app_store (y_app (v_sys v)) = Some st ->
  exists v1 n v2 reason x c', store_revoke_device (Some st) (Some h) (Some (label "local-api")) reason () (y_db (v_sys v)) = (inr x, (), c') /\
    v1 = Lst (v_ev v) (Sys (y_app (v_sys v)) c' (y_w (v_sys v)) (y_log (v_sys v))) /\
    authd_app_close_handle h v1 = Some (n, v2) /\ y_app (v_sys v') = y_app (v_sys v2) /\ y_db (v_sys v') = y_db (v_sys v2).
Proof.
  intros H Hs Hm Hc Hs' Hok Hid Hst. assert (forall code v1, v_ev v1 = v_ev v -> send_err (SLOT_KIND_LOCAL, i) code v1 = Some (act, v') -> False) as Herr.
  { intros code v1 Hev He. apply (err_said _ _ _ _ _ s d s') in He; [done|by rewrite Hev|done..]. }
  unfold h_revoke_device in H. destruct (negb _); [by apply (Herr _ _ eq_refl) in H|]. rewrite Hid in H.
  destruct (get_opt req "reason" 256) as [reason|]; [|by apply (Herr _ _ eq_refl) in H].
  apply V_bind_some in H as (a & v0 & [= <- <-] & H). rewrite Hst in H. apply V_bind_some in H as (r & v1 & Hsql & H).
  unfold vsql in Hsql. destruct (store_revoke_device _ _ _ _ _ _) as [[r0 []] c'] eqn:Hrev. injection Hsql as <- <-. cbn [fst] in H.
  destruct r0 as [e|x]; [destruct e; by apply (Herr _ _) in H|]. apply V_bind_some in H as (n & v2 & Hcl & H).
  apply V_bind_some in H as (s2 & v3 & [-> Hs2]%slot_at_some & H). do 2 apply V_bind_some in H as ([] & ? & [= <-] & H).
  apply V_bind_some in H as (s3 & v3 & [-> Hs3]%slot_at_some & H). apply V_bind_some in H as ([] & v3 & Hp & [_ ->]%V_ret_some).
  rewrite (put_lst _ _ _ _ _ _ Hp Hs3). eexists _, n, v2, _, x, c'. by split.
Qed.

(** C26: a device revocation that the local API confirms is complete.  Whatever
    the daemon has been through and whatever the line, when [REVOKE-DEVICE] is
    answered [OK] the handle has no active key and no token left, and no live
    connection speaks for it: every protocol connection whose record names the
    handle, at whatever stage of its handshake or session, has been closed and
    its record reset. *)
Theorem revocation_reaches_connections hs idle t v i line req h s d st act v' s' :
  0 < hs -> 0 < idle -> Z.max hs idle < 2 ^ 64 -> reached hs idle t v -> ev_has_close (v_ev v) = true ->
  ev_local (v_ev v) !! i = Some s -> c_mode (sl_io s) = CONN_IO_MODE_LINE -> cio (sl_io s) d [] ->
  app_store (y_app (v_sys v)) = Some st -> StoreLogic.idle (y_db (v_sys v)) ->
  parse_request line = Some req -> rq_cmd req = label "REVOKE-DEVICE" -> get_id req "handle" = Some h ->
  localapi_on_line (SLOT_KIND_LOCAL, i) line v = Some (act, v') ->
  ev_local (v_ev v') !! i = Some s' -> label "OK" `prefix_of` waiting (sl_io s') ->
  (forall j c, conns (y_app (v_sys v')) !! j = Some c -> ~ bound h false c) /\
  active_keys h (disk (y_db (v_sys v'))) = [] /\ Forall (fun k => t_handle k <> h) (tokens (disk (y_db (v_sys v')))).
Proof.
  intros Hh Hi Hm Hv Hcl Hs Hmode Hc Hst Hidle Hp Hcmd Hid H Hs' Hok. destruct (reached_linked _ _ _ _ Hh Hi Hm Hv) as [Hn Hl].
  eapply (line_handler _ _ _ h_revoke_device) in H as (v1 & Hev & Hdb & Happ & H); [|done|done|by rewrite Hcmd|right; by rewrite Hcmd].
  rewrite <-Hev in Hs. rewrite <-Happ in Hst. destruct (revoke_ok _ _ _ _ _ _ _ _ _ _ H Hs Hmode Hc Hs' Hok Hid Hst) as
    (v2 & n & v3 & reason & x & c' & Hrev & Hv2 & Hclose & Ha & Hd). rewrite Hdb in Hrev. split.
  - rewrite Ha. assert (named (v_ev v2) /\ linked v2) as [Hn2 Hl2].
    { assert (quiet v v2) as Hq by (rewrite Hv2; apply quiet_same; cbn; by rewrite ?Hev, ?Happ). split; [by eapply named_quiet|by eapply linked_quiet]. }
    apply (close_matching_spec _ _ _ _ _ Hclose); [by eapply get_id_pos|done|done|]. by rewrite Hv2, Hev.
  - rewrite Hd, (close_matching_db _ _ _ _ _ Hclose), Hv2. cbn [v_sys y_db]. apply atomic_inr in Hrev as [_ Hrev]; [|apply revoke_atomic|done].
    apply revoke_inr in Hrev as (row & _ & Hdisk). cbn [disk] in Hdisk. rewrite Hdisk. split; [apply retired_no_active|].
    cbn. apply Forall_forall. by intros k [? _]%list_elem_of_filter.
Qed.

(** ** Two pools, one table of records *)

(** C27: closing a slot of the local pool resets the connection record of the
    protocol slot with the same index, and leaves that slot as it is.  The hook
    looks the record up by [slot->index], which both pools count from zero: in
    every state the daemon gets to, when an open local slot [i] is closed, the
    record of connection [i] is back to FREE, its handshake or session gone,
    while the protocol slot [i] is untouched and stays open.  (The records are
    meant for protocol slots; the caller does not look at the kind.) *)
Theorem local_close_resets_record hs idle t v i s c x v' :
  0 < hs -> 0 < idle -> Z.max hs idle < 2 ^ 64 -> reached hs idle t v -> ev_has_close (v_ev v) = true ->
  ev_local (v_ev v) !! i = Some s -> open s -> conns (y_app (v_sys v)) !! i = Some c ->
  evloop_close_slot (SLOT_KIND_LOCAL, i) v = Some (x, v') ->
  (exists c', conns (y_app (v_sys v')) !! i = Some c' /\ c_stage c' = CONN_STAGE_FREE) /\
  ev_slots (v_ev v') !! i = ev_slots (v_ev v) !! i.
Proof.
  intros Hh Hi Hm Hv Hcl Hs Ho Hc H. destruct (reached_linked _ _ _ _ Hh Hi Hm Hv) as [Hn _].
  apply close_shape in H as (s0 & Hs0 & [[Hf _]|(_ & s' & _ & [_ Hp] & Hcs)]); cbn [fst snd pool] in Hs0; assert (s0 = s) as -> by congruence; [done|].
  destruct (Hn SLOT_KIND_LOCAL _ _ Hs) as [_ Hix]. rewrite Hcl in Hcs. destruct (on_close_conns s (v_sys v)) as (c' & Hc' & Heq); [lia|].
  apply lookup_lt_Some in Hc. rewrite Heq, Hix, Nat2Z.id, (proj2 (Z.ltb_lt _ _)) in Hcs by lia. split.
  - exists c'. rewrite Hcs. by rewrite list_lookup_insert_eq.
  - specialize (Hp SLOT_KIND_PROTO). cbn in Hp. by rewrite Hp.
Qed.
End links.
