(* ===== verification/LoopDemo.v ===== *)
(** * The daemon's loop in the toy environment

    Two peers connect, a client and an administrator; the client greets as
    Alice.  The theorems about the loop and its callbacks are applied to the
    states the run goes through. *)

From S2P Require Import Prelude Extern Toy WsUpgrade WsUpgradeDemo ConnIo ConnIoProps StoreDb StoreTx Store StoreLogic StoreDemo Recovery AccountDemo AuthdLog Slot AuthdConn AuthdDemo EvLoop EvLoopProps EvLoopTotal LocalReq LocalApi LocalApiLoop Daemon DaemonLinks.

(** ** The system underneath *)

(** A client behind listener 3 and an administrator behind listener 4, each
    accepted once; what the client sends is one frame. *)
Definition framed_hello : list byte := be_enc 4 (blen hello_frame) ++ hello_frame.

#[export] Instance toy_os : OS toy_env := {|
  os_read fd n w := if (fd =? 13) && (w =? 52) then (IO_OK (ztake n framed_hello), w + 1) else (IO_AGAIN, w);
  os_write fd p w := (IO_OK (blen p), w);
  os_poll ps t w := (IO_OK (snd <$> ps), w);
  os_accept fd w := if (0 <=? fd) && (w <? 100) && (w =? 47 + fd) then (IO_OK (fd + 10), w + 1) else (IO_AGAIN, w);
  os_close fd w := ((), w);
  os_getfl fd w := (Some 0, w);
  os_setfl fd fl w := (true, w);
  os_getfd fd w := (Some 0, w);
  os_setfd fd fl w := (true, w);
  os_peercred fd w := (Some (0, 1), w) |}.

#[export] Instance toy_os_law : OSLaw toy_env.
Proof.
  split; cbn [os_read os_write os_poll os_accept toy_os].
  - intros fd n w b w' Hn. destruct (_ && _); [|done]. intros [= <- _]. rewrite length_take. lia.
  - intros fd p w n w' [= <- _]. lia.
  - intros ps t w l w' [= <- _]. apply length_fmap.
  - intros fd w c w'. destruct (_ && _) eqn:Hb; [|done]. intros [= <- _]. lia.
Qed.

(** No call is interrupted. *)
Lemma toy_calm : few_interrupts 0.
Proof. split; intros; cbn [intr_le os_read os_write os_poll toy_os]; try done. by destruct (_ && _). Qed.

(** Lower-case digits. *)
Definition hex_digit (n : Z) : byte := u8 (if n <? 10 then 48 + n else 87 + n).
Definition hex_value (b : byte) : option Z :=
  if (48 <=? bz b) && (bz b <=? 57) then Some (bz b - 48) else if (97 <=? bz b) && (bz b <=? 102) then Some (bz b - 87) else None.
Fixpoint toy_bin2hex (l : list byte) : list byte :=
  match l with [] => [] | b :: l => hex_digit (bz b / 16) :: hex_digit (bz b mod 16) :: toy_bin2hex l end.
Fixpoint toy_unhex (l : list byte) : option (list byte) :=
  match l with
  | [] => Some []
  | h :: lo :: l => match hex_value h, hex_value lo, toy_unhex l with
                    | Some h, Some lo, Some r => Some (u8 (16 * h + lo) :: r)
                    | _, _, _ => None
                    end
  | _ => None
  end.
#[export] Instance toy_hex : Hex := {|
  sodium_bin2hex := toy_bin2hex;
  sodium_hex2bin cap t := match toy_unhex t with Some b => if blen b <=? cap then Some b else None | None => None end |}.

Lemma digit_bytes (b : byte) : let h := hex_digit (bz b / 16) in let l := hex_digit (bz b mod 16) in
  (48 <= bz h <= 57 \/ 97 <= bz h <= 102) /\ (48 <= bz l <= 57 \/ 97 <= bz l <= 102) /\
  hex_value h = Some (bz b / 16) /\ hex_value l = Some (bz b mod 16) /\ u8 (16 * (bz b / 16) + bz b mod 16) = b.
Proof. destruct b; vm_compute; split_and!; try done; (left; by split) || (right; by split). Qed.

#[export] Instance toy_hex_law : HexLaw toy_hex.
Proof.
  split; cbn [sodium_bin2hex sodium_hex2bin toy_hex].
  - intros b. induction b as [|x b IH]; [done|]. cbn [toy_bin2hex length]. lia.
  - intros b. induction b as [|x b IH]; [constructor|]. destruct (digit_bytes x) as (? & ? & _). cbn [toy_bin2hex]. constructor; [done|]. by constructor.
  - intros b cap Hc. assert (toy_unhex (toy_bin2hex b) = Some b) as ->; [|by rewrite (proj2 (Z.leb_le _ _))]. clear Hc.
    induction b as [|x b IH]; [done|]. destruct (digit_bytes x) as (_ & _ & H1 & H2 & H3). cbn [toy_bin2hex toy_unhex]. by rewrite H1, H2, IH, H3.
  - intros t b cap. destruct (toy_unhex t) as [b'|]; [|done]. destruct (_ <=? _) eqn:Hl; [|done]. intros [= ->]. lia.
Qed.

#[export] Instance toy_fs : FileSys toy_env := {|
  fs_create p w := (true, w); fs_vacuum p d w := (true, w); fs_chmod p m w := (true, w); fs_unlink p w := ((), w) |}.

(** ** The run *)

#[local] Instance demo_input : OnInput toy_env := authd_on_input 0.
#[local] Instance demo_input_law : OnInputLaw (OI := demo_input) := authd_on_input_law 0.

Definition ev_empty : evloop_t := EvLoop (slot_zero SLOT_KIND_PROTO <$> seq 0 2) 0 [] 0 [] 5000 60000 false true false (fun _ => 0).
Definition ev_both : evloop_t := (evloop_set_local ev_empty 2).2.
Definition ev_client : evloop_t := (evloop_add_listener ev_both 3 UID_NONE).2.
Definition ev0 : evloop_t := (evloop_add_local_listener ev_client 4 [] true).2.
Definition v0 : lst := Lst ev0 (Sys demo_app known 50 []).

(** What a computation that comes to an end leaves. *)
Definition after {A} (m : V A) (v : lst) : lst := match m v with Some (_, v') => v' | None => v end.
Definition value {A} (d : A) (m : V A) (v : lst) : A := match m v with Some (x, _) => x | None => d end.
Definition returned {A} (m : V A) (v : lst) : bool := match m v with Some _ => true | None => false end.
Lemma returned_eq {A} (d : A) (m : V A) v : returned m v = true -> m v = Some (value d m v, after m v).
Proof. unfold returned, value, after. by destruct (m v) as [[x v']|]. Qed.

(** Both peers are accepted; then the client's frame is read. *)
Abbreviation turn1 := (evloop_run_once 20 50 1000).
Definition v1 : lst := after turn1 v0.
Abbreviation turn2 := (evloop_run_once 20 50 2000).
Definition v2 : lst := after turn2 v1.

Lemma turn1_eq : turn1 v0 = Some (value 0 turn1 v0, v1).
Proof. unfold v1. apply (returned_eq 0 turn1 v0). vm_compute. reflexivity. Qed.
Lemma turn2_eq : turn2 v1 = Some (value 0 turn2 v1, v2).
Proof. unfold v2. apply (returned_eq 0 turn2 v1). vm_compute. reflexivity. Qed.

Lemma set_up_ev0 : set_up 5000 60000 ev0.
Proof. exact (set_up_local_listener _ _ ev_client 4 [] true (set_up_listener _ _ ev_both 3 UID_NONE (set_up_local _ _ ev_empty 2 (set_up_init _ _ 2 true ev_empty eq_refl)))). Qed.
Lemma no_conns : idle_conns (Sys demo_app known 50 []).
Proof. apply Forall_singleton. reflexivity. Qed.
Lemma reached_v0 : reached 5000 60000 0 v0.
Proof. exact (reached_start _ _ ev0 _ set_up_ev0 no_conns). Qed.
Lemma reached_v1 : reached 5000 60000 1000 v1.
Proof. exact (reached_once 5000 60000 0 20 50 1000 v0 _ v1 reached_v0 ltac:(lia) ltac:(lia) turn1_eq). Qed.
Lemma reached_v2 : reached 5000 60000 2000 v2.
Proof. exact (reached_once 5000 60000 1000 20 50 2000 v1 _ v2 reached_v1 ltac:(lia) ltac:(lia) turn2_eq). Qed.

Lemma loop_invariant_witness : ev_ok (within 2000 5000 60000) 5000 60000 (v_ev v2).
Proof. apply (loop_invariant 5000 60000 2000 v2); [lia|lia|lia|exact reached_v2]. Defined.

Definition slot_of (k : slot_kind_t) (i : nat) (v : lst) : authd_slot_t := default (slot_zero k i) (pool k (v_ev v) !! i).
Lemma slot_of_eq k i v : bool_decide (is_Some (pool k (v_ev v) !! i)) = true -> pool k (v_ev v) !! i = Some (slot_of k i v).
Proof. intros [s Hs]%bool_decide_eq_true. unfold slot_of. by rewrite Hs. Qed.

Lemma local_eq i v : bool_decide (is_Some (ev_local (v_ev v) !! i)) = true -> ev_local (v_ev v) !! i = Some (slot_of SLOT_KIND_LOCAL i v).
Proof. exact (slot_of_eq SLOT_KIND_LOCAL i v). Qed.

Lemma client_slot : pool SLOT_KIND_PROTO (v_ev v2) !! 0%nat = Some (slot_of SLOT_KIND_PROTO 0 v2).
Proof. apply slot_of_eq. vm_compute. reflexivity. Qed.
Lemma admin_slot : pool SLOT_KIND_LOCAL (v_ev v2) !! 0%nat = Some (slot_of SLOT_KIND_LOCAL 0 v2).
Proof. apply slot_of_eq. vm_compute. reflexivity. Qed.

Lemma deadlines_enforced_witness : 2000 < sl_deadline_ms (slot_of SLOT_KIND_PROTO 0 v2) <= 62000.
Proof.
  apply (deadlines_enforced 5000 60000 1000 v1 20 50 2000 (value 0 turn2 v1) v2 ltac:(lia) ltac:(lia) ltac:(lia) reached_v1 ltac:(lia) ltac:(lia)
    turn2_eq ltac:(vm_compute; discriminate) SLOT_KIND_PROTO 0%nat); [exact client_slot|vm_compute; discriminate].
Defined.

(** The poll set of the next iteration. *)
Definition entries := value ([], []) poll_set v2.
Lemma poll_eq : poll_set v2 = Some ((entries.1, entries.2), after poll_set v2).
Proof. unfold entries. rewrite <-surjective_pairing. apply (returned_eq ([], []) poll_set v2). vm_compute. reflexivity. Qed.

Lemma poll_set_complete_witness :
  blen entries.2 <= AUTHD_SLOTS_POLL_MAX /\ entries.1 = [(3, POLLIN); (4, POLLIN)] /\
  let s := slot_of SLOT_KIND_PROTO 0 (after poll_set v2) in open s /\ (sl_fd s, wanted s, (SLOT_KIND_PROTO, 0%nat)) ∈ entries.2.
Proof.
  destruct (poll_set_complete 5000 60000 2000 v2 entries.1 entries.2 (after poll_set v2) ltac:(lia) ltac:(lia) ltac:(lia) reached_v2 poll_eq)
    as (_ & Hn & Hl & Hs). split; [exact Hn|]. split; [rewrite Hl; vm_compute; reflexivity|].
  assert (open (slot_of SLOT_KIND_PROTO 0 (after poll_set v2))) as Ho by (vm_compute; discriminate). split; [exact Ho|].
  apply Hs; [|exact Ho]. apply slot_of_eq. vm_compute. reflexivity.
Defined.

(** ** The administrator's lines *)

Lemma admin_open : open (slot_of SLOT_KIND_LOCAL 0 v2).
Proof. vm_compute. discriminate. Qed.
Lemma admin_mode : c_mode (sl_io (slot_of SLOT_KIND_LOCAL 0 v2)) = CONN_IO_MODE_LINE.
Proof. vm_compute. reflexivity. Qed.

Lemma admin_local : ev_local (v_ev v2) !! 0%nat = Some (slot_of SLOT_KIND_LOCAL 0 v2).
Proof. apply (local_eq 0 v2). vm_compute. reflexivity. Qed.

(** Nothing waits to be written. *)
Lemma admin_io : exists d, cio (sl_io (slot_of SLOT_KIND_LOCAL 0 v2)) d [].
Proof.
  destruct (reached_ok 5000 60000 2000 v2 ltac:(lia) ltac:(lia) ltac:(lia) reached_v2) as (_ & _ & Hok).
  destruct (so_io _ _ _ _ (eo_slots _ _ _ _ Hok _ _ _ admin_slot)) as (d & q & Hc). exists d.
  assert (q = []) as <-; [|exact Hc]. apply nil_length_inv. pose proof (cio_out_len _ _ _ Hc) as Hl.
  assert (c_out_len (sl_io (slot_of SLOT_KIND_LOCAL 0 v2)) = 0) as H0 by (vm_compute; reflexivity). lia.
Qed.


Definition revoke_line : list byte := label "REVOKE-DEVICE handle=616c696365".
Definition revoke_req : req_t := Req (label "REVOKE-DEVICE") [KV (label "handle") (label "616c696365")].
Abbreviation revoking := (localapi_on_line (SLOT_KIND_LOCAL, 0%nat) revoke_line).
Definition v3 : lst := after revoking v2.
Lemma revoke_eq : revoking v2 = Some (value EV_ACTION_CLOSE revoking v2, v3).
Proof. unfold v3. apply (returned_eq EV_ACTION_CLOSE revoking v2). vm_compute. reflexivity. Qed.
Lemma revoked_slot : ev_local (v_ev v3) !! 0%nat = Some (slot_of SLOT_KIND_LOCAL 0 v3).
Proof. apply (local_eq 0 v3). vm_compute. reflexivity. Qed.

(** The client had greeted as Alice when her device was revoked. *)
Lemma was_bound : exists c, conns (y_app (v_sys v2)) !! 0%nat = Some c /\ c_stage c = CONN_STAGE_AWAIT_CA /\ bound (label "alice") false c.
Proof.
  exists (default conn_zero (conns (y_app (v_sys v2)) !! 0%nat)). split; [|split; [vm_compute; reflexivity|]].
  - assert (bool_decide (is_Some (conns (y_app (v_sys v2)) !! 0%nat)) = true) as [c Hc]%bool_decide_eq_true by (vm_compute; reflexivity). by rewrite Hc.
  - split; [vm_compute; discriminate|]. split; vm_compute; reflexivity.
Qed.

Lemma said_ok : label "OK" `prefix_of` waiting (sl_io (slot_of SLOT_KIND_LOCAL 0 v3)).
Proof. exists [x0a]. vm_compute. reflexivity. Qed.

Lemma revocation_reaches_connections_witness :
  (exists c, conns (y_app (v_sys v2)) !! 0%nat = Some c /\ c_stage c = CONN_STAGE_AWAIT_CA /\ bound (label "alice") false c) /\
  (forall j c, conns (y_app (v_sys v3)) !! j = Some c -> ~ bound (label "alice") false c) /\
  active_keys (label "alice") (disk (y_db (v_sys v3))) = [] /\ Forall (fun k => t_handle k <> label "alice") (tokens (disk (y_db (v_sys v3)))).
Proof.
  split; [exact was_bound|]. destruct admin_io as [d Hd].
  apply (revocation_reaches_connections 0 5000 60000 2000 v2 0 revoke_line revoke_req (label "alice") (slot_of SLOT_KIND_LOCAL 0 v2) d StoreDemo.st
    (value EV_ACTION_CLOSE revoking v2) v3 (slot_of SLOT_KIND_LOCAL 0 v3) ltac:(lia) ltac:(lia) ltac:(lia) reached_v2
    ltac:(vm_compute; reflexivity) admin_local admin_mode Hd ltac:(vm_compute; reflexivity) ltac:(vm_compute; reflexivity) ltac:(vm_compute; reflexivity)
    eq_refl ltac:(vm_compute; reflexivity) revoke_eq revoked_slot said_ok).
Defined.

(** The administrator hangs up: the client's connection is gone as well. *)
Abbreviation hang_up := (evloop_close_slot (SLOT_KIND_LOCAL, 0%nat)).
Lemma returned_unit (m : V unit) v : returned m v = true -> m v = Some ((), after m v).
Proof. unfold returned, after. by destruct (m v) as [[[] v']|]. Qed.
Lemma hang_up_eq : hang_up v2 = Some ((), after hang_up v2).
Proof. apply (returned_unit hang_up v2). vm_compute. reflexivity. Qed.

Lemma local_close_resets_record_witness :
  (exists c, conns (y_app (v_sys v2)) !! 0%nat = Some c /\ c_stage c = CONN_STAGE_AWAIT_CA /\ bound (label "alice") false c) /\
  (exists c', conns (y_app (v_sys (after hang_up v2))) !! 0%nat = Some c' /\ c_stage c' = CONN_STAGE_FREE) /\
  ev_slots (v_ev (after hang_up v2)) !! 0%nat = ev_slots (v_ev v2) !! 0%nat.
Proof.
  split; [exact was_bound|]. destruct was_bound as (c & Hc & _).
  exact (local_close_resets_record 0 5000 60000 2000 v2 0 (slot_of SLOT_KIND_LOCAL 0 v2) c () (after hang_up v2) ltac:(lia) ltac:(lia) ltac:(lia) reached_v2
    ltac:(vm_compute; reflexivity) admin_local admin_open Hc hang_up_eq).
Defined.

(** ** Iterations come to an end *)

Definition rounds : nat := S (Z.to_nat AUTHD_IN_BUF_BYTES).
Lemma rounds_enough : (0 < rounds)%nat /\ AUTHD_IN_BUF_BYTES < Z.of_nat rounds.
Proof. unfold rounds. split; lia. Qed.

(** The client's frame waits to be read; then the daemon is told to stop. *)
Definition stopped : lst := Lst (evloop_stop (v_ev v1)) (v_sys v1).
Lemma reached_stopped : reached 5000 60000 1000 stopped.
Proof. exact (reached_stop 5000 60000 1000 v1 reached_v1). Qed.

